(* ===== verification/_CoqProject ===== *)
-Q . S2P
Prelude.v
Crc.v
Cobs.v
Frame.v
RxRing.v
RingThreads.v
RingShape.v
Slots.v
UnitQueue.v
Link.v
LinkInv.v
LinkProps.v
LinkReady.v
LinkMem.v
LinkSteps.v
LinkData.v
LinkTrace.v
LinkFair.v
LinkMessage.v
LinkDelivery.v
LinkPair.v
LinkLease.v
Pump.v
Endpoint.v
EndpointPass.v
Fifo.v
Latest.v
Outbox.v
Clock.v
Bulk.v
BulkSender.v
BulkSending.v
BulkReceiver.v
BulkSession.v
BulkTransfer.v
BulkLive.v
Rpc.v
RpcClient.v
RpcCalls.v
RpcServer.v
RpcHistory.v
RpcLedger.v
RpcServing.v
RpcOnce.v
RpcPromises.v
RpcRefine.v
RpcAsync.v
RpcAsyncOnce.v
KernelWire.v
PacketPort.v
Kernel.v
KernelOnce.v
FixedPool.v
