(* ===== verification/Prelude.v ===== *)
(** * Wirelink: a verification library

    Wirelink is an allocation-free C11 library that carries messages over byte streams
    and packet transports: framing and checksums, a stop-and-wait reliable link, queues
    between interrupt handlers and the owner thread, remote calls, and bulk transfer.
    This library models its protocol engines as Rocq functions and proves what they
    promise.  The paths below are relative to the repository.

    ** Parts and files

    - Bytes on the wire.  [Crc] ([src/crc.c], [src/crc_internal.h]), [Cobs]
      ([src/cobs.c]) and [Frame] ([src/frame.c], [src/frame_internal.h],
      [src/frame_cobs_crc16.c], [src/link_frame.h], [src/link_profile.h]).  Loops over
      memory are compared with pure reference functions on byte strings.
    - Ingress.  [RxRing], [RingThreads] and [RingShape] ([src/rx_ring_bipbuf.c]) for
      byte streams, [UnitQueue] ([src/unit_rx.c]) for packets, [Slots] for what queues
      share.
    - The link.  [Link] has the state [wl_ctx] and every operation of
      [src/protocol.c], [src/transport.c], [src/init.c], [src/schedule.c] and
      [src/unit_frame.c].  [LinkInv], [LinkProps] and [LinkReady] treat its flags, its
      bounds and its readiness; [LinkMem], [LinkSteps], [LinkData], [LinkTrace],
      [LinkFair], [LinkMessage] and [LinkDelivery] the bytes it carries; [LinkPair] two
      links and the channel between them; [LinkLease] received payloads on loan.
    - The owner.  [Pump] ([src/pump.c]) runs one pass over a link, [Endpoint] and
      [EndpointPass] ([src/endpoint.c]) a link with a clock, adapter, policy and
      services.
    - Values between threads.  [Fifo] ([src/fifo.c]), [Latest] ([src/latest.c]) and
      [Outbox] ([src/outbox.c]), each refined to an abstract data type.
    - Bulk transfer.  [Bulk], [BulkSender] and [BulkSending] ([src/bulk_sender.c]),
      [BulkReceiver] and [BulkSession] ([src/bulk_receiver.c]), [BulkTransfer] and
      [BulkLive] for both ends over a network.
    - Remote calls.  [Rpc], [RpcClient] and [RpcCalls] for the client of [src/rpc.c];
      [RpcServer], [RpcHistory], [RpcLedger], [RpcServing], [RpcOnce], [RpcPromises] and
      [RpcRefine] for the server; [RpcAsync] and [RpcAsyncOnce] for [src/rpc_async.c],
      which puts the client on top of the link.  [Clock] has the interval arithmetic of
      the wrapping millisecond clock.
    - The static kernel under [experimental/static_kernel].  [KernelWire]
      ([rpc_wire.c], [native_none.c]), [PacketPort] ([packet_port.c]), [Kernel] and
      [KernelOnce] ([kernel.c]).
    - The allocator for generated endpoints.  [FixedPool]
      ([runtime/storage/src/fixed_pool.c], [allocator.h]).

    This file has what they share: machine integers, record update, flat memory, byte
    strings, result codes, and the lemmas about them.

    ** How the code is represented

    A C structure is a record with the fields of the source, and a function is a
    definition with the guards and early returns of the source in their order; it
    returns the new state, the result code and what it stores through its output
    pointers.  Unsigned integers are [Z] with the wrap-around written out where the
    source truncates or may overflow.  Buffers are addresses of one flat memory
    [mem := Z -> Z], so that payloads staged inside an output buffer and decoding in
    place mean in the model what they mean in C; [NULL] is 0.  A pointer to a library
    object is the object itself, so the tests of such pointers against null have no
    counterpart.  A loop is a structural recursion, or a recursion on fuel.

    Code outside the repository is a parameter: the answers of the platform sink
    ([Platform]), the application's sink ([BulkSink]), and function pointers of user
    and generated code, values of a type [F] that [PumpCode], [EndpointCode],
    [AsyncCode], [PacketCode] and [KernelCode] interpret over a world [W].  What the
    interfaces document about such code is a record of laws ([pump_laws],
    [callback_laws], [async_laws], [sink_laws], [kernel_laws] and the like); each is
    shown to be satisfiable by the concrete code of a witness.  Callbacks that may
    reenter the library are given the whole state to work on and are constrained to the
    operations they may call.

    Producer and consumer of the shared queues are interleaved operation by operation;
    an operation is split where its result depends on two accesses to what the other
    side writes, as in [Latest] and [RingThreads], and stores into claimed memory are
    steps of their own.  The link takes the operations of its ring as wholes.  The
    memory model is sequentially consistent.  Some states carry logs that no
    operation reads, for statements about histories: units given to the sink, events,
    accepted and completed calls.

    ** What is proved

    - Encoders write exactly the reference image or nothing; decoders accept exactly
      the images of valid packets; round trips; the fused COBS and CRC-16 decoder
      equals the composition of its parts; kernel packets are ordinary frames.
    - In every interleaving the ring, the two unit queues and the FIFO hand out what
      was committed, in order and unchanged, the ring as long as its consumer does not
      consume zero bytes; the mailbox is a one-place register and the outbox a map of
      newest values without starvation.
    - Over a channel that loses, repeats and reorders, a message reported as delivered
      was delivered with the same bytes; over one that keeps the order, messages arrive
      in order and once.  The number of transmissions is bounded, units on their way are
      the submitted message byte for byte, ownership flags agree.
    - A pass of the owner handles at most its budget, deals with each event before it
      polls the next, reports what it did, and keeps the link's invariant; an
      endpoint that reports nothing runnable may sleep until the deadline it gives.
    - A bulk object that the sink commits is the object that was sent; the calls to the
      sink form proper sessions; the transfer completes when nothing is lost.
    - A request is executed at most once and replayed exactly while its entry is kept;
      every operation of the server has its exact effect on a ledger; an admitted
      request can always be completed; client handles answer for one call only.
    - Every accepted asynchronous call and every accepted call of the static kernel is
      completed exactly once, whatever its callback starts, and closing completes all.
    - The pool keeps the allocator contract.

    Six theorems are about defects or departures from the documentation:
    [wl_cobs_decode_overrun], [ring_threads_fifo], [unit_wrap_collision],
    [link_retry_ignores_drain], [bulk_stale_terminal_code] and
    [bulk_stale_next_offset].

    ** Bounds and fuel

    Fuel is only used for loops whose number of rounds the source bounds: the bytes
    of an input, the slots of a table, the event budget of a pass, the budget of a
    kernel step ([step_loop_fuel] shows that more changes nothing), the 64 bits of a
    word, the five groups of an operation number.  The closing theorem of the kernel
    uses the full budget of 16, which is enough because a round costs at most three and
    delivers one of at most four calls.

    ** Not modelled

    The adapters for Zephyr, serial lines, USB, UDP and loopback, the host runtime and
    the C++ bindings are driver and thread glue against systems outside the repository;
    the engines see them through the interfaces above.  [diagnostics.c] formats
    counters as text.  Generated code comes from a schema compiler that is not part of
    the repository.  Examples, samples, benchmarks, fuzzers and tests exercise the
    library.  Of the build configurations the general one is modelled.  Weak memory
    orders and the alignment of objects are below the level of the model. *)

From stdpp Require Export base numbers list.
From Stdlib Require Export ZArith Lia ZifyBool.

#[global] Open Scope Z_scope.
#[global] Set Default Goal Selector "!".

(** ** Machine integers

    Unsigned C integers are [Z] values kept in range by an explicit
    wrap-around; the models write [u8], [u16], [u32] and [u64] exactly where
    the source truncates or where unsigned arithmetic may overflow.  [size_t]
    and [uintptr_t] have 64 bits, as on the hosted build. *)

Definition u8 (x : Z) : Z := x mod 2 ^ 8.
Definition u16 (x : Z) : Z := x mod 2 ^ 16.
Definition u32 (x : Z) : Z := x mod 2 ^ 32.
Definition u64 (x : Z) : Z := x mod 2 ^ 64.
Definition usize (x : Z) : Z := x mod 2 ^ 64.

Definition UINT16_MAX : Z := 2 ^ 16 - 1.
Definition UINT32_MAX : Z := 2 ^ 32 - 1.
Definition UINT64_MAX : Z := 2 ^ 64 - 1.
Definition SIZE_MAX : Z := 2 ^ 64 - 1.

Definition is_byte (b : Z) : Prop := 0 <= b < 256.
Definition is_u16 (x : Z) : Prop := 0 <= x < 2 ^ 16.
Definition is_u32 (x : Z) : Prop := 0 <= x < 2 ^ 32.
Definition is_u64 (x : Z) : Prop := 0 <= x < 2 ^ 64.
Definition is_size (x : Z) : Prop := 0 <= x < 2 ^ 64.

(** ** Record update

    [s <| f := v |>] is the assignment [s->f = v].  A record opts in by giving
    its [Rebuild] instance, the record built again from its own projections;
    the setter of a field is then derived by abstracting that projection. *)
Class Rebuild (R : Type) := rebuild : R → R.

Class FieldSet {R T : Type} (field : R → T) :=
  with_field : (T → T) → R → R.
Arguments with_field {R T} field {_} _ _ /.
#[global] Strategy expand [with_field].

Ltac derive_field_set :=
  lazymatch goal with
  | |- @FieldSet ?R ?T ?field =>
      let upd := fresh "upd" in
      let s := fresh "s" in
      intros upd s;
      let whole := eval hnf in (rebuild s) in
      let abs := eval pattern (field s) in whole in
      lazymatch abs with
      | ?k _ => let t := eval cbv beta in (k (upd (field s))) in exact t
      end
  end.

#[export] Hint Extern 1 (@FieldSet _ _ _) =>
  derive_field_set : typeclass_instances.

Notation "s <| f := v |>" := (with_field f (λ _, v) s)
  (at level 12, left associativity, f at level 9,
   format "s  <|  f  :=  v  |>").

(** ** Return codes of [include/wirelink/types.h] *)
Inductive wl_err :=
  | WL_OK
  | WL_ERR_INVALID_ARG
  | WL_ERR_NOT_INITIALIZED
  | WL_ERR_NOT_SUPPORTED
  | WL_ERR_NO_MEM
  | WL_ERR_BUF_TOO_SMALL
  | WL_ERR_NO_SPACE
  | WL_ERR_NO_DATA
  | WL_ERR_BAD_FRAME
  | WL_ERR_COBS_DECODE
  | WL_ERR_CRC
  | WL_ERR_FRAME_TOO_LONG
  | WL_ERR_BUSY
  | WL_ERR_TIMEOUT
  | WL_ERR_TX_FAILED
  | WL_ERR_INVALID_STATE
  | WL_ERR_WOULD_BLOCK
  | WL_ERR_QUEUE_FULL
  | WL_ERR_NOT_FOUND
  | WL_ERR_PAYLOAD_TOO_LONG
  | WL_ERR_IO
  | WL_ERR_CANCELLED
  | WL_ERR_PROTOCOL_VERSION
  | WL_ERR_REENTRANT
  | WL_ERR_ID_EXHAUSTED
  | WL_ERR_CORRUPT_PAYLOAD.

#[export] Instance wl_err_eq_dec : EqDecision wl_err.
Proof. solve_decision. Defined.

(** The [int32_t] value of each code, for the places where the source mixes
    codes with plain integers. *)
Definition wl_err_code (e : wl_err) : Z :=
  match e with
  | WL_OK => 0
  | WL_ERR_INVALID_ARG => -1
  | WL_ERR_NOT_INITIALIZED => -2
  | WL_ERR_NOT_SUPPORTED => -3
  | WL_ERR_NO_MEM => -10
  | WL_ERR_BUF_TOO_SMALL => -11
  | WL_ERR_NO_SPACE => -12
  | WL_ERR_NO_DATA => -13
  | WL_ERR_BAD_FRAME => -20
  | WL_ERR_COBS_DECODE => -21
  | WL_ERR_CRC => -22
  | WL_ERR_FRAME_TOO_LONG => -23
  | WL_ERR_BUSY => -30
  | WL_ERR_TIMEOUT => -31
  | WL_ERR_TX_FAILED => -32
  | WL_ERR_INVALID_STATE => -33
  | WL_ERR_WOULD_BLOCK => -34
  | WL_ERR_QUEUE_FULL => -35
  | WL_ERR_NOT_FOUND => -36
  | WL_ERR_PAYLOAD_TOO_LONG => -37
  | WL_ERR_IO => -38
  | WL_ERR_CANCELLED => -39
  | WL_ERR_PROTOCOL_VERSION => -40
  | WL_ERR_REENTRANT => -41
  | WL_ERR_ID_EXHAUSTED => -42
  | WL_ERR_CORRUPT_PAYLOAD => -50
  end.

Definition is_ok (e : wl_err) : bool := bool_decide (e = WL_OK).

(** ** Flat byte memory

    Buffers passed by pointer live in one flat memory indexed by address, so
    that two spans of the program alias in the model exactly when they alias
    in C.  The null pointer is address 0. *)
Definition mem := Z → Z.
Definition NULL : Z := 0.

Definition mset (m : mem) (a v : Z) : mem := λ x, if x =? a then v else m x.

Fixpoint mread (m : mem) (a : Z) (n : nat) : list Z :=
  match n with
  | O => []
  | S n => m a :: mread m (a + 1) n
  end.

Fixpoint mwrite (m : mem) (a : Z) (l : list Z) : mem :=
  match l with
  | [] => m
  | b :: l => mwrite (mset m a b) (a + 1) l
  end.

(** [memmove(dst, src, n)]; also [memcpy] on the disjoint spans it is called
    with. *)
Definition memmove (m : mem) (dst src n : Z) : mem :=
  mwrite m dst (mread m src (Z.to_nat n)).

(** [wl_span_t] *)
Record wl_span := mk_span { span_data : Z; span_length : Z }.

Section Memory.
Implicit Types (m : mem) (a v n : Z) (l : list Z).

Lemma mset_eq m a v : mset m a v a = v.
Proof. unfold mset. by rewrite Z.eqb_refl. Qed.

Lemma mset_ne m a v x : x ≠ a → mset m a v x = m x.
Proof. intros H. unfold mset. by destruct (Z.eqb_spec x a). Qed.

Lemma mread_length m a k : length (mread m a k) = k.
Proof. revert a. induction k; intros; simpl; auto. Qed.

Lemma mread_lookup m a k i :
  (i < k)%nat → mread m a k !! i = Some (m (a + Z.of_nat i)).
Proof.
  revert a i. induction k as [|k IH]; intros a i Hi; [lia|].
  destruct i as [|i]; simpl; [by rewrite Z.add_0_r|].
  rewrite IH by lia. do 2 f_equal. lia.
Qed.

Lemma mread_app m a j k :
  mread m a (j + k) = mread m a j ++ mread m (a + Z.of_nat j) k.
Proof.
  revert a. induction j as [|j IH]; intros a; simpl; [by rewrite Z.add_0_r|].
  rewrite IH. do 3 f_equal. lia.
Qed.

Lemma mread_snoc m a k :
  mread m a (S k) = mread m a k ++ [m (a + Z.of_nat k)].
Proof. replace (S k) with (k + 1)%nat by lia. by rewrite mread_app. Qed.

(** Two memories that agree on a span read the same bytes from it. *)
Lemma mread_ext m1 m2 a k :
  (∀ x, a <= x < a + Z.of_nat k → m1 x = m2 x) → mread m1 a k = mread m2 a k.
Proof.
  revert a. induction k as [|k IH]; intros a H; simpl; [done|].
  rewrite H by lia. f_equal. apply IH. intros. apply H. lia.
Qed.

Lemma mread_mset_out m a v b k :
  a < b ∨ b + Z.of_nat k <= a → mread (mset m a v) b k = mread m b k.
Proof. intros H. apply mread_ext. intros x Hx. apply mset_ne. lia. Qed.

Lemma mwrite_out m a l x :
  x < a ∨ a + Z.of_nat (length l) <= x → mwrite m a l x = m x.
Proof.
  revert m a. induction l as [|b l IH]; intros m a H; simpl in *; [done|].
  rewrite IH by lia. apply mset_ne. lia.
Qed.

Lemma mwrite_in m a l i v :
  l !! i = Some v → mwrite m a l (a + Z.of_nat i) = v.
Proof.
  revert m a i. induction l as [|b l IH]; intros m a i H; [done|].
  destruct i as [|i]; simpl in *.
  - simplify_eq. rewrite mwrite_out by lia. rewrite Z.add_0_r. apply mset_eq.
  - replace (a + Z.of_nat (S i)) with (a + 1 + Z.of_nat i) by lia. by apply IH.
Qed.

Lemma mread_mwrite m a l k :
  k = length l → mread (mwrite m a l) a k = l.
Proof.
  intros ->. apply list_eq. intros i.
  destruct (decide (i < length l)%nat) as [Hi|Hi].
  - rewrite mread_lookup by done. destruct (lookup_lt_is_Some_2 l i Hi) as [v Hv].
    rewrite Hv. by rewrite (mwrite_in _ _ _ _ _ Hv).
  - rewrite !lookup_ge_None_2; [done| |rewrite mread_length]; lia.
Qed.

Lemma mread_mwrite_out m a l b k :
  b + Z.of_nat k <= a ∨ a + Z.of_nat (length l) <= b →
  mread (mwrite m a l) b k = mread m b k.
Proof. intros H. apply mread_ext. intros x Hx. apply mwrite_out. lia. Qed.

Lemma mwrite_app m a l1 l2 :
  mwrite m a (l1 ++ l2) = mwrite (mwrite m a l1) (a + Z.of_nat (length l1)) l2.
Proof.
  revert m a. induction l1 as [|b l1 IH]; intros m a; simpl; [by rewrite Z.add_0_r|].
  rewrite IH. f_equal. lia.
Qed.
Lemma mread_take m a j k : take j (mread m a k) = mread m a (j `min` k).
Proof.
  revert a k. induction j as [|j IH]; intros a [|k]; simpl; [done..|]. by rewrite IH.
Qed.

Lemma mread_drop m a j k :
  drop j (mread m a k) = mread m (a + Z.of_nat j) (k - j).
Proof.
  revert a k. induction j as [|j IH]; intros a [|k]; simpl;
    rewrite ?Z.add_0_r; [done..|]. rewrite IH. f_equal. lia.
Qed.

(** The span of a suffix. *)
Lemma mread_suffix m a l j :
  mread m a (length l) = l →
  mread m (a + Z.of_nat j) (length (drop j l)) = drop j l.
Proof. intros H. rewrite length_drop, <- mread_drop. by rewrite H. Qed.
End Memory.

(** [stored m m' dst l]: [m'] is [m] with [l] stored at [dst]. *)
Definition stored (m m' : mem) (dst : Z) (d : list Z) : Prop :=
  mread m' dst (length d) = d ∧
  ∀ x, x < dst ∨ dst + Z.of_nat (length d) <= x → m' x = m x.

Lemma stored_app m m1 m2 dst d1 d2 :
  stored m m1 dst d1 → stored m1 m2 (dst + Z.of_nat (length d1)) d2 →
  stored m m2 dst (d1 ++ d2).
Proof.
  intros [R1 F1] [R2 F2]. split.
  - rewrite length_app, mread_app, R2. f_equal.
    rewrite <- R1 at 2. apply mread_ext. intros x Hx. apply F2. lia.
  - intros x Hx. rewrite length_app in Hx. rewrite F2, F1 by lia. done.
Qed.

Lemma stored_set m dst b : stored m (mset m dst b) dst [b].
Proof. split; simpl; [by rewrite mset_eq|]. intros x Hx. apply mset_ne. lia. Qed.

Lemma stored_nil m dst : stored m m dst [].
Proof. by split. Qed.

(** A span the stores stay clear of keeps its bytes. *)
Lemma stored_keeps m m' dst d a l :
  stored m m' dst d → mread m a (length l) = l →
  dst + Z.of_nat (length d) <= a ∨ a + Z.of_nat (length l) <= dst →
  mread m' a (length l) = l.
Proof.
  intros [_ F] <- H. rewrite mread_length. apply mread_ext.
  intros x Hx. apply F. rewrite mread_length in *. lia.
Qed.

Lemma stored_mwrite m a l : stored m (mwrite m a l) a l.
Proof. split; [by apply mread_mwrite|]. intros. by apply mwrite_out. Qed.

(** The same with the second part stored first. *)
Lemma stored_app_rev m m1 m2 dst d1 d2 :
  stored m m1 (dst + Z.of_nat (length d1)) d2 → stored m1 m2 dst d1 →
  stored m m2 dst (d1 ++ d2).
Proof.
  intros [R2 F2] [R1 F1]. split.
  - rewrite length_app, mread_app, R1. f_equal.
    rewrite <- R2 at 2. apply mread_ext. intros x Hx. apply F1. lia.
  - intros x Hx. rewrite length_app in Hx. rewrite F1, F2 by lia. done.
Qed.

Lemma stored_unique m m1 m2 dst l :
  stored m m1 dst l → stored m m2 dst l → ∀ x, m1 x = m2 x.
Proof.
  intros [R1 F1] [R2 F2] x.
  destruct (decide (x < dst ∨ dst + Z.of_nat (length l) <= x)); [by rewrite F1, F2|].
  rewrite <- R2 in R1 at 2. apply (f_equal (.!! Z.to_nat (x - dst))) in R1.
  rewrite !mread_lookup in R1 by lia.
  replace (dst + Z.of_nat (Z.to_nat (x - dst))) with x in R1 by lia. by injection R1.
Qed.

(** Earlier stores inside the span do not matter. *)
Lemma stored_over m m1 m' dst l :
  (∀ x, x < dst ∨ dst + Z.of_nat (length l) <= x → m1 x = m x) →
  stored m1 m' dst l → stored m m' dst l.
Proof. intros H [R F]. split; [done|]. intros x Hx. by rewrite F, H. Qed.

(** ** Shared automation *)

(** Splits every [if] and boolean [match] of the goal, remembering the
    condition, and closes what [lia] or [congruence] can close. *)
Ltac split_ifs :=
  repeat match goal with
  | |- context [if ?b then _ else _] =>
      let E := fresh "E" in destruct b eqn:E; try (exfalso; congruence)
  end.

Ltac split_ifs_in H :=
  repeat match type of H with
  | context [if ?b then _ else _] =>
      let E := fresh "E" in destruct b eqn:E; try congruence
  end.

(** [lia] with the word sizes and ranges of this development unfolded. *)
Ltac sz_lia :=
  unfold UINT16_MAX, UINT32_MAX, UINT64_MAX, SIZE_MAX, NULL,
    is_byte, is_u16, is_u32, is_u64, is_size in *; lia.

Ltac div_lia :=
  unfold UINT16_MAX, UINT32_MAX, UINT64_MAX, SIZE_MAX, NULL,
    is_byte, is_u16, is_u32, is_u64, is_size in *;
  Z.to_euclidean_division_equations; lia.

(** Name the state an operation returned, in [H : f s = (s', _)]. *)
Ltac name_result H x :=
  lazymatch type of H with _ = (?t, _) => set (x := t) in H end.

(** Discharges a closed side condition by evaluation. *)
Ltac by_compute :=
  vm_compute;
  repeat first
    [ reflexivity | discriminate | congruence
    | match goal with
      | |- _ ∧ _ => split
      | |- Forall _ _ => constructor
      | |- _ ∨ _ => first [left; solve [by_compute] | right; solve [by_compute]]
      end ].

Create HintDb wl discriminated.
Create Rewrite HintDb wl.
#[export] Hint Rewrite mread_length length_app : wl.

(** A call that returned [e], with what else it returned. *)
Lemma result_eta {A B} (r : A * wl_err * B) e : r.1.2 = e → r = (r.1.1, e, r.2).
Proof. destruct r as [[??]?]. simpl. by intros ->. Qed.

(** ** Lists of bytes *)

Lemma Forall_byte_app (l1 l2 : list Z) :
  Forall is_byte (l1 ++ l2) ↔ Forall is_byte l1 ∧ Forall is_byte l2.
Proof. apply Forall_app. Qed.

(** A boolean check over all bytes transfers to every byte. *)
Definition all_bytes : list Z := seqZ 0 256.

Lemma forall_bytes (P : Z → bool) :
  forallb P all_bytes = true → ∀ b, is_byte b → P b = true.
Proof.
  intros H b Hb. rewrite forallb_forall in H. apply H.
  apply list_elem_of_In, elem_of_seqZ. unfold is_byte in Hb. lia.
Qed.

(** ** Bits of machine words *)

Section Bits.
Implicit Types (x i k : Z).

Lemma testbit_wrap x i k :
  0 <= k → 0 <= i → Z.testbit (x mod 2 ^ k) i = (i <? k) && Z.testbit x i.
Proof.
  intros Hk Hi. destruct (Z.ltb_spec i k); simpl.
  - apply Z.mod_pow2_bits_low. lia.
  - apply Z.mod_pow2_bits_high. lia.
Qed.

Lemma testbit_above x i k : 0 <= x < 2 ^ k → k <= i → Z.testbit x i = false.
Proof.
  intros Hx Hi. destruct (Z.eq_dec x 0) as [->|Hne]; [apply Z.bits_0|].
  apply Z.bits_above_log2; [lia|]. apply Z.log2_lt_pow2; [lia|].
  enough (2 ^ k <= 2 ^ i) by lia.
  destruct (decide (0 <= k)); [apply Z.pow_le_mono_r; lia|].
  rewrite Z.pow_neg_r in Hx by lia. lia.
Qed.

Lemma testbit_byte x i : is_byte x → 8 <= i → Z.testbit x i = false.
Proof. intros Hx. by apply testbit_above. Qed.

Lemma bound_testbit x k :
  0 <= k → 0 <= x → (∀ i, k <= i → Z.testbit x i = false) → x < 2 ^ k.
Proof.
  intros Hk Hx Hb. destruct (Z.eq_dec x 0) as [->|]; [by apply Z.pow_pos_nonneg|].
  apply Z.log2_lt_pow2; [lia|]. apply Z.nle_gt. intros Hle.
  pose proof (Hb (Z.log2 x) Hle). pose proof (Z.bit_log2 x ltac:(lia)). congruence.
Qed.

Lemma lxor_bound x y k :
  0 <= x < 2 ^ k → 0 <= y < 2 ^ k → 0 <= Z.lxor x y < 2 ^ k.
Proof.
  intros Hx Hy. assert (0 <= k) as Hk.
  { destruct (decide (0 <= k)); [done|]. rewrite Z.pow_neg_r in Hx; lia. }
  assert (0 <= Z.lxor x y) by (apply Z.lxor_nonneg; lia).
  split; [done|]. apply bound_testbit; [done..|].
  intros i Hi. by rewrite Z.lxor_spec, !(testbit_above _ i k).
Qed.

Lemma wrap_bound x k : 0 <= k → 0 <= x mod 2 ^ k < 2 ^ k.
Proof. intros Hk. apply Z.mod_pos_bound. by apply Z.pow_pos_nonneg. Qed.
End Bits.

Lemma u8_byte x : is_byte (u8 x).
Proof. apply (wrap_bound x 8). lia. Qed.

Lemma lxor_byte x y : is_byte x → is_byte y → is_byte (Z.lxor x y).
Proof. apply (lxor_bound x y 8). Qed.

Lemma u8_id x : is_byte x → u8 x = x.
Proof. apply Z.mod_small. Qed.

Lemma u16_id x : is_u16 x → u16 x = x.
Proof. apply Z.mod_small. Qed.

Lemma u32_id x : is_u32 x → u32 x = x.
Proof. apply Z.mod_small. Qed.

Lemma u64_id x : is_u64 x → u64 x = x.
Proof. apply Z.mod_small. Qed.

Lemma usize_id x : is_size x → usize x = x.
Proof. apply Z.mod_small. Qed.

#[export] Hint Resolve u8_byte lxor_byte : wl.

(** Proves an equation between words bit by bit: [i] is the bit. *)
Ltac bit_ext i :=
  apply Z.bits_inj'; intros i ?;
  unfold u8, u16, u32, u64 in *;
  repeat match goal with
  | |- context [Z.testbit (Z.lxor ?a ?b) ?n] => rewrite (Z.lxor_spec a b n)
  | |- context [Z.testbit (Z.land ?a ?b) ?n] => rewrite (Z.land_spec a b n)
  | |- context [Z.testbit (Z.lor ?a ?b) ?n] => rewrite (Z.lor_spec a b n)
  | |- context [Z.testbit (?a mod 2 ^ ?k) ?n] => rewrite (testbit_wrap a n k) by lia
  | |- context [Z.testbit (Z.shiftr ?a ?k) ?n] => rewrite (Z.shiftr_spec a k n) by lia
  | |- context [Z.testbit (Z.shiftl ?a ?k) ?n] => rewrite (Z.shiftl_spec a k n) by lia
  end.

(** The result of a call whose code and output are known. *)
Lemma surjective_result {A B C} (r : A * B * C) e h :
  r.1.2 = e → r.2 = h → r = (r.1.1, e, h).
Proof. by destruct r as [[??]?]; cbn; intros -> ->. Qed.
