(* ===== verification/Crc.v ===== *)
(** The checksums of [src/src/crc.c] and [src/src/crc_internal.h]:
    CRC-16/CCITT-FALSE and CRC-32C, both table driven.

    The tables are the source's, entry by entry.  The theorems relate the
    table-driven updates to the bit-serial shift registers of the two
    polynomials, show that a split span may be summed span by span, that a
    CRC-16 trailer is exactly the pair of bytes that brings the register to
    zero, and that every error burst confined to as many consecutive bytes as
    the register has is detected. *)
From S2P Require Import Prelude.

(** ** Model *)

Definition wl_crc16_table : list Z :=
  [0x0000; 0x1021; 0x2042; 0x3063; 0x4084; 0x50a5; 0x60c6; 0x70e7;
   0x8108; 0x9129; 0xa14a; 0xb16b; 0xc18c; 0xd1ad; 0xe1ce; 0xf1ef;
   0x1231; 0x0210; 0x3273; 0x2252; 0x52b5; 0x4294; 0x72f7; 0x62d6;
   0x9339; 0x8318; 0xb37b; 0xa35a; 0xd3bd; 0xc39c; 0xf3ff; 0xe3de;
   0x2462; 0x3443; 0x0420; 0x1401; 0x64e6; 0x74c7; 0x44a4; 0x5485;
   0xa56a; 0xb54b; 0x8528; 0x9509; 0xe5ee; 0xf5cf; 0xc5ac; 0xd58d;
   0x3653; 0x2672; 0x1611; 0x0630; 0x76d7; 0x66f6; 0x5695; 0x46b4;
   0xb75b; 0xa77a; 0x9719; 0x8738; 0xf7df; 0xe7fe; 0xd79d; 0xc7bc;
   0x48c4; 0x58e5; 0x6886; 0x78a7; 0x0840; 0x1861; 0x2802; 0x3823;
   0xc9cc; 0xd9ed; 0xe98e; 0xf9af; 0x8948; 0x9969; 0xa90a; 0xb92b;
   0x5af5; 0x4ad4; 0x7ab7; 0x6a96; 0x1a71; 0x0a50; 0x3a33; 0x2a12;
   0xdbfd; 0xcbdc; 0xfbbf; 0xeb9e; 0x9b79; 0x8b58; 0xbb3b; 0xab1a;
   0x6ca6; 0x7c87; 0x4ce4; 0x5cc5; 0x2c22; 0x3c03; 0x0c60; 0x1c41;
   0xedae; 0xfd8f; 0xcdec; 0xddcd; 0xad2a; 0xbd0b; 0x8d68; 0x9d49;
   0x7e97; 0x6eb6; 0x5ed5; 0x4ef4; 0x3e13; 0x2e32; 0x1e51; 0x0e70;
   0xff9f; 0xefbe; 0xdfdd; 0xcffc; 0xbf1b; 0xaf3a; 0x9f59; 0x8f78;
   0x9188; 0x81a9; 0xb1ca; 0xa1eb; 0xd10c; 0xc12d; 0xf14e; 0xe16f;
   0x1080; 0x00a1; 0x30c2; 0x20e3; 0x5004; 0x4025; 0x7046; 0x6067;
   0x83b9; 0x9398; 0xa3fb; 0xb3da; 0xc33d; 0xd31c; 0xe37f; 0xf35e;
   0x02b1; 0x1290; 0x22f3; 0x32d2; 0x4235; 0x5214; 0x6277; 0x7256;
   0xb5ea; 0xa5cb; 0x95a8; 0x8589; 0xf56e; 0xe54f; 0xd52c; 0xc50d;
   0x34e2; 0x24c3; 0x14a0; 0x0481; 0x7466; 0x6447; 0x5424; 0x4405;
   0xa7db; 0xb7fa; 0x8799; 0x97b8; 0xe75f; 0xf77e; 0xc71d; 0xd73c;
   0x26d3; 0x36f2; 0x0691; 0x16b0; 0x6657; 0x7676; 0x4615; 0x5634;
   0xd94c; 0xc96d; 0xf90e; 0xe92f; 0x99c8; 0x89e9; 0xb98a; 0xa9ab;
   0x5844; 0x4865; 0x7806; 0x6827; 0x18c0; 0x08e1; 0x3882; 0x28a3;
   0xcb7d; 0xdb5c; 0xeb3f; 0xfb1e; 0x8bf9; 0x9bd8; 0xabbb; 0xbb9a;
   0x4a75; 0x5a54; 0x6a37; 0x7a16; 0x0af1; 0x1ad0; 0x2ab3; 0x3a92;
   0xfd2e; 0xed0f; 0xdd6c; 0xcd4d; 0xbdaa; 0xad8b; 0x9de8; 0x8dc9;
   0x7c26; 0x6c07; 0x5c64; 0x4c45; 0x3ca2; 0x2c83; 0x1ce0; 0x0cc1;
   0xef1f; 0xff3e; 0xcf5d; 0xdf7c; 0xaf9b; 0xbfba; 0x8fd9; 0x9ff8;
   0x6e17; 0x7e36; 0x4e55; 0x5e74; 0x2e93; 0x3eb2; 0x0ed1; 0x1ef0].

Definition WL_CRC32_TABLE : list Z :=
  [0x00000000; 0xf26b8303; 0xe13b70f7; 0x1350f3f4; 0xc79a971f; 0x35f1141c;
   0x26a1e7e8; 0xd4ca64eb; 0x8ad958cf; 0x78b2dbcc; 0x6be22838; 0x9989ab3b;
   0x4d43cfd0; 0xbf284cd3; 0xac78bf27; 0x5e133c24; 0x105ec76f; 0xe235446c;
   0xf165b798; 0x030e349b; 0xd7c45070; 0x25afd373; 0x36ff2087; 0xc494a384;
   0x9a879fa0; 0x68ec1ca3; 0x7bbcef57; 0x89d76c54; 0x5d1d08bf; 0xaf768bbc;
   0xbc267848; 0x4e4dfb4b; 0x20bd8ede; 0xd2d60ddd; 0xc186fe29; 0x33ed7d2a;
   0xe72719c1; 0x154c9ac2; 0x061c6936; 0xf477ea35; 0xaa64d611; 0x580f5512;
   0x4b5fa6e6; 0xb93425e5; 0x6dfe410e; 0x9f95c20d; 0x8cc531f9; 0x7eaeb2fa;
   0x30e349b1; 0xc288cab2; 0xd1d83946; 0x23b3ba45; 0xf779deae; 0x05125dad;
   0x1642ae59; 0xe4292d5a; 0xba3a117e; 0x4851927d; 0x5b016189; 0xa96ae28a;
   0x7da08661; 0x8fcb0562; 0x9c9bf696; 0x6ef07595; 0x417b1dbc; 0xb3109ebf;
   0xa0406d4b; 0x522bee48; 0x86e18aa3; 0x748a09a0; 0x67dafa54; 0x95b17957;
   0xcba24573; 0x39c9c670; 0x2a993584; 0xd8f2b687; 0x0c38d26c; 0xfe53516f;
   0xed03a29b; 0x1f682198; 0x5125dad3; 0xa34e59d0; 0xb01eaa24; 0x42752927;
   0x96bf4dcc; 0x64d4cecf; 0x77843d3b; 0x85efbe38; 0xdbfc821c; 0x2997011f;
   0x3ac7f2eb; 0xc8ac71e8; 0x1c661503; 0xee0d9600; 0xfd5d65f4; 0x0f36e6f7;
   0x61c69362; 0x93ad1061; 0x80fde395; 0x72966096; 0xa65c047d; 0x5437877e;
   0x4767748a; 0xb50cf789; 0xeb1fcbad; 0x197448ae; 0x0a24bb5a; 0xf84f3859;
   0x2c855cb2; 0xdeeedfb1; 0xcdbe2c45; 0x3fd5af46; 0x7198540d; 0x83f3d70e;
   0x90a324fa; 0x62c8a7f9; 0xb602c312; 0x44694011; 0x5739b3e5; 0xa55230e6;
   0xfb410cc2; 0x092a8fc1; 0x1a7a7c35; 0xe811ff36; 0x3cdb9bdd; 0xceb018de;
   0xdde0eb2a; 0x2f8b6829; 0x82f63b78; 0x709db87b; 0x63cd4b8f; 0x91a6c88c;
   0x456cac67; 0xb7072f64; 0xa457dc90; 0x563c5f93; 0x082f63b7; 0xfa44e0b4;
   0xe9141340; 0x1b7f9043; 0xcfb5f4a8; 0x3dde77ab; 0x2e8e845f; 0xdce5075c;
   0x92a8fc17; 0x60c37f14; 0x73938ce0; 0x81f80fe3; 0x55326b08; 0xa759e80b;
   0xb4091bff; 0x466298fc; 0x1871a4d8; 0xea1a27db; 0xf94ad42f; 0x0b21572c;
   0xdfeb33c7; 0x2d80b0c4; 0x3ed04330; 0xccbbc033; 0xa24bb5a6; 0x502036a5;
   0x4370c551; 0xb11b4652; 0x65d122b9; 0x97baa1ba; 0x84ea524e; 0x7681d14d;
   0x2892ed69; 0xdaf96e6a; 0xc9a99d9e; 0x3bc21e9d; 0xef087a76; 0x1d63f975;
   0x0e330a81; 0xfc588982; 0xb21572c9; 0x407ef1ca; 0x532e023e; 0xa145813d;
   0x758fe5d6; 0x87e466d5; 0x94b49521; 0x66df1622; 0x38cc2a06; 0xcaa7a905;
   0xd9f75af1; 0x2b9cd9f2; 0xff56bd19; 0x0d3d3e1a; 0x1e6dcdee; 0xec064eed;
   0xc38d26c4; 0x31e6a5c7; 0x22b65633; 0xd0ddd530; 0x0417b1db; 0xf67c32d8;
   0xe52cc12c; 0x1747422f; 0x49547e0b; 0xbb3ffd08; 0xa86f0efc; 0x5a048dff;
   0x8ecee914; 0x7ca56a17; 0x6ff599e3; 0x9d9e1ae0; 0xd3d3e1ab; 0x21b862a8;
   0x32e8915c; 0xc083125f; 0x144976b4; 0xe622f5b7; 0xf5720643; 0x07198540;
   0x590ab964; 0xab613a67; 0xb831c993; 0x4a5a4a90; 0x9e902e7b; 0x6cfbad78;
   0x7fab5e8c; 0x8dc0dd8f; 0xe330a81a; 0x115b2b19; 0x020bd8ed; 0xf0605bee;
   0x24aa3f05; 0xd6c1bc06; 0xc5914ff2; 0x37faccf1; 0x69e9f0d5; 0x9b8273d6;
   0x88d28022; 0x7ab90321; 0xae7367ca; 0x5c18e4c9; 0x4f48173d; 0xbd23943e;
   0xf36e6f75; 0x0105ec76; 0x12551f82; 0xe03e9c81; 0x34f4f86a; 0xc69f7b69;
   0xd5cf889d; 0x27a40b9e; 0x79b737ba; 0x8bdcb4b9; 0x988c474d; 0x6ae7c44e;
   0xbe2da0a5; 0x4c4623a6; 0x5f16d052; 0xad7d5351].

(** [table[i]] for an index already reduced to [uint8_t]. *)
Definition table_get (t : list Z) (i : Z) : Z := nth (Z.to_nat i) t 0.

Definition wl_crc16_byte (state value : Z) : Z :=
  Z.lxor (u16 (Z.shiftl state 8))
         (table_get wl_crc16_table (u8 (Z.lxor (Z.shiftr state 8) value))).

Definition wl_crc32c_byte (state value : Z) : Z :=
  Z.lxor (table_get WL_CRC32_TABLE (u8 (Z.lxor state value)))
         (Z.shiftr state 8).

(** The register after a sequence of bytes; the loops of the two [_update]
    functions only read memory. *)
Definition crc16_bytes (state : Z) (l : list Z) : Z := foldl wl_crc16_byte state l.
Definition crc32c_bytes (state : Z) (l : list Z) : Z := foldl wl_crc32c_byte state l.

Definition wl_crc16_ccitt_false_update (m : mem) (state data length : Z) : Z :=
  crc16_bytes state (mread m data (Z.to_nat length)).

Definition wl_crc32c_update (m : mem) (state data length : Z) : Z :=
  crc32c_bytes state (mread m data (Z.to_nat length)).

Definition wl_crc16_ccitt_false (m : mem) (data length : Z) : Z :=
  if (data =? NULL) && negb (length =? 0) then 0
  else wl_crc16_ccitt_false_update m 0xffff data length.

Definition wl_crc32c (m : mem) (data length : Z) : Z :=
  if (data =? NULL) && negb (length =? 0) then 0
  else Z.lxor (wl_crc32c_update m 0xffffffff data length) 0xffffffff.

(** ** Reference: bit-serial registers *)

(** One clock of the CCITT register: most significant bit first, generator
    [x^16 + x^12 + x^5 + 1]. *)
Definition crc16_clock (s : Z) : Z :=
  Z.lxor (u16 (Z.shiftl s 1)) (if Z.testbit s 15 then 0x1021 else 0).

(** One clock of the Castagnoli register, reflected. *)
Definition crc32c_clock (s : Z) : Z :=
  Z.lxor (Z.shiftr s 1) (if Z.testbit s 0 then 0x82f63b78 else 0).

Definition crc16_serial_byte (state value : Z) : Z :=
  Nat.iter 8 crc16_clock (Z.lxor state (Z.shiftl value 8)).

Definition crc32c_serial_byte (state value : Z) : Z :=
  Nat.iter 8 crc32c_clock (Z.lxor state value).

(** ** Lemmas *)

#[local] Opaque wl_crc16_table WL_CRC32_TABLE.

Lemma forall_bytes_range (t : list Z) k :
  forallb (λ i, (0 <=? table_get t i) && (table_get t i <? 2 ^ k)) all_bytes = true →
  ∀ i, is_byte i → 0 <= table_get t i < 2 ^ k.
Proof. intros H i Hi. pose proof (forall_bytes _ H i Hi) as Hr. cbv beta in Hr. lia. Qed.

Lemma crc16_table_entry h :
  is_byte h → table_get wl_crc16_table h = Nat.iter 8 crc16_clock (Z.shiftl h 8).
Proof.
  intros Hh. apply Z.eqb_eq.
  revert h Hh. apply forall_bytes. vm_compute. reflexivity.
Qed.

Lemma crc16_low_entry l : is_byte l → Nat.iter 8 crc16_clock l = Z.shiftl l 8.
Proof.
  intros Hl. apply Z.eqb_eq. revert l Hl. apply forall_bytes. vm_compute. reflexivity.
Qed.

Lemma crc32c_table_entry b :
  is_byte b → table_get WL_CRC32_TABLE b = Nat.iter 8 crc32c_clock b.
Proof.
  intros Hb. apply Z.eqb_eq. revert b Hb. apply forall_bytes. vm_compute. reflexivity.
Qed.

Lemma if_xorb_lxor (a b : bool) (p : Z) :
  (if xorb a b then p else 0) = Z.lxor (if a then p else 0) (if b then p else 0).
Proof. destruct a, b; simpl; by rewrite ?Z.lxor_nilpotent, ?Z.lxor_0_r. Qed.

Lemma lxor_swap4 a b c d :
  Z.lxor (Z.lxor a b) (Z.lxor c d) = Z.lxor (Z.lxor a c) (Z.lxor b d).
Proof.
  apply Z.bits_inj'. intros i _. rewrite !Z.lxor_spec.
  by repeat destruct (Z.testbit _ i).
Qed.

Lemma crc16_clock_lxor a b :
  crc16_clock (Z.lxor a b) = Z.lxor (crc16_clock a) (crc16_clock b).
Proof.
  unfold crc16_clock. rewrite Z.lxor_spec, if_xorb_lxor, (lxor_swap4 (u16 _) _).
  f_equal. bit_ext i. by destruct (i <? 16).
Qed.

Lemma crc32c_clock_lxor a b :
  crc32c_clock (Z.lxor a b) = Z.lxor (crc32c_clock a) (crc32c_clock b).
Proof.
  unfold crc32c_clock.
  by rewrite Z.lxor_spec, if_xorb_lxor, (lxor_swap4 (Z.shiftr _ _) _), Z.shiftr_lxor.
Qed.

Lemma iter_lxor (f : Z → Z) (Hf : ∀ a b, f (Z.lxor a b) = Z.lxor (f a) (f b)) n a b :
  Nat.iter n f (Z.lxor a b) = Z.lxor (Nat.iter n f a) (Nat.iter n f b).
Proof. induction n as [|n IH]; simpl; [done|]. by rewrite IH, Hf. Qed.

Lemma split_low_byte s : s = Z.lxor (Z.shiftl (Z.shiftr s 8) 8) (u8 s).
Proof.
  bit_ext i. destruct (Z.ltb_spec i 8).
  - by rewrite (Z.testbit_neg_r _ (i - 8)) by lia.
  - rewrite Z.shiftr_spec by lia. rewrite andb_false_l, xorb_false_r. f_equal. lia.
Qed.

Lemma crc32c_clock_shifted y : crc32c_clock (Z.shiftl y 1) = y.
Proof.
  unfold crc32c_clock. rewrite Z.shiftl_spec_low, Z.lxor_0_r by lia.
  by rewrite Z.shiftr_shiftl_l, Z.shiftl_0_r by lia.
Qed.

Lemma crc32c_iter_shifted n y :
  Nat.iter n crc32c_clock (Z.shiftl y (Z.of_nat n)) = y.
Proof.
  induction n as [|n IH]; [apply Z.shiftl_0_r|].
  rewrite Nat.iter_succ_r. rewrite <- IH at 2. f_equal.
  rewrite <- (crc32c_clock_shifted (Z.shiftl y (Z.of_nat n))). f_equal.
  rewrite Z.shiftl_shiftl by lia. f_equal. lia.
Qed.

(** The table-driven CRC-16 step is eight clocks of the bit-serial
    register. *)
Lemma wl_crc16_byte_serial state value :
  is_u16 state → is_byte value →
  wl_crc16_byte state value = crc16_serial_byte state value.
Proof.
  intros Hs Hv. unfold wl_crc16_byte, crc16_serial_byte.
  set (s := Z.lxor state (Z.shiftl value 8)).
  rewrite (split_low_byte s), (iter_lxor _ crc16_clock_lxor).
  assert (u8 (Z.lxor (Z.shiftr state 8) value) = Z.shiftr s 8) as ->.
  { subst s. bit_ext i.
    replace (i + 8 - 8) with i by lia. destruct (Z.ltb_spec i 8); [done|].
    by rewrite (testbit_above state _ 16), testbit_byte by (done || lia). }
  assert (is_byte (Z.shiftr s 8)).
  { unfold is_byte. rewrite Z.shiftr_div_pow2 by lia.
    assert (0 <= s < 2 ^ 16).
    { apply lxor_bound; [done|]. rewrite Z.shiftl_mul_pow2 by lia.
      unfold is_byte in Hv. lia. }
    split; [apply Z.div_pos; lia|apply Z.div_lt_upper_bound; lia]. }
  rewrite <- crc16_table_entry, crc16_low_entry by auto with wl.
  rewrite Z.lxor_comm. f_equal. subst s. bit_ext i.
  destruct (Z.ltb_spec i 16), (Z.ltb_spec i 8).
  all: rewrite ?(Z.testbit_neg_r _ (i - 8)), ?testbit_wrap by lia; try done.
  - rewrite Z.lxor_spec, Z.shiftl_spec_low, xorb_false_r by lia.
    destruct (Z.ltb_spec (i - 8) 8); [done|lia].
  - destruct (Z.ltb_spec (i - 8) 8); [lia|done].
Qed.

Lemma wl_crc32c_byte_serial state value :
  is_u32 state → is_byte value →
  wl_crc32c_byte state value = crc32c_serial_byte state value.
Proof.
  intros Hs Hv. unfold wl_crc32c_byte, crc32c_serial_byte.
  set (s := Z.lxor state value).
  rewrite (split_low_byte s) at 2.
  rewrite (iter_lxor _ crc32c_clock_lxor), (crc32c_iter_shifted 8).
  rewrite <- crc32c_table_entry by auto with wl. rewrite Z.lxor_comm. f_equal.
  subst s. rewrite Z.shiftr_lxor. rewrite (Z.shiftr_eq_0 value), Z.lxor_0_r; [done|..].
  - unfold is_byte in Hv. lia.
  - destruct (Z.eq_dec value 0) as [->|]; [done|].
    unfold is_byte in Hv. apply Z.log2_lt_pow2; lia.
Qed.

Lemma wl_crc16_byte_u16 s b : is_u16 (wl_crc16_byte s b).
Proof.
  apply lxor_bound; [by apply wrap_bound|].
  apply (forall_bytes_range wl_crc16_table 16); [vm_compute; reflexivity|apply u8_byte].
Qed.

Lemma crc32c_table_u32 i : is_byte i → is_u32 (table_get WL_CRC32_TABLE i).
Proof. apply (forall_bytes_range WL_CRC32_TABLE 32). vm_compute. reflexivity. Qed.

Lemma shiftr_u32 s k : 0 <= k → is_u32 s → is_u32 (Z.shiftr s k).
Proof.
  unfold is_u32. intros Hk Hs. rewrite Z.shiftr_div_pow2 by lia.
  assert (0 < 2 ^ k) by (apply Z.pow_pos_nonneg; lia).
  split; [apply Z.div_pos; lia|apply Z.div_lt_upper_bound; nia].
Qed.

Lemma wl_crc32c_byte_u32 s b : is_u32 s → is_u32 (wl_crc32c_byte s b).
Proof.
  intros Hs. apply lxor_bound; [apply crc32c_table_u32, u8_byte|by apply shiftr_u32].
Qed.

Lemma crc16_bytes_u16 s l : is_u16 s → is_u16 (crc16_bytes s l).
Proof.
  revert s. induction l as [|b l IH]; intros s Hs; [done|]. apply IH, wl_crc16_byte_u16.
Qed.

Lemma crc32c_bytes_u32 s l : is_u32 s → is_u32 (crc32c_bytes s l).
Proof.
  revert s. induction l as [|b l IH]; intros s Hs; [done|].
  by apply IH, wl_crc32c_byte_u32.
Qed.

Lemma crc16_bytes_app s l1 l2 :
  crc16_bytes s (l1 ++ l2) = crc16_bytes (crc16_bytes s l1) l2.
Proof. apply foldl_app. Qed.

Lemma crc32c_bytes_app s l1 l2 :
  crc32c_bytes s (l1 ++ l2) = crc32c_bytes (crc32c_bytes s l1) l2.
Proof. apply foldl_app. Qed.

(** The low byte of a CRC-16 entry, and the high byte of a CRC-32C entry,
    determine its index. *)
Definition separates (key : Z → Z) (i j : Z) : bool := negb (key i =? key j) || (i =? j).

Lemma separates_inj key :
  forallb (λ i, forallb (separates key i) all_bytes) all_bytes = true →
  ∀ i j, is_byte i → is_byte j → key i = key j → i = j.
Proof.
  intros H i j Hi Hj E. pose proof (forall_bytes _ H i Hi) as Hr. cbv beta in Hr.
  pose proof (forall_bytes _ Hr j Hj) as Hij. unfold separates in Hij. lia.
Qed.

Lemma crc16_table_low_inj i j :
  is_byte i → is_byte j →
  u8 (table_get wl_crc16_table i) = u8 (table_get wl_crc16_table j) → i = j.
Proof.
  apply (separates_inj (λ i, u8 (table_get wl_crc16_table i))). vm_compute. reflexivity.
Qed.

Lemma crc32c_table_high_inj i j :
  is_byte i → is_byte j →
  Z.shiftr (table_get WL_CRC32_TABLE i) 24 = Z.shiftr (table_get WL_CRC32_TABLE j) 24 →
  i = j.
Proof.
  apply (separates_inj (λ i, Z.shiftr (table_get WL_CRC32_TABLE i) 24)).
  vm_compute. reflexivity.
Qed.

Lemma u8_lxor x y : u8 (Z.lxor x y) = Z.lxor (u8 x) (u8 y).
Proof. bit_ext i. by destruct (i <? 8). Qed.

Lemma lxor_cancel_l x y z : Z.lxor x y = Z.lxor x z → y = z.
Proof.
  intros E. apply (f_equal (Z.lxor x)) in E.
  by rewrite <- !Z.lxor_assoc, Z.lxor_nilpotent, !Z.lxor_0_l in E.
Qed.

(** Equal index, equal register: equal byte. *)
Lemma u8_lxor_cancel x b c :
  is_byte b → is_byte c → u8 (Z.lxor x b) = u8 (Z.lxor x c) → b = c.
Proof.
  intros Hb Hc. rewrite !u8_lxor, (u8_id b), (u8_id c) by done. apply lxor_cancel_l.
Qed.

(** [crc16_agree j s s'] holds when the low [16 - 8 j] bits are the same. *)
Definition crc16_agree (j : nat) (s s' : Z) : Prop :=
  s mod 2 ^ (16 - 8 * Z.of_nat j) = s' mod 2 ^ (16 - 8 * Z.of_nat j).

Lemma wrap_wrap x k k' : 0 <= k <= k' → (x mod 2 ^ k') mod 2 ^ k = x mod 2 ^ k.
Proof.
  intros Hk. apply Z.bits_inj'. intros i Hi. rewrite !testbit_wrap by lia.
  destruct (Z.ltb_spec i k); simpl; [|done]. by destruct (Z.ltb_spec i k'); [|lia].
Qed.

Lemma crc16_byte_low s b :
  u8 (wl_crc16_byte s b)
  = u8 (table_get wl_crc16_table (u8 (Z.lxor (Z.shiftr s 8) b))).
Proof.
  unfold wl_crc16_byte. generalize (table_get wl_crc16_table (u8 (Z.lxor (Z.shiftr s 8) b))).
  intros t. bit_ext i. destruct (Z.ltb_spec i 8); [|done].
  rewrite (Z.testbit_neg_r s) by lia. by rewrite andb_false_r.
Qed.

Lemma lxor_wrap x y k : 0 <= k →
  Z.lxor x y mod 2 ^ k = Z.lxor (x mod 2 ^ k) (y mod 2 ^ k).
Proof.
  intros Hk. apply Z.bits_inj'. intros i Hi.
  rewrite Z.lxor_spec, !testbit_wrap, Z.lxor_spec by lia. by destruct (i <? k).
Qed.

Lemma crc16_agree_step j s s' b b' :
  (j < 2)%nat → crc16_agree j (wl_crc16_byte s b) (wl_crc16_byte s' b') →
  u8 (Z.lxor (Z.shiftr s 8) b) = u8 (Z.lxor (Z.shiftr s' 8) b') ∧ crc16_agree (S j) s s'.
Proof.
  unfold crc16_agree. intros Hj E.
  assert (u8 (Z.lxor (Z.shiftr s 8) b) = u8 (Z.lxor (Z.shiftr s' 8) b')) as Ei.
  { apply crc16_table_low_inj; auto with wl. rewrite <- !crc16_byte_low.
    apply (f_equal (λ x, x mod 2 ^ 8)) in E. by rewrite !wrap_wrap in E by lia. }
  split; [done|]. unfold wl_crc16_byte in E. rewrite Ei in E.
  rewrite !lxor_wrap in E by lia. rewrite Z.lxor_comm, (Z.lxor_comm (u16 _ mod _)) in E.
  apply lxor_cancel_l in E. apply Z.bits_inj'. intros i Hi. rewrite !testbit_wrap by lia.
  destruct (Z.ltb_spec i (16 - 8 * Z.of_nat (S j))); [simpl|done].
  apply (f_equal (λ x, Z.testbit x (i + 8))) in E. unfold u16 in E.
  rewrite !testbit_wrap in E by lia.
  rewrite !Z.shiftl_spec in E by lia. replace (i + 8 - 8) with i in E by lia.
  destruct (Z.ltb_spec (i + 8) (16 - 8 * Z.of_nat j)); [|lia].
  destruct (Z.ltb_spec (i + 8) 16); [|lia]. by rewrite !andb_true_l in E.
Qed.

(** Stepping back from registers that agree; from one register, only one
    burst reaches them. *)
Lemma crc16_agree_back l l' j s s' :
  length l = length l' → (j + length l <= 2)%nat →
  Forall is_byte l → Forall is_byte l' →
  crc16_agree j (crc16_bytes s l) (crc16_bytes s' l') →
  crc16_agree (j + length l) s s' ∧ (s = s' → l = l').
Proof.
  revert l' s s'. induction l as [|b l IH]; intros [|b' l'] s s' Hlen Hj Hl Hl' E;
    try discriminate; simpl in *.
  { by rewrite Nat.add_0_r. }
  apply Forall_cons in Hl as [Hb Hl], Hl' as [Hb' Hl'].
  destruct (IH l' (wl_crc16_byte s b) (wl_crc16_byte s' b')) as [Ha Hl_eq];
    [lia|lia|done..|].
  apply crc16_agree_step in Ha as [Ei Hs]; [|lia].
  rewrite Nat.add_succ_r. split; [done|]. intros ->.
  apply u8_lxor_cancel in Ei; [|done..]. subst. f_equal. by apply Hl_eq.
Qed.

Definition crc32c_agree (j : nat) (s s' : Z) : Prop :=
  Z.shiftr s (8 * Z.of_nat j) = Z.shiftr s' (8 * Z.of_nat j).

Lemma crc32c_byte_high s b :
  is_u32 s →
  Z.shiftr (wl_crc32c_byte s b) 24
  = Z.shiftr (table_get WL_CRC32_TABLE (u8 (Z.lxor s b))) 24.
Proof.
  intros Hs. unfold wl_crc32c_byte. rewrite Z.shiftr_lxor, Z.shiftr_shiftr by lia.
  rewrite (Z.shiftr_div_pow2 s), (Z.div_small s), Z.lxor_0_r by done. done.
Qed.

Lemma crc32c_agree_step j s s' b b' :
  (j < 4)%nat → is_u32 s → is_u32 s' →
  crc32c_agree j (wl_crc32c_byte s b) (wl_crc32c_byte s' b') →
  u8 (Z.lxor s b) = u8 (Z.lxor s' b') ∧ crc32c_agree (S j) s s'.
Proof.
  unfold crc32c_agree. intros Hj Hs Hs' E.
  assert (u8 (Z.lxor s b) = u8 (Z.lxor s' b')) as Ei.
  { apply crc32c_table_high_inj; auto with wl. rewrite <- !crc32c_byte_high by done.
    apply (f_equal (λ x, Z.shiftr x (24 - 8 * Z.of_nat j))) in E.
    rewrite !Z.shiftr_shiftr in E by lia.
    by replace (8 * Z.of_nat j + (24 - 8 * Z.of_nat j)) with 24 in E by lia. }
  split; [done|]. unfold wl_crc32c_byte in E. rewrite Ei, !Z.shiftr_lxor in E.
  apply lxor_cancel_l in E. rewrite !Z.shiftr_shiftr in E by lia.
  by replace (8 + 8 * Z.of_nat j) with (8 * Z.of_nat (S j)) in E by lia.
Qed.

Lemma crc32c_agree_back l l' j s s' :
  length l = length l' → (j + length l <= 4)%nat → is_u32 s → is_u32 s' →
  Forall is_byte l → Forall is_byte l' →
  crc32c_agree j (crc32c_bytes s l) (crc32c_bytes s' l') →
  crc32c_agree (j + length l) s s' ∧ (s = s' → l = l').
Proof.
  revert l' s s'. induction l as [|b l IH]; intros [|b' l'] s s' Hlen Hj Hs Hs' Hl Hl' E;
    try discriminate; simpl in *.
  { by rewrite Nat.add_0_r. }
  apply Forall_cons in Hl as [Hb Hl], Hl' as [Hb' Hl'].
  destruct (IH l' (wl_crc32c_byte s b) (wl_crc32c_byte s' b')) as [Ha Hl_eq];
    [lia|lia|by apply wl_crc32c_byte_u32..|done|done|done|].
  apply crc32c_agree_step in Ha as [Ei Hs2]; [|lia|done..].
  rewrite Nat.add_succ_r. split; [done|]. intros ->.
  apply u8_lxor_cancel in Ei; [|done..]. subst. f_equal. by apply Hl_eq.
Qed.

(** The register is a bijection of itself for every byte, hence for every
    sequence of bytes. *)
Lemma crc16_bytes_inj q s s' :
  is_u16 s → is_u16 s' → crc16_bytes s q = crc16_bytes s' q → s = s'.
Proof.
  revert s s'. induction q as [|b q IH]; intros s s' Hs Hs' E; [done|].
  apply IH in E; [|apply wl_crc16_byte_u16..].
  assert (crc16_agree 0 (wl_crc16_byte s b) (wl_crc16_byte s' b)) as Ha
    by (unfold crc16_agree; by rewrite E).
  apply crc16_agree_step in Ha as [Ei Hl]; [|lia].
  rewrite !u8_lxor in Ei. rewrite Z.lxor_comm, (Z.lxor_comm (u8 (Z.shiftr s' 8))) in Ei.
  apply lxor_cancel_l in Ei. unfold is_u16 in *.
  assert (∀ x, 0 <= x < 2 ^ 16 → u8 (Z.shiftr x 8) = Z.shiftr x 8) as Hu.
  { intros x Hx. apply u8_id. unfold is_byte. rewrite Z.shiftr_div_pow2 by lia.
    split; [apply Z.div_pos; lia|apply Z.div_lt_upper_bound; lia]. }
  rewrite !Hu in Ei by done.
  rewrite (split_low_byte s), (split_low_byte s'), Ei. f_equal. exact Hl.
Qed.

Lemma crc32c_bytes_inj q s s' :
  is_u32 s → is_u32 s' → crc32c_bytes s q = crc32c_bytes s' q → s = s'.
Proof.
  revert s s'. induction q as [|b q IH]; intros s s' Hs Hs' E; [done|].
  apply IH in E; [|by apply wl_crc32c_byte_u32..].
  assert (crc32c_agree 0 (wl_crc32c_byte s b) (wl_crc32c_byte s' b)) as Ha
    by (unfold crc32c_agree; by rewrite E).
  apply crc32c_agree_step in Ha as [Ei Hl]; [|lia|done..].
  rewrite !u8_lxor in Ei. rewrite Z.lxor_comm, (Z.lxor_comm (u8 s')) in Ei.
  apply lxor_cancel_l in Ei. unfold crc32c_agree in Hl. change (8 * Z.of_nat 1) with 8 in Hl.
  rewrite (split_low_byte s), (split_low_byte s'), Ei. f_equal. by rewrite Hl.
Qed.

Lemma join_bytes h l : is_byte l → 256 * h + l = Z.lxor (Z.shiftl h 8) l.
Proof.
  intros Hl. rewrite Z.shiftl_mul_pow2 by lia. rewrite <- Z.add_nocarry_lxor; [lia|].
  rewrite <- Z.shiftl_mul_pow2 by lia. bit_ext i. rewrite Z.bits_0.
  destruct (Z.ltb_spec i 8); [by rewrite Z.testbit_neg_r by lia|].
  by rewrite (testbit_byte l), andb_false_r.
Qed.

Lemma crc16_byte_own h l :
  is_byte h → is_byte l → wl_crc16_byte (256 * h + l) h = Z.shiftl l 8.
Proof.
  intros Hh Hl. rewrite join_bytes by done. unfold wl_crc16_byte.
  replace (u8 _) with 0; [change (table_get wl_crc16_table 0) with 0; rewrite Z.lxor_0_r|];
    bit_ext i.
  - destruct (Z.ltb_spec i 16); simpl; [|by rewrite testbit_byte by (done || lia)].
    destruct (decide (0 <= i - 8)); [|by rewrite !(Z.testbit_neg_r _ (i - 8)) by lia].
    rewrite Z.shiftl_spec_low by lia. by rewrite xorb_false_l.
  - replace (i + 8 - 8) with i by lia. rewrite Z.bits_0.
    rewrite (testbit_byte l (i + 8)) by (done || lia).
    by rewrite xorb_false_r, xorb_nilpotent, andb_false_r.
Qed.

(** Two CRC-16 trailer bytes bring the register to zero exactly when they
    spell it. *)
Lemma crc16_residue s hi lo :
  is_u16 s → is_byte hi → is_byte lo →
  crc16_bytes s [hi; lo] = 0 ↔ s = 256 * hi + lo.
Proof.
  intros Hs Hhi Hlo.
  assert (crc16_bytes (256 * hi + lo) [hi; lo] = 0) as Hfwd.
  { unfold crc16_bytes. simpl. rewrite crc16_byte_own by done.
    assert (Z.shiftl lo 8 = 256 * lo + 0) as -> by (rewrite Z.shiftl_mul_pow2; lia).
    by rewrite crc16_byte_own by done. }
  split.
  - intros E. apply (crc16_bytes_inj [hi; lo]); [done|unfold is_u16, is_byte in *; lia|].
    by rewrite E, Hfwd.
  - intros ->. done.
Qed.

(** ** Properties *)

(** on every span of bytes the table-driven CRC-16 update is
    the bit-serial CCITT register clocked eight times per byte. *)
Theorem wl_crc16_update_serial (m : mem) (state data length : Z) :
  is_u16 state → Forall is_byte (mread m data (Z.to_nat length)) →
  wl_crc16_ccitt_false_update m state data length
  = foldl crc16_serial_byte state (mread m data (Z.to_nat length)).
Proof.
  unfold wl_crc16_ccitt_false_update. generalize (mread m data (Z.to_nat length)). intros l Hs Hl.
  revert state Hs. induction Hl as [|b l Hb Hl IH]; intros s Hs; [done|].
  simpl. rewrite <- wl_crc16_byte_serial by done. apply IH, wl_crc16_byte_u16.
Qed.

Lemma wl_crc16_update_serial_witness :
  wl_crc16_ccitt_false_update (mwrite (λ _, 0) 100 [49; 50; 51; 52; 53; 54; 55; 56; 57])
    0xffff 100 9 = 0x29b1.
Proof.
  rewrite wl_crc16_update_serial; [reflexivity|done|].
  vm_compute. repeat constructor; discriminate.
Defined.

(** the table-driven CRC-32C update is the bit-serial
    Castagnoli register clocked eight times per byte. *)
Theorem wl_crc32c_update_serial (m : mem) (state data length : Z) :
  is_u32 state → Forall is_byte (mread m data (Z.to_nat length)) →
  wl_crc32c_update m state data length
  = foldl crc32c_serial_byte state (mread m data (Z.to_nat length)).
Proof.
  unfold wl_crc32c_update. generalize (mread m data (Z.to_nat length)). intros l Hs Hl.
  revert state Hs. induction Hl as [|b l Hb Hl IH]; intros s Hs; [done|].
  simpl. rewrite <- wl_crc32c_byte_serial by done. by apply IH, wl_crc32c_byte_u32.
Qed.

Lemma wl_crc32c_update_serial_witness :
  Z.lxor (wl_crc32c_update (mwrite (λ _, 0) 100 [49; 50; 51; 52; 53; 54; 55; 56; 57])
    0xffffffff 100 9) 0xffffffff = 0xe3069283.
Proof.
  rewrite wl_crc32c_update_serial; [reflexivity|done|].
  vm_compute. repeat constructor; discriminate.
Defined.

(** two spans of the same length that differ, and differ only
    within two consecutive bytes, have different CRC-16 checksums. *)
Theorem wl_crc16_detects_burst (m m' : mem) (data data' length : Z) (p l l' q : list Z) :
  data ≠ NULL → data' ≠ NULL →
  mread m data (Z.to_nat length) = p ++ l ++ q →
  mread m' data' (Z.to_nat length) = p ++ l' ++ q →
  List.length l = List.length l' → (List.length l <= 2)%nat →
  Forall is_byte l → Forall is_byte l' → l ≠ l' →
  wl_crc16_ccitt_false m data length ≠ wl_crc16_ccitt_false m' data' length.
Proof.
  unfold wl_crc16_ccitt_false, wl_crc16_ccitt_false_update, NULL.
  intros Hd Hd' E E' Hlen H2 Hl Hl' Hne.
  destruct (Z.eqb_spec data 0), (Z.eqb_spec data' 0); try done; simpl.
  rewrite E, E', !crc16_bytes_app. intros Heq. apply Hne.
  apply crc16_bytes_inj in Heq; [|by repeat apply crc16_bytes_u16..].
  destruct (crc16_agree_back l l' 0 (crc16_bytes 0xffff p) (crc16_bytes 0xffff p))
    as [_ H]; [done..| |by apply H].
  by rewrite Heq.
Qed.

Lemma wl_crc16_detects_burst_witness :
  wl_crc16_ccitt_false (mwrite (λ _, 0) 8 [1; 2; 3; 4]) 8 4
  ≠ wl_crc16_ccitt_false (mwrite (λ _, 0) 8 [1; 0; 9; 4]) 8 4.
Proof.
  apply (wl_crc16_detects_burst _ _ 8 8 4 [1] [2; 3] [0; 9] [4]);
    [done|done|reflexivity|reflexivity|done|simpl; lia| | |done].
  all: repeat constructor; unfold is_byte; lia.
Defined.

(** the same for CRC-32C and four consecutive bytes. *)
Theorem wl_crc32c_detects_burst (m m' : mem) (data data' length : Z) (p l l' q : list Z) :
  data ≠ NULL → data' ≠ NULL →
  mread m data (Z.to_nat length) = p ++ l ++ q →
  mread m' data' (Z.to_nat length) = p ++ l' ++ q →
  List.length l = List.length l' → (List.length l <= 4)%nat →
  Forall is_byte l → Forall is_byte l' → l ≠ l' →
  wl_crc32c m data length ≠ wl_crc32c m' data' length.
Proof.
  unfold wl_crc32c, wl_crc32c_update, NULL.
  intros Hd Hd' E E' Hlen H2 Hl Hl' Hne.
  destruct (Z.eqb_spec data 0), (Z.eqb_spec data' 0); try done; simpl.
  rewrite E, E', !crc32c_bytes_app. intros Heq. apply Hne.
  rewrite Z.lxor_comm, (Z.lxor_comm _ 0xffffffff) in Heq. apply lxor_cancel_l in Heq.
  apply crc32c_bytes_inj in Heq; [|by repeat apply crc32c_bytes_u32..].
  destruct (crc32c_agree_back l l' 0 (crc32c_bytes 0xffffffff p)
    (crc32c_bytes 0xffffffff p)) as [_ H]; [done|done|by apply crc32c_bytes_u32..|done|done| |by apply H].
  by rewrite Heq.
Qed.

Lemma wl_crc32c_detects_burst_witness :
  wl_crc32c (mwrite (λ _, 0) 8 [1; 2; 3; 4; 5; 6]) 8 6
  ≠ wl_crc32c (mwrite (λ _, 0) 8 [1; 9; 9; 9; 9; 6]) 8 6.
Proof.
  apply (wl_crc32c_detects_burst _ _ 8 8 6 [1] [2; 3; 4; 5] [9; 9; 9; 9] [6]);
    [done|done|reflexivity|reflexivity|done|simpl; lia| | |done].
  all: repeat constructor; unfold is_byte; lia.
Defined.
