(* ===== verification/Cobs.v ===== *)
(** Consistent overhead byte stuffing: [src/src/cobs.c] and the per-byte
    encoder [cobs_encode_byte] of [src/src/frame_internal.h], which the frame
    writers share.

    Every store and load goes through the flat memory, so that the in-place
    decoder and the encoders that read a payload staged inside their own output
    buffer run in the model as they run in C.  The pure functions [cobs_enc]
    and [cobs_dec] are the reference; the theorems show that the loops compute
    them, that they are inverse to each other, and what the encoder's sizes
    are. *)
From S2P Require Import Prelude.

(** ** Model *)

Definition wl_cobs_encoded_max_size (input_len : Z) : Z :=
  if input_len =? 0 then 1
  else if input_len >? SIZE_MAX - input_len / 254 - 1 then SIZE_MAX
  else input_len + input_len / 254 + 1.

(** The loop of [wl_cobs_count_encoded_len]: [None] is the early return. *)
Fixpoint cobs_count_loop (m : mem) (input : Z) (n : nat) (encoded_len code : Z)
    : option Z :=
  match n with
  | O => Some encoded_len
  | S n =>
      if m input =? 0 then cobs_count_loop m (input + 1) n (usize (encoded_len + 1)) 1
      else
        let encoded_len := usize (encoded_len + 1) in
        let code := u8 (code + 1) in
        let full := code =? 0xff in
        let encoded_len := if full then usize (encoded_len + 1) else encoded_len in
        let code := if full then 1 else code in
        if encoded_len =? SIZE_MAX then None
        else cobs_count_loop m (input + 1) n encoded_len code
  end.

(** Result code and the value stored through [out_len]. *)
Definition wl_cobs_count_encoded_len (m : mem) (input input_len : Z) : wl_err * Z :=
  if (input =? NULL) && (input_len >? 0) then (WL_ERR_INVALID_ARG, 0)
  else if input_len =? 0 then (WL_OK, 1)
  else match cobs_count_loop m input (Z.to_nat input_len) 1 1 with
       | None => (WL_ERR_INVALID_ARG, 0)
       | Some n => (WL_OK, n)
       end.

(** [wl_cobs_encode_state_t], with the memory its [out] pointer refers to. *)
Record cobs_state := mk_cobs {
  cs_mem : mem;
  write_index : Z;
  code_index : Z;
  code : Z;
}.

Definition cobs_encode_byte (out : Z) (st : cobs_state) (value : Z) : cobs_state :=
  let '(mk_cobs m wi ci c) := st in
  if value =? 0 then mk_cobs (mset m (out + ci) c) (wi + 1) wi 1
  else
    let m := mset m (out + wi) value in
    let wi := wi + 1 in
    let c := u8 (c + 1) in
    if c =? 0xff then mk_cobs (mset m (out + ci) c) (wi + 1) wi 1
    else mk_cobs m wi ci c.

(** Bytes to encode come from memory, read when the loop reaches them, or from
    an array of the caller's own frame. *)
Definition byte_source := mem → Z → Z.
Definition from_mem (data : Z) : byte_source := λ m i, m (data + i).
Definition from_local (l : list Z) : byte_source := λ _ i, nth (Z.to_nat i) l 0.

Fixpoint cobs_encode_loop (out : Z) (src : byte_source) (i : Z) (n : nat)
    (st : cobs_state) : cobs_state :=
  match n with
  | O => st
  | S n => cobs_encode_loop out src (i + 1) n
             (cobs_encode_byte out st (src (cs_mem st) i))
  end.

Definition cobs_start (m : mem) : cobs_state := mk_cobs m 1 0 1.

(** Memory, result code and [*output_len]; [output_len_ptr] is the pointer. *)
Definition wl_cobs_encode (m : mem) (input input_len output output_capacity
    output_len_ptr : Z) : mem * wl_err * Z :=
  if output_len_ptr =? NULL then (m, WL_ERR_INVALID_ARG, 0)
  else
    let '(ret, required) := wl_cobs_count_encoded_len m input input_len in
    if negb (is_ok ret) then (m, ret, 0)
    else if output_capacity <? required then (m, WL_ERR_BUF_TOO_SMALL, 0)
    else if (output =? NULL) && (required >? 0) then (m, WL_ERR_INVALID_ARG, 0)
    else if input_len =? 0 then (mset m output 1, WL_OK, 1)
    else
      let st := cobs_encode_loop output (from_mem input) 0 (Z.to_nat input_len)
                  (cobs_start m) in
      (mset (cs_mem st) (output + code_index st) (code st), WL_OK, write_index st).

(** First pass of [wl_cobs_decode].  [n] bounds the number of code bytes; the
    loop stops by its own condition before [n = input_len] is used up. *)
Fixpoint cobs_decode_scan (n : nat) (m : mem) (input input_len in_pos required : Z)
    : wl_err + Z :=
  match n with
  | O => inr required
  | S n =>
      if in_pos <? input_len then
        let code := m (input + in_pos) in
        let in_pos := usize (in_pos + 1) in
        if code =? 0 then inl WL_ERR_COBS_DECODE
        else if usize (in_pos + code - 1) >? input_len then inl WL_ERR_COBS_DECODE
        else
          let required := usize (required + (code - 1)) in
          if (required =? 0) && negb (code - 1 =? 0) then inl WL_ERR_INVALID_ARG
          else
            let in_pos := usize (in_pos + (code - 1)) in
            if (usize (in_pos + (code - 1)) <? input_len) && negb (code =? 0xff) then
              let required := usize (required + 1) in
              if required =? 0 then inl WL_ERR_INVALID_ARG
              else cobs_decode_scan n m input input_len in_pos required
            else cobs_decode_scan n m input input_len in_pos required
      else inr required
  end.

(** [for (i = 1; i < code; ++i) output[len++] = input[in_pos++]]. *)
Fixpoint cobs_copy (n : nat) (m : mem) (src dst : Z) : mem :=
  match n with
  | O => m
  | S n => cobs_copy n (mset m dst (m src)) (src + 1) (dst + 1)
  end.

(** Second pass: memory and [*output_len]. *)
Fixpoint cobs_decode_loop (n : nat) (m : mem) (input input_len output in_pos
    output_len : Z) : mem * Z :=
  match n with
  | O => (m, output_len)
  | S n =>
      if in_pos <? input_len then
        let code := m (input + in_pos) in
        let in_pos := in_pos + 1 in
        let count := Z.max 0 (code - 1) in
        let m := cobs_copy (Z.to_nat count) m (input + in_pos) (output + output_len) in
        let in_pos := in_pos + count in
        let output_len := output_len + count in
        if (in_pos <? input_len) && negb (code =? 0xff) then
          cobs_decode_loop n (mset m (output + output_len) 0) input input_len output
            in_pos (output_len + 1)
        else cobs_decode_loop n m input input_len output in_pos output_len
      else (m, output_len)
  end.

Definition wl_cobs_decode (m : mem) (input input_len output output_capacity
    output_len_ptr : Z) : mem * wl_err * Z :=
  if output_len_ptr =? NULL then (m, WL_ERR_INVALID_ARG, 0)
  else if (input =? NULL) && (input_len >? 0) then (m, WL_ERR_INVALID_ARG, 0)
  else if input_len =? 0 then (m, WL_ERR_COBS_DECODE, 0)
  else match cobs_decode_scan (Z.to_nat input_len) m input input_len 0 0 with
       | inl e => (m, e, 0)
       | inr required =>
           if required >? output_capacity then (m, WL_ERR_BUF_TOO_SMALL, 0)
           else if (output =? NULL) && (required >? 0) then (m, WL_ERR_INVALID_ARG, 0)
           else
             let '(m, len) := cobs_decode_loop (Z.to_nat input_len) m input input_len
                                output 0 0 in
             (m, WL_OK, len)
       end.

Definition wl_cobs_decode_in_place (m : mem) (buffer input_len output_len_ptr : Z)
    : mem * wl_err * Z :=
  wl_cobs_decode m buffer input_len buffer input_len output_len_ptr.

(** ** Reference *)

(** Closed blocks and the data of the open one. *)
Definition cobs_pure := (list Z * list Z)%type.

Definition cobs_step (s : cobs_pure) (b : Z) : cobs_pure :=
  let '(closed, blk) := s in
  if b =? 0 then (closed ++ (1 + Z.of_nat (length blk)) :: blk, [])
  else if (length blk =? 253)%nat then (closed ++ 255 :: blk ++ [b], [])
  else (closed, blk ++ [b]).

Definition cobs_finish (s : cobs_pure) : list Z :=
  s.1 ++ (1 + Z.of_nat (length s.2)) :: s.2.

Definition cobs_enc (l : list Z) : list Z := cobs_finish (foldl cobs_step ([], []) l).

Fixpoint cobs_dec (fuel : nat) (l : list Z) : option (list Z) :=
  match fuel, l with
  | S fuel, code :: rest =>
      let n := Z.to_nat (code - 1) in
      if (code =? 0) || (length rest <? n)%nat then None
      else match drop n rest with
           | [] => Some (take n rest)
           | tail => tail_dec ← cobs_dec fuel tail;
                     Some (take n rest ++ (if code =? 255 then [] else [0]) ++ tail_dec)
           end
  | _, _ => None
  end.

Definition cobs_decoded (l : list Z) : option (list Z) := cobs_dec (length l) l.

(** ** Lemmas: the reference *)

Definition cobs_wi (s : cobs_pure) : Z :=
  Z.of_nat (length s.1) + 1 + Z.of_nat (length s.2).

Definition cobs_ok (s : cobs_pure) : Prop := (length s.2 < 254)%nat.

Ltac cobs_cases :=
  unfold cobs_step, cobs_ok, cobs_wi, cobs_finish in *; simpl in *;
  split_ifs; simpl in *; autorewrite with wl in *; simpl in *;
  autorewrite with wl in *; simpl in *.

Lemma cobs_step_ok s b : cobs_ok s → cobs_ok (cobs_step s b).
Proof. destruct s. intros. cobs_cases; lia. Qed.

Lemma cobs_run_ok s l : cobs_ok s → cobs_ok (foldl cobs_step s l).
Proof.
  revert s. induction l as [|b l IH]; intros s Hs; [done|]. by apply IH, cobs_step_ok.
Qed.

Lemma cobs_step_wi s b :
  cobs_wi (cobs_step s b) = cobs_wi s + 1 ∨ cobs_wi (cobs_step s b) = cobs_wi s + 2.
Proof. destruct s. cobs_cases; lia. Qed.

Lemma cobs_run_wi s l : cobs_wi s + Z.of_nat (length l) <= cobs_wi (foldl cobs_step s l).
Proof.
  revert s. induction l as [|b l IH]; intros s; simpl; [lia|].
  pose proof (IH (cobs_step s b)). pose proof (cobs_step_wi s b). lia.
Qed.

(** Extra code bytes are paid for by 254 data bytes each. *)
Lemma cobs_run_wi_upper s l n :
  254 * (cobs_wi s - 1 - n) + Z.of_nat (length s.2) <= n →
  254 * (cobs_wi (foldl cobs_step s l) - 1 - (n + Z.of_nat (length l)))
    + Z.of_nat (length (foldl cobs_step s l).2) <= n + Z.of_nat (length l).
Proof.
  revert s n. induction l as [|b l IH]; intros s n Hn; simpl; [lia|].
  replace (n + Z.of_nat (S (length l))) with (n + 1 + Z.of_nat (length l)) by lia.
  apply IH. destruct s. cobs_cases; lia.
Qed.

Lemma cobs_finish_length s : Z.of_nat (length (cobs_finish s)) = cobs_wi s.
Proof. destruct s. cobs_cases; lia. Qed.

Lemma cobs_enc_length l :
  Z.of_nat (length l) + 1 <= Z.of_nat (length (cobs_enc l))
    <= Z.of_nat (length l) + Z.of_nat (length l) / 254 + 1.
Proof.
  unfold cobs_enc. rewrite cobs_finish_length.
  pose proof (cobs_run_wi ([], []) l) as H1.
  pose proof (cobs_run_wi_upper ([], []) l 0 ltac:(done)) as H2.
  unfold cobs_wi at 1 in H1. simpl in H1. split; [lia|].
  pose proof (Z.div_mod (Z.of_nat (length l)) 254 ltac:(lia)).
  pose proof (Z.mod_pos_bound (Z.of_nat (length l)) 254 ltac:(lia)). lia.
Qed.

(** The same encoder read as a function of the open block. *)
Fixpoint cobs_enc_from (blk l : list Z) : list Z :=
  match l with
  | [] => (1 + Z.of_nat (length blk)) :: blk
  | b :: l =>
      if b =? 0 then (1 + Z.of_nat (length blk)) :: blk ++ cobs_enc_from [] l
      else if (length blk =? 253)%nat then 255 :: (blk ++ [b]) ++ cobs_enc_from [] l
      else cobs_enc_from (blk ++ [b]) l
  end.

Lemma cobs_enc_from_run closed blk l :
  cobs_finish (foldl cobs_step (closed, blk) l) = closed ++ cobs_enc_from blk l.
Proof.
  revert closed blk. induction l as [|b l IH]; intros closed blk; simpl; [done|].
  split_ifs; rewrite IH; repeat (simpl; rewrite <- app_assoc); done.
Qed.

Lemma cobs_enc_from_nonempty blk l : cobs_enc_from blk l ≠ [].
Proof. revert blk. induction l; intros; simpl; split_ifs; auto. Qed.

Lemma cobs_dec_block fuel n blk tail :
  length blk = n → (n < 255)%nat →
  cobs_dec (S fuel) (1 + Z.of_nat n :: blk ++ tail) =
  match tail with
  | [] => Some blk
  | _ => r ← cobs_dec fuel tail;
         Some (blk ++ (if 1 + Z.of_nat n =? 255 then [] else [0]) ++ r)
  end.
Proof.
  intros <- Hn. cbn [cobs_dec].
  replace (Z.to_nat (1 + Z.of_nat (length blk) - 1)) with (length blk) by lia.
  rewrite drop_app_length, take_app_length, length_app.
  replace (1 + Z.of_nat (length blk) =? 0) with false by lia.
  replace (length blk + length tail <? length blk)%nat with false by lia.
  by destruct tail.
Qed.

Lemma cobs_dec_enc_from blk l fuel :
  (length blk < 254)%nat → (length (cobs_enc_from blk l) <= fuel)%nat →
  cobs_dec fuel (cobs_enc_from blk l) = Some (blk ++ l).
Proof.
  revert blk fuel. induction l as [|b l IH]; intros blk [|fuel] Hb Hf.
  1,2,3: cbn [cobs_enc_from length] in *.
  - lia.
  - rewrite <- (app_nil_r blk) at 2. rewrite cobs_dec_block by lia. by rewrite app_nil_r.
  - split_ifs_in Hf; simpl in Hf; try lia.
    pose proof (cobs_enc_from_nonempty (blk ++ [b]) l) as Hne.
    destruct (cobs_enc_from (blk ++ [b]) l); [done|simpl in Hf; lia].
  - pose proof (cobs_enc_from_nonempty [] l) as Hne.
    cbn [cobs_enc_from] in *. split_ifs; cbn [length] in Hf; autorewrite with wl in Hf.
    + rewrite cobs_dec_block by lia. rewrite (IH [] fuel) by (simpl; lia).
      replace (1 + Z.of_nat (length blk) =? 255) with false by lia.
      destruct (cobs_enc_from [] l); [done|]. simpl. repeat f_equal. lia.
    + assert (length (blk ++ [b]) = 254%nat) as H254 by (autorewrite with wl; simpl; lia).
      rewrite (cobs_dec_block fuel 254) by lia. rewrite (IH [] fuel) by (simpl; lia).
      destruct (cobs_enc_from [] l); [done|]. simpl. by rewrite <- app_assoc.
    + rewrite IH by (autorewrite with wl; simpl; lia). by rewrite <- app_assoc.
Qed.

Lemma cobs_decoded_enc l : cobs_decoded (cobs_enc l) = Some l.
Proof.
  unfold cobs_decoded, cobs_enc. rewrite cobs_enc_from_run.
  by apply cobs_dec_enc_from; simpl; [lia|].
Qed.

(** Byte sequences stay byte sequences, and lose their zeros. *)
Definition wire_byte (b : Z) : Prop := 0 < b < 256.

Lemma cobs_step_wire s b :
  cobs_ok s → is_byte b → Forall wire_byte s.1 → Forall wire_byte s.2 →
  Forall wire_byte (cobs_step s b).1 ∧ Forall wire_byte (cobs_step s b).2.
Proof.
  destruct s as [c k]. unfold cobs_ok, is_byte, wire_byte. simpl. intros Hok Hb Hc Hk.
  split_ifs; simpl; rewrite ?Forall_app, ?Forall_cons, ?Forall_app, ?Forall_singleton;
    repeat split; auto; lia.
Qed.

Lemma cobs_run_wire s l :
  cobs_ok s → Forall is_byte l → Forall wire_byte s.1 → Forall wire_byte s.2 →
  Forall wire_byte (cobs_finish (foldl cobs_step s l)).
Proof.
  intros Hok Hl. revert s Hok. induction Hl as [|b l Hb Hl IH]; intros s Hok H1 H2; simpl.
  - unfold cobs_finish, cobs_ok in *. apply Forall_app. split; [done|].
    apply Forall_cons. split; [unfold wire_byte; lia|done].
  - destruct (cobs_step_wire s b) as [??]; [done..|]. apply IH; auto using cobs_step_ok.
Qed.

Lemma cobs_enc_wire l : Forall is_byte l → Forall wire_byte (cobs_enc l).
Proof. intros. apply cobs_run_wire; [by unfold cobs_ok; simpl; lia|done..]. Qed.

(** ** Lemmas: the encoder loop *)

(** The output buffer holds the closed blocks, a free code slot and the data of
    the open block. *)
Record cobs_rep (out : Z) (st : cobs_state) (s : cobs_pure) : Prop := {
  rep_closed : mread (cs_mem st) out (length s.1) = s.1;
  rep_blk : mread (cs_mem st) (out + Z.of_nat (length s.1) + 1) (length s.2) = s.2;
  rep_ci : code_index st = Z.of_nat (length s.1);
  rep_wi : write_index st = cobs_wi s;
  rep_code : code st = 1 + Z.of_nat (length s.2);
  rep_ok : cobs_ok s;
}.

Lemma cobs_rep_start out m : cobs_rep out (cobs_start m) ([], []).
Proof. by split; unfold cobs_ok; simpl; try lia. Qed.

(** Closing the open block of representation [s] with code byte [c]. *)
Lemma cobs_rep_close out m s c :
  mread m out (length s.1) = s.1 →
  mread m (out + Z.of_nat (length s.1) + 1) (length s.2) = s.2 →
  mread (mset m (out + Z.of_nat (length s.1)) c) out (length (s.1 ++ c :: s.2))
  = s.1 ++ c :: s.2.
Proof.
  destruct s as [cl blk]. simpl. intros H1 H2. rewrite length_app, mread_app. simpl.
  rewrite mset_eq, !mread_mset_out by lia. by rewrite H1, H2.
Qed.

Lemma cobs_rep_step out st s b :
  cobs_rep out st s → cobs_rep out (cobs_encode_byte out st b) (cobs_step s b).
Proof.
  destruct st as [m wi ci c], s as [cl blk].
  intros [H1 H2 Hci Hwi Hc Hok]. unfold cobs_wi, cobs_ok in *. simpl in *. subst.
  destruct (Z.eqb_spec b 0) as [->|Hb].
  { split; unfold cobs_wi, cobs_ok; simpl; autorewrite with wl; simpl; try lia; [|done].
    rewrite <- length_cons with (x := 1 + Z.of_nat (length blk)), <- length_app.
    by apply (cobs_rep_close out m (cl, blk)). }
  rewrite (u8_id (1 + Z.of_nat (length blk) + 1)) by sz_lia.
  set (m' := mset m (out + (Z.of_nat (length cl) + 1 + Z.of_nat (length blk))) b).
  assert (mread m' out (length cl) = cl) as H1'.
  { subst m'. by rewrite mread_mset_out by lia. }
  assert (mread m' (out + Z.of_nat (length cl) + 1) (length (blk ++ [b])) = blk ++ [b])
    as H2'.
  { subst m'. rewrite length_app, mread_app. simpl. rewrite mread_mset_out by lia.
    rewrite H2. do 2 f_equal. unfold mset. split_ifs; [done|lia]. }
  destruct (Nat.eqb_spec (length blk) 253) as [Hfull|Hfull].
  - replace (1 + Z.of_nat (length blk) + 1 =? 255) with true by lia.
    split; unfold cobs_wi, cobs_ok; simpl; autorewrite with wl; simpl;
      autorewrite with wl; simpl; try lia; [|done].
    pose proof (cobs_rep_close out m' (cl, blk ++ [b]) 255 H1' H2') as Hcl.
    autorewrite with wl in Hcl. simpl in Hcl. autorewrite with wl in Hcl.
    replace (1 + Z.of_nat (length blk) + 1) with 255 by lia. exact Hcl.
  - replace (1 + Z.of_nat (length blk) + 1 =? 255) with false by lia.
    split; unfold cobs_wi, cobs_ok; simpl; try done; autorewrite with wl; simpl; try lia.
Qed.

(** A step stores no further than the byte at [write_index]. *)
Lemma cobs_encode_byte_frame out st s b x :
  cobs_rep out st s → x < out ∨ out + cobs_wi s < x →
  cs_mem (cobs_encode_byte out st b) x = cs_mem st x.
Proof.
  destruct st as [m wi ci c], s as [cl blk].
  intros [H1 H2 Hci Hwi Hc Hok] Hx. unfold cobs_wi, cobs_ok in *. simpl in *. subst.
  split_ifs; simpl; rewrite ?mset_ne by lia; done.
Qed.

(** [src_ahead out src i l s]: while the loop encodes [l] from state [s], the
    bytes of the source it has not read yet are out of reach of its stores. *)
Definition src_ahead (out : Z) (src : byte_source) (i : Z) (l : list Z)
    (s : cobs_pure) : Prop :=
  ∀ k j m m', (k < j < length l)%nat →
    (∀ x, x < out ∨ out + cobs_wi (foldl cobs_step s (take k l)) < x → m' x = m x) →
    src m' (i + Z.of_nat j) = src m (i + Z.of_nat j).

Lemma src_ahead_cons out src i b l s :
  src_ahead out src i (b :: l) s → src_ahead out src (i + 1) l (cobs_step s b).
Proof.
  intros H k j m m' Hkj Hm.
  replace (i + 1 + Z.of_nat j) with (i + Z.of_nat (S j)) by lia.
  apply (H (S k) (S j)); [simpl; lia|done].
Qed.

Lemma cobs_rep_loop out src i l st s :
  cobs_rep out st s → src_ahead out src i l s →
  (∀ j b, l !! j = Some b → src (cs_mem st) (i + Z.of_nat j) = b) →
  cobs_rep out (cobs_encode_loop out src i (length l) st) (foldl cobs_step s l) ∧
  ∀ x, x < out ∨ out + cobs_wi (foldl cobs_step s l) <= x →
       cs_mem (cobs_encode_loop out src i (length l) st) x = cs_mem st x.
Proof.
  revert i st s. induction l as [|b l IH]; intros i st s Hrep Hahead Hsrc; [done|].
  cbn [length cobs_encode_loop foldl].
  assert (src (cs_mem st) i = b) as ->.
  { specialize (Hsrc 0%nat b eq_refl). by rewrite Z.add_0_r in Hsrc. }
  destruct (IH (i + 1) (cobs_encode_byte out st b) (cobs_step s b)) as [Hr Hf].
  - by apply cobs_rep_step.
  - by apply src_ahead_cons.
  - intros j b' Hj. replace (i + 1 + Z.of_nat j) with (i + Z.of_nat (S j)) by lia.
    rewrite <- (Hsrc (S j) b' Hj). apply (Hahead 0%nat (S j)).
    + apply lookup_lt_Some in Hj. simpl. lia.
    + intros x Hx. by apply (cobs_encode_byte_frame _ _ s).
  - split; [done|]. intros x Hx. rewrite Hf by done.
    apply (cobs_encode_byte_frame _ _ s); [done|].
    pose proof (cobs_run_wi (cobs_step s b) l). pose proof (cobs_step_wi s b). lia.
Qed.

Lemma cobs_rep_finish out st s :
  cobs_rep out st s →
  mread (mset (cs_mem st) (out + code_index st) (code st)) out
    (Z.to_nat (write_index st)) = cobs_finish s.
Proof.
  intros [H1 H2 Hci Hwi Hc Hok]. rewrite Hci, Hwi, Hc, <- cobs_finish_length, Nat2Z.id.
  by apply cobs_rep_close.
Qed.

Lemma src_ahead_local out l i l' s : src_ahead out (from_local l') i l s.
Proof. by intros k j m m'. Qed.

(** A source span the encoder's output never reaches. *)
Lemma src_ahead_disjoint out a i l s :
  (∀ j, (j < length l)%nat → a + i + Z.of_nat j < out ∨
     out + cobs_wi (foldl cobs_step s l) <= a + i + Z.of_nat j) →
  src_ahead out (from_mem a) i l s.
Proof.
  intros H k j m m' Hkj Hm. unfold from_mem. apply Hm.
  destruct (H j ltac:(lia)) as [?|?]; [lia|right].
  enough (cobs_wi (foldl cobs_step s (take k l)) < cobs_wi (foldl cobs_step s l)) by lia.
  rewrite <- (take_drop k l) at 2. rewrite foldl_app.
  pose proof (cobs_run_wi (foldl cobs_step s (take k l)) (drop k l)) as Hw.
  rewrite length_drop in Hw. lia.
Qed.

(** A source span inside the output buffer that starts far enough ahead:
    its distance from the write position covers all the expansion to come. *)
Lemma src_ahead_staged out a i l s :
  out + cobs_wi (foldl cobs_step s l) <= a + i + Z.of_nat (length l) →
  src_ahead out (from_mem a) i l s.
Proof.
  intros H k j m m' Hkj Hm. unfold from_mem. apply Hm. right.
  rewrite <- (take_drop k l) in H at 1. rewrite foldl_app in H.
  pose proof (cobs_run_wi (foldl cobs_step s (take k l)) (drop k l)) as Hw.
  rewrite length_drop in Hw. lia.
Qed.

Lemma cobs_count_loop_ok m input n s :
  cobs_ok s →
  cobs_wi (foldl cobs_step s (mread m input n)) < SIZE_MAX →
  cobs_count_loop m input n (cobs_wi s) (1 + Z.of_nat (length s.2))
  = Some (cobs_wi (foldl cobs_step s (mread m input n))).
Proof.
  revert input s. induction n as [|n IH]; intros input s Hok Hlt; [done|].
  cbn [mread foldl] in *.
  pose proof (cobs_run_wi (cobs_step s (m input)) (mread m (input + 1) n)).
  pose proof (cobs_step_ok s (m input) Hok). pose proof (cobs_step_wi s (m input)).
  assert (cobs_wi (cobs_step s (m input)) < SIZE_MAX) as Hs by lia.
  rewrite <- IH by done. clear IH Hlt. destruct s as [cl blk].
  unfold cobs_ok, cobs_wi, SIZE_MAX, cobs_step in *. cbn -[Z.pow] in *.
  destruct (Z.eqb_spec (m input) 0); [|destruct (Nat.eqb_spec (length blk) 253)];
    cbn -[Z.pow] in *; autorewrite with wl in *; cbn -[Z.pow] in *;
    autorewrite with wl in *; cbn -[Z.pow] in *;
    rewrite ?(u8_id (_ + 1)), ?(usize_id (_ + 1 + _ + 1)) by sz_lia.
  - f_equal. lia.
  - replace (1 + Z.of_nat (length blk) + 1 =? 255) with true by lia.
    rewrite usize_id by sz_lia. split_ifs; [sz_lia|]. f_equal; lia.
  - replace (1 + Z.of_nat (length blk) + 1 =? 255) with false by lia.
    split_ifs; [sz_lia|]. f_equal; lia.
Qed.

Lemma wl_cobs_count_encoded_len_ok m input input_len :
  0 <= input_len < 2 ^ 63 → input ≠ NULL →
  wl_cobs_count_encoded_len m input input_len
  = (WL_OK, Z.of_nat (length (cobs_enc (mread m input (Z.to_nat input_len))))).
Proof.
  intros Hlen Hin. unfold wl_cobs_count_encoded_len, NULL in *.
  replace (input =? 0) with false by lia. simpl.
  destruct (Z.eqb_spec input_len 0) as [->|Hne]; [done|].
  change 1 with (cobs_wi ([], [])) at 1.
  change (cobs_count_loop m input (Z.to_nat input_len) (cobs_wi ([], [])) 1) with
    (cobs_count_loop m input (Z.to_nat input_len) (cobs_wi ([], []))
       (1 + Z.of_nat (length (([], []) : cobs_pure).2))).
  set (l := mread m input (Z.to_nat input_len)).
  pose proof (cobs_enc_length l) as Hb. unfold cobs_enc in *.
  rewrite cobs_finish_length in *. subst l. autorewrite with wl in Hb.
  rewrite cobs_count_loop_ok; [done|unfold cobs_ok; simpl; lia|].
  div_lia.
Qed.

(** ** Lemmas: the decoder loops *)

Lemma cobs_dec_fuel fuel l :
  (length l <= fuel)%nat → cobs_dec fuel l = cobs_decoded l.
Proof.
  unfold cobs_decoded. revert l.
  induction fuel as [fuel IH] using lt_wf_ind. intros l Hl.
  destruct fuel as [|fuel], l as [|c rest]; simpl in Hl; try done; [lia|].
  cbn [cobs_dec length]. destruct (_ || _) eqn:E; [done|].
  destruct (drop (Z.to_nat (c - 1)) rest) as [|t tail] eqn:Hd; [done|].
  assert (length (t :: tail) <= length rest)%nat.
  { rewrite <- Hd, length_drop. lia. }
  rewrite (IH fuel), (IH (length rest)) by (simpl in *; lia). done.
Qed.

(** One block of a decodable sequence. *)
Lemma cobs_decoded_cons c rest :
  cobs_decoded (c :: rest) =
  let n := Z.to_nat (c - 1) in
  if (c =? 0) || (length rest <? n)%nat then None
  else match drop n rest with
       | [] => Some (take n rest)
       | tail => r ← cobs_decoded tail;
                 Some (take n rest ++ (if c =? 255 then [] else [0]) ++ r)
       end.
Proof.
  unfold cobs_decoded at 1. cbn [cobs_dec length]. cbv zeta.
  destruct (_ || _); [done|].
  destruct (drop (Z.to_nat (c - 1)) rest) as [|t tail] eqn:Hd; [done|].
  rewrite cobs_dec_fuel; [done|]. rewrite <- Hd, length_drop. lia.
Qed.

Lemma cobs_decoded_length l d :
  cobs_decoded l = Some d → (length d < length l)%nat.
Proof.
  revert d. induction l as [l IH] using (induction_ltof1 _ (@length Z)). unfold ltof in IH.
  intros d. destruct l as [|c rest]; [done|]. rewrite cobs_decoded_cons. cbv zeta.
  destruct (_ || _) eqn:E; [done|]. apply orb_false_iff in E as [Hc Hn].
  set (n := Z.to_nat (c - 1)) in *. pose proof (length_drop rest n) as Hdl.
  destruct (drop n rest) as [|t tail] eqn:Hd.
  - intros [= <-]. rewrite length_take. simpl. lia.
  - destruct (cobs_decoded (t :: tail)) as [r|] eqn:Hr; [|done]. intros [= <-].
    apply IH in Hr; [|simpl in *; lia].
    rewrite !length_app, length_take. simpl in *. split_ifs; simpl; lia.
Qed.

Lemma cobs_decoded_bytes l d :
  Forall is_byte l → cobs_decoded l = Some d → Forall is_byte d.
Proof.
  revert d. induction l as [l IH] using (induction_ltof1 _ (@length Z)). unfold ltof in IH.
  intros d Hby. destruct l as [|c rest]; [done|].
  rewrite cobs_decoded_cons. cbv zeta. apply Forall_cons in Hby as [_ Hby].
  destruct (_ || _); [done|]. set (n := Z.to_nat (c - 1)).
  pose proof (length_drop rest n) as Hdl. pose proof (Forall_drop _ n _ Hby) as Hdrop.
  destruct (drop n rest) as [|t tail] eqn:Hd; [intros [= <-]; by apply Forall_take|].
  destruct (cobs_decoded (t :: tail)) as [r|] eqn:Hr; [|done]. intros [= <-].
  apply Forall_app. split; [by apply Forall_take|]. apply Forall_app. split.
  - destruct (c =? 255); by_compute.
  - apply (IH (t :: tail)); [simpl in *; lia|done|done].
Qed.

(** What the sizing pass returns on the rest of the input: the reference
    decoder's verdict, and at most its length. *)
Definition scan_spec (suf : list Z) (required : Z) (res : wl_err + Z) : Prop :=
  match suf with
  | [] => res = inr required
  | _ => match cobs_decoded suf with
         | None => res = inl WL_ERR_COBS_DECODE
         | Some d => ∃ k, res = inr k ∧ required <= k <= required + Z.of_nat (length d)
         end
  end.

Lemma cobs_decode_scan_ok n m input input_len in_pos required suf :
  Forall is_byte suf → 0 <= in_pos → input_len < 2 ^ 63 →
  in_pos + Z.of_nat (length suf) = input_len →
  mread m (input + in_pos) (length suf) = suf → (length suf <= n)%nat →
  0 <= required <= in_pos →
  scan_spec suf required (cobs_decode_scan n m input input_len in_pos required).
Proof.
  revert in_pos required suf. induction n as [|n IH]; intros in_pos required suf Hby Hp Hlen
    Hsum Hread Hn Hreq.
  { by destruct suf; [|simpl in Hn; lia]. }
  destruct suf as [|c rest].
  { simpl in *. by replace (in_pos <? input_len) with false by lia. }
  cbn [length mread] in *. injection Hread as Hc Hrest.
  apply Forall_cons in Hby as [Hcb Hby]. unfold is_byte in Hcb.
  unfold scan_spec. rewrite cobs_decoded_cons. cbn [cobs_decode_scan]. cbv zeta.
  replace (in_pos <? input_len) with true by lia. rewrite Hc.
  rewrite !(usize_id (in_pos + 1)) by sz_lia.
  destruct (Z.eqb_spec c 0); [done|].
  rewrite (usize_id (in_pos + 1 + c - 1)) by sz_lia.
  destruct (Z.gtb_spec (in_pos + 1 + c - 1) input_len).
  { by replace (length rest <? Z.to_nat (c - 1))%nat with true by lia. }
  replace (length rest <? Z.to_nat (c - 1))%nat with false by lia. cbn [orb].
  rewrite !(usize_id (required + (c - 1))) by sz_lia.
  replace ((required + (c - 1) =? 0) && negb (c - 1 =? 0)) with false by lia.
  rewrite !(usize_id (in_pos + 1 + (c - 1))) by sz_lia.
  rewrite !(usize_id (in_pos + 1 + (c - 1) + (c - 1))) by sz_lia.
  set (k := Z.to_nat (c - 1)). pose proof (length_drop rest k) as Hdl.
  pose proof (length_take rest k) as Htl.
  assert (mread m (input + (in_pos + 1 + (c - 1))) (length (drop k rest)) = drop k rest)
    as Hd.
  { replace (input + (in_pos + 1 + (c - 1))) with (input + in_pos + 1 + Z.of_nat k) by lia.
    by apply mread_suffix. }
  assert (∀ r, 0 <= r <= in_pos + 1 + (c - 1) → scan_spec (drop k rest) r
    (cobs_decode_scan n m input input_len (in_pos + 1 + (c - 1)) r)) as IH'.
  { intros r Hr. apply IH; try lia; [by apply Forall_drop|done]. }
  assert (drop k rest = [] → in_pos + 1 + (c - 1) = input_len) as Hend.
  { intros E. rewrite E in Hdl. simpl in Hdl. lia. }
  destruct (_ && negb (c =? 255)) eqn:Ez.
  - rewrite !(usize_id (required + (c - 1) + 1)) by sz_lia.
    replace (required + (c - 1) + 1 =? 0) with false by lia.
    specialize (IH' (required + (c - 1) + 1) ltac:(lia)). unfold scan_spec in IH'.
    destruct (drop k rest) as [|t tail]; [specialize (Hend eq_refl); lia|].
    destruct (cobs_decoded (t :: tail)) as [d|]; [|done].
    destruct IH' as (k' & -> & Hk'). cbn [mbind option_bind]. eexists. split; [done|].
    rewrite !length_app, Htl. split_ifs; simpl; lia.
  - specialize (IH' (required + (c - 1)) ltac:(lia)). unfold scan_spec in IH'.
    destruct (drop k rest) as [|t tail].
    { rewrite IH'. eexists. split; [done|]. rewrite Htl. lia. }
    destruct (cobs_decoded (t :: tail)) as [d|]; [|done].
    destruct IH' as (k' & -> & Hk'). cbn [mbind option_bind]. eexists. split; [done|].
    rewrite !length_app, Htl. split_ifs; simpl; lia.
Qed.

Lemma cobs_copy_frame n m src dst x :
  x < dst ∨ dst + Z.of_nat n <= x → cobs_copy n m src dst x = m x.
Proof.
  revert m src dst. induction n as [|n IH]; intros m src dst Hx; simpl; [done|].
  rewrite IH by lia. apply mset_ne. lia.
Qed.

Lemma cobs_copy_ok n m src dst :
  dst < src ∨ src + Z.of_nat n <= dst →
  mread (cobs_copy n m src dst) dst n = mread m src n.
Proof.
  revert m src dst. induction n as [|n IH]; intros m src dst H; simpl; [done|].
  rewrite cobs_copy_frame, mset_eq by lia. f_equal.
  rewrite IH by lia. apply mread_mset_out. lia.
Qed.

(** Where the decoder may write while input from [rd] on is still unread. *)
Definition dec_safe (wr rd input_end : Z) : Prop := wr <= rd ∨ input_end <= wr.

Lemma stored_copy m src dst (data : list Z) :
  mread m src (length data) = data →
  dst < src ∨ src + Z.of_nat (length data) <= dst →
  stored m (cobs_copy (length data) m src dst) dst data.
Proof.
  intros Hr Hs. split; [by rewrite cobs_copy_ok|]. intros. by apply cobs_copy_frame.
Qed.

Lemma cobs_decode_loop_ok n m input input_len output in_pos len suf d :
  Forall is_byte suf → in_pos + Z.of_nat (length suf) = input_len →
  mread m (input + in_pos) (length suf) = suf → (length suf <= n)%nat →
  dec_safe (output + len) (input + in_pos) (input + input_len) →
  cobs_decoded suf = Some d →
  ∃ m', cobs_decode_loop n m input input_len output in_pos len
        = (m', len + Z.of_nat (length d)) ∧ stored m m' (output + len) d.
Proof.
  revert m in_pos len suf d. induction n as [|n IH]; intros m in_pos len suf d Hby Hsum Hread
    Hn Hsafe Hdec; destruct suf as [|c rest]; try done; [simpl in Hn; lia|].
  cbn [length mread] in *. injection Hread as Hc Hrest.
  apply Forall_cons in Hby as [Hcb Hby]. unfold is_byte in Hcb.
  rewrite cobs_decoded_cons in Hdec. cbv zeta in Hdec.
  destruct (_ || _) eqn:E; [done|]. apply orb_false_iff in E as [Hc0 Hk].
  cbn [cobs_decode_loop]. cbv zeta. replace (in_pos <? input_len) with true by lia.
  rewrite Hc. rewrite !Z.max_r by lia.
  set (k := Z.to_nat (c - 1)) in *.
  pose proof (length_drop rest k) as Hdl. pose proof (length_take_le rest k ltac:(lia)) as Htl.
  assert (Z.of_nat k = c - 1) as Hkz by lia. unfold dec_safe in Hsafe.
  assert (mread m (input + (in_pos + 1)) (length (take k rest)) = take k rest) as Ht.
  { rewrite <- Hrest, mread_take, mread_length. f_equal; lia. }
  pose proof (stored_copy m _ (output + len) _ Ht ltac:(lia)) as Hcopy.
  rewrite Htl in Hcopy. set (m1 := cobs_copy _ _ _ _) in *.
  assert (mread m (input + in_pos + 1 + Z.of_nat k) (length (drop k rest)) = drop k rest)
    as Hd by by apply mread_suffix.
  assert (∀ m2 len2 dd r, stored m m2 (output + len) dd → drop k rest ≠ [] →
     len2 = len + Z.of_nat (length dd) → Z.of_nat (length dd) <= c →
     cobs_decoded (drop k rest) = Some r → d = dd ++ r →
     ∃ m', cobs_decode_loop n m2 input input_len output (in_pos + 1 + (c - 1)) len2
       = (m', len + Z.of_nat (length d)) ∧ stored m m' (output + len) d) as Hgo.
  { intros m2 len2 dd r Hm2 Hne -> Hdd Hr ->.
    assert (length (drop k rest) ≠ 0%nat) by (by destruct (drop k rest)).
    destruct (IH m2 (in_pos + 1 + (c - 1)) (len + Z.of_nat (length dd)) (drop k rest) r)
      as (m' & -> & Hm').
    - by apply Forall_drop.
    - lia.
    - eapply stored_keeps; [done| |lia].
      by replace (input + (in_pos + 1 + (c - 1))) with (input + in_pos + 1 + Z.of_nat k) by lia.
    - lia.
    - unfold dec_safe. lia.
    - done.
    - exists m'. split; [f_equal; rewrite length_app; lia|].
      apply (stored_app _ m2); [done|]. by rewrite <- Z.add_assoc. }
  destruct (drop k rest) as [|t tail] eqn:Edrop.
  { injection Hdec as <-. replace (in_pos + 1 + (c - 1) <? input_len) with false by (simpl in *; lia).
    exists m1. cbn [andb]. split; [|done].
    assert (in_pos + 1 + (c - 1) = input_len) by (simpl in *; lia).
    replace (len + (c - 1)) with (len + Z.of_nat (length (take k rest))) by lia.
    destruct n; cbn [cobs_decode_loop]; [done|].
    by replace (in_pos + 1 + (c - 1) <? input_len) with false by lia. }
  destruct (cobs_decoded (t :: tail)) as [r|] eqn:Er; [|done]. injection Hdec as <-.
  replace (in_pos + 1 + (c - 1) <? input_len) with true by (simpl in *; lia).
  cbn [andb]. destruct (Z.eqb_spec c 255); cbn [negb].
  - apply (Hgo m1 _ (take k rest) r); [done..|lia|lia|done|done].
  - apply (Hgo _ _ (take k rest ++ [0]) r); [|done| | |done|].
    + apply (stored_app _ m1); [done|]. rewrite Htl, <- Z.add_assoc, Hkz.
      apply stored_set.
    + rewrite length_app, Htl. simpl. lia.
    + rewrite length_app, Htl. simpl. lia.
    + by rewrite <- app_assoc.
Qed.

(** ** The whole decoder *)

Lemma wl_cobs_decode_ok m input input_len output cap p l :
  p ≠ NULL → input ≠ NULL → output ≠ NULL → 0 < input_len < 2 ^ 63 →
  input_len <= cap → output <= input ∨ input + input_len <= output →
  mread m input (Z.to_nat input_len) = l → Forall is_byte l →
  match cobs_decoded l with
  | None => wl_cobs_decode m input input_len output cap p = (m, WL_ERR_COBS_DECODE, 0)
  | Some d => ∃ m', wl_cobs_decode m input input_len output cap p
                    = (m', WL_OK, Z.of_nat (length d)) ∧ stored m m' output d
  end.
Proof.
  unfold wl_cobs_decode, NULL. intros Hp Hi Ho Hlen Hcap Hsep Hl Hby.
  replace (p =? 0) with false by lia. replace (input =? 0) with false by lia.
  replace (input_len =? 0) with false by lia. simpl.
  assert (length l = Z.to_nat input_len) as Hll by (by rewrite <- Hl, mread_length).
  assert (mread m (input + 0) (length l) = l) as Hr by (by rewrite Z.add_0_r, Hll).
  pose proof (cobs_decode_scan_ok (Z.to_nat input_len) m input input_len 0 0 l
    Hby ltac:(lia) ltac:(lia) ltac:(lia) Hr ltac:(lia) ltac:(lia)) as Hscan.
  unfold scan_spec in Hscan. destruct l as [|c rest]; [simpl in Hll; lia|].
  destruct (cobs_decoded (c :: rest)) as [d|] eqn:Ed; [|by rewrite Hscan].
  destruct Hscan as (k & -> & Hk). pose proof (cobs_decoded_length _ _ Ed).
  replace (k >? cap) with false by (simpl in *; lia). replace (output =? 0) with false by lia.
  simpl andb. cbv iota.
  destruct (cobs_decode_loop_ok (Z.to_nat input_len) m input input_len output 0 0
    (c :: rest) d Hby) as (m' & -> & Hm'); [lia|done|lia| |done|].
  - unfold dec_safe. lia.
  - exists m'. by rewrite Z.add_0_r in Hm'.
Qed.

Lemma wl_cobs_encode_ok m input input_len output cap p l :
  p ≠ NULL → input ≠ NULL → output ≠ NULL → 0 <= input_len < 2 ^ 63 →
  mread m input (Z.to_nat input_len) = l →
  Z.of_nat (length (cobs_enc l)) <= cap →
  input + input_len <= output ∨ output + Z.of_nat (length (cobs_enc l)) <= input →
  ∃ m', wl_cobs_encode m input input_len output cap p
        = (m', WL_OK, Z.of_nat (length (cobs_enc l))) ∧ stored m m' output (cobs_enc l).
Proof.
  intros Hp Hi Ho Hlen <- Hcap Hsep. unfold wl_cobs_encode.
  rewrite wl_cobs_count_encoded_len_ok by done. unfold NULL in *.
  set (l := mread m input (Z.to_nat input_len)) in *.
  assert (length l = Z.to_nat input_len) as Hll by apply mread_length.
  replace (p =? 0) with false by lia. replace (output =? 0) with false by lia.
  replace (cap <? Z.of_nat (length (cobs_enc l))) with false by lia. simpl.
  destruct (Z.eqb_spec input_len 0) as [->|Hne].
  { simpl. eexists. split; [done|]. apply stored_set. }
  rewrite <- Hll.
  destruct (cobs_rep_loop output (from_mem input) 0 l (cobs_start m) ([], []))
    as [Hrep Hframe].
  - apply cobs_rep_start.
  - apply src_ahead_disjoint. intros j Hj. unfold cobs_enc in Hsep.
    rewrite cobs_finish_length in Hsep. lia.
  - intros j b Hj. unfold from_mem. simpl. pose proof (lookup_lt_Some _ _ _ Hj).
    subst l. rewrite mread_lookup in Hj by lia. by injection Hj.
  - assert (write_index (cobs_encode_loop output (from_mem input) 0 (length l)
      (cobs_start m)) = Z.of_nat (length (cobs_enc l))) as Hwi.
    { unfold cobs_enc. rewrite cobs_finish_length. apply Hrep. }
    rewrite Hwi. eexists. split; [done|]. split.
    + rewrite <- (Nat2Z.id (length (cobs_enc l))), <- Hwi. by apply cobs_rep_finish.
    + unfold cobs_enc. rewrite cobs_finish_length. intros x Hx.
      pose proof (rep_ci _ _ _ Hrep) as Hci.
      rewrite mset_ne by (rewrite Hci; unfold cobs_wi in Hx; lia). by apply Hframe.
Qed.

(** ** Properties *)

(** with room for it, [wl_cobs_encode] writes exactly the
    reference encoding of its input, which contains no zero byte and fits
    [wl_cobs_encoded_max_size], and touches nothing else; without room it reports
    the shortage and writes nothing. *)
Theorem wl_cobs_encode_spec m input input_len output cap p l :
  p ≠ NULL → input ≠ NULL → output ≠ NULL → 0 <= input_len < 2 ^ 63 →
  mread m input (Z.to_nat input_len) = l → Forall is_byte l →
  input + input_len <= output ∨ output + Z.of_nat (length (cobs_enc l)) <= input →
  Forall wire_byte (cobs_enc l) ∧
  Z.of_nat (length (cobs_enc l)) <= wl_cobs_encoded_max_size input_len ∧
  if cap <? Z.of_nat (length (cobs_enc l))
  then wl_cobs_encode m input input_len output cap p = (m, WL_ERR_BUF_TOO_SMALL, 0)
  else ∃ m', wl_cobs_encode m input input_len output cap p
             = (m', WL_OK, Z.of_nat (length (cobs_enc l)))
         ∧ mread m' output (length (cobs_enc l)) = cobs_enc l
         ∧ ∀ x, x < output ∨ output + Z.of_nat (length (cobs_enc l)) <= x → m' x = m x.
Proof.
  intros Hp Hi Ho Hlen Hl Hby Hsep. split_and!.
  - by apply cobs_enc_wire.
  - pose proof (cobs_enc_length l) as Hb.
    assert (length l = Z.to_nat input_len) as Hll by (by rewrite <- Hl, mread_length).
    rewrite Hll in Hb. unfold wl_cobs_encoded_max_size. split_ifs; div_lia.
  - destruct (Z.ltb_spec cap (Z.of_nat (length (cobs_enc l)))) as [Hc|Hc].
    + unfold wl_cobs_encode. rewrite wl_cobs_count_encoded_len_ok by done. rewrite Hl.
      unfold NULL in *. replace (p =? 0) with false by lia.
      by replace (cap <? Z.of_nat (length (cobs_enc l))) with true by lia.
    + by apply wl_cobs_encode_ok.
Qed.

Lemma wl_cobs_encode_spec_witness :
  ∃ m', wl_cobs_encode (mwrite (λ _, 7) 16 [5; 0; 0; 9]) 16 4 100 6 1 = (m', WL_OK, 5)
    ∧ mread m' 100 5 = [2; 5; 1; 2; 9].
Proof.
  destruct (wl_cobs_encode_spec (mwrite (λ _, 7) 16 [5; 0; 0; 9]) 16 4 100 6 1 [5; 0; 0; 9])
    as (_ & _ & m' & E & R & _); [by_compute..|].
  exists m'. split; [exact E|exact R].
Defined.

(** decoding in place accepts exactly the sequences the
    reference decoder accepts.  On acceptance the front of the buffer holds the
    decoded bytes and every other byte of memory, the tail of the buffer
    included, is as before; on rejection memory is unchanged. *)
Theorem wl_cobs_decode_in_place_spec m buffer input_len p l :
  p ≠ NULL → buffer ≠ NULL → 0 < input_len < 2 ^ 63 →
  mread m buffer (Z.to_nat input_len) = l → Forall is_byte l →
  match cobs_decoded l with
  | None => wl_cobs_decode_in_place m buffer input_len p = (m, WL_ERR_COBS_DECODE, 0)
  | Some d => ∃ m', wl_cobs_decode_in_place m buffer input_len p
                    = (m', WL_OK, Z.of_nat (length d))
        ∧ Z.of_nat (length d) < input_len
        ∧ mread m' buffer (length d) = d
        ∧ ∀ x, x < buffer ∨ buffer + Z.of_nat (length d) <= x → m' x = m x
  end.
Proof.
  intros Hp Hb Hlen Hl Hby. unfold wl_cobs_decode_in_place.
  pose proof (wl_cobs_decode_ok m buffer input_len buffer input_len p l Hp Hb Hb Hlen
    ltac:(lia) ltac:(lia) Hl Hby) as H.
  destruct (cobs_decoded l) as [d|] eqn:Ed; [|done]. destruct H as (m' & E & R).
  exists m'. split; [done|]. split; [|done]. apply cobs_decoded_length in Ed.
  rewrite <- Hl, mread_length in Ed. lia.
Qed.

Lemma wl_cobs_decode_in_place_spec_witness :
  ∃ m', wl_cobs_decode_in_place (mwrite (λ _, 7) 100 [2; 5; 1; 2; 9]) 100 5 1
        = (m', WL_OK, 4) ∧ mread m' 100 4 = [5; 0; 0; 9].
Proof.
  destruct (wl_cobs_decode_in_place_spec (mwrite (λ _, 7) 100 [2; 5; 1; 2; 9]) 100 5 1
    [2; 5; 1; 2; 9]) as (m' & E & _ & R & _); [by_compute..|].
  exists m'. split; [exact E|exact R].
Defined.

(** C20: what [wl_cobs_encode] writes, [wl_cobs_decode_in_place]
    turns back into the bytes that were encoded. *)
Theorem wl_cobs_roundtrip m input input_len output cap p m1 k :
  p ≠ NULL → input ≠ NULL → output ≠ NULL → 0 <= input_len < 2 ^ 62 →
  Forall is_byte (mread m input (Z.to_nat input_len)) →
  input + input_len <= output ∨ output + wl_cobs_encoded_max_size input_len <= input →
  wl_cobs_encode m input input_len output cap p = (m1, WL_OK, k) →
  ∃ m2, wl_cobs_decode_in_place m1 output k p = (m2, WL_OK, input_len) ∧
        mread m2 output (Z.to_nat input_len) = mread m input (Z.to_nat input_len).
Proof.
  intros Hp Hi Ho Hlen Hby Hsep Henc. set (l := mread m input (Z.to_nat input_len)) in *.
  assert (length l = Z.to_nat input_len) as Hll by apply mread_length.
  pose proof (cobs_enc_length l) as Hb. rewrite Hll in Hb.
  assert (Z.of_nat (length (cobs_enc l)) <= wl_cobs_encoded_max_size input_len).
  { unfold wl_cobs_encoded_max_size. split_ifs; div_lia. }
  assert (Z.of_nat (length (cobs_enc l)) <= cap).
  { unfold wl_cobs_encode in Henc. rewrite wl_cobs_count_encoded_len_ok in Henc by (done || lia).
    fold l in Henc. split_ifs_in Henc; simpl in *; simplify_eq; lia. }
  destruct (wl_cobs_encode_ok m input input_len output cap p l) as (m' & E & R & F);
    [done..|lia|done|done|lia|].
  rewrite E in Henc. injection Henc as -> <-.
  pose proof (wl_cobs_decode_ok m1 output (Z.of_nat (length (cobs_enc l))) output
    (Z.of_nat (length (cobs_enc l))) p (cobs_enc l) Hp Ho Ho ltac:(div_lia)
    ltac:(lia) ltac:(lia)) as Hd.
  rewrite Nat2Z.id, cobs_decoded_enc in Hd. destruct Hd as (m2 & E2 & R2 & _); [done| |].
  { eapply Forall_impl; [by apply cobs_enc_wire|]. unfold wire_byte. intros; sz_lia. }
  exists m2. unfold wl_cobs_decode_in_place. rewrite E2, <- Hll. split; [|done].
  do 2 f_equal. lia.
Qed.

Lemma wl_cobs_roundtrip_witness :
  ∃ m1 m2, wl_cobs_encode (mwrite (λ _, 7) 16 [5; 0; 0; 9]) 16 4 100 8 1 = (m1, WL_OK, 5) ∧
    wl_cobs_decode_in_place m1 100 5 1 = (m2, WL_OK, 4) ∧ mread m2 100 4 = [5; 0; 0; 9].
Proof.
  edestruct (wl_cobs_roundtrip (mwrite (λ _, 7) 16 [5; 0; 0; 9]) 16 4 100 8 1)
    as (m2 & E & R); [by_compute..|reflexivity|]. eexists.
  exists m2. split; [reflexivity|]. split; [exact E|exact R].
Defined.

(** C36: the sizing pass of [wl_cobs_decode] counts too few bytes: it
    looks for the implied zero one block too far.  On this four-byte input a
    two-byte output buffer passes the capacity check and three bytes are
    stored. *)
Theorem wl_cobs_decode_overrun :
  let m := mwrite (λ _, 7) 16 [3; 97; 98; 1] in
  ∃ m', wl_cobs_decode m 16 4 100 2 1 = (m', WL_OK, 3) ∧ m 102 = 7 ∧ m' 102 = 0.
Proof. eexists. repeat split. Qed.
