(* ===== verification/Frame.v ===== *)
(** Wire frames: [src/src/frame.c], [src/src/frame_internal.h],
    [src/src/frame_cobs_crc16.c] and the selectors of
    [src/src/link_profile.h].

    A packet is written as a 4 or 16 byte header, its payload and a trailer of
    0, 2 or 4 checksum bytes, wrapped in one of three envelopes.  The encoders
    and decoders run over the flat memory, the payload pointer may point into
    the output buffer, and the reference is the pure byte string [wire_image].
    The library is modelled in its general build
    ([WL_LINK_PROFILE_COBS_CRC16 = 0]). *)
From S2P Require Import Prelude Crc Cobs.

(** ** Constants of [frame.h] and [profile.h] *)

Definition WL_FRAME_MARKER := 0xa0.
Definition WL_FRAME_MARKER_MASK := 0xf0.
Definition WL_FRAME_VERSION := 1.
Definition WL_FRAME_VERSION_SHIFT := 2.
Definition WL_FRAME_VERSION_MASK := 0x0c.
Definition WL_FRAME_KIND_MASK := 0x03.
Definition WL_FRAME_PREFIX :=
  Z.lor WL_FRAME_MARKER (Z.shiftl WL_FRAME_VERSION WL_FRAME_VERSION_SHIFT).
Definition WL_FRAME_BASE_HEADER_SIZE := 4.
Definition WL_FRAME_RELIABLE_HEADER_SIZE := 16.
Definition WL_FRAME_HEADER_SIZE := WL_FRAME_RELIABLE_HEADER_SIZE.
Definition WL_PACKET_MAX_PAYLOAD := 2048.

Definition WL_PACKET_DATA := 1.
Definition WL_PACKET_ACK := 2.
Definition WL_PACKET_NACK := 3.
Definition WL_PACKET_FLAG_RELIABLE := 1.

Definition WL_ENVELOPE_COBS_STREAM := 0.
Definition WL_ENVELOPE_NATIVE_PACKET := 1.
Definition WL_ENVELOPE_BUS_LENGTH16 := 2.

Definition WL_INTEGRITY_NONE := 0.
Definition WL_INTEGRITY_CRC16 := 1.
Definition WL_INTEGRITY_CRC32C := 2.

(** ** Data *)

(** [wl_wire_packet_t]; the selectors stay integers because the public entry
    points validate them. *)
Record wl_wire_packet := mk_packet {
  pk_type : Z;
  pk_integrity : Z;
  pk_flags : Z;
  pk_message_id : Z;
  pk_session_id : Z;
  pk_sequence : Z;
  pk_payload : Z;
  pk_payload_len : Z;
}.

(** [wl_frame_view_t] *)
Record wl_frame_view := mk_view {
  fv_type : Z;
  fv_flags : Z;
  fv_message_id : Z;
  fv_session_id : Z;
  fv_sequence : Z;
  fv_integrity : Z;
  fv_payload : wl_span;
  fv_integrity_bytes : wl_span;
  fv_total_len : Z;
}.

(** ** Operations *)

Definition wl_profile_envelope_valid (envelope : Z) : bool :=
  (envelope >=? WL_ENVELOPE_COBS_STREAM) && (envelope <=? WL_ENVELOPE_BUS_LENGTH16).

Definition wl_profile_integrity_valid (integrity : Z) : bool :=
  (integrity >=? WL_INTEGRITY_NONE) && (integrity <=? WL_INTEGRITY_CRC32C).

Definition wl_profile_crc_size (integrity : Z) : Z :=
  if integrity =? WL_INTEGRITY_CRC16 then 2
  else if integrity =? WL_INTEGRITY_CRC32C then 4 else 0.

(** Big-endian fields. *)
Definition read_u16_be (m : mem) (p : Z) : Z :=
  Z.lor (u16 (Z.shiftl (m p) 8)) (m (p + 1)).

Definition read_u32_be (m : mem) (p : Z) : Z :=
  Z.lor (Z.lor (Z.lor (Z.shiftl (m p) 24) (Z.shiftl (m (p + 1)) 16))
               (Z.shiftl (m (p + 2)) 8))
        (m (p + 3)).

Definition read_u64_be (m : mem) (p : Z) : Z :=
  Z.lor (Z.lor (Z.lor (Z.lor (Z.lor (Z.lor (Z.lor
    (Z.shiftl (m p) 56) (Z.shiftl (m (p + 1)) 48))
    (Z.shiftl (m (p + 2)) 40)) (Z.shiftl (m (p + 3)) 32))
    (Z.shiftl (m (p + 4)) 24)) (Z.shiftl (m (p + 5)) 16))
    (Z.shiftl (m (p + 6)) 8)) (m (p + 7)).

Definition write_u16_be (v : Z) : list Z := [u8 (Z.shiftr v 8); u8 (Z.land v 0xff)].

Definition write_u32_be (v : Z) : list Z :=
  [u8 (Z.shiftr v 24); u8 (Z.shiftr v 16); u8 (Z.shiftr v 8); u8 (Z.land v 0xff)].

Definition write_u64_be (v : Z) : list Z :=
  [u8 (Z.shiftr v 56); u8 (Z.shiftr v 48); u8 (Z.shiftr v 40); u8 (Z.shiftr v 32);
   u8 (Z.shiftr v 24); u8 (Z.shiftr v 16); u8 (Z.shiftr v 8); u8 (Z.land v 0xff)].

Definition frame_packet_kind (packet : wl_wire_packet) : Z :=
  if pk_type packet =? WL_PACKET_ACK then 2
  else if negb (Z.land (pk_flags packet) WL_PACKET_FLAG_RELIABLE =? 0) then 1 else 0.

(** The header array of the caller, its first [header_len] bytes. *)
Definition frame_write_header (packet : wl_wire_packet) (header_len : Z) : list Z :=
  [u8 (Z.lor WL_FRAME_PREFIX (frame_packet_kind packet)); 0]
  ++ write_u16_be (pk_message_id packet)
  ++ (if header_len =? WL_FRAME_RELIABLE_HEADER_SIZE
      then write_u64_be (pk_session_id packet) ++ write_u32_be (pk_sequence packet)
      else []).

Definition spans_overlap (left left_len right right_len : Z) : bool :=
  if (left_len =? 0) || (right_len =? 0) then false
  else if left <=? right then right - left <? left_len
  else left - right <? right_len.

Definition wl_frame_packet_header_size (type flags : Z) : Z :=
  if (type =? WL_PACKET_ACK) && (flags =? 0) then WL_FRAME_RELIABLE_HEADER_SIZE
  else if negb (type =? WL_PACKET_DATA)
          || negb (Z.land flags (u8 (Z.lnot WL_PACKET_FLAG_RELIABLE)) =? 0) then 0
  else if negb (Z.land flags WL_PACKET_FLAG_RELIABLE =? 0)
       then WL_FRAME_RELIABLE_HEADER_SIZE else WL_FRAME_BASE_HEADER_SIZE.

Definition frame_write_integrity (m : mem) (packet : wl_wire_packet)
    (integrity_kind : Z) (header : list Z) : list Z :=
  if integrity_kind =? WL_INTEGRITY_CRC16 then
    let state := crc16_bytes 0xffff header in
    let state := wl_crc16_ccitt_false_update m state (pk_payload packet)
                   (pk_payload_len packet) in
    write_u16_be state
  else if integrity_kind =? WL_INTEGRITY_CRC32C then
    let state := crc32c_bytes 0xffffffff header in
    let state := wl_crc32c_update m state (pk_payload packet) (pk_payload_len packet) in
    write_u32_be (Z.lxor state 0xffffffff)
  else [].

(** [cobs_count_span] on the bytes of one span: encoded length and code. *)
Definition cobs_count_span (st : Z * Z) (l : list Z) : Z * Z :=
  let '(encoded_len, code) := st in
  foldl (λ '(encoded_len, code) b,
    let code := if b =? 0 then 1 else code + 1 in
    if code =? 0xff then (encoded_len + 1, 1) else (encoded_len, code))
    (encoded_len + Z.of_nat (length l), code) l.

Definition frame_cobs_encoded_size (header payload integrity : list Z) : Z :=
  (cobs_count_span (cobs_count_span (cobs_count_span (1, 1) header) payload)
     integrity).1.

Definition cobs_encode_span (out : Z) (src : byte_source) (length : Z)
    (st : cobs_state) : cobs_state :=
  if length =? 0 then st else cobs_encode_loop out src 0 (Z.to_nat length) st.

Definition local_len (l : list Z) : Z := Z.of_nat (length l).

Definition frame_cobs_encode (m : mem) (header : list Z) (payload payload_len : Z)
    (integrity : list Z) (out : Z) : mem * Z :=
  let st := cobs_start m in
  let st := cobs_encode_span out (from_local header) (local_len header) st in
  let st := cobs_encode_span out (from_mem payload) payload_len st in
  let st := cobs_encode_span out (from_local integrity) (local_len integrity) st in
  (mset (cs_mem st) (out + code_index st) (code st), write_index st).

Definition frame_write_raw (m : mem) (header : list Z) (packet : wl_wire_packet)
    (integrity : list Z) (out : Z) : mem :=
  let header_len := local_len header in
  let m := if negb (pk_payload_len packet =? 0)
           then memmove m (out + header_len) (pk_payload packet) (pk_payload_len packet)
           else m in
  let m := mwrite m out (take 4 header) in
  let m := if header_len =? WL_FRAME_RELIABLE_HEADER_SIZE
           then mwrite m (out + WL_FRAME_BASE_HEADER_SIZE) (drop 4 header) else m in
  if negb (local_len integrity =? 0)
  then mwrite m (out + header_len + pk_payload_len packet) integrity else m.

(** Result of the encoders: memory, code and [*out_len]. *)
Definition wl_frame_encode_bounded (m : mem) (packet : wl_wire_packet)
    (envelope integrity_kind : Z) (header : list Z) (raw_len out out_cap : Z)
    : mem * wl_err * Z :=
  let header_len := local_len header in
  let integrity := frame_write_integrity m packet integrity_kind header in
  let payload_len := pk_payload_len packet in
  if envelope =? WL_ENVELOPE_COBS_STREAM then
    let payload := pk_payload packet in
    let cobs_len := wl_cobs_encoded_max_size raw_len in
    let overlap := spans_overlap payload payload_len out cobs_len in
    let cobs_len :=
      if (out_cap <? cobs_len + 1) || overlap
      then frame_cobs_encoded_size header (mread m payload (Z.to_nat payload_len)) integrity
      else cobs_len in
    if out_cap <? cobs_len + 1 then (m, WL_ERR_BUF_TOO_SMALL, 0)
    else if out =? NULL then (m, WL_ERR_INVALID_ARG, 0)
    else
      let staged := out + (cobs_len - raw_len) + header_len in
      let '(m, payload) :=
        if overlap then (memmove m staged payload payload_len, staged) else (m, payload) in
      let '(m, cobs_len) := frame_cobs_encode m header payload payload_len integrity out in
      (mset m (out + cobs_len) 0, WL_OK, cobs_len + 1)
  else if envelope =? WL_ENVELOPE_BUS_LENGTH16 then
    if raw_len >? UINT16_MAX then (m, WL_ERR_FRAME_TOO_LONG, 0)
    else if out_cap <? raw_len + 2 then (m, WL_ERR_BUF_TOO_SMALL, 0)
    else if out =? NULL then (m, WL_ERR_INVALID_ARG, 0)
    else
      let m := frame_write_raw m header packet integrity (out + 2) in
      (mwrite m out (write_u16_be (u16 raw_len)), WL_OK, raw_len + 2)
  else
    if out_cap <? raw_len then (m, WL_ERR_BUF_TOO_SMALL, 0)
    else if out =? NULL then (m, WL_ERR_INVALID_ARG, 0)
    else (frame_write_raw m header packet integrity out, WL_OK, raw_len).

Definition packet_header_len (packet : wl_wire_packet) : Z :=
  if (pk_type packet =? WL_PACKET_ACK) || negb (pk_flags packet =? 0)
  then WL_FRAME_RELIABLE_HEADER_SIZE else WL_FRAME_BASE_HEADER_SIZE.

Definition wl_frame_encode_generic (m : mem) (envelope integrity : Z)
    (packet : wl_wire_packet) (out out_cap : Z) : mem * wl_err * Z :=
  let header_len := packet_header_len packet in
  let raw_len := header_len + pk_payload_len packet + wl_profile_crc_size integrity in
  wl_frame_encode_bounded m packet envelope integrity
    (frame_write_header packet header_len) raw_len out out_cap.

(** [cobs_crc16_encode_span]: stuffing and checksum in one pass. *)
Fixpoint cobs_crc16_encode_span (out : Z) (src : byte_source) (i : Z) (n : nat)
    (st : cobs_state) (crc : Z) : cobs_state * Z :=
  match n with
  | O => (st, crc)
  | S n =>
      let value := src (cs_mem st) i in
      cobs_crc16_encode_span out src (i + 1) n (cobs_encode_byte out st value)
        (wl_crc16_byte crc value)
  end.

Definition wl_frame_encode_cobs_crc16 (m : mem) (packet : wl_wire_packet)
    (out out_cap : Z) : mem * wl_err * Z :=
  let header_len := packet_header_len packet in
  let raw_len := header_len + pk_payload_len packet + 2 in
  let worst := raw_len + raw_len / 254 + 2 in
  let header := frame_write_header packet header_len in
  if (out_cap <? worst)
     || spans_overlap (pk_payload packet) (pk_payload_len packet) out (worst - 1)
  then wl_frame_encode_bounded m packet WL_ENVELOPE_COBS_STREAM WL_INTEGRITY_CRC16
         header raw_len out out_cap
  else if out =? NULL then (m, WL_ERR_INVALID_ARG, 0)
  else
    let '(st, crc) := cobs_crc16_encode_span out (from_local header) 0
                        (Z.to_nat header_len) (cobs_start m) 0xffff in
    let '(st, crc) := cobs_crc16_encode_span out (from_mem (pk_payload packet)) 0
                        (Z.to_nat (pk_payload_len packet)) st crc in
    let st := cobs_encode_byte out st (u8 (Z.shiftr crc 8)) in
    let st := cobs_encode_byte out st (u8 crc) in
    let m := mset (cs_mem st) (out + code_index st) (code st) in
    (mset m (out + write_index st) 0, WL_OK, write_index st + 1).

(** [frame_header_size]: an error or the header length. *)
Definition frame_header_size (packet : wl_wire_packet) : wl_err + Z :=
  let bounded :=
    if pk_payload_len packet >? WL_PACKET_MAX_PAYLOAD then inl WL_ERR_PAYLOAD_TOO_LONG
    else inr (wl_frame_packet_header_size (pk_type packet) (pk_flags packet)) in
  if pk_type packet =? WL_PACKET_DATA then
    if pk_message_id packet =? 0 then inl WL_ERR_INVALID_ARG
    else if negb (Z.land (pk_flags packet) (Z.lnot WL_PACKET_FLAG_RELIABLE) =? 0)
    then inl WL_ERR_INVALID_ARG
    else if negb (Z.land (pk_flags packet) WL_PACKET_FLAG_RELIABLE =? 0)
            && (pk_session_id packet =? 0) then inl WL_ERR_INVALID_ARG
    else bounded
  else if pk_type packet =? WL_PACKET_ACK then
    if negb (pk_message_id packet =? 0) || negb (pk_payload_len packet =? 0)
       || negb (pk_flags packet =? 0) then inl WL_ERR_INVALID_ARG
    else if pk_session_id packet =? 0 then inl WL_ERR_INVALID_ARG
    else bounded
  else inl WL_ERR_BAD_FRAME.

(** [packet] is [None] for a null pointer. *)
Definition wl_frame_encode (m : mem) (packet : option wl_wire_packet)
    (envelope out out_cap out_len_ptr : Z) : mem * wl_err * Z :=
  if out_len_ptr =? NULL then (m, WL_ERR_INVALID_ARG, 0)
  else match packet with
  | None => (m, WL_ERR_INVALID_ARG, 0)
  | Some packet =>
      if (negb (pk_payload_len packet =? 0) && (pk_payload packet =? NULL))
         || negb (wl_profile_envelope_valid envelope)
         || negb (wl_profile_integrity_valid (pk_integrity packet))
      then (m, WL_ERR_INVALID_ARG, 0)
      else match frame_header_size packet with
      | inl e => (m, e, 0)
      | inr _ =>
          if (envelope =? WL_ENVELOPE_COBS_STREAM)
             && (pk_integrity packet =? WL_INTEGRITY_CRC16)
          then wl_frame_encode_cobs_crc16 m packet out out_cap
          else wl_frame_encode_generic m envelope (pk_integrity packet) packet out out_cap
      end
  end.

Definition wl_frame_raw_size (payload_len integrity : Z) : Z :=
  if negb (wl_profile_integrity_valid integrity) then 0
  else
    let crc_len := wl_profile_crc_size integrity in
    if payload_len >? SIZE_MAX - WL_FRAME_HEADER_SIZE - crc_len then 0
    else WL_FRAME_HEADER_SIZE + payload_len + crc_len.

Definition wl_frame_overhead (integrity : Z) : Z :=
  if negb (wl_profile_integrity_valid integrity) then 0
  else WL_FRAME_HEADER_SIZE + wl_profile_crc_size integrity.

Definition wl_frame_encode_overhead (envelope integrity : Z) : Z :=
  if negb (wl_profile_envelope_valid envelope)
     || negb (wl_profile_integrity_valid integrity) then 0
  else
    let raw_size := wl_frame_raw_size 0 integrity in
    if raw_size =? 0 then 0
    else if envelope =? WL_ENVELOPE_COBS_STREAM
    then usize (wl_cobs_encoded_max_size raw_size + 1)
    else if envelope =? WL_ENVELOPE_BUS_LENGTH16 then raw_size + 2
    else if envelope =? WL_ENVELOPE_NATIVE_PACKET then raw_size else 0.

(** The trailer comparison of [frame_parse]; [cobs_crc] is the residue the
    stuffing decoder accumulated, if it did. *)
Definition frame_integrity_bad (m : mem) (in_ covered integrity : Z) (cobs_crc : option Z)
    : bool :=
  if integrity =? WL_INTEGRITY_CRC16 then
    match cobs_crc with
    | Some residue => negb (residue =? 0)
    | None => negb (read_u16_be m (in_ + covered) =? wl_crc16_ccitt_false m in_ covered)
    end
  else if integrity =? WL_INTEGRITY_CRC32C then
    negb (read_u32_be m (in_ + covered) =? wl_crc32c m in_ covered)
  else false.

Definition frame_parse (m : mem) (in_ in_len integrity crc_len : Z)
    (cobs_crc : option Z) (out_view : Z) : wl_err + wl_frame_view :=
  if (out_view =? NULL) || (in_ =? NULL) then inl WL_ERR_INVALID_ARG
  else if in_len <? WL_FRAME_BASE_HEADER_SIZE + crc_len then inl WL_ERR_BAD_FRAME
  else if negb (Z.land (m in_) WL_FRAME_MARKER_MASK =? WL_FRAME_MARKER)
  then inl WL_ERR_BAD_FRAME
  else if negb (Z.shiftr (Z.land (m in_) WL_FRAME_VERSION_MASK) WL_FRAME_VERSION_SHIFT
                =? WL_FRAME_VERSION)
  then inl WL_ERR_PROTOCOL_VERSION
  else
    let kind := Z.land (m in_) WL_FRAME_KIND_MASK in
    if kind >? 2 then inl WL_ERR_NOT_SUPPORTED
    else
      let packet_type := if kind =? 2 then WL_PACKET_ACK else WL_PACKET_DATA in
      let flags := if kind =? 1 then WL_PACKET_FLAG_RELIABLE else 0 in
      let header_len := if kind =? 0 then WL_FRAME_BASE_HEADER_SIZE
                        else WL_FRAME_RELIABLE_HEADER_SIZE in
      if in_len <? header_len + crc_len then inl WL_ERR_BAD_FRAME
      else
        let payload_len := in_len - header_len - crc_len in
        if payload_len >? WL_PACKET_MAX_PAYLOAD then inl WL_ERR_FRAME_TOO_LONG
        else
          let message_id := read_u16_be m (in_ + 2) in
          let reliable := header_len =? WL_FRAME_RELIABLE_HEADER_SIZE in
          let session_id := if reliable then read_u64_be m (in_ + 4) else 0 in
          let sequence := if reliable then read_u32_be m (in_ + 12) else 0 in
          if negb (m (in_ + 1) =? 0) then inl WL_ERR_BAD_FRAME
          else if (if packet_type =? WL_PACKET_DATA
                   then (message_id =? 0) || (negb (flags =? 0) && (session_id =? 0))
                   else negb (message_id =? 0) || negb (payload_len =? 0)
                        || (session_id =? 0))
          then inl WL_ERR_BAD_FRAME
          else
            if frame_integrity_bad m in_ (in_len - crc_len) integrity cobs_crc
            then inl WL_ERR_CRC
            else inr (mk_view packet_type flags message_id session_id sequence integrity
                        (mk_span (in_ + header_len) payload_len)
                        (mk_span (if negb (crc_len =? 0) then in_ + header_len + payload_len
                                  else NULL) crc_len)
                        in_len).

Definition wl_frame_decode (m : mem) (in_ in_len integrity out_view : Z)
    : wl_err + wl_frame_view :=
  if (out_view =? NULL) || (in_ =? NULL) || negb (wl_profile_integrity_valid integrity)
  then inl WL_ERR_INVALID_ARG
  else frame_parse m in_ in_len integrity (wl_profile_crc_size integrity) None out_view.

Definition wl_frame_decode_cobs_generic (m : mem) (integrity encoded length view : Z)
    : mem * (wl_err + wl_frame_view) :=
  let '(m', ret, decoded_len) := wl_cobs_decode_in_place m encoded length 1 in
  if is_ok ret && (decoded_len =? 0) then (m', inl WL_ERR_INVALID_ARG)
  else if is_ok ret then (m', wl_frame_decode m' encoded decoded_len integrity view)
  else (m', inl ret).

(** One block of the fused decoder: [count] bytes from [read] to [write]. *)
Fixpoint crc16_copy (n : nat) (m : mem) (read write crc : Z) : mem * Z :=
  match n with
  | O => (m, crc)
  | S n =>
      let value := m read in
      crc16_copy n (mset m write value) (read + 1) (write + 1) (wl_crc16_byte crc value)
  end.

(** The loop of [wl_frame_decode_cobs_crc16]; [n] bounds the number of code
    bytes. *)
Fixpoint cobs_crc16_decode_loop (n : nat) (m : mem) (encoded encoded_len read write crc : Z)
    : mem * (wl_err + Z * Z) :=
  match n with
  | O => (m, inr (write, crc))
  | S n =>
      if read <? encoded_len then
        let code := m (encoded + read) in
        let read := read + 1 in
        let count := usize (code - 1) in
        if (code =? 0) || (count >? encoded_len - read) then (m, inl WL_ERR_COBS_DECODE)
        else
          let '(m, crc) := crc16_copy (Z.to_nat count) m (encoded + read)
                             (encoded + write) crc in
          let read := read + count in
          let write := write + count in
          if negb (code =? 0xff) && (read <? encoded_len) then
            cobs_crc16_decode_loop n (mset m (encoded + write) 0) encoded encoded_len read
              (write + 1) (wl_crc16_byte crc 0)
          else cobs_crc16_decode_loop n m encoded encoded_len read write crc
      else (m, inr (write, crc))
  end.

Definition wl_frame_decode_cobs_crc16 (m : mem) (encoded encoded_len out_view : Z)
    : mem * (wl_err + wl_frame_view) :=
  if (encoded =? NULL) || (out_view =? NULL) then (m, inl WL_ERR_INVALID_ARG)
  else if encoded_len =? 0 then (m, inl WL_ERR_COBS_DECODE)
  else match cobs_crc16_decode_loop (Z.to_nat encoded_len) m encoded encoded_len 0 0 0xffff with
  | (m, inl e) => (m, inl e)
  | (m, inr (write, crc)) =>
      if write =? 0 then (m, inl WL_ERR_INVALID_ARG)
      else (m, frame_parse m encoded write WL_INTEGRITY_CRC16 2 (Some crc) out_view)
  end.

(** The encoder and stream decoder of an initialized link. *)
Definition wl_link_encode (m : mem) (envelope integrity : Z) (packet : wl_wire_packet)
    (out cap : Z) : mem * wl_err * Z :=
  if negb (envelope =? WL_ENVELOPE_COBS_STREAM) || negb (integrity =? WL_INTEGRITY_CRC16)
  then wl_frame_encode_generic m envelope integrity packet out cap
  else wl_frame_encode_cobs_crc16 m packet out cap.

Definition wl_link_decode_stream (m : mem) (integrity encoded length view : Z)
    : mem * (wl_err + wl_frame_view) :=
  if negb (integrity =? WL_INTEGRITY_CRC16)
  then wl_frame_decode_cobs_generic m integrity encoded length view
  else wl_frame_decode_cobs_crc16 m encoded length view.

(** [wl_frame_header_t] and its public validator. *)
Record wl_frame_header := mk_frame_header {
  marker_version_kind : Z;
  fh_reserved : Z;
  fh_version : Z;
  fh_header_length : Z;
  fh_packet_type : Z;
  fh_flags : Z;
  fh_session_id : Z;
  fh_sequence : Z;
  fh_message_id : Z;
  fh_payload_length : Z;
}.

Definition wl_frame_validate_header (hdr : option wl_frame_header) : wl_err :=
  match hdr with
  | None => WL_ERR_INVALID_ARG
  | Some hdr =>
      if negb (Z.land (marker_version_kind hdr) WL_FRAME_MARKER_MASK =? WL_FRAME_MARKER)
         || negb (fh_reserved hdr =? 0) then WL_ERR_BAD_FRAME
      else if negb (fh_version hdr =? WL_FRAME_VERSION) then WL_ERR_PROTOCOL_VERSION
      else if fh_payload_length hdr >? WL_PACKET_MAX_PAYLOAD then WL_ERR_FRAME_TOO_LONG
      else if fh_packet_type hdr =? WL_PACKET_DATA then
        if fh_message_id hdr =? 0 then WL_ERR_BAD_FRAME
        else if negb (Z.land (fh_flags hdr) (Z.lnot WL_PACKET_FLAG_RELIABLE) =? 0)
        then WL_ERR_BAD_FRAME
        else if negb (Z.land (fh_flags hdr) WL_PACKET_FLAG_RELIABLE =? 0) then
          if negb (fh_header_length hdr =? WL_FRAME_RELIABLE_HEADER_SIZE)
             || (fh_session_id hdr =? 0) then WL_ERR_BAD_FRAME else WL_OK
        else if negb (fh_header_length hdr =? WL_FRAME_BASE_HEADER_SIZE)
                || negb (fh_session_id hdr =? 0) || negb (fh_sequence hdr =? 0)
        then WL_ERR_BAD_FRAME else WL_OK
      else if fh_packet_type hdr =? WL_PACKET_ACK then
        if negb (fh_message_id hdr =? 0) || negb (fh_payload_length hdr =? 0)
           || negb (fh_flags hdr =? 0)
           || negb (fh_header_length hdr =? WL_FRAME_RELIABLE_HEADER_SIZE)
           || (fh_session_id hdr =? 0) then WL_ERR_BAD_FRAME else WL_OK
      else WL_ERR_NOT_SUPPORTED
  end.

(** ** Reference: the bytes of a packet *)

Definition crc_trailer (integrity : Z) (covered : list Z) : list Z :=
  if integrity =? WL_INTEGRITY_CRC16 then write_u16_be (crc16_bytes 0xffff covered)
  else if integrity =? WL_INTEGRITY_CRC32C
  then write_u32_be (Z.lxor (crc32c_bytes 0xffffffff covered) 0xffffffff)
  else [].

Definition raw_frame (packet : wl_wire_packet) (integrity : Z) (payload : list Z) : list Z :=
  let covered := frame_write_header packet (packet_header_len packet) ++ payload in
  covered ++ crc_trailer integrity covered.

Definition envelope_bytes (envelope : Z) (raw : list Z) : list Z :=
  if envelope =? WL_ENVELOPE_COBS_STREAM then cobs_enc raw ++ [0]
  else if envelope =? WL_ENVELOPE_BUS_LENGTH16
  then write_u16_be (Z.of_nat (length raw)) ++ raw
  else raw.

Definition wire_image (packet : wl_wire_packet) (envelope integrity : Z)
    (payload : list Z) : list Z :=
  envelope_bytes envelope (raw_frame packet integrity payload).

(** The packets the encoder accepts. *)
Definition packet_valid (packet : wl_wire_packet) : Prop :=
  0 <= pk_payload_len packet <= WL_PACKET_MAX_PAYLOAD ∧
  is_u16 (pk_message_id packet) ∧ is_u64 (pk_session_id packet) ∧
  is_u32 (pk_sequence packet) ∧
  ((pk_type packet = WL_PACKET_DATA ∧ pk_message_id packet ≠ 0 ∧
      (pk_flags packet = 0 ∨
       pk_flags packet = WL_PACKET_FLAG_RELIABLE ∧ pk_session_id packet ≠ 0)) ∨
   (pk_type packet = WL_PACKET_ACK ∧ pk_message_id packet = 0 ∧
      pk_payload_len packet = 0 ∧ pk_flags packet = 0 ∧ pk_session_id packet ≠ 0)).

(** ** Lemmas: stuffed output *)

Lemma cobs_count_span_ok s l :
  cobs_ok s →
  cobs_count_span (cobs_wi s, 1 + Z.of_nat (length s.2)) l =
  (cobs_wi (foldl cobs_step s l), 1 + Z.of_nat (length (foldl cobs_step s l).2)).
Proof.
  revert s. induction l as [|b l IH]; intros s Hok.
  { simpl. by rewrite Z.add_0_r. }
  pose proof (cobs_step_ok s b Hok) as Hok'. specialize (IH _ Hok').
  cbn [foldl]. rewrite <- IH. unfold cobs_count_span. cbn [foldl length].
  f_equal. destruct s as [cl blk]. unfold cobs_step, cobs_wi, cobs_ok in *. cbn in Hok |- *.
  destruct (Z.eqb_spec b 0); [|destruct (Nat.eqb_spec (length blk) 253)]; cbn;
    autorewrite with wl; cbn; autorewrite with wl; cbn.
  - f_equal. lia.
  - replace (1 + Z.of_nat (length blk) + 1 =? 255) with true by lia. f_equal; lia.
  - replace (1 + Z.of_nat (length blk) + 1 =? 255) with false by lia. f_equal; lia.
Qed.

Lemma frame_cobs_encoded_size_ok header payload integrity :
  frame_cobs_encoded_size header payload integrity
  = Z.of_nat (length (cobs_enc (header ++ payload ++ integrity))).
Proof.
  unfold frame_cobs_encoded_size, cobs_enc. rewrite cobs_finish_length, !foldl_app.
  assert (cobs_ok ([], [])) as H0 by (unfold cobs_ok; simpl; lia).
  change (1, 1) with (cobs_wi ([], []), 1 + Z.of_nat (length (([], []) : cobs_pure).2)).
  rewrite !cobs_count_span_ok; auto using cobs_run_ok.
Qed.

Lemma from_local_read l j b m : l !! j = Some b → from_local l m (0 + Z.of_nat j) = b.
Proof.
  intros H. unfold from_local. rewrite Z.add_0_l, Nat2Z.id. by apply nth_lookup_Some.
Qed.

Lemma from_mem_read m a l j b :
  mread m a (length l) = l → l !! j = Some b → from_mem a m (0 + Z.of_nat j) = b.
Proof.
  intros Hl Hj. pose proof (lookup_lt_Some _ _ _ Hj). unfold from_mem.
  rewrite <- Hl, mread_lookup in Hj by done. rewrite Z.add_0_l. by injection Hj.
Qed.

Lemma cobs_encode_span_eq out src (l : list Z) st :
  cobs_encode_span out src (Z.of_nat (length l)) st
  = cobs_encode_loop out src 0 (length l) st.
Proof.
  unfold cobs_encode_span. rewrite Nat2Z.id. by destruct l.
Qed.

(** The encoder from a local array. *)
Lemma cobs_rep_local out l st s :
  cobs_rep out st s →
  cobs_rep out (cobs_encode_loop out (from_local l) 0 (length l) st) (foldl cobs_step s l) ∧
  ∀ x, x < out ∨ out + cobs_wi (foldl cobs_step s l) <= x →
       cs_mem (cobs_encode_loop out (from_local l) 0 (length l) st) x = cs_mem st x.
Proof.
  intros Hrep. apply cobs_rep_loop; [done|apply src_ahead_local|].
  intros j b. apply from_local_read.
Qed.

(** Where a payload of [plen] bytes at [a] may lie while [total] bytes are
    written at [out]: clear of the output, or inside it with [back] bytes of
    output still to come after it. *)
Definition payload_clear (a plen out total back : Z) : Prop :=
  plen = 0 ∨ a + plen <= out ∨ out + total <= a ∨ out + total <= a + plen + back.

(** Header, payload and trailer, stuffed in three spans. *)
Section ThreeSpans.
Context (m : mem) (out a : Z) (header payload trailer : list Z).
Let raw := header ++ payload ++ trailer.
Context (Hpay : mread m a (length payload) = payload).
Context (Hclear : payload_clear a (Z.of_nat (length payload)) out
           (Z.of_nat (length (cobs_enc raw))) (Z.of_nat (length trailer))).

Lemma raw_run : foldl cobs_step ([], []) raw
  = foldl cobs_step (foldl cobs_step (foldl cobs_step ([], []) header) payload) trailer.
Proof. unfold raw. by rewrite !foldl_app. Qed.

Lemma payload_ahead :
  src_ahead out (from_mem a) 0 payload (foldl cobs_step ([], []) header).
Proof.
  pose proof (cobs_run_wi (foldl cobs_step (foldl cobs_step ([], []) header) payload)
    trailer) as Hw. rewrite <- raw_run in Hw.
  unfold cobs_enc in Hclear. rewrite cobs_finish_length in Hclear.
  destruct Hclear as [H|[H|[H|H]]].
  - apply src_ahead_disjoint. intros j Hj. lia.
  - apply src_ahead_disjoint. intros j Hj. lia.
  - apply src_ahead_disjoint. intros j Hj. lia.
  - apply src_ahead_staged. lia.
Qed.

Lemma payload_unread st :
  cobs_rep out st (foldl cobs_step ([], []) header) →
  (∀ x, x < out ∨ out + cobs_wi (foldl cobs_step ([], []) header) <= x →
        cs_mem st x = m x) →
  mread (cs_mem st) a (length payload) = payload.
Proof.
  intros Hrep Hf. rewrite <- Hpay at 2. apply mread_ext. intros x Hx. apply Hf.
  pose proof (cobs_run_wi (foldl cobs_step (foldl cobs_step ([], []) header) payload)
    trailer) as Hw. rewrite <- raw_run in Hw.
  pose proof (cobs_run_wi (foldl cobs_step ([], []) header) payload) as Hw2.
  unfold cobs_enc, payload_clear in Hclear. rewrite cobs_finish_length in Hclear. lia.
Qed.

Lemma three_spans_rep :
  let st1 := cobs_encode_loop out (from_local header) 0 (length header) (cobs_start m) in
  let st2 := cobs_encode_loop out (from_mem a) 0 (length payload) st1 in
  let st3 := cobs_encode_loop out (from_local trailer) 0 (length trailer) st2 in
  cobs_rep out st3 (foldl cobs_step ([], []) raw) ∧
  ∀ x, x < out ∨ out + Z.of_nat (length (cobs_enc raw)) <= x → cs_mem st3 x = m x.
Proof.
  intros st1 st2 st3.
  destruct (cobs_rep_local out header (cobs_start m) ([], [])) as [R1 F1];
    [apply cobs_rep_start|]. fold st1 in R1, F1.
  destruct (cobs_rep_loop out (from_mem a) 0 payload st1 _ R1 payload_ahead) as [R2 F2].
  { intros j b. apply from_mem_read. by apply payload_unread. }
  fold st2 in R2, F2.
  destruct (cobs_rep_local out trailer st2 _ R2) as [R3 F3]. fold st3 in R3, F3.
  rewrite <- raw_run in R3, F3. split; [done|]. unfold cobs_enc.
  rewrite cobs_finish_length. intros x Hx.
  pose proof (cobs_run_wi (foldl cobs_step ([], []) header) payload) as W1.
  pose proof (cobs_run_wi (foldl cobs_step (foldl cobs_step ([], []) header) payload)
    trailer) as W2. rewrite <- raw_run in W2.
  rewrite F3, F2, F1 by lia. done.
Qed.

(** Closing the last block and appending the delimiter. *)
Lemma stuffed_stored st :
  cobs_rep out st (foldl cobs_step ([], []) raw) →
  (∀ x, x < out ∨ out + Z.of_nat (length (cobs_enc raw)) <= x → cs_mem st x = m x) →
  write_index st = Z.of_nat (length (cobs_enc raw)) ∧
  stored m (mset (mset (cs_mem st) (out + code_index st) (code st))
              (out + write_index st) 0) out (cobs_enc raw ++ [0]).
Proof.
  intros R F.
  assert (write_index st = Z.of_nat (length (cobs_enc raw))) as Hwi.
  { unfold cobs_enc. rewrite cobs_finish_length. apply R. }
  split; [done|]. rewrite Hwi.
  apply (stored_app _ (mset (cs_mem st) (out + code_index st) (code st)));
    [split|apply stored_set].
  - rewrite <- (Nat2Z.id (length (cobs_enc raw))), <- Hwi. by apply cobs_rep_finish.
  - intros x Hx. rewrite mset_ne, F; [done..|]. rewrite (rep_ci _ _ _ R).
    unfold cobs_enc in Hx. rewrite cobs_finish_length in Hx. unfold cobs_wi in Hx. lia.
Qed.

Lemma frame_cobs_encode_stored m' k :
  frame_cobs_encode m header a (Z.of_nat (length payload)) trailer out = (m', k) →
  k = Z.of_nat (length (cobs_enc raw)) ∧
  stored m (mset m' (out + k) 0) out (cobs_enc raw ++ [0]).
Proof.
  unfold frame_cobs_encode, local_len. rewrite !cobs_encode_span_eq.
  intros [= <- <-]. apply stuffed_stored; apply three_spans_rep.
Qed.
End ThreeSpans.

(** ** Lemmas: sizes and trailers *)

Lemma frame_write_header_length packet :
  local_len (frame_write_header packet (packet_header_len packet))
  = packet_header_len packet.
Proof. unfold packet_header_len. by destruct (_ || _). Qed.

Lemma packet_header_len_cases packet :
  packet_header_len packet = 4 ∨ packet_header_len packet = 16.
Proof. unfold packet_header_len. destruct (_ || _); auto. Qed.

Lemma crc_trailer_length integrity l :
  Z.of_nat (length (crc_trailer integrity l)) = wl_profile_crc_size integrity.
Proof. unfold crc_trailer, wl_profile_crc_size. by split_ifs. Qed.

Lemma wl_profile_crc_size_le integrity : 0 <= wl_profile_crc_size integrity <= 4.
Proof. unfold wl_profile_crc_size. split_ifs; lia. Qed.

Lemma frame_write_integrity_ok m packet integrity header :
  frame_write_integrity m packet integrity header
  = crc_trailer integrity
      (header ++ mread m (pk_payload packet) (Z.to_nat (pk_payload_len packet))).
Proof.
  unfold frame_write_integrity, crc_trailer, wl_crc16_ccitt_false_update, wl_crc32c_update.
  by rewrite crc16_bytes_app, crc32c_bytes_app.
Qed.

Lemma spans_overlap_false left left_len right right_len :
  0 <= left_len → 0 <= right_len →
  spans_overlap left left_len right right_len = false →
  left_len = 0 ∨ right_len = 0 ∨ left + left_len <= right ∨ right + right_len <= left.
Proof. intros ??. unfold spans_overlap. split_ifs; lia. Qed.

Lemma cobs_enc_max (l : list Z) n :
  Z.of_nat (length l) = n → n < 2 ^ 63 →
  Z.of_nat (length (cobs_enc l)) <= wl_cobs_encoded_max_size n.
Proof.
  intros <- Hn. pose proof (cobs_enc_length l). unfold wl_cobs_encoded_max_size.
  split_ifs; div_lia.
Qed.

Lemma frame_write_raw_stored m header packet trailer out :
  0 <= pk_payload_len packet →
  local_len header = 4 ∨ local_len header = 16 →
  stored m (frame_write_raw m header packet trailer out) out
    (header ++ mread m (pk_payload packet) (Z.to_nat (pk_payload_len packet)) ++ trailer).
Proof.
  intros Hp Hh. set (pl := mread m _ _).
  assert (Z.of_nat (length pl) = pk_payload_len packet) as Hpl
    by (subst pl; rewrite mread_length; lia).
  unfold frame_write_raw. cbv zeta. unfold local_len in *.
  set (m1 := if negb (pk_payload_len packet =? 0) then _ else m).
  assert (stored m m1 (out + Z.of_nat (length header)) pl) as S1.
  { subst m1. destruct (Z.eqb_spec (pk_payload_len packet) 0) as [E|E].
    - destruct pl; [apply stored_nil|simpl in Hpl; lia].
    - apply stored_mwrite. }
  set (m2 := if Z.of_nat (length header) =? _ then _ else _).
  assert (stored m m2 out (header ++ pl)) as S2.
  { apply (stored_app_rev _ m1); [done|]. rewrite <- (take_drop 4 header) at 1.
    assert (length (take 4 header) = 4%nat) as H4 by (rewrite length_take; lia).
    apply (stored_app _ (mwrite m1 out (take 4 header))); [apply stored_mwrite|].
    subst m2. rewrite H4. destruct Hh as [E|E]; rewrite E; simpl.
    - rewrite (drop_ge header 4) by lia. apply stored_nil.
    - apply stored_mwrite. }
  rewrite app_assoc. apply (stored_app _ m2); [done|].
  rewrite length_app, Nat2Z.inj_add, Hpl, Z.add_assoc.
  destruct (Z.eqb_spec (Z.of_nat (length trailer)) 0) as [E|E]; simpl.
  - destruct trailer; [apply stored_nil|simpl in E; lia].
  - apply stored_mwrite.
Qed.

(** Room for the image, or a report of the shortage. *)
Definition encode_result (m : mem) (out out_cap : Z) (image : list Z)
    (res : mem * wl_err * Z) : Prop :=
  if out_cap <? Z.of_nat (length image) then res = (m, WL_ERR_BUF_TOO_SMALL, 0)
  else ∃ m', res = (m', WL_OK, Z.of_nat (length image)) ∧ stored m m' out image.

Section EncodeBounded.
Context (m : mem) (packet : wl_wire_packet) (integrity out out_cap : Z).
Context (Hplen : 0 <= pk_payload_len packet <= WL_PACKET_MAX_PAYLOAD) (Hout : out ≠ NULL).
Let payload := mread m (pk_payload packet) (Z.to_nat (pk_payload_len packet)).
Let header := frame_write_header packet (packet_header_len packet).
Let trailer := crc_trailer integrity (header ++ payload).
Let raw_len := packet_header_len packet + pk_payload_len packet
               + wl_profile_crc_size integrity.

Lemma raw_frame_split : raw_frame packet integrity payload = header ++ payload ++ trailer.
Proof. unfold raw_frame, trailer. by rewrite <- app_assoc. Qed.

Lemma payload_bytes_length : Z.of_nat (length payload) = pk_payload_len packet.
Proof. unfold payload. rewrite mread_length. lia. Qed.

Lemma raw_frame_length : Z.of_nat (length (raw_frame packet integrity payload)) = raw_len.
Proof.
  rewrite raw_frame_split, !length_app, !Nat2Z.inj_add, payload_bytes_length.
  unfold trailer. rewrite crc_trailer_length. unfold raw_len, header.
  pose proof (frame_write_header_length packet) as H. unfold local_len in H. lia.
Qed.

Lemma raw_len_bound : 4 <= raw_len <= 2068.
Proof.
  pose proof (packet_header_len_cases packet). pose proof (wl_profile_crc_size_le integrity).
  unfold raw_len, WL_PACKET_MAX_PAYLOAD in *. lia.
Qed.

Lemma encode_bounded_cobs :
  encode_result m out out_cap (cobs_enc (raw_frame packet integrity payload) ++ [0])
    (wl_frame_encode_bounded m packet WL_ENVELOPE_COBS_STREAM integrity header raw_len
       out out_cap).
Proof.
  pose proof raw_len_bound as Hrl. pose proof raw_frame_length as Hlen.
  pose proof (cobs_enc_max _ _ Hlen ltac:(lia)) as Hmax.
  pose proof (cobs_enc_length (raw_frame packet integrity payload)) as Hexp.
  unfold encode_result, wl_frame_encode_bounded. cbv zeta.
  rewrite frame_write_integrity_ok. fold payload. fold header. fold trailer.
  rewrite frame_cobs_encoded_size_ok. rewrite raw_frame_split in *. rewrite Hlen in Hexp.
  set (enc := cobs_enc (header ++ payload ++ trailer)) in *.
  rewrite length_app, Nat2Z.inj_add, Z.eqb_refl. simpl length.
  replace (out =? NULL) with false by sz_lia.
  set (maxlen := wl_cobs_encoded_max_size raw_len) in *.
  set (overlap := spans_overlap _ _ _ _).
  set (chosen := if _ || overlap then _ else _).
  assert (Z.of_nat (length enc) <= chosen ∧
          ((out_cap <? chosen + 1) = (out_cap <? Z.of_nat (length enc) + 1))) as [Hch Hcmp].
  { subst chosen. split_ifs; lia. }
  rewrite Hcmp. destruct (Z.ltb_spec out_cap (Z.of_nat (length enc) + Z.of_nat 1)) as [Hc|Hc].
  { by replace (out_cap <? Z.of_nat (length enc) + 1) with true by lia. }
  replace (out_cap <? Z.of_nat (length enc) + 1) with false by lia.
  destruct overlap eqn:Eo.
  - assert (chosen = Z.of_nat (length enc)) as ->.
    { subst chosen. by rewrite orb_true_r. }
    set (staged := out + _ + _). destruct (frame_cobs_encode _ _ _ _ _ _) as [m' k] eqn:Ef.
    rewrite <- payload_bytes_length in Ef.
    pose proof (frame_write_header_length packet) as Hh. fold header in Hh.
    unfold memmove in Ef. rewrite payload_bytes_length in Ef at 1. fold payload in Ef.
    apply frame_cobs_encode_stored in Ef as [-> Hst]; [|by rewrite mread_mwrite|].
    + eexists. split; [done|]. eapply stored_over; [|exact Hst].
      intros x Hx. apply mwrite_out. rewrite length_app in Hx. simpl in Hx.
      pose proof payload_bytes_length. fold enc in Hx. subst staged.
      rewrite !length_app, !Nat2Z.inj_add in Hlen. unfold local_len in *. lia.
    + fold enc. unfold payload_clear. subst staged. do 3 right.
      rewrite !length_app, !Nat2Z.inj_add in Hlen. unfold local_len. lia.
  - destruct (frame_cobs_encode _ _ _ _ _ _) as [m' k] eqn:Ef.
    rewrite <- payload_bytes_length in Ef.
    apply frame_cobs_encode_stored in Ef as [-> Hst].
    + by eexists.
    + unfold payload. by rewrite mread_length.
    + apply spans_overlap_false in Eo; [|lia|lia].
      unfold payload_clear. fold enc. rewrite payload_bytes_length. lia.
Qed.

Lemma encode_bounded_ok envelope :
  encode_result m out out_cap (wire_image packet envelope integrity payload)
    (wl_frame_encode_bounded m packet envelope integrity header raw_len out out_cap).
Proof.
  unfold wire_image, envelope_bytes.
  destruct (Z.eqb_spec envelope WL_ENVELOPE_COBS_STREAM) as [->|H0];
    [apply encode_bounded_cobs|].
  pose proof raw_len_bound as Hrl. pose proof raw_frame_length as Hlen.
  assert (∀ o, stored m (frame_write_raw m header packet trailer o) o
                (raw_frame packet integrity payload)) as Hraw.
  { intros o. rewrite raw_frame_split. apply frame_write_raw_stored; [lia|].
    unfold header. rewrite frame_write_header_length. apply packet_header_len_cases. }
  unfold encode_result, wl_frame_encode_bounded. cbv zeta.
  rewrite frame_write_integrity_ok. fold payload. fold header. fold trailer.
  replace (envelope =? WL_ENVELOPE_COBS_STREAM) with false by lia.
  replace (out =? NULL) with false by sz_lia.
  destruct (Z.eqb_spec envelope WL_ENVELOPE_BUS_LENGTH16) as [->|H2].
  - rewrite length_app, Nat2Z.inj_add, Hlen. simpl length.
    replace (raw_len >? UINT16_MAX) with false by sz_lia.
    replace (Z.of_nat 2 + raw_len) with (raw_len + 2) by lia.
    destruct (out_cap <? raw_len + 2); [done|]. eexists. split; [done|].
    rewrite (u16_id raw_len) by sz_lia.
    apply (stored_app_rev _ (frame_write_raw m header packet trailer (out + 2)));
      [apply Hraw|apply stored_mwrite].
  - rewrite Hlen. destruct (out_cap <? raw_len); [done|]. by eexists.
Qed.
End EncodeBounded.

(** ** Lemmas: the one-pass writer *)

Lemma crc16_span_ok out src i l st s crc :
  cobs_rep out st s → src_ahead out src i l s →
  (∀ j b, l !! j = Some b → src (cs_mem st) (i + Z.of_nat j) = b) →
  cobs_crc16_encode_span out src i (length l) st crc
  = (cobs_encode_loop out src i (length l) st, crc16_bytes crc l).
Proof.
  revert i st s crc. induction l as [|b l IH]; intros i st s crc Hrep Hahead Hsrc; [done|].
  cbn [length cobs_encode_loop cobs_crc16_encode_span].
  assert (src (cs_mem st) i = b) as ->.
  { specialize (Hsrc 0%nat b eq_refl). by rewrite Z.add_0_r in Hsrc. }
  rewrite (IH (i + 1) _ (cobs_step s b)); [done|by apply cobs_rep_step|
    by apply src_ahead_cons|].
  intros j b' Hj. replace (i + 1 + Z.of_nat j) with (i + Z.of_nat (S j)) by lia.
  rewrite <- (Hsrc (S j) b' Hj). apply (Hahead 0%nat (S j)).
  - apply lookup_lt_Some in Hj. simpl. lia.
  - intros x Hx. by apply (cobs_encode_byte_frame _ _ s).
Qed.

Lemma u8_land x : u8 (Z.land x 0xff) = u8 x.
Proof.
  change 0xff with (Z.ones 8). rewrite Z.land_ones by lia. unfold u8.
  by rewrite Z.mod_mod.
Qed.

Lemma cobs_encode_pair out st b1 b2 :
  cobs_encode_loop out (from_local [b1; b2]) 0 (length [b1; b2]) st
  = cobs_encode_byte out (cobs_encode_byte out st b1) b2.
Proof. reflexivity. Qed.

(** The spans of the one-pass writer leave the states of the separate passes
    and the running checksum. *)
Lemma one_pass_spans m out a header payload trailer crc :
  mread m a (length payload) = payload →
  payload_clear a (Z.of_nat (length payload)) out
    (Z.of_nat (length (cobs_enc (header ++ payload ++ trailer))))
    (Z.of_nat (length trailer)) →
  let st1 := cobs_encode_loop out (from_local header) 0 (length header) (cobs_start m) in
  let st2 := cobs_encode_loop out (from_mem a) 0 (length payload) st1 in
  cobs_crc16_encode_span out (from_local header) 0 (length header) (cobs_start m) crc
    = (st1, crc16_bytes crc header) ∧
  cobs_crc16_encode_span out (from_mem a) 0 (length payload) st1 (crc16_bytes crc header)
    = (st2, crc16_bytes crc (header ++ payload)).
Proof.
  intros Hpay Hclear. cbv zeta.
  destruct (cobs_rep_local out header (cobs_start m) ([], [])) as [R1 F1];
    [apply cobs_rep_start|]. split.
  - apply (crc16_span_ok _ _ _ _ _ ([], [])); [apply cobs_rep_start|
      apply src_ahead_local|intros j b; apply from_local_read].
  - rewrite (crc16_span_ok _ _ _ payload _ _ _ R1
      (payload_ahead out a header payload trailer Hclear)); [by rewrite crc16_bytes_app|].
    intros j b. apply from_mem_read. by eapply payload_unread.
Qed.

Lemma encode_cobs_crc16_ok m packet out out_cap :
  let payload := mread m (pk_payload packet) (Z.to_nat (pk_payload_len packet)) in
  0 <= pk_payload_len packet <= WL_PACKET_MAX_PAYLOAD → out ≠ NULL →
  encode_result m out out_cap
    (wire_image packet WL_ENVELOPE_COBS_STREAM WL_INTEGRITY_CRC16 payload)
    (wl_frame_encode_cobs_crc16 m packet out out_cap).
Proof.
  intros payload Hplen Hout. unfold wl_frame_encode_cobs_crc16. cbv zeta.
  pose proof (encode_bounded_ok m packet WL_INTEGRITY_CRC16 out out_cap Hplen Hout
    WL_ENVELOPE_COBS_STREAM) as Hb.
  pose proof (raw_frame_length m packet WL_INTEGRITY_CRC16 Hplen) as Hlen.
  pose proof (raw_len_bound packet WL_INTEGRITY_CRC16 Hplen) as Hrl.
  pose proof (raw_frame_split m packet WL_INTEGRITY_CRC16) as Hsplit.
  pose proof (cobs_enc_length (raw_frame packet WL_INTEGRITY_CRC16 payload)) as Hexp.
  change (wl_profile_crc_size WL_INTEGRITY_CRC16) with 2 in Hb, Hlen, Hrl.
  fold payload in Hb, Hlen, Hsplit. rewrite Hlen in Hexp. rewrite Hsplit in Hexp.
  set (raw_len := packet_header_len packet + pk_payload_len packet + 2) in *.
  destruct (_ || _) eqn:E; [exact Hb|clear Hb]. apply orb_false_iff in E as [Hcap Eo].
  replace (out =? NULL) with false by sz_lia.
  set (header := frame_write_header packet (packet_header_len packet)) in *.
  set (trailer := crc_trailer WL_INTEGRITY_CRC16 (header ++ payload)) in *.
  pose proof (payload_bytes_length m packet 0 Hplen) as Hpl. fold payload in Hpl.
  assert (mread m (pk_payload packet) (length payload) = payload) as Hpay.
  { subst payload. by rewrite mread_length. }
  assert (payload_clear (pk_payload packet) (Z.of_nat (length payload)) out
    (Z.of_nat (length (cobs_enc (header ++ payload ++ trailer)))) (Z.of_nat (length trailer)))
    as Hclear.
  { apply spans_overlap_false in Eo; [|lia|div_lia]. unfold payload_clear. lia. }
  replace (Z.to_nat (packet_header_len packet)) with (length header).
  2: { pose proof (frame_write_header_length packet). unfold local_len in *. subst header. lia. }
  replace (Z.to_nat (pk_payload_len packet)) with (length payload) by lia.
  destruct (one_pass_spans m out _ header payload trailer 0xffff Hpay Hclear) as [E1 E2].
  rewrite E1, E2.
  destruct (three_spans_rep m out _ header payload trailer Hpay Hclear) as [R3 F3].
  assert (trailer = [u8 (Z.shiftr (crc16_bytes 0xffff (header ++ payload)) 8);
                     u8 (crc16_bytes 0xffff (header ++ payload))]) as Htr.
  { unfold trailer, crc_trailer. rewrite Z.eqb_refl. unfold write_u16_be. by rewrite u8_land. }
  clearbody trailer. subst trailer. cbv zeta in R3, F3. rewrite cobs_encode_pair in R3, F3.
  set (st3 := cobs_encode_byte out (cobs_encode_byte _ _ _) _) in *.
  destruct (stuffed_stored m out header payload _ st3 R3 F3) as [Hwi Hst].
  unfold encode_result, wire_image, envelope_bytes. rewrite Z.eqb_refl, Hsplit.
  rewrite length_app, Nat2Z.inj_add. change (Z.of_nat (length [0])) with 1. rewrite Hwi in *.
  replace (out_cap <? _) with false by div_lia. by eexists.
Qed.

(** ** Lemmas: big-endian fields *)

Definition be_value (l : list Z) : Z := foldl (λ acc b, 256 * acc + b) 0 l.

Fixpoint be_bytes (n : nat) (v : Z) : list Z :=
  match n with
  | O => []
  | S n => be_bytes n (v / 256) ++ [v mod 256]
  end.

Lemma be_bytes_length n v : length (be_bytes n v) = n.
Proof. revert v. induction n; intros; simpl; [done|]. autorewrite with wl. simpl. rewrite IHn. lia. Qed.

Lemma be_value_bytes n v : be_value (be_bytes n v) = v mod 256 ^ Z.of_nat n.
Proof.
  unfold be_value. revert v. induction n as [|n IH]; intros v; simpl be_bytes.
  { simpl. by rewrite Z.mod_1_r. }
  rewrite foldl_app, IH. simpl foldl.
  replace (Z.of_nat (S n)) with (Z.of_nat n + 1) by lia.
  rewrite Z.pow_add_r by lia. change (256 ^ 1) with 256.
  rewrite (Z.mul_comm (256 ^ Z.of_nat n) 256).
  rewrite Z.rem_mul_r by (try apply Z.pow_nonzero; lia). lia.
Qed.

Lemma be_bytes_value l : Forall is_byte l → be_bytes (length l) (be_value l) = l.
Proof.
  unfold be_value. induction l as [|b l IH] using rev_ind; intros Hl; [done|].
  apply Forall_app in Hl as [Hl Hb]. apply Forall_cons in Hb as [Hb _].
  rewrite length_app, foldl_app, Nat.add_comm. simpl.
  rewrite Z.mul_comm, Z.div_add_l, (Z.div_small b), Z.add_0_r, IH by (done || sz_lia).
  f_equal. f_equal. rewrite Z.add_comm, Z.mod_add, Z.mod_small by sz_lia. done.
Qed.

Lemma be_bytes_bytes n v : Forall is_byte (be_bytes n v).
Proof.
  revert v. induction n as [|n IH]; intros; simpl; [done|]. apply Forall_app. split; [done|].
  apply Forall_singleton. apply Z.mod_pos_bound. lia.
Qed.

Lemma u8_shiftr v k : 0 <= k → u8 (Z.shiftr v k) = (v / 2 ^ k) mod 256.
Proof. intros. unfold u8. by rewrite Z.shiftr_div_pow2. Qed.

Ltac write_be :=
  rewrite u8_land, ?u8_shiftr by lia; unfold u8; simpl be_bytes;
  rewrite !Zdiv_Zdiv by lia; reflexivity.

Lemma write_u16_be_eq v : write_u16_be v = be_bytes 2 v.
Proof. unfold write_u16_be. rewrite u8_land, ?u8_shiftr by lia. reflexivity. Qed.

Lemma write_u32_be_eq v : write_u32_be v = be_bytes 4 v.
Proof. unfold write_u32_be. write_be. Qed.

Lemma write_u64_be_eq v : write_u64_be v = be_bytes 8 v.
Proof. unfold write_u64_be. write_be. Qed.

(** Disjoint fields: or-ing is adding. *)
Lemma lor_add k x y : 0 <= k → 0 <= y < 2 ^ k → Z.lor (x * 2 ^ k) y = x * 2 ^ k + y.
Proof.
  intros Hk Hy. enough (Z.land (x * 2 ^ k) y = 0) as Hl
    by by rewrite Z.add_nocarry_lxor, Z.lxor_lor.
  rewrite <- Z.shiftl_mul_pow2 by lia. bit_ext i. rewrite Z.bits_0.
  destruct (decide (i < k)).
  - rewrite Z.testbit_neg_r by lia. done.
  - rewrite (testbit_above y i k), andb_false_r by lia. done.
Qed.

Lemma lor_shift_add k x b : 0 <= k → 0 <= b < 256 →
  Z.lor (x * 2 ^ (k + 8)) (Z.shiftl b k) = (x * 256 + b) * 2 ^ k.
Proof.
  intros Hk Hb. rewrite Z.shiftl_mul_pow2 by lia. rewrite Z.pow_add_r by lia.
  replace (x * 256 + b) with (Z.lor (x * 2 ^ 8) b) by (by rewrite lor_add by lia).
  rewrite <- !(Z.shiftl_mul_pow2 _ k) by lia. rewrite Z.shiftl_lor. f_equal.
  rewrite !Z.shiftl_mul_pow2 by lia. lia.
Qed.

(** [p + 1 + 1 + 1] is [p + 3]. *)
Ltac fold_offsets :=
  rewrite <- ?Z.add_assoc;
  repeat match goal with
  | |- context [Z.add (Zpos ?a) (Zpos ?b)] =>
      let c := eval vm_compute in (Zpos a + Zpos b) in change (Zpos a + Zpos b) with c
  end.

Lemma read_u16_be_eq m p :
  Forall is_byte (mread m p 2) → read_u16_be m p = be_value (mread m p 2).
Proof.
  unfold read_u16_be, be_value. simpl. intros H.
  apply Forall_cons in H as [H0 [H1 _]%Forall_cons].
  rewrite Z.shiftl_mul_pow2 by lia. rewrite u16_id by sz_lia.
  rewrite lor_add by sz_lia. lia.
Qed.

Lemma read_u32_be_eq m p :
  Forall is_byte (mread m p 4) → read_u32_be m p = be_value (mread m p 4).
Proof.
  unfold read_u32_be, be_value. simpl. fold_offsets. intros H.
  do 4 apply Forall_cons in H as [? H]. unfold is_byte in *.
  rewrite (Z.shiftl_mul_pow2 (m p)) by lia.
  rewrite (lor_shift_add 16), (lor_shift_add 8), (lor_add 8) by lia. lia.
Qed.

Lemma read_u64_be_eq m p :
  Forall is_byte (mread m p 8) → read_u64_be m p = be_value (mread m p 8).
Proof.
  unfold read_u64_be, be_value. simpl. fold_offsets. intros H.
  do 8 apply Forall_cons in H as [? H]. unfold is_byte in *.
  rewrite (Z.shiftl_mul_pow2 (m p)) by lia.
  rewrite (lor_shift_add 48), (lor_shift_add 40), (lor_shift_add 32), (lor_shift_add 24),
    (lor_shift_add 16), (lor_shift_add 8), (lor_add 8) by lia. lia.
Qed.

(** ** Lemmas: parsing *)

Lemma mread_app_inv m a (l1 l2 : list Z) :
  mread m a (length (l1 ++ l2)) = l1 ++ l2 →
  mread m a (length l1) = l1 ∧ mread m (a + Z.of_nat (length l1)) (length l2) = l2.
Proof.
  rewrite length_app, mread_app. intros H. apply app_inj_1 in H; [done|].
  by rewrite mread_length.
Qed.

Lemma be_bytes_inj n v w :
  0 <= v < 256 ^ Z.of_nat n → 0 <= w < 256 ^ Z.of_nat n → be_bytes n v = be_bytes n w → v = w.
Proof.
  intros Hv Hw E. apply (f_equal be_value) in E. rewrite !be_value_bytes in E.
  by rewrite !Z.mod_small in E.
Qed.

(** The comparison succeeds exactly on the right trailer. *)
Lemma frame_integrity_ok m a covered integrity :
  a ≠ NULL → 0 <= covered →
  Forall is_byte (mread m (a + covered) (Z.to_nat (wl_profile_crc_size integrity))) →
  frame_integrity_bad m a covered integrity None = false ↔
  mread m (a + covered) (Z.to_nat (wl_profile_crc_size integrity))
  = crc_trailer integrity (mread m a (Z.to_nat covered)).
Proof.
  intros Ha Hc. unfold frame_integrity_bad, crc_trailer, wl_profile_crc_size.
  unfold wl_crc16_ccitt_false, wl_crc32c. replace (a =? NULL) with false by sz_lia. simpl andb.
  unfold wl_crc16_ccitt_false_update, wl_crc32c_update.
  set (l := mread m a (Z.to_nat covered)).
  destruct (Z.eqb_spec integrity WL_INTEGRITY_CRC16) as [->|H1];
    [|destruct (Z.eqb_spec integrity WL_INTEGRITY_CRC32C) as [->|H2]].
  - change (Z.to_nat 2) with 2%nat. intros Hb. rewrite read_u16_be_eq by done.
    pose proof (crc16_bytes_u16 0xffff l ltac:(done)) as Hr. rewrite write_u16_be_eq.
    rewrite negb_false_iff, Z.eqb_eq. split.
    + intros <-. pose proof (be_bytes_value _ Hb) as E. by rewrite mread_length in E.
    + intros ->. rewrite be_value_bytes. by apply Z.mod_small.
  - change (Z.to_nat 4) with 4%nat. intros Hb. rewrite read_u32_be_eq by done.
    assert (is_u32 (Z.lxor (crc32c_bytes 0xffffffff l) 0xffffffff)) as Hr.
    { apply lxor_bound; [by apply crc32c_bytes_u32|done]. }
    rewrite write_u32_be_eq, negb_false_iff, Z.eqb_eq. split.
    + intros <-. pose proof (be_bytes_value _ Hb) as E. by rewrite mread_length in E.
    + intros ->. rewrite be_value_bytes. by apply Z.mod_small.
  - done.
Qed.

(** A zero residue over everything is the same comparison. *)
Lemma frame_integrity_residue m a n :
  a ≠ NULL → 2 <= n → Forall is_byte (mread m a (Z.to_nat n)) →
  frame_integrity_bad m a (n - 2) WL_INTEGRITY_CRC16
    (Some (crc16_bytes 0xffff (mread m a (Z.to_nat n))))
  = frame_integrity_bad m a (n - 2) WL_INTEGRITY_CRC16 None.
Proof.
  intros Ha Hn. replace (Z.to_nat n) with (Z.to_nat (n - 2) + 2)%nat by lia.
  rewrite mread_app, crc16_bytes_app, Z2Nat.id by lia. intros [Hl Ht]%Forall_app.
  unfold frame_integrity_bad. simpl Z.eqb. cbv iota. unfold wl_crc16_ccitt_false.
  replace (a =? NULL) with false by sz_lia. simpl andb. cbv iota.
  unfold wl_crc16_ccitt_false_update. rewrite read_u16_be_eq by done. f_equal.
  pose proof (crc16_bytes_u16 0xffff (mread m a (Z.to_nat (n - 2))) ltac:(done)) as Hs.
  unfold be_value. cbn [mread foldl] in *. apply Forall_cons in Ht as [Hhi [Hlo _]%Forall_cons].
  pose proof (crc16_residue _ _ _ Hs Hhi Hlo) as Hres.
  apply eq_true_iff_eq. rewrite !Z.eqb_eq, Hres. lia.
Qed.

(** The view of [packet] parsed at address [a]: what the header does not carry
    reads as zero. *)
Definition frame_view_of (packet : wl_wire_packet) (integrity a : Z) : wl_frame_view :=
  let hl := packet_header_len packet in
  let crc := wl_profile_crc_size integrity in
  let rel := hl =? WL_FRAME_RELIABLE_HEADER_SIZE in
  mk_view (pk_type packet) (pk_flags packet) (pk_message_id packet)
    (if rel then pk_session_id packet else 0) (if rel then pk_sequence packet else 0)
    integrity (mk_span (a + hl) (pk_payload_len packet))
    (mk_span (if negb (crc =? 0) then a + hl + pk_payload_len packet else NULL) crc)
    (hl + pk_payload_len packet + crc).

(** The packet a view describes. *)
Definition view_packet (v : wl_frame_view) : wl_wire_packet :=
  mk_packet (fv_type v) (fv_integrity v) (fv_flags v) (fv_message_id v)
    (fv_session_id v) (fv_sequence v) (span_data (fv_payload v)) (span_length (fv_payload v)).

(** A valid packet is one of three kinds. *)
Lemma packet_valid_kind packet :
  packet_valid packet →
  pk_type packet = WL_PACKET_DATA ∧ pk_flags packet = 0 ∧ packet_header_len packet = 4 ∧
    frame_packet_kind packet = 0 ∧ pk_message_id packet ≠ 0 ∨
  pk_type packet = WL_PACKET_DATA ∧ pk_flags packet = 1 ∧ packet_header_len packet = 16 ∧
    frame_packet_kind packet = 1 ∧ pk_message_id packet ≠ 0 ∧ pk_session_id packet ≠ 0 ∨
  pk_type packet = WL_PACKET_ACK ∧ pk_flags packet = 0 ∧ packet_header_len packet = 16 ∧
    frame_packet_kind packet = 2 ∧ pk_message_id packet = 0 ∧ pk_payload_len packet = 0 ∧
    pk_session_id packet ≠ 0.
Proof.
  intros (_ & _ & _ & _ & [(Ht & Hm & [Hf|(Hf & Hs)])|(Ht & Hm & Hp & Hf & Hs)]);
    unfold packet_header_len, frame_packet_kind; rewrite Ht, Hf; [left|right; left|do 2 right];
    repeat split; done.
Qed.

Lemma frame_header_size_ok packet :
  packet_valid packet → frame_header_size packet = inr (packet_header_len packet).
Proof.
  intros Hv. pose proof (packet_valid_kind _ Hv) as Hk. destruct Hv as (Hl & _).
  unfold frame_header_size, wl_frame_packet_header_size, WL_PACKET_MAX_PAYLOAD in *.
  destruct Hk as [(-> & -> & -> & _ & Hm)|[(-> & -> & -> & _ & Hm & Hs)|
    (-> & -> & -> & _ & -> & -> & Hs)]]; simpl.
  - replace (pk_message_id packet =? 0) with false by lia.
    by replace (pk_payload_len packet >? 2048) with false by lia.
  - replace (pk_message_id packet =? 0) with false by lia.
    replace (pk_session_id packet =? 0) with false by lia.
    by replace (pk_payload_len packet >? 2048) with false by lia.
  - by replace (pk_session_id packet =? 0) with false by lia.
Qed.

(** The header of a valid packet, field by field. *)
Lemma frame_write_header_fields packet :
  packet_valid packet →
  frame_write_header packet (packet_header_len packet)
  = [0xa4 + frame_packet_kind packet; 0] ++ be_bytes 2 (pk_message_id packet)
    ++ (if packet_header_len packet =? 16
        then be_bytes 8 (pk_session_id packet) ++ be_bytes 4 (pk_sequence packet) else []).
Proof.
  intros Hv. unfold frame_write_header.
  rewrite write_u16_be_eq, write_u64_be_eq, write_u32_be_eq.
  by destruct (packet_valid_kind _ Hv) as [(_ & _ & -> & -> & _)|[(_ & _ & -> & -> & _)|
    (_ & _ & -> & -> & _)]].
Qed.

Lemma be_field m a n v :
  0 <= v < 256 ^ Z.of_nat n → mread m a n = be_bytes n v →
  Forall is_byte (mread m a n) ∧ be_value (mread m a n) = v.
Proof.
  intros Hv ->. split; [apply be_bytes_bytes|]. rewrite be_value_bytes. by apply Z.mod_small.
Qed.

(** Parsing memory whose fields are those of [packet]. *)
Lemma frame_parse_fields m a packet integrity cobs_crc v :
  packet_valid packet → a ≠ NULL → v ≠ NULL →
  mread m a (length (frame_write_header packet (packet_header_len packet)))
    = frame_write_header packet (packet_header_len packet) →
  frame_parse m a (packet_header_len packet + pk_payload_len packet
                   + wl_profile_crc_size integrity)
    integrity (wl_profile_crc_size integrity) cobs_crc v
  = if frame_integrity_bad m a (packet_header_len packet + pk_payload_len packet)
         integrity cobs_crc
    then inl WL_ERR_CRC else inr (frame_view_of packet integrity a).
Proof.
  intros Hv Ha Hn Hread. rewrite frame_write_header_fields in Hread by done.
  apply mread_app_inv in Hread as [H0 Hread]. apply mread_app_inv in Hread as [H2 H4].
  simpl in H0. injection H0 as Hb0 Hb1. rewrite be_bytes_length in *.
  change (Z.of_nat (length [_; _])) with 2 in H2, H4. change (Z.of_nat 2) with 2 in H4.
  replace (a + 2 + 2) with (a + 4) in H4 by lia.
  pose proof (wl_profile_crc_size_le integrity) as Hc.
  pose proof Hv as ((Hl0 & Hl1) & Hm16 & Hs64 & Hq32 & _). unfold WL_PACKET_MAX_PAYLOAD in Hl1.
  apply be_field in H2 as [B2 V2]; [|done]. rewrite <- read_u16_be_eq in V2 by done.
  unfold frame_parse, frame_view_of, WL_PACKET_MAX_PAYLOAD, WL_FRAME_BASE_HEADER_SIZE,
    WL_FRAME_RELIABLE_HEADER_SIZE.
  replace (v =? NULL) with false by sz_lia. replace (a =? NULL) with false by sz_lia.
  rewrite Hb0, Hb1, V2. cbn [orb].
  destruct (packet_valid_kind _ Hv) as [(-> & -> & E & -> & Hm)|[(-> & -> & E & -> & Hm & Hs)|
    (-> & -> & E & -> & Hm & Hp & Hs)]]; rewrite E in *.
  2,3: apply mread_app_inv in H4 as [H4 H12]; rewrite be_bytes_length in *;
    change (Z.of_nat 8) with 8 in H12; replace (a + 4 + 8) with (a + 12) in H12 by lia;
    apply be_field in H4 as [B4 V4]; [|done]; apply be_field in H12 as [B12 V12]; [|done];
    rewrite <- read_u64_be_eq in V4 by done; rewrite <- read_u32_be_eq in V12 by done;
    rewrite V4, V12.
  all: replace (_ + pk_payload_len packet + wl_profile_crc_size integrity
                 <? 4 + wl_profile_crc_size integrity) with false by lia.
  all: repeat match goal with
    | |- context [Z.land (0xa4 + ?k) ?mask] =>
        let v := eval vm_compute in (Z.land (0xa4 + k) mask) in
        change (Z.land (0xa4 + k) mask) with v
    end; cbn -[frame_integrity_bad wl_profile_crc_size Z.add Z.sub].
  all: rewrite ?Z.add_simpl_r; set (crc := wl_profile_crc_size integrity) in *.
  all: replace (_ <? _) with false by lia.
  all: match goal with
    | |- context [?h + ?p + ?c - ?h - ?c] => replace (h + p + c - h - c) with p by lia
    end.
  all: replace (pk_payload_len packet >? 2048) with false by lia.
  - by replace (pk_message_id packet =? 0) with false by lia.
  - replace (pk_message_id packet =? 0) with false by lia.
    by replace (pk_session_id packet =? 0) with false by lia.
  - rewrite Hm, Hp. by replace (pk_session_id packet =? 0) with false by lia.
Qed.

(** The first byte of an accepted frame. *)
Lemma prefix_byte b :
  is_byte b → Z.land b WL_FRAME_MARKER_MASK = WL_FRAME_MARKER →
  Z.shiftr (Z.land b WL_FRAME_VERSION_MASK) WL_FRAME_VERSION_SHIFT = WL_FRAME_VERSION →
  b = 0xa4 + Z.land b WL_FRAME_KIND_MASK ∧ 0 <= Z.land b WL_FRAME_KIND_MASK <= 3.
Proof.
  intros Hb Hm Hver.
  pose proof (forall_bytes (λ b, implb ((Z.land b WL_FRAME_MARKER_MASK =? WL_FRAME_MARKER) &&
    (Z.shiftr (Z.land b WL_FRAME_VERSION_MASK) WL_FRAME_VERSION_SHIFT =? WL_FRAME_VERSION))
    ((b =? 0xa4 + Z.land b WL_FRAME_KIND_MASK) && (0 <=? Z.land b WL_FRAME_KIND_MASK)
     && (Z.land b WL_FRAME_KIND_MASK <=? 3))) ltac:(vm_compute; reflexivity) b Hb) as H.
  cbv beta in H. rewrite Hm, Hver, !Z.eqb_refl in H. simpl in H. lia.
Qed.

Lemma be_value_range l :
  Forall is_byte l → 0 <= be_value l < 256 ^ Z.of_nat (length l).
Proof.
  intros H. pose proof (be_value_bytes (length l) (be_value l)) as E.
  rewrite be_bytes_value in E by done. rewrite E.
  apply Z.mod_pos_bound, Z.pow_pos_nonneg; lia.
Qed.

(** A sub-span of a span of bytes. *)
Lemma mread_bytes_sub m a n b k :
  Forall is_byte (mread m a n) → a <= b → b + Z.of_nat k <= a + Z.of_nat n →
  Forall is_byte (mread m b k).
Proof.
  intros H Hb Hk. apply Forall_lookup. intros i x Hi.
  pose proof (lookup_lt_Some _ _ _ Hi) as Hlt. rewrite mread_length in Hlt.
  rewrite mread_lookup in Hi by done. injection Hi as <-.
  rewrite Forall_lookup in H. apply (H (Z.to_nat (b + Z.of_nat i - a))).
  rewrite mread_lookup by lia. do 2 f_equal. lia.
Qed.

Definition parsed (m : mem) (a n integrity : Z) (cobs_crc : option Z)
    (view : wl_frame_view) : Prop :=
  let p := view_packet view in
  packet_valid p ∧ view = frame_view_of p integrity a ∧
  n = packet_header_len p + pk_payload_len p + wl_profile_crc_size integrity ∧
  mread m a (length (frame_write_header p (packet_header_len p)))
    = frame_write_header p (packet_header_len p) ∧
  frame_integrity_bad m a (packet_header_len p + pk_payload_len p) integrity cobs_crc = false.

Lemma parsed_intro m a n integrity cobs_crc view :
  let p := view_packet view in
  packet_valid p → view = frame_view_of p integrity a →
  n = packet_header_len p + pk_payload_len p + wl_profile_crc_size integrity →
  m a = 0xa4 + frame_packet_kind p → m (a + 1) = 0 →
  be_bytes 2 (pk_message_id p) = mread m (a + 2) 2 →
  (packet_header_len p = 16 →
   be_bytes 8 (pk_session_id p) = mread m (a + 4) 8 ∧
   be_bytes 4 (pk_sequence p) = mread m (a + 12) 4) →
  frame_integrity_bad m a (n - wl_profile_crc_size integrity) integrity cobs_crc = false →
  parsed m a n integrity cobs_crc view.
Proof.
  intros p Hv Hview Hn H0 H1 H2 H4 Hbad. unfold parsed. fold p. split_and!; try done.
  2: { rewrite <- Hbad. f_equal. lia. }
  rewrite frame_write_header_fields by done.
  rewrite length_app, mread_app. f_equal; [simpl; by rewrite H0, H1|].
  change (Z.of_nat (length [_; _])) with 2. rewrite H2.
  destruct (Z.eqb_spec (packet_header_len p) 16) as [E|E].
  - destruct (H4 E) as [-> ->]. rewrite length_app, mread_app, !mread_length. f_equal.
    rewrite length_app, mread_app, !mread_length. fold_offsets.
    f_equal; f_equal; lia.
  - by rewrite app_nil_r, mread_length.
Qed.

Lemma frame_parse_sound m a n integrity cobs_crc v view :
  Forall is_byte (mread m a (Z.to_nat n)) →
  frame_parse m a n integrity (wl_profile_crc_size integrity) cobs_crc v = inr view →
  a ≠ NULL ∧ parsed m a n integrity cobs_crc view.
Proof.
  intros Hby. unfold frame_parse.
  destruct (_ || _) eqn:Enull; [done|]. apply orb_false_iff in Enull as [Ev Ea].
  pose proof (wl_profile_crc_size_le integrity) as Hc.
  set (crc := wl_profile_crc_size integrity) in *. unfold WL_FRAME_BASE_HEADER_SIZE.
  destruct (Z.ltb_spec n (4 + crc)); [done|].
  destruct (Z.eqb_spec (Z.land (m a) WL_FRAME_MARKER_MASK) WL_FRAME_MARKER) as [Em|]; [|done].
  destruct (Z.eqb_spec (Z.shiftr (Z.land (m a) WL_FRAME_VERSION_MASK) WL_FRAME_VERSION_SHIFT)
    WL_FRAME_VERSION) as [Ever|]; [|done]. cbn [negb].
  assert (is_byte (m a)) as Hba.
  { pose proof (mread_bytes_sub m a _ a 1 Hby ltac:(lia) ltac:(lia)) as H1.
    by apply Forall_cons in H1 as [H1 _]. }
  destruct (prefix_byte _ Hba Em Ever) as [Hma Hk]. clear Em Ever.
  set (kind := Z.land (m a) WL_FRAME_KIND_MASK) in *. clearbody kind. cbv zeta.
  destruct (Z.gtb_spec kind 2); [done|].
  unfold WL_FRAME_RELIABLE_HEADER_SIZE, WL_PACKET_MAX_PAYLOAD.
  set (hl := if kind =? 0 then 4 else 16).
  destruct (Z.ltb_spec n (hl + crc)); [done|]. destruct (Z.gtb_spec (n - hl - crc) 2048); [done|].
  destruct (Z.eqb_spec (m (a + 1)) 0) as [Hr|]; [|done]. cbn [negb].
  assert (∀ o k, (0 <= o)%Z → o + Z.of_nat k <= n → Forall is_byte (mread m (a + o) k)) as Hsub.
  { intros o k ??. apply (mread_bytes_sub m a (Z.to_nat n)); [done|lia|lia]. }
  assert (4 <= hl) by (subst hl; split_ifs; lia).
  pose proof (Hsub 2 2%nat ltac:(lia) ltac:(lia)) as B2.
  rewrite read_u16_be_eq by done.
  pose proof (be_value_range _ B2) as R2. pose proof (be_bytes_value _ B2) as V2.
  rewrite mread_length in R2, V2.
  set (mid := be_value (mread m (a + 2) 2)) in *. clearbody mid.
  assert (kind ≠ 0 → Forall is_byte (mread m (a + 4) 8) ∧ Forall is_byte (mread m (a + 12) 4))
    as Hrel.
  { intros. assert (hl = 16) by (subst hl; split_ifs; lia). split; apply Hsub; lia. }
  intros Hres. split; [sz_lia|]. revert Hres.
  assert (kind = 0 ∨ kind = 1 ∨ kind = 2) as [Ek|[Ek|Ek]] by lia; subst kind; subst hl;
    cbn -[frame_integrity_bad Z.add Z.sub Z.pow be_value be_bytes mread] in *.
  2,3: destruct (Hrel ltac:(done)) as [B4 B12];
    rewrite read_u64_be_eq, read_u32_be_eq by done;
    pose proof (be_value_range _ B4) as R4; pose proof (be_bytes_value _ B4) as V4;
    pose proof (be_value_range _ B12) as R12; pose proof (be_bytes_value _ B12) as V12;
    rewrite mread_length in R4, V4, R12, V12;
    set (sid := be_value (mread m (a + 4) 8)) in *; clearbody sid;
    set (seq := be_value (mread m (a + 12) 4)) in *; clearbody seq.
  all: destruct (_ || _) eqn:Efields; [done|]; destruct (frame_integrity_bad _ _ _ _ _) eqn:Ebad;
    [done|]; intros [= <-].
  all: apply parsed_intro; try exact Ebad;
    unfold packet_valid, frame_view_of, view_packet, packet_header_len, frame_packet_kind;
    cbn -[Z.add Z.sub Z.pow be_bytes mread] in *; fold crc; auto; try lia.
  all: unfold WL_PACKET_MAX_PAYLOAD, WL_FRAME_RELIABLE_HEADER_SIZE, WL_FRAME_BASE_HEADER_SIZE,
    WL_PACKET_DATA, WL_PACKET_ACK, WL_PACKET_FLAG_RELIABLE.
  all: change (256 ^ Z.of_nat 2) with (2 ^ 16) in *; change (256 ^ Z.of_nat 4) with (2 ^ 32) in *;
    change (256 ^ Z.of_nat 8) with (2 ^ 64) in *.
  all: first [sz_lia | f_equal; lia].
Qed.

(** Parsing depends on the bytes only. *)
Lemma frame_parse_ext m1 m2 a n integrity crc cobs_crc v :
  (∀ x, m1 x = m2 x) →
  frame_parse m1 a n integrity crc cobs_crc v = frame_parse m2 a n integrity crc cobs_crc v.
Proof.
  intros H. unfold frame_parse, frame_integrity_bad, read_u16_be, read_u32_be, read_u64_be,
    wl_crc16_ccitt_false, wl_crc32c, wl_crc16_ccitt_false_update, wl_crc32c_update.
  rewrite !H, !(mread_ext m1 m2) by (intros; apply H). done.
Qed.

(** ** Lemmas: whole frames *)

(** A span parses exactly when it holds the raw frame of a valid packet. *)
Lemma frame_parse_complete m a packet integrity payload v :
  packet_valid packet → a ≠ NULL → v ≠ NULL →
  Z.of_nat (length payload) = pk_payload_len packet →
  mread m a (length (raw_frame packet integrity payload)) = raw_frame packet integrity payload →
  frame_parse m a (Z.of_nat (length (raw_frame packet integrity payload))) integrity
    (wl_profile_crc_size integrity) None v = inr (frame_view_of packet integrity a).
Proof.
  intros Hv Ha Hn Hpl. unfold raw_frame. cbv zeta.
  set (header := frame_write_header packet (packet_header_len packet)).
  pose proof (frame_write_header_length packet) as Hh. unfold local_len in Hh. fold header in Hh.
  intros Hread. apply mread_app_inv in Hread as [Hcov Htr].
  pose proof Hcov as Hcov'. apply mread_app_inv in Hcov' as [Hhd _].
  rewrite !length_app, !Nat2Z.inj_add, Hh, Hpl, crc_trailer_length.
  rewrite frame_parse_fields by done.
  pose proof (crc_trailer_length integrity (header ++ payload)) as Hc.
  rewrite length_app, Nat2Z.inj_add, Hh, Hpl in Htr.
  replace (length (crc_trailer integrity (header ++ payload)))
    with (Z.to_nat (wl_profile_crc_size integrity)) in Htr by lia.
  replace (length (header ++ payload))
    with (Z.to_nat (packet_header_len packet + pk_payload_len packet)) in Hcov
    by (rewrite length_app; lia).
  pose proof (packet_header_len_cases packet). pose proof (wl_profile_crc_size_le integrity).
  destruct Hv as (Hl & _).
  enough (frame_integrity_bad m a (packet_header_len packet + pk_payload_len packet)
    integrity None = false) as -> by done.
  apply frame_integrity_ok; [done|lia| |by rewrite Htr, Hcov]. rewrite Htr.
  unfold crc_trailer. rewrite write_u16_be_eq, write_u32_be_eq.
  split_ifs; [apply be_bytes_bytes..|done].
Qed.

Lemma parsed_raw m a n integrity view :
  a ≠ NULL → Forall is_byte (mread m a (Z.to_nat n)) → parsed m a n integrity None view →
  mread m a (Z.to_nat n) = raw_frame (view_packet view) integrity
    (mread m (span_data (fv_payload view)) (Z.to_nat (span_length (fv_payload view)))).
Proof.
  intros Ha Hby. unfold parsed. set (p := view_packet view). cbv zeta.
  intros (Hv & Hview & Hn & Hhd & Hbad). unfold raw_frame. cbv zeta.
  set (header := frame_write_header p (packet_header_len p)) in *.
  pose proof (frame_write_header_length p) as Hh. unfold local_len in Hh. fold header in Hh.
  pose proof (packet_header_len_cases p). pose proof (wl_profile_crc_size_le integrity).
  pose proof Hv as (Hl & _).
  assert (span_data (fv_payload view) = a + packet_header_len p) as -> by (by rewrite Hview).
  assert (span_length (fv_payload view) = pk_payload_len p) as -> by done.
  replace (Z.to_nat n) with (length header + Z.to_nat (pk_payload_len p)
    + Z.to_nat (wl_profile_crc_size integrity))%nat by lia.
  rewrite !mread_app, Hhd. rewrite Nat2Z.inj_add, Hh, !Z2Nat.id by lia. f_equal.
  apply frame_integrity_ok in Hbad; [|done|lia|].
  - rewrite Hbad. f_equal.
    replace (Z.to_nat (packet_header_len p + pk_payload_len p))
      with (length header + Z.to_nat (pk_payload_len p))%nat by lia.
    by rewrite mread_app, Hhd, Hh.
  - eapply mread_bytes_sub; [done|lia|lia].
Qed.

(** ** Lemmas: the fused decoder *)

Lemma crc16_copy_ok n m read write crc :
  write < read →
  crc16_copy n m read write crc
  = (cobs_copy n m read write, crc16_bytes crc (mread m read n)).
Proof.
  revert m read write crc. induction n as [|n IH]; intros m read write crc H; [done|].
  cbn [crc16_copy cobs_copy mread]. rewrite IH by lia. f_equal.
  rewrite mread_mset_out by lia. done.
Qed.

(** What the loop returns on the rest of its input. *)
Definition crc16_decode_spec (m : mem) (dst write crc : Z) (suf : list Z)
    (res : mem * (wl_err + Z * Z)) : Prop :=
  match suf, cobs_decoded suf with
  | [], _ => res = (m, inr (write, crc))
  | _, None => res.2 = inl WL_ERR_COBS_DECODE
  | _, Some d => ∃ m', res = (m', inr (write + Z.of_nat (length d), crc16_bytes crc d))
                 ∧ stored m m' dst d
  end.

(** Composition of one block's effect with that of the rest. *)
Lemma crc16_decode_spec_app m m1 dst write crc d1 t suf res :
  stored m m1 dst d1 →
  crc16_decode_spec m1 (dst + Z.of_nat (length d1)) (write + Z.of_nat (length d1))
    (crc16_bytes crc d1) (t :: suf) res →
  match cobs_decoded (t :: suf) with
  | None => res.2 = inl WL_ERR_COBS_DECODE
  | Some d => ∃ m', res = (m', inr (write + Z.of_nat (length (d1 ++ d)),
                                    crc16_bytes crc (d1 ++ d))) ∧ stored m m' dst (d1 ++ d)
  end.
Proof.
  unfold crc16_decode_spec. intros H1. destruct (cobs_decoded (t :: suf)) as [d|]; [|done].
  intros (m' & -> & H2). exists m'. split; [|by apply (stored_app _ m1)].
  rewrite length_app, crc16_bytes_app. do 3 f_equal. lia.
Qed.

Lemma crc16_decode_loop_ok n m encoded encoded_len read write crc suf :
  Forall is_byte suf → 0 <= write <= read → encoded_len < 2 ^ 63 →
  read + Z.of_nat (length suf) = encoded_len →
  mread m (encoded + read) (length suf) = suf → (length suf <= n)%nat →
  crc16_decode_spec m (encoded + write) write crc suf
    (cobs_crc16_decode_loop n m encoded encoded_len read write crc).
Proof.
  revert m read write crc suf. induction n as [|n IH];
    intros m read write crc suf Hby Hwr Hmax Hsum Hread Hn;
    destruct suf as [|c rest]; try done; try (simpl in Hn; lia).
  { simpl in *. by replace (read <? encoded_len) with false by lia. }
  cbn [length mread] in *. injection Hread as Hc Hrest.
  apply Forall_cons in Hby as [Hcb Hby]. unfold is_byte in Hcb.
  unfold crc16_decode_spec. rewrite cobs_decoded_cons. cbn [cobs_crc16_decode_loop]. cbv zeta.
  replace (read <? encoded_len) with true by lia. rewrite Hc.
  destruct (Z.eqb_spec c 0) as [->|Hc0]; [done|]. rewrite usize_id by sz_lia. cbn [orb].
  set (k := Z.to_nat (c - 1)).
  destruct (Z.gtb_spec (c - 1) (encoded_len - (read + 1))).
  { by replace (length rest <? k)%nat with true by lia. }
  replace (length rest <? k)%nat with false by lia.
  pose proof (length_drop rest k) as Hdl. pose proof (length_take_le rest k ltac:(lia)) as Htl.
  assert (Z.of_nat k = c - 1) as Hkz by lia.
  assert (mread m (encoded + (read + 1)) (length (take k rest)) = take k rest) as Ht.
  { rewrite <- Hrest, mread_take, mread_length. f_equal; lia. }
  pose proof (stored_copy m _ (encoded + write) _ Ht ltac:(lia)) as Hcopy.
  rewrite Htl in Ht, Hcopy. rewrite crc16_copy_ok, Ht by lia.
  set (m1 := cobs_copy _ _ _ _) in *.
  assert (mread m (encoded + read + 1 + Z.of_nat k) (length (drop k rest)) = drop k rest)
    as Hd by by apply mread_suffix.
  assert (∀ m2 dd, stored m m2 (encoded + write) dd → Z.of_nat (length dd) <= c →
    crc16_decode_spec m2 (encoded + write + Z.of_nat (length dd))
      (write + Z.of_nat (length dd)) (crc16_bytes crc dd) (drop k rest)
      (cobs_crc16_decode_loop n m2 encoded encoded_len (read + 1 + (c - 1))
         (write + Z.of_nat (length dd)) (crc16_bytes crc dd))) as Hgo.
  { intros m2 dd Hm2 Hdd.
    replace (encoded + write + Z.of_nat (length dd))
      with (encoded + (write + Z.of_nat (length dd))) by lia.
    apply IH; [by apply Forall_drop|lia|lia|lia| |lia].
    eapply stored_keeps; [done| |lia].
    by replace (encoded + (read + 1 + (c - 1))) with (encoded + read + 1 + Z.of_nat k) by lia. }
  replace (read + 1 + (c - 1) <? encoded_len) with (negb (length (drop k rest) =? 0)%nat) by lia.
  destruct (drop k rest) as [|t tail] eqn:Edrop; cbn [length Nat.eqb negb andb].
  - rewrite andb_false_r. specialize (Hgo m1 (take k rest) Hcopy ltac:(lia)).
    rewrite Htl, Hkz in Hgo. unfold crc16_decode_spec in Hgo. rewrite Hgo.
    exists m1. by rewrite Htl, Hkz.
  - rewrite andb_true_r. destruct (Z.eqb_spec c 255); cbn [negb].
    + specialize (Hgo m1 (take k rest) Hcopy ltac:(lia)).
      pose proof (crc16_decode_spec_app _ _ _ _ _ _ _ _ _ Hcopy Hgo) as Hres.
      rewrite Htl, Hkz in Hres.
      destruct (cobs_decoded (t :: tail)) as [d|]; [|done]. cbn [mbind option_bind]. done.
    + assert (stored m (mset m1 (encoded + (write + (c - 1))) 0) (encoded + write)
        (take k rest ++ [0])) as Hz.
      { apply (stored_app _ m1); [done|]. rewrite Htl, Hkz, <- Z.add_assoc.
        apply stored_set. }
      specialize (Hgo _ _ Hz ltac:(rewrite length_app, Htl; simpl; lia)).
      pose proof (crc16_decode_spec_app _ _ _ _ _ _ _ _ _ Hz Hgo) as Hres.
      rewrite length_app, Htl, crc16_bytes_app in Hres. cbn [length] in Hres.
      replace (write + Z.of_nat (k + 1)) with (write + (c - 1) + 1) in Hres by lia.
      change (crc16_bytes (crc16_bytes crc (take k rest)) [0]) with
        (wl_crc16_byte (crc16_bytes crc (take k rest)) 0) in Hres.
      destruct (cobs_decoded (t :: tail)) as [d|]; [|done]. cbn [mbind option_bind].
      by rewrite <- app_assoc in Hres.
Qed.

Lemma raw_frame_bytes packet integrity payload :
  packet_valid packet → Forall is_byte payload →
  Forall is_byte (raw_frame packet integrity payload).
Proof.
  intros Hv Hp. unfold raw_frame. cbv zeta.
  assert (Forall is_byte (frame_write_header packet (packet_header_len packet))) as Hh.
  { rewrite frame_write_header_fields by done.
    destruct (packet_valid_kind _ Hv) as [(_ & _ & -> & -> & _)|[(_ & _ & -> & -> & _)|
      (_ & _ & -> & -> & _)]]; simpl Z.eqb; cbv iota; rewrite !Forall_app; repeat split;
      first [by apply be_bytes_bytes | by_compute]. }
  apply Forall_app. split; [by apply Forall_app|]. unfold crc_trailer.
  rewrite write_u16_be_eq, write_u32_be_eq. split_ifs; [apply be_bytes_bytes..|done].
Qed.

(** Both stream decoders, on any input: what [cobs_decoded] says, then the
    parser on the decoded bytes. *)
Definition stream_decode_spec (m : mem) (integrity encoded : Z) (l : list Z) (v : Z)
    (res : mem * (wl_err + wl_frame_view)) : Prop :=
  match cobs_decoded l with
  | None => res.2 = inl WL_ERR_COBS_DECODE
  | Some d => ∃ m', stored m m' encoded d ∧
      res = (m', if Z.of_nat (length d) =? 0 then inl WL_ERR_INVALID_ARG
                 else frame_parse m' encoded (Z.of_nat (length d)) integrity
                        (wl_profile_crc_size integrity) None v)
  end.

Section StreamDecode.
Context (m : mem) (encoded len v : Z) (l : list Z).
Context (Henc : encoded ≠ NULL) (Hview : v ≠ NULL) (Hlen : 0 < len < 2 ^ 63).
Context (Hl : mread m encoded (Z.to_nat len) = l) (Hby : Forall is_byte l).

Lemma decode_cobs_generic_ok integrity :
  wl_profile_integrity_valid integrity = true →
  stream_decode_spec m integrity encoded l v
    (wl_frame_decode_cobs_generic m integrity encoded len v).
Proof.
  intros Hi. unfold wl_frame_decode_cobs_generic, stream_decode_spec, wl_cobs_decode_in_place.
  pose proof (wl_cobs_decode_ok m encoded len encoded len 1 l ltac:(done) Henc Henc Hlen
    ltac:(lia) ltac:(lia) Hl Hby) as Hd.
  destruct (cobs_decoded l) as [d|]; [|by rewrite Hd].
  destruct Hd as (m' & -> & Hst). exists m'. split; [done|]. cbn [is_ok bool_decide andb].
  destruct (Z.of_nat (length d) =? 0); [done|]. cbn. unfold wl_frame_decode.
  replace (v =? NULL) with false by sz_lia. replace (encoded =? NULL) with false by sz_lia.
  by rewrite Hi.
Qed.

Lemma decode_cobs_crc16_ok :
  stream_decode_spec m WL_INTEGRITY_CRC16 encoded l v
    (wl_frame_decode_cobs_crc16 m encoded len v).
Proof.
  unfold wl_frame_decode_cobs_crc16, stream_decode_spec.
  replace (v =? NULL) with false by sz_lia. replace (encoded =? NULL) with false by sz_lia.
  replace (len =? 0) with false by lia. cbn [orb].
  assert (length l = Z.to_nat len) as Hll by (by rewrite <- Hl, mread_length).
  pose proof (crc16_decode_loop_ok (Z.to_nat len) m encoded len 0 0 0xffff l Hby
    ltac:(lia) ltac:(lia) ltac:(lia)) as Hd.
  rewrite Z.add_0_r, Hll in Hd. specialize (Hd Hl ltac:(lia)).
  unfold crc16_decode_spec in Hd.
  destruct (cobs_crc16_decode_loop _ _ _ _ _ _ _) as [m1 r] eqn:El.
  destruct l as [|b bs] eqn:E; [simpl in Hll; lia|]. rewrite <- E in *.
  destruct (cobs_decoded l) as [d|] eqn:Ed; [|simpl in Hd; by subst r].
  destruct Hd as (m' & [= -> ->] & Hst). rewrite Z.add_0_l. exists m'. split; [done|].
  destruct (Z.eqb_spec (Z.of_nat (length d)) 0); [done|]. f_equal.
  change (wl_profile_crc_size WL_INTEGRITY_CRC16) with 2.
  destruct (Z.ltb_spec (Z.of_nat (length d)) 2).
  { unfold frame_parse. replace (v =? NULL) with false by sz_lia.
    replace (encoded =? NULL) with false by sz_lia. cbn [orb].
    by replace (Z.of_nat (length d) <? WL_FRAME_BASE_HEADER_SIZE + 2) with true
      by (unfold WL_FRAME_BASE_HEADER_SIZE; lia). }
  pose proof (cobs_decoded_bytes l d Hby Ed) as Hdb. destruct Hst as [Hr _].
  pose proof (frame_integrity_residue m' encoded (Z.of_nat (length d)) Henc ltac:(lia)) as Hres.
  rewrite Nat2Z.id, Hr in Hres. specialize (Hres Hdb).
  unfold frame_parse. by rewrite Hres.
Qed.
End StreamDecode.

(** ** Properties *)

(** What [wl_frame_encode] needs of its arguments to accept them. *)
Definition encode_args_ok (packet : wl_wire_packet) (envelope out out_len_ptr : Z) : Prop :=
  packet_valid packet ∧
  (pk_payload_len packet ≠ 0 → pk_payload packet ≠ NULL) ∧
  wl_profile_envelope_valid envelope = true ∧
  wl_profile_integrity_valid (pk_integrity packet) = true ∧
  out ≠ NULL ∧ out_len_ptr ≠ NULL.

Lemma wl_frame_encode_ok m packet envelope out out_cap p :
  encode_args_ok packet envelope out p →
  encode_result m out out_cap
    (wire_image packet envelope (pk_integrity packet)
       (mread m (pk_payload packet) (Z.to_nat (pk_payload_len packet))))
    (wl_frame_encode m (Some packet) envelope out out_cap p).
Proof.
  intros (Hv & Hpl & He & Hi & Ho & Hp). unfold wl_frame_encode.
  replace (p =? NULL) with false by sz_lia. rewrite He, Hi, frame_header_size_ok by done.
  replace (negb (pk_payload_len packet =? 0) && (pk_payload packet =? NULL)) with false
    by sz_lia. cbn [orb negb].
  pose proof Hv as (Hl & _).
  destruct (_ && _) eqn:E.
  - apply andb_true_iff in E as [Ee Ei]. apply Z.eqb_eq in Ee as ->, Ei as ->.
    by apply encode_cobs_crc16_ok.
  - by apply encode_bounded_ok.
Qed.

(** C18: for every valid packet, envelope and checksum, and wherever
    the payload lies relative to the output buffer, [wl_frame_encode] stores
    exactly the packet's wire image (the payload bytes as they were on entry) and
    nothing else, or, exactly when the image does not fit, reports the shortage
    and stores nothing. *)
Theorem wl_frame_encode_spec m packet envelope out out_cap p :
  encode_args_ok packet envelope out p →
  let image := wire_image packet envelope (pk_integrity packet)
                 (mread m (pk_payload packet) (Z.to_nat (pk_payload_len packet))) in
  if out_cap <? Z.of_nat (length image)
  then wl_frame_encode m (Some packet) envelope out out_cap p = (m, WL_ERR_BUF_TOO_SMALL, 0)
  else ∃ m', wl_frame_encode m (Some packet) envelope out out_cap p
             = (m', WL_OK, Z.of_nat (length image)) ∧
       mread m' out (length image) = image ∧
       ∀ x, x < out ∨ out + Z.of_nat (length image) <= x → m' x = m x.
Proof. apply wl_frame_encode_ok. Qed.

(** An overlapping example: the payload starts one byte into the output. *)
Lemma wl_frame_encode_spec_witness :
  let packet := mk_packet WL_PACKET_DATA WL_INTEGRITY_CRC16 0 0x1234 0 0 101 3 in
  ∃ m' n, wl_frame_encode (mwrite (λ _, 7) 101 [65; 0; 66]) (Some packet)
            WL_ENVELOPE_COBS_STREAM 100 64 1 = (m', WL_OK, n) ∧
    mread m' 100 (Z.to_nat n)
    = wire_image packet WL_ENVELOPE_COBS_STREAM WL_INTEGRITY_CRC16 [65; 0; 66].
Proof.
  intros packet. pose proof (wl_frame_encode_spec (mwrite (λ _, 7) 101 [65; 0; 66]) packet
    WL_ENVELOPE_COBS_STREAM 100 64 1) as H. cbv zeta in H.
  replace (64 <? _) with false in H by (vm_compute; reflexivity).
  destruct H as (m' & E & R & _).
  - unfold encode_args_ok, packet_valid. repeat split; try (left; by_compute); by_compute.
  - exists m'. eexists. split; [exact E|]. rewrite Nat2Z.id. exact R.
Defined.

(** a failing [wl_frame_encode] stores nothing and leaves
    [*out_len] zero, whatever its arguments. *)
Theorem wl_frame_encode_failure_atomic m packet envelope out out_cap p m' e n :
  wl_frame_encode m packet envelope out out_cap p = (m', e, n) → e ≠ WL_OK →
  m' = m ∧ n = 0.
Proof.
  unfold wl_frame_encode, wl_frame_encode_cobs_crc16, wl_frame_encode_generic,
    wl_frame_encode_bounded. intros E He.
  repeat match type of E with
  | context [if ?b then _ else _] => destruct b
  | context [match ?x with _ => _ end] => destruct x
  end; simplify_eq; done.
Qed.

Lemma wl_frame_encode_failure_atomic_witness :
  (wl_frame_encode (λ _, 7) (Some (mk_packet WL_PACKET_DATA WL_INTEGRITY_NONE 0 9 0 0 101 3))
     WL_ENVELOPE_NATIVE_PACKET 200 6 1).1.1 = (λ _, 7).
Proof.
  apply (wl_frame_encode_failure_atomic (λ _, 7)
    (Some (mk_packet WL_PACKET_DATA WL_INTEGRITY_NONE 0 9 0 0 101 3))
    WL_ENVELOPE_NATIVE_PACKET 200 6 1 _ WL_ERR_BUF_TOO_SMALL 0); [reflexivity|discriminate].
Defined.

(** C17: [wl_frame_decode] accepts a span exactly when it holds the
    raw frame of a valid packet (header, payload and the right checksum), and
    then its view has that packet's fields and points at its payload. *)
Theorem wl_frame_decode_spec m a n integrity v view :
  a ≠ NULL → v ≠ NULL → 0 <= n → wl_profile_integrity_valid integrity = true →
  Forall is_byte (mread m a (Z.to_nat n)) →
  wl_frame_decode m a n integrity v = inr view ↔
  ∃ packet payload, packet_valid packet ∧
    Z.of_nat (length payload) = pk_payload_len packet ∧
    mread m a (Z.to_nat n) = raw_frame packet integrity payload ∧
    view = frame_view_of packet integrity a.
Proof.
  intros Ha Hv Hn Hi Hby. unfold wl_frame_decode. rewrite Hi.
  replace (v =? NULL) with false by sz_lia. replace (a =? NULL) with false by sz_lia.
  cbn [orb negb]. split.
  - intros H. apply frame_parse_sound in H as [_ H]; [|done].
    exists (view_packet view). eexists. split; [apply H|].
    split; [|split; [by apply parsed_raw|apply H]].
    destruct H as ((Hl & _) & _). rewrite mread_length. simpl in *. lia.
  - intros (packet & payload & Hp & Hlen & Hraw & ->).
    assert (n = Z.of_nat (length (raw_frame packet integrity payload))) as ->.
    { rewrite <- Hraw, mread_length. lia. }
    apply frame_parse_complete; [done..|]. by rewrite Nat2Z.id in Hraw.
Qed.

Lemma wl_frame_decode_spec_witness :
  wl_frame_decode (mwrite (λ _, 7) 64 [0xa4; 0; 0x12; 0x34; 1; 2]) 64 6 WL_INTEGRITY_NONE 1
  = inr (frame_view_of (mk_packet WL_PACKET_DATA 0 0 0x1234 0 0 68 2) WL_INTEGRITY_NONE 64).
Proof.
  apply (wl_frame_decode_spec (mwrite (λ _, 7) 64 [0xa4; 0; 0x12; 0x34; 1; 2]) 64 6
    WL_INTEGRITY_NONE 1); [by_compute..|].
  exists (mk_packet WL_PACKET_DATA 0 0 0x1234 0 0 68 2), [1; 2].
  unfold packet_valid. repeat split; try (left; by_compute); by_compute.
Defined.

(** C19: on every input the fused COBS and CRC-16 decoder returns the
    result of the separate passes: same error or same view, and on success the
    same memory. *)
Theorem wl_frame_decode_cobs_crc16_equiv m encoded len v :
  encoded ≠ NULL → v ≠ NULL → 0 < len < 2 ^ 63 →
  Forall is_byte (mread m encoded (Z.to_nat len)) →
  let fused := wl_frame_decode_cobs_crc16 m encoded len v in
  let separate := wl_frame_decode_cobs_generic m WL_INTEGRITY_CRC16 encoded len v in
  fused.2 = separate.2 ∧
  (∀ view, fused.2 = inr view → ∀ x, fused.1 x = separate.1 x).
Proof.
  intros He Hv Hlen Hby fused separate.
  pose proof (decode_cobs_crc16_ok m encoded len v _ He Hv Hlen eq_refl Hby) as H1.
  pose proof (decode_cobs_generic_ok m encoded len v _ He Hv Hlen eq_refl Hby
    WL_INTEGRITY_CRC16 eq_refl) as H2.
  fold fused in H1. fold separate in H2. clearbody fused separate.
  unfold stream_decode_spec in *. destruct (cobs_decoded _) as [d|].
  - destruct H1 as (m1 & S1 & ->), H2 as (m2 & S2 & ->). cbn [fst snd].
    pose proof (stored_unique _ _ _ _ _ S1 S2) as Hm. split; [|done].
    destruct (_ =? 0); [done|]. by apply frame_parse_ext.
  - split; [congruence|]. intros view. by rewrite H1.
Qed.

Lemma wl_frame_decode_cobs_crc16_equiv_witness :
  (wl_frame_decode_cobs_crc16 (mwrite (λ _, 7) 100 [2; 0xa4; 4; 0x12; 0x34; 65; 2; 66; 9])
     100 9 1).2
  = (wl_frame_decode_cobs_generic (mwrite (λ _, 7) 100 [2; 0xa4; 4; 0x12; 0x34; 65; 2; 66; 9])
     WL_INTEGRITY_CRC16 100 9 1).2.
Proof.
  apply (wl_frame_decode_cobs_crc16_equiv
    (mwrite (λ _, 7) 100 [2; 0xa4; 4; 0x12; 0x34; 65; 2; 66; 9]) 100 9 1); by_compute.
Defined.

(** C16: a frame encoded for a byte stream is a run of non-zero
    bytes and one zero.  Handing the run to the stream decoder of a link with the
    same checksum yields the packet's fields and, at the view's payload pointer,
    the payload bytes. *)
Theorem wl_frame_stream_roundtrip m packet out out_cap p m1 k v :
  encode_args_ok packet WL_ENVELOPE_COBS_STREAM out p → v ≠ NULL →
  Forall is_byte (mread m (pk_payload packet) (Z.to_nat (pk_payload_len packet))) →
  wl_frame_encode m (Some packet) WL_ENVELOPE_COBS_STREAM out out_cap p = (m1, WL_OK, k) →
  Forall wire_byte (mread m1 out (Z.to_nat (k - 1))) ∧ m1 (out + (k - 1)) = 0 ∧
  ∃ m2, wl_link_decode_stream m1 (pk_integrity packet) out (k - 1) v
        = (m2, inr (frame_view_of packet (pk_integrity packet) out)) ∧
    mread m2 (out + packet_header_len packet) (Z.to_nat (pk_payload_len packet))
    = mread m (pk_payload packet) (Z.to_nat (pk_payload_len packet)).
Proof.
  intros Hargs Hv Hby Henc. pose proof (wl_frame_encode_ok m _ _ _ out_cap _ Hargs) as Hres.
  destruct Hargs as (Hval & _ & _ & Hi & Ho & _). pose proof Hval as (Hl & _).
  set (payload := mread m _ _) in *. set (raw := raw_frame packet (pk_integrity packet) payload).
  unfold encode_result, wire_image, envelope_bytes in Hres. rewrite Z.eqb_refl in Hres.
  fold raw in Hres. rewrite Henc in Hres. destruct (_ <? _); [done|].
  destruct Hres as (m' & [= <- ->] & [Hread Hfr]).
  apply mread_app_inv in Hread as [Hrun Hz]. simpl in Hz. injection Hz as Hz.
  rewrite length_app, Nat2Z.inj_add. change (Z.of_nat (length [0])) with 1.
  rewrite Z.add_simpl_r, Nat2Z.id, Hrun.
  pose proof (raw_frame_bytes packet (pk_integrity packet) payload Hval Hby) as Hrb. fold raw in Hrb.
  pose proof (cobs_enc_wire raw Hrb) as Hw. split; [done|]. split; [done|].
  pose proof (raw_frame_length m packet (pk_integrity packet) Hl) as Hrl. fold payload raw in Hrl.
  pose proof (raw_len_bound packet (pk_integrity packet) Hl) as Hbd. rewrite <- Hrl in Hbd.
  pose proof (cobs_enc_length raw) as Hce.
  assert (stream_decode_spec m1 (pk_integrity packet) out (cobs_enc raw) v
    (wl_link_decode_stream m1 (pk_integrity packet) out (Z.of_nat (length (cobs_enc raw))) v))
    as Hdec.
  { assert (Forall is_byte (cobs_enc raw)) as Hb.
    { eapply Forall_impl; [exact Hw|]. unfold wire_byte. intros; sz_lia. }
    unfold wl_link_decode_stream.
    destruct (Z.eqb_spec (pk_integrity packet) WL_INTEGRITY_CRC16) as [->|]; cbn [negb].
    - apply decode_cobs_crc16_ok; [done..|div_lia|by rewrite Nat2Z.id|done].
    - apply decode_cobs_generic_ok; [done..|div_lia|by rewrite Nat2Z.id|done|done]. }
  unfold stream_decode_spec in Hdec. rewrite cobs_decoded_enc in Hdec.
  destruct Hdec as (m2 & [Hst _] & ->). replace (Z.of_nat (length raw) =? 0) with false by lia.
  exists m2. split.
  - f_equal. apply frame_parse_complete; [done..| |done].
    unfold payload. rewrite mread_length. lia.
  - subst raw. unfold raw_frame in Hst. cbv zeta in Hst. rewrite <- app_assoc in Hst.
    apply mread_app_inv in Hst as [_ Hst]. apply mread_app_inv in Hst as [Hst _].
    pose proof (frame_write_header_length packet) as Hh. unfold local_len in Hh.
    rewrite Hh in Hst. unfold payload in Hst at 1. by rewrite mread_length in Hst.
Qed.

Lemma wl_frame_stream_roundtrip_witness :
  let packet := mk_packet WL_PACKET_DATA WL_INTEGRITY_CRC32C 1 0x1234 99 5 101 3 in
  let r := wl_frame_encode (mwrite (λ _, 7) 101 [65; 0; 66]) (Some packet)
             WL_ENVELOPE_COBS_STREAM 100 64 1 in
  r.1.2 = WL_OK ∧
  ∃ m2, wl_link_decode_stream r.1.1 WL_INTEGRITY_CRC32C 100 (r.2 - 1) 1
        = (m2, inr (frame_view_of packet WL_INTEGRITY_CRC32C 100)) ∧
    mread m2 116 3 = [65; 0; 66].
Proof.
  intros packet r. split; [vm_compute; reflexivity|].
  destruct (wl_frame_stream_roundtrip (mwrite (λ _, 7) 101 [65; 0; 66]) packet 100 64 1
    r.1.1 r.2 1) as (_ & _ & m2 & E & R).
  - unfold encode_args_ok, packet_valid.
    repeat split; try (left; repeat split; try right; by_compute); by_compute.
  - discriminate.
  - by_compute.
  - apply result_eta. vm_compute. reflexivity.
  - exists m2. split; [exact E|exact R].
Defined.
