(* ===== verification/RxRing.v ===== *)
(** The receive byte ring: [src/src/rx_ring_bipbuf.c].

    One producer (an interrupt handler, or a DMA engine working through claims)
    and one consumer share a buffer through two cursors that each range over
    twice the capacity.  The model has every operation of the file, each taken as
    a whole; the bytes the producer stores between a reservation and its commit
    are steps of their own.  A run of [ring_step] is a sequence of such steps of
    the two sides; the interleavings inside the operations, between one access to
    a cursor and the next, are the subject of [RingThreads].

    The contract is an unbounded byte queue: [ring_fifo] shows that in every
    state reached by whole operations the bytes handed to the consumer followed
    by the bytes still in the ring are exactly the bytes the producer published,
    in order. *)
From S2P Require Import Prelude.

(** ** State *)

(** [wl_rx_dma_claim_state_t] *)
Record dma_claim_state := mk_dma_claim {
  dc_cursor : Z;
  dc_length : Z;
  dc_published : Z;
  dc_token : Z;
  dc_active : bool;
}.

Definition dma_claim_zero : dma_claim_state := mk_dma_claim 0 0 0 0 false.

(** [wl_rx_bipbuf_state_t] *)
Record ring := mk_ring {
  memory : Z;
  capacity : Z;
  read_cursor : Z;
  write_cursor : Z;
  overflow_events : Z;
  find_read : Z;
  find_scanned : Z;
  find_offset : Z;
  find_valid : bool;
  find_found : bool;
  reservation_cursor : Z;
  reservation_length : Z;
  reservation_active : bool;
  dma_next_token : Z;
  dma_claim : dma_claim_state;
}.

#[export] Instance rebuild_dma_claim : Rebuild dma_claim_state := λ s,
  mk_dma_claim (dc_cursor s) (dc_length s) (dc_published s) (dc_token s) (dc_active s).
#[export] Instance fs_dc_published : FieldSet dc_published := _.

#[export] Instance rebuild_ring : Rebuild ring := λ s,
  mk_ring (memory s) (capacity s) (read_cursor s) (write_cursor s) (overflow_events s)
    (find_read s) (find_scanned s) (find_offset s) (find_valid s) (find_found s)
    (reservation_cursor s) (reservation_length s) (reservation_active s)
    (dma_next_token s) (dma_claim s).
#[export] Instance fs_read_cursor : FieldSet read_cursor := _.
#[export] Instance fs_write_cursor : FieldSet write_cursor := _.
#[export] Instance fs_overflow_events : FieldSet overflow_events := _.
#[export] Instance fs_find_read : FieldSet find_read := _.
#[export] Instance fs_find_scanned : FieldSet find_scanned := _.
#[export] Instance fs_find_offset : FieldSet find_offset := _.
#[export] Instance fs_find_valid : FieldSet find_valid := _.
#[export] Instance fs_find_found : FieldSet find_found := _.
#[export] Instance fs_reservation_cursor : FieldSet reservation_cursor := _.
#[export] Instance fs_reservation_length : FieldSet reservation_length := _.
#[export] Instance fs_reservation_active : FieldSet reservation_active := _.
#[export] Instance fs_dma_next_token : FieldSet dma_next_token := _.
#[export] Instance fs_dma_claim : FieldSet dma_claim := _.

(** A ring that was never initialized. *)
Definition ring_zero : ring :=
  mk_ring NULL 0 0 0 0 0 0 0 false false 0 0 false 0 dma_claim_zero.

(** ** Operations *)

Definition cursor_physical (capacity cursor : Z) : Z :=
  if cursor <? capacity then cursor else cursor - capacity.

Definition cursor_distance (period from to : Z) : Z :=
  if to >=? from then to - from else period - from + to.

Definition cursor_advance (period cursor length : Z) : Z :=
  if length >=? period - cursor then length - (period - cursor) else cursor + length.

Definition contiguous_length (capacity cursor available : Z) : Z :=
  let to_end := capacity - cursor_physical capacity cursor in
  if available <? to_end then available else to_end.

Definition find_dma_claim (s : ring) (token : Z) : option dma_claim_state :=
  if dc_active (dma_claim s) && (dc_token (dma_claim s) =? token)
  then Some (dma_claim s) else None.

Definition ring_ready (s : ring) : bool := negb ((memory s =? NULL) || (capacity s =? 0)).

(** [readable_snapshot] for given loads of the two cursors. *)
Definition snapshot_of (capacity read write : Z) : Z :=
  let readable := cursor_distance (capacity * 2) read write in
  if readable <=? capacity then readable else 0.

Definition readable_snapshot (s : ring) : Z :=
  snapshot_of (capacity s) (read_cursor s) (write_cursor s).

Definition wl_rx_ring_storage_size (usable_capacity : Z) : Z := usable_capacity.

(** [lock_free] is what [atomic_is_lock_free] answers on the platform. *)
Definition wl_rx_ring_init (lock_free : bool) (s : ring) (mem_ size : Z) : ring * wl_err :=
  if (mem_ =? NULL) || (size =? 0) || (size >? SIZE_MAX / 2) then (s, WL_ERR_INVALID_ARG)
  else
    let s := mk_ring mem_ size 0 0 0 0 0 0 false false 0 0 false 1 dma_claim_zero in
    if negb lock_free then (s, WL_ERR_NOT_SUPPORTED) else (s, WL_OK).

Definition wl_rx_ring_producer_note_overflow (s : ring) : ring :=
  if negb (ring_ready s) then s
  else s <| overflow_events := u32 (overflow_events s + 1) |>.

Definition wl_rx_ring_producer_reserve (s : ring) : ring * wl_err * wl_span :=
  if negb (ring_ready s) then (s, WL_ERR_NOT_INITIALIZED, mk_span NULL 0)
  else if reservation_active s || dc_active (dma_claim s)
  then (s, WL_ERR_INVALID_STATE, mk_span NULL 0)
  else
    let write := write_cursor s in
    let readable := cursor_distance (capacity s * 2) (read_cursor s) write in
    if readable >? capacity s then (s, WL_ERR_INVALID_STATE, mk_span NULL 0)
    else
      let len := contiguous_length (capacity s) write (capacity s - readable) in
      (s <| reservation_cursor := write |> <| reservation_length := len |>
         <| reservation_active := true |>,
       WL_OK, mk_span (memory s + cursor_physical (capacity s) write) len).

(** Result: code, span and token of the claim.  The two stores that move an empty
    ring are one assignment here and two steps in [RingThreads]. *)
Definition wl_rx_ring_dma_claim (s : ring) (maximum_length : Z)
    : ring * wl_err * (wl_span * Z) :=
  let none := (mk_span NULL 0, 0) in
  if maximum_length =? 0 then (s, WL_ERR_INVALID_ARG, none)
  else if negb (ring_ready s) then (s, WL_ERR_NOT_INITIALIZED, none)
  else if reservation_active s || dc_active (dma_claim s) then (s, WL_ERR_WOULD_BLOCK, none)
  else
    let normalize :=
      (write_cursor s =? read_cursor s) && (maximum_length <=? capacity s)
      && (contiguous_length (capacity s) (write_cursor s) (capacity s) <? maximum_length) in
    let reset := if write_cursor s <? capacity s then capacity s else 0 in
    let s := if normalize then s <| read_cursor := reset |> <| write_cursor := reset |>
             else s in
    let reserve := write_cursor s in
    let reserved := cursor_distance (capacity s * 2) (read_cursor s) reserve in
    if reserved >? capacity s then (s, WL_ERR_INVALID_STATE, none)
    else
      let len := contiguous_length (capacity s) reserve (capacity s - reserved) in
      let len := if len >? maximum_length then maximum_length else len in
      if len =? 0 then (s, WL_ERR_WOULD_BLOCK, none)
      else
        let token := if dma_next_token s =? 0 then 1 else dma_next_token s in
        (s <| dma_next_token := u32 (token + 1) |>
           <| dma_claim := mk_dma_claim reserve len 0 token true |>,
         WL_OK, (mk_span (memory s + cursor_physical (capacity s) reserve) len, token)).

Definition wl_rx_ring_dma_publish (s : ring) (token offset length : Z) : ring * wl_err :=
  if token =? 0 then (s, WL_ERR_INVALID_ARG)
  else if negb (ring_ready s) then (s, WL_ERR_NOT_INITIALIZED)
  else match find_dma_claim s token with
  | None => (s, WL_ERR_INVALID_STATE)
  | Some stored =>
      if negb (offset =? dc_published stored)
         || (length >? usize (dc_length stored - offset)) then (s, WL_ERR_INVALID_STATE)
      else
        let stored := stored <| dc_published := dc_published stored + length |> in
        (s <| dma_claim := stored |>
           <| write_cursor := cursor_advance (capacity s * 2) (dc_cursor stored)
                                (dc_published stored) |>, WL_OK)
  end.

Definition wl_rx_ring_dma_finish (s : ring) (token : Z) : ring * wl_err :=
  if token =? 0 then (s, WL_ERR_INVALID_ARG)
  else if negb (ring_ready s) then (s, WL_ERR_NOT_INITIALIZED)
  else match find_dma_claim s token with
  | None => (s, WL_ERR_INVALID_STATE)
  | Some _ => (s <| dma_claim := dma_claim_zero |>, WL_OK)
  end.

Definition wl_rx_ring_dma_abort (s : ring) : ring * wl_err :=
  if negb (ring_ready s) then (s, WL_ERR_NOT_INITIALIZED)
  else if reservation_active s then (s, WL_ERR_INVALID_STATE)
  else (wl_rx_ring_producer_note_overflow (s <| dma_claim := dma_claim_zero |>), WL_OK).

Definition wl_rx_ring_producer_commit (s : ring) (length : Z) : ring * wl_err :=
  if negb (ring_ready s) then (s, WL_ERR_NOT_INITIALIZED)
  else if negb (reservation_active s) then (s, WL_ERR_INVALID_STATE)
  else if length >? reservation_length s then (s, WL_ERR_INVALID_ARG)
  else
    (s <| write_cursor := cursor_advance (capacity s * 2) (reservation_cursor s) length |>
       <| reservation_cursor := 0 |> <| reservation_length := 0 |>
       <| reservation_active := false |>, WL_OK).

Definition wl_rx_ring_readable (s : ring) : Z :=
  if negb (ring_ready s) then 0 else readable_snapshot s.

Definition wl_rx_ring_consumer_overflow_pending (s : ring) : bool :=
  if negb (ring_ready s) then false else negb (overflow_events s =? 0).

Definition wl_rx_ring_consumer_peek (s : ring) : wl_span :=
  if negb (ring_ready s) then mk_span NULL 0
  else
    let readable := readable_snapshot s in
    if readable =? 0 then mk_span NULL 0
    else mk_span (memory s + cursor_physical (capacity s) (read_cursor s))
                 (contiguous_length (capacity s) (read_cursor s) readable).

Definition wl_rx_ring_has_space (s : ring) : bool :=
  negb (capacity s =? 0)
  && (cursor_distance (capacity s * 2) (read_cursor s) (write_cursor s) <? capacity s).

(** [memchr]: index of the first [value] among [n] bytes at [base]. *)
Fixpoint memchr (m : mem) (base value : Z) (n : nat) : option Z :=
  match n with
  | O => None
  | S n => if m base =? value then Some 0
           else option_map (Z.add 1) (memchr m (base + 1) value n)
  end.

(** The search loop of [wl_rx_ring_consumer_find].  Every pass that does not
    return reaches the physical end of the buffer or the end of the data, so two
    passes are enough; the third has nothing left to do. *)
Fixpoint find_loop (fuel : nat) (m : mem) (s : ring) (value offset readable : Z)
    : option Z :=
  match fuel with
  | O => None
  | S fuel =>
      if offset <? readable then
        let cursor := cursor_advance (capacity s * 2) (read_cursor s) offset in
        let length := contiguous_length (capacity s) cursor (readable - offset) in
        let base := memory s + cursor_physical (capacity s) cursor in
        match memchr m base value (Z.to_nat length) with
        | Some i => Some (offset + i)
        | None => find_loop fuel m s value (offset + length) readable
        end
      else None
  end.

(** Code and the offset stored on success. *)
Definition wl_rx_ring_consumer_find (m : mem) (s : ring) (value : Z) : ring * wl_err * Z :=
  if negb (ring_ready s) then (s, WL_ERR_NOT_INITIALIZED, 0)
  else
    let readable := readable_snapshot s in
    let cached := (value =? 0) && find_valid s && (find_read s =? read_cursor s)
                  && (find_scanned s <=? readable) in
    if cached && find_found s then (s, WL_OK, find_offset s)
    else
      let offset := if cached then find_scanned s else 0 in
      let s := if value =? 0
               then s <| find_valid := true |> <| find_read := read_cursor s |>
                      <| find_found := false |>
               else s in
      match find_loop 3 m s value offset readable with
      | Some i =>
          (if value =? 0
           then s <| find_offset := i |> <| find_found := true |>
                  <| find_scanned := readable |>
           else s, WL_OK, i)
      | None =>
          (if value =? 0 then s <| find_scanned := readable |> else s, WL_ERR_NO_DATA, 0)
      end.

Definition wl_rx_ring_consumer_copy (m : mem) (s : ring) (offset output length : Z)
    : mem * wl_err :=
  if (output =? NULL) && negb (length =? 0) then (m, WL_ERR_INVALID_ARG)
  else if negb (ring_ready s) then (m, WL_ERR_NOT_INITIALIZED)
  else
    let readable := readable_snapshot s in
    if (offset >? readable) || (length >? readable - offset) then (m, WL_ERR_NO_DATA)
    else if length =? 0 then (m, WL_OK)
    else
      let cursor := cursor_advance (capacity s * 2) (read_cursor s) offset in
      let first_length := contiguous_length (capacity s) cursor length in
      let m := memmove m output (memory s + cursor_physical (capacity s) cursor)
                 first_length in
      let m := if first_length <? length
               then memmove m (output + first_length) (memory s) (length - first_length)
               else m in
      (m, WL_OK).

Definition wl_rx_ring_consumer_consume (s : ring) (length : Z) : ring * wl_err :=
  if negb (ring_ready s) then (s, WL_ERR_NOT_INITIALIZED)
  else if length >? readable_snapshot s then (s, WL_ERR_NO_DATA)
  else
    (s <| find_valid := false |>
       <| read_cursor := cursor_advance (capacity s * 2) (read_cursor s) length |>, WL_OK).

Definition wl_rx_ring_consumer_take_overflow (s : ring) : ring * Z :=
  if negb (ring_ready s) then (s, 0)
  else (s <| overflow_events := 0 |>, overflow_events s).

(** ** Abstraction: the queue of readable bytes *)

(** Address of the byte [i] places after the read cursor. *)
Definition ring_addr (s : ring) (i : Z) : Z :=
  memory s + cursor_physical (capacity s) (cursor_advance (capacity s * 2) (read_cursor s) i).

Definition contents (m : mem) (s : ring) : list Z :=
  (λ i, m (ring_addr s (Z.of_nat i))) <$> seq 0 (Z.to_nat (readable_snapshot s)).

(** Both cursors are in range and at most a capacity apart. *)
Record ring_wf (s : ring) : Prop := {
  wf_memory : memory s ≠ NULL;
  wf_capacity : 0 < capacity s <= SIZE_MAX / 2;
  wf_read : 0 <= read_cursor s < capacity s * 2;
  wf_write : 0 <= write_cursor s < capacity s * 2;
  wf_distance : cursor_distance (capacity s * 2) (read_cursor s) (write_cursor s)
                <= capacity s;
}.

(** What the producer holds lies in the free part of the buffer. *)
Record producer_wf (s : ring) : Prop := {
  wf_reservation : reservation_active s = true →
    dc_active (dma_claim s) = false ∧ reservation_cursor s = write_cursor s ∧
    0 <= reservation_length s <= capacity s - readable_snapshot s ∧
    cursor_physical (capacity s) (write_cursor s) + reservation_length s <= capacity s;
  wf_claim : dc_active (dma_claim s) = true →
    0 <= dc_cursor (dma_claim s) < capacity s * 2 ∧
    write_cursor s = cursor_advance (capacity s * 2) (dc_cursor (dma_claim s))
                       (dc_published (dma_claim s)) ∧
    0 <= dc_published (dma_claim s) <= dc_length (dma_claim s) ∧
    dc_length (dma_claim s) - dc_published (dma_claim s)
      <= capacity s - readable_snapshot s ∧
    cursor_physical (capacity s) (dc_cursor (dma_claim s)) + dc_length (dma_claim s)
      <= capacity s;
}.

(** [first_at v l i]: position [i] holds the first [v] of [l]. *)
Definition first_at (v : Z) (l : list Z) (i : Z) : Prop :=
  0 <= i ∧ l !! Z.to_nat i = Some v ∧ Forall (λ b, b ≠ v) (take (Z.to_nat i) l).

(** The delimiter cache: it speaks about the current contents, or the read
    cursor was moved away from it by a normalization. *)
Definition cache_wf (m : mem) (s : ring) : Prop :=
  find_valid s = true →
  (find_read s ≠ read_cursor s ∧ cursor_physical (capacity s) (read_cursor s) = 0) ∨
  (find_read s = read_cursor s ∧ 0 <= find_scanned s <= readable_snapshot s ∧
   if find_found s
   then find_offset s < find_scanned s ∧ first_at 0 (contents m s) (find_offset s)
   else Forall (λ b, b ≠ 0) (take (Z.to_nat (find_scanned s)) (contents m s))).

Definition ring_inv (m : mem) (s : ring) : Prop :=
  ring_wf s ∧ producer_wf s ∧ cache_wf m s.

(** ** Lemmas: cursor arithmetic *)

Ltac cursor_lia :=
  unfold ring_addr, readable_snapshot, snapshot_of, contiguous_length, cursor_physical,
    cursor_distance, cursor_advance in *; cbn in *;
  repeat match goal with
  | |- context [if ?b then _ else _] => destruct b eqn:?
  | H : context [if ?b then _ else _] |- _ => destruct b eqn:?
  end; try lia.

Lemma ring_wf_ready s : ring_wf s → ring_ready s = true.
Proof. intros [H1 H2 _ _ _]. unfold ring_ready. sz_lia. Qed.

Lemma snapshot_distance s :
  ring_wf s →
  readable_snapshot s = cursor_distance (capacity s * 2) (read_cursor s) (write_cursor s) ∧
  0 <= readable_snapshot s <= capacity s.
Proof. intros [_ Hc Hr Hw Hd]. split; cursor_lia. Qed.

(** The distance is the only thing that matters about the write cursor. *)
Lemma snapshot_advance s n :
  ring_wf s → 0 <= n <= capacity s - readable_snapshot s →
  let w := cursor_advance (capacity s * 2) (write_cursor s) n in
  0 <= w < capacity s * 2 ∧
  cursor_distance (capacity s * 2) (read_cursor s) w = readable_snapshot s + n.
Proof. intros [_ Hc Hr Hw Hd] Hn. cursor_lia. Qed.

Lemma snapshot_retreat s n :
  ring_wf s → 0 <= n <= readable_snapshot s →
  let r := cursor_advance (capacity s * 2) (read_cursor s) n in
  0 <= r < capacity s * 2 ∧
  cursor_distance (capacity s * 2) r (write_cursor s) = readable_snapshot s - n.
Proof. intros [_ Hc Hr Hw Hd] Hn. cursor_lia. Qed.

Lemma ring_addr_range s i :
  ring_wf s → 0 <= i <= capacity s → memory s <= ring_addr s i < memory s + capacity s.
Proof. intros [_ Hc Hr Hw Hd] Hi. cursor_lia. Qed.

Lemma ring_addr_inj s i j :
  ring_wf s → 0 <= i < capacity s → 0 <= j < capacity s →
  ring_addr s i = ring_addr s j → i = j.
Proof. intros [_ Hc Hr Hw Hd] Hi Hj. cursor_lia. Qed.

(** The free bytes in front of the write cursor. *)
Lemma ring_addr_free s j :
  ring_wf s → 0 <= j → readable_snapshot s + j < capacity s →
  cursor_physical (capacity s) (write_cursor s) + j < capacity s →
  ring_addr s (readable_snapshot s + j)
  = memory s + cursor_physical (capacity s) (write_cursor s) + j.
Proof. intros [_ Hc Hr Hw Hd] Hj H1 H2. cursor_lia. Qed.

Lemma ring_addr_advance s n i :
  ring_wf s → 0 <= n → 0 <= i → n + i < capacity s →
  cursor_physical (capacity s)
    (cursor_advance (capacity s * 2) (cursor_advance (capacity s * 2) (read_cursor s) n) i)
  = cursor_physical (capacity s) (cursor_advance (capacity s * 2) (read_cursor s) (n + i)).
Proof. intros [_ Hc Hr Hw Hd] Hn Hi H. cursor_lia. Qed.

Lemma contiguous_bound c cursor avail :
  0 < c → 0 <= cursor < c * 2 → 0 <= avail →
  0 <= contiguous_length c cursor avail <= avail ∧
  cursor_physical c cursor + contiguous_length c cursor avail <= c.
Proof. intros. cursor_lia. Qed.

(** ** Lemmas: contents *)

Lemma contents_length m s :
  ring_wf s → Z.of_nat (length (contents m s)) = readable_snapshot s.
Proof.
  intros Hwf. destruct (snapshot_distance s Hwf). unfold contents.
  rewrite length_fmap, length_seq. lia.
Qed.

Lemma contents_lookup m s i :
  (i < Z.to_nat (readable_snapshot s))%nat →
  contents m s !! i = Some (m (ring_addr s (Z.of_nat i))).
Proof.
  intros Hi. unfold contents. rewrite list_lookup_fmap, lookup_seq_lt by done. done.
Qed.

Lemma contents_lookup_None m s i :
  ring_wf s → (Z.to_nat (readable_snapshot s) <= i)%nat → contents m s !! i = None.
Proof.
  intros Hwf Hi. apply lookup_ge_None_2. pose proof (contents_length m s Hwf). lia.
Qed.

(** A store outside the readable bytes does not change them. *)
Lemma contents_ext m m' s :
  (∀ i, 0 <= i < readable_snapshot s → m' (ring_addr s i) = m (ring_addr s i)) →
  contents m' s = contents m s.
Proof.
  intros H. apply list_fmap_ext. intros i x Hx. apply lookup_seq in Hx. apply H. lia.
Qed.

(** Moving the write cursor over [n] free bytes appends them. *)
Lemma contents_publish m s s' n :
  ring_wf s → memory s' = memory s → capacity s' = capacity s →
  read_cursor s' = read_cursor s →
  write_cursor s' = cursor_advance (capacity s * 2) (write_cursor s) n →
  0 <= n <= capacity s - readable_snapshot s →
  cursor_physical (capacity s) (write_cursor s) + n <= capacity s →
  ring_wf s' ∧ readable_snapshot s' = readable_snapshot s + n ∧
  contents m s' = contents m s
    ++ mread m (memory s + cursor_physical (capacity s) (write_cursor s)) (Z.to_nat n).
Proof.
  intros Hwf Em Ec Er Ew Hn Hend.
  destruct (snapshot_advance s n Hwf Hn) as [Hw Hd]. rewrite <- Ew in Hw, Hd.
  destruct (snapshot_distance s Hwf) as [_ Hrange].
  assert (ring_wf s') as Hwf'.
  { destruct Hwf. split; rewrite ?Em, ?Ec, ?Er; auto. lia. }
  assert (readable_snapshot s' = readable_snapshot s + n) as Hsnap.
  { destruct (snapshot_distance s' Hwf') as [-> _]. by rewrite Ec, Er. }
  split; [done|]. split; [done|]. apply list_eq. intros i.
  assert (∀ j, ring_addr s' j = ring_addr s j) as Haddr.
  { intros j. unfold ring_addr. by rewrite Em, Ec, Er. }
  pose proof (contents_length m s Hwf) as Hlen.
  destruct (decide (i < Z.to_nat (readable_snapshot s))%nat).
  - rewrite lookup_app_l by lia. rewrite !contents_lookup by lia. by rewrite Haddr.
  - rewrite lookup_app_r by lia.
    destruct (decide (i < Z.to_nat (readable_snapshot s + n))%nat).
    + rewrite contents_lookup by lia. rewrite mread_lookup by lia. rewrite Haddr.
      replace (Z.of_nat i) with (readable_snapshot s + (Z.of_nat i - readable_snapshot s)) by lia.
      rewrite ring_addr_free by (done || lia). do 2 f_equal. lia.
    + rewrite contents_lookup_None by (done || lia). symmetry. apply lookup_ge_None_2.
      rewrite mread_length. lia.
Qed.

(** Moving the read cursor over [n] readable bytes drops them. *)
Lemma contents_consume m s s' n :
  ring_wf s → memory s' = memory s → capacity s' = capacity s →
  write_cursor s' = write_cursor s →
  read_cursor s' = cursor_advance (capacity s * 2) (read_cursor s) n →
  0 <= n <= readable_snapshot s →
  ring_wf s' ∧ readable_snapshot s' = readable_snapshot s - n ∧
  contents m s' = drop (Z.to_nat n) (contents m s).
Proof.
  intros Hwf Em Ec Ew Er Hn.
  destruct (snapshot_retreat s n Hwf Hn) as [Hr Hd]. rewrite <- Er in Hr, Hd.
  destruct (snapshot_distance s Hwf) as [_ Hrange].
  assert (ring_wf s') as Hwf'.
  { destruct Hwf. split; rewrite ?Em, ?Ec, ?Ew; auto. lia. }
  assert (readable_snapshot s' = readable_snapshot s - n) as Hsnap.
  { destruct (snapshot_distance s' Hwf') as [-> _]. by rewrite Ec, Ew. }
  split; [done|]. split; [done|]. apply list_eq. intros i. rewrite lookup_drop.
  destruct (decide (i < Z.to_nat (readable_snapshot s - n))%nat).
  - rewrite !contents_lookup by lia. do 2 f_equal. unfold ring_addr. rewrite Em, Ec, Er.
    rewrite ring_addr_advance by (done || lia). do 3 f_equal. lia.
  - rewrite !contents_lookup_None by (done || lia). done.
Qed.

(** ** Preservation *)

Lemma inv_parts m s :
  ring_inv m s →
  ring_wf s ∧ producer_wf s ∧ cache_wf m s ∧ ring_ready s = true ∧
  readable_snapshot s = cursor_distance (capacity s * 2) (read_cursor s) (write_cursor s) ∧
  0 <= readable_snapshot s <= capacity s.
Proof.
  intros (H1 & H2 & H3). split_and!; auto using ring_wf_ready.
  all: by apply snapshot_distance.
Qed.

Section Preserve.
Context (m : mem) (s : ring).
Context (Hinv : ring_inv m s).

(** Growing contents keep the cache. *)
Lemma cache_grow s' l :
  find_valid s' = find_valid s → find_read s' = find_read s →
  find_scanned s' = find_scanned s → find_offset s' = find_offset s →
  find_found s' = find_found s → read_cursor s' = read_cursor s →
  capacity s' = capacity s → readable_snapshot s <= readable_snapshot s' →
  contents m s' = contents m s ++ l → cache_wf m s'.
Proof.
  destruct (inv_parts m s Hinv) as (Hwf & _ & Hc & _ & _ & Hr). unfold cache_wf in *.
  intros -> -> -> -> -> -> -> Hle -> Hv. destruct (Hc Hv) as [?|(E & Hs & Hf)]; [by left|].
  right. split; [done|]. split; [lia|]. pose proof (contents_length m s Hwf) as Hlen.
  destruct (find_found s).
  - destruct Hf as (Hlt & H0 & Hl & Hall). split; [done|]. split; [done|]. split.
    + by apply lookup_app_l_Some.
    + rewrite take_app_le by lia. done.
  - rewrite take_app_le by lia. done.
Qed.

Lemma reserve_inv s' e sp :
  wl_rx_ring_producer_reserve s = (s', e, sp) →
  ring_inv m s' ∧ contents m s' = contents m s.
Proof.
  destruct (inv_parts m s Hinv) as (Hwf & Hp & Hc & Hready & Hd & Hr).
  unfold wl_rx_ring_producer_reserve. rewrite Hready. cbn [negb].
  destruct (reservation_active s || dc_active (dma_claim s)) eqn:E; [intros [= <- <- <-]; done|].
  apply orb_false_iff in E as [_ Ec]. rewrite <- Hd.
  replace (readable_snapshot s >? capacity s) with false by lia.
  pose proof (contiguous_bound (capacity s) (write_cursor s) (capacity s - readable_snapshot s)
    ltac:(destruct Hwf; lia) (wf_write s Hwf) ltac:(lia)) as [Hb1 Hb2].
  intros [= <- <- <-]. split; [|done]. split_and!; [by destruct Hwf| |done].
  split; cbn; [|by rewrite Ec]. done.
Qed.

Lemma commit_inv s' e n :
  0 <= n → wl_rx_ring_producer_commit s n = (s', e) →
  ring_inv m s' ∧
  contents m s' = contents m s ++
    (if is_ok e then mread m (memory s + cursor_physical (capacity s) (write_cursor s))
                       (Z.to_nat n) else []).
Proof.
  destruct (inv_parts m s Hinv) as (Hwf & Hp & Hc & Hready & Hd & Hr).
  unfold wl_rx_ring_producer_commit. rewrite Hready. cbn [negb]. intros Hn.
  destruct (reservation_active s) eqn:Ea; [|intros [= <- <-]; by rewrite app_nil_r].
  destruct (wf_reservation s Hp Ea) as (Hdc & Hcur & Hlen & Hend). cbn [negb].
  destruct (Z.gtb_spec n (reservation_length s)); [intros [= <- <-]; by rewrite app_nil_r|].
  intros [= <- <-]. rewrite Hcur.
  set (s' := fs_reservation_active _ _). cbn [is_ok bool_decide].
  destruct (contents_publish m s s' n Hwf) as (Hwf' & Hs' & Hct); [done..|lia|lia|].
  split; [|exact Hct]. split; [done|]. split.
  - split; cbn; [done|by rewrite Hdc].
  - eapply cache_grow; [done..|lia|exact Hct].
Qed.

(** Normalization of an empty ring. *)
Lemma normalize_inv :
  write_cursor s = read_cursor s →
  reservation_active s = false → dc_active (dma_claim s) = false →
  cursor_physical (capacity s) (write_cursor s) ≠ 0 →
  let reset := if write_cursor s <? capacity s then capacity s else 0 in
  let s' := s <| read_cursor := reset |> <| write_cursor := reset |> in
  ring_inv m s' ∧ contents m s' = [] ∧ contents m s = [].
Proof.
  destruct (inv_parts m s Hinv) as (Hwf & Hp & Hc & Hready & Hd & Hr). intros Hew Hra Hdc Hph reset s'.
  assert (readable_snapshot s = 0 ∧ readable_snapshot s' = 0) as [H0 H0'].
  { destruct Hwf. subst reset s'. split.
    - clear -Hew wf_capacity0. cursor_lia.
    - clear -wf_capacity0. cursor_lia. }
  assert (0 <= reset < capacity s * 2) as Hreset.
  { destruct Hwf. subst reset. split_ifs; lia. }
  unfold ring_inv. split_and!.
  - destruct Hwf. split; cbn; auto. clearbody reset. cursor_lia.
  - split; cbn; by rewrite ?Hra, ?Hdc.
  - unfold cache_wf in *. cbn. intros Hv. left. destruct Hwf. subst reset.
    destruct (Hc Hv) as [(? & ?)|(-> & _)]; [congruence|].
    unfold cursor_physical in *. split_ifs; lia.
  - unfold contents. by rewrite H0'.
  - unfold contents. by rewrite H0.
Qed.

Lemma dma_claim_inv s' e r maxlen :
  0 <= maxlen → wl_rx_ring_dma_claim s maxlen = (s', e, r) →
  ring_inv m s' ∧ contents m s' = contents m s.
Proof.
  destruct (inv_parts m s Hinv) as (_ & _ & _ & Hready & _ & _).
  unfold wl_rx_ring_dma_claim. rewrite Hready. cbn [negb]. intros Hmax.
  destruct (Z.eqb_spec maxlen 0); [by intros [= <- <- <-]|].
  destruct (reservation_active s || dc_active (dma_claim s)) eqn:E;
    [by intros [= <- <- <-]|]. apply orb_false_iff in E as [Ea Ec]. cbv zeta.
  set (s1 := if _ && _ && _ then _ else s).
  assert (ring_inv m s1 ∧ contents m s1 = contents m s ∧ reservation_active s1 = false ∧
    dc_active (dma_claim s1) = false) as (Hinv1 & Hct & Ea1 & Ec1).
  { subst s1. destruct (_ && _ && _) eqn:En; [|done].
    assert (write_cursor s = read_cursor s) as Hew by lia.
    assert (cursor_physical (capacity s) (write_cursor s) ≠ 0) as Hph.
    { destruct Hinv as (Hwf & _ & _). destruct Hwf. cursor_lia. }
    destruct (normalize_inv Hew Ea Ec Hph) as (H1 & H2 & H3). by rewrite H2, H3. }
  destruct (inv_parts m s1 Hinv1) as (Hwf & Hp & Hc & _ & Hd & Hr). rewrite <- Hd.
  replace (readable_snapshot s1 >? capacity s1) with false by lia.
  pose proof (contiguous_bound (capacity s1) (write_cursor s1)
    (capacity s1 - readable_snapshot s1) ltac:(destruct Hwf; lia) (wf_write s1 Hwf) ltac:(lia))
    as [Hb1 Hb2].
  set (len := if _ >? maxlen then _ else _).
  assert (0 <= len <= contiguous_length (capacity s1) (write_cursor s1)
    (capacity s1 - readable_snapshot s1)) by (subst len; split_ifs; lia).
  destruct (Z.eqb_spec len 0); [by intros [= <- <- <-]|]. intros [= <- <- <-].
  split; [|by rewrite <- Hct]. split_and!; [by destruct Hwf| |done].
  split; cbn; [by rewrite Ea1|]. intros _.
  change (readable_snapshot (fs_dma_claim _ _)) with (readable_snapshot s1).
  split; [apply (wf_write _ Hwf)|]. split; [|split; [lia|split; [lia|]]].
  - destruct Hwf. cursor_lia.
  - lia.
Qed.

Lemma dma_publish_inv s' e token offset n :
  0 <= offset → 0 <= n → wl_rx_ring_dma_publish s token offset n = (s', e) →
  ring_inv m s' ∧
  contents m s' = contents m s ++
    (if is_ok e then mread m (memory s + cursor_physical (capacity s) (write_cursor s))
                       (Z.to_nat n) else []).
Proof.
  destruct (inv_parts m s Hinv) as (Hwf & Hp & Hc & Hready & Hd & Hr).
  unfold wl_rx_ring_dma_publish, find_dma_claim. rewrite Hready. cbn [negb]. intros Ho Hn.
  destruct (Z.eqb_spec token 0); [intros [= <- <-]; by rewrite app_nil_r|].
  destruct (dc_active (dma_claim s)) eqn:Ea; [|intros [= <- <-]; by rewrite app_nil_r].
  destruct (wf_claim s Hp Ea) as (Hcur & Hw & Hpub & Hlen & Hend). cbn [andb].
  destruct (dc_token (dma_claim s) =? token); [|intros [= <- <-]; by rewrite app_nil_r].
  destruct (_ || _) eqn:E; [intros [= <- <-]; by rewrite app_nil_r|].
  apply orb_false_iff in E as [Eo El].
  rewrite usize_id in El by (destruct Hwf; div_lia). intros [= <- <-].
  set (s' := fs_write_cursor _ _). cbn [is_ok bool_decide].
  assert (write_cursor s' = cursor_advance (capacity s * 2) (write_cursor s) n) as Hw'.
  { subst s'. cbn. rewrite Hw. destruct Hwf. cursor_lia. }
  assert (cursor_physical (capacity s) (write_cursor s) + n <= capacity s) as Hfit.
  { rewrite Hw. destruct Hwf. clear Hw'. cursor_lia. }
  destruct (contents_publish m s s' n Hwf) as (Hwf' & Hs' & Hct); [done..|lia|lia|].
  split; [|exact Hct]. split; [done|]. split.
  - split; cbn.
    + intros Hra. destruct (wf_reservation s Hp Hra) as (Hf & _). congruence.
    + intros _. split; [done|]. split; [done|]. split; [lia|].
      split; [rewrite Hs'; cbn; lia|done].
  - eapply cache_grow; [done..|lia|exact Hct].
Qed.

Lemma consume_inv s' e n :
  0 <= n → wl_rx_ring_consumer_consume s n = (s', e) →
  ring_inv m s' ∧
  contents m s' = (if is_ok e then drop (Z.to_nat n) (contents m s) else contents m s).
Proof.
  destruct (inv_parts m s Hinv) as (Hwf & Hp & Hc & Hready & Hd & Hr).
  unfold wl_rx_ring_consumer_consume. rewrite Hready. cbn [negb]. intros Hn.
  destruct (Z.gtb_spec n (readable_snapshot s)); [by intros [= <- <-]|]. intros [= <- <-].
  set (s' := fs_read_cursor _ _). cbn [is_ok bool_decide].
  destruct (contents_consume m s s' n Hwf) as (Hwf' & Hs' & Hct); [done..|lia|].
  split; [|exact Hct]. split; [done|]. split; [|done].
  split; cbn; intros Ha.
  - destruct (wf_reservation s Hp Ha) as (?&?&?&?). rewrite Hs'. cbn. split_and!; (done || lia).
  - destruct (wf_claim s Hp Ha) as (?&?&?&?&?). rewrite Hs'. cbn. split_and!; (done || lia).
Qed.

Lemma drop_claim_inv : ring_inv m (s <| dma_claim := dma_claim_zero |>).
Proof.
  destruct (inv_parts m s Hinv) as (Hwf & Hp & Hc & _). split_and!; [by destruct Hwf| |done].
  split; cbn; [|done]. intros Ha. destruct (wf_reservation s Hp Ha) as (_ & H).
  exact (conj eq_refl H).
Qed.

Lemma overflow_inv v : ring_inv m (s <| overflow_events := v |>).
Proof.
  destruct (inv_parts m s Hinv) as (Hwf & Hp & Hc & _).
  split_and!; [by destruct Hwf|by destruct Hp|done].
Qed.

(** The producer's own stores: anywhere outside the readable bytes. *)
Lemma store_inv m' :
  (∀ i, 0 <= i < readable_snapshot s → m' (ring_addr s i) = m (ring_addr s i)) →
  ring_inv m' s ∧ contents m' s = contents m s.
Proof.
  intros H. pose proof (contents_ext m m' s H) as E. split; [|done].
  destruct Hinv as (H1 & H2 & H3). split_and!; [done..|]. unfold cache_wf in *. by rewrite E.
Qed.
End Preserve.

(** ** Lemmas: the delimiter search *)

Lemma memchr_spec m base v n :
  match memchr m base v n with
  | Some i => 0 <= i < Z.of_nat n ∧ m (base + i) = v ∧ ∀ j, 0 <= j < i → m (base + j) ≠ v
  | None => ∀ j, 0 <= j < Z.of_nat n → m (base + j) ≠ v
  end.
Proof.
  revert base. induction n as [|n IH]; intros base; cbn [memchr]; [lia|].
  destruct (Z.eqb_spec (m base) v) as [E|E].
  - rewrite Z.add_0_r. split; [lia|]. split; [done|lia].
  - assert (∀ j, 0 < j → base + j = base + 1 + (j - 1)) as Hs by lia.
    specialize (IH (base + 1)). destruct (memchr m (base + 1) v n) as [i|]; cbn [option_map].
    + destruct IH as (Hi & Hm & Hall). split; [lia|].
      split; [rewrite Hs by lia; by replace (1 + i - 1) with i by lia|].
      intros j Hj. destruct (decide (j = 0)) as [->|]; [by rewrite Z.add_0_r|].
      rewrite Hs by lia. apply Hall. lia.
    + intros j Hj. destruct (decide (j = 0)) as [->|]; [by rewrite Z.add_0_r|].
      rewrite Hs by lia. apply IH. lia.
Qed.

(** Passes the search still needs from [offset]: none at the end of the data,
    one if the rest is contiguous, otherwise two. *)
Definition find_passes (s : ring) (offset readable : Z) : nat :=
  if readable <=? offset then 0
  else if readable - offset <=? capacity s - cursor_physical (capacity s)
            (cursor_advance (capacity s * 2) (read_cursor s) offset) then 1 else 2.

Lemma find_pass s offset :
  ring_wf s → 0 <= offset < readable_snapshot s →
  let cursor := cursor_advance (capacity s * 2) (read_cursor s) offset in
  let len := contiguous_length (capacity s) cursor (readable_snapshot s - offset) in
  0 < len <= readable_snapshot s - offset ∧
  (find_passes s (offset + len) (readable_snapshot s)
   < find_passes s offset (readable_snapshot s))%nat ∧
  ∀ j, 0 <= j < len → memory s + cursor_physical (capacity s) cursor + j
                      = ring_addr s (offset + j).
Proof.
  intros [_ Hc Hr Hw Hd] Ho cursor len. subst cursor len. unfold find_passes. split; [|split].
  - cursor_lia.
  - cursor_lia.
  - intros j Hj. cursor_lia.
Qed.

Lemma find_loop_ok fuel m s v offset :
  ring_wf s → 0 <= offset → offset <= readable_snapshot s →
  (find_passes s offset (readable_snapshot s) <= fuel)%nat →
  (∀ j, 0 <= j < offset → m (ring_addr s j) ≠ v) →
  match find_loop fuel m s v offset (readable_snapshot s) with
  | Some i => offset <= i < readable_snapshot s ∧ m (ring_addr s i) = v ∧
              ∀ j, 0 <= j < i → m (ring_addr s j) ≠ v
  | None => ∀ j, 0 <= j < readable_snapshot s → m (ring_addr s j) ≠ v
  end.
Proof.
  intros Hwf. revert offset. induction fuel as [|fuel IH]; intros offset H0 H1 Hf Hall;
    cbn [find_loop].
  { intros j Hj. apply Hall. unfold find_passes in Hf. split_ifs_in Hf; lia. }
  destruct (Z.ltb_spec offset (readable_snapshot s)); [|intros j Hj; apply Hall; lia].
  destruct (find_pass s offset Hwf ltac:(lia)) as (Hlen & Hp & Haddr). cbv zeta in *.
  set (len := contiguous_length _ _ _) in *. set (base := memory s + _) in *.
  pose proof (memchr_spec m base v (Z.to_nat len)) as Hm.
  destruct (memchr m base v (Z.to_nat len)) as [i|].
  - destruct Hm as (Hi & Hv & Hno). rewrite Haddr in Hv by lia. split; [lia|].
    split; [done|]. intros j Hj. destruct (decide (j < offset)); [apply Hall; lia|].
    replace j with (offset + (j - offset)) by lia. rewrite <- Haddr by lia. apply Hno. lia.
  - specialize (IH (offset + len) ltac:(lia) ltac:(lia) ltac:(lia)).
    destruct (find_loop fuel m s v (offset + len) (readable_snapshot s)) as [i|].
    + destruct IH as (Hi & Hv & Hno); [|split; [lia|done]].
      intros j Hj. destruct (decide (j < offset)); [apply Hall; lia|].
      replace j with (offset + (j - offset)) by lia. rewrite <- Haddr by lia. apply Hm. lia.
    + apply IH. intros j Hj. destruct (decide (j < offset)); [apply Hall; lia|].
      replace j with (offset + (j - offset)) by lia. rewrite <- Haddr by lia. apply Hm. lia.
Qed.

Lemma Forall_contents m s (P : Z → Prop) n :
  ring_wf s → 0 <= n <= readable_snapshot s →
  Forall P (take (Z.to_nat n) (contents m s)) ↔
  ∀ j, 0 <= j < n → P (m (ring_addr s j)).
Proof.
  intros Hwf Hn. rewrite Forall_lookup. split.
  - intros H j Hj. apply (H (Z.to_nat j)). rewrite lookup_take_lt by lia.
    rewrite contents_lookup by lia. do 2 f_equal. f_equal. lia.
  - intros H i x Hi. apply lookup_take_Some in Hi as [Hi Hlt].
    rewrite contents_lookup in Hi by lia. injection Hi as <-. apply H. lia.
Qed.

Lemma first_at_contents m s v i :
  ring_wf s → 0 <= i < readable_snapshot s →
  first_at v (contents m s) i ↔
  m (ring_addr s i) = v ∧ ∀ j, 0 <= j < i → m (ring_addr s j) ≠ v.
Proof.
  intros Hwf Hi. unfold first_at.
  rewrite contents_lookup, Z2Nat.id, (Forall_contents m s _ i) by (done || lia).
  split; [intros (_ & [= E] & H); done|]. intros (E & H). split; [lia|]. by rewrite E.
Qed.

Lemma find_loop_view fuel m s s' v offset readable :
  memory s' = memory s → capacity s' = capacity s → read_cursor s' = read_cursor s →
  find_loop fuel m s' v offset readable = find_loop fuel m s v offset readable.
Proof.
  intros E1 E2 E3. revert offset. induction fuel as [|fuel IH]; intros offset; [done|].
  cbn [find_loop]. rewrite E1, E2, E3. split_ifs; [|done].
  destruct (memchr _ _ _ _); [done|apply IH].
Qed.

Lemma find_loop_empty fuel m s v offset :
  0 <= offset → find_loop fuel m s v offset 0 = None.
Proof. intros H. destruct fuel; [done|]. cbn. by replace (offset <? 0) with false by lia. Qed.

(** What the search finds from any point before which there is no match. *)
Lemma find_loop_contents m s v offset :
  ring_wf s → 0 <= offset <= readable_snapshot s →
  Forall (λ b, b ≠ v) (take (Z.to_nat offset) (contents m s)) →
  match find_loop 3 m s v offset (readable_snapshot s) with
  | Some i => i < readable_snapshot s ∧ first_at v (contents m s) i
  | None => Forall (λ b, b ≠ v) (contents m s)
  end.
Proof.
  intros Hwf Ho Hall. rewrite Forall_contents in Hall by done.
  pose proof (find_loop_ok 3 m s v offset Hwf ltac:(lia) ltac:(lia)) as H.
  specialize (H ltac:(unfold find_passes; split_ifs; lia) Hall).
  destruct (find_loop 3 m s v offset _) as [i|].
  - destruct H as (Hi & H). split; [lia|]. apply first_at_contents; [done|lia|done].
  - pose proof (contents_length m s Hwf) as Hl.
    rewrite <- (firstn_all (contents m s)), <- (Nat2Z.id (length (contents m s))).
    rewrite Hl. apply Forall_contents; [done|lia|done].
Qed.

(** The ring after a search for the delimiter that was not answered from the
    cache. *)
Definition searched (s : ring) (offset : Z) (found : bool) : ring :=
  s <| find_valid := true |> <| find_read := read_cursor s |> <| find_found := found |>
    <| find_offset := offset |> <| find_scanned := readable_snapshot s |>.

(** The search, for a cache that is right whenever the search uses it. *)
Lemma find_general m s v s' e off :
  ring_wf s →
  (find_valid s = true → find_read s = read_cursor s → find_scanned s <= readable_snapshot s →
   0 <= find_scanned s ∧
   if find_found s then find_offset s < find_scanned s ∧ first_at 0 (contents m s) (find_offset s)
   else Forall (λ b, b ≠ 0) (take (Z.to_nat (find_scanned s)) (contents m s))) →
  wl_rx_ring_consumer_find m s v = (s', e, off) →
  ((e = WL_OK ∧ first_at v (contents m s) off) ∨
   (e = WL_ERR_NO_DATA ∧ off = 0 ∧ Forall (λ b, b ≠ v) (contents m s))) ∧
  (s' = s ∨ ∃ o f, s' = searched s o f ∧
     if f : bool then o < readable_snapshot s ∧ first_at 0 (contents m s) o
     else Forall (λ b, b ≠ 0) (contents m s)).
Proof.
  intros Hwf Hc. destruct (snapshot_distance s Hwf) as [_ Hr].
  unfold wl_rx_ring_consumer_find. rewrite (ring_wf_ready s Hwf). cbn [negb].
  set (cached := (v =? 0) && find_valid s && _ && _).
  assert (cached = true → v = 0 ∧ 0 <= find_scanned s <= readable_snapshot s ∧
    if find_found s then find_offset s < find_scanned s ∧
                         first_at 0 (contents m s) (find_offset s)
    else Forall (λ b, b ≠ 0) (take (Z.to_nat (find_scanned s)) (contents m s))) as Hcache.
  { intros E. subst cached. rewrite !andb_true_iff in E. destruct E as [[[E1 E2] E3] E4].
    apply Z.eqb_eq in E1, E3. apply Z.leb_le in E4. destruct (Hc E2 E3 E4). split_and!; done. }
  destruct (cached && find_found s) eqn:Ecf.
  { apply andb_true_iff in Ecf as [E1 E2]. destruct (Hcache E1) as (-> & _ & Hf).
    rewrite E2 in Hf. intros [= <- <- <-]. split; [|by left]. left. split; [done|apply Hf]. }
  cbv zeta. set (offset := if cached then find_scanned s else 0).
  set (s1 := if v =? 0 then _ else s).
  assert (0 <= offset <= readable_snapshot s ∧
    Forall (λ b, b ≠ v) (take (Z.to_nat offset) (contents m s))) as [Ho Hall].
  { subst offset. destruct cached; [|split; [lia|done]].
    destruct (Hcache eq_refl) as (-> & Hs & Hf). cbn in Ecf. rewrite Ecf in Hf. done. }
  rewrite (find_loop_view 3 m s s1) by (subst s1; by destruct (v =? 0)).
  pose proof (find_loop_contents m s v offset Hwf Ho Hall) as Hfind.
  destruct (find_loop 3 m s v offset (readable_snapshot s)) as [i|]; intros [= <- <- <-]; subst s1.
  - destruct Hfind as [Hi Hf]. split; [by left|].
    destruct (Z.eqb_spec v 0) as [->|Hv]; [|by left]. right. by exists i, true.
  - split; [by right|]. destruct (Z.eqb_spec v 0) as [->|Hv]; [|by left].
    right. by exists (find_offset s), false.
Qed.

Lemma find_inv m s v s' e off :
  ring_inv m s → wl_rx_ring_consumer_find m s v = (s', e, off) →
  ring_inv m s' ∧ contents m s' = contents m s ∧
  ((e = WL_OK ∧ first_at v (contents m s) off) ∨
   (e = WL_ERR_NO_DATA ∧ off = 0 ∧ Forall (λ b, b ≠ v) (contents m s))).
Proof.
  intros Hinv Hf. destruct (inv_parts m s Hinv) as (Hwf & Hp & Hc & _ & _ & Hr).
  destruct (find_general m s v s' e off Hwf) as [Hres Hpost]; [|done|].
  { intros Hv Er _. destruct (Hc Hv) as [[? _]|(_ & ? & ?)]; [done|]. split; [lia|done]. }
  destruct Hpost as [->|(o & f & -> & Ho)]; [done|]. split; [|done].
  split_and!; [by destruct Hwf|by destruct Hp|]. intros _. right. split; [done|].
  split; [cbn; change (readable_snapshot _) with (readable_snapshot s); lia|].
  destruct f; cbn; [exact Ho|by apply Forall_take].
Qed.

(** ** Lemmas: reading spans *)

Lemma contents_span m s off k :
  ring_wf s → 0 <= off → 0 <= k → off + k <= readable_snapshot s →
  cursor_physical (capacity s) (cursor_advance (capacity s * 2) (read_cursor s) off) + k
    <= capacity s →
  mread m (ring_addr s off) (Z.to_nat k)
  = take (Z.to_nat k) (drop (Z.to_nat off) (contents m s)).
Proof.
  intros Hwf Ho Hk Hle Hfit. destruct (snapshot_distance s Hwf) as [_ Hr].
  pose proof (contents_length m s Hwf) as Hlen. apply list_eq. intros i.
  destruct (decide (i < Z.to_nat k)%nat).
  - rewrite mread_lookup, lookup_take_lt, lookup_drop, contents_lookup by lia.
    do 2 f_equal. destruct Hwf as [_ Hc Hrd Hw Hd]. cursor_lia.
  - rewrite !lookup_ge_None_2; [done| |rewrite mread_length; lia].
    rewrite length_take, length_drop. lia.
Qed.

Lemma copy_ok m s off output len :
  ring_inv m s → 0 <= off → 0 <= len → output ≠ NULL →
  output + len <= memory s ∨ memory s + capacity s <= output →
  wl_rx_ring_consumer_copy m s off output len =
  (if off + len <=? readable_snapshot s
   then (mwrite m output (take (Z.to_nat len) (drop (Z.to_nat off) (contents m s))), WL_OK)
   else (m, WL_ERR_NO_DATA)).
Proof.
  intros Hinv Ho Hl Hout Hsep. destruct (inv_parts m s Hinv) as (Hwf & _ & _ & Hready & _ & Hr).
  unfold wl_rx_ring_consumer_copy. replace (output =? NULL) with false by sz_lia.
  rewrite Hready. cbn [andb negb].
  destruct (Z.leb_spec (off + len) (readable_snapshot s)).
  2: { destruct (Z.gtb_spec off (readable_snapshot s)); [done|cbn [orb]].
       by replace (len >? readable_snapshot s - off) with true by lia. }
  replace (off >? readable_snapshot s) with false by lia. cbn [orb].
  replace (len >? readable_snapshot s - off) with false by lia.
  destruct (Z.eqb_spec len 0) as [->|]; [done|]. cbv zeta.
  fold (ring_addr s off). set (first := contiguous_length _ _ _).
  set (cur := cursor_advance _ _ off) in *.
  assert (0 <= cur < capacity s * 2) as Hcur by (destruct Hwf; subst cur; cursor_lia).
  destruct (contiguous_bound (capacity s) cur len ltac:(destruct Hwf; lia) Hcur Hl)
    as [Hf1 Hf2]. fold first in Hf1, Hf2.
  unfold memmove. rewrite (contents_span m s off first) by (done || lia).
  destruct (Z.ltb_spec first len); [|by replace len with first by lia].
  f_equal. replace (take (Z.to_nat len) (drop (Z.to_nat off) (contents m s)))
    with (take (Z.to_nat first) (drop (Z.to_nat off) (contents m s))
          ++ take (Z.to_nat (len - first)) (drop (Z.to_nat (off + first)) (contents m s))).
  - pose proof (contents_length m s Hwf) as Hlen.
    rewrite mwrite_app, length_take, length_drop.
    replace (Z.of_nat (Z.to_nat first `min` (length (contents m s) - Z.to_nat off)))
      with first by lia. f_equal.
    rewrite mread_mwrite_out by (rewrite length_take, length_drop; destruct Hwf; lia).
    rewrite <- contents_span by (done || (try destruct Hwf; subst first cur; cursor_lia)).
    f_equal. destruct Hwf. subst first cur. cursor_lia.
  - replace (Z.to_nat (off + first)) with (Z.to_nat off + Z.to_nat first)%nat by lia.
    rewrite <- drop_drop. replace (Z.to_nat len) with
      (Z.to_nat first + Z.to_nat (len - first))%nat by lia.
    by rewrite take_take_drop.
Qed.

Lemma peek_ok m s :
  ring_inv m s →
  let sp := wl_rx_ring_consumer_peek s in
  mread m (span_data sp) (Z.to_nat (span_length sp))
  = take (Z.to_nat (span_length sp)) (contents m s) ∧
  (span_length sp = 0 ↔ contents m s = []).
Proof.
  intros Hinv. destruct (inv_parts m s Hinv) as (Hwf & _ & _ & Hready & _ & Hr).
  pose proof (contents_length m s Hwf) as Hlen.
  unfold wl_rx_ring_consumer_peek. rewrite Hready. cbn [negb].
  destruct (Z.eqb_spec (readable_snapshot s) 0) as [E|E].
  { cbn. split; [done|]. split; [|done]. intros _.
    destruct (contents m s); [done|cbn in Hlen; lia]. }
  cbn [span_data span_length].
  destruct (contiguous_bound (capacity s) (read_cursor s) (readable_snapshot s)
    ltac:(destruct Hwf; lia) (wf_read s Hwf) ltac:(lia)) as [Hc1 Hc2].
  set (k := contiguous_length _ _ _) in *.
  assert (cursor_advance (capacity s * 2) (read_cursor s) 0 = read_cursor s) as Ha
    by (destruct Hwf; cursor_lia).
  pose proof (contents_span m s 0 k Hwf ltac:(lia) ltac:(lia) ltac:(lia)) as Hs.
  unfold ring_addr in Hs. rewrite Ha in Hs. rewrite (Hs Hc2). split; [done|].
  assert (0 < k) by (destruct Hwf; subst k; cursor_lia). split; [lia|].
  intros Hn. rewrite Hn in Hlen. cbn in Hlen. lia.
Qed.

(** ** Runs of the two sides *)

(** Addresses the producer may store to: the reservation, or the unpublished
    part of the claim. *)
Definition producer_may_store (s : ring) (a : Z) : Prop :=
  (reservation_active s = true ∧
   let base := memory s + cursor_physical (capacity s) (reservation_cursor s) in
   base <= a < base + reservation_length s) ∨
  (dc_active (dma_claim s) = true ∧
   let base := memory s + cursor_physical (capacity s) (dc_cursor (dma_claim s)) in
   base + dc_published (dma_claim s) <= a < base + dc_length (dma_claim s)).

(** What a step publishes and what it hands to the consumer. *)
Record ring_event := mk_ring_event { published : list Z; handed : list Z }.
Definition silent : ring_event := mk_ring_event [] [].

(** Bytes published by a commit of [n] bytes that returned [e]. *)
Definition new_bytes (m : mem) (s : ring) (e : wl_err) (n : Z) : list Z :=
  if is_ok e then mread m (memory s + cursor_physical (capacity s) (write_cursor s))
                    (Z.to_nat n) else [].

Inductive ring_step : mem * ring → ring_event → mem * ring → Prop :=
  | step_reserve m s s' e sp :
      wl_rx_ring_producer_reserve s = (s', e, sp) → ring_step (m, s) silent (m, s')
  | step_store m s a v :
      producer_may_store s a → ring_step (m, s) silent (mset m a v, s)
  | step_other_store m s a v :
      a < memory s ∨ memory s + capacity s <= a → ring_step (m, s) silent (mset m a v, s)
  | step_commit m s n s' e :
      0 <= n → wl_rx_ring_producer_commit s n = (s', e) →
      ring_step (m, s) (mk_ring_event (new_bytes m s e n) []) (m, s')
  | step_dma_claim m s maxlen s' e r :
      0 <= maxlen → wl_rx_ring_dma_claim s maxlen = (s', e, r) →
      ring_step (m, s) silent (m, s')
  | step_dma_publish m s token offset n s' e :
      0 <= offset → 0 <= n → wl_rx_ring_dma_publish s token offset n = (s', e) →
      ring_step (m, s) (mk_ring_event (new_bytes m s e n) []) (m, s')
  | step_dma_finish m s token s' e :
      wl_rx_ring_dma_finish s token = (s', e) → ring_step (m, s) silent (m, s')
  | step_dma_abort m s s' e :
      wl_rx_ring_dma_abort s = (s', e) → ring_step (m, s) silent (m, s')
  | step_note_overflow m s :
      ring_step (m, s) silent (m, wl_rx_ring_producer_note_overflow s)
  | step_find m s v s' e off :
      wl_rx_ring_consumer_find m s v = (s', e, off) → ring_step (m, s) silent (m, s')
  | step_copy m s off output len m' e :
      0 <= off → 0 <= len → output ≠ NULL →
      output + len <= memory s ∨ memory s + capacity s <= output →
      wl_rx_ring_consumer_copy m s off output len = (m', e) →
      ring_step (m, s) silent (m', s)
  | step_consume m s n s' e :
      0 <= n → wl_rx_ring_consumer_consume s n = (s', e) →
      ring_step (m, s)
        (mk_ring_event [] (if is_ok e then take (Z.to_nat n) (contents m s) else [])) (m, s')
  | step_take_overflow m s s' n :
      wl_rx_ring_consumer_take_overflow s = (s', n) → ring_step (m, s) silent (m, s').

(** States reachable from initialization over [size] bytes at [base], with all
    bytes published and all bytes handed over so far. *)
Inductive ring_run (base size : Z) : mem * ring → list Z → list Z → Prop :=
  | run_init m s0 s :
      wl_rx_ring_init true s0 base size = (s, WL_OK) → ring_run base size (m, s) [] []
  | run_step c p q ev c' p' q' :
      ring_run base size c p q → ring_step c ev c' →
      p' = p ++ published ev → q' = q ++ handed ev → ring_run base size c' p' q'.

(** A free byte that is contiguous with the write cursor is not readable. *)
Lemma free_addr_clear s a i :
  ring_wf s → 0 <= i < readable_snapshot s →
  let w := memory s + cursor_physical (capacity s) (write_cursor s) in
  w <= a → a - w < capacity s - readable_snapshot s → a < memory s + capacity s →
  ring_addr s i ≠ a.
Proof.
  intros Hwf Hi w Hw Hfree Hend E. subst w.
  set (j := a - memory s - cursor_physical (capacity s) (write_cursor s)).
  assert (ring_addr s (readable_snapshot s + j) = a) as Hj
    by (rewrite ring_addr_free by (done || lia); lia).
  rewrite <- E in Hj. apply ring_addr_inj in Hj; [lia|done|lia|lia].
Qed.

Lemma producer_store_clear m s a i :
  ring_inv m s → producer_may_store s a → 0 <= i < readable_snapshot s → ring_addr s i ≠ a.
Proof.
  intros Hinv Ha Hi. destruct (inv_parts m s Hinv) as (Hwf & Hp & _ & _ & _ & Hr).
  destruct Ha as [[Hra Ha]|[Hdc Ha]]; cbv zeta in Ha.
  - destruct (wf_reservation s Hp Hra) as (_ & Hcur & Hlen & Hend). rewrite Hcur in Ha.
    apply (free_addr_clear s a i Hwf); lia.
  - destruct (wf_claim s Hp Hdc) as (Hcur & Hw & Hpub & Hlen & Hend).
    assert (dc_published (dma_claim s) < dc_length (dma_claim s)) as Hlt by lia.
    assert (cursor_physical (capacity s) (write_cursor s)
      = cursor_physical (capacity s) (dc_cursor (dma_claim s)) + dc_published (dma_claim s))
      as Hph by (rewrite Hw; destruct Hwf; clear Hi Hlen Hr; cursor_lia).
    apply (free_addr_clear s a i Hwf); lia.
Qed.

(** Every step keeps the invariant and acts on the contents as on a queue. *)
Lemma ring_step_inv c ev c' :
  ring_step c ev c' → ring_inv c.1 c.2 →
  ring_inv c'.1 c'.2 ∧ contents c.1 c.2 ++ published ev = handed ev ++ contents c'.1 c'.2.
Proof.
  intros Hstep Hinv.
  destruct Hstep as [m s s' e sp H|m s a v H|m s a v H|m s n s' e Hn H|m s maxlen s' e r Hn H
    |m s token offset n s' e Ho Hn H|m s token s' e H|m s s' e H|m s|m s v s' e off H
    |m s off output len m' e Ho Hl Hout Hsep H|m s n s' e Hn H|m s s' n H];
    cbn [fst snd published handed silent app] in *; rewrite ?app_nil_r; unfold new_bytes.
  - by eapply reserve_inv in H as [? ->].
  - destruct (store_inv m s Hinv (mset m a v)) as [? E]; [|by rewrite E].
    intros i Hi. apply mset_ne. by eapply producer_store_clear.
  - destruct (inv_parts _ _ Hinv) as (Hwf & _ & _ & _ & _ & Hr).
    destruct (store_inv m s Hinv (mset m a v)) as [? E]; [|by rewrite E].
    intros i Hi. apply mset_ne. pose proof (ring_addr_range s i Hwf ltac:(lia)). lia.
  - by eapply commit_inv in H as [? ->].
  - by eapply dma_claim_inv in H as [? ->].
  - by eapply dma_publish_inv in H as [? ->].
  - unfold wl_rx_ring_dma_finish in H. split_ifs_in H; simplify_eq; try done.
    by split; [apply drop_claim_inv|].
  - unfold wl_rx_ring_dma_abort, wl_rx_ring_producer_note_overflow in H.
    split_ifs_in H; simplify_eq; [done|done| |].
    + split; [by apply drop_claim_inv|done].
    + split; [by apply overflow_inv, drop_claim_inv|done].
  - unfold wl_rx_ring_producer_note_overflow. split_ifs; [done|].
    by split; [apply overflow_inv|].
  - eapply find_inv in H as (? & -> & _); [done|exact Hinv].
  - rewrite (copy_ok m s) in H by done. split_ifs_in H; simplify_eq; [|done].
    destruct (inv_parts _ _ Hinv) as (Hwf & _ & _ & _ & _ & Hr).
    pose proof (contents_length m s Hwf) as Hlen.
    destruct (store_inv m s Hinv (mwrite m output (take (Z.to_nat len)
      (drop (Z.to_nat off) (contents m s))))) as [? E']; [|by rewrite E'].
    intros i Hi. apply mwrite_out. rewrite length_take, length_drop.
    pose proof (ring_addr_range s i Hwf ltac:(lia)). lia.
  - eapply consume_inv in H as [? ->]; [|done..]. split; [done|].
    destruct (is_ok e); [by rewrite take_drop|done].
  - unfold wl_rx_ring_consumer_take_overflow in H. split_ifs_in H; simplify_eq; [done|].
    by split; [apply overflow_inv|].
Qed.

Lemma ring_init_inv m s0 base size s :
  wl_rx_ring_init true s0 base size = (s, WL_OK) → 0 <= size →
  ring_inv m s ∧ contents m s = [] ∧ memory s = base ∧ capacity s = size.
Proof.
  unfold wl_rx_ring_init. cbn [negb]. intros H Hs. split_ifs_in H. simplify_eq.
  split; [|split; [|done]].
  2: { unfold contents, readable_snapshot, snapshot_of, cursor_distance. cbn. by split_ifs. }
  split_and!; [|by split|done].
  split; cbn; [sz_lia|lia|lia|lia|]. unfold cursor_distance. cbn. lia.
Qed.

Lemma ring_run_inv base size c p q :
  0 <= size → ring_run base size c p q →
  ring_inv c.1 c.2 ∧ p = q ++ contents c.1 c.2.
Proof.
  intros Hs Hrun. induction Hrun as [m s0 s Hi|c p q ev c' p' q' Hrun [IH E] Hstep -> ->].
  - destruct (ring_init_inv m _ _ _ _ Hi Hs) as (? & E & _). cbn. by rewrite E.
  - destruct (ring_step_inv _ _ _ Hstep IH) as [Hinv Eq]. split; [done|].
    rewrite E, <- !app_assoc. by rewrite Eq.
Qed.

(** ** Properties *)

(** In every sequence of producer and consumer operations, each taken as a
    whole, the bytes handed to the consumer followed by the readable bytes are exactly the
    bytes published, in order: nothing is lost, duplicated or reordered, and
    never more than the capacity is readable. *)
Theorem ring_fifo base size m s p q :
  0 <= size → ring_run base size (m, s) p q →
  p = q ++ contents m s ∧ Z.of_nat (length (contents m s)) <= capacity s.
Proof.
  intros Hs Hrun. destruct (ring_run_inv _ _ _ _ _ Hs Hrun) as [Hinv E]. split; [done|].
  destruct (inv_parts _ _ Hinv) as (Hwf & _ & _ & _ & _ & Hr). cbn in *.
  rewrite (contents_length m s Hwf). lia.
Qed.

(** Extends a concrete run by one step. *)
Ltac ring_extend H step :=
  let H' := fresh in
  eassert (ring_run _ _ _ _ _) as H'
    by (eapply run_step; [exact H|step|reflexivity|reflexivity]);
  clear H; vm_compute in H'; rename H' into H.

(** Reserve, store two bytes, commit them, consume one. *)
Lemma ring_fifo_witness :
  ∃ m s, ring_run 100 4 (m, s) [7; 9] [7] ∧ contents m s = [9].
Proof.
  eassert (ring_run 100 4 _ _ _) as Hrun
    by (apply (run_init 100 4 (λ _, 0) ring_zero); reflexivity).
  ring_extend Hrun ltac:(eapply step_reserve; reflexivity).
  ring_extend Hrun ltac:(apply (step_store _ _ 100 7); left; split; [reflexivity|by_compute]).
  ring_extend Hrun ltac:(apply (step_store _ _ 101 9); left; split; [reflexivity|by_compute]).
  ring_extend Hrun ltac:(eapply (step_commit _ _ 2 _ WL_OK); [lia|reflexivity]).
  ring_extend Hrun ltac:(eapply (step_consume _ _ 1 _ WL_OK); [lia|reflexivity]).
  destruct (ring_fifo 100 4 _ _ _ _ ltac:(lia) Hrun) as [E _].
  do 2 eexists. split; [exact Hrun|].
  apply (app_inv_head [7]). symmetry. exact E.
Defined.

(** in every reachable state the cached delimiter search is right:
    it returns the offset of the first zero among the readable bytes, or reports
    that there is none. *)
Theorem ring_find_correct base size m s p q s' e off :
  0 <= size → ring_run base size (m, s) p q →
  wl_rx_ring_consumer_find m s 0 = (s', e, off) →
  (e = WL_OK ∧ first_at 0 (contents m s) off) ∨
  (e = WL_ERR_NO_DATA ∧ Forall (λ b, b ≠ 0) (contents m s)).
Proof.
  intros Hs Hrun Hf. destruct (ring_run_inv _ _ _ _ _ Hs Hrun) as [Hinv _].
  destruct (find_inv m s 0 s' e off Hinv Hf) as (_ & _ & [?|(? & _ & ?)]); [by left|by right].
Qed.

(** A search that fails, four more bytes, and a search served from the cache. *)
Lemma ring_find_correct_witness :
  ∃ m s, ring_run 100 4 (m, s) [5; 0] [] ∧ find_valid s = true ∧ find_scanned s = 1 ∧
    (wl_rx_ring_consumer_find m s 0).1.2 = WL_OK ∧
    first_at 0 (contents m s) (wl_rx_ring_consumer_find m s 0).2.
Proof.
  eassert (ring_run 100 4 _ _ _) as Hrun
    by (apply (run_init 100 4 (λ _, 0) ring_zero); reflexivity).
  ring_extend Hrun ltac:(eapply step_reserve; reflexivity).
  ring_extend Hrun ltac:(apply (step_store _ _ 100 5); left; split; [reflexivity|by_compute]).
  ring_extend Hrun ltac:(eapply (step_commit _ _ 1 _ WL_OK); [lia|reflexivity]).
  ring_extend Hrun ltac:(eapply (step_find _ _ 0); reflexivity).
  ring_extend Hrun ltac:(eapply step_reserve; reflexivity).
  ring_extend Hrun ltac:(eapply (step_commit _ _ 1 _ WL_OK); [lia|reflexivity]).
  do 2 eexists. split; [exact Hrun|]. split; [reflexivity|]. split; [reflexivity|].
  split; [reflexivity|].
  destruct (ring_find_correct 100 4 _ _ _ _ _ WL_OK 1 ltac:(lia) Hrun eq_refl)
    as [[_ H]|[H _]]; [exact H|discriminate H].
Defined.

(** in every reachable state a copy of [len] bytes from [off] fails
    exactly when that much is not readable, and otherwise stores the published
    bytes that follow the [off] next ones, across the wrap of the buffer, and
    touches nothing else. *)
Theorem ring_copy_correct base size m s p q off output len :
  0 <= size → ring_run base size (m, s) p q → 0 <= off → 0 <= len → output ≠ NULL →
  output + len <= memory s ∨ memory s + capacity s <= output →
  if off + len <=? Z.of_nat (length p - length q)
  then ∃ m', wl_rx_ring_consumer_copy m s off output len = (m', WL_OK) ∧
       mread m' output (Z.to_nat len)
         = take (Z.to_nat len) (drop (length q + Z.to_nat off) p) ∧
       ∀ x, x < output ∨ output + len <= x → m' x = m x
  else wl_rx_ring_consumer_copy m s off output len = (m, WL_ERR_NO_DATA).
Proof.
  intros Hs Hrun Ho Hl Hout Hsep. destruct (ring_run_inv _ _ _ _ _ Hs Hrun) as [Hinv E].
  cbn in Hinv, E. destruct (inv_parts _ _ Hinv) as (Hwf & _).
  pose proof (contents_length m s Hwf) as Hlen. rewrite (copy_ok m s) by done.
  rewrite E, length_app. replace (Z.of_nat (length q + length (contents m s) - length q))
    with (readable_snapshot s) by lia.
  destruct (Z.leb_spec (off + len) (readable_snapshot s)); [|done].
  eexists. split; [done|]. rewrite drop_app_add.
  set (l := take _ _). assert (Z.of_nat (length l) = len) as Hll.
  { subst l. rewrite length_take, length_drop. lia. }
  split; [apply mread_mwrite; lia|]. intros x Hx. apply mwrite_out. lia.
Qed.

Lemma ring_copy_correct_witness :
  ∃ m s, ring_run 100 4 (m, s) [7; 9] [7] ∧
    wl_rx_ring_consumer_copy m s 0 200 2 = (m, WL_ERR_NO_DATA).
Proof.
  eassert (ring_run 100 4 _ _ _) as Hrun
    by (apply (run_init 100 4 (mwrite (λ _, 0) 100 [7; 9]) ring_zero); reflexivity).
  ring_extend Hrun ltac:(eapply step_reserve; reflexivity).
  ring_extend Hrun ltac:(eapply (step_commit _ _ 2 _ WL_OK); [lia|reflexivity]).
  ring_extend Hrun ltac:(eapply (step_consume _ _ 1 _ WL_OK); [lia|reflexivity]).
  do 2 eexists. split; [exact Hrun|].
  refine (ring_copy_correct 100 4 _ _ _ _ 0 200 2 _ Hrun _ _ _ _); by_compute.
Defined.

(** moving an empty ring to a physical-zero epoch stores the
    read cursor first and the write cursor second.  A consumer that runs between
    the two stores finds nothing readable: its search fails, its peek is empty
    and it cannot consume. *)
Theorem ring_normalize_hidden m s :
  ring_inv m s → write_cursor s = read_cursor s →
  cursor_physical (capacity s) (write_cursor s) ≠ 0 →
  let reset := if write_cursor s <? capacity s then capacity s else 0 in
  let mid := s <| read_cursor := reset |> in
  wl_rx_ring_readable mid = 0 ∧ wl_rx_ring_consumer_peek mid = mk_span NULL 0 ∧
  (∀ v, (wl_rx_ring_consumer_find m mid v).1.2 = WL_ERR_NO_DATA) ∧
  (∀ n, 0 < n → wl_rx_ring_consumer_consume mid n = (mid, WL_ERR_NO_DATA)).
Proof.
  intros Hinv Hew Hph reset mid. destruct (inv_parts m s Hinv) as (Hwf & _ & Hc & Hready & _).
  assert (ring_ready mid = true) as Hr by exact Hready.
  assert (readable_snapshot mid = 0) as H0.
  { destruct Hwf. subst mid reset. cursor_lia. }
  assert (find_valid mid = true → find_read mid ≠ read_cursor mid) as Hstale.
  { cbn. intros Hv. destruct Hwf. subst reset.
    destruct (Hc Hv) as [(_ & ?)|(-> & _)]; [congruence|].
    unfold cursor_physical in *. split_ifs; lia. }
  unfold wl_rx_ring_readable, wl_rx_ring_consumer_peek, wl_rx_ring_consumer_consume,
    wl_rx_ring_consumer_find.
  rewrite Hr, H0. cbn [negb]. split; [done|]. split; [done|]. split.
  - intros v. destruct (_ && find_found mid) eqn:E.
    + exfalso. rewrite !andb_true_iff in E. destruct E as [[[[_ Ev] Er] _] _].
      by apply (Hstale Ev), Z.eqb_eq.
    + rewrite find_loop_empty; [done|].
      match goal with |- context [if ?b then _ else _] => destruct b eqn:Ec end; [|lia].
      exfalso. rewrite !andb_true_iff in Ec. destruct Ec as [[[_ Ev] Er] _].
      by apply (Hstale Ev), Z.eqb_eq.
  - intros n Hn. by replace (n >? 0) with true by lia.
Qed.

Lemma ring_normalize_hidden_witness :
  let s := mk_ring 100 4 3 3 0 0 0 0 false false 0 0 false 1 dma_claim_zero in
  wl_rx_ring_readable (s <| read_cursor := 4 |>) = 0.
Proof.
  intros s. apply (ring_normalize_hidden (λ _, 0) s).
  - split_and!; [|by split|done]. split; by_compute.
  - reflexivity.
  - discriminate.
Defined.
