(* ===== verification/RingThreads.v ===== *)
(** The receive ring under concurrent use: [src/src/rx_ring_bipbuf.c], one access
    to the shared cursors at a time.

    [RxRing] takes every operation as a whole.  Here the two sides interleave
    between their accesses to [read_cursor] and [write_cursor]: a consumer
    operation loads the write cursor, then the read cursor, computes on the two
    values and, if it is a consume, stores the read cursor; a DMA claim that
    moves an empty ring to a physical-zero epoch stores the read cursor and then
    the write cursor.  The accesses themselves take effect in one total order.
    Every other producer operation has a single access that the other side can
    tell: the load of the read cursor, or the store of the write cursor.

    [ring_threads_fifo] shows that the ring is a byte queue under all these
    interleavings as long as the consumer does not consume zero bytes, and that
    it is not one without this restriction. *)
From S2P Require Import Prelude RxRing.

(** ** The producer *)

(** The producer's operations other than a claim. *)
Inductive producer_op :=
  | PoReserve
  | PoCommit (length : Z)
  | PoPublish (token offset length : Z)
  | PoFinish (token : Z)
  | PoAbort
  | PoOverflow.

Definition producer_exec (m : mem) (s : ring) (op : producer_op) : ring * ring_event :=
  match op with
  | PoReserve => ((wl_rx_ring_producer_reserve s).1.1, silent)
  | PoCommit n =>
      let '(s1, e) := wl_rx_ring_producer_commit s n in (s1, mk_ring_event (new_bytes m s e n) [])
  | PoPublish token offset n =>
      let '(s1, e) := wl_rx_ring_dma_publish s token offset n in
      (s1, mk_ring_event (new_bytes m s e n) [])
  | PoFinish token => ((wl_rx_ring_dma_finish s token).1, silent)
  | PoAbort => ((wl_rx_ring_dma_abort s).1, silent)
  | PoOverflow => (wl_rx_ring_producer_note_overflow s, silent)
  end.

(** Lengths and offsets are of type [size_t]. *)
Definition producer_args (op : producer_op) : Prop :=
  match op with
  | PoCommit n => 0 <= n
  | PoPublish _ offset n => 0 <= offset ∧ 0 <= n
  | _ => True
  end.

(** Where the producer is: between operations, or inside a claim, about to store
    one of the two cursors. *)
Inductive producer_at :=
  | PIdle
  | PResetRead (maximum_length reset_cursor : Z)
  | PResetWrite (maximum_length reset_cursor : Z).

Definition no_claim : wl_span * Z := (mk_span NULL 0, 0).

(** The end of [wl_rx_ring_dma_claim], from the local copies of the cursors. *)
Definition claim_take (s : ring) (read reserve maximum_length : Z) : ring * wl_err * (wl_span * Z) :=
  let reserved := cursor_distance (capacity s * 2) read reserve in
  if reserved >? capacity s then (s, WL_ERR_INVALID_STATE, no_claim)
  else
    let len := contiguous_length (capacity s) reserve (capacity s - reserved) in
    let len := if len >? maximum_length then maximum_length else len in
    if len =? 0 then (s, WL_ERR_WOULD_BLOCK, no_claim)
    else
      let token := if dma_next_token s =? 0 then 1 else dma_next_token s in
      (s <| dma_next_token := u32 (token + 1) |>
         <| dma_claim := mk_dma_claim reserve len 0 token true |>,
       WL_OK, (mk_span (memory s + cursor_physical (capacity s) reserve) len, token)).

(** [wl_rx_ring_dma_claim] up to its first store to a cursor: it returns, or it
    has decided to move the empty ring. *)
Definition claim_enter (s : ring) (maximum_length : Z)
    : ring * wl_err * (wl_span * Z) + producer_at :=
  if maximum_length =? 0 then inl (s, WL_ERR_INVALID_ARG, no_claim)
  else if negb (ring_ready s) then inl (s, WL_ERR_NOT_INITIALIZED, no_claim)
  else if reservation_active s || dc_active (dma_claim s) then inl (s, WL_ERR_WOULD_BLOCK, no_claim)
  else
    let reserve := write_cursor s in
    let read := read_cursor s in
    if (reserve =? read) && (maximum_length <=? capacity s)
       && (contiguous_length (capacity s) reserve (capacity s) <? maximum_length)
    then inr (PResetRead maximum_length (if reserve <? capacity s then capacity s else 0))
    else inl (claim_take s read reserve maximum_length).

Definition claim_reset_read (s : ring) (reset_cursor : Z) : ring := s <| read_cursor := reset_cursor |>.

Definition claim_reset_write (s : ring) (maximum_length reset_cursor : Z)
    : ring * wl_err * (wl_span * Z) :=
  claim_take (s <| write_cursor := reset_cursor |>) reset_cursor reset_cursor maximum_length.

(** ** The consumer *)

Inductive consumer_op :=
  | CoReadable
  | CoPeek
  | CoFind (value : Z)
  | CoCopy (offset output length : Z)
  | CoConsume (length : Z).

(** Where the consumer is: between operations, or inside [readable_snapshot]
    after the load of the write cursor, or after both loads. *)
Inductive consumer_at :=
  | CIdle
  | CLoaded (op : consumer_op) (write : Z)
  | CSnap (op : consumer_op) (write read : Z).

(** The ring as the consumer has loaded it. *)
Definition as_loaded (s : ring) (write read : Z) : ring :=
  s <| write_cursor := write |> <| read_cursor := read |>.

(** The owner's private search cache, taken over from [v]. *)
Definition keep_cache (s v : ring) : ring :=
  s <| find_valid := find_valid v |> <| find_read := find_read v |> <| find_found := find_found v |>
    <| find_offset := find_offset v |> <| find_scanned := find_scanned v |>.

(** The rest of an operation after its loads: it computes on the loaded cursors,
    keeps its cache and, for a successful consume, stores the read cursor.  The
    bytes it reads are in the readable part, which the producer does not store
    to, so they may be read at any of its steps. *)
Definition consumer_finish (m : mem) (s : ring) (op : consumer_op) (write read : Z)
    : mem * ring * list Z :=
  let v := as_loaded s write read in
  match op with
  | CoReadable | CoPeek => (m, s, [])
  | CoFind value => (m, keep_cache s (wl_rx_ring_consumer_find m v value).1.1, [])
  | CoCopy offset output length => ((wl_rx_ring_consumer_copy m v offset output length).1, s, [])
  | CoConsume n =>
      let '(v1, e) := wl_rx_ring_consumer_consume v n in
      if is_ok e
      then (m, keep_cache s v1 <| read_cursor := read_cursor v1 |>, take (Z.to_nat n) (contents m v))
      else (m, s, [])
  end.

(** The output of a copy is not in the ring; [least] is the shortest length the
    consumer consumes. *)
Definition consumer_args (least : Z) (s : ring) (op : consumer_op) : Prop :=
  match op with
  | CoCopy offset output length =>
      0 <= offset ∧ 0 <= length ∧ output ≠ NULL ∧
      (output + length <= memory s ∨ memory s + capacity s <= output)
  | CoConsume n => least <= n
  | _ => True
  end.

(** ** Interleavings *)

Record threads := mk_threads {
  th_mem : mem;
  th_ring : ring;
  th_producer : producer_at;
  th_consumer : consumer_at;
}.

Inductive thread_step (least : Z) : threads → ring_event → threads → Prop :=
  | th_store m s p c a v :
      producer_may_store s a ∨ a < memory s ∨ memory s + capacity s <= a →
      thread_step least (mk_threads m s p c) silent (mk_threads (mset m a v) s p c)
  | th_produce m s c op s' ev :
      producer_args op → producer_exec m s op = (s', ev) →
      thread_step least (mk_threads m s PIdle c) ev (mk_threads m s' PIdle c)
  | th_claim m s c maxlen s' e r :
      0 <= maxlen → claim_enter s maxlen = inl (s', e, r) →
      thread_step least (mk_threads m s PIdle c) silent (mk_threads m s' PIdle c)
  | th_claim_enter m s c maxlen p :
      0 <= maxlen → claim_enter s maxlen = inr p →
      thread_step least (mk_threads m s PIdle c) silent (mk_threads m s p c)
  | th_claim_read m s c maxlen reset :
      thread_step least (mk_threads m s (PResetRead maxlen reset) c) silent
        (mk_threads m (claim_reset_read s reset) (PResetWrite maxlen reset) c)
  | th_claim_write m s c maxlen reset s' e r :
      claim_reset_write s maxlen reset = (s', e, r) →
      thread_step least (mk_threads m s (PResetWrite maxlen reset) c) silent (mk_threads m s' PIdle c)
  | th_load_write m s p op :
      consumer_args least s op →
      thread_step least (mk_threads m s p CIdle) silent
        (mk_threads m s p (CLoaded op (write_cursor s)))
  | th_load_read m s p op w :
      thread_step least (mk_threads m s p (CLoaded op w)) silent
        (mk_threads m s p (CSnap op w (read_cursor s)))
  | th_finish m s p op w r m' s' bytes :
      consumer_finish m s op w r = (m', s', bytes) →
      thread_step least (mk_threads m s p (CSnap op w r)) (mk_ring_event [] bytes)
        (mk_threads m' s' p CIdle)
  | th_take_overflow m s p s' n :
      wl_rx_ring_consumer_take_overflow s = (s', n) →
      thread_step least (mk_threads m s p CIdle) silent (mk_threads m s' p CIdle).

(** What both sides reach from initialization over [size] bytes at [base], with
    the bytes published and the bytes handed over so far. *)
Inductive thread_run (least base size : Z) : threads → list Z → list Z → Prop :=
  | thr_init m s0 s :
      wl_rx_ring_init true s0 base size = (s, WL_OK) →
      thread_run least base size (mk_threads m s PIdle CIdle) [] []
  | thr_step t p q ev t' p' q' :
      thread_run least base size t p q → thread_step least t ev t' →
      p' = p ++ published ev → q' = q ++ handed ev → thread_run least base size t' p' q'.

(** ** What the ring promises *)

(** An operation whose loads gave the ring [v] answers for the bytes of [v]. *)
Definition answers (m : mem) (v : ring) (op : consumer_op) : Prop :=
  let l := contents m v in
  match op with
  | CoReadable => wl_rx_ring_readable v = Z.of_nat (length l)
  | CoPeek =>
      let sp := wl_rx_ring_consumer_peek v in
      mread m (span_data sp) (Z.to_nat (span_length sp)) = take (Z.to_nat (span_length sp)) l ∧
      (span_length sp = 0 ↔ l = [])
  | CoFind value =>
      let '(_, e, off) := wl_rx_ring_consumer_find m v value in
      (e = WL_OK ∧ first_at value l off) ∨ (e = WL_ERR_NO_DATA ∧ Forall (λ b, b ≠ value) l)
  | CoCopy off output len =>
      wl_rx_ring_consumer_copy m v off output len =
      (if off + len <=? Z.of_nat (length l)
       then (mwrite m output (take (Z.to_nat len) (drop (Z.to_nat off) l)), WL_OK)
       else (m, WL_ERR_NO_DATA))
  | CoConsume n =>
      (wl_rx_ring_consumer_consume v n).2 = if n <=? Z.of_nat (length l) then WL_OK else WL_ERR_NO_DATA
  end.

(** Published is handed over plus readable; a consumer operation under way sees
    a prefix of the readable bytes and answers for it. *)
Definition queue_ok (t : threads) (p q : list Z) : Prop :=
  let m := th_mem t in let s := th_ring t in
  p = q ++ contents m s ∧ Z.of_nat (length (contents m s)) <= capacity s ∧
  match th_consumer t with
  | CSnap op w r => contents m (as_loaded s w r) `prefix_of` contents m s ∧ answers m (as_loaded s w r) op
  | _ => True
  end.

(** ** Lemmas: the claim in steps *)

(** Run without interference the steps of a claim are the claim. *)
Lemma claim_whole s maxlen :
  wl_rx_ring_dma_claim s maxlen =
  match claim_enter s maxlen with
  | inl x => x
  | inr (PResetRead n reset) => claim_reset_write (claim_reset_read s reset) n reset
  | inr _ => (s, WL_OK, no_claim)
  end.
Proof.
  unfold wl_rx_ring_dma_claim, claim_enter. destruct (_ =? 0); [done|]. destruct (negb _); [done|].
  destruct (_ || _); [done|]. cbv zeta. by destruct (_ && _ && _).
Qed.

Lemma claim_enter_take s maxlen s' e r :
  claim_enter s maxlen = inl (s', e, r) → wl_rx_ring_dma_claim s maxlen = (s', e, r).
Proof. intros H. by rewrite claim_whole, H. Qed.

Lemma claim_enter_reset s maxlen p :
  ring_wf s → 0 <= maxlen → claim_enter s maxlen = inr p →
  let reset := if write_cursor s <? capacity s then capacity s else 0 in
  p = PResetRead maxlen reset ∧ write_cursor s = read_cursor s ∧
  reservation_active s = false ∧ dc_active (dma_claim s) = false ∧ 0 < maxlen <= capacity s ∧
  cursor_physical (capacity s) (write_cursor s) ≠ 0.
Proof.
  intros Hwf Hm. unfold claim_enter. destruct (Z.eqb_spec maxlen 0); [done|].
  rewrite (ring_wf_ready s Hwf). cbn [negb].
  destruct (_ || _) eqn:E; [done|]. apply orb_false_iff in E as [Ea Ec]. cbv zeta.
  destruct (_ && _ && _) eqn:En; [|done]. intros [= <-]. rewrite !andb_true_iff in En.
  destruct En as [[E1 E2] E3]. apply Z.eqb_eq in E1. apply Z.leb_le in E2. apply Z.ltb_lt in E3.
  split_and!; try done; try lia. intros E. unfold contiguous_length in E3. rewrite E in E3.
  split_ifs_in E3; lia.
Qed.

(** The end of a claim on a ring that was moved is a claim on that ring. *)
Lemma claim_reset_take s maxlen reset :
  let s1 := s <| write_cursor := reset |> in
  ring_wf s1 → read_cursor s = reset → reset = 0 ∨ reset = capacity s →
  reservation_active s = false → dc_active (dma_claim s) = false → 0 < maxlen <= capacity s →
  claim_reset_write s maxlen reset = wl_rx_ring_dma_claim s1 maxlen.
Proof.
  intros s1 Hwf Hr Hreset Ha Hc Hm. rewrite claim_whole. unfold claim_enter.
  replace (maxlen =? 0) with false by lia. rewrite (ring_wf_ready s1 Hwf).
  change (reservation_active s1) with (reservation_active s).
  change (dma_claim s1) with (dma_claim s). rewrite Ha, Hc. cbn [negb orb]. cbv zeta.
  change (write_cursor s1) with reset. change (read_cursor s1) with (read_cursor s). rewrite Hr.
  change (capacity s1) with (capacity s).
  replace (contiguous_length (capacity s) reset (capacity s) <? maxlen) with false.
  - by rewrite andb_false_r.
  - symmetry. apply Z.ltb_ge. unfold contiguous_length, cursor_physical.
    destruct Hreset as [->| ->]; split_ifs; lia.
Qed.

(** ** Lemmas: what a snapshot shows *)

Lemma seen_prefix m s w n :
  ring_wf s → 0 <= n <= readable_snapshot s → w = cursor_advance (capacity s * 2) (read_cursor s) n →
  let v := as_loaded s w (read_cursor s) in
  ring_wf v ∧ readable_snapshot v = n ∧ contents m v = take (Z.to_nat n) (contents m s).
Proof.
  intros Hwf Hn Hw v. destruct (snapshot_distance s Hwf) as [Hd Hr].
  assert (0 <= w < capacity s * 2 ∧ cursor_distance (capacity s * 2) (read_cursor s) w = n) as [Hw1 Hw2].
  { subst w. destruct Hwf. clear Hd. cursor_lia. }
  assert (ring_wf v) as Hv by (destruct Hwf; split; cbn; auto; lia).
  destruct (snapshot_distance v Hv) as [Hdv _]. cbn in Hdv. rewrite Hw2 in Hdv.
  split; [done|]. split; [done|]. apply list_eq. intros i.
  destruct (decide (i < Z.to_nat n)%nat).
  - rewrite lookup_take_lt by done. rewrite !contents_lookup by lia. done.
  - rewrite contents_lookup_None by (done || lia). symmetry. apply lookup_ge_None_2.
    rewrite length_take. lia.
Qed.

(** A cache never claims more than it has scanned. *)
Definition cache_sane (s : ring) : Prop :=
  find_valid s = true → 0 <= find_scanned s ∧ (find_found s = true → 0 <= find_offset s < find_scanned s).

(** With nothing to see a search finds nothing. *)
Lemma find_nothing m v value :
  ring_ready v = true → readable_snapshot v = 0 → cache_sane v →
  ∃ v', wl_rx_ring_consumer_find m v value = (v', WL_ERR_NO_DATA, 0) ∧
        (v' = v ∨ v' = searched v (find_offset v) false).
Proof.
  intros Hr H0 Hc. unfold wl_rx_ring_consumer_find. rewrite Hr, H0. cbn [negb].
  set (cached := (value =? 0) && find_valid v && _ && _).
  assert (cached = true → find_valid v = true ∧ find_scanned v <= 0) as Hcached.
  { subst cached. rewrite !andb_true_iff. lia. }
  destruct (cached && find_found v) eqn:E.
  { apply andb_true_iff in E as [E1 E2]. destruct (Hcached E1) as [Ev Hs].
    destruct (Hc Ev) as [_ Hf]. specialize (Hf E2). lia. }
  cbv zeta. rewrite find_loop_empty.
  - eexists. split; [done|]. destruct (value =? 0); [right|by left]. unfold searched. by rewrite H0.
  - destruct cached; [|lia]. destruct (Hcached eq_refl) as [Ev _]. by destruct (Hc Ev).
Qed.

(** Operations that do not use the cache need only the cursors. *)
Definition bare (v : ring) : ring :=
  v <| find_valid := false |> <| reservation_active := false |> <| dma_claim := dma_claim_zero |>.

Lemma bare_inv m v : ring_wf v → ring_inv m (bare v).
Proof. intros Hwf. split_and!; [by destruct Hwf|by split|done]. Qed.

Lemma contents_none m v : readable_snapshot v = 0 → contents m v = [].
Proof. intros H. unfold contents. by rewrite H. Qed.

Lemma copy_none m v off output len :
  ring_ready v = true → readable_snapshot v = 0 → 0 <= off → 0 <= len → output ≠ NULL →
  wl_rx_ring_consumer_copy m v off output len =
  if off + len <=? 0 then (m, WL_OK) else (m, WL_ERR_NO_DATA).
Proof.
  intros Hr H0 Ho Hl Hout. unfold wl_rx_ring_consumer_copy. rewrite Hr, H0.
  replace (output =? NULL) with false by sz_lia. cbn [andb negb].
  destruct (Z.leb_spec (off + len) 0).
  - replace off with 0 by lia. replace len with 0 by lia. done.
  - destruct (Z.gtb_spec off 0); [done|]. cbn [orb]. by replace (len >? 0 - off) with true by lia.
Qed.

(** ** Invariant *)

(** Between the two stores of a claim the ring stands for the one that has both. *)
Definition logical (s : ring) (p : producer_at) : ring :=
  match p with PResetWrite _ reset => s <| write_cursor := reset |> | _ => s end.

Definition producer_ok (s : ring) (p : producer_at) : Prop :=
  match p with
  | PIdle => True
  | PResetRead maxlen reset =>
      reset = (if write_cursor s <? capacity s then capacity s else 0) ∧
      write_cursor s = read_cursor s ∧ reservation_active s = false ∧
      dc_active (dma_claim s) = false ∧ 0 < maxlen <= capacity s ∧
      cursor_physical (capacity s) (write_cursor s) ≠ 0
  | PResetWrite maxlen reset =>
      (reset = 0 ∨ reset = capacity s) ∧ read_cursor s = reset ∧ reservation_active s = false ∧
      dc_active (dma_claim s) = false ∧ 0 < maxlen <= capacity s ∧ readable_snapshot s = 0
  end.

(** A loaded write cursor is one the ring had since the last consume, or it dates
    from before the ring was moved, and then shows nothing. *)
Definition write_ok (l : ring) (w : Z) : Prop :=
  (∃ k, 0 <= k <= readable_snapshot l ∧ w = cursor_advance (capacity l * 2) (read_cursor l) k) ∨
  (cursor_physical (capacity l) (read_cursor l) = 0 ∧ snapshot_of (capacity l) (read_cursor l) w = 0).

(** A snapshot that shows bytes is one of the present ring. *)
Definition snap_ok (l : ring) (w r : Z) : Prop :=
  (snapshot_of (capacity l) r w = 0 ∧
   (r = read_cursor l ∨ cursor_physical (capacity l) (read_cursor l) = 0)) ∨
  (r = read_cursor l ∧ ∃ k, 0 < k <= readable_snapshot l ∧ w = cursor_advance (capacity l * 2) r k).

Definition consumer_ok (l : ring) (c : consumer_at) : Prop :=
  match c with
  | CIdle => True
  | CLoaded op w => consumer_args 1 l op ∧ write_ok l w
  | CSnap op w r => consumer_args 1 l op ∧ snap_ok l w r
  end.

Record threads_inv (t : threads) : Prop := {
  ti_ring : ring_inv (th_mem t) (logical (th_ring t) (th_producer t));
  ti_cache : cache_sane (th_ring t);
  ti_producer : producer_ok (th_ring t) (th_producer t);
  ti_consumer : consumer_ok (logical (th_ring t) (th_producer t)) (th_consumer t);
}.

(** What the producer does keeps what the consumer knows: the read cursor stays
    and more becomes readable. *)
Definition grows (l l' : ring) : Prop :=
  memory l' = memory l ∧ capacity l' = capacity l ∧ read_cursor l' = read_cursor l ∧
  readable_snapshot l <= readable_snapshot l'.

Lemma grows_consumer l l' c : grows l l' → consumer_ok l c → consumer_ok l' c.
Proof.
  intros (Em & Ec & Er & Hle). destruct c as [|op w|op w r]; [done| |]; cbn; intros [Ha Hw].
  - split; [by destruct op; cbn in *; rewrite ?Em, ?Ec|]. unfold write_ok in *. rewrite Ec, Er.
    destruct Hw as [(k & Hk & Hw)|Hw]; [left; exists k; split; [lia|done]|by right].
  - split; [by destruct op; cbn in *; rewrite ?Em, ?Ec|]. unfold snap_ok in *. rewrite Ec, Er.
    destruct Hw as [Hw|(Hr & k & Hk & Hw)]; [by left|right; split; [done|]; exists k; split; [lia|done]].
Qed.

(** The move of an empty ring leaves the consumer with a view of nothing. *)
Lemma moved_consumer s maxlen reset c :
  ring_wf s → producer_ok s (PResetRead maxlen reset) → consumer_ok s c →
  consumer_ok (s <| read_cursor := reset |> <| write_cursor := reset |>) c.
Proof.
  intros Hwf (Er & Ew & _ & _ & _ & Hph). destruct (snapshot_distance s Hwf) as [Hd _].
  assert (readable_snapshot s = 0) as H0 by (rewrite Hd, Ew; unfold cursor_distance; split_ifs; lia).
  assert (cursor_physical (capacity s) reset = 0) as Hp0.
  { rewrite Er. unfold cursor_physical. destruct Hwf. split_ifs; lia. }
  destruct c as [|op w|op w r]; [done| |]; cbn; intros [Ha Hw]; (split; [by destruct op|]).
  - right. cbn. split; [done|]. destruct Hw as [(k & Hk & Hw)|[Hz _]]; [|congruence].
    assert (k = 0) as -> by lia. subst w reset. destruct Hwf. clear Hd H0 Hk Hp0. cursor_lia.
  - left. cbn. destruct Hw as [[Hw _]|(_ & k & Hk & _)]; [|lia]. split; [done|by right].
Qed.

Lemma moved_hidden s maxlen reset :
  ring_wf s → producer_ok s (PResetRead maxlen reset) → readable_snapshot (s <| read_cursor := reset |>) = 0.
Proof. intros Hwf (-> & Ew & _ & _ & _ & Hph). destruct Hwf. cursor_lia. Qed.

(** ** The consumer's operations under way *)

Lemma snap_cases m l w r :
  ring_inv m l → snap_ok l w r →
  readable_snapshot (as_loaded l w r) = 0 ∨
  (r = read_cursor l ∧ ring_wf (as_loaded l w r) ∧
   ∃ k, 0 < k <= readable_snapshot l ∧ readable_snapshot (as_loaded l w r) = k ∧
        contents m (as_loaded l w r) = take (Z.to_nat k) (contents m l)).
Proof.
  intros (Hwf & _) [[H0 _]|(-> & k & Hk & Hw)]; [by left|right]. split; [done|].
  destruct (seen_prefix m l w k Hwf ltac:(lia) Hw) as (H1 & H2 & H3). split; [done|]. by exists k.
Qed.

(** What a search leaves in the cache of the ring it was made for. *)
Lemma first_at_take v l n i : first_at v (take n l) i → first_at v l i.
Proof.
  intros (H0 & [Hi Hlt]%lookup_take_Some & Hall). split; [done|]. split; [done|].
  by rewrite take_take, Nat.min_l in Hall by lia.
Qed.

(** The cache is right about a snapshot whenever a search would use it. *)
Lemma cache_seen m l w k :
  ring_inv m l → 0 < k <= readable_snapshot l →
  contents m (as_loaded l w (read_cursor l)) = take (Z.to_nat k) (contents m l) →
  find_valid l = true → find_read l = read_cursor l → find_scanned l <= k →
  0 <= find_scanned l ∧
  if find_found l
  then find_offset l < find_scanned l ∧ first_at 0 (contents m (as_loaded l w (read_cursor l))) (find_offset l)
  else Forall (λ b, b ≠ 0) (take (Z.to_nat (find_scanned l)) (contents m (as_loaded l w (read_cursor l)))).
Proof.
  intros Hinv Hk -> Hv Er Hs. destruct (inv_parts m l Hinv) as (Hwf & _ & Hc & _).
  destruct (Hc Hv) as [[? _]|(_ & Hsc & Hf)]; [done|]. split; [lia|]. destruct (find_found l).
  - destruct Hf as (Hlt & H0 & Hl & Hall). split; [done|]. split; [done|].
    rewrite lookup_take_lt by lia. split; [done|]. by rewrite take_take, Nat.min_l by lia.
  - by rewrite take_take, Nat.min_l by lia.
Qed.

Lemma find_seen m l w r value :
  ring_inv m l → cache_sane l → snap_ok l w r →
  let v := as_loaded l w r in
  let '(v', e, off) := wl_rx_ring_consumer_find m v value in
  ((e = WL_OK ∧ first_at value (contents m v) off) ∨
   (e = WL_ERR_NO_DATA ∧ Forall (λ b, b ≠ value) (contents m v))) ∧
  (v' = v ∨ ∃ o f, v' = searched v o f ∧
     if f : bool then o < readable_snapshot v ∧ first_at 0 (contents m v) o
     else Forall (λ b, b ≠ 0) (contents m v)).
Proof.
  intros Hinv Hcs Hsnap v. destruct (wl_rx_ring_consumer_find m v value) as [[v' e] off] eqn:Ef.
  destruct (snap_cases m l w r Hinv Hsnap) as [H0|(-> & Hwf & k & Hk & Hs & Hct)].
  - destruct (inv_parts m l Hinv) as (_ & _ & _ & Hready & _).
    destruct (find_nothing m v value Hready H0 Hcs) as (v1 & E & Hv1).
    rewrite E in Ef. simplify_eq. rewrite (contents_none m v H0). split; [by right|].
    destruct Hv1 as [->| ->]; [by left|right]. by exists (find_offset v), false.
  - destruct (find_general m v value v' e off Hwf) as [[H|(H1 & _ & H2)] Hpost]; [|done|..].
    + intros Hv Er. fold v in Hs. rewrite Hs. by apply (cache_seen m l w k).
    + split; [by left|done].
    + split; [by right|done].
Qed.

(** What an operation under way sees and what it will answer. *)
Lemma answers_ok m l w r op :
  ring_inv m l → cache_sane l → consumer_args 1 l op → snap_ok l w r →
  contents m (as_loaded l w r) `prefix_of` contents m l ∧ answers m (as_loaded l w r) op.
Proof.
  intros Hinv Hcs Ha Hsnap. pose proof (find_seen m l w r) as Hfind.
  pose proof (snap_cases m l w r Hinv Hsnap) as Hcases. set (v := as_loaded l w r) in *. destruct (inv_parts m l Hinv) as (_ & _ & _ & Hready & _).
  assert (ring_ready v = true) as Hrv by exact Hready.
  assert (∀ value, op = CoFind value → answers m v op) as Hf.
  { intros value ->. cbn. specialize (Hfind value Hinv Hcs Hsnap). cbv zeta in Hfind.
    by destruct (wl_rx_ring_consumer_find m v value) as [[v' e] off]; destruct Hfind. }
  destruct Hcases as [H0|(_ & Hwf & k & Hk & Hs & Hct)].
  - pose proof (contents_none m v H0) as Hn. split; [rewrite Hn; apply prefix_nil|].
    destruct op as [| |value|off output len|n]; [..|by eapply Hf| |]; cbn; rewrite ?Hn; cbn [length];
      change (Z.of_nat 0) with 0.
    + unfold wl_rx_ring_readable. by rewrite Hrv, H0.
    + unfold wl_rx_ring_consumer_peek. by rewrite Hrv, H0.
    + destruct Ha as (? & ? & ? & _). rewrite copy_none by done.
      rewrite drop_nil, take_nil. by destruct (off + len <=? 0).
    + unfold wl_rx_ring_consumer_consume. rewrite Hrv, H0. cbn in Ha. cbn [negb].
      replace (n >? 0) with true by lia. by replace (n <=? 0) with false by lia.
  - split; [rewrite Hct; apply prefix_take|].
    pose proof (contents_length m v Hwf) as Hlen.
    destruct op as [| |value|off output len|n]; [..|by eapply Hf| |]; cbn.
    + unfold wl_rx_ring_readable. by rewrite Hrv.
    + exact (peek_ok m (bare v) (bare_inv m v Hwf)).
    + destruct Ha as (? & ? & ? & ?). rewrite Hlen.
      by apply (copy_ok m (bare v) off output len (bare_inv m v Hwf)).
    + rewrite Hlen. unfold wl_rx_ring_consumer_consume. rewrite Hrv. cbn [negb].
      destruct (Z.gtb_spec n (readable_snapshot v)); destruct (Z.leb_spec n (readable_snapshot v)); done || lia.
Qed.

Lemma keep_cache_self l w r : keep_cache l (as_loaded l w r) = l.
Proof. by destruct l. Qed.

(** Storing the outcome of a search on a snapshot keeps the cache right about
    the ring as it is by then. *)
Lemma keep_searched m l w r o (f : bool) :
  ring_inv m l → snap_ok l w r →
  let v := as_loaded l w r in
  (if f then o < readable_snapshot v ∧ first_at 0 (contents m v) o
   else Forall (λ b, b ≠ 0) (contents m v)) →
  let l' := keep_cache l (searched v o f) in
  ring_inv m l' ∧ cache_sane l' ∧ contents m l' = contents m l.
Proof.
  intros Hinv Hsnap v Ho l'. destruct (inv_parts m l Hinv) as (Hwf & Hp & _ & _ & _ & Hr).
  assert (0 <= readable_snapshot v ∧
    (r = read_cursor l ∧ readable_snapshot v <= readable_snapshot l ∧
     contents m v = take (Z.to_nat (readable_snapshot v)) (contents m l) ∨
     r ≠ read_cursor l ∧ cursor_physical (capacity l) (read_cursor l) = 0)) as [H0 Hcase].
  { destruct (snap_cases m l w r Hinv Hsnap) as [H0|(-> & _ & k & Hk & Hs & Hct)].
    - change (readable_snapshot v = 0) in H0. rewrite H0. split; [lia|]. destruct (decide (r = read_cursor l)) as [->|Hne].
      + left. split_and!; [done|lia|]. by rewrite (contents_none m v H0).
      + right. split; [done|]. by destruct Hsnap as [[_ [?|?]]|[? _]].
    - subst v. rewrite Hs. split; [lia|]. left. split_and!; [done|lia|done]. }
  split; [|split; [|done]].
  - split_and!; [by destruct Hwf|by destruct Hp|]. intros _. cbn.
    change (contents m l') with (contents m l). change (readable_snapshot l') with (readable_snapshot l).
    destruct Hcase as [(Hrd & Hle & Hct)|?]; [right|by left].
    split; [done|]. split; [lia|]. rewrite Hct in Ho. destruct f; [|done].
    destruct Ho as [Hlt Hf]. split; [done|]. by eapply first_at_take.
  - intros _. cbn. split; [done|]. intros ->. destruct Ho as [Hlt [Hge _]]. by split.
Qed.

(** A consume that finds its bytes in the snapshot is one of the present ring. *)
Lemma consume_seen m l w r n v1 :
  ring_inv m l → snap_ok l w r → 1 <= n →
  wl_rx_ring_consumer_consume (as_loaded l w r) n = (v1, WL_OK) →
  n <= Z.of_nat (length (contents m (as_loaded l w r))) →
  let l' := keep_cache l v1 <| read_cursor := read_cursor v1 |> in
  ring_inv m l' ∧ cache_sane l' ∧
  contents m l = take (Z.to_nat n) (contents m (as_loaded l w r)) ++ contents m l' ∧ 0 < readable_snapshot l.
Proof.
  intros Hinv Hsnap Ha Ec Hn l'.
  destruct (snap_cases m l w r Hinv Hsnap) as [H0|(-> & Hwf & k & Hk & Hs & Hct)].
  { rewrite (contents_none m _ H0) in Hn. cbn in Hn. lia. }
  rewrite (contents_length m _ Hwf), Hs in Hn.
  destruct (inv_parts m l Hinv) as (_ & _ & _ & Hready & _).
  assert (wl_rx_ring_consumer_consume l n = (l', WL_OK) ∧ find_valid l' = false) as [El Hv].
  { unfold wl_rx_ring_consumer_consume in Ec |- *.
    change (ring_ready (as_loaded l w (read_cursor l))) with (ring_ready l) in Ec. rewrite Hready, Hs in Ec.
    rewrite Hready. cbn [negb] in Ec |- *. replace (n >? k) with false in Ec by lia.
    replace (n >? readable_snapshot l) with false by lia. subst l'. injection Ec as <-. by destruct l. }
  destruct (consume_inv m l Hinv l' WL_OK n ltac:(lia) El) as [Hi Hc]. change (is_ok WL_OK) with true in Hc.
  split; [done|]. split; [intros E; congruence|]. split; [|lia].
  rewrite Hct, take_take, Nat.min_l by lia. rewrite Hc. by rewrite take_drop.
Qed.

(** A consumer operation acts on the ring as on a queue. *)
Lemma finish_ok m l op w r m' l' bytes :
  ring_inv m l → cache_sane l → consumer_args 1 l op → snap_ok l w r →
  consumer_finish m l op w r = (m', l', bytes) →
  ring_inv m' l' ∧ cache_sane l' ∧ contents m l = bytes ++ contents m' l'.
Proof.
  intros Hinv Hcs Ha Hsnap. destruct (answers_ok m l w r op Hinv Hcs Ha Hsnap) as [Hpre Hans].
  destruct op as [| |value|off output len|n]; cbn [consumer_finish]; cbv zeta.
  - intros [= <- <- <-]. split_and!; auto.
  - intros [= <- <- <-]. split_and!; auto.
  - pose proof (find_seen m l w r value Hinv Hcs Hsnap) as Hf. cbv zeta in Hf.
    destruct (wl_rx_ring_consumer_find m (as_loaded l w r) value) as [[v' e] o]. cbn [fst].
    destruct Hf as [_ [->|(o' & f & -> & Hf)]]; intros [= <- <- <-].
    + rewrite keep_cache_self. split_and!; auto.
    + destruct (keep_searched m l w r o' f Hinv Hsnap Hf) as (H1 & H2 & H3). split_and!; auto.
  - cbn in Ha, Hans. rewrite Hans. destruct Ha as (Ho & Hl & Hout & Hsep).
    destruct (Z.leb_spec (off + len) (Z.of_nat (length (contents m (as_loaded l w r)))));
      intros [= <- <- <-]; [|split_and!; auto].
    destruct (inv_parts m l Hinv) as (Hwf & _ & _ & _ & _ & Hr).
    match goal with |- ring_inv ?m' _ ∧ _ => destruct (store_inv m l Hinv m') as [Hi E] end.
    + intros i Hi. apply mwrite_out. rewrite length_take, length_drop.
      pose proof (ring_addr_range l i Hwf ltac:(lia)). lia.
    + rewrite E. split_and!; auto.
  - cbn in Ha, Hans. destruct (wl_rx_ring_consumer_consume (as_loaded l w r) n) as [v1 e] eqn:Ec. cbn in Hans.
    destruct (Z.leb_spec n (Z.of_nat (length (contents m (as_loaded l w r))))) as [Hn|Hn]; subst e; cbn [is_ok];
      [|intros [= <- <- <-]; split_and!; auto].
    intros [= <- <- <-]. destruct (consume_seen m l w r n v1 Hinv Hsnap Ha Ec Hn) as (? & ? & ? & _).
    split_and!; auto.
Qed.

(** Only a consume of bytes that are there moves the read cursor. *)
Lemma finish_frame m l s op w r m' s' bytes :
  ring_inv m l → consumer_args 1 l op → snap_ok l w r → as_loaded l w r = as_loaded s w r →
  consumer_finish m s op w r = (m', s', bytes) → s' = keep_cache s s' ∨ 0 < readable_snapshot l.
Proof.
  intros Hinv Ha Hsnap Es. destruct op as [| |value|off output len|n]; cbn [consumer_finish]; cbv zeta;
    rewrite <- ?Es; try (intros [= <- <- <-]; left; by destruct s).
  destruct (snap_cases m l w r Hinv Hsnap) as [H0|(_ & _ & k & Hk & _)]; [|right; lia].
  unfold wl_rx_ring_consumer_consume. destruct (inv_parts m l Hinv) as (_ & _ & _ & Hready & _).
  change (ring_ready (as_loaded l w r)) with (ring_ready l). rewrite Hready, H0. cbn [negb]. cbn in Ha.
  replace (n >? 0) with true by lia. intros [= <- <- <-]. left. by destruct s.
Qed.

(** ** Steps *)

(** The producer's single-access operations are steps of the ring as a whole,
    and leave the read cursor and the cache alone. *)
Lemma produce_step m s op s' ev :
  producer_args op → producer_exec m s op = (s', ev) →
  ring_step (m, s) ev (m, s') ∧ handed ev = [] ∧ memory s' = memory s ∧ capacity s' = capacity s ∧
  read_cursor s' = read_cursor s ∧ keep_cache s' s = s'.
Proof.
  intros Ha H. destruct op as [|n|token off n|token| |]; cbn [producer_exec producer_args] in *.
  - destruct (wl_rx_ring_producer_reserve s) as [[s1 e] sp] eqn:E. injection H as <- <-.
    split; [by eapply step_reserve|]. unfold wl_rx_ring_producer_reserve in E.
    destruct s. by repeat case_match; simplify_eq.
  - destruct (wl_rx_ring_producer_commit s n) as [s1 e] eqn:E. injection H as <- <-.
    split; [by apply step_commit|]. unfold wl_rx_ring_producer_commit in E.
    destruct s. by repeat case_match; simplify_eq.
  - destruct (wl_rx_ring_dma_publish s token off n) as [s1 e] eqn:E. injection H as <- <-. destruct Ha.
    split; [by apply (step_dma_publish m s token off n)|]. unfold wl_rx_ring_dma_publish in E.
    destruct s. by repeat case_match; simplify_eq.
  - destruct (wl_rx_ring_dma_finish s token) as [s1 e] eqn:E. injection H as <- <-.
    split; [by eapply step_dma_finish|]. unfold wl_rx_ring_dma_finish in E.
    destruct s. by repeat case_match; simplify_eq.
  - destruct (wl_rx_ring_dma_abort s) as [s1 e] eqn:E. injection H as <- <-.
    split; [by eapply step_dma_abort|]. unfold wl_rx_ring_dma_abort, wl_rx_ring_producer_note_overflow in E.
    destruct s. by repeat case_match; simplify_eq.
  - injection H as <- <-. split; [apply step_note_overflow|]. unfold wl_rx_ring_producer_note_overflow.
    by destruct (negb _); destruct s.
Qed.

(** A claim that does not move the ring leaves its cursors and the cache alone. *)
Lemma take_frame s read reserve maxlen s' e r :
  claim_take s read reserve maxlen = (s', e, r) →
  memory s' = memory s ∧ capacity s' = capacity s ∧ read_cursor s' = read_cursor s ∧
  write_cursor s' = write_cursor s ∧ keep_cache s' s = s'.
Proof. unfold claim_take. intros H. destruct s. by repeat case_match; simplify_eq. Qed.

Lemma claim_frame s maxlen s' e r :
  claim_enter s maxlen = inl (s', e, r) →
  memory s' = memory s ∧ capacity s' = capacity s ∧ read_cursor s' = read_cursor s ∧
  write_cursor s' = write_cursor s ∧ keep_cache s' s = s'.
Proof.
  unfold claim_enter. cbv zeta. intros H.
  repeat match type of H with (if ?b then _ else _) = _ => destruct b end; try discriminate H;
    try (injection H as <- <- <-; by destruct s).
  apply take_frame with (read := read_cursor s) (reserve := write_cursor s) (maxlen := maxlen) (e := e) (r := r).
  by injection H.
Qed.

Lemma sane_keep s s' : keep_cache s' s = s' → cache_sane s → cache_sane s'.
Proof. intros <-. by destruct s. Qed.

Lemma grows_frame s s' :
  memory s' = memory s → capacity s' = capacity s → read_cursor s' = read_cursor s →
  write_cursor s' = write_cursor s → grows s s'.
Proof.
  intros Em Ec Er Ew. split_and!; try done. unfold readable_snapshot. rewrite Ec, Er, Ew. done.
Qed.

Lemma finish_logical m s p op w r m' s' b :
  consumer_finish m s op w r = (m', s', b) →
  consumer_finish m (logical s p) op w r = (m', logical s' p, b).
Proof.
  destruct p as [|? ?|? reset]; [done..|]. cbn [logical].
  destruct op as [| |value|off output len|n]; cbn [consumer_finish]; cbv zeta;
    change (as_loaded (s <| write_cursor := reset |>) w r) with (as_loaded s w r); [by intros [= <- <- <-]..|].
  destruct (wl_rx_ring_consumer_consume (as_loaded s w r) n) as [v1 e].
  destruct (is_ok e); by intros [= <- <- <-].
Qed.

(** What a step does to the queue of readable bytes. *)
Definition moves_queue (t : threads) (ev : ring_event) (t' : threads) : Prop :=
  contents (th_mem t) (logical (th_ring t) (th_producer t)) ++ published ev =
  handed ev ++ contents (th_mem t') (logical (th_ring t') (th_producer t')).

(** Stores leave the cursors alone; they miss the readable bytes. *)
Lemma store_step m s p c a v :
  threads_inv (mk_threads m s p c) → producer_may_store s a ∨ a < memory s ∨ memory s + capacity s <= a →
  threads_inv (mk_threads (mset m a v) s p c) ∧
  moves_queue (mk_threads m s p c) silent (mk_threads (mset m a v) s p c).
Proof.
  intros [Hi Hc Hp Hcons] Ha. cbn in *.
  destruct (inv_parts m _ Hi) as (Hwf & _ & _ & _ & _ & Hr).
  assert (producer_may_store s a → producer_may_store (logical s p) a) as Hlog by (by destruct p).
  assert (memory (logical s p) = memory s ∧ capacity (logical s p) = capacity s) as [Em Ec] by (by destruct p).
  destruct (store_inv m _ Hi (mset m a v)) as [Hi' E].
  { intros i Hir. apply mset_ne. destruct Ha as [Ha|Ha]; [by eapply producer_store_clear; [|apply Hlog|]|].
    pose proof (ring_addr_range (logical s p) i Hwf ltac:(lia)). lia. }
  split; [by split|]. unfold moves_queue. cbn. by rewrite E, app_nil_r.
Qed.

(** A step of the ring as a whole by an idle producer. *)
Lemma producer_frame m s s' ev c :
  threads_inv (mk_threads m s PIdle c) → ring_step (m, s) ev (m, s') → handed ev = [] →
  memory s' = memory s → capacity s' = capacity s → read_cursor s' = read_cursor s →
  keep_cache s' s = s' →
  threads_inv (mk_threads m s' PIdle c) ∧
  moves_queue (mk_threads m s PIdle c) ev (mk_threads m s' PIdle c).
Proof.
  intros [Hi Hc _ Hcons] Hst Hh Em Ec Er Hk. cbn in *.
  destruct (ring_step_inv _ _ _ Hst Hi) as [Hi' Eq]. cbn [fst snd] in Hi', Eq.
  split; [|exact Eq]. split; cbn; [done|by eapply sane_keep|done|].
  apply (grows_consumer s); [|done]. split_and!; try done.
  destruct (inv_parts _ _ Hi) as (Hwf & _). destruct (inv_parts _ _ Hi') as (Hwf' & _).
  rewrite Hh in Eq. apply (f_equal length) in Eq. rewrite length_app in Eq. cbn in Eq.
  rewrite <- (contents_length m s Hwf), <- (contents_length m s' Hwf'). lia.
Qed.

(** The two stores of a claim. *)
Lemma reset_read_step m s maxlen reset c :
  threads_inv (mk_threads m s (PResetRead maxlen reset) c) →
  let t' := mk_threads m (claim_reset_read s reset) (PResetWrite maxlen reset) c in
  threads_inv t' ∧ moves_queue (mk_threads m s (PResetRead maxlen reset) c) silent t'.
Proof.
  intros [Hi Hc Hp Hcons] t'. cbn in *. destruct (inv_parts m s Hi) as (Hwf & _).
  pose proof Hp as (Er & Ew & Ha & Hd & Hm & Hph).
  destruct (normalize_inv m s Hi Ew Ha Hd Hph) as (Hi' & H1 & H2). rewrite <- Er in Hi', H1.
  split; [split; cbn; try done|].
  - split_and!; try done; try lia; [rewrite Er; split_ifs; auto|by eapply moved_hidden].
  - by eapply moved_consumer.
  - change (contents m s ++ [] = contents m (s <| read_cursor := reset |> <| write_cursor := reset |>)).
    by rewrite H1, H2.
Qed.

Lemma reset_write_step m s maxlen reset c s' e r :
  threads_inv (mk_threads m s (PResetWrite maxlen reset) c) →
  claim_reset_write s maxlen reset = (s', e, r) →
  let t' := mk_threads m s' PIdle c in
  threads_inv t' ∧ moves_queue (mk_threads m s (PResetWrite maxlen reset) c) silent t'.
Proof.
  intros [Hi Hc (Hreset & Er & Ha & Hd & Hm & _) Hcons] Hw t'. cbn in Hi, Hc, Hcons.
  destruct (inv_parts m _ Hi) as (Hwf & _).
  pose proof (take_frame _ _ _ _ _ _ _ Hw) as (Em & Ec & Er' & _ & Hk).
  rewrite (claim_reset_take s maxlen reset Hwf Er Hreset Ha Hd Hm) in Hw.
  apply (producer_frame m (s <| write_cursor := reset |>) s' silent c); try done.
  eapply step_dma_claim; [|exact Hw]. lia.
Qed.

(** The loads of the consumer. *)
Lemma load_write_ok m s p op :
  threads_inv (mk_threads m s p CIdle) → consumer_args 1 s op →
  threads_inv (mk_threads m s p (CLoaded op (write_cursor s))).
Proof.
  intros [Hi Hc Hp _] Ha. cbn in *. split; cbn; try done. split; [by destruct p, op|].
  destruct (inv_parts m _ Hi) as (Hwf & _ & _ & _ & Hd & Hr). destruct p as [|maxlen reset|maxlen reset].
  1, 2: left; exists (readable_snapshot s); cbn in *; split; [lia|]; destruct Hwf; clear Hp Hc Hi; cursor_lia.
  right. destruct Hp as (Hreset & <- & _ & _ & _ & H0). cbn in *. split; [|exact H0].
  destruct Hwf. cbn in *. unfold cursor_physical. destruct Hreset as [->| ->]; split_ifs; lia.
Qed.

Lemma load_read_ok m s p op w :
  threads_inv (mk_threads m s p (CLoaded op w)) →
  threads_inv (mk_threads m s p (CSnap op w (read_cursor s))).
Proof.
  intros [Hi Hc Hp [Ha Hw]]. cbn in *. split; cbn; try done. split; [done|].
  destruct (inv_parts m _ Hi) as (Hwf & _).
  replace (read_cursor s) with (read_cursor (logical s p)) by (by destruct p).
  destruct Hw as [(k & Hk & Hw)|[Hp0 H0]]; [|left; split; [done|by left]].
  destruct (decide (k = 0)) as [->|Hne].
  - left. split; [|by left]. subst w. destruct Hwf. clear Hk Hp. cursor_lia.
  - right. split; [done|]. exists k. split; [lia|done].
Qed.

(** The end of a consumer operation. *)
Lemma finish_step m s p op w r m' s' bytes :
  threads_inv (mk_threads m s p (CSnap op w r)) → consumer_finish m s op w r = (m', s', bytes) →
  let t' := mk_threads m' s' p CIdle in
  threads_inv t' ∧ moves_queue (mk_threads m s p (CSnap op w r)) (mk_ring_event [] bytes) t'.
Proof.
  intros [Hi Hc Hp [Ha Hsnap]] Hf t'. cbn in *.
  assert (cache_sane (logical s p)) as Hc' by (by destruct p).
  destruct (finish_ok _ _ _ _ _ _ _ _ Hi Hc' Ha Hsnap (finish_logical _ _ p _ _ _ _ _ _ Hf))
    as (Hi' & Hs' & Eq).
  assert (as_loaded (logical s p) w r = as_loaded s w r) as Es by (by destruct p).
  split; [|unfold moves_queue; cbn; by rewrite app_nil_r].
  split; cbn; [done|by destruct p| |done].
  destruct (finish_frame _ _ _ _ _ _ _ _ _ Hi Ha Hsnap Es Hf) as [->|Hpos]; [by destruct p|].
  destruct (inv_parts m _ Hi) as (_ & _ & _ & _ & Hd & _). rewrite Hd in Hpos.
  destruct p as [|maxlen reset|maxlen reset]; [done|..]; cbn in Hpos; exfalso.
  - destruct Hp as (_ & Ew & _). rewrite Ew in Hpos. unfold cursor_distance in Hpos. split_ifs_in Hpos; lia.
  - destruct Hp as (_ & Er & _). rewrite Er in Hpos. unfold cursor_distance in Hpos. split_ifs_in Hpos; lia.
Qed.

Lemma thread_step_inv t ev t' :
  thread_step 1 t ev t' → threads_inv t → threads_inv t' ∧ moves_queue t ev t'.
Proof.
  intros Hstep Hinv. destruct Hstep as [m s p c a v Ha|m s c op s' ev Ha H|m s c maxlen s' e r Hm H
    |m s c maxlen p Hm H|m s c maxlen reset|m s c maxlen reset s' e r H|m s p op Ha|m s p op w
    |m s p op w r m' s' bytes H|m s p s' n H].
  - by apply store_step.
  - destruct (produce_step m s op s' ev Ha H) as (Hst & Hh & Em & Ec & Er & Hk).
    by apply producer_frame.
  - destruct (claim_frame _ _ _ _ _ H) as (Em & Ec & Er & _ & Hk). apply producer_frame; try done.
    eapply step_dma_claim; [exact Hm|]. by apply claim_enter_take.
  - destruct Hinv as [Hi Hc _ Hcons]. destruct (inv_parts m s Hi) as (Hwf & _).
    destruct (claim_enter_reset s maxlen p Hwf Hm H) as (-> & H1).
    split; [split; cbn; try done|unfold moves_queue; cbn; by rewrite app_nil_r].
  - by apply reset_read_step.
  - by eapply reset_write_step.
  - split; [by apply load_write_ok|unfold moves_queue; cbn; by rewrite app_nil_r].
  - split; [by apply load_read_ok|unfold moves_queue; cbn; by rewrite app_nil_r].
  - by apply finish_step.
  - destruct Hinv as [Hi Hc Hp _]. cbn in *. unfold wl_rx_ring_consumer_take_overflow in H.
    destruct (negb (ring_ready s)); injection H as <- _;
      [split; [by split|unfold moves_queue; cbn; by rewrite app_nil_r]|].
    assert (logical (s <| overflow_events := 0 |>) p = logical s p <| overflow_events := 0 |>) as E
      by (by destruct p).
    split; [split|unfold moves_queue]; cbn [th_mem th_ring th_producer th_consumer]; try done.
    + change (ring_inv m (logical (s <| overflow_events := 0 |>) p)). rewrite E. by apply overflow_inv.
    + by destruct p; rewrite app_nil_r.
Qed.

Lemma thread_run_inv base size t p q :
  0 <= size → thread_run 1 base size t p q →
  threads_inv t ∧ p = q ++ contents (th_mem t) (logical (th_ring t) (th_producer t)).
Proof.
  intros Hs Hrun. induction Hrun as [m s0 s Hi|t p q ev t' p' q' Hrun [IH E] Hstep -> ->].
  - destruct (ring_init_inv m _ _ _ _ Hi Hs) as (Hinv & E & _). cbn. rewrite E. split; [|done].
    split; cbn; try done. unfold wl_rx_ring_init in Hi. cbn in Hi. split_ifs_in Hi. by simplify_eq.
  - destruct (thread_step_inv _ _ _ Hstep IH) as [Hinv Eq]. split; [done|].
    rewrite E, <- !app_assoc. by rewrite Eq.
Qed.

(** Between the stores of a claim the ring shows as little as the one it stands
    for holds. *)
Lemma logical_contents m s p :
  ring_inv m (logical s p) → producer_ok s p → contents m (logical s p) = contents m s.
Proof.
  intros Hi Hp. destruct p as [|? ?|maxlen reset]; [done..|].
  destruct Hp as (_ & Er & _ & _ & _ & H0). rewrite (contents_none m s H0). apply contents_none.
  destruct (inv_parts m _ Hi) as (_ & _ & _ & _ & -> & _). cbn. rewrite Er.
  unfold cursor_distance. split_ifs; lia.
Qed.

Lemma threads_queue_ok base size t p q :
  0 <= size → thread_run 1 base size t p q → queue_ok t p q.
Proof.
  intros Hs Hrun. destruct (thread_run_inv base size t p q Hs Hrun) as [[Hi Hc Hp Hcons] E].
  destruct t as [m s pr co]. cbn in *.
  pose proof (logical_contents m s pr Hi Hp) as El. unfold queue_ok. cbn. rewrite <- El.
  destruct (inv_parts m _ Hi) as (Hwf & _ & _ & _ & _ & Hr).
  assert (capacity (logical s pr) = capacity s) as Ec by (by destruct pr).
  split; [done|]. split; [rewrite (contents_length _ _ Hwf); lia|].
  destruct co as [|op w|op w r]; [done..|]. destruct Hcons as [Ha Hsnap].
  replace (as_loaded s w r) with (as_loaded (logical s pr) w r) by (by destruct pr).
  apply answers_ok; try done. by destruct pr.
Qed.

(** ** Concrete interleavings *)

(** Extends a concrete run by one step. *)
Ltac thread_extend H step :=
  let H' := fresh in
  eassert (thread_run _ _ _ _ _ _) as H'
    by (eapply thr_step; [exact H|step|reflexivity|reflexivity]);
  clear H; vm_compute in H'; rename H' into H.

(** A consumer operation from its first load to its end. *)
Ltac thread_call H op :=
  thread_extend H ltac:(apply (th_load_write _ _ _ _ op); by_compute);
  thread_extend H ltac:(eapply th_load_read);
  thread_extend H ltac:(eapply th_finish; reflexivity).

(** Three bytes pass through a ring of four.  The consumer then starts to consume
    nothing; between its loads and its store a claim moves the empty ring, and
    the store takes the read cursor back behind the write cursor. *)
Lemma empty_consume_race :
  ∃ t, thread_run 0 100 4 t [0; 0; 0] [0; 0; 0] ∧ contents (th_mem t) (th_ring t) = [0].
Proof.
  eassert (thread_run 0 100 4 _ _ _) as Hrun
    by (apply (thr_init 0 100 4 (λ _, 0) ring_zero); reflexivity).
  thread_extend Hrun ltac:(eapply (th_produce _ _ _ _ PoReserve); [done|reflexivity]).
  thread_extend Hrun ltac:(eapply (th_produce _ _ _ _ (PoCommit 3)); [by_compute|reflexivity]).
  thread_call Hrun (CoConsume 3).
  thread_extend Hrun ltac:(apply (th_load_write _ _ _ _ (CoConsume 0)); by_compute).
  thread_extend Hrun ltac:(eapply th_load_read).
  thread_extend Hrun ltac:(eapply (th_claim_enter _ _ _ _ 4); [by_compute|reflexivity]).
  thread_extend Hrun ltac:(eapply th_claim_read).
  thread_extend Hrun ltac:(eapply th_claim_write; reflexivity).
  thread_extend Hrun ltac:(eapply th_finish; reflexivity).
  eexists. split; [exact Hrun|]. reflexivity.
Qed.

(** ** Properties *)

(** C27: the ring is a byte queue under every interleaving of the accesses of
    the two sides to the cursors, the two stores of a moving claim included, as
    long as the consumer consumes at least one byte at a time: the bytes handed
    over followed by the readable bytes are exactly the bytes published, in
    order, never more than the capacity is readable, and an operation of the
    consumer that has loaded the cursors sees a prefix of the readable bytes and
    answers for it, whatever the producer does meanwhile.  A consume of zero
    bytes breaks this: it can make bytes readable that were never published. *)
Theorem ring_threads_fifo :
  (∀ base size t p q, 0 <= size → thread_run 1 base size t p q → queue_ok t p q) ∧
  ¬ (∀ base size t p q, 0 <= size → thread_run 0 base size t p q → queue_ok t p q).
Proof.
  split; [apply threads_queue_ok|]. intros H. destruct empty_consume_race as (t & Hrun & Hc).
  destruct (H 100 4 t _ _ ltac:(lia) Hrun) as [E _]. by rewrite Hc in E.
Qed.

(** The same interleaving with a search in place of the empty consume: the search
    that loaded the cursors before the ring was moved sees nothing, and the ring
    is empty in its new place. *)
Lemma ring_threads_fifo_witness :
  ∃ t, thread_run 1 100 4 t [0; 0; 0] [0; 0; 0] ∧
    th_producer t = PResetWrite 4 4 ∧ th_consumer t = CSnap (CoFind 0) 3 3 ∧
    [0; 0; 0] = [0; 0; 0] ++ contents (th_mem t) (th_ring t).
Proof.
  eassert (thread_run 1 100 4 _ _ _) as Hrun
    by (apply (thr_init 1 100 4 (λ _, 0) ring_zero); reflexivity).
  thread_extend Hrun ltac:(eapply (th_produce _ _ _ _ PoReserve); [done|reflexivity]).
  thread_extend Hrun ltac:(eapply (th_produce _ _ _ _ (PoCommit 3)); [by_compute|reflexivity]).
  thread_call Hrun (CoConsume 3).
  thread_extend Hrun ltac:(apply (th_load_write _ _ _ _ (CoFind 0)); by_compute).
  thread_extend Hrun ltac:(eapply th_load_read).
  thread_extend Hrun ltac:(eapply (th_claim_enter _ _ _ _ 4); [by_compute|reflexivity]).
  thread_extend Hrun ltac:(eapply th_claim_read).
  eexists. split; [exact Hrun|]. do 2 (split; [reflexivity|]).
  apply (proj1 ring_threads_fifo 100 4 _ _ _ ltac:(lia) Hrun).
Defined.
