(* ===== verification/RingShape.v ===== *)
(** The receive ring without its bytes.

    The link decodes a frame inside the ring before it consumes it, so between
    the two the bytes at the front of the ring are no longer those received.
    [ring_ok] is the part of the ring's invariant that survives this, and
    [ring_move] an operation of either side on a ring whose bytes may be any. *)
From stdpp Require Import relations.
From S2P Require Import Prelude RxRing.

Definition cache_bounds (s : ring) : Prop :=
  find_valid s = true →
  (find_read s ≠ read_cursor s ∧ cursor_physical (capacity s) (read_cursor s) = 0) ∨
  (find_read s = read_cursor s ∧ 0 <= find_scanned s <= readable_snapshot s ∧
   (find_found s = true → 0 <= find_offset s < find_scanned s)).

Record ring_ok (s : ring) : Prop := {
  ok_wf : ring_wf s;
  ok_producer : producer_wf s;
  ok_cache : cache_bounds s;
}.

Lemma ring_inv_ok m s : ring_inv m s → ring_ok s.
Proof.
  intros (H1 & H2 & H3). split; [done..|]. intros Hv. destruct (H3 Hv) as [?|(E & Hs & Hf)];
    [by left|]. right. split_and!; [done|lia|lia|]. intros Hff. rewrite Hff in Hf.
  destruct Hf as (Hlt & H0 & _). lia.
Qed.

(** Some bytes make the cache true. *)
Lemma ring_ok_inv s : ring_ok s → ∃ m, ring_inv m s.
Proof.
  intros [Hwf Hp Hc].
  exists (λ a, if find_found s && (a =? ring_addr s (find_offset s)) then 0 else 1).
  split_and!; [done..|]. intros Hv. destruct (Hc Hv) as [?|(E & Hs & Hf)]; [by left|].
  pose proof (snapshot_distance s Hwf) as [_ Hr].
  right. split; [done|]. split; [done|]. destruct (find_found s) eqn:Ef.
  - specialize (Hf eq_refl). split; [lia|]. apply first_at_contents; [done|lia|].
    rewrite Z.eqb_refl. split; [done|]. intros j Hj.
    destruct (Z.eqb_spec (ring_addr s j) (ring_addr s (find_offset s))) as [Ea|]; [|done].
    apply ring_addr_inj in Ea; [lia|done|lia|lia].
  - apply Forall_contents; [done|lia|]. done.
Qed.

Inductive ring_move (r r' : ring) : Prop :=
  | mv_step : (∀ m, ∃ ev m', ring_step (m, r) ev (m', r')) → ring_move r r'
  | mv_find m v e off : wl_rx_ring_consumer_find m r v = (r', e, off) → ring_move r r'.

Definition ring_moves : relation ring := rtc ring_move.

(** The search without any knowledge of the bytes before its start. *)
Lemma find_loop_range fuel m s v offset :
  ring_wf s → 0 <= offset → offset <= readable_snapshot s →
  ∀ i, find_loop fuel m s v offset (readable_snapshot s) = Some i →
       offset <= i < readable_snapshot s.
Proof.
  intros Hwf. revert offset. induction fuel as [|fuel IH]; intros offset H0 H1 i; cbn [find_loop];
    [done|].
  destruct (Z.ltb_spec offset (readable_snapshot s)); [|done].
  destruct (find_pass s offset Hwf ltac:(lia)) as (Hlen & _). cbv zeta in *.
  set (len := contiguous_length _ _ _) in *. set (base := memory s + _) in *.
  pose proof (memchr_spec m base v (Z.to_nat len)) as Hm.
  destruct (memchr m base v (Z.to_nat len)) as [k|].
  - intros [= <-]. lia.
  - intros Hi. apply IH in Hi; lia.
Qed.

Lemma find_ok m s v s' e off :
  ring_ok s → wl_rx_ring_consumer_find m s v = (s', e, off) →
  ring_ok s' ∧ memory s' = memory s ∧ capacity s' = capacity s ∧
  readable_snapshot s' = readable_snapshot s ∧ (e = WL_OK → 0 <= off < readable_snapshot s).
Proof.
  intros [Hwf Hp Hc]. pose proof (snapshot_distance s Hwf) as [_ Hr].
  unfold wl_rx_ring_consumer_find. rewrite (ring_wf_ready s Hwf). cbn [negb].
  set (cached := (v =? 0) && find_valid s && _ && _).
  assert (cached = true → 0 <= find_scanned s <= readable_snapshot s ∧
    (find_found s = true → 0 <= find_offset s < find_scanned s)) as Hcache.
  { intros E. subst cached. rewrite !andb_true_iff in E. destruct E as [[[E1 E2] E3] E4].
    apply Z.eqb_eq in E3. destruct (Hc E2) as [(? & _)|(_ & H)]; [done|exact H]. }
  destruct (cached && find_found s) eqn:Ecf.
  { apply andb_true_iff in Ecf as [E1 E2]. destruct (Hcache E1) as (Hs & Hf).
    specialize (Hf E2). intros [= <- <- <-]. split_and!; [done..|]. intros _. lia. }
  cbv zeta. set (offset := if cached then find_scanned s else 0).
  assert (0 <= offset <= readable_snapshot s) as Ho.
  { subst offset. destruct cached; [|lia]. by destruct (Hcache eq_refl). }
  set (s1 := if v =? 0 then _ else s).
  rewrite (find_loop_view 3 m s s1) by (subst s1; by destruct (v =? 0)).
  pose proof (find_loop_range 3 m s v offset Hwf ltac:(lia) ltac:(lia)) as Hfind.
  destruct (find_loop 3 m s v offset (readable_snapshot s)) as [i|]; intros [= <- <- <-]; subst s1.
  - specialize (Hfind i eq_refl).
    destruct (Z.eqb_spec v 0) as [->|Hv]; split_and!; try done; try (intros; lia).
    split; [by destruct Hwf|by destruct Hp|]. intros _. right. cbn.
    change (readable_snapshot _) with (readable_snapshot s). split_and!; try done; lia.
  - destruct (Z.eqb_spec v 0) as [->|Hv]; split_and!; try done.
    split; [by destruct Hwf|by destruct Hp|]. intros _. right. cbn.
    change (readable_snapshot _) with (readable_snapshot s). split_and!; try done; lia.
Qed.

Lemma ring_step_region c ev c' :
  ring_step c ev c' → memory c'.2 = memory c.2 ∧ capacity c'.2 = capacity c.2.
Proof.
  intros Hstep.
  destruct Hstep as [m s s' e sp H|m s a v H|m s a v H|m s n s' e Hn H|m s maxlen s' e r Hn H
    |m s token offset n s' e Ho Hn H|m s token s' e H|m s s' e H|m s|m s v s' e off H
    |m s off output len m' e Ho Hl Hout Hsep H|m s n s' e Hn H|m s s' n H]; cbn [fst snd]; try done.
  - unfold wl_rx_ring_producer_reserve in H. by repeat (case_match; simplify_eq/=).
  - unfold wl_rx_ring_producer_commit in H. by repeat (case_match; simplify_eq/=).
  - unfold wl_rx_ring_dma_claim in H. by repeat (case_match; simplify_eq/=).
  - unfold wl_rx_ring_dma_publish in H. by repeat (case_match; simplify_eq/=).
  - unfold wl_rx_ring_dma_finish in H. by repeat (case_match; simplify_eq/=).
  - unfold wl_rx_ring_dma_abort, wl_rx_ring_producer_note_overflow in H.
    by repeat (case_match; simplify_eq/=).
  - unfold wl_rx_ring_producer_note_overflow. by repeat (case_match; simplify_eq/=).
  - unfold wl_rx_ring_consumer_find in H. by repeat (case_match; simplify_eq/=).
  - unfold wl_rx_ring_consumer_consume in H. by repeat (case_match; simplify_eq/=).
  - unfold wl_rx_ring_consumer_take_overflow in H. by repeat (case_match; simplify_eq/=).
Qed.

Lemma ring_move_ok r r' :
  ring_move r r' → ring_ok r → ring_ok r' ∧ memory r' = memory r ∧ capacity r' = capacity r.
Proof.
  intros [Hs|m v e off Hf] Hr.
  - destruct (ring_ok_inv r Hr) as [m Hm]. destruct (Hs m) as (ev & m' & Hst).
    split; [|by apply ring_step_region in Hst]. apply (ring_inv_ok m').
    by apply ring_step_inv in Hst as [? _].
  - eapply find_ok in Hf as (? & ? & ? & _); [|done]. done.
Qed.

Lemma ring_moves_ok r r' :
  ring_moves r r' → ring_ok r → ring_ok r' ∧ memory r' = memory r ∧ capacity r' = capacity r.
Proof.
  induction 1 as [r|r1 r2 r3 H1 _ IH]; [done|]. intros H.
  destruct (ring_move_ok _ _ H1 H) as (H2 & E1 & E2).
  destruct (IH H2) as (H3 & E3 & E4). split; [done|]. by rewrite E3, E4.
Qed.

(** Whatever the ring holds, its storage stays the same. *)
Lemma ring_moves_region r r' :
  ring_moves r r' → memory r' = memory r ∧ capacity r' = capacity r.
Proof.
  induction 1 as [r|r1 r2 r3 H1 _ [IH1 IH2]]; [done|]. rewrite IH1, IH2.
  destruct H1 as [Hs|m v e off Hf].
  - destruct (Hs (λ _, 0)) as (ev & m' & Hst). by apply ring_step_region in Hst.
  - apply (step_find m r1 v) in Hf. by apply ring_step_region in Hf.
Qed.

(** A ring always has a number of readable bytes. *)
Lemma readable_nonneg r : ring_ok r → 0 <= wl_rx_ring_readable r.
Proof.
  intros [Hwf _ _]. unfold wl_rx_ring_readable. pose proof (snapshot_distance r Hwf).
  by destruct (negb _); lia.
Qed.
