(* ===== verification/Slots.v ===== *)
(** Slots of a ring and the counters that select them.

    What the queues of the repository share: free-running 32-bit cursors, slots
    selected by a remainder, storage cut into slots of equal size, and counters
    that saturate. *)
From S2P Require Import Prelude.

Definition len {A} (l : list A) : Z := Z.of_nat (length l).

Lemma len_app {A} (l k : list A) : len (l ++ k) = len l + len k.
Proof. unfold len. rewrite length_app. lia. Qed.

Lemma len_nil {A} : len (@nil A) = 0.
Proof. done. Qed.

Lemma len_cons {A} (x : A) l : len (x :: l) = len l + 1.
Proof. unfold len. cbn [length]. lia. Qed.

Lemma len_nonneg {A} (l : list A) : 0 <= len l.
Proof. unfold len. lia. Qed.

#[export] Hint Rewrite @len_app @len_nil @len_cons : wl.

(** Distinct counts less than [n] apart have disjoint slots. *)
Lemma slot_disjoint n i j : 0 < n → i < j < i + n → i mod n ≠ j mod n.
Proof.
  intros Hn Hij E.
  assert ((j - i) mod n = 0) as H0.
  { rewrite Zminus_mod, E, Z.sub_diag. apply Z.mod_0_l. lia. }
  rewrite Z.mod_small in H0; lia.
Qed.

Lemma slots_apart n size i j a :
  0 < n → 0 < size → i < j < i + n →
  j mod n * size <= a < j mod n * size + size →
  ¬ (i mod n * size <= a < i mod n * size + size).
Proof.
  intros Hn Hs Hij Ha Hb. apply (slot_disjoint n i j Hn Hij). nia.
Qed.

(** The distance of two cursors is the distance of the counts behind them. *)
Lemma u32_distance a b : 0 <= b - a < 2 ^ 32 → u32 (u32 b - u32 a) = b - a.
Proof.
  intros H. unfold u32. rewrite <- Zminus_mod. apply Z.mod_small. lia.
Qed.

Lemma u32_succ a : u32 (u32 a + 1) = u32 (a + 1).
Proof. unfold u32. by rewrite Zplus_mod_idemp_l. Qed.

Lemma u32_eq a b : u32 a = u32 b → 0 <= b - a < 2 ^ 32 → a = b.
Proof.
  intros E H. pose proof (u32_distance a b H) as D. rewrite E, Z.sub_diag in D.
  change (u32 0) with 0 in D. lia.
Qed.

(** ** Counters that stop at their maximum *)

Definition counter_increment (c : Z) : Z := if c =? UINT32_MAX then c else c + 1.

(** ** Sizes rounded up to an alignment *)

(** [~x] on [size_t] *)
Definition size_not (x : Z) : Z := SIZE_MAX - x.

Definition align_up (size alignment : Z) : Z :=
  Z.land (usize (size + (alignment - 1))) (size_not (alignment - 1)).

(** The test for a power of two. *)
Lemma power_of_two a : 0 < a → Z.land a (a - 1) = 0 → a = 2 ^ Z.log2 a.
Proof.
  intros Ha H. destruct (Z.log2_spec a Ha) as [Hlo Hhi]. rewrite Z.pow_succ_r in Hhi by apply Z.log2_nonneg.
  destruct (decide (a = 2 ^ Z.log2 a)) as [|Hne]; [done|].
  assert (Z.testbit (Z.land a (a - 1)) (Z.log2 a) = true) as Hb.
  { rewrite Z.land_spec, Z.bit_log2 by lia.
    replace (Z.log2 a) with (Z.log2 (a - 1)); [by rewrite Z.bit_log2 by lia|].
    apply Z.log2_unique; [apply Z.log2_nonneg|]. rewrite Z.pow_succ_r by apply Z.log2_nonneg. lia. }
  by rewrite H, Z.bits_0 in Hb.
Qed.

Lemma align_up_eq size alignment :
  0 < alignment <= SIZE_MAX → Z.land alignment (alignment - 1) = 0 →
  0 <= size <= SIZE_MAX - (alignment - 1) →
  align_up size alignment = (size + (alignment - 1)) / alignment * alignment.
Proof.
  intros Ha Hp Hs. pose proof (power_of_two alignment ltac:(lia) Hp) as E.
  set (k := Z.log2 alignment) in *. assert (0 <= k) as Hk by apply Z.log2_nonneg.
  unfold align_up, size_not. rewrite usize_id by (unfold is_size, SIZE_MAX in *; lia).
  set (x := size + (alignment - 1)). assert (0 <= x < 2 ^ 64) as Hx by (unfold x, SIZE_MAX in *; lia).
  assert (k < 64) as Hk64.
  { apply (Z.pow_lt_mono_r_iff 2); [lia|lia|]. rewrite <- E. unfold SIZE_MAX in Ha. lia. }
  rewrite E, <- Z.shiftl_mul_pow2, <- Z.shiftr_div_pow2 by lia.
  replace (SIZE_MAX - (2 ^ k - 1)) with (Z.lnot (2 ^ k - 1) mod 2 ^ 64).
  - apply Z.bits_inj'. intros i Hi. rewrite Z.land_spec, Z.shiftl_spec by lia.
    replace (2 ^ k - 1) with (Z.ones k) by (rewrite Z.ones_equiv; lia).
    destruct (decide (i < 64)) as [Hi64|Hi64].
    + rewrite Z.mod_pow2_bits_low, Z.lnot_spec by lia.
      rewrite Z.testbit_ones_nonneg by lia. destruct (Z.ltb_spec i k).
      * rewrite andb_false_r. rewrite Z.testbit_neg_r by lia. done.
      * rewrite andb_true_r, Z.shiftr_spec by lia. f_equal. lia.
    + rewrite Z.shiftr_spec by lia. replace (i - k + k) with i by lia.
      rewrite <- (Z.mod_small x (2 ^ 64)) by lia. by rewrite Z.mod_pow2_bits_high by lia.
  - unfold Z.lnot, SIZE_MAX. rewrite <- (Z.mod_add _ 1) by lia.
    pose proof (Z.pow_lt_mono_r 2 k 64). rewrite Z.mod_small by lia. lia.
Qed.

(** A stride holds a value and keeps the alignment. *)
Lemma align_up_fits size alignment :
  0 < alignment <= SIZE_MAX → Z.land alignment (alignment - 1) = 0 →
  0 <= size <= SIZE_MAX - (alignment - 1) →
  size <= align_up size alignment < size + alignment ∧ (alignment | align_up size alignment).
Proof.
  intros Ha Hp Hs. rewrite align_up_eq by done. split; [|by eexists].
  pose proof (Z.div_mod (size + (alignment - 1)) alignment ltac:(lia)).
  pose proof (Z.mod_pos_bound (size + (alignment - 1)) alignment ltac:(lia)). nia.
Qed.
