(* ===== verification/UnitQueue.v ===== *)
(** The queue of received packets: [src/src/unit_rx.c].

    A packet transport hands over whole units.  The producer claims a slot, lets
    the driver fill it and commits the length; the owner reads the oldest unit
    in place and consumes it.  Both cursors are free-running 32-bit counters and
    the slot of a cursor is its remainder by the slot count.

    [unit_fifo] shows that the queue hands out the committed units unchanged and
    in order while the counters have not wrapped, or for ever when the slot count
    divides [2 ^ 32].  [unit_wrap_collision] shows that the restriction is
    needed: with three slots a reachable state lends the producer the slot of a
    unit that has not been read. *)
From S2P Require Import Prelude Slots Frame.

(** ** State *)

Definition WL_RX_UNIT_QUEUE_MAX_SLOTS : Z := 8.

(** [wl_rx_unit_queue_state_t] *)
Record unit_queue := mk_unit_queue {
  uq_storage : Z;
  uq_unit_size : Z;
  uq_lengths : list Z;
  uq_write_cursor : Z;
  uq_read_cursor : Z;
  uq_claim_cursor : Z;
  uq_claim_token : Z;
  uq_slot_count : Z;
  uq_claim_active : bool;
  uq_initialized : bool;
}.

#[export] Instance rebuild_unit_queue : Rebuild unit_queue := λ q,
  mk_unit_queue (uq_storage q) (uq_unit_size q) (uq_lengths q) (uq_write_cursor q)
    (uq_read_cursor q) (uq_claim_cursor q) (uq_claim_token q) (uq_slot_count q)
    (uq_claim_active q) (uq_initialized q).
#[export] Instance fs_uq_storage : FieldSet uq_storage := _.
#[export] Instance fs_uq_unit_size : FieldSet uq_unit_size := _.
#[export] Instance fs_uq_lengths : FieldSet uq_lengths := _.
#[export] Instance fs_uq_write_cursor : FieldSet uq_write_cursor := _.
#[export] Instance fs_uq_read_cursor : FieldSet uq_read_cursor := _.
#[export] Instance fs_uq_claim_cursor : FieldSet uq_claim_cursor := _.
#[export] Instance fs_uq_claim_token : FieldSet uq_claim_token := _.
#[export] Instance fs_uq_slot_count : FieldSet uq_slot_count := _.
#[export] Instance fs_uq_claim_active : FieldSet uq_claim_active := _.
#[export] Instance fs_uq_initialized : FieldSet uq_initialized := _.

(** The queue of a context cleared by [memset]. *)
Definition unit_queue_zero : unit_queue :=
  mk_unit_queue NULL 0 (replicate (Z.to_nat WL_RX_UNIT_QUEUE_MAX_SLOTS) 0) 0 0 0 0 0
    false false.

(** [wl_rx_unit_queue_config_t] and [wl_rx_unit_claim_t] *)
Record unit_queue_config := mk_unit_queue_config {
  uc_storage : Z;
  uc_storage_size : Z;
  uc_unit_size : Z;
  uc_slot_count : Z;
}.

Record unit_claim := mk_unit_claim { claim_span : wl_span; claim_token : Z }.

Definition unit_claim_zero : unit_claim := mk_unit_claim (mk_span NULL 0) 0.

(** ** Operations

    The arguments [ctx_initialized], [envelope], [integrity] and
    [max_payload_len] are the fields of the link context that the function
    reads. *)

Definition slot_address (q : unit_queue) (cursor : Z) : Z :=
  uq_storage q + cursor mod uq_slot_count q * uq_unit_size q.

Definition slot_length (q : unit_queue) (cursor : Z) : Z :=
  default 0 (uq_lengths q !! Z.to_nat (cursor mod uq_slot_count q)).

Definition set_slot_length (q : unit_queue) (cursor len : Z) : list Z :=
  <[Z.to_nat (cursor mod uq_slot_count q) := len]> (uq_lengths q).

Definition wl_rx_unit_queue_get_config (ctx_initialized : bool) (q : unit_queue)
    : wl_err + unit_queue_config :=
  if negb ctx_initialized then inl WL_ERR_NOT_INITIALIZED
  else if negb (uq_initialized q) then inl WL_ERR_NOT_INITIALIZED
  else inr (mk_unit_queue_config (uq_storage q)
              (usize (uq_unit_size q * uq_slot_count q)) (uq_unit_size q)
              (uq_slot_count q)).

(** [lock_free] is what [atomic_is_lock_free] answers on the platform. *)
Definition wl_rx_unit_queue_init (lock_free ctx_initialized : bool)
    (envelope integrity max_payload_len : Z) (q : unit_queue) (config : unit_queue_config)
    : unit_queue * wl_err :=
  if (uc_storage config =? NULL) || (uc_unit_size config =? 0)
     || (uc_slot_count config <? 2) || (uc_slot_count config >? WL_RX_UNIT_QUEUE_MAX_SLOTS)
     || (uc_unit_size config >? SIZE_MAX / uc_slot_count config)
     || (uc_storage_size config <? usize (uc_unit_size config * uc_slot_count config))
  then (q, WL_ERR_INVALID_ARG)
  else if negb ctx_initialized then (q, WL_ERR_NOT_INITIALIZED)
  else if envelope =? WL_ENVELOPE_COBS_STREAM then (q, WL_ERR_NOT_SUPPORTED)
  else if uc_unit_size config <? wl_frame_raw_size max_payload_len integrity
  then (q, WL_ERR_BUF_TOO_SMALL)
  else
    let q := unit_queue_zero <| uq_storage := uc_storage config |>
               <| uq_unit_size := uc_unit_size config |>
               <| uq_slot_count := uc_slot_count config |> in
    if negb lock_free then (q, WL_ERR_NOT_SUPPORTED)
    else (q <| uq_initialized := true |>, WL_OK).

(** [rx_event_leased] and [has_event] decide for a link without a queue. *)
Definition wl_rx_can_accept_unit (ctx_initialized : bool) (envelope : Z)
    (rx_event_leased has_event : bool) (q : unit_queue) : bool :=
  if negb ctx_initialized || (envelope =? WL_ENVELOPE_COBS_STREAM) then false
  else if negb (uq_initialized q) then negb rx_event_leased && negb has_event
  else if uq_claim_active q then false
  else u32 (uq_write_cursor q - uq_read_cursor q) <? uq_slot_count q.

Definition wl_rx_unit_claim (ctx_initialized : bool) (q : unit_queue) (maximum_length : Z)
    : unit_queue * wl_err * unit_claim :=
  if maximum_length =? 0 then (q, WL_ERR_INVALID_ARG, unit_claim_zero)
  else if negb ctx_initialized then (q, WL_ERR_NOT_INITIALIZED, unit_claim_zero)
  else if negb (uq_initialized q) then (q, WL_ERR_NOT_INITIALIZED, unit_claim_zero)
  else if uq_claim_active q then (q, WL_ERR_BUSY, unit_claim_zero)
  else if maximum_length >? uq_unit_size q then (q, WL_ERR_BUF_TOO_SMALL, unit_claim_zero)
  else
    let write := uq_write_cursor q in
    let read := uq_read_cursor q in
    if u32 (write - read) >=? uq_slot_count q then (q, WL_ERR_WOULD_BLOCK, unit_claim_zero)
    else
      let token := u32 (uq_claim_token q + 1) in
      let token := if token =? 0 then u32 (token + 1) else token in
      (q <| uq_claim_token := token |> <| uq_claim_cursor := write |>
         <| uq_claim_active := true |>,
       WL_OK, mk_unit_claim (mk_span (slot_address q write) maximum_length) token).

Definition claim_matches (q : unit_queue) (claim : unit_claim) : bool :=
  if negb (uq_initialized q) || negb (uq_claim_active q) then false
  else (claim_token claim =? uq_claim_token q)
       && (span_data (claim_span claim) =? slot_address q (uq_claim_cursor q)).

Definition wl_rx_unit_commit (ctx_initialized : bool) (q : unit_queue) (claim : unit_claim)
    (length : Z) : unit_queue * wl_err :=
  if negb ctx_initialized then (q, WL_ERR_NOT_INITIALIZED)
  else if negb (claim_matches q claim) then (q, WL_ERR_NOT_FOUND)
  else if (length =? 0) || (length >? span_length (claim_span claim))
          || (length >? uq_unit_size q) then (q, WL_ERR_INVALID_ARG)
  else
    let write := uq_claim_cursor q in
    (q <| uq_lengths := set_slot_length q write length |> <| uq_claim_active := false |>
       <| uq_write_cursor := u32 (write + 1) |>, WL_OK).

Definition wl_rx_unit_abort (ctx_initialized : bool) (q : unit_queue) (claim : unit_claim)
    : unit_queue * wl_err :=
  if negb ctx_initialized then (q, WL_ERR_NOT_INITIALIZED)
  else if negb (claim_matches q claim) then (q, WL_ERR_NOT_FOUND)
  else (q <| uq_claim_active := false |>, WL_OK).

Definition wl_rx_unit_consumer_peek (q : unit_queue) : wl_span :=
  if negb (uq_initialized q) then mk_span NULL 0
  else if uq_read_cursor q =? uq_write_cursor q then mk_span NULL 0
  else mk_span (slot_address q (uq_read_cursor q)) (slot_length q (uq_read_cursor q)).

Definition wl_rx_unit_consumer_has_data (q : unit_queue) : bool :=
  if negb (uq_initialized q) then false
  else negb (uq_read_cursor q =? uq_write_cursor q).

Definition wl_rx_unit_consumer_consume (q : unit_queue) : unit_queue * wl_err :=
  if negb (uq_initialized q) then (q, WL_ERR_NOT_INITIALIZED)
  else if uq_read_cursor q =? uq_write_cursor q then (q, WL_ERR_NO_DATA)
  else
    (q <| uq_lengths := set_slot_length q (uq_read_cursor q) 0 |>
       <| uq_read_cursor := u32 (uq_read_cursor q + 1) |>, WL_OK).

(** ** The queue as a sequence of units *)

Definition queued (q : unit_queue) : Z := u32 (uq_write_cursor q - uq_read_cursor q).

Definition unit_at (m : mem) (q : unit_queue) (cursor : Z) : list Z :=
  mread m (slot_address q cursor) (Z.to_nat (slot_length q cursor)).

(** The units the owner can still read, oldest first. *)
Definition units (m : mem) (q : unit_queue) : list (list Z) :=
  (λ i, unit_at m q (u32 (uq_read_cursor q + Z.of_nat i))) <$> seq 0 (Z.to_nat (queued q)).

(** Bytes the producer may store to: the slot it holds, or memory that is not
    part of the queue. *)
Definition unit_may_store (q : unit_queue) (a : Z) : Prop :=
  (uq_claim_active q = true ∧
   slot_address q (uq_claim_cursor q) <= a < slot_address q (uq_claim_cursor q) + uq_unit_size q) ∨
  ¬ (uq_storage q <= a < uq_storage q + uq_slot_count q * uq_unit_size q).

(** One atomic operation of either side; the two lists are the units it commits
    and the units it hands to the owner. *)
Inductive unit_step : mem * unit_queue → list (list Z) → list (list Z) →
    mem * unit_queue → Prop :=
  | ustep_claim m q len q' e c :
      wl_rx_unit_claim true q len = (q', e, c) → unit_step (m, q) [] [] (m, q')
  | ustep_store m q a b :
      unit_may_store q a → unit_step (m, q) [] [] (mset m a b, q)
  | ustep_commit m q c len q' :
      0 <= len → wl_rx_unit_commit true q c len = (q', WL_OK) →
      unit_step (m, q) [mread m (slot_address q (uq_claim_cursor q)) (Z.to_nat len)] []
        (m, q')
  | ustep_commit_refused m q c len q' e :
      wl_rx_unit_commit true q c len = (q', e) → e ≠ WL_OK → unit_step (m, q) [] [] (m, q')
  | ustep_abort m q c q' e :
      wl_rx_unit_abort true q c = (q', e) → unit_step (m, q) [] [] (m, q')
  | ustep_consume m q q' :
      wl_rx_unit_consumer_consume q = (q', WL_OK) →
      unit_step (m, q)
        [] [mread m (span_data (wl_rx_unit_consumer_peek q))
              (Z.to_nat (span_length (wl_rx_unit_consumer_peek q)))]
        (m, q')
  | ustep_consume_empty m q q' e :
      wl_rx_unit_consumer_consume q = (q', e) → e ≠ WL_OK → unit_step (m, q) [] [] (m, q').

(** Runs of a freshly initialized queue. *)
Inductive unit_run (config : unit_queue_config) :
    mem * unit_queue → list (list Z) → list (list Z) → Prop :=
  | urun_init envelope integrity max_payload_len m q0 q :
      wl_rx_unit_queue_init true true envelope integrity max_payload_len q0 config
      = (q, WL_OK) →
      unit_run config (m, q) [] []
  | urun_step c pub handed p h c' :
      unit_run config c pub handed → unit_step c p h c' →
      unit_run config c' (pub ++ p) (handed ++ h).

(** [exact n k]: the slot of the 32-bit counter is the slot of the true count,
    for every count below [k]. *)
Definition exact (n k : Z) : Prop := (n | 2 ^ 32) ∨ k <= 2 ^ 32.

Lemma slot_exact n k i : exact n k → 0 < n → 0 <= i < k → u32 i mod n = i mod n.
Proof.
  unfold u32. intros [Hd|Hk] Hn Hi.
  - destruct Hd as [d Hd]. rewrite Hd. rewrite (Z.mul_comm d n).
    assert (0 < d) by nia. rewrite Z.rem_mul_r by lia.
    rewrite (Z.mul_comm n), Z.mod_add by lia. by rewrite Z.mod_mod by lia.
  - by rewrite (Z.mod_small i (2 ^ 32)) by lia.
Qed.

(** What ties the state to the units committed and handed out so far. *)
Record unit_inv (m : mem) (q : unit_queue) (pub handed : list (list Z)) : Prop := {
  ui_initialized : uq_initialized q = true;
  ui_slots : 2 <= uq_slot_count q <= 8;
  ui_size : 0 < uq_unit_size q;
  ui_lengths : length (uq_lengths q) = 8%nat;
  ui_write : uq_write_cursor q = u32 (len pub);
  ui_read : uq_read_cursor q = u32 (len handed);
  ui_order : handed = take (length handed) pub ∧
             len handed <= len pub <= len handed + uq_slot_count q;
  ui_claim : uq_claim_active q = true →
             uq_claim_cursor q = uq_write_cursor q ∧
             len pub < len handed + uq_slot_count q;
  ui_units : ∀ i, len handed <= i < len pub →
             0 < slot_length q i <= uq_unit_size q ∧
             pub !! Z.to_nat i = Some (unit_at m q i);
}.

Lemma slot_u32 q k i :
  exact (uq_slot_count q) k → 2 <= uq_slot_count q → 0 <= i < k →
  slot_address q (u32 i) = slot_address q i ∧ slot_length q (u32 i) = slot_length q i ∧
  ∀ v, set_slot_length q (u32 i) v = set_slot_length q i v.
Proof.
  intros He Hn Hi. unfold slot_address, slot_length, set_slot_length.
  rewrite (slot_exact _ k) by (done || lia). done.
Qed.

(** Changing the recorded length of one slot leaves the other slots alone. *)
Lemma slot_length_set q i j v :
  2 <= uq_slot_count q <= 8 → length (uq_lengths q) = 8%nat →
  slot_length (q <| uq_lengths := set_slot_length q i v |>) j
  = if i mod uq_slot_count q =? j mod uq_slot_count q then v else slot_length q j.
Proof.
  intros Hn Hl. unfold slot_length, set_slot_length. cbn.
  pose proof (Z.mod_pos_bound i (uq_slot_count q) ltac:(lia)).
  pose proof (Z.mod_pos_bound j (uq_slot_count q) ltac:(lia)).
  destruct (Z.eqb_spec (i mod uq_slot_count q) (j mod uq_slot_count q)) as [->|Hne].
  - rewrite list_lookup_insert_eq by lia. done.
  - rewrite list_lookup_insert_ne by lia. done.
Qed.

Section Preserve.
Context (m : mem) (q : unit_queue) (pub handed : list (list Z)).
Context (Hinv : unit_inv m q pub handed).
Context (Hexact : exact (uq_slot_count q) (len pub + 1)).

Lemma queued_spec : queued q = len pub - len handed.
Proof.
  destruct Hinv. unfold queued. rewrite ui_write0, ui_read0. apply u32_distance. lia.
Qed.

Lemma unit_claim_inv n q' e c :
  wl_rx_unit_claim true q n = (q', e, c) → unit_inv m q' pub handed.
Proof.
  pose proof queued_spec as Hq. unfold queued in Hq. unfold wl_rx_unit_claim. intros H.
  split_ifs_in H; simplify_eq; try done; destruct Hinv; split; try done.
  all: intros _; cbn in *; rewrite Hq in *; split; [done|lia].
Qed.

Lemma unit_store_inv a b : unit_may_store q a → unit_inv (mset m a b) q pub handed.
Proof.
  intros Ha. destruct Hinv. split; try done. intros i Hi. destruct (ui_units0 i Hi) as [Hl Hu].
  split; [done|]. rewrite Hu. f_equal. unfold unit_at. symmetry. apply mread_mset_out.
  pose proof (len_nonneg handed).
  assert (slot_address q i = uq_storage q + i mod uq_slot_count q * uq_unit_size q) as Ea by done.
  pose proof (Z.mod_pos_bound i (uq_slot_count q) ltac:(lia)) as Hr.
  destruct Ha as [(Hact & Ha)|Ha].
  - destruct (ui_claim0 Hact) as [Hc Hlt]. rewrite Hc, ui_write0 in Ha.
    destruct (slot_u32 q (len pub + 1) (len pub) Hexact) as (E & _ & _); [lia|lia|].
    rewrite E in Ha. unfold slot_address in Ha.
    pose proof (slots_apart (uq_slot_count q) (uq_unit_size q) i (len pub) (a - uq_storage q)
      ltac:(lia) ltac:(lia) ltac:(lia) ltac:(lia)). lia.
  - nia.
Qed.

Lemma unit_commit_inv c n q' :
  0 <= n → wl_rx_unit_commit true q c n = (q', WL_OK) →
  unit_inv m q' (pub ++ [mread m (slot_address q (uq_claim_cursor q)) (Z.to_nat n)]) handed.
Proof.
  intros Hn H. unfold wl_rx_unit_commit, claim_matches in H. destruct Hinv.
  rewrite ui_initialized0 in H. cbn [negb orb] in H.
  destruct (uq_claim_active q) eqn:Ha; [|done].
  destruct (ui_claim0 eq_refl) as [Hc Hlt]. rewrite Hc, ui_write0 in *.
  pose proof (len_nonneg handed).
  destruct (slot_u32 q (len pub + 1) (len pub) Hexact) as (E1 & E2 & E3); [lia|lia|].
  rewrite E1, E3 in *. cbn [negb] in H. split_ifs_in H; simplify_eq.
  split; cbn; try done.
  - unfold set_slot_length. by rewrite length_insert.
  - rewrite len_app, len_cons, len_nil. unfold u32. rewrite Zplus_mod_idemp_l. done.
  - rewrite len_app, len_cons, len_nil. destruct ui_order0 as [Ho1 Ho2]. split; [|lia].
    rewrite take_app_le by (unfold len in *; lia). done.
  - rewrite len_app, len_cons, len_nil. intros i Hi.
    match goal with |- context [unit_at m ?x i] => set (q' := x) end.
    assert (slot_length q' i = if len pub mod uq_slot_count q =? i mod uq_slot_count q
                               then n else slot_length q i) as El.
    { change (slot_length q' i) with
        (slot_length (q <| uq_lengths := set_slot_length q (len pub) n |>) i).
      by apply slot_length_set. }
    unfold unit_at. rewrite El. change (slot_address q' i) with (slot_address q i).
    destruct (decide (i = len pub)) as [->|Hne].
    + rewrite Z.eqb_refl. split; [lia|]. unfold len. rewrite Nat2Z.id.
      rewrite lookup_app_r, Nat.sub_diag by lia. done.
    + pose proof (slot_disjoint (uq_slot_count q) i (len pub) ltac:(lia) ltac:(lia)).
      replace (_ =? _) with false by lia. destruct (ui_units0 i) as [Hl Hu]; [lia|].
      split; [done|]. rewrite lookup_app_l by (apply lookup_lt_is_Some; by eexists). done.
Qed.

Lemma unit_abort_inv c q' e : wl_rx_unit_abort true q c = (q', e) → unit_inv m q' pub handed.
Proof.
  unfold wl_rx_unit_abort. intros H. split_ifs_in H; simplify_eq; try done.
  by destruct Hinv; split.
Qed.

Lemma unit_consume_inv q' :
  wl_rx_unit_consumer_consume q = (q', WL_OK) →
  unit_inv m q' pub
    (handed ++ [mread m (span_data (wl_rx_unit_consumer_peek q))
                  (Z.to_nat (span_length (wl_rx_unit_consumer_peek q)))]).
Proof.
  intros H. unfold wl_rx_unit_consumer_consume, wl_rx_unit_consumer_peek in *. destruct Hinv.
  rewrite ui_initialized0 in *. cbn [negb] in *. pose proof (len_nonneg handed).
  destruct (Z.eqb_spec (uq_read_cursor q) (uq_write_cursor q)) as [|Hne]; [done|].
  rewrite ui_read0, ui_write0 in *.
  assert (len handed < len pub) as Hlt.
  { destruct ui_order0 as [_ Ho]. destruct (decide (len handed = len pub)) as [E|]; [|lia].
    by rewrite E in Hne. }
  destruct (slot_u32 q (len pub + 1) (len handed) Hexact) as (E1 & E2 & E3); [lia|lia|].
  rewrite E1, E2, E3 in *. cbn [span_data span_length]. simplify_eq.
  destruct (ui_units0 (len handed)) as [Hl Hu]; [lia|].
  split; cbn; try done.
  - unfold set_slot_length. by rewrite length_insert.
  - rewrite len_app, len_cons, len_nil. unfold u32. by rewrite Zplus_mod_idemp_l.
  - rewrite len_app, len_cons, len_nil. destruct ui_order0 as [Ho1 Ho2]. split; [|lia].
    rewrite length_app. cbn [length]. rewrite Nat.add_1_r.
    unfold len in Hu. rewrite Nat2Z.id in Hu.
    rewrite (take_S_r _ _ _ Hu). rewrite <- Ho1. done.
  - intros Ha. rewrite len_app, len_cons, len_nil. destruct (ui_claim0 Ha) as [Hc Hc'].
    split; [congruence|lia].
  - rewrite len_app, len_cons, len_nil. intros i Hi.
    match goal with |- context [unit_at m ?x i] => set (q' := x) end.
    assert (slot_length q' i = slot_length q i) as El.
    { change (slot_length q' i) with
        (slot_length (q <| uq_lengths := set_slot_length q (len handed) 0 |>) i).
      rewrite slot_length_set by done.
      pose proof (slot_disjoint (uq_slot_count q) (len handed) i ltac:(lia) ltac:(lia)).
      by replace (_ =? _) with false by lia. }
    unfold unit_at. rewrite El. change (slot_address q' i) with (slot_address q i).
    apply ui_units0. lia.
Qed.
End Preserve.

(** ** Reachable queues *)

Lemma unit_init_inv config envelope integrity max_payload_len m q0 q :
  wl_rx_unit_queue_init true true envelope integrity max_payload_len q0 config = (q, WL_OK) →
  is_size (uc_unit_size config) →
  uq_slot_count q = uc_slot_count config ∧ unit_inv m q [] [].
Proof.
  unfold wl_rx_unit_queue_init, is_size. intros H Hs. split_ifs_in H; simplify_eq.
  split; [done|]. unfold WL_RX_UNIT_QUEUE_MAX_SLOTS, len in *.
  split; cbn; rewrite ?len_nil; try done; [lia|lia|split; [done|lia]|].
  lia.
Qed.

Lemma step_slots m q p h m' q' :
  unit_step (m, q) p h (m', q') → uq_slot_count q' = uq_slot_count q.
Proof.
  inversion_clear 1 as [? ? ? ? ? ? E| |? ? ? ? ? ? E|? ? ? ? ? ? E|? ? ? ? ? E|? ? ? E|? ? ? ? E];
    unfold wl_rx_unit_claim, wl_rx_unit_commit, wl_rx_unit_abort, wl_rx_unit_consumer_consume in *;
    try split_ifs_in E; try split_ifs_in H0; simplify_eq; done.
Qed.

Lemma unit_run_inv config c pub handed :
  is_size (uc_unit_size config) → unit_run config c pub handed →
  uq_slot_count c.2 = uc_slot_count config ∧
  (exact (uc_slot_count config) (len pub + 1) → unit_inv c.1 c.2 pub handed).
Proof.
  intros Hsize. induction 1 as [envelope integrity mpl m q0 q Hi|c pub handed p h c' Hr [Hn IH] Hs].
  - destruct (unit_init_inv config envelope integrity mpl m q0 q Hi Hsize). done.
  - destruct c as [m q], c' as [m' q']. cbn [fst snd] in *.
    rewrite (step_slots m q p h m' q' Hs). split; [done|]. intros He.
    assert (exact (uc_slot_count config) (len pub + 1)) as He'.
    { destruct He as [|He]; [by left|right]. rewrite len_app in He. unfold len in *. lia. }
    specialize (IH He'). rewrite <- Hn in He'.
    inversion Hs; simplify_eq; rewrite ?app_nil_r in *;
      eauto using unit_claim_inv, unit_store_inv, unit_commit_inv, unit_abort_inv, unit_consume_inv.
    + unfold wl_rx_unit_commit in *. by match goal with
        H : (if _ then _ else _) = (q', ?e) |- _ => split_ifs_in H; simplify_eq end.
    + unfold wl_rx_unit_consumer_consume in *. by match goal with
        H : (if _ then _ else _) = (q', ?e) |- _ => split_ifs_in H; simplify_eq end.
Qed.

(** C28: whatever the interleaving of the driver and the owner, the units
    handed out followed by the units still queued are the units committed, byte
    for byte and in order, as long as fewer than [2 ^ 32] units were committed or
    the slot count divides [2 ^ 32]. *)
Theorem unit_fifo config m q pub handed :
  is_size (uc_unit_size config) → unit_run config (m, q) pub handed →
  (uc_slot_count config | 2 ^ 32) ∨ len pub < 2 ^ 32 →
  pub = handed ++ units m q.
Proof.
  intros Hsize Hrun Hk. destruct (unit_run_inv config (m, q) pub handed Hsize Hrun) as [Hn Hi].
  cbn [fst snd] in *. assert (exact (uc_slot_count config) (len pub + 1)) as He.
  { unfold exact. destruct Hk; [by left|right; lia]. }
  specialize (Hi He). rewrite <- Hn in He. pose proof (queued_spec m q pub handed Hi) as Hq.
  destruct Hi as [_ Hslots _ _ _ Hread [Hpre Hle] _ Hunits].
  rewrite <- (take_drop (length handed) pub) at 1. rewrite <- Hpre. f_equal.
  apply list_eq. intros i. rewrite lookup_drop. unfold units. rewrite list_lookup_fmap.
  pose proof (len_nonneg handed).
  destruct (decide (i < Z.to_nat (queued q))%nat) as [Hlt|Hge].
  - rewrite lookup_seq_lt by lia. cbn [fmap option_fmap option_map].
    destruct (Hunits (len handed + Z.of_nat i)) as [_ Hu]; [lia|].
    replace (Z.to_nat (len handed + Z.of_nat i)) with (length handed + i)%nat in Hu
      by (unfold len; lia).
    rewrite Hu, Nat.add_0_l, Hread. unfold unit_at.
    replace (u32 (u32 (len handed) + Z.of_nat i)) with (u32 (len handed + Z.of_nat i))
      by (unfold u32; by rewrite Zplus_mod_idemp_l).
    destruct (slot_u32 q (len pub + 1) (len handed + Z.of_nat i) He) as (-> & -> & _); [lia..|].
    done.
  - rewrite lookup_seq_ge by lia. apply lookup_ge_None_2. unfold len in *. lia.
Qed.

Definition demo_config : unit_queue_config := mk_unit_queue_config 1000 96 32 3.

(** A queue of three slots after [n] units went through it and nothing is left. *)
Record idle_after (n : Z) (q : unit_queue) : Prop := {
  ia_init : uq_initialized q = true;
  ia_storage : uq_storage q = 1000;
  ia_size : uq_unit_size q = 32;
  ia_slots : uq_slot_count q = 3;
  ia_write : uq_write_cursor q = u32 n;
  ia_read : uq_read_cursor q = u32 n;
  ia_free : uq_claim_active q = false;
}.

Lemma idle_claim n q :
  idle_after n q →
  ∃ q1 c, wl_rx_unit_claim true q 1 = (q1, WL_OK, c) ∧
    claim_matches q1 c = true ∧ span_length (claim_span c) = 1 ∧
    uq_claim_cursor q1 = u32 n ∧ uq_read_cursor q1 = u32 n ∧ uq_initialized q1 = true ∧
    uq_storage q1 = 1000 ∧ uq_unit_size q1 = 32 ∧ uq_slot_count q1 = 3.
Proof.
  intros []. unfold wl_rx_unit_claim. rewrite ia_init0, ia_free0, ia_size0, ia_slots0, ia_write0,
    ia_read0, Z.sub_diag. cbn -[u32 slot_address]. eexists _, _. split; [done|].
  unfold claim_matches. cbn -[u32 slot_address]. rewrite ia_init0.
  split_and!; try done. cbn -[u32 slot_address]. rewrite Z.eqb_refl. cbn.
  unfold slot_address. cbn. apply Z.eqb_refl.
Qed.

(** The queue after that claim was committed with one byte. *)
Lemma idle_commit n q1 c :
  claim_matches q1 c = true → span_length (claim_span c) = 1 →
  uq_claim_cursor q1 = u32 n → uq_unit_size q1 = 32 →
  wl_rx_unit_commit true q1 c 1 =
    (q1 <| uq_lengths := set_slot_length q1 (u32 n) 1 |> <| uq_claim_active := false |>
        <| uq_write_cursor := u32 (u32 n + 1) |>, WL_OK).
Proof.
  intros Hm Hs Hc Hz. unfold wl_rx_unit_commit. by rewrite Hm, Hs, Hz, Hc.
Qed.

Lemma u32_succ_ne n : u32 n ≠ u32 (u32 n + 1).
Proof.
  unfold u32. rewrite Zplus_mod_idemp_l. intros E.
  assert ((n + 1 - n) mod 2 ^ 32 = 0) as H by (rewrite Zminus_mod, E, Z.sub_diag; done).
  replace (n + 1 - n) with 1 in H by lia. done.
Qed.

Lemma idle_reachable (m : mem) n :
  ∃ q pub handed, unit_run demo_config (m, q) pub handed ∧ idle_after (Z.of_nat n) q.
Proof.
  induction n as [|n (q & pub & handed & Hrun & Hidle)].
  - eexists _, [], []. split.
    + eapply (urun_init _ WL_ENVELOPE_NATIVE_PACKET WL_INTEGRITY_NONE 16 m unit_queue_zero).
      reflexivity.
    + by split.
  - destruct (idle_claim _ q Hidle) as (q1 & c & Hc & Hm & Hl & Ecur & Er & Ei & Es & Ez & En).
    pose proof (idle_commit _ q1 c Hm Hl Ecur Ez) as Hk.
    name_result Hk q2.
    assert (wl_rx_unit_consumer_consume q2 =
      (q2 <| uq_lengths := set_slot_length q2 (uq_read_cursor q2) 0 |>
          <| uq_read_cursor := u32 (uq_read_cursor q2 + 1) |>, WL_OK)) as Hd.
    { unfold wl_rx_unit_consumer_consume. cbn. rewrite Ei, Er. cbn [negb].
      pose proof (u32_succ_ne (Z.of_nat n)). by replace (_ =? _) with false by lia. }
    name_result Hd q3. eexists q3, _, _. split.
    + eapply urun_step; [|by apply ustep_consume]. eapply urun_step; [|by apply (ustep_commit _ q1 c 1)].
      eapply urun_step; [exact Hrun|]. by eapply ustep_claim.
    + replace (Z.of_nat (S n)) with (Z.of_nat n + 1) by lia.
      split; cbn; try done; [|rewrite Er]; unfold u32; by rewrite Zplus_mod_idemp_l.
Qed.

(** C37: with three slots the free-running counters do not survive their
    wrap.  A reachable queue holds a unit the owner has not read, and the next
    claim lends the producer that very slot. *)
Theorem unit_wrap_collision :
  ∃ config m q pub handed q' c,
    unit_run config (m, q) pub handed ∧ uc_slot_count config = 3 ∧
    wl_rx_unit_consumer_has_data q = true ∧
    wl_rx_unit_claim true q 1 = (q', WL_OK, c) ∧
    span_data (claim_span c) = span_data (wl_rx_unit_consumer_peek q) ∧
    unit_may_store q' (span_data (wl_rx_unit_consumer_peek q)).
Proof.
  set (m := (λ _, 0) : mem).
  destruct (idle_reachable m (Z.to_nat (2 ^ 32 - 1))) as (q & pub & handed & Hrun & Hidle).
  rewrite Z2Nat.id in Hidle by lia.
  destruct (idle_claim _ q Hidle) as (q1 & c & Hc & Hm & Hl & Ecur & Er & Ei & Es & Ez & En).
  pose proof (idle_commit _ q1 c Hm Hl Ecur Ez) as Hk.
  name_result Hk q2.
  change (u32 (2 ^ 32 - 1)) with 4294967295 in *.
  assert (∃ q3 c2, wl_rx_unit_claim true q2 1 = (q3, WL_OK, c2) ∧
    span_data (claim_span c2) = 1000 ∧ uq_claim_active q3 = true ∧
    slot_address q3 (uq_claim_cursor q3) = 1000 ∧ uq_unit_size q3 = 32)
    as (q3 & c2 & H3 & Hs2 & Ha3 & Hsl & Hz3).
  { unfold wl_rx_unit_claim. cbn -[u32 slot_address]. rewrite Ei, Er, Ez, En.
    cbn -[slot_address]. eexists _, _. split; [done|]. unfold slot_address. cbn.
    by rewrite Es, En. }
  exists demo_config, m, q2. eexists _, _, q3, c2. split.
  { eapply urun_step; [|by apply (ustep_commit _ q1 c 1)]. eapply urun_step; [exact Hrun|].
    by eapply ustep_claim. }
  assert (span_data (wl_rx_unit_consumer_peek q2) = 1000) as ->.
  { unfold wl_rx_unit_consumer_peek, slot_address. cbn. by rewrite Ei, Er, Es, En. }
  split; [done|]. split.
  { unfold wl_rx_unit_consumer_has_data. cbn. by rewrite Ei, Er. }
  split; [exact H3|]. split; [done|]. left. split; [done|lia].
Qed.

(** Extends a concrete run by one step. *)
Ltac unit_extend H step :=
  let H' := fresh in
  eassert (unit_run _ _ _ _) as H' by (eapply urun_step; [exact H|step]);
  clear H; vm_compute in H'; rename H' into H.

(** Two units are committed and one of them is handed out. *)
Lemma unit_fifo_witness :
  ∃ m q, unit_run demo_config (m, q) [[7]; [9]] [[7]] ∧ [[7]; [9]] = [[7]] ++ units m q.
Proof.
  eassert (unit_run demo_config (mset (mset (λ _, 0) 1000 7) 1032 9, _) [] []) as Hrun
    by (apply (urun_init _ WL_ENVELOPE_NATIVE_PACKET WL_INTEGRITY_NONE 16 _ unit_queue_zero);
        reflexivity).
  unit_extend Hrun ltac:(eapply (ustep_claim _ _ 1); reflexivity).
  unit_extend Hrun ltac:(eapply (ustep_commit _ _ (mk_unit_claim (mk_span 1000 1) 1) 1);
                         [lia|reflexivity]).
  unit_extend Hrun ltac:(eapply (ustep_claim _ _ 1); reflexivity).
  unit_extend Hrun ltac:(eapply (ustep_commit _ _ (mk_unit_claim (mk_span 1032 1) 2) 1);
                         [lia|reflexivity]).
  unit_extend Hrun ltac:(eapply ustep_consume; reflexivity).
  do 2 eexists. split; [exact Hrun|].
  apply (unit_fifo demo_config _ _ [[7]; [9]] [[7]]); [unfold is_size; cbn; lia|exact Hrun|].
  right. reflexivity.
Defined.
