(* ===== verification/Link.v ===== *)
(** The link engine: [src/src/protocol.c], [src/src/transport.c],
    [src/src/init.c], [src/src/schedule.c], [src/src/unit_frame.c] and the
    unit-queue entry points of [src/src/unit_rx.c].

    This file has the state [wl_ctx] (the fields of [wl_ctx_impl_t], the flat
    memory, and a log of what was handed to the sink) and one definition per
    function.  The invariants are in [LinkInv], the properties in [LinkProps]. *)
From S2P Require Import Prelude Cobs Frame RxRing UnitQueue.

(** ** The platform

    The sink is application code.  The link learns nothing from it but one of
    four answers per call, so a device is the sequence of its answers; a theorem
    for every [sink_answer] is a theorem for every device.  [lock_free] is what
    [atomic_is_lock_free] answers. *)
Inductive wl_sink_result := WL_SINK_SENT | WL_SINK_STARTED | WL_SINK_BUSY | WL_SINK_FAILED.

Class Platform := {
  sink_answer : nat → wl_sink_result;
  lock_free : bool;
}.

(** ** Data of [link.h] and [context.h] *)

Inductive wl_tx_state :=
  | WL_TX_STATE_IDLE
  | WL_TX_STATE_SENDING
  | WL_TX_STATE_WAITING_ACK
  | WL_TX_STATE_SUCCESS
  | WL_TX_STATE_FAILED
  | WL_TX_STATE_CANCELLED.

Inductive wl_tx_wait_reason := WL_TX_WAIT_NONE | WL_TX_WAIT_ACK | WL_TX_WAIT_DRAIN.

Inductive wl_event_type :=
  | WL_EVT_NONE
  | WL_EVT_UNRELIABLE_RX
  | WL_EVT_RELIABLE_RX
  | WL_EVT_TX_SUCCESS
  | WL_EVT_TX_TIMEOUT
  | WL_EVT_TX_FAILED.

Inductive wl_rx_source :=
  | WL_RX_SOURCE_NONE
  | WL_RX_SOURCE_RING
  | WL_RX_SOURCE_FALLBACK
  | WL_RX_SOURCE_UNIT.

#[export] Instance wl_tx_state_eq_dec : EqDecision wl_tx_state.
Proof. solve_decision. Defined.
#[export] Instance wl_tx_wait_reason_eq_dec : EqDecision wl_tx_wait_reason.
Proof. solve_decision. Defined.
#[export] Instance wl_event_type_eq_dec : EqDecision wl_event_type.
Proof. solve_decision. Defined.
#[export] Instance wl_rx_source_eq_dec : EqDecision wl_rx_source.
Proof. solve_decision. Defined.
#[export] Instance wl_sink_result_eq_dec : EqDecision wl_sink_result.
Proof. solve_decision. Defined.

Definition WL_DELIVERY_UNRELIABLE : Z := 0.
Definition WL_DELIVERY_RELIABLE : Z := 1.
Definition WL_NO_DEADLINE : Z := UINT32_MAX.

Record wl_event := mk_event {
  ev_type : wl_event_type;
  ev_message_id : Z;
  ev_payload : Z;
  ev_payload_len : Z;
  ev_handle : Z;
  ev_io_result : Z;
  ev_lease : Z;
  ev_peer_session_id : Z;
}.

Record wl_tx_result := mk_tx_result {
  txr_state : wl_tx_state;
  txr_result : wl_err;
  txr_retries_used : Z;
}.

Record wl_readiness := mk_readiness {
  runnable : bool;
  next_deadline_ms : Z;
  blocked : bool;
}.

Record wl_config := mk_config {
  max_payload_len : Z;
  envelope : Z;
  integrity : Z;
  cfg_session_id : Z;
  max_retries : Z;
  ack_timeout_ms : Z;
  max_transmission_unit : Z;
}.

Record wl_storage := mk_storage {
  st_tx_payload : Z;
  st_tx_payload_size : Z;
  st_tx_unit : Z;
  st_tx_unit_size : Z;
  st_control_unit : Z;
  st_control_unit_size : Z;
  st_rx_fifo : Z;
  st_rx_fifo_size : Z;
  st_rx_fallback : Z;
  st_rx_fallback_size : Z;
}.

Record wl_storage_requirements := mk_requirements {
  rq_tx_payload_size : Z;
  rq_tx_unit_size : Z;
  rq_control_unit_size : Z;
  rq_rx_fifo_size : Z;
  rq_rx_fallback_size : Z;
}.

Record wl_rx_counters := mk_counters {
  malformed : Z;
  bad_integrity : Z;
  overflow : Z;
  duplicate : Z;
  unsupported : Z;
}.

(** [wl_tx_payload_claim_t] *)
Record wl_tx_payload_claim_t := mk_tx_claim { tc_span : wl_span; tc_token : Z }.

Definition tx_claim_zero : wl_tx_payload_claim_t := mk_tx_claim (mk_span NULL 0) 0.

(** One call of the sink: what kind of unit it carried, the bytes of the unit
    and the answer.  The log is what the outside world sees of the link. *)
Inductive io_kind := IO_RELIABLE (sequence : Z) | IO_UNRELIABLE | IO_CONTROL.

#[export] Instance io_kind_eq_dec : EqDecision io_kind.
Proof. solve_decision. Defined.

Record io_entry := mk_io {
  io_what : io_kind;
  io_token : Z;
  io_unit : list Z;
  io_answer : wl_sink_result;
}.

(** A frame that passed validation, with the bytes of its payload. *)
Record rx_entry := mk_rx { rx_view : wl_frame_view; rx_bytes : list Z }.

(** [wl_ctx_impl_t], with four ghost fields in front: [lmem] is the memory,
    [io_log] the calls of the sink so far, [rx_log] the frames that passed
    validation so far and [rx_delivered] those of them that became an event.
    No operation reads the logs. *)
Record wl_ctx := mk_ctx {
  lmem : mem;
  io_log : list io_entry;
  rx_log : list rx_entry;
  rx_delivered : list rx_entry;
  rx_ring : ring;
  rx_units : unit_queue;
  config : wl_config;
  storage : wl_storage;
  initialized : bool;
  sink : Z;
  sink_user_data : Z;
  tx_state : wl_tx_state;
  tx_pending_event : wl_event_type;
  tx_handle : Z;
  tx_unreliable_completions : Z;
  tx_token : Z;
  tx_start_ts : Z;
  tx_retries_left : Z;
  tx_retries_max : Z;
  tx_retries_used : Z;
  tx_sequence : Z;
  tx_waiting_seq : Z;
  tx_inflight : bool;
  tx_writable : bool;
  resource_generation : Z;
  tx_drain_required : bool;
  tx_drain_pending : bool;
  tx_drain_reliable : bool;
  tx_drain_token : Z;
  tx_wait_state : wl_tx_wait_reason;
  tx_cancel_requested : bool;
  tx_generation : Z;
  tx_result_code : wl_err;
  tx_last_message_id : Z;
  tx_claim_active : bool;
  tx_claim_reliable : bool;
  tx_claim_message_id : Z;
  tx_claim_token : Z;
  tx_claim_payload : wl_span;
  session_id : Z;
  rx_sequence : Z;
  rx_session_id : Z;
  rx_have_reliable : bool;
  event : wl_event;
  has_event : bool;
  in_callback : bool;
  in_flight_reliable : bool;
  control_pending : bool;
  control_inflight : bool;
  tx_queued : bool;
  tx_encoded_len : Z;
  tx_unreliable_len : Z;
  control_len : Z;
  rx_event_leased : bool;
  rx_candidate_source : wl_rx_source;
  rx_event_generation : Z;
  rx_pending_consume : Z;
  rx_counters : wl_rx_counters;
  now_ms : Z;
  rx_payload : wl_span;
  tx_payload : wl_span;
}.

#[export] Instance rebuild_ctx : Rebuild wl_ctx := λ s,
  mk_ctx (lmem s) (io_log s) (rx_log s) (rx_delivered s) (rx_ring s) (rx_units s) (config s) (storage s) (initialized s)
    (sink s) (sink_user_data s) (tx_state s) (tx_pending_event s) (tx_handle s)
    (tx_unreliable_completions s) (tx_token s) (tx_start_ts s) (tx_retries_left s)
    (tx_retries_max s) (tx_retries_used s) (tx_sequence s) (tx_waiting_seq s) (tx_inflight s)
    (tx_writable s) (resource_generation s) (tx_drain_required s) (tx_drain_pending s)
    (tx_drain_reliable s) (tx_drain_token s) (tx_wait_state s) (tx_cancel_requested s)
    (tx_generation s) (tx_result_code s) (tx_last_message_id s) (tx_claim_active s)
    (tx_claim_reliable s) (tx_claim_message_id s) (tx_claim_token s) (tx_claim_payload s)
    (session_id s) (rx_sequence s) (rx_session_id s) (rx_have_reliable s) (event s) (has_event s)
    (in_callback s) (in_flight_reliable s) (control_pending s) (control_inflight s) (tx_queued s)
    (tx_encoded_len s) (tx_unreliable_len s) (control_len s) (rx_event_leased s)
    (rx_candidate_source s) (rx_event_generation s) (rx_pending_consume s) (rx_counters s)
    (now_ms s) (rx_payload s) (tx_payload s).
#[export] Instance fs_lmem : FieldSet lmem := _.
#[export] Instance fs_io_log : FieldSet io_log := _.
#[export] Instance fs_rx_log : FieldSet rx_log := _.
#[export] Instance fs_rx_delivered : FieldSet rx_delivered := _.
#[export] Instance fs_rx_ring : FieldSet rx_ring := _.
#[export] Instance fs_rx_units : FieldSet rx_units := _.
#[export] Instance fs_config : FieldSet config := _.
#[export] Instance fs_storage : FieldSet storage := _.
#[export] Instance fs_initialized : FieldSet initialized := _.
#[export] Instance fs_sink : FieldSet sink := _.
#[export] Instance fs_sink_user_data : FieldSet sink_user_data := _.
#[export] Instance fs_tx_state : FieldSet tx_state := _.
#[export] Instance fs_tx_pending_event : FieldSet tx_pending_event := _.
#[export] Instance fs_tx_handle : FieldSet tx_handle := _.
#[export] Instance fs_tx_unreliable_completions : FieldSet tx_unreliable_completions := _.
#[export] Instance fs_tx_token : FieldSet tx_token := _.
#[export] Instance fs_tx_start_ts : FieldSet tx_start_ts := _.
#[export] Instance fs_tx_retries_left : FieldSet tx_retries_left := _.
#[export] Instance fs_tx_retries_max : FieldSet tx_retries_max := _.
#[export] Instance fs_tx_retries_used : FieldSet tx_retries_used := _.
#[export] Instance fs_tx_sequence : FieldSet tx_sequence := _.
#[export] Instance fs_tx_waiting_seq : FieldSet tx_waiting_seq := _.
#[export] Instance fs_tx_inflight : FieldSet tx_inflight := _.
#[export] Instance fs_tx_writable : FieldSet tx_writable := _.
#[export] Instance fs_resource_generation : FieldSet resource_generation := _.
#[export] Instance fs_tx_drain_required : FieldSet tx_drain_required := _.
#[export] Instance fs_tx_drain_pending : FieldSet tx_drain_pending := _.
#[export] Instance fs_tx_drain_reliable : FieldSet tx_drain_reliable := _.
#[export] Instance fs_tx_drain_token : FieldSet tx_drain_token := _.
#[export] Instance fs_tx_wait_state : FieldSet tx_wait_state := _.
#[export] Instance fs_tx_cancel_requested : FieldSet tx_cancel_requested := _.
#[export] Instance fs_tx_generation : FieldSet tx_generation := _.
#[export] Instance fs_tx_result_code : FieldSet tx_result_code := _.
#[export] Instance fs_tx_last_message_id : FieldSet tx_last_message_id := _.
#[export] Instance fs_tx_claim_active : FieldSet tx_claim_active := _.
#[export] Instance fs_tx_claim_reliable : FieldSet tx_claim_reliable := _.
#[export] Instance fs_tx_claim_message_id : FieldSet tx_claim_message_id := _.
#[export] Instance fs_tx_claim_token : FieldSet tx_claim_token := _.
#[export] Instance fs_tx_claim_payload : FieldSet tx_claim_payload := _.
#[export] Instance fs_session_id : FieldSet session_id := _.
#[export] Instance fs_rx_sequence : FieldSet rx_sequence := _.
#[export] Instance fs_rx_session_id : FieldSet rx_session_id := _.
#[export] Instance fs_rx_have_reliable : FieldSet rx_have_reliable := _.
#[export] Instance fs_event : FieldSet event := _.
#[export] Instance fs_has_event : FieldSet has_event := _.
#[export] Instance fs_in_callback : FieldSet in_callback := _.
#[export] Instance fs_in_flight_reliable : FieldSet in_flight_reliable := _.
#[export] Instance fs_control_pending : FieldSet control_pending := _.
#[export] Instance fs_control_inflight : FieldSet control_inflight := _.
#[export] Instance fs_tx_queued : FieldSet tx_queued := _.
#[export] Instance fs_tx_encoded_len : FieldSet tx_encoded_len := _.
#[export] Instance fs_tx_unreliable_len : FieldSet tx_unreliable_len := _.
#[export] Instance fs_control_len : FieldSet control_len := _.
#[export] Instance fs_rx_event_leased : FieldSet rx_event_leased := _.
#[export] Instance fs_rx_candidate_source : FieldSet rx_candidate_source := _.
#[export] Instance fs_rx_event_generation : FieldSet rx_event_generation := _.
#[export] Instance fs_rx_pending_consume : FieldSet rx_pending_consume := _.
#[export] Instance fs_rx_counters : FieldSet rx_counters := _.
#[export] Instance fs_now_ms : FieldSet now_ms := _.
#[export] Instance fs_rx_payload : FieldSet rx_payload := _.
#[export] Instance fs_tx_payload : FieldSet tx_payload := _.

#[export] Instance rebuild_wl_event : Rebuild wl_event := λ s,
  mk_event (ev_type s) (ev_message_id s) (ev_payload s) (ev_payload_len s) (ev_handle s) (ev_io_result s) (ev_lease s) (ev_peer_session_id s).
#[export] Instance fs_ev_peer_session_id : FieldSet ev_peer_session_id := _.

#[export] Instance rebuild_wl_rx_counters : Rebuild wl_rx_counters := λ s,
  mk_counters (malformed s) (bad_integrity s) (overflow s) (duplicate s) (unsupported s).
#[export] Instance fs_malformed : FieldSet malformed := _.
#[export] Instance fs_bad_integrity : FieldSet bad_integrity := _.
#[export] Instance fs_overflow : FieldSet overflow := _.
#[export] Instance fs_duplicate : FieldSet duplicate := _.
#[export] Instance fs_unsupported : FieldSet unsupported := _.

#[export] Instance rebuild_span : Rebuild wl_span := λ s, mk_span (span_data s) (span_length s).
#[export] Instance fs_span_data : FieldSet span_data := _.
#[export] Instance fs_span_length : FieldSet span_length := _.

(** Enumerations are compared by [==?]. *)
Declare Scope wl_scope.
Delimit Scope wl_scope with wl.
Notation "x ==? y" := (bool_decide (x = y)) (at level 70, no associativity) : wl_scope.
#[local] Open Scope wl_scope.

Section Link.
Context `{Platform}.

(** ** Events *)

Definition is_rx_event (type : wl_event_type) : bool :=
  match type with WL_EVT_UNRELIABLE_RX | WL_EVT_RELIABLE_RX => true | _ => false end.

Definition wl_push_event (s : wl_ctx) (type : wl_event_type)
    (message_id payload payload_len handle : Z) : wl_ctx * wl_err :=
  let is_rx := is_rx_event type in
  if has_event s || (is_rx && rx_event_leased s) then (s, WL_ERR_QUEUE_FULL)
  else if is_rx && ((payload_len >? max_payload_len (config s))
                    || (negb (payload_len =? 0) && (payload =? NULL))
                    || (rx_candidate_source s ==? WL_RX_SOURCE_NONE))
  then (s, WL_ERR_PAYLOAD_TOO_LONG)
  else
    let generation := u32 (rx_event_generation s + 1) in
    let generation := if generation =? 0 then 1 else generation in
    let s := if is_rx
             then s <| rx_payload := mk_span payload payload_len |>
                    <| rx_event_generation := generation |>
             else s in
    (s <| event := mk_event type message_id
                     (if is_rx then span_data (rx_payload s) else payload) payload_len handle 0
                     (if is_rx then rx_event_generation s else 0) 0 |>
       <| has_event := true |>, WL_OK).

Definition wl_push_tx_event (s : wl_ctx) (type : wl_event_type) : wl_ctx :=
  if tx_inflight s && in_flight_reliable s then s <| tx_pending_event := type |>
  else let '(s', ret) := wl_push_event s type 0 NULL 0 (tx_handle s) in
       if is_ok ret then s' else s' <| tx_pending_event := type |>.

Definition wl_complete_unreliable_tx (s : wl_ctx) : wl_ctx * wl_err :=
  if tx_unreliable_completions s =? UINT32_MAX then (s, WL_ERR_QUEUE_FULL)
  else (s <| tx_unreliable_completions := tx_unreliable_completions s + 1 |>
          <| tx_unreliable_len := 0 |>, WL_OK).

(** ** Handing a unit to the sink *)

Definition next_token (token : Z) : Z := if token =? UINT32_MAX then 1 else token + 1.

(** The call itself, between the two writes of [in_callback]. *)
Definition sink_call (s : wl_ctx) (what : io_kind) (data len : Z) : wl_ctx * wl_sink_result :=
  let answer := sink_answer (length (io_log s)) in
  (s <| io_log := io_log s ++
          [mk_io what (tx_token s) (mread (lmem s) data (Z.to_nat len)) answer] |>, answer).

Definition wl_submit_data (s : wl_ctx) (reliable : bool) : wl_ctx * wl_err :=
  let len := if reliable then tx_encoded_len s else tx_unreliable_len s in
  if sink s =? NULL then (s, WL_ERR_NOT_INITIALIZED)
  else
    let s := s <| tx_token := next_token (tx_token s) |> in
    let s := s <| in_callback := true |> in
    let '(s, sink_result) :=
      sink_call s (if reliable then IO_RELIABLE (tx_waiting_seq s) else IO_UNRELIABLE)
        (st_tx_unit (storage s)) len in
    let s := s <| in_callback := false |> <| in_flight_reliable := reliable |> in
    match sink_result with
    | WL_SINK_STARTED =>
        let s := s <| tx_inflight := true |> <| tx_queued := false |> in
        (if reliable then s <| tx_state := WL_TX_STATE_SENDING |> else s, WL_OK)
    | WL_SINK_BUSY =>
        let s := s <| tx_inflight := false |> <| tx_queued := true |>
                   <| tx_writable := false |> in
        (if reliable then s <| tx_state := WL_TX_STATE_SENDING |> else s, WL_OK)
    | WL_SINK_SENT =>
        let s := s <| tx_inflight := false |> <| tx_queued := false |>
                   <| in_flight_reliable := false |> in
        if reliable then
          (s <| tx_state := WL_TX_STATE_WAITING_ACK |> <| tx_wait_state := WL_TX_WAIT_ACK |>
             <| tx_start_ts := now_ms s |>, WL_OK)
        else wl_complete_unreliable_tx s
    | WL_SINK_FAILED =>
        let s := s <| tx_queued := false |> <| tx_inflight := false |>
                   <| in_flight_reliable := false |> in
        (if reliable then s else s <| tx_unreliable_len := 0 |>, WL_ERR_IO)
    end.

Definition wl_send_tx_payload (s : wl_ctx) : wl_ctx * wl_err :=
  if negb (initialized s) || (sink s =? NULL) then (s, WL_ERR_NOT_INITIALIZED)
  else if in_callback s then (s, WL_ERR_REENTRANT)
  else if tx_encoded_len s =? 0 then
    let wire := mk_packet WL_PACKET_DATA (integrity (config s)) WL_PACKET_FLAG_RELIABLE
                  (tx_last_message_id s) (session_id s) (tx_waiting_seq s)
                  (span_data (tx_payload s)) (span_length (tx_payload s)) in
    let '(m, ret, encoded_len) :=
      wl_link_encode (lmem s) (envelope (config s)) (integrity (config s)) wire
        (st_tx_unit (storage s)) (st_tx_unit_size (storage s)) in
    let s := s <| lmem := m |> in
    if negb (is_ok ret) then (s, ret)
    else wl_submit_data (s <| tx_encoded_len := encoded_len |>) true
  else wl_submit_data s true.

Definition wl_invalidate_tx_image (s : wl_ctx) : wl_ctx :=
  let s :=
    if negb (tx_handle s =? 0)
       && negb (span_data (tx_payload s) =? st_tx_payload (storage s)) then
      let s := if negb (span_length (tx_payload s) =? 0)
               then s <| lmem := memmove (lmem s) (st_tx_payload (storage s))
                                   (span_data (tx_payload s)) (span_length (tx_payload s)) |>
               else s in
      s <| tx_payload := tx_payload s <| span_data := st_tx_payload (storage s) |> |>
    else s in
  s <| tx_encoded_len := 0 |>.

Definition wl_tx_retry_due (s : wl_ctx) (now : Z) : bool :=
  (tx_state s ==? WL_TX_STATE_WAITING_ACK) && (tx_wait_state s ==? WL_TX_WAIT_ACK)
  && negb (ack_timeout_ms (config s) =? 0)
  && (u32 (now - tx_start_ts s) >=? ack_timeout_ms (config s)).

Definition wl_data_busy (s : wl_ctx) (reliable : bool) : bool :=
  tx_inflight s || tx_drain_pending s || control_pending s || control_inflight s
  || tx_queued s
  || (if reliable then negb (tx_handle s =? 0) else wl_tx_retry_due s (now_ms s)).

Definition wl_prepare_reliable_payload (s : wl_ctx) (pkt : wl_wire_packet) (direct : bool)
    : wl_ctx :=
  let s := s <| tx_encoded_len := 0 |> <| tx_last_message_id := pk_message_id pkt |>
             <| tx_payload := mk_span (if direct then pk_payload pkt
                                       else st_tx_payload (storage s)) (pk_payload_len pkt) |> in
  if negb direct && negb (pk_payload_len pkt =? 0)
  then s <| lmem := memmove (lmem s) (st_tx_payload (storage s)) (pk_payload pkt)
                      (pk_payload_len pkt) |>
  else s.

Definition wl_submit_control (s : wl_ctx) : wl_ctx * wl_err :=
  if negb (control_pending s) || control_inflight s || tx_inflight s
     || tx_drain_pending s || negb (tx_writable s) then (s, WL_OK)
  else if sink s =? NULL then (s, WL_ERR_NOT_INITIALIZED)
  else if in_callback s then (s, WL_ERR_REENTRANT)
  else
    let s := s <| tx_token := next_token (tx_token s) |> in
    let s := s <| in_callback := true |> in
    let '(s, sink_result) :=
      sink_call s IO_CONTROL (st_control_unit (storage s)) (control_len s) in
    let s := s <| in_callback := false |> in
    match sink_result with
    | WL_SINK_SENT => (s <| control_pending := false |>, WL_OK)
    | WL_SINK_STARTED => (s <| control_inflight := true |>, WL_OK)
    | WL_SINK_BUSY => (s <| tx_writable := false |>, WL_OK)
    | WL_SINK_FAILED => (s <| control_pending := false |>, WL_ERR_IO)
    end.

(** ** Completion reports of the transport *)

(** The retry of [wl_tx_consumed] after a failed transfer: a waiting ACK owns the
    next physical turn. *)
Definition consumed_retry (s : wl_ctx) : wl_ctx * wl_err :=
  if control_pending s
  then (s <| tx_queued := true |> <| in_flight_reliable := true |>, WL_OK)
  else wl_send_tx_payload s.

Definition count_retry (s : wl_ctx) : wl_ctx :=
  s <| tx_retries_left := u16 (tx_retries_left s - 1) |>
    <| tx_retries_used := u16 (tx_retries_used s + 1) |>.

(** The transaction ends with [code] and its event is published. *)
Definition tx_fail (s : wl_ctx) (code : wl_err) (type : wl_event_type) : wl_ctx :=
  wl_push_tx_event
    (s <| tx_state := WL_TX_STATE_FAILED |> <| tx_wait_state := WL_TX_WAIT_NONE |>
       <| tx_waiting_seq := 0 |> <| tx_result_code := code |>) type.

(** The part of [wl_tx_consumed] for a reliable unit that is still wanted. *)
Definition consumed_reliable (s : wl_ctx) (io_ok : bool) : wl_ctx :=
  if negb (tx_state s ==? WL_TX_STATE_SENDING) then (wl_submit_control s).1
  else if io_ok then
    let s := s <| tx_state := WL_TX_STATE_WAITING_ACK |>
               <| tx_wait_state := if tx_drain_pending s then WL_TX_WAIT_DRAIN
                                   else WL_TX_WAIT_ACK |>
               <| tx_start_ts := now_ms s |> in
    (wl_submit_control s).1
  else
    let '(s, retry) := if negb (tx_retries_left s =? 0) then consumed_retry s
                       else (s, WL_ERR_IO) in
    if is_ok retry then (wl_submit_control (count_retry s)).1
    else (wl_submit_control (tx_fail s WL_ERR_IO WL_EVT_TX_FAILED)).1.

(** The part for an unreliable unit. *)
Definition consumed_unreliable (s : wl_ctx) (io_ok : bool) : wl_ctx * wl_err :=
  let '(s, result) := if io_ok then wl_complete_unreliable_tx s else (s, WL_OK) in
  ((wl_submit_control (s <| tx_unreliable_len := 0 |>)).1, result).

(** The part for a reliable unit cancelled while the sink owned it. *)
Definition consumed_cancelled (s : wl_ctx) : wl_ctx :=
  (wl_submit_control
     (s <| tx_cancel_requested := false |>
        <| tx_payload := mk_span (st_tx_payload (storage s)) 0 |>
        <| tx_encoded_len := 0 |>)).1.

(** The bookkeeping at the start of [wl_tx_consumed]. *)
Definition consumed_report (s : wl_ctx) (token : Z) (io_ok : bool) : wl_ctx :=
  let s := s <| tx_writable := true |>
             <| resource_generation := u32 (resource_generation s + 1) |> in
  if io_ok && tx_drain_required s
  then s <| tx_drain_pending := true |> <| tx_drain_token := token |>
         <| tx_drain_reliable := tx_inflight s && in_flight_reliable s |>
  else s.

(** [io_result] is an [int]; zero is [WL_OK]. *)
Definition wl_tx_consumed (s : wl_ctx) (token io_result : Z) : wl_ctx * wl_err :=
  let io_ok := io_result =? 0 in
  if negb (initialized s) then (s, WL_ERR_NOT_INITIALIZED)
  else if negb (token =? tx_token s) then (s, WL_ERR_NOT_FOUND)
  else if negb (tx_inflight s) && negb (control_inflight s) then (s, WL_ERR_NOT_FOUND)
  else
    let s := consumed_report s token io_ok in
    if control_inflight s then
      (s <| control_inflight := false |> <| control_pending := false |>,
       if io_ok then WL_OK else WL_ERR_IO)
    else if negb (tx_inflight s) then (s, WL_OK)
    else
      let reliable := in_flight_reliable s in
      let s := s <| tx_inflight := false |> <| in_flight_reliable := false |> in
      if negb reliable then consumed_unreliable s io_ok
      else if tx_cancel_requested s then (consumed_cancelled s, WL_OK)
      else (consumed_reliable s io_ok, WL_OK).

Definition wl_tx_drained (s : wl_ctx) (token io_result : Z) : wl_ctx * wl_err :=
  if negb (initialized s) then (s, WL_ERR_NOT_INITIALIZED)
  else if negb (tx_drain_pending s) || negb (token =? tx_drain_token s)
  then (s, WL_ERR_NOT_FOUND)
  else
    let s := s <| tx_drain_pending := false |> <| tx_writable := true |>
               <| resource_generation := u32 (resource_generation s + 1) |> in
    let s :=
      if tx_drain_reliable s && (tx_state s ==? WL_TX_STATE_WAITING_ACK)
         && (tx_wait_state s ==? WL_TX_WAIT_DRAIN) then
        if io_result =? 0
        then s <| tx_wait_state := WL_TX_WAIT_ACK |> <| tx_start_ts := now_ms s |>
        else wl_push_tx_event
               (s <| tx_state := WL_TX_STATE_FAILED |> <| tx_wait_state := WL_TX_WAIT_NONE |>
                  <| tx_result_code := WL_ERR_IO |>) WL_EVT_TX_FAILED
      else s in
    (s <| tx_drain_reliable := false |>, WL_OK).

(** ** Acknowledgements *)

Definition wl_send_ack (s : wl_ctx) (view : wl_frame_view) : wl_ctx * wl_err :=
  if negb (initialized s) || (sink s =? NULL) then (s, WL_ERR_NOT_INITIALIZED)
  else if in_callback s then (s, WL_ERR_REENTRANT)
  else
    let ack := mk_packet WL_PACKET_ACK (integrity (config s)) 0 0 (fv_session_id view)
                 (fv_sequence view) NULL 0 in
    if control_pending s then (s, WL_ERR_QUEUE_FULL)
    else
      let '(m, ret, encoded_len) :=
        wl_link_encode (lmem s) (envelope (config s)) (integrity (config s)) ack
          (st_control_unit (storage s)) (st_control_unit_size (storage s)) in
      let s := s <| lmem := m |> in
      if negb (is_ok ret) then (s, ret)
      else wl_submit_control
             (s <| control_len := encoded_len |> <| control_pending := true |>).

Definition wl_handle_ack (s : wl_ctx) (view : wl_frame_view) : wl_ctx * wl_err :=
  if negb (tx_state s ==? WL_TX_STATE_WAITING_ACK) && negb (tx_state s ==? WL_TX_STATE_SENDING)
  then (s, WL_OK)
  else if negb (session_id s =? fv_session_id view)
          || negb (tx_waiting_seq s =? fv_sequence view) then (s, WL_OK)
  else
    let s := s <| tx_state := WL_TX_STATE_SUCCESS |> <| tx_wait_state := WL_TX_WAIT_NONE |>
               <| tx_waiting_seq := 0 |> <| tx_retries_left := 0 |>
               <| tx_result_code := WL_OK |> in
    let s := if tx_queued s && in_flight_reliable s
             then s <| tx_queued := false |> <| in_flight_reliable := false |> else s in
    (wl_push_tx_event s WL_EVT_TX_SUCCESS, WL_OK).

(** ** Sending *)

(** The reliable half of [wl_send_frame_internal]: a new transaction.  The third
    component is the handle stored through [out_handle]. *)
Definition send_reliable_frame (s : wl_ctx) (pkt : wl_wire_packet) (direct : bool) (now : Z)
    : wl_ctx * wl_err * Z :=
  let s := s <| now_ms := now |> in
  let s := wl_prepare_reliable_payload s pkt direct in
  let generation := u16 (tx_generation s + 1) in
  let generation := if generation =? 0 then 1 else generation in
  let generated_handle := Z.lor (u32 (Z.shiftl generation 16)) 1 in
  let s := s <| tx_generation := generation |> <| tx_handle := generated_handle |>
             <| tx_waiting_seq := pk_sequence pkt |> <| tx_wait_state := WL_TX_WAIT_NONE |>
             <| tx_retries_left := tx_retries_max s |> <| tx_retries_used := 0 |> in
  let '(s, ret) := wl_send_tx_payload s in
  if negb (is_ok ret) then
    (s <| tx_handle := 0 |> <| tx_state := WL_TX_STATE_IDLE |> <| tx_waiting_seq := 0 |>
       <| tx_wait_state := WL_TX_WAIT_NONE |> <| tx_retries_left := 0 |>
       <| tx_payload := mk_span (st_tx_payload (storage s)) 0 |>
       <| tx_last_message_id := 0 |> <| tx_encoded_len := 0 |>, ret, 0)
  else (s <| tx_result_code := WL_ERR_BUSY |>, WL_OK, generated_handle).

(** The unreliable half. *)
Definition send_unreliable_frame (s : wl_ctx) (pkt : wl_wire_packet) : wl_ctx * wl_err :=
  let s := wl_invalidate_tx_image s in
  let '(m, result, encoded_len) :=
    wl_link_encode (lmem s) (envelope (config s)) (integrity (config s)) pkt
      (st_tx_unit (storage s)) (st_tx_unit_size (storage s)) in
  let s := s <| lmem := m |> <| tx_unreliable_len := encoded_len |> in
  if negb (is_ok result) then (s, result) else wl_submit_data s false.

Definition wl_send_frame_internal (s : wl_ctx) (pkt : wl_wire_packet) (reliable direct : bool)
    (now : Z) : wl_ctx * wl_err * Z :=
  if negb (pk_payload_len pkt =? 0) && (pk_payload pkt =? NULL)
  then (s, WL_ERR_INVALID_ARG, 0)
  else if negb (initialized s) then (s, WL_ERR_NOT_INITIALIZED, 0)
  else if session_id s =? 0 then (s, WL_ERR_INVALID_ARG, 0)
  else if pk_payload_len pkt >? max_payload_len (config s)
  then (s, WL_ERR_PAYLOAD_TOO_LONG, 0)
  else if wl_data_busy s reliable then (s, WL_ERR_BUSY, 0)
  else if in_callback s then (s, WL_ERR_REENTRANT, 0)
  else if negb reliable && (tx_unreliable_completions s =? UINT32_MAX)
  then (s, WL_ERR_QUEUE_FULL, 0)
  else if pk_message_id pkt =? 0 then (s, WL_ERR_INVALID_ARG, 0)
  else if negb reliable
  then let '(s, ret) := send_unreliable_frame s pkt in (s, ret, 0)
  else send_reliable_frame s pkt direct now.

Definition wl_send_unreliable (s : wl_ctx) (message_id payload payload_len : Z)
    : wl_ctx * wl_err :=
  if negb (initialized s) then (s, WL_ERR_NOT_INITIALIZED)
  else
    let pkt := mk_packet WL_PACKET_DATA 0 0 message_id 0 0 payload payload_len in
    if tx_claim_active s then (s, WL_ERR_BUSY)
    else let '(s, ret, _) := wl_send_frame_internal s pkt false false 0 in (s, ret).

(** [out_handle] is the pointer argument; the handle is the third component. *)
Definition wl_send_reliable (s : wl_ctx) (message_id payload payload_len now out_handle : Z)
    : wl_ctx * wl_err * Z :=
  if out_handle =? NULL then (s, WL_ERR_INVALID_ARG, 0)
  else if negb (initialized s) then (s, WL_ERR_NOT_INITIALIZED, 0)
  else if tx_sequence s =? UINT32_MAX then (s, WL_ERR_INVALID_STATE, 0)
  else
    let pkt := mk_packet WL_PACKET_DATA 0 WL_PACKET_FLAG_RELIABLE message_id 0 (tx_sequence s)
                 payload payload_len in
    let s := s <| tx_sequence := tx_sequence s + 1 |> in
    if tx_claim_active s then (s, WL_ERR_BUSY, 0)
    else wl_send_frame_internal s pkt true false now.

(** ** Payload claims *)

Definition wl_tx_payload_claim (s : wl_ctx) (message_id delivery : Z)
    : wl_ctx * wl_err * wl_tx_payload_claim_t :=
  if (message_id =? 0)
     || (negb (delivery =? WL_DELIVERY_UNRELIABLE) && negb (delivery =? WL_DELIVERY_RELIABLE))
  then (s, WL_ERR_INVALID_ARG, tx_claim_zero)
  else if negb (initialized s) then (s, WL_ERR_NOT_INITIALIZED, tx_claim_zero)
  else if tx_claim_active s || wl_data_busy s (delivery =? WL_DELIVERY_RELIABLE)
  then (s, WL_ERR_BUSY, tx_claim_zero)
  else if (delivery =? WL_DELIVERY_UNRELIABLE) && (tx_unreliable_completions s =? UINT32_MAX)
  then (s, WL_ERR_QUEUE_FULL, tx_claim_zero)
  else
    let s := if delivery =? WL_DELIVERY_UNRELIABLE then wl_invalidate_tx_image s else s in
    let payload :=
      if envelope (config s) =? WL_ENVELOPE_NATIVE_PACKET then
        st_tx_unit (storage s)
        + wl_frame_packet_header_size WL_PACKET_DATA
            (if delivery =? WL_DELIVERY_RELIABLE then WL_PACKET_FLAG_RELIABLE else 0)
      else if (delivery =? WL_DELIVERY_UNRELIABLE) && negb (tx_handle s =? 0)
      then st_tx_unit (storage s)
      else st_tx_payload (storage s) in
    let token := u32 (tx_claim_token s + 1) in
    let token := if token =? 0 then u32 (token + 1) else token in
    let span := mk_span payload (max_payload_len (config s)) in
    (s <| tx_claim_token := token |> <| tx_claim_active := true |>
       <| tx_claim_reliable := delivery =? WL_DELIVERY_RELIABLE |>
       <| tx_claim_message_id := message_id |> <| tx_claim_payload := span |>,
     WL_OK, mk_tx_claim span token).

Definition tx_claim_matches (s : wl_ctx) (claim : wl_tx_payload_claim_t) : bool :=
  tx_claim_active s && (tc_token claim =? tx_claim_token s)
  && (span_data (tc_span claim) =? span_data (tx_claim_payload s)).

Definition wl_tx_payload_commit (s : wl_ctx) (claim : wl_tx_payload_claim_t)
    (payload_len now out_handle : Z) : wl_ctx * wl_err * Z :=
  if negb (initialized s) then (s, WL_ERR_NOT_INITIALIZED, 0)
  else if negb (tx_claim_matches s claim) then (s, WL_ERR_NOT_FOUND, 0)
  else
    let reliable := tx_claim_reliable s in
    let capacity := span_length (tx_claim_payload s) in
    let s := s <| tx_claim_active := false |> <| tx_claim_payload := mk_span NULL 0 |> in
    if (payload_len >? capacity) || (reliable && (out_handle =? NULL))
    then (s, WL_ERR_INVALID_ARG, 0)
    else if reliable && (tx_sequence s =? UINT32_MAX) then (s, WL_ERR_INVALID_STATE, 0)
    else
      let packet := mk_packet WL_PACKET_DATA (integrity (config s))
                      (if reliable then WL_PACKET_FLAG_RELIABLE else 0)
                      (tx_claim_message_id s) (session_id s)
                      (if reliable then tx_sequence s else 0)
                      (span_data (tc_span claim)) payload_len in
      let s := if reliable then s <| tx_sequence := tx_sequence s + 1 |> else s in
      wl_send_frame_internal s packet reliable true now.

Definition wl_tx_payload_abort (s : wl_ctx) (claim : wl_tx_payload_claim_t)
    : wl_ctx * wl_err :=
  if negb (initialized s) then (s, WL_ERR_NOT_INITIALIZED)
  else if negb (tx_claim_matches s claim) then (s, WL_ERR_NOT_FOUND)
  else (s <| tx_claim_active := false |> <| tx_claim_payload := mk_span NULL 0 |>
          <| resource_generation := u32 (resource_generation s + 1) |>, WL_OK).

(** ** Receiving *)

Definition wl_frame_route_view (s : wl_ctx) (view : wl_frame_view) : wl_ctx * wl_err :=
  let entry := mk_rx view (mread (lmem s) (span_data (fv_payload view))
                             (Z.to_nat (span_length (fv_payload view)))) in
  let s := s <| rx_log := rx_log s ++ [entry] |> in
  if span_length (fv_payload view) >? max_payload_len (config s)
  then (s, WL_ERR_PAYLOAD_TOO_LONG)
  else if fv_type view =? WL_PACKET_DATA then
    if negb (Z.land (fv_flags view) WL_PACKET_FLAG_RELIABLE =? 0) then
      if rx_have_reliable s && (rx_session_id s =? fv_session_id view)
         && (rx_sequence s =? fv_sequence view) then
        let counters := rx_counters s in
        wl_send_ack
          (s <| rx_counters := counters <| duplicate := u32 (duplicate counters + 1) |> |>) view
      else
        let '(s, ret) := wl_push_event s WL_EVT_RELIABLE_RX (fv_message_id view)
                           (span_data (fv_payload view)) (span_length (fv_payload view)) 0 in
        if negb (is_ok ret) then (s, ret)
        else
          let s := s <| rx_delivered := rx_delivered s ++ [entry] |>
                     <| event := event s <| ev_peer_session_id := fv_session_id view |> |>
                     <| rx_session_id := fv_session_id view |>
                     <| rx_sequence := fv_sequence view |> <| rx_have_reliable := true |> in
          wl_send_ack s view
    else
      let '(s, ret) := wl_push_event s WL_EVT_UNRELIABLE_RX (fv_message_id view)
                         (span_data (fv_payload view)) (span_length (fv_payload view)) 0 in
      (if is_ok ret then s <| rx_delivered := rx_delivered s ++ [entry] |> else s, ret)
  else if fv_type view =? WL_PACKET_ACK then wl_handle_ack s view
  else if fv_type view =? WL_PACKET_NACK then
    let counters := rx_counters s in
    (s <| rx_counters := counters <| unsupported := u32 (unsupported counters + 1) |> |>,
     WL_ERR_NOT_SUPPORTED)
  else (s, WL_OK).

Definition wl_frame_bad_frame (s : wl_ctx) (ret : wl_err) : wl_ctx * wl_err :=
  let counters := rx_counters s in
  let counters :=
    if ret ==? WL_ERR_CRC then counters <| bad_integrity := u32 (bad_integrity counters + 1) |>
    else if ret ==? WL_ERR_NOT_SUPPORTED
    then counters <| unsupported := u32 (unsupported counters + 1) |>
    else counters <| malformed := u32 (malformed counters + 1) |> in
  (s <| rx_counters := counters |>, ret).

(** The view is a local of the caller, so its address is not null. *)
Definition local_view : Z := 1.

Definition wl_feed_parse_stream (s : wl_ctx) (encoded encoded_len : Z) : wl_ctx * wl_err :=
  let '(m, ret) := wl_link_decode_stream (lmem s) (integrity (config s)) encoded encoded_len
                     local_view in
  let s := s <| lmem := m |> in
  match ret with
  | inl e => if e ==? WL_ERR_INVALID_ARG then (s, e) else wl_frame_bad_frame s e
  | inr view => wl_frame_route_view s view
  end.

(** *** Producer entry points *)

Definition stream_link (s : wl_ctx) : bool := envelope (config s) =? WL_ENVELOPE_COBS_STREAM.

Definition wl_rx_reserve (s : wl_ctx) : wl_ctx * wl_err * wl_span :=
  if negb (initialized s) then (s, WL_ERR_NOT_INITIALIZED, mk_span NULL 0)
  else if negb (stream_link s) then (s, WL_ERR_NOT_SUPPORTED, mk_span NULL 0)
  else let '(r, ret, span) := wl_rx_ring_producer_reserve (rx_ring s) in
       (s <| rx_ring := r |>, ret, span).

Definition wl_rx_commit (s : wl_ctx) (len : Z) : wl_ctx * wl_err :=
  if negb (initialized s) then (s, WL_ERR_NOT_INITIALIZED)
  else if negb (stream_link s) then (s, WL_ERR_NOT_SUPPORTED)
  else let '(r, ret) := wl_rx_ring_producer_commit (rx_ring s) len in
       (s <| rx_ring := r |>, ret).

Definition wl_rx_dma_claim (s : wl_ctx) (maximum_length : Z) : wl_ctx * wl_err * (wl_span * Z) :=
  if negb (initialized s) then (s, WL_ERR_NOT_INITIALIZED, (mk_span NULL 0, 0))
  else if negb (stream_link s) then (s, WL_ERR_NOT_SUPPORTED, (mk_span NULL 0, 0))
  else let '(r, ret, claim) := wl_rx_ring_dma_claim (rx_ring s) maximum_length in
       (s <| rx_ring := r |>, ret, claim).

Definition wl_rx_dma_publish (s : wl_ctx) (token offset len : Z) : wl_ctx * wl_err :=
  if negb (initialized s) then (s, WL_ERR_NOT_INITIALIZED)
  else if negb (stream_link s) then (s, WL_ERR_NOT_SUPPORTED)
  else let '(r, ret) := wl_rx_ring_dma_publish (rx_ring s) token offset len in
       (s <| rx_ring := r |>, ret).

Definition wl_rx_dma_finish (s : wl_ctx) (token : Z) : wl_ctx * wl_err :=
  if negb (initialized s) then (s, WL_ERR_NOT_INITIALIZED)
  else if negb (stream_link s) then (s, WL_ERR_NOT_SUPPORTED)
  else let '(r, ret) := wl_rx_ring_dma_finish (rx_ring s) token in
       (s <| rx_ring := r |>, ret).

Definition wl_rx_dma_abort (s : wl_ctx) : wl_ctx * wl_err :=
  if negb (initialized s) then (s, WL_ERR_NOT_INITIALIZED)
  else if negb (stream_link s) then (s, WL_ERR_NOT_SUPPORTED)
  else let '(r, ret) := wl_rx_ring_dma_abort (rx_ring s) in
       (s <| rx_ring := r |>, ret).

Definition note_ring_overflow (s : wl_ctx) : wl_ctx :=
  s <| rx_ring := wl_rx_ring_producer_note_overflow (rx_ring s) |>.

Definition wl_rx_note_overflow (s : wl_ctx) : wl_ctx :=
  if initialized s && stream_link s then note_ring_overflow s else s.

(** The copy loop of [wl_feed_bytes]; [accepted] and the code of a failing ring
    operation.  A pass that goes on accepts at least one byte, so [len] passes
    are enough. *)
Fixpoint feed_bytes_loop (fuel : nat) (s : wl_ctx) (data len accepted : Z)
    : wl_ctx * option wl_err * Z :=
  match fuel with
  | O => (s, None, accepted)
  | S fuel =>
      if accepted <? len then
        let '(s, ret, span) := wl_rx_reserve s in
        if negb (is_ok ret) then (s, Some ret, accepted)
        else if span_length span =? 0 then ((wl_rx_commit s 0).1, None, accepted)
        else
          let chunk := len - accepted in
          let chunk := if chunk >? span_length span then span_length span else chunk in
          let s := s <| lmem := memmove (lmem s) (span_data span) (data + accepted) chunk |> in
          let '(s, ret) := wl_rx_commit s chunk in
          if negb (is_ok ret) then (s, Some ret, accepted)
          else feed_bytes_loop fuel s data len (accepted + chunk)
      else (s, None, accepted)
  end.

(** The third component is what is stored through [out_accepted]. *)
Definition wl_feed_bytes (s : wl_ctx) (data len : Z) : wl_ctx * wl_err * Z :=
  if (data =? NULL) && negb (len =? 0) then (s, WL_ERR_INVALID_ARG, 0)
  else if negb (initialized s) then (s, WL_ERR_NOT_INITIALIZED, 0)
  else if negb (stream_link s) then (s, WL_ERR_NOT_SUPPORTED, 0)
  else match feed_bytes_loop (Z.to_nat len) s data len 0 with
  | (s, Some ret, accepted) => (s, ret, accepted)
  | (s, None, accepted) =>
      if negb (accepted =? len) then (note_ring_overflow s, WL_ERR_WOULD_BLOCK, accepted)
      else (s, WL_OK, accepted)
  end.

(** *** Packet units *)

Definition count_malformed (s : wl_ctx) : wl_ctx :=
  s <| rx_counters := rx_counters s <| malformed := u32 (malformed (rx_counters s) + 1) |> |>.

Definition wl_feed_parse_wire (s : wl_ctx) (data len : Z) : wl_ctx * wl_err :=
  if (data =? NULL) || (len =? 0) then (s, WL_ERR_INVALID_ARG)
  else match wl_frame_decode (lmem s) data len (integrity (config s)) local_view with
  | inr view => wl_frame_route_view s view
  | inl ret => wl_frame_bad_frame s ret
  end.

Definition wl_feed_unit_raw (s : wl_ctx) (unit len : Z) : wl_ctx * wl_err :=
  if unit =? NULL then (s, WL_ERR_INVALID_ARG)
  else if envelope (config s) =? WL_ENVELOPE_BUS_LENGTH16 then
    if len <? 2 then (count_malformed s, WL_ERR_BAD_FRAME)
    else
      let raw_len := Z.lor (Z.shiftl (lmem s unit) 8) (lmem s (unit + 1)) in
      let mtu := max_transmission_unit (config s) in
      if (raw_len + 2 >? len) || (negb (mtu =? 0) && (raw_len + 2 >? mtu))
      then (count_malformed s, WL_ERR_BAD_FRAME)
      else if negb (forallb (λ b, b =? 0)
                      (mread (lmem s) (unit + (raw_len + 2)) (Z.to_nat (len - (raw_len + 2)))))
      then (count_malformed s, WL_ERR_BAD_FRAME)
      else wl_feed_parse_wire s (unit + 2) raw_len
  else wl_feed_parse_wire s unit len.

Definition consume_unit (s : wl_ctx) : wl_ctx :=
  s <| rx_units := (wl_rx_unit_consumer_consume (rx_units s)).1 |>.

(** The loop of [wl_frame_process_units].  A pass that goes on consumes a unit,
    so one pass per queued unit and one to see the queue empty are enough. *)
Fixpoint process_units_loop (fuel : nat) (s : wl_ctx) : wl_ctx :=
  match fuel with
  | O => s
  | S fuel =>
      if has_event s || rx_event_leased s then s
      else
        let unit := wl_rx_unit_consumer_peek (rx_units s) in
        if (span_data unit =? NULL) || (span_length unit =? 0) then s
        else
          let s := s <| rx_candidate_source := WL_RX_SOURCE_UNIT |> in
          let s := (wl_feed_unit_raw s (span_data unit) (span_length unit)).1 in
          if has_event s && is_rx_event (ev_type (event s))
          then s <| rx_pending_consume := 1 |>
          else
            let s := consume_unit s <| rx_candidate_source := WL_RX_SOURCE_NONE |> in
            if has_event s then s else process_units_loop fuel s
  end.

Definition wl_frame_process_units (s : wl_ctx) : wl_ctx :=
  if negb (uq_initialized (rx_units s)) then s
  else process_units_loop (S (Z.to_nat (queued (rx_units s)))) s.

Definition wl_frame_receive_unit (s : wl_ctx) (unit len : Z) : wl_ctx * wl_err :=
  if has_event s || rx_event_leased s then (s, WL_ERR_WOULD_BLOCK)
  else if len >? st_rx_fallback_size (storage s) then (s, WL_ERR_PAYLOAD_TOO_LONG)
  else
    let s := if negb (len =? 0)
             then s <| lmem := memmove (lmem s) (st_rx_fallback (storage s)) unit len |> else s in
    wl_feed_unit_raw (s <| rx_candidate_source := WL_RX_SOURCE_FALLBACK |>)
      (st_rx_fallback (storage s)) len.

Definition wl_feed_unit (s : wl_ctx) (unit len : Z) : wl_ctx * wl_err :=
  if (unit =? NULL) && negb (len =? 0) then (s, WL_ERR_INVALID_ARG)
  else if negb (initialized s) then (s, WL_ERR_NOT_INITIALIZED)
  else if stream_link s then let '(s, ret, _) := wl_feed_bytes s unit len in (s, ret)
  else wl_frame_receive_unit s unit len.

(** *** The byte stream *)

Definition consume_ring (s : wl_ctx) (len : Z) : wl_ctx :=
  s <| rx_ring := (wl_rx_ring_consumer_consume (rx_ring s) len).1 |>.

(** Where the frame in front of the delimiter is decoded: in the ring when it is
    contiguous there, or in a copy; [None] when it does not fit. *)
Definition stream_candidate (s : wl_ctx) (delimiter_offset : Z) : option (wl_ctx * Z) :=
  let contiguous := wl_rx_ring_consumer_peek (rx_ring s) in
  if delimiter_offset <=? span_length contiguous
  then Some (s <| rx_candidate_source := WL_RX_SOURCE_RING |>, span_data contiguous)
  else if delimiter_offset >? st_rx_fallback_size (storage s) then None
  else
    let '(m, ret) := wl_rx_ring_consumer_copy (lmem s) (rx_ring s) 0
                       (st_rx_fallback (storage s)) delimiter_offset in
    if is_ok ret
    then Some (s <| lmem := m |> <| rx_candidate_source := WL_RX_SOURCE_FALLBACK |>,
               st_rx_fallback (storage s))
    else None.

(** The loop of [wl_frame_process_stream].  A pass that goes on consumes at least
    the delimiter, so one pass per readable byte and one to see that there is no
    delimiter left are enough. *)
Fixpoint process_stream_loop (fuel : nat) (s : wl_ctx) : wl_ctx :=
  match fuel with
  | O => s
  | S fuel =>
      if has_event s || rx_event_leased s then s
      else
        let '(r, ret, delimiter_offset) :=
          wl_rx_ring_consumer_find (lmem s) (rx_ring s) 0 in
        let s := s <| rx_ring := r |> in
        if negb (is_ok ret) then s
        else
          let physical_len := delimiter_offset + 1 in
          if delimiter_offset =? 0
          then process_stream_loop fuel (consume_ring s physical_len)
          else match stream_candidate s delimiter_offset with
          | None =>
              let counters := rx_counters s in
              let s := s <| rx_counters := counters <| overflow := u32 (overflow counters + 1) |> |> in
              process_stream_loop fuel (consume_ring s physical_len)
          | Some (s, encoded) =>
              let s := (wl_feed_parse_stream s encoded delimiter_offset).1 in
              if has_event s && is_rx_event (ev_type (event s)) then
                if rx_candidate_source s ==? WL_RX_SOURCE_RING
                then s <| rx_pending_consume := physical_len |>
                else consume_ring s physical_len <| rx_pending_consume := 0 |>
              else
                let s := consume_ring s physical_len
                           <| rx_candidate_source := WL_RX_SOURCE_NONE |> in
                if has_event s then s else process_stream_loop fuel s
          end
  end.

(** An overflow discards what is readable before the loop starts. *)
Definition drop_overflow (s : wl_ctx) : wl_ctx :=
  let '(r, overflow_events) := wl_rx_ring_consumer_take_overflow (rx_ring s) in
  let s := s <| rx_ring := r |> in
  if negb (overflow_events =? 0) then
    let readable := wl_rx_ring_readable (rx_ring s) in
    let remaining := UINT32_MAX - overflow (rx_counters s) in
    let increment := if overflow_events >? remaining then remaining else overflow_events in
    let counters := rx_counters s in
    consume_ring (s <| rx_counters := counters <| overflow := overflow counters + increment |> |>)
      readable
  else s.

Definition wl_frame_process_stream (s : wl_ctx) : wl_ctx :=
  let s := drop_overflow s in
  process_stream_loop (S (Z.to_nat (wl_rx_ring_readable (rx_ring s)))) s.

Definition wl_link_process_rx (s : wl_ctx) : wl_ctx :=
  if negb (stream_link s) then wl_frame_process_units s else wl_frame_process_stream s.

(** ** The owner's pass *)

(** The parts of [wl_poll_transport_progress], in their order. *)

Definition poll_publish_pending (s : wl_ctx) : wl_ctx :=
  if negb (tx_pending_event s ==? WL_EVT_NONE) && negb (has_event s)
     && negb (tx_inflight s && in_flight_reliable s)
  then (wl_push_event s (tx_pending_event s) 0 NULL 0 (tx_handle s)).1
         <| tx_pending_event := WL_EVT_NONE |>
  else s.

Definition poll_receive (s : wl_ctx) : wl_ctx :=
  if negb (control_pending s) && negb (has_event s) && negb (rx_event_leased s)
  then wl_link_process_rx s else s.

Definition poll_queued (s : wl_ctx) : wl_ctx :=
  if negb (has_event s) && negb (control_pending s) && negb (tx_claim_active s)
     && tx_queued s && negb (tx_inflight s) && negb (tx_drain_pending s) && tx_writable s
  then
    let reliable := in_flight_reliable s in
    let '(s, sent) := if reliable then wl_send_tx_payload s else wl_submit_data s false in
    if negb (is_ok sent) then
      let s := s <| tx_queued := false |> <| in_flight_reliable := false |> in
      if reliable then tx_fail s WL_ERR_IO WL_EVT_TX_FAILED
      else s <| tx_unreliable_len := 0 |>
    else s
  else s.

Definition poll_timeout (s : wl_ctx) (now : Z) : wl_ctx :=
  if negb (has_event s) && negb (control_pending s) && negb (tx_inflight s)
     && negb (tx_queued s) && negb (tx_claim_active s)
     && (tx_state s ==? WL_TX_STATE_WAITING_ACK) && (tx_wait_state s ==? WL_TX_WAIT_ACK)
     && initialized s && negb (ack_timeout_ms (config s) =? 0)
  then
    if u32 (now - tx_start_ts s) >=? ack_timeout_ms (config s) then
      if tx_retries_left s =? 0 then tx_fail s WL_ERR_TIMEOUT WL_EVT_TX_TIMEOUT
      else
        let '(s, retry) := wl_send_tx_payload s in
        if is_ok retry then
          let s := count_retry s in
          if tx_state s ==? WL_TX_STATE_WAITING_ACK then s <| tx_start_ts := now |> else s
        else tx_fail s WL_ERR_IO WL_EVT_TX_FAILED
    else s
  else s.

Definition wl_poll_transport_progress (s : wl_ctx) (now : Z) : wl_ctx :=
  let s := (wl_submit_control s).1 in
  let s := poll_publish_pending s in
  let s := poll_receive s in
  let s := poll_queued s in
  poll_timeout s now.

Definition event_zero : wl_event := mk_event WL_EVT_NONE 0 NULL 0 0 0 0 0.

(** The third component is what is stored through [out_event]. *)
Definition wl_poll (s : wl_ctx) (now : Z) : wl_ctx * wl_err * wl_event :=
  if negb (initialized s) then (s, WL_ERR_NOT_INITIALIZED, event_zero)
  else
    let s := s <| now_ms := now |> in
    let s :=
      if control_pending s || negb (tx_pending_event s ==? WL_EVT_NONE) || tx_queued s
         || (tx_state s ==? WL_TX_STATE_WAITING_ACK)
         || (negb (has_event s) && negb (rx_event_leased s)
             && (stream_link s || uq_initialized (rx_units s)))
      then wl_poll_transport_progress s now else s in
    let s :=
      if negb (has_event s) && negb (tx_unreliable_completions s =? 0) then
        let '(s, ret) := wl_push_event s WL_EVT_TX_SUCCESS 0 NULL 0 0 in
        if is_ok ret
        then s <| tx_unreliable_completions := tx_unreliable_completions s - 1 |> else s
      else s in
    if negb (has_event s) then (s, WL_ERR_NO_DATA, event_zero)
    else
      let out_event := event s in
      let s := s <| has_event := false |> in
      (if is_rx_event (ev_type out_event) then s <| rx_event_leased := true |> else s,
       WL_OK, out_event).

(** ** [transport.c] *)

Definition wl_set_sink (s : wl_ctx) (new_sink user_data : Z) : wl_ctx * wl_err :=
  if negb (initialized s) then (s, WL_ERR_NOT_INITIALIZED)
  else if in_callback s then (s, WL_ERR_REENTRANT)
  else (s <| sink := new_sink |> <| sink_user_data := user_data |>, WL_OK).

Definition wl_set_tx_drain_required (s : wl_ctx) (required : Z) : wl_ctx * wl_err :=
  if negb (initialized s) then (s, WL_ERR_NOT_INITIALIZED)
  else if tx_inflight s || control_inflight s || tx_drain_pending s then (s, WL_ERR_BUSY)
  else (s <| tx_drain_required := negb (required =? 0) |>, WL_OK).

Definition wl_tx_writable (s : wl_ctx) : wl_ctx * wl_err :=
  if negb (initialized s) then (s, WL_ERR_NOT_INITIALIZED)
  else (s <| tx_writable := true |>
          <| resource_generation := u32 (resource_generation s + 1) |>, WL_OK).

Definition tx_terminal (s : wl_ctx) : bool :=
  (tx_state s ==? WL_TX_STATE_SUCCESS) || (tx_state s ==? WL_TX_STATE_FAILED)
  || (tx_state s ==? WL_TX_STATE_CANCELLED).

Definition wl_tx_can_take (s : wl_ctx) (handle : Z) : bool :=
  initialized s && negb (handle =? 0) && (handle =? tx_handle s)
  && negb (tx_inflight s && in_flight_reliable s) && tx_terminal s.

Definition wl_link_resource_generation (s : wl_ctx) : Z := resource_generation s.

Definition wl_tx_can_submit (s : wl_ctx) (delivery : Z) : bool :=
  initialized s && negb (sink s =? NULL) && negb (tx_inflight s)
  && negb (tx_drain_pending s) && negb (control_pending s) && negb (control_inflight s)
  && negb (tx_queued s) && negb (tx_claim_active s)
  && (if delivery =? WL_DELIVERY_RELIABLE then tx_handle s =? 0
      else negb (wl_tx_retry_due s (now_ms s))).

Definition wl_rx_has_space (s : wl_ctx) : bool :=
  initialized s && wl_rx_ring_has_space (rx_ring s).

Definition wl_get_config (s : wl_ctx) : wl_err + wl_config :=
  if negb (initialized s) then inl WL_ERR_NOT_INITIALIZED else inr (config s).

Definition wl_tx_cancel (s : wl_ctx) (handle : Z) : wl_ctx * wl_err :=
  if negb (initialized s) then (s, WL_ERR_NOT_INITIALIZED)
  else if (handle =? 0) || negb (handle =? tx_handle s) then (s, WL_ERR_NOT_FOUND)
  else if (tx_state s ==? WL_TX_STATE_IDLE) || tx_terminal s then (s, WL_ERR_INVALID_STATE)
  else
    let s :=
      if tx_inflight s && in_flight_reliable s then s <| tx_cancel_requested := true |>
      else if tx_queued s && in_flight_reliable s
      then s <| tx_queued := false |> <| in_flight_reliable := false |> else s in
    (s <| tx_state := WL_TX_STATE_CANCELLED |> <| tx_wait_state := WL_TX_WAIT_NONE |>
       <| tx_waiting_seq := 0 |> <| tx_retries_left := 0 |>
       <| tx_result_code := WL_ERR_CANCELLED |>, WL_OK).

Definition wl_tx_status (s : wl_ctx) (handle : Z) : wl_err + wl_tx_state :=
  if negb (initialized s) then inl WL_ERR_NOT_INITIALIZED
  else if (handle =? 0) || negb (handle =? tx_handle s) then inl WL_ERR_NOT_FOUND
  else inr (tx_state s).

Definition wl_tx_take (s : wl_ctx) (handle : Z) : wl_ctx * (wl_err + wl_tx_result) :=
  if negb (initialized s) then (s, inl WL_ERR_NOT_INITIALIZED)
  else if (handle =? 0) || negb (handle =? tx_handle s) then (s, inl WL_ERR_NOT_FOUND)
  else if (tx_inflight s && in_flight_reliable s) || negb (tx_terminal s)
  then (s, inl WL_ERR_INVALID_STATE)
  else
    let result := mk_tx_result (tx_state s) (tx_result_code s) (tx_retries_used s) in
    (s <| resource_generation := u32 (resource_generation s + 1) |> <| tx_handle := 0 |>
       <| tx_pending_event := WL_EVT_NONE |> <| tx_state := WL_TX_STATE_IDLE |>
       <| tx_cancel_requested := false |> <| tx_wait_state := WL_TX_WAIT_NONE |>
       <| tx_waiting_seq := 0 |> <| tx_payload := mk_span (st_tx_payload (storage s)) 0 |>
       <| tx_encoded_len := 0 |>, inr result).

Definition wl_feed_recover_reset (s : wl_ctx) : wl_ctx * wl_err :=
  if negb (initialized s) then (s, WL_ERR_NOT_INITIALIZED)
  else if negb (stream_link s) then (s, WL_ERR_NOT_SUPPORTED)
  else if rx_event_leased s then (s, WL_ERR_WOULD_BLOCK)
  else (consume_ring s (wl_rx_ring_readable (rx_ring s)), WL_OK).

Definition wl_rx_get_counters (s : wl_ctx) : wl_err + wl_rx_counters :=
  if negb (initialized s) then inl WL_ERR_NOT_INITIALIZED else inr (rx_counters s).

Definition wl_event_release (s : wl_ctx) (ev : wl_event) : wl_ctx :=
  if negb (initialized s) then s
  else if is_rx_event (ev_type ev) && rx_event_leased s
          && (ev_lease ev =? rx_event_generation s) then
    let s := s <| rx_event_leased := false |>
               <| resource_generation := u32 (resource_generation s + 1) |> in
    let s :=
      if negb (rx_pending_consume s =? 0) then
        (if rx_candidate_source s ==? WL_RX_SOURCE_UNIT then consume_unit s
         else consume_ring s (rx_pending_consume s)) <| rx_pending_consume := 0 |>
      else s in
    s <| rx_candidate_source := WL_RX_SOURCE_NONE |>
      <| rx_payload := rx_payload s <| span_length := 0 |> |>
  else s.

(** ** [unit_rx.c] on the queue of a context *)

Definition link_unit_queue_init (s : wl_ctx) (qc : unit_queue_config) : wl_ctx * wl_err :=
  let '(q, ret) := wl_rx_unit_queue_init lock_free (initialized s) (envelope (config s))
                     (integrity (config s)) (max_payload_len (config s)) (rx_units s) qc in
  (s <| rx_units := q |>, ret).

Definition link_unit_claim (s : wl_ctx) (maximum_length : Z) : wl_ctx * wl_err * unit_claim :=
  let '(q, ret, claim) := wl_rx_unit_claim (initialized s) (rx_units s) maximum_length in
  (s <| rx_units := q |>, ret, claim).

Definition link_unit_commit (s : wl_ctx) (claim : unit_claim) (len : Z) : wl_ctx * wl_err :=
  let '(q, ret) := wl_rx_unit_commit (initialized s) (rx_units s) claim len in
  (s <| rx_units := q |>, ret).

Definition link_unit_abort (s : wl_ctx) (claim : unit_claim) : wl_ctx * wl_err :=
  let '(q, ret) := wl_rx_unit_abort (initialized s) (rx_units s) claim in
  (s <| rx_units := q |>, ret).

(** ** [schedule.c]

    The delimiter search writes its cache, so the hint returns a state. *)

Definition wl_rx_runnable (s : wl_ctx) : wl_ctx * bool :=
  if rx_event_leased s then (s, false)
  else if stream_link s then
    if wl_rx_ring_consumer_overflow_pending (rx_ring s) then (s, true)
    else
      let '(r, ret, _) := wl_rx_ring_consumer_find (lmem s) (rx_ring s) 0 in
      let s := s <| rx_ring := r |> in
      if is_ok ret then (s, true) else (s, wl_rx_unit_consumer_has_data (rx_units s))
  else (s, wl_rx_unit_consumer_has_data (rx_units s)).

Definition wl_link_get_readiness (s : wl_ctx) (now : Z) : wl_ctx * wl_err * wl_readiness :=
  if negb (initialized s)
  then (s, WL_ERR_NOT_INITIALIZED, mk_readiness false WL_NO_DEADLINE false)
  else
    let busy := has_event s || negb (tx_unreliable_completions s =? 0)
                || (negb (tx_pending_event s ==? WL_EVT_NONE)
                    && negb (tx_inflight s && in_flight_reliable s)) in
    let '(s, run) :=
      if busy then (s, true)
      else if control_pending s then (s, false) else wl_rx_runnable s in
    let turn := tx_writable s && negb (tx_inflight s) && negb (control_inflight s)
                && negb (tx_drain_pending s) && negb (tx_claim_active s) in
    let waiting := control_pending s || tx_queued s in
    let run := run || (waiting && turn) in
    let block := (waiting && negb turn) || tx_inflight s || control_inflight s
                 || tx_drain_pending s || rx_event_leased s || tx_claim_active s in
    if negb (control_pending s) && negb (tx_inflight s) && negb (tx_queued s)
       && negb (tx_claim_active s) && (tx_state s ==? WL_TX_STATE_WAITING_ACK)
       && (tx_wait_state s ==? WL_TX_WAIT_ACK) && negb (ack_timeout_ms (config s) =? 0)
    then
      let elapsed := u32 (now - tx_start_ts s) in
      if elapsed >=? ack_timeout_ms (config s) then (s, WL_OK, mk_readiness true 0 block)
      else (s, WL_OK, mk_readiness run (ack_timeout_ms (config s) - elapsed) true)
    else (s, WL_OK, mk_readiness run WL_NO_DEADLINE block).

(** ** [init.c] *)

Definition wl_link_session_id (s : wl_ctx) : Z := session_id s.

Definition storage_overlaps (a a_size b b_size : Z) : bool :=
  if a <=? b then b - a <? a_size else a - b <? b_size.

(** [wl_profile_supported] of the general build. *)
Definition wl_profile_supported (envelope integrity : Z) : bool := true.

Definition wl_max_unit_size (c : wl_config) : Z :=
  let raw := wl_frame_raw_size (max_payload_len c) (integrity c) in
  if raw =? 0 then 0
  else if envelope c =? WL_ENVELOPE_COBS_STREAM then wl_cobs_encoded_max_size raw + 1
  else if envelope c =? WL_ENVELOPE_BUS_LENGTH16 then raw + 2
  else raw.

Definition wl_config_requirements (c : wl_config) : wl_err + wl_storage_requirements :=
  if (max_payload_len c =? 0) || (max_payload_len c >? WL_PACKET_MAX_PAYLOAD)
  then inl WL_ERR_INVALID_ARG
  else if negb (wl_profile_envelope_valid (envelope c)) then inl WL_ERR_INVALID_ARG
  else if negb (wl_profile_integrity_valid (integrity c)) then inl WL_ERR_INVALID_ARG
  else if cfg_session_id c =? 0 then inl WL_ERR_INVALID_ARG
  else if ack_timeout_ms c >=? 0x80000000 then inl WL_ERR_INVALID_ARG
  else if negb (wl_profile_supported (envelope c) (integrity c)) then inl WL_ERR_NOT_SUPPORTED
  else
    let unit := wl_max_unit_size c in
    let control := wl_frame_encode_overhead (envelope c) (integrity c) in
    if (unit =? 0) || (control =? 0)
       || (negb (max_transmission_unit c =? 0) && (max_transmission_unit c <? unit))
    then inl WL_ERR_INVALID_ARG
    else
      let stream := envelope c =? WL_ENVELOPE_COBS_STREAM in
      inr (mk_requirements (max_payload_len c) unit control
             (if stream then wl_rx_ring_storage_size unit else 0)
             (if stream then unit - 1 else unit)).

(** The context after [memset]; the ghost fields are not part of it. *)
Definition ctx_zero (m : mem) (log : list io_entry) (views delivered : list rx_entry)
    (c : wl_config) (st : wl_storage) : wl_ctx :=
  {| lmem := m; io_log := log; rx_log := views; rx_delivered := delivered; rx_ring := ring_zero; rx_units := unit_queue_zero;
     config := c; storage := st; initialized := false; sink := NULL; sink_user_data := NULL;
     tx_state := WL_TX_STATE_IDLE; tx_pending_event := WL_EVT_NONE; tx_handle := 0;
     tx_unreliable_completions := 0; tx_token := 0; tx_start_ts := 0; tx_retries_left := 0;
     tx_retries_max := 0; tx_retries_used := 0; tx_sequence := 0; tx_waiting_seq := 0;
     tx_inflight := false; tx_writable := false; resource_generation := 0;
     tx_drain_required := false; tx_drain_pending := false; tx_drain_reliable := false;
     tx_drain_token := 0; tx_wait_state := WL_TX_WAIT_NONE; tx_cancel_requested := false;
     tx_generation := 0; tx_result_code := WL_OK; tx_last_message_id := 0;
     tx_claim_active := false; tx_claim_reliable := false; tx_claim_message_id := 0;
     tx_claim_token := 0; tx_claim_payload := mk_span NULL 0; session_id := 0;
     rx_sequence := 0; rx_session_id := 0; rx_have_reliable := false; event := event_zero;
     has_event := false; in_callback := false; in_flight_reliable := false;
     control_pending := false; control_inflight := false; tx_queued := false;
     tx_encoded_len := 0; tx_unreliable_len := 0; control_len := 0; rx_event_leased := false;
     rx_candidate_source := WL_RX_SOURCE_NONE; rx_event_generation := 0;
     rx_pending_consume := 0; rx_counters := mk_counters 0 0 0 0 0; now_ms := 0;
     rx_payload := mk_span NULL 0; tx_payload := mk_span NULL 0 |}.

Definition wl_init (s : wl_ctx) (c : wl_config) (st : wl_storage) : wl_ctx * wl_err :=
  match wl_config_requirements c with
  | inl e => (s, e)
  | inr rq =>
      if (st_tx_payload st =? NULL) || (st_tx_unit st =? NULL) || (st_control_unit st =? NULL)
         || (st_rx_fallback st =? NULL)
         || (st_tx_payload_size st <? rq_tx_payload_size rq)
         || (st_tx_unit_size st <? rq_tx_unit_size rq)
         || (st_control_unit_size st <? rq_control_unit_size rq)
         || (st_rx_fallback_size st <? rq_rx_fallback_size rq)
         || (negb (rq_rx_fifo_size rq =? 0)
             && ((st_rx_fifo st =? NULL) || (st_rx_fifo_size st <? rq_rx_fifo_size rq)))
      then (s, WL_ERR_BUF_TOO_SMALL)
      else if storage_overlaps (st_tx_payload st) (st_tx_payload_size st)
                (st_tx_unit st) (st_tx_unit_size st)
              || storage_overlaps (st_tx_payload st) (st_tx_payload_size st)
                   (st_control_unit st) (st_control_unit_size st)
              || storage_overlaps (st_tx_unit st) (st_tx_unit_size st)
                   (st_control_unit st) (st_control_unit_size st)
      then (s, WL_ERR_INVALID_ARG)
      else
        let retries := if negb (max_retries c =? 0) then max_retries c else 0 in
        let s := ctx_zero (lmem s) (io_log s) (rx_log s) (rx_delivered s) c st
                   <| tx_retries_max := retries |> <| tx_retries_left := retries |> <| session_id := cfg_session_id c |>
                   <| tx_token := 1 |> <| tx_payload := mk_span (st_tx_payload st) 0 |>
                   <| rx_payload := mk_span (st_rx_fallback st) 0 |> in
        let '(r, ring_ret) :=
          if negb (rq_rx_fifo_size rq =? 0)
          then wl_rx_ring_init lock_free (rx_ring s) (st_rx_fifo st) (st_rx_fifo_size st)
          else (rx_ring s, WL_OK) in
        let s := s <| rx_ring := r |> in
        if negb (is_ok ring_ret) then (s, WL_ERR_INVALID_ARG)
        else (s <| tx_writable := true |> <| initialized := true |>, WL_OK)
  end.
End Link.
