(* ===== verification/LinkInv.v ===== *)
(** Reachable links.

    [link_op] names every public operation of the engine and [link_step] runs
    one.  [tx_inv] ties together the flags of the transmit side; every operation
    preserves it, whatever the sink answers. *)
From Stdlib Require Import Sorted.
From S2P Require Import Prelude Cobs Frame RxRing UnitQueue Link.
#[local] Open Scope wl_scope.

(** ** Operations *)

Inductive link_op :=
  | OpSetSink (new_sink user_data : Z)
  | OpSetDrainRequired (required : Z)
  | OpWritable
  | OpSendUnreliable (message_id payload payload_len : Z)
  | OpSendReliable (message_id payload payload_len now out_handle : Z)
  | OpClaim (message_id delivery : Z)
  | OpCommit (claim : wl_tx_payload_claim_t) (payload_len now out_handle : Z)
  | OpAbort (claim : wl_tx_payload_claim_t)
  | OpConsumed (token io_result : Z)
  | OpDrained (token io_result : Z)
  | OpCancel (handle : Z)
  | OpTake (handle : Z)
  | OpPoll (now : Z)
  | OpRelease (ev : wl_event)
  | OpReadiness (now : Z)
  | OpOwnerTime (now : Z)
  | OpFeedBytes (data len : Z)
  | OpFeedUnit (unit len : Z)
  | OpRxReserve
  | OpRxCommit (len : Z)
  | OpDmaClaim (maximum_length : Z)
  | OpDmaPublish (token offset len : Z)
  | OpDmaFinish (token : Z)
  | OpDmaAbort
  | OpNoteOverflow
  | OpRecoverReset
  | OpUnitInit (qc : unit_queue_config)
  | OpUnitClaim (maximum_length : Z)
  | OpUnitCommit (claim : unit_claim) (len : Z)
  | OpUnitAbort (claim : unit_claim)
  | OpStore (address value : Z).

Section Step.
Context `{Platform}.

(** [OpStore] is a store of the application or of a driver, [OpOwnerTime] the time
    that an owner pass of the pump starts from. *)
Definition link_step (op : link_op) (s : wl_ctx) : wl_ctx :=
  match op with
  | OpSetSink k u => (wl_set_sink s k u).1
  | OpSetDrainRequired r => (wl_set_tx_drain_required s r).1
  | OpWritable => (wl_tx_writable s).1
  | OpSendUnreliable i p n => (wl_send_unreliable s i p n).1
  | OpSendReliable i p n now out => (wl_send_reliable s i p n now out).1.1
  | OpClaim i d => (wl_tx_payload_claim s i d).1.1
  | OpCommit c n now out => (wl_tx_payload_commit s c n now out).1.1
  | OpAbort c => (wl_tx_payload_abort s c).1
  | OpConsumed t r => (wl_tx_consumed s t r).1
  | OpDrained t r => (wl_tx_drained s t r).1
  | OpCancel h => (wl_tx_cancel s h).1
  | OpTake h => (wl_tx_take s h).1
  | OpPoll now => (wl_poll s now).1.1
  | OpRelease ev => wl_event_release s ev
  | OpReadiness now => (wl_link_get_readiness s now).1.1
  | OpOwnerTime now => s <| now_ms := now |>
  | OpFeedBytes p n => (wl_feed_bytes s p n).1.1
  | OpFeedUnit p n => (wl_feed_unit s p n).1
  | OpRxReserve => (wl_rx_reserve s).1.1
  | OpRxCommit n => (wl_rx_commit s n).1
  | OpDmaClaim n => (wl_rx_dma_claim s n).1.1
  | OpDmaPublish t o n => (wl_rx_dma_publish s t o n).1
  | OpDmaFinish t => (wl_rx_dma_finish s t).1
  | OpDmaAbort => (wl_rx_dma_abort s).1
  | OpNoteOverflow => wl_rx_note_overflow s
  | OpRecoverReset => (wl_feed_recover_reset s).1
  | OpUnitInit qc => (link_unit_queue_init s qc).1
  | OpUnitClaim n => (link_unit_claim s n).1.1
  | OpUnitCommit c n => (link_unit_commit s c n).1
  | OpUnitAbort c => (link_unit_abort s c).1
  | OpStore a v => s <| lmem := mset (lmem s) a v |>
  end.

Definition link_run (ops : list link_op) (s : wl_ctx) : wl_ctx :=
  foldl (λ s op, link_step op s) s ops.

(** A link some time after a successful [wl_init]. *)
Inductive link_reachable (c : wl_config) (st : wl_storage) : wl_ctx → Prop :=
  | reach_init s0 s :
      wl_init s0 c st = (s, WL_OK) → io_log s0 = [] → rx_log s0 = [] → rx_delivered s0 = [] →
      link_reachable c st s
  | reach_step s op : link_reachable c st s → link_reachable c st (link_step op s).
End Step.

(** ** The transmit side

    [cfg] and [stg] are what the link was initialized with. *)
Section Invariant.
Context {plat : Platform} (cfg : wl_config) (stg : wl_storage).

Definition sending (s : wl_ctx) : Prop :=
  tx_state s = WL_TX_STATE_SENDING ∨ tx_state s = WL_TX_STATE_WAITING_ACK.

Definition terminal (s : wl_ctx) : Prop :=
  tx_state s = WL_TX_STATE_SUCCESS ∨ tx_state s = WL_TX_STATE_FAILED ∨
  tx_state s = WL_TX_STATE_CANCELLED.

Lemma tx_terminal_spec s : tx_terminal s = true ↔ terminal s.
Proof.
  unfold tx_terminal, terminal. rewrite !orb_true_iff, !bool_decide_eq_true. tauto.
Qed.

Record tx_inv (s : wl_ctx) : Prop := {
  ti_fixed : config s = cfg ∧ storage s = stg ∧ session_id s = cfg_session_id cfg ∧
    tx_retries_max s = max_retries cfg;
  ti_init : initialized s = true;
  ti_callback : in_callback s = false;
  (** One unit at a time, and none while the application holds the payload. *)
  ti_exclusive : tx_inflight s = true →
    control_inflight s = false ∧ tx_queued s = false ∧ tx_claim_active s = false;
  ti_control : control_inflight s = true → control_pending s = true;
  (** [tx_queued] with [in_flight_reliable] is a reliable unit that waits for
      the sink, [tx_inflight] with it one that the sink owns. *)
  ti_queued : tx_queued s = true →
    tx_claim_active s = false ∧
    (in_flight_reliable s = true → tx_state s = WL_TX_STATE_SENDING);
  ti_kind : in_flight_reliable s = true →
    tx_handle s ≠ 0 ∧ (tx_inflight s = true ∨ tx_queued s = true) ∧
    tx_state s ≠ WL_TX_STATE_FAILED;
  ti_handle : tx_handle s = 0 ↔ tx_state s = WL_TX_STATE_IDLE;
  ti_sending : tx_state s = WL_TX_STATE_SENDING → in_flight_reliable s = true;
  ti_waiting : tx_state s = WL_TX_STATE_WAITING_ACK →
    tx_wait_state s ≠ WL_TX_WAIT_NONE ∧ in_flight_reliable s = false;
  ti_settled : ¬ sending s → tx_wait_state s = WL_TX_WAIT_NONE;
  (** The transaction waits for the line only while its own unit drains. *)
  ti_drain : tx_wait_state s = WL_TX_WAIT_DRAIN →
    tx_state s = WL_TX_STATE_WAITING_ACK ∧ tx_drain_pending s = true ∧
    tx_drain_reliable s = true ∧ tx_inflight s = false ∧ control_inflight s = false ∧
    tx_queued s = false;
  ti_required : tx_drain_pending s = true → tx_drain_required s = true;
  ti_cancel : tx_cancel_requested s = true →
    tx_state s = WL_TX_STATE_CANCELLED ∧ tx_inflight s = true ∧ in_flight_reliable s = true;
  ti_pending : tx_pending_event s ≠ WL_EVT_NONE → terminal s;
  ti_retries : 0 <= tx_retries_left s ∧ 0 <= tx_retries_used s ∧
    tx_retries_left s + tx_retries_used s <= tx_retries_max s ∧ tx_retries_max s < 2 ^ 16;
  ti_live : sending s →
    tx_retries_left s + tx_retries_used s = tx_retries_max s ∧
    0 <= tx_waiting_seq s < tx_sequence s;
  ti_sequence : 0 <= tx_sequence s <= UINT32_MAX;
}.

(** ** The log of reliable submissions *)

Definition accepted (a : wl_sink_result) : bool :=
  match a with WL_SINK_SENT | WL_SINK_STARTED => true | _ => false end.

(** Sequence number of every reliable DATA unit offered to the sink, and whether
    the sink took it. *)
Definition attempts (log : list io_entry) : list (Z * bool) :=
  omap (λ e, match io_what e with
             | IO_RELIABLE q => Some (q, accepted (io_answer e))
             | _ => None
             end) log.

(** How often the sink took a unit with sequence number [q]. *)
Definition transmissions (q : Z) (log : list io_entry) : Z :=
  Z.of_nat (length (filter (λ a, a = (q, true)) (attempts log))).

(** The reliable unit waits in the link for the sink to take it. *)
Definition owed (s : wl_ctx) : Z :=
  if tx_queued s && in_flight_reliable s then 1 else 0.

(** [k] is 1, except between a retransmission and the update of its counter. *)
Record log_inv (k : Z) (s : wl_ctx) : Prop := {
  lg_range : Forall (λ a, 0 <= a.1 < tx_sequence s) (attempts (io_log s));
  lg_sorted : StronglySorted Z.le (attempts (io_log s)).*1;
  lg_bound : ∀ q, transmissions q (io_log s) <= 1 + tx_retries_max s;
  lg_current : sending s → Forall (λ a, a.1 <= tx_waiting_seq s) (attempts (io_log s));
  lg_owed : sending s →
    transmissions (tx_waiting_seq s) (io_log s) + owed s <= tx_retries_used s + k;
}.

Definition link_inv (s : wl_ctx) : Prop := tx_inv s ∧ log_inv 1 s.

(** [lia] on the arithmetic hypotheses alone: the flags would make it search. *)
Ltac arith :=
  repeat match goal with
  | H : ?P |- _ =>
      lazymatch type of P with Prop => idtac end;
      lazymatch P with
      | _ <= _ => fail | _ < _ => fail | @eq Z _ _ => fail | not (@eq Z _ _) => fail
      | @eq Z _ _ → False => fail
      | _ ∧ _ => fail | _ => clear H
      end
  end; lia.

Lemma attempts_app l k : attempts (l ++ k) = attempts l ++ attempts k.
Proof. apply omap_app. Qed.

Lemma transmissions_app q l k :
  transmissions q (l ++ k) = transmissions q l + transmissions q k.
Proof. unfold transmissions. rewrite attempts_app, filter_app, length_app. lia. Qed.

Lemma transmissions_nonneg q l : 0 <= transmissions q l.
Proof. unfold transmissions. lia. Qed.

Lemma sorted_snoc l x :
  StronglySorted Z.le l → Forall (λ y, y <= x) l → StronglySorted Z.le (l ++ [x]).
Proof.
  induction 1 as [|y l Hs IH Hy]; intros Hx; [by repeat constructor|].
  inversion_clear Hx. constructor; [by apply IH|]. apply Forall_app. by split; [|constructor].
Qed.

(** Anything that does not offer a reliable unit to the sink keeps the log
    invariant, as long as it does not move the transaction. *)
Lemma log_inv_keep k s s' :
  log_inv k s → attempts (io_log s') = attempts (io_log s) →
  tx_sequence s <= tx_sequence s' → tx_retries_max s' = tx_retries_max s →
  (sending s' → sending s ∧ tx_waiting_seq s' = tx_waiting_seq s ∧
     tx_retries_used s' = tx_retries_used s ∧ owed s' <= owed s) →
  log_inv k s'.
Proof.
  intros [] Ea Eq Em Hs.
  assert (∀ q, transmissions q (io_log s') = transmissions q (io_log s)) as Et
    by (intros q; unfold transmissions; by rewrite Ea).
  split; rewrite ?Ea, ?Em; try done.
  - eapply Forall_impl; [exact lg_range0|]. cbn. lia.
  - intros q. by rewrite Et.
  - intros H. destruct (Hs H) as (Hs' & -> & _). by apply lg_current0.
  - intros H. destruct (Hs H) as (Hs' & -> & -> & Ho). rewrite Et. specialize (lg_owed0 Hs'). lia.
Qed.

(** The fields the invariants speak about. *)
Definition link_view (s : wl_ctx) :=
  (attempts (io_log s), (config s, storage s, session_id s),
   (initialized s, in_callback s, tx_inflight s, control_inflight s, tx_queued s,
    tx_claim_active s, control_pending s, in_flight_reliable s, tx_cancel_requested s,
    tx_drain_pending s, tx_drain_reliable s, tx_drain_required s),
   (tx_state s, tx_wait_state s, tx_pending_event s, tx_handle s,
    tx_retries_left s, tx_retries_used s, tx_retries_max s, tx_waiting_seq s, tx_sequence s)).

Lemma tx_inv_ext s s' : link_view s' = link_view s → tx_inv s → tx_inv s'.
Proof.
  unfold link_view. intros E Hinv. injection E; intros. clear E. destruct Hinv.
  unfold sending, terminal in *.
  split; unfold sending, terminal; repeat match goal with H : _ s' = _ |- _ => rewrite H end;
    assumption.
Qed.

Lemma link_inv_ext s s' : link_view s' = link_view s → link_inv s → link_inv s'.
Proof.
  intros E [Ht Hl]. split; [by eapply tx_inv_ext|]. unfold link_view in E.
  injection E; intros. apply (log_inv_keep 1 s); [exact Hl|assumption|arith|assumption|].
  unfold sending, owed. repeat match goal with H : _ s' = _ |- _ => rewrite H end.
  intros ?. split_and!; [done..|arith].
Qed.

(** Replaces the fields of [s'] by what a [link_view] equation says. *)
Ltac rewrite_view s' :=
  repeat match goal with H : ?x = _ |- context [?x] =>
    lazymatch x with context [s'] => rewrite H end end.

(** Two states with the same view; reduced before the kernel compares them. *)
Ltac view_refl := unfold link_view; cbn; reflexivity.

(** Decides [is_ok] of a given code. *)
Ltac eval_ok :=
  repeat match goal with
  | |- context [is_ok ?e] =>
      let b := eval vm_compute in (is_ok e) in
      lazymatch b with true => idtac | false => idtac end; change (is_ok e) with b
  end; cbn [negb].

(** The hypotheses of [tx_inv] whose premise holds. *)
Ltac use_inv :=
  repeat match goal with
  | H : _ ∧ _ |- _ => destruct H
  | H : ?P → _ |- _ =>
      lazymatch type of P with Prop => idtac end;
      let HP := fresh in assert (HP : P) by congruence; specialize (H HP); clear HP
  end.

(** Proves [tx_inv] of an updated state from that of the old one. *)
Ltac tx_solve :=
  split; unfold sending, terminal in *; cbn; try assumption; intros; use_inv;
  try solve [congruence | arith | intuition (congruence || arith)].

(** The same for [log_inv] when nothing reliable was offered to the sink. *)
Ltac log_solve :=
  eapply log_inv_keep; [eassumption|..]; unfold sending, owed in *; cbn;
  [ rewrite ?attempts_app; cbn; rewrite ?app_nil_r; reflexivity
  | arith | try reflexivity
  | let Hs := fresh in
    intros Hs; first [by destruct Hs | split_and!];
    first [ exact Hs | reflexivity | left; assumption | right; assumption | arith
          | solve [rewrite ?andb_false_r, ?andb_true_r; repeat match goal with |- context [if ?b then _ else _] => destruct b end; arith]
          | idtac ] ].

Ltac inv_solve :=
  match goal with H : tx_inv _ |- _ => destruct H end;
  split; [tx_solve|log_solve].

(** A state with a transaction and nothing on the way, whatever [tx_state] says. *)
Record tx_parked (s : wl_ctx) : Prop := {
  cs_fixed : config s = cfg ∧ storage s = stg ∧ session_id s = cfg_session_id cfg ∧
    tx_retries_max s = max_retries cfg;
  cs_init : initialized s = true;
  cs_callback : in_callback s = false;
  cs_inflight : tx_inflight s = false;
  cs_control : control_inflight s = false;
  cs_claim : tx_claim_active s = false;
  cs_handle : tx_handle s ≠ 0;
  cs_cancel : tx_cancel_requested s = false;
  cs_pending : tx_pending_event s = WL_EVT_NONE;
  cs_wait : tx_wait_state s ≠ WL_TX_WAIT_DRAIN;
  cs_retries : 0 <= tx_retries_left s ∧ 0 <= tx_retries_used s ∧
    tx_retries_left s + tx_retries_used s = tx_retries_max s ∧ tx_retries_max s < 2 ^ 16;
  cs_waiting : 0 <= tx_waiting_seq s < tx_sequence s;
  cs_sequence : tx_sequence s <= UINT32_MAX;
  cs_required : tx_drain_pending s = true → tx_drain_required s = true;
  cs_range : Forall (λ a, 0 <= a.1 <= tx_waiting_seq s) (attempts (io_log s));
  cs_sorted : StronglySorted Z.le (attempts (io_log s)).*1;
  cs_bound : ∀ q, transmissions q (io_log s) <= 1 + tx_retries_max s;
}.

(** The reliable unit may be offered to the sink; [k] is the number of
    transmissions the retry counter allows on top of [tx_retries_used]. *)
Record can_send (k : Z) (s : wl_ctx) : Prop := {
  cs_parked : tx_parked s;
  cs_owed : transmissions (tx_waiting_seq s) (io_log s) + 1 <= tx_retries_used s + k;
  cs_limit : tx_retries_used s + k <= 1 + tx_retries_max s;
}.

Lemma submit_control_inv s : link_inv s → link_inv (wl_submit_control s).1.
Proof.
  intros [Ht Hl]. unfold wl_submit_control, sink_call.
  destruct (_ || negb (tx_writable s)) eqn:Eg; [done|].
  destruct (sink s =? NULL); [done|]. destruct (in_callback s) eqn:Ecb; [done|].
  rewrite !orb_false_iff, !negb_false_iff in Eg. destruct Eg as [[[[Ep Ei] Et] Ed] Ew].
  cbn -[next_token].
  destruct (sink_answer (length (io_log s))); inv_solve.
Qed.

Lemma push_event_view s t i p n h :
  link_view (wl_push_event s t i p n h).1 = link_view s.
Proof. unfold wl_push_event. by split_ifs. Qed.

Lemma attempts_one q t u a :
  attempts [mk_io (IO_RELIABLE q) t u a] = [(q, accepted a)].
Proof. done. Qed.

Lemma transmissions_one q q' t u a :
  transmissions q [mk_io (IO_RELIABLE q') t u a]
  = if (q =? q') && accepted a then 1 else 0.
Proof.
  unfold transmissions. rewrite attempts_one, filter_cons, filter_nil.
  destruct (Z.eqb_spec q q') as [->|Hne], (accepted a); cbn; case_decide; simplify_eq; done.
Qed.

(** Offering the unit keeps what the log says about earlier offers. *)
Lemma log_offer k s s' u t a :
  can_send k s →
  io_log s' = io_log s ++ [mk_io (IO_RELIABLE (tx_waiting_seq s)) t u a] →
  tx_waiting_seq s' = tx_waiting_seq s → tx_sequence s' = tx_sequence s →
  tx_retries_max s' = tx_retries_max s → tx_retries_used s' = tx_retries_used s →
  Forall (λ a, 0 <= a.1 <= tx_waiting_seq s) (attempts (io_log s')) ∧
  StronglySorted Z.le (attempts (io_log s')).*1 ∧
  (∀ q, transmissions q (io_log s') <= 1 + tx_retries_max s) ∧
  transmissions (tx_waiting_seq s) (io_log s') + 1
    <= tx_retries_used s + k + (if accepted a then 1 else 0).
Proof.
  intros [[] ? ?] El Ew Eq Em Eu. rewrite El, attempts_app, attempts_one.
  rewrite fmap_app. cbn [fmap list_fmap fst]. split_and!.
  - apply Forall_app. split; [done|]. repeat constructor; cbn; arith.
  - apply sorted_snoc; [done|]. apply Forall_fmap. eapply Forall_impl; [exact cs_range0|].
    cbn. arith.
  - intros q. rewrite transmissions_app, transmissions_one. specialize (cs_bound0 q).
    destruct (Z.eqb_spec q (tx_waiting_seq s)) as [->|]; cbn; [|arith].
    destruct (accepted a); arith.
  - rewrite transmissions_app, transmissions_one, Z.eqb_refl. cbn. destruct (accepted a); arith.
Qed.

(** What an offer of the reliable unit leads to. *)
Definition offered (k : Z) (s : wl_ctx) (r : wl_ctx * wl_err) : Prop :=
  if is_ok r.2 then tx_inv r.1 ∧ log_inv k r.1 ∧ sending r.1 ∧
                    tx_retries_left r.1 = tx_retries_left s
  else can_send k r.1 ∧ tx_retries_left r.1 = tx_retries_left s ∧
       (in_flight_reliable s = false → in_flight_reliable r.1 = false).

(** The log invariant of a state that differs from the offering one only in the
    log and the flags. *)
Lemma log_inv_offer k s s' u t a :
  can_send k s →
  io_log s' = io_log s ++ [mk_io (IO_RELIABLE (tx_waiting_seq s)) t u a] →
  tx_waiting_seq s' = tx_waiting_seq s → tx_sequence s' = tx_sequence s →
  tx_retries_max s' = tx_retries_max s → tx_retries_used s' = tx_retries_used s →
  owed s' + (if accepted a then 1 else 0) <= 1 → log_inv k s'.
Proof.
  intros Hs El Ew Eq Em Eu Ho.
  destruct (log_offer k s s' u t a Hs El Ew Eq Em Eu) as (L1 & L2 & L3 & L4). destruct Hs as [[] ? ?].
  split; rewrite ?Ew, ?Eq, ?Em, ?Eu; try done.
  - eapply Forall_impl; [exact L1|]. cbn. arith.
  - intros _. eapply Forall_impl; [exact L1|]. cbn. arith.
  - intros _. destruct (accepted a); arith.
Qed.

Lemma can_send_offer k s s' u t a :
  can_send k s →
  io_log s' = io_log s ++ [mk_io (IO_RELIABLE (tx_waiting_seq s)) t u a] →
  accepted a = false → link_view (s' <| io_log := [] |>) =
    link_view (s <| io_log := [] |> <| tx_queued := false |> <| tx_inflight := false |>
                 <| in_flight_reliable := false |> <| in_callback := false |>) →
  can_send k s'.
Proof.
  intros Hs El Ha E. unfold link_view in E. cbn in E. injection E; intros. clear E.
  destruct (log_offer k s s' u t a Hs El) as (L1 & L2 & L3 & L4); [assumption..|].
  rewrite Ha, Z.add_0_r in L4. rewrite El in L1, L2, L3, L4. destruct Hs as [[] ? ?].
  split; [split|..]; repeat match goal with H : _ s' = _ |- _ => rewrite H; clear H end; done.
Qed.

Lemma submit_reliable k s : can_send k s → offered k s (wl_submit_data s true).
Proof.
  intros Hs. unfold wl_submit_data, sink_call. cbn [fst snd].
  destruct (sink s =? NULL); [by unfold offered; cbn|]. cbn -[next_token].
  destruct (sink_answer (length (io_log s))) eqn:Ea; unfold offered; cbn [fst snd]; eval_ok.
  4: { split; [|done]. by eapply can_send_offer. }
  all: split; [destruct Hs as [[] ? ?]; tx_solve|].
  all: split; [by eapply log_inv_offer|split; [first [by left|by right]|done]].
Qed.

Lemma tx_parked_ext s s' : link_view s' = link_view s → tx_parked s → tx_parked s'.
Proof.
  unfold link_view. intros E Hs. injection E; intros. clear E. destruct Hs.
  assert (∀ q, transmissions q (io_log s') = transmissions q (io_log s)) as Et
    by (intros q; unfold transmissions; congruence).
  split; intros; rewrite ?Et; rewrite_view s'; try done.
  apply cs_required0. congruence.
Qed.

Lemma can_send_ext k s s' : link_view s' = link_view s → can_send k s → can_send k s'.
Proof.
  intros E []. split; [by eapply tx_parked_ext|..]; unfold link_view in E; injection E; intros;
    unfold transmissions in *; rewrite_view s'; done.
Qed.

Lemma offered_ext k s s0 r :
  link_view s0 = link_view s → offered k s0 r → offered k s r.
Proof.
  unfold link_view, offered. intros E. injection E as ? ? ? ? ? ? ? ? Er.
  destruct (is_ok r.2).
  - intros (? & ? & ? & ?). split_and!; congruence.
  - intros (? & ? & ?). split_and!; congruence || (intros; use_inv; congruence).
Qed.

Lemma send_tx_payload_offer k s : can_send k s → offered k s (wl_send_tx_payload s).
Proof.
  intros Hs. pose proof (cs_init s (cs_parked k s Hs)) as Hi.
  pose proof (cs_callback s (cs_parked k s Hs)) as Hc.
  unfold wl_send_tx_payload. rewrite Hi, Hc. cbn [negb orb].
  destruct (sink s =? NULL); [by unfold offered; eval_ok|].
  destruct (tx_encoded_len s =? 0); [|by apply submit_reliable].
  destruct (wl_link_encode _ _ _ _ _ _) as [[m ret] n]. destruct (is_ok ret) eqn:Er; cbn [negb].
  - eapply offered_ext; [|apply submit_reliable; eapply can_send_ext; [|exact Hs]]; done.
  - unfold offered. cbn [fst snd]. rewrite Er. split; [by eapply can_send_ext; [|exact Hs]|done].
Qed.

Lemma push_tx_event_inv s t :
  link_inv s → terminal s → link_inv (wl_push_tx_event s t).
Proof.
  intros Hinv Ht. unfold wl_push_tx_event.
  assert (∀ s', link_view s' = link_view s → link_inv (s' <| tx_pending_event := t |>)) as Hp.
  { intros s' E. assert (link_inv s') as [Ht' Hl'] by (by eapply link_inv_ext).
    unfold link_view in E. injection E; intros. clear E.
    assert (terminal s') as Hterm by (unfold terminal in *; by rewrite_view s').
    inv_solve. }
  destruct (tx_inflight s && in_flight_reliable s); [by apply Hp|].
  pose proof (push_event_view s t 0 NULL 0 (tx_handle s)) as E.
  destruct (wl_push_event _ _ _ _ _ _) as [s' ret]. cbn [fst] in E.
  destruct (is_ok ret); [by eapply link_inv_ext|by apply Hp].
Qed.

Lemma tx_fail_inv s code t :
  tx_parked s → in_flight_reliable s = false → link_inv (tx_fail s code t).
Proof.
  intros Hs Hr. apply push_tx_event_inv; [|by right; left].
  destruct Hs. split; [tx_solve|].
  split; cbn; try done; try by intros [?|?].
  eapply Forall_impl; [exact cs_range0|]. cbn. arith.
Qed.

Lemma count_retry_inv s :
  tx_inv s → log_inv 2 s → sending s → tx_retries_left s ≠ 0 → link_inv (count_retry s).
Proof.
  intros Ht Hl Hs Hleft. pose proof (ti_retries s Ht) as Hr. pose proof (ti_live s Ht Hs) as Hlive.
  assert (u16 (tx_retries_left s - 1) = tx_retries_left s - 1) as E1 by (apply u16_id; unfold is_u16; arith).
  assert (u16 (tx_retries_used s + 1) = tx_retries_used s + 1) as E2 by (apply u16_id; unfold is_u16; arith).
  unfold count_retry. rewrite E1. cbn -[u16]. rewrite E2. clear E1 E2.
  split; [destruct Ht; tx_solve|]. destruct Hl. split; cbn; try done.
  intros _. specialize (lg_owed0 Hs). unfold owed in *. cbn. arith.
Qed.

Lemma complete_unreliable_view s :
  link_view (wl_complete_unreliable_tx s).1 = link_view s.
Proof. unfold wl_complete_unreliable_tx. by split_ifs. Qed.

Lemma submit_unreliable_inv s :
  link_inv s → tx_inflight s = false → control_inflight s = false →
  tx_claim_active s = false → tx_drain_pending s = false →
  (tx_queued s = true → in_flight_reliable s = false) → link_inv (wl_submit_data s false).1.
Proof.
  intros [Ht Hl] Hf Hc Hm Hd Hq. unfold wl_submit_data, sink_call.
  destruct (sink s =? NULL); [done|]. cbn -[next_token].
  assert (in_flight_reliable s = false) as Hr.
  { destruct (in_flight_reliable s) eqn:E; [|done]. destruct (ti_kind s Ht E) as (_ & [?|?] & _);
      [congruence|by apply Hq]. }
  destruct (sink_answer (length (io_log s))); cbn -[next_token wl_complete_unreliable_tx].
  1: eapply link_inv_ext; [apply complete_unreliable_view|].
  all: inv_solve.
Qed.

(** The state of [wl_tx_consumed] after the unit was taken off the wire: the
    transaction is parked if it is still wanted. *)
Lemma consumed_parked s s' :
  link_inv s → tx_state s = WL_TX_STATE_SENDING → tx_inflight s = true →
  tx_drain_required s' = tx_drain_required s →
  (tx_drain_pending s' = true → tx_drain_required s = true) →
  link_view s' = link_view
    (s <| tx_drain_pending := tx_drain_pending s' |>
       <| tx_drain_reliable := tx_drain_reliable s' |>
       <| tx_inflight := false |> <| in_flight_reliable := false |>) →
  tx_parked s' ∧ transmissions (tx_waiting_seq s') (io_log s') <= tx_retries_used s' + 1.
Proof.
  intros Hinv Hst Hf Hr Hd E.
  set (s1 := s <| tx_drain_pending := tx_drain_pending s' |>
               <| tx_drain_reliable := tx_drain_reliable s' |>
               <| tx_inflight := false |> <| in_flight_reliable := false |>) in E.
  assert (tx_parked s1 ∧
          transmissions (tx_waiting_seq s1) (io_log s1) <= tx_retries_used s1 + 1) as [Hp Ht].
  2: { split; [by eapply tx_parked_ext|].
       unfold link_view in E. injection E; intros. unfold transmissions in *.
       rewrite_view s'. done. }
  clear E. destruct Hinv as [[] []]. assert (sending s) as Hs by (by left).
  specialize (lg_owed0 Hs). specialize (lg_current0 Hs).
  destruct (ti_live0 Hs) as [Hm Hw]. destruct (ti_exclusive0 Hf) as (? & ? & ?).
  specialize (ti_sending0 Hst). destruct (ti_kind0 ti_sending0) as (? & _ & _).
  unfold owed in lg_owed0.
  split; [|subst s1; cbn; destruct (tx_queued s && in_flight_reliable s); arith].
  split; cbn; try done; try arith.
  - destruct (tx_cancel_requested s); [|done]. destruct ti_cancel0; congruence.
  - destruct (decide (tx_pending_event s = WL_EVT_NONE)) as [|Hp]; [done|].
    destruct (ti_pending0 Hp) as [?|[?|?]]; congruence.
  - intros E. destruct (ti_drain0 E). congruence.
  - eapply Forall_impl; [exact (proj2 (Forall_and _ _) (conj lg_range0 lg_current0))|].
    cbn. arith.
Qed.

Lemma link_inv_retry s :
  tx_inv s ∧ log_inv 2 s ∧ sending s → tx_retries_left s ≠ 0 → link_inv (count_retry s).
Proof. intros (? & ? & ?). by apply count_retry_inv. Qed.

(** The parked transaction waits for the control unit to go first. *)
Lemma requeue_inv s :
  tx_parked s → transmissions (tx_waiting_seq s) (io_log s) <= tx_retries_used s + 1 →
  tx_state s = WL_TX_STATE_SENDING →
  let s' := s <| tx_queued := true |> <| in_flight_reliable := true |> in
  tx_inv s' ∧ log_inv 2 s' ∧ sending s'.
Proof.
  intros [] Ht Hst s'. subst s'. split; [tx_solve|]. split; [|by left].
  split; cbn; try done.
  - eapply Forall_impl; [exact cs_range0|]. cbn. arith.
  - intros _. eapply Forall_impl; [exact cs_range0|]. cbn. arith.
  - intros _. unfold owed. cbn. arith.
Qed.

Lemma consumed_retry_inv s :
  tx_parked s → transmissions (tx_waiting_seq s) (io_log s) <= tx_retries_used s + 1 →
  tx_state s = WL_TX_STATE_SENDING → in_flight_reliable s = false →
  link_inv (consumed_reliable s false).
Proof.
  intros Hp Ht Hst Hr. unfold consumed_reliable. rewrite Hst. cbn [negb].
  rewrite bool_decide_eq_true_2 by done. cbn [negb].
  destruct (Z.eqb_spec (tx_retries_left s) 0) as [El|El]; cbn [negb].
  { eval_ok. apply submit_control_inv, tx_fail_inv; done. }
  unfold consumed_retry. destruct (control_pending s) eqn:Ec.
  { eval_ok. apply submit_control_inv, link_inv_retry; [by apply requeue_inv|]. cbn. arith. }
  assert (can_send 2 s) as Hc.
  { split; [done|arith|]. destruct Hp. arith. }
  pose proof (send_tx_payload_offer 2 s Hc) as Ho. unfold offered in Ho.
  destruct (wl_send_tx_payload s) as [s' e]. cbn [fst snd] in Ho.
  destruct (is_ok e); apply submit_control_inv.
  - destruct Ho as (? & ? & ? & E). apply link_inv_retry; [done|]. rewrite E. arith.
  - destruct Ho as ([] & _ & E). apply tx_fail_inv; [done|]. by apply E.
Qed.

Lemma consumed_report_inv s t b :
  link_inv s → tx_inflight s = true ∨ control_inflight s = true →
  link_inv (consumed_report s t b) ∧
  (b = true → tx_drain_pending (consumed_report s t b) = true →
   tx_drain_reliable (consumed_report s t b) = tx_inflight s && in_flight_reliable s) ∧
  tx_inflight (consumed_report s t b) = tx_inflight s ∧
  control_inflight (consumed_report s t b) = control_inflight s ∧
  in_flight_reliable (consumed_report s t b) = in_flight_reliable s.
Proof.
  intros [Ht Hl] Hf. unfold consumed_report. cbn. destruct (b && _) eqn:Er.
  - apply andb_true_iff in Er as [-> Er]. split; [|done]. destruct Hf; inv_solve.
  - split; [apply (link_inv_ext s); [view_refl|by split]|]. split; [|done].
    intros -> Ed. cbn in *. destruct Ht. specialize (ti_required0 Ed). congruence.
Qed.

(** A unit whose completion was reported is off the wire. *)
Definition off_wire (s : wl_ctx) : wl_ctx :=
  s <| tx_inflight := false |> <| in_flight_reliable := false |>.

Lemma off_wire_inv s :
  link_inv s → tx_state s ≠ WL_TX_STATE_SENDING → tx_cancel_requested s = false →
  link_inv (off_wire s).
Proof. intros [Ht Hl] Hst Hk. inv_solve. Qed.

Lemma consumed_unreliable_inv s b :
  link_inv s → tx_inflight s = true → in_flight_reliable s = false →
  link_inv (consumed_unreliable (off_wire s) b).1.
Proof.
  intros Hinv Hf Hr. unfold consumed_unreliable.
  assert (link_inv (off_wire s)) as Hi.
  { destruct Hinv as [Ht Hl]. apply off_wire_inv; [done| |].
    - intros E. pose proof (ti_sending s Ht E). congruence.
    - destruct (tx_cancel_requested s) eqn:E; [|done]. destruct (ti_cancel s Ht E) as (_ & _ & ?).
      congruence. }
  destruct b; [|by apply submit_control_inv, (link_inv_ext (off_wire s))].
  pose proof (complete_unreliable_view (off_wire s)) as E.
  destruct (wl_complete_unreliable_tx _) as [s' e]. cbn [fst] in E.
  by apply submit_control_inv, (link_inv_ext (off_wire s)).
Qed.

Lemma consumed_cancelled_inv s :
  link_inv s → tx_cancel_requested s = true → link_inv (consumed_cancelled (off_wire s)).
Proof.
  intros [Ht Hl] Hk. apply submit_control_inv. inv_solve.
Qed.

Lemma consumed_reliable_inv s b :
  link_inv s → tx_inflight s = true → in_flight_reliable s = true →
  tx_cancel_requested s = false →
  (b = true → tx_drain_pending s = true → tx_drain_reliable s = true) →
  link_inv (consumed_reliable (off_wire s) b).
Proof.
  intros Hinv Hf Hr Hk Hd.
  destruct (decide (tx_state s = WL_TX_STATE_SENDING)) as [Hst|Hst].
  2: { unfold consumed_reliable. rewrite bool_decide_eq_false_2 by done.
       by apply submit_control_inv, off_wire_inv. }
  destruct b.
  - unfold consumed_reliable. rewrite bool_decide_eq_true_2 by done.
    apply submit_control_inv. specialize (Hd eq_refl).
    destruct Hinv as [Ht Hl]. cbn. destruct (tx_drain_pending s) eqn:Edp; inv_solve.
  - destruct (consumed_parked s (off_wire s)) as [Hp Htr];
      [done|done|done|done|by destruct Hinv as [[] _]|view_refl|].
    by apply consumed_retry_inv.
Qed.

Lemma tx_consumed_inv s t r : link_inv s → link_inv (wl_tx_consumed s t r).1.
Proof.
  intros Hinv. unfold wl_tx_consumed.
  destruct (negb (initialized s)); [done|]. destruct (negb (t =? tx_token s)); [done|].
  destruct (negb (tx_inflight s) && negb (control_inflight s)) eqn:Eg; [done|].
  destruct (consumed_report_inv s t (r =? 0) Hinv) as (Hi & Hd & Ef & Ec & Er).
  { destruct (tx_inflight s), (control_inflight s); auto. }
  set (s1 := consumed_report s t (r =? 0)) in *. clearbody s1. clear Hinv Eg.
  destruct (control_inflight s1) eqn:Ec1; [destruct Hi as [Ht Hl]; inv_solve|].
  destruct (tx_inflight s1) eqn:Ef1; [|done].
  destruct (in_flight_reliable s1) eqn:Er1; [|by apply consumed_unreliable_inv].
  destruct (tx_cancel_requested _) eqn:Ek; [by apply consumed_cancelled_inv|].
  apply consumed_reliable_inv; try done. intros E1 E2. rewrite (Hd E1 E2). by rewrite <- Ef, <- Er.
Qed.

Lemma forget_drain_inv s :
  link_inv s → tx_wait_state s ≠ WL_TX_WAIT_DRAIN →
  link_inv (s <| tx_drain_reliable := false |>).
Proof. intros [Ht Hl] Hw. inv_solve. Qed.

Lemma push_tx_event_wait s t : tx_wait_state (wl_push_tx_event s t) = tx_wait_state s.
Proof. unfold wl_push_tx_event, wl_push_event. by split_ifs. Qed.

Lemma tx_drained_inv s t r : link_inv s → link_inv (wl_tx_drained s t r).1.
Proof.
  intros [Ht Hl]. unfold wl_tx_drained.
  destruct (negb (initialized s)); [done|].
  destruct (negb (tx_drain_pending s) || _); [done|]. cbn [fst].
  destruct (_ && _) eqn:Eg; cbn in Eg.
  - rewrite !andb_true_iff, !bool_decide_eq_true in Eg. destruct Eg as [[E1 E2] E3].
    destruct (r =? 0); [inv_solve|]. apply forget_drain_inv; [|by rewrite push_tx_event_wait].
    apply push_tx_event_inv; [inv_solve|by right; left].
  - rewrite !andb_false_iff, !bool_decide_eq_false in Eg. inv_solve.
Qed.

Lemma handle_ack_inv s v : link_inv s → link_inv (wl_handle_ack s v).1.
Proof.
  intros [Ht Hl]. unfold wl_handle_ack. destruct (_ && _) eqn:Eg; [done|].
  destruct (_ || _); [done|]. cbn [fst]. apply push_tx_event_inv; [|by split_ifs; left].
  rewrite andb_false_iff, !negb_false_iff, !bool_decide_eq_true in Eg.
  assert (sending s) as Hs by (unfold sending; tauto). clear Eg.
  destruct (_ && _) eqn:Eq; cbn in Eq;
    [apply andb_true_iff in Eq as [Eq Er]|apply andb_false_iff in Eq as [Eq|Eq]];
    destruct Hs as [Hs|Hs]; inv_solve.
Qed.

Lemma send_ack_inv s v : link_inv s → link_inv (wl_send_ack s v).1.
Proof.
  intros Hinv. unfold wl_send_ack. destruct (_ || _); [done|]. destruct (in_callback s); [done|].
  destruct (control_pending s) eqn:Ep; [done|].
  destruct (wl_link_encode _ _ _ _ _ _) as [[m ret] n].
  destruct (is_ok ret); cbn [negb]; [|apply (link_inv_ext s); [view_refl|done]].
  apply submit_control_inv. destruct Hinv as [Ht Hl]. inv_solve.
Qed.

Lemma route_view_inv s v : link_inv s → link_inv (wl_frame_route_view s v).1.
Proof.
  intros Hinv. unfold wl_frame_route_view.
  generalize (mk_rx v (mread (lmem s) (span_data (fv_payload v))
                         (Z.to_nat (span_length (fv_payload v))))). intros x.
  assert (link_inv (s <| rx_log := rx_log s ++ [x] |>)) as Hi
    by (apply (link_inv_ext s); [view_refl|done]).
  generalize dependent (s <| rx_log := rx_log s ++ [x] |>). clear s Hinv. intros s Hinv.
  destruct (_ >? _); [done|].
  destruct (fv_type v =? WL_PACKET_DATA).
  - destruct (negb _).
    + destruct (_ && _); [apply send_ack_inv, (link_inv_ext s); [view_refl|done]|].
      match goal with |- context [wl_push_event ?a ?b ?c ?d ?e ?f] =>
        pose proof (push_event_view a b c d e f) as E; destruct (wl_push_event a b c d e f) as [s' ret]
      end. cbn [fst] in E.
      destruct (is_ok ret); cbn [negb]; [|by apply (link_inv_ext s)].
      apply send_ack_inv, (link_inv_ext s'); [view_refl|by apply (link_inv_ext s)].
    + match goal with |- context [wl_push_event ?a ?b ?c ?d ?e ?f] =>
        pose proof (push_event_view a b c d e f) as E; destruct (wl_push_event a b c d e f) as [s' ret]
      end. cbn [fst] in *. apply (link_inv_ext s'); [by destruct (is_ok ret)|by apply (link_inv_ext s)].
  - destruct (fv_type v =? WL_PACKET_ACK); [by apply handle_ack_inv|].
    destruct (fv_type v =? WL_PACKET_NACK); [apply (link_inv_ext s); [view_refl|done]|done].
Qed.

Lemma bad_frame_view s e : link_view (wl_frame_bad_frame s e).1 = link_view s.
Proof. unfold wl_frame_bad_frame. by split_ifs. Qed.

Lemma feed_parse_stream_inv s a n : link_inv s → link_inv (wl_feed_parse_stream s a n).1.
Proof.
  intros Hinv. unfold wl_feed_parse_stream.
  destruct (wl_link_decode_stream _ _ _ _ _) as [m [e|v]].
  - destruct (bool_decide _); (apply (link_inv_ext s); [|done]); [view_refl|].
    rewrite bad_frame_view. view_refl.
  - apply route_view_inv, (link_inv_ext s); [view_refl|done].
Qed.

Lemma feed_parse_wire_inv s a n : link_inv s → link_inv (wl_feed_parse_wire s a n).1.
Proof.
  intros Hinv. unfold wl_feed_parse_wire. destruct (_ || _); [done|].
  destruct (wl_frame_decode _ _ _ _ _) as [e|v]; [|by apply route_view_inv].
  by apply (link_inv_ext s); [apply bad_frame_view|].
Qed.

Lemma feed_unit_raw_inv s a n : link_inv s → link_inv (wl_feed_unit_raw s a n).1.
Proof.
  intros Hinv. unfold wl_feed_unit_raw. destruct (_ =? NULL); [done|].
  assert (link_inv (count_malformed s)) by (apply (link_inv_ext s); [view_refl|done]).
  destruct (_ =? WL_ENVELOPE_BUS_LENGTH16); [|by apply feed_parse_wire_inv].
  destruct (n <? 2); [done|]. destruct (_ || _); [done|]. destruct (negb _); [done|].
  by apply feed_parse_wire_inv.
Qed.

Lemma process_units_loop_inv fuel s : link_inv s → link_inv (process_units_loop fuel s).
Proof.
  revert s. induction fuel as [|fuel IH]; intros s Hinv; [done|]. cbn [process_units_loop].
  destruct (has_event s || _); [done|]. destruct (_ || _); [done|].
  match goal with |- context [wl_feed_unit_raw ?a ?b ?c] =>
    assert (link_inv (wl_feed_unit_raw a b c).1) as Hi;
    [apply feed_unit_raw_inv, (link_inv_ext s); [view_refl|done]|];
    generalize dependent (wl_feed_unit_raw a b c).1
  end. intros s' Hi.
  destruct (_ && _); [apply (link_inv_ext s'); [view_refl|done]|].
  destruct (has_event _); [|apply IH]; (apply (link_inv_ext s'); [view_refl|done]).
Qed.

Lemma process_units_inv s : link_inv s → link_inv (wl_frame_process_units s).
Proof.
  intros Hinv. unfold wl_frame_process_units. destruct (negb _); [done|].
  by apply process_units_loop_inv.
Qed.

Lemma stream_candidate_view s n s' a :
  stream_candidate s n = Some (s', a) → link_view s' = link_view s.
Proof.
  unfold stream_candidate. destruct (_ <=? _); [intros [= <- <-]; view_refl|].
  destruct (_ >? _); [done|]. destruct (wl_rx_ring_consumer_copy _ _ _ _ _) as [m e].
  destruct (is_ok e); [intros [= <- <-]; view_refl|done].
Qed.

Lemma process_stream_loop_inv fuel s : link_inv s → link_inv (process_stream_loop fuel s).
Proof.
  revert s. induction fuel as [|fuel IH]; intros s Hinv; [done|]. cbn [process_stream_loop].
  destruct (has_event s || _); [done|].
  destruct (wl_rx_ring_consumer_find _ _ _) as [[r ret] off].
  assert (link_inv (s <| rx_ring := r |>)) as Hi by (apply (link_inv_ext s); [view_refl|done]).
  generalize dependent (s <| rx_ring := r |>). clear s Hinv. intros s Hi.
  destruct (negb _); [done|].
  destruct (off =? 0); [apply IH, (link_inv_ext s); [view_refl|done]|].
  destruct (stream_candidate s off) as [[s' a]|] eqn:E.
  2: { apply IH, (link_inv_ext s); [view_refl|done]. }
  apply stream_candidate_view in E.
  assert (link_inv (wl_feed_parse_stream s' a off).1) as Hi'
    by (apply feed_parse_stream_inv; by apply (link_inv_ext s)).
  generalize dependent (wl_feed_parse_stream s' a off).1. clear s s' Hi E. intros s Hi.
  destruct (_ && _); [destruct (bool_decide _); (apply (link_inv_ext s); [view_refl|done])|].
  destruct (has_event _); [|apply IH]; (apply (link_inv_ext s); [view_refl|done]).
Qed.

Lemma drop_overflow_view s : link_view (drop_overflow s) = link_view s.
Proof.
  unfold drop_overflow. destruct (wl_rx_ring_consumer_take_overflow _) as [r n].
  destruct (negb _); view_refl.
Qed.

Lemma process_rx_inv s : link_inv s → link_inv (wl_link_process_rx s).
Proof.
  intros Hinv. unfold wl_link_process_rx. destruct (negb _); [by apply process_units_inv|].
  apply process_stream_loop_inv. by apply (link_inv_ext s); [apply drop_overflow_view|].
Qed.

Lemma publish_pending_inv s : link_inv s → link_inv (poll_publish_pending s).
Proof.
  intros Hinv. unfold poll_publish_pending. destruct (_ && _); [|done].
  match goal with |- context [wl_push_event ?a ?b ?c ?d ?e ?f] =>
    assert (link_inv (wl_push_event a b c d e f).1) as Hi
      by (by apply (link_inv_ext s); [apply push_event_view|]);
    generalize dependent (wl_push_event a b c d e f).1
  end. intros s' [Ht Hl]. inv_solve.
Qed.

Lemma poll_receive_inv s : link_inv s → link_inv (poll_receive s).
Proof.
  intros Hinv. unfold poll_receive. destruct (_ && _); [by apply process_rx_inv|done].
Qed.

(** The unit in the queue may be offered again. *)
Lemma queued_can_send s :
  link_inv s → tx_queued s = true → in_flight_reliable s = true → tx_inflight s = false →
  control_inflight s = false → can_send 1 s.
Proof.
  intros [[] []] Hq Hr Hf Hc. destruct (ti_queued0 Hq) as [Hcl Hst]. specialize (Hst Hr).
  assert (sending s) as Hs by (by left). specialize (lg_owed0 Hs). specialize (lg_current0 Hs).
  unfold owed in lg_owed0. rewrite Hq, Hr in lg_owed0. cbn in lg_owed0.
  destruct (ti_live0 Hs) as [Hm Hw]. destruct (ti_kind0 Hr) as (? & _ & _).
  split; [split|..]; try done; try arith.
  - destruct (tx_cancel_requested s); [|done]. destruct ti_cancel0; congruence.
  - destruct (decide (tx_pending_event s = WL_EVT_NONE)) as [|Hp]; [done|].
    destruct (ti_pending0 Hp) as [?|[?|?]]; congruence.
  - intros E. destruct (ti_drain0 E). congruence.
  - eapply Forall_impl; [exact (proj2 (Forall_and _ _) (conj lg_range0 lg_current0))|].
    cbn. arith.
Qed.

(** A transaction whose acknowledgement is overdue is parked. *)
Lemma waiting_parked s :
  link_inv s → tx_state s = WL_TX_STATE_WAITING_ACK → tx_wait_state s = WL_TX_WAIT_ACK →
  tx_inflight s = false → control_inflight s = false → tx_claim_active s = false →
  tx_parked s ∧ in_flight_reliable s = false ∧
  (tx_retries_left s ≠ 0 → can_send 2 s).
Proof.
  intros [[] []] Hst Hw Hf Hc Hcl. assert (sending s) as Hs by (by right).
  specialize (lg_owed0 Hs). specialize (lg_current0 Hs).
  destruct (ti_live0 Hs) as [Hm Hq]. destruct (ti_waiting0 Hst) as [_ Hr].
  assert (tx_parked s) as Hp.
  { split; try done; try arith.
    - intros E. apply ti_handle0 in E. congruence.
    - destruct (tx_cancel_requested s); [|done]. destruct ti_cancel0; congruence.
    - destruct (decide (tx_pending_event s = WL_EVT_NONE)) as [|Hp]; [done|].
      destruct (ti_pending0 Hp) as [?|[?|?]]; congruence.
    - congruence.
    - eapply Forall_impl; [exact (proj2 (Forall_and _ _) (conj lg_range0 lg_current0))|].
      cbn. arith. }
  split_and!; [done|done|]. intros Hleft. unfold owed in lg_owed0. rewrite Hr, andb_false_r in lg_owed0.
  split; [done|arith|arith].
Qed.

Lemma submit_unreliable_kind s :
  in_flight_reliable s = false → in_flight_reliable (wl_submit_data s false).1 = false.
Proof.
  intros Hr. unfold wl_submit_data, sink_call. destruct (sink s =? NULL); [done|].
  cbn -[next_token wl_complete_unreliable_tx].
  destruct (sink_answer _); try done. unfold wl_complete_unreliable_tx. by split_ifs.
Qed.

Lemma parked_unqueue s :
  tx_parked s → tx_parked (s <| tx_queued := false |> <| in_flight_reliable := false |>).
Proof. by intros []; split. Qed.

Lemma unqueue_inv s :
  link_inv s → in_flight_reliable s = false →
  link_inv (s <| tx_queued := false |> <| in_flight_reliable := false |>
              <| tx_unreliable_len := 0 |>).
Proof. intros [Ht Hl] Hr. inv_solve. Qed.

Lemma poll_queued_inv s : link_inv s → link_inv (poll_queued s).
Proof.
  intros Hinv. unfold poll_queued. destruct (_ && tx_writable s) eqn:Eg; [|done].
  rewrite !andb_true_iff, !negb_true_iff in Eg. destruct Eg as [[[[[[_ Ep] Ecl] Eq] Ef] Ed] _].
  assert (control_inflight s = false) as Ec.
  { destruct (control_inflight s) eqn:E; [|done]. destruct Hinv as [Ht _].
    pose proof (ti_control s Ht E). congruence. }
  destruct (in_flight_reliable s) eqn:Er.
  - pose proof (send_tx_payload_offer 1 s (queued_can_send s Hinv Eq Er Ef Ec)) as Ho.
    unfold offered in Ho. destruct (wl_send_tx_payload s) as [s' e]. cbn [fst snd] in Ho.
    destruct (is_ok e); cbn [negb]; [by destruct Ho as (? & ? & _)|].
    destruct Ho as ([] & _ & _). by apply tx_fail_inv; [apply parked_unqueue|].
  - pose proof (submit_unreliable_inv s Hinv Ef Ec Ecl Ed (λ _, Er)) as Hi.
    pose proof (submit_unreliable_kind s Er) as Hk.
    destruct (wl_submit_data s false) as [s' e]. cbn [fst] in *.
    destruct (is_ok e); cbn [negb]; [done|by apply unqueue_inv].
Qed.

Lemma poll_timeout_inv s now : link_inv s → link_inv (poll_timeout s now).
Proof.
  intros Hinv. unfold poll_timeout. destruct (_ && _) eqn:Eg; [|done].
  rewrite !andb_true_iff, !negb_true_iff, !bool_decide_eq_true in Eg.
  destruct Eg as [[[[[[[[_ Ep] Ef] Eq] Ecl] Est] Ew] _] _].
  assert (control_inflight s = false) as Ec.
  { destruct (control_inflight s) eqn:E; [|done]. destruct Hinv as [Ht _].
    pose proof (ti_control s Ht E). congruence. }
  destruct (waiting_parked s Hinv Est Ew Ef Ec Ecl) as (Hp & Hr & Hc).
  destruct (_ >=? _); [|done].
  destruct (Z.eqb_spec (tx_retries_left s) 0) as [El|El]; [by apply tx_fail_inv|].
  pose proof (send_tx_payload_offer 2 s (Hc El)) as Ho. unfold offered in Ho.
  destruct (wl_send_tx_payload s) as [s' e]. cbn [fst snd] in Ho. destruct (is_ok e).
  - destruct Ho as (? & ? & ? & E). assert (link_inv (count_retry s')) as Hi.
    { apply link_inv_retry; [done|]. by rewrite E. }
    destruct (bool_decide _); [apply (link_inv_ext (count_retry s')); [view_refl|done]|done].
  - destruct Ho as ([] & _ & E). apply tx_fail_inv; [done|by apply E].
Qed.

Lemma poll_inv s now : link_inv s → link_inv (wl_poll s now).1.1.
Proof.
  intros Hinv. unfold wl_poll. destruct (negb (initialized s)); [done|].
  assert (link_inv (s <| now_ms := now |>)) as Hi by (apply (link_inv_ext s); [view_refl|done]).
  match goal with |- context [if ?b then wl_poll_transport_progress ?x now else _] =>
    assert (link_inv (if b then wl_poll_transport_progress x now else x)) as Hi2;
    [destruct b; [|done]; apply poll_timeout_inv, poll_queued_inv, poll_receive_inv,
       publish_pending_inv, submit_control_inv; exact Hi|];
    generalize dependent (if b then wl_poll_transport_progress x now else x)
  end. clear s Hinv Hi. intros s Hi.
  match goal with |- context [if negb (has_event ?x) then _ else _] =>
    assert (link_inv x) as Hi3; [|generalize dependent x]
  end.
  { destruct (_ && _); [|done]. pose proof (push_event_view s WL_EVT_TX_SUCCESS 0 NULL 0 0) as E.
    destruct (wl_push_event _ _ _ _ _ _) as [s' e]. cbn [fst] in E.
    destruct (is_ok e); (apply (link_inv_ext s); [|done]); rewrite <- E; view_refl. }
  clear s Hi. intros s Hi. destruct (negb (has_event s)); [done|]. cbn [fst].
  destruct (is_rx_event _); (apply (link_inv_ext s); [view_refl|done]).
Qed.

(** ** Sending *)

Lemma transmissions_fresh q log :
  Forall (λ a, 0 <= a.1 < q) (attempts log) → transmissions q log = 0.
Proof.
  unfold transmissions. induction 1 as [|[q' b] l Hx _ IH]; [done|].
  rewrite filter_cons. case_decide as E; [|done]. simplify_eq. cbn in Hx. lia.
Qed.

Lemma generated_handle g : Z.lor (u32 (Z.shiftl g 16)) 1 ≠ 0.
Proof. intros E. apply Z.lor_eq_0_iff in E as [_ E]. done. Qed.

Lemma prepare_view s pkt direct : link_view (wl_prepare_reliable_payload s pkt direct) = link_view s.
Proof. unfold wl_prepare_reliable_payload. destruct (_ && _); view_refl. Qed.

Lemma invalidate_view s : link_view (wl_invalidate_tx_image s) = link_view s.
Proof. unfold wl_invalidate_tx_image. destruct (_ && _); [destruct (negb _)|]; view_refl. Qed.

Lemma data_busy_false s reliable :
  wl_data_busy s reliable = false →
  tx_inflight s = false ∧ tx_drain_pending s = false ∧ control_pending s = false ∧
  control_inflight s = false ∧ tx_queued s = false ∧ (reliable = true → tx_handle s = 0).
Proof.
  unfold wl_data_busy. rewrite !orb_false_iff. intros [[[[[? ?] ?] ?] ?] Hr].
  split_and!; try done. intros ->. apply negb_false_iff in Hr. lia.
Qed.

(** The state of a new transaction just before its unit is offered. *)
Definition new_transaction (s : wl_ctx) (handle sequence : Z) : wl_ctx :=
  s <| tx_handle := handle |> <| tx_waiting_seq := sequence |>
    <| tx_wait_state := WL_TX_WAIT_NONE |> <| tx_retries_left := tx_retries_max s |>
    <| tx_retries_used := 0 |> <| tx_sequence := sequence + 1 |>.

Lemma new_transaction_can_send s h :
  link_inv s → wl_data_busy s true = false → tx_claim_active s = false →
  tx_sequence s ≠ UINT32_MAX → h ≠ 0 → can_send 1 (new_transaction s h (tx_sequence s)).
Proof.
  intros [[] []] Hb Hcl Hmax Hh. apply data_busy_false in Hb as (? & ? & ? & ? & ? & Hz).
  specialize (Hz eq_refl). apply ti_handle0 in Hz as Hidle.
  pose proof (transmissions_fresh _ _ lg_range0) as Hfresh.
  split; [split|..]; cbn; try done; try arith.
  - destruct (tx_cancel_requested s); [|done]. destruct ti_cancel0; congruence.
  - destruct (decide (tx_pending_event s = WL_EVT_NONE)) as [|Hp]; [done|].
    destruct (ti_pending0 Hp) as [?|[?|?]]; congruence.
  - eapply Forall_impl; [exact lg_range0|]. cbn. arith.
Qed.

Lemma idle_kind s : link_inv s → tx_handle s = 0 → in_flight_reliable s = false.
Proof.
  intros [[] _] Hh. destruct (in_flight_reliable s); [|done]. by destruct ti_kind0.
Qed.

(** A transaction whose first offer failed never happened. *)
Lemma abandon_inv s l :
  tx_parked s → in_flight_reliable s = false →
  link_inv (s <| tx_handle := 0 |> <| tx_state := WL_TX_STATE_IDLE |> <| tx_waiting_seq := 0 |>
              <| tx_wait_state := WL_TX_WAIT_NONE |> <| tx_retries_left := 0 |>
              <| tx_payload := l |> <| tx_last_message_id := 0 |> <| tx_encoded_len := 0 |>).
Proof.
  intros [] Hr. split; [tx_solve|]. split; cbn; try done; try by intros [?|?].
  eapply Forall_impl; [exact cs_range0|]. cbn. arith.
Qed.

Lemma send_reliable_frame_inv s pkt direct now :
  link_inv s → wl_data_busy s true = false → tx_claim_active s = false →
  tx_sequence s ≠ UINT32_MAX → pk_sequence pkt = tx_sequence s →
  link_inv (send_reliable_frame (s <| tx_sequence := tx_sequence s + 1 |>) pkt direct now).1.1.
Proof.
  intros Hinv Hb Hcl Hmax Hq. unfold send_reliable_frame.
  set (g := if _ =? 0 then 1 else _). set (h := Z.lor _ _).
  match goal with |- context [wl_send_tx_payload ?x] =>
    assert (link_view x = link_view (new_transaction s h (tx_sequence s))) as E
  end.
  { rewrite <- Hq. unfold wl_prepare_reliable_payload. destruct (_ && _); view_refl. }
  match goal with |- context [wl_send_tx_payload ?x] =>
    assert (can_send 1 x) as Hc;
    [eapply can_send_ext; [exact E|]; apply new_transaction_can_send; [done..|apply generated_handle]|];
    assert (in_flight_reliable x = false) as Hr
  end.
  { unfold link_view in E. injection E; intros. apply data_busy_false in Hb as (? & ? & ? & ? & ? & Hz).
    pose proof (idle_kind s Hinv (Hz eq_refl)). cbn in *. congruence. }
  match goal with |- context [wl_send_tx_payload ?x] =>
    pose proof (send_tx_payload_offer 1 x Hc) as Ho; destruct (wl_send_tx_payload x) as [s' e]
  end.
  unfold offered in Ho. cbn [fst snd] in Ho. destruct (is_ok e); cbn [negb fst].
  - destruct Ho as (? & ? & _). apply (link_inv_ext s'); [view_refl|by split].
  - destruct Ho as ([] & _ & Er). by apply abandon_inv; [|apply Er].
Qed.

Lemma bump_sequence_inv s :
  link_inv s → tx_sequence s ≠ UINT32_MAX →
  link_inv (s <| tx_sequence := tx_sequence s + 1 |>).
Proof. intros [Ht Hl] Hmax. inv_solve. Qed.

Lemma send_unreliable_frame_inv s pkt :
  link_inv s → wl_data_busy s false = false → tx_claim_active s = false →
  link_inv (send_unreliable_frame s pkt).1.
Proof.
  intros Hinv Hb Hcl. apply data_busy_false in Hb as (Hf & Hd & _ & Hc & Hq & _).
  unfold send_unreliable_frame. pose proof (invalidate_view s) as E.
  generalize dependent (wl_invalidate_tx_image s). intros s' E.
  destruct (wl_link_encode _ _ _ _ _ _) as [[m ret] n].
  assert (link_inv (s' <| lmem := m |> <| tx_unreliable_len := n |>)) as Hi
    by (apply (link_inv_ext s); [rewrite <- E; view_refl|done]).
  destruct (is_ok ret); cbn [negb]; [|done].
  unfold link_view in E. injection E; intros. apply submit_unreliable_inv; [exact Hi|cbn; congruence..].
Qed.

Lemma send_frame_unreliable_inv s pkt direct now :
  link_inv s → tx_claim_active s = false →
  link_inv (wl_send_frame_internal s pkt false direct now).1.1.
Proof.
  intros Hinv Hcl. unfold wl_send_frame_internal.
  repeat match goal with |- context [if ?b then (s, _, _) else _] => destruct b eqn:?; [done|] end.
  cbn [negb]. pose proof (send_unreliable_frame_inv s pkt) as Hs.
  destruct (send_unreliable_frame s pkt) as [s' e]. by apply Hs.
Qed.

Lemma send_frame_reliable_inv s pkt direct now :
  link_inv s → tx_claim_active s = false → tx_sequence s ≠ UINT32_MAX →
  pk_sequence pkt = tx_sequence s →
  link_inv (wl_send_frame_internal (s <| tx_sequence := tx_sequence s + 1 |>) pkt true direct now).1.1.
Proof.
  intros Hinv Hcl Hmax Hq. unfold wl_send_frame_internal.
  pose proof (bump_sequence_inv s Hinv Hmax) as Hi.
  repeat match goal with
  | |- context [if ?b then (with_field _ _ s, _, _) else _] => destruct b eqn:?; [done|]
  end.
  by apply send_reliable_frame_inv.
Qed.

Lemma send_unreliable_inv s i p n : link_inv s → link_inv (wl_send_unreliable s i p n).1.
Proof.
  intros Hinv. unfold wl_send_unreliable. destruct (negb _); [done|].
  destruct (tx_claim_active s) eqn:Ec; [done|].
  pose proof (send_frame_unreliable_inv s
    (mk_packet WL_PACKET_DATA 0 0 i 0 0 p n) false 0 Hinv Ec) as Hi.
  by destruct (wl_send_frame_internal _ _ _ _ _) as [[s' e] h].
Qed.

Lemma send_reliable_inv s i p n now out :
  link_inv s → link_inv (wl_send_reliable s i p n now out).1.1.
Proof.
  intros Hinv. unfold wl_send_reliable. destruct (out =? NULL); [done|].
  destruct (negb _); [done|]. destruct (Z.eqb_spec (tx_sequence s) UINT32_MAX) as [|Hm]; [done|].
  destruct (tx_claim_active _) eqn:Ec; [by apply bump_sequence_inv|].
  by apply send_frame_reliable_inv.
Qed.

Lemma release_claim_inv s sp : link_inv s →
  link_inv (s <| tx_claim_active := false |> <| tx_claim_payload := sp |>).
Proof. intros [Ht Hl]. inv_solve. Qed.

Lemma payload_commit_inv s c n now out :
  link_inv s → link_inv (wl_tx_payload_commit s c n now out).1.1.
Proof.
  intros Hinv. unfold wl_tx_payload_commit. destruct (negb _); [done|].
  destruct (negb _); [done|]. pose proof (release_claim_inv s (mk_span NULL 0) Hinv) as Hi.
  destruct (tx_claim_reliable s).
  - destruct (_ || _); [done|]. cbn [andb].
    destruct (Z.eqb_spec (tx_sequence (s <| tx_claim_active := false |>
      <| tx_claim_payload := mk_span NULL 0 |>)) UINT32_MAX) as [|Hm]; [done|].
    by apply send_frame_reliable_inv.
  - destruct (_ || _); [done|]. cbn [andb]. by apply send_frame_unreliable_inv.
Qed.

Lemma payload_claim_inv s i d : link_inv s → link_inv (wl_tx_payload_claim s i d).1.1.
Proof.
  intros Hinv. unfold wl_tx_payload_claim. destruct (_ || _); [done|]. destruct (negb _); [done|].
  destruct (tx_claim_active s || _) eqn:Eb; [done|]. apply orb_false_iff in Eb as [Ec Eb].
  apply data_busy_false in Eb as (Hf & Hd & Hp & Hci & Hq & _).
  destruct (_ && _); [done|]. cbn [fst].
  match goal with |- context [if ?b then wl_invalidate_tx_image s else s] =>
    assert (link_view (if b then wl_invalidate_tx_image s else s) = link_view s) as E
      by (destruct b; [apply invalidate_view|done]);
    generalize dependent (if b then wl_invalidate_tx_image s else s)
  end.
  intros s' E. assert (link_inv s') as [Ht Hl] by (by apply (link_inv_ext s)).
  unfold link_view in E. injection E; intros.
  assert (tx_inflight s' = false) by congruence. assert (tx_queued s' = false) by congruence.
  clear E Hinv. repeat match goal with H : _ s' = _ s |- _ => clear H end. inv_solve.
Qed.

Lemma payload_abort_inv s c : link_inv s → link_inv (wl_tx_payload_abort s c).1.
Proof.
  intros Hinv. unfold wl_tx_payload_abort. destruct (negb _); [done|]. destruct (negb _); [done|].
  apply (link_inv_ext (s <| tx_claim_active := false |> <| tx_claim_payload := mk_span NULL 0 |>));
    [view_refl|by apply release_claim_inv].
Qed.

(** ** The remaining operations *)

Lemma tx_cancel_inv s h : link_inv s → link_inv (wl_tx_cancel s h).1.
Proof.
  intros [Ht Hl]. unfold wl_tx_cancel. destruct (negb _); [done|]. destruct (_ || _) eqn:Eh; [done|].
  destruct (bool_decide _ || _) eqn:Es; [done|]. apply orb_false_iff in Es as [Ei Et].
  assert (¬ terminal s) as Hnt by (rewrite <- tx_terminal_spec; congruence).
  apply bool_decide_eq_false in Ei.
  assert (sending s) as Hs.
  { unfold terminal, sending in *. destruct (tx_state s); naive_solver. }
  destruct (tx_inflight s && in_flight_reliable s) eqn:Ef.
  - apply andb_true_iff in Ef as [Ef Er]. inv_solve.
  - destruct (tx_queued s && in_flight_reliable s) eqn:Eq.
    + apply andb_true_iff in Eq as [Eq Er]. inv_solve.
    + assert (in_flight_reliable s = false) as Er.
      { destruct (in_flight_reliable s) eqn:E; [|done].
        destruct (ti_kind s Ht E) as (_ & [X|X] & _); rewrite X in *; done. }
      inv_solve.
Qed.

Lemma tx_take_inv s h : link_inv s → link_inv (wl_tx_take s h).1.
Proof.
  intros [Ht Hl]. unfold wl_tx_take. destruct (negb _); [done|]. destruct (_ || _); [done|].
  destruct (_ || negb _) eqn:Eg; [done|].
  apply orb_false_iff in Eg as [Ef Et]. apply negb_false_iff, tx_terminal_spec in Et.
  assert (in_flight_reliable s = false) as Er.
  { destruct (in_flight_reliable s) eqn:E; [|done].
    destruct (ti_kind s Ht E) as (_ & [X|X] & _); [by rewrite X in Ef|].
    destruct (ti_queued s Ht X) as [_ Y]. specialize (Y E). destruct Et as [?|[?|?]]; congruence. }
  inv_solve.
Qed.

Lemma set_drain_required_inv s r : link_inv s → link_inv (wl_set_tx_drain_required s r).1.
Proof.
  intros [Ht Hl]. unfold wl_set_tx_drain_required. destruct (negb _); [done|].
  destruct (_ || _) eqn:E; [done|]. rewrite !orb_false_iff in E. destruct E as [[? ?] ?]. inv_solve.
Qed.

Lemma feed_bytes_loop_view fuel s p n a :
  link_view (feed_bytes_loop fuel s p n a).1.1 = link_view s.
Proof.
  revert s a. induction fuel as [|fuel IH]; intros s a; [done|]. cbn [feed_bytes_loop].
  destruct (a <? n); [|done].
  assert (link_view (wl_rx_reserve s).1.1 = link_view s) as E.
  { unfold wl_rx_reserve. split_ifs; [done..|]. destruct (wl_rx_ring_producer_reserve _) as [[r e] sp].
    view_refl. }
  destruct (wl_rx_reserve s) as [[s' e] sp]. cbn [fst] in E. rewrite <- E. clear s E.
  assert (∀ s k, link_view (wl_rx_commit s k).1 = link_view s) as Hc.
  { intros s k. unfold wl_rx_commit. split_ifs; [done..|].
    destruct (wl_rx_ring_producer_commit _ _) as [r e']. view_refl. }
  destruct (negb (is_ok e)); [done|]. destruct (_ =? 0); [apply Hc|].
  match goal with |- context [wl_rx_commit ?x ?k] =>
    pose proof (Hc x k) as E; destruct (wl_rx_commit x k) as [s e2] end.
  cbn [fst] in E. transitivity (link_view s); [|rewrite E; view_refl].
  destruct (negb (is_ok e2)); [done|apply IH].
Qed.

Lemma feed_bytes_view s p n : link_view (wl_feed_bytes s p n).1.1 = link_view s.
Proof.
  unfold wl_feed_bytes. destruct (_ && _); [done|]. destruct (negb _); [done|].
  destruct (negb _); [done|]. pose proof (feed_bytes_loop_view (Z.to_nat n) s p n 0) as E.
  destruct (feed_bytes_loop _ _ _ _ _) as [[s' [e|]] a]; cbn [fst] in *; [done|].
  rewrite <- E. destruct (negb _); view_refl.
Qed.

Lemma receive_unit_inv s p n : link_inv s → link_inv (wl_frame_receive_unit s p n).1.
Proof.
  intros Hinv. unfold wl_frame_receive_unit. destruct (_ || _); [done|].
  destruct (_ >? _); [done|]. apply feed_unit_raw_inv, (link_inv_ext s); [|done].
  destruct (negb _); view_refl.
Qed.

Lemma feed_unit_inv s p n : link_inv s → link_inv (wl_feed_unit s p n).1.
Proof.
  intros Hinv. unfold wl_feed_unit. destruct (_ && _); [done|]. destruct (negb _); [done|].
  destruct (stream_link s); [|by apply receive_unit_inv].
  pose proof (feed_bytes_view s p n) as E. destruct (wl_feed_bytes s p n) as [[s' e] a].
  by apply (link_inv_ext s).
Qed.

Lemma rx_runnable_view s : link_view (wl_rx_runnable s).1 = link_view s.
Proof.
  unfold wl_rx_runnable. split_ifs; try done.
  all: destruct (wl_rx_ring_consumer_find _ _ _) as [[r e] o]; destruct (is_ok e); view_refl.
Qed.

Lemma readiness_view s now : link_view (wl_link_get_readiness s now).1.1 = link_view s.
Proof.
  unfold wl_link_get_readiness. destruct (negb (initialized s)); [done|].
  match goal with |- context [let '(x, y) := ?e in _] =>
    assert (link_view e.1 = link_view s) as E; [|destruct e as [s' b]]
  end.
  { destruct (_ || _); [done|]. destruct (control_pending s); [done|apply rx_runnable_view]. }
  cbn [fst] in E. rewrite <- E. destruct (_ && _); [destruct (_ >=? _)|]; done.
Qed.

Lemma event_release_view s ev : link_view (wl_event_release s ev) = link_view s.
Proof.
  unfold wl_event_release. destruct (negb _); [done|]. destruct (_ && _); [|done].
  destruct (negb _); [destruct (bool_decide _)|]; view_refl.
Qed.

(** Operations that do not touch the transmit side at all. *)
Definition op_silent (op : link_op) : bool :=
  match op with
  | OpSetSink _ _ | OpWritable | OpRelease _ | OpReadiness _ | OpOwnerTime _
  | OpFeedBytes _ _ | OpRxReserve
  | OpRxCommit _ | OpDmaClaim _ | OpDmaPublish _ _ _ | OpDmaFinish _ | OpDmaAbort
  | OpNoteOverflow | OpRecoverReset | OpUnitInit _ | OpUnitClaim _ | OpUnitCommit _ _
  | OpUnitAbort _ | OpStore _ _ => true
  | _ => false
  end.

Lemma silent_view op s : op_silent op = true → link_view (link_step op s) = link_view s.
Proof.
  destruct op; intros [=]; cbn [link_step];
    try solve [apply event_release_view|apply readiness_view|apply feed_bytes_view|view_refl].
  all: unfold wl_set_sink, wl_tx_writable, wl_rx_reserve, wl_rx_commit, wl_rx_dma_claim,
    wl_rx_dma_publish, wl_rx_dma_finish, wl_rx_dma_abort, wl_rx_note_overflow,
    wl_feed_recover_reset, link_unit_queue_init, link_unit_claim, link_unit_commit, link_unit_abort.
  all: repeat match goal with
    | |- context [if ?b then _ else _] =>
        lazymatch type of b with bool => destruct b end
    | |- context [let (_, _) := ?e in _] => destruct e
    end; view_refl.
Qed.

Lemma link_step_inv op s : link_inv s → link_inv (link_step op s).
Proof.
  intros Hinv. destruct (op_silent op) eqn:E; [by apply (link_inv_ext s); [apply silent_view|]|].
  destruct op; try discriminate E; cbn [link_step];
    auto using set_drain_required_inv, send_unreliable_inv, send_reliable_inv, payload_claim_inv,
      payload_commit_inv, payload_abort_inv, tx_consumed_inv, tx_drained_inv, tx_cancel_inv,
      tx_take_inv, poll_inv, feed_unit_inv.
Qed.

Lemma requirements_error c e : wl_config_requirements c = inl e → e ≠ WL_OK.
Proof. unfold wl_config_requirements. intros E. split_ifs_in E; congruence. Qed.

Lemma init_inv s0 s :
  wl_init s0 cfg stg = (s, WL_OK) → io_log s0 = [] → is_u16 (max_retries cfg) → link_inv s.
Proof.
  unfold wl_init, is_u16. intros Hw Hlog Hr.
  destruct (wl_config_requirements cfg) as [e|rq] eqn:Ec.
  { apply requirements_error in Ec. congruence. }
  destruct (_ || _); [done|]. destruct (_ || _); [done|].
  match type of Hw with context [let (_, _) := ?e in _] => destruct e as [r ret] end.
  destruct (negb (is_ok ret)); [done|]. injection Hw as <-. rewrite Hlog.
  assert ((if negb (max_retries cfg =? 0) then max_retries cfg else 0) = max_retries cfg) as ->.
  { destruct (Z.eqb_spec (max_retries cfg) 0); cbn; lia. }
  unfold ctx_zero. split.
  - split; unfold sending, terminal, UINT32_MAX; cbn; try done; try lia.
    by intros [?|?].
  - split; unfold sending; cbn; try constructor; try by intros [?|?]. intros q.
    unfold transmissions. cbn. lia.
Qed.

(** Every reachable link satisfies the invariant. *)
Lemma reachable_inv s :
  is_u16 (max_retries cfg) → link_reachable cfg stg s → link_inv s.
Proof.
  intros Hr. induction 1 as [s0 s Hi Hlog _ _|s op _ IH].
  - by eapply init_inv.
  - by apply link_step_inv.
Qed.
End Invariant.
