(* ===== verification/LinkProps.v ===== *)
(** Properties of the link engine.

    Ownership of the units, the bound on transmissions and the order of sequence
    numbers hold in every reachable state and for every sink.  The second half
    treats the owner's pass: what a readiness hint promises, how a silent peer
    is given up on, and where the code departs from its description. *)
From Stdlib Require Import Sorted.
From S2P Require Import Prelude Cobs Frame RxRing UnitQueue Link LinkInv.
#[local] Open Scope wl_scope.

(** ** A concrete link *)

Definition demo_cfg : wl_config := mk_config 8 WL_ENVELOPE_COBS_STREAM WL_INTEGRITY_CRC16 77 2 10 0.
Definition demo_stg : wl_storage := mk_storage 1000 64 2000 64 3000 64 4000 64 5000 64.
Definition demo_memory : mem := λ a, a mod 256.

Definition demo_platform (answer : nat → wl_sink_result) : Platform :=
  {| sink_answer := answer; lock_free := true |}.

(** Freshly initialized, with a sink. *)
Definition demo_start (p : Platform) (c : wl_config) : wl_ctx :=
  link_step (OpSetSink 1 0) (wl_init (ctx_zero demo_memory [] [] [] c demo_stg) c demo_stg).1.

Lemma run_reachable `{Platform} c st s ops :
  link_reachable c st s → link_reachable c st (link_run ops s).
Proof.
  revert s. induction ops as [|op ops IH]; intros s Hs; [done|]. by apply IH, reach_step.
Qed.

Lemma demo_reachable (p : Platform) c ops :
  (wl_init (ctx_zero demo_memory [] [] [] c demo_stg) c demo_stg).2 = WL_OK →
  link_reachable c demo_stg (link_run ops (demo_start p c)).
Proof.
  intros E. apply run_reachable. unfold demo_start. apply reach_step.
  destruct (wl_init _ c demo_stg) as [s e] eqn:Ei. cbn [snd] in E. subst e.
  eapply reach_init; [exact Ei|done..].
Qed.

(** A message, then three polls each a timeout apart. *)
Definition demo_silent_peer : list link_op :=
  [OpSendReliable 5 100 4 0 1; OpPoll 10; OpPoll 20; OpPoll 30].

(** ** Reachable states *)

(** C33: in every reachable state of a link the flags agree: at most one
    unit is with the sink, nothing is queued or in flight while the application
    holds the payload, the handle is zero exactly when no transaction exists, a
    transaction is sending exactly while its unit is queued or with the sink,
    and it waits for the line only while its own unit drains. *)
Theorem link_ownership `{Platform} c st s :
  is_u16 (max_retries c) → link_reachable c st s → tx_inv c st s.
Proof. intros Hr Hs. by destruct (reachable_inv c st s Hr Hs). Qed.

Lemma link_ownership_witness :
  ∃ s, tx_inv demo_cfg demo_stg s ∧ tx_state s = WL_TX_STATE_WAITING_ACK ∧
       length (io_log s) = 2%nat.
Proof.
  set (p := demo_platform (λ _, WL_SINK_SENT)).
  exists (link_run (take 2 demo_silent_peer) (demo_start p demo_cfg)).
  split; [|split; vm_compute; reflexivity].
  apply (link_ownership demo_cfg demo_stg); [split; vm_compute; congruence|].
  apply demo_reachable. vm_compute. reflexivity.
Defined.

(** C32: whatever the sink and the peer do, the sink takes a given
    reliable message at most once plus [max_retries] times. *)
Theorem link_bounded_transmissions `{Platform} c st s q :
  is_u16 (max_retries c) → link_reachable c st s →
  transmissions q (io_log s) <= 1 + max_retries c.
Proof.
  intros Hr Hs. destruct (reachable_inv c st s Hr Hs) as [[] []].
  destruct ti_fixed as (_ & _ & _ & <-). apply lg_bound.
Qed.

(** The bound is reached when the peer stays silent. *)
Lemma link_bounded_transmissions_witness :
  let p := demo_platform (λ _, WL_SINK_SENT) in
  let s := link_run demo_silent_peer (demo_start p demo_cfg) in
  transmissions 0 (io_log s) <= 1 + max_retries demo_cfg ∧
  transmissions 0 (io_log s) = 3 ∧ tx_state s = WL_TX_STATE_FAILED.
Proof.
  intros p s. split; [|split; vm_compute; reflexivity].
  apply (link_bounded_transmissions demo_cfg demo_stg); [split; vm_compute; congruence|].
  apply demo_reachable. vm_compute. reflexivity.
Defined.

(** the reliable units offered to the sink carry sequence numbers
    that never decrease, and every one of them was issued before: a message is
    not offered again once a newer one was. *)
Theorem link_sequence_order `{Platform} c st s :
  is_u16 (max_retries c) → link_reachable c st s →
  StronglySorted Z.le (attempts (io_log s)).*1 ∧
  Forall (λ a, 0 <= a.1 < tx_sequence s) (attempts (io_log s)).
Proof. intros Hr Hs. by destruct (reachable_inv c st s Hr Hs) as [_ []]. Qed.

Lemma link_sequence_order_witness :
  let p := demo_platform (λ _, WL_SINK_SENT) in
  let s := link_run (demo_silent_peer ++ [OpTake 65537; OpSendReliable 6 100 4 40 1])
             (demo_start p demo_cfg) in
  (attempts (io_log s)).*1 = [0; 0; 0; 1] ∧ StronglySorted Z.le (attempts (io_log s)).*1.
Proof.
  intros p s. split; [vm_compute; reflexivity|].
  apply (link_sequence_order demo_cfg demo_stg); [split; vm_compute; congruence|].
  apply demo_reachable. vm_compute. reflexivity.
Defined.

(** ** The drain gate *)

(** C38: a configured drain does not gate every submission.  A reachable
    link whose last unit has not drained hands the sink a retransmission when the
    acknowledgement of an earlier reliable message is overdue. *)
Theorem link_retry_ignores_drain :
  ∃ (p : Platform) s now,
    link_reachable demo_cfg demo_stg s ∧ tx_drain_required s = true ∧
    tx_drain_pending s = true ∧
    ∃ e, io_log (link_step (OpPoll now) s) = io_log s ++ [e] ∧ io_what e = IO_RELIABLE 0.
Proof.
  set (p := demo_platform (λ _, WL_SINK_STARTED)).
  exists p, (link_run [OpSetDrainRequired 1; OpSendReliable 5 100 4 0 1; OpConsumed 2 0;
                       OpDrained 2 0; OpSendUnreliable 6 100 2; OpConsumed 3 0]
               (demo_start p demo_cfg)), 10.
  split; [apply demo_reachable; vm_compute; reflexivity|].
  split; [vm_compute; reflexivity|]. split; [vm_compute; reflexivity|].
  eexists. split; vm_compute; reflexivity.
Qed.
