(* ===== verification/LinkReady.v ===== *)
(** What a readiness hint of [schedule.c] promises the application's loop: when it
    says that nothing is runnable, a pass of the owner at that time finds nothing
    to do, and when it gives a deadline, no pass before the deadline does. *)
From S2P Require Import Prelude Cobs Frame RxRing UnitQueue Link LinkInv LinkProps.
#[local] Open Scope wl_scope.

(** A ring up to its search cache. *)
Definition ring_core (r : ring) : ring :=
  r <| find_read := 0 |> <| find_scanned := 0 |> <| find_offset := 0 |>
    <| find_valid := false |> <| find_found := false |>.

Lemma find_core m r v : ring_core (wl_rx_ring_consumer_find m r v).1.1 = ring_core r.
Proof.
  unfold wl_rx_ring_consumer_find. destruct (negb _); [done|]. destruct (_ && find_found r); [done|].
  destruct (find_loop _ _ _ _ _ _); by destruct (v =? 0).
Qed.

(** A search that found nothing finds nothing when it is repeated. *)
Lemma find_again m r :
  (wl_rx_ring_consumer_find m r 0).1.2 ≠ WL_OK →
  let r' := (wl_rx_ring_consumer_find m r 0).1.1 in
  (wl_rx_ring_consumer_find m r' 0).1.2 ≠ WL_OK.
Proof.
  unfold wl_rx_ring_consumer_find at 1 2. destruct (ring_ready r) eqn:Er; cbn [negb].
  2: { cbn. intros _. unfold wl_rx_ring_consumer_find. by rewrite Er. }
  destruct (_ && find_found r); [done|].
  match goal with |- context [find_loop 3 m ?x 0 ?o ?n] => destruct (find_loop 3 m x 0 o n) end; [done|].
  cbn. intros _. unfold wl_rx_ring_consumer_find, ring_ready in *. cbn. rewrite Er. cbn.
  unfold readable_snapshot. cbn. rewrite Z.eqb_refl, Z.leb_refl. cbn. rewrite Z.ltb_irrefl. done.
Qed.

Lemma overflow_pending_core r r' :
  ring_core r = ring_core r' →
  wl_rx_ring_consumer_overflow_pending r = wl_rx_ring_consumer_overflow_pending r'.
Proof.
  intros E. unfold wl_rx_ring_consumer_overflow_pending, ring_ready.
  change (overflow_events r) with (overflow_events (ring_core r)).
  change (memory r) with (memory (ring_core r)). change (capacity r) with (capacity (ring_core r)).
  by rewrite E.
Qed.

(** A wait that ends before its deadline, on the wrapping clock. *)
Lemma u32_deadline now start later timeout :
  is_u32 timeout → u32 (later - now) < timeout - u32 (now - start) →
  u32 (later - start) < timeout.
Proof.
  unfold is_u32, u32. intros Ht Hl.
  replace (later - start) with ((later - now) + (now - start)) by lia.
  rewrite Z.add_mod by done.
  pose proof (Z.mod_pos_bound (later - now) (2 ^ 32) eq_refl).
  pose proof (Z.mod_pos_bound (now - start) (2 ^ 32) eq_refl).
  rewrite Z.mod_small; lia.
Qed.

Section Readiness.
Context {plat : Platform}.

Lemma take_overflow_idle r :
  wl_rx_ring_consumer_overflow_pending r = false →
  wl_rx_ring_consumer_take_overflow r = (r, 0).
Proof.
  unfold wl_rx_ring_consumer_overflow_pending, wl_rx_ring_consumer_take_overflow.
  destruct (negb (ring_ready r)); [done|]. intros H.
  apply negb_false_iff, Z.eqb_eq in H. rewrite H. f_equal. destruct r; cbn in *. by subst.
Qed.

Lemma process_stream_idle s :
  has_event s = false → rx_event_leased s = false →
  wl_rx_ring_consumer_overflow_pending (rx_ring s) = false →
  (wl_rx_ring_consumer_find (lmem s) (rx_ring s) 0).1.2 ≠ WL_OK →
  wl_frame_process_stream s =
    s <| rx_ring := (wl_rx_ring_consumer_find (lmem s) (rx_ring s) 0).1.1 |>.
Proof.
  intros He Hl Ho Hf. unfold wl_frame_process_stream, drop_overflow.
  rewrite (take_overflow_idle _ Ho). cbn [Z.eqb negb].
  replace (s <| rx_ring := rx_ring s |>) with s by by destruct s.
  cbn [process_stream_loop]. rewrite He, Hl. cbn [orb].
  destruct (wl_rx_ring_consumer_find _ _ _) as [[r e] o]. cbn [fst snd] in *.
  apply (bool_decide_eq_false_2 (e = WL_OK)) in Hf. unfold is_ok. by rewrite Hf.
Qed.

(** Nothing to receive: the owner's pass over the input changes the cache only. *)
Lemma process_rx_idle s :
  rx_event_leased s = false → has_event s = false → (wl_rx_runnable s).2 = false →
  ∃ r, wl_link_process_rx (wl_rx_runnable s).1 = (wl_rx_runnable s).1 <| rx_ring := r |> ∧
       ring_core r = ring_core (rx_ring s).
Proof.
  intros Hl He. unfold wl_rx_runnable, wl_link_process_rx. rewrite Hl.
  destruct (stream_link s) eqn:Es.
  - destruct (wl_rx_ring_consumer_overflow_pending _) eqn:Eo; [done|].
    pose proof (find_core (lmem s) (rx_ring s) 0) as Hc.
    pose proof (find_again (lmem s) (rx_ring s)) as Ha.
    destruct (wl_rx_ring_consumer_find _ _ _) as [[r e] o]. cbn [fst snd] in *.
    destruct (is_ok e) eqn:Ee; [done|]. cbn [fst snd]. intros _.
    apply bool_decide_eq_false in Ee. specialize (Ha Ee).
    change (stream_link (s <| rx_ring := r |>)) with (stream_link s). rewrite Es. cbn [negb].
    eexists. rewrite process_stream_idle; cbn; [|done..|by rewrite (overflow_pending_core _ _ Hc)|done].
    split; [reflexivity|]. by rewrite find_core.
  - cbn [fst snd]. rewrite Es. cbn [negb]. intros Hd. exists (rx_ring s). split; [|done].
    replace (s <| rx_ring := rx_ring s |>) with s by by destruct s.
    unfold wl_frame_process_units. destruct (uq_initialized _) eqn:Ei; [|done]. cbn.
    unfold wl_rx_unit_consumer_peek. unfold wl_rx_unit_consumer_has_data in Hd.
    rewrite Ei in *. cbn [negb] in *. apply negb_false_iff in Hd. by rewrite Hd, He, Hl.
Qed.

(** A state in which a pass at any of the times [P] does nothing, its input aside. *)
Record quiet (s : wl_ctx) (P : Z → Prop) : Prop := {
  qt_init : initialized s = true;
  qt_event : has_event s = false;
  qt_completions : tx_unreliable_completions s = 0;
  qt_pending : tx_pending_event s = WL_EVT_NONE ∨ tx_inflight s && in_flight_reliable s = true;
  qt_turn : control_pending s || tx_queued s = true →
    tx_writable s && negb (tx_inflight s) && negb (control_inflight s)
      && negb (tx_drain_pending s) = false;
  qt_control : control_inflight s = true → control_pending s = true;
  qt_due : ∀ now, P now → control_pending s = false → tx_inflight s = false →
    tx_queued s = false → tx_state s = WL_TX_STATE_WAITING_ACK →
    tx_wait_state s = WL_TX_WAIT_ACK → ack_timeout_ms (config s) ≠ 0 →
    u32 (now - tx_start_ts s) < ack_timeout_ms (config s);
}.

Lemma quiet_control s P : quiet s P → wl_submit_control s = (s, WL_OK).
Proof.
  intros []. unfold wl_submit_control. destruct (control_pending s) eqn:Ec; [|done].
  specialize (qt_turn0 eq_refl). cbn [negb orb].
  by destruct (tx_writable s), (tx_inflight s), (control_inflight s), (tx_drain_pending s).
Qed.

Lemma quiet_publish s P : quiet s P → poll_publish_pending s = s.
Proof.
  intros []. unfold poll_publish_pending. destruct qt_pending0 as [->| ->]; [done|].
  by rewrite andb_false_r.
Qed.

Lemma quiet_queued s P : quiet s P → poll_queued s = s.
Proof.
  intros []. unfold poll_queued.
  destruct (tx_queued s), (control_pending s), (control_inflight s), (tx_inflight s),
    (tx_drain_pending s), (tx_writable s); try specialize (qt_turn0 eq_refl);
    try specialize (qt_control0 eq_refl); try done; by rewrite ?andb_false_r.
Qed.

Lemma quiet_timeout s (P : Z → Prop) now : quiet s P → P now → poll_timeout s now = s.
Proof.
  intros [] Hn. specialize (qt_due0 now Hn). unfold poll_timeout.
  match goal with |- context [if ?b then _ else _] => destruct b eqn:Eb end; [|done].
  rewrite !andb_true_iff, !negb_true_iff, !bool_decide_eq_true in Eb.
  destruct Eb as ((((((((_ & Hc) & Hf) & Hq) & _) & Hs) & Hw) & _) & Ht%Z.eqb_neq).
  specialize (qt_due0 Hc Hf Hq Hs Hw Ht). rewrite Z.geb_leb.
  by apply Z.leb_gt in qt_due0 as ->.
Qed.

(** The input of a quiet link is either closed to the pass or searched in vain. *)
Definition deaf (s : wl_ctx) : Prop :=
  control_pending s = true ∨ rx_event_leased s = true ∨
  ∃ r, wl_link_process_rx s = s <| rx_ring := r |> ∧ ring_core r = ring_core (rx_ring s).

Lemma quiet_poll s (P : Z → Prop) now :
  quiet s P → deaf (s <| now_ms := now |>) → P now →
  ∃ r, wl_poll s now = (s <| now_ms := now |> <| rx_ring := r |>, WL_ERR_NO_DATA, event_zero) ∧
       ring_core r = ring_core (rx_ring s).
Proof.
  intros Hq Hd Hn. set (s0 := s <| now_ms := now |>) in *.
  assert (quiet s0 P) as Hq0 by by destruct Hq.
  assert (∃ r, poll_receive s0 = s0 <| rx_ring := r |> ∧ ring_core r = ring_core (rx_ring s))
    as (r & Er & Hr).
  { unfold poll_receive. rewrite (qt_event s0 P Hq0).
    destruct (control_pending s0) eqn:Ec, (rx_event_leased s0) eqn:El; cbn [negb andb];
      try (exists (rx_ring s0); split; [by destruct s|done]).
    destruct Hd as [Hd|[Hd|Hd]]; [by rewrite Ec in Hd|by rewrite El in Hd|done]. }
  assert (wl_poll_transport_progress s0 now = s0 <| rx_ring := r |>) as Ep.
  { unfold wl_poll_transport_progress.
    rewrite (quiet_control s0 P Hq0). cbn [fst]. rewrite (quiet_publish s0 P Hq0), Er.
    assert (quiet (s0 <| rx_ring := r |>) P) as Hq1 by by destruct Hq0.
    rewrite (quiet_queued _ P Hq1). by apply (quiet_timeout _ P). }
  unfold wl_poll. rewrite (qt_init s P Hq). cbn [negb]. fold s0.
  match goal with |- context [if ?b then wl_poll_transport_progress _ _ else _] => destruct b end.
  - exists r. rewrite Ep. split; [|done].
    assert (has_event (s0 <| rx_ring := r |>) = false) as Ee by apply Hq.
    assert (tx_unreliable_completions (s0 <| rx_ring := r |>) = 0) as Eu by apply Hq.
    rewrite Ee, Eu. cbn [negb andb Z.eqb]. by rewrite Ee.
  - exists (rx_ring s). split; [|done].
    replace (s0 <| rx_ring := rx_ring s |>) with s0 by by destruct s.
    rewrite (qt_event s0 P Hq0), (qt_completions s0 P Hq0). cbn [negb andb Z.eqb].
    by rewrite (qt_event s0 P Hq0).
Qed.

Lemma rx_runnable_ring s :
  ∃ r, (wl_rx_runnable s).1 = s <| rx_ring := r |> ∧ ring_core r = ring_core (rx_ring s).
Proof.
  unfold wl_rx_runnable. pose proof (find_core (lmem s) (rx_ring s) 0) as Hc.
  assert (s = s <| rx_ring := rx_ring s |>) as Es by by destruct s.
  destruct (rx_event_leased s); [by exists (rx_ring s)|].
  destruct (stream_link s); [|by exists (rx_ring s)].
  destruct (wl_rx_ring_consumer_overflow_pending _); [by exists (rx_ring s)|].
  destruct (wl_rx_ring_consumer_find _ _ _) as [[r e] o]. exists r. by destruct (is_ok e).
Qed.

Lemma rx_runnable_time s now :
  wl_rx_runnable (s <| now_ms := now |>) =
    ((wl_rx_runnable s).1 <| now_ms := now |>, (wl_rx_runnable s).2).
Proof.
  unfold wl_rx_runnable, stream_link. cbn. destruct (rx_event_leased s); [done|].
  destruct (_ =? WL_ENVELOPE_COBS_STREAM); [|done].
  destruct (wl_rx_ring_consumer_overflow_pending _); [done|].
  destruct (wl_rx_ring_consumer_find _ _ _) as [[r e] o]. by destruct (is_ok e).
Qed.

(** The state [wl_link_get_readiness] looks at after it has searched the input. *)
Definition probed (s : wl_ctx) : wl_ctx :=
  if control_pending s then s else (wl_rx_runnable s).1.

Lemma probed_deaf s now :
  has_event s = false → (control_pending s = false → (wl_rx_runnable s).2 = false) →
  deaf (probed s <| now_ms := now |>).
Proof.
  intros He Hr. unfold probed, deaf. destruct (control_pending s) eqn:Ec; [by left|]. right.
  destruct (rx_event_leased s) eqn:El.
  - left. by destruct (rx_runnable_ring s) as (r & -> & _).
  - right. pose proof (process_rx_idle (s <| now_ms := now |>)) as Hi. specialize (Hi El He).
    rewrite (rx_runnable_time s now) in Hi. cbn [fst snd] in Hi.
    destruct (Hi (Hr eq_refl)) as (r & Er & Hc). exists r. split; [exact Er|].
    rewrite Hc. by destruct (rx_runnable_ring s) as (r' & -> & Hc').
Qed.

Lemma readiness_quiet c st s now s1 hint :
  tx_inv c st s → tx_claim_active s = false → is_u32 (ack_timeout_ms c) →
  wl_link_get_readiness s now = (s1, WL_OK, hint) → runnable hint = false →
  s1 = probed s ∧ (control_pending s = false → (wl_rx_runnable s).2 = false) ∧
  quiet s (λ later, u32 (later - now) < next_deadline_ms hint).
Proof.
  intros Hinv Hcl Hack. unfold wl_link_get_readiness, probed.
  rewrite (ti_init c st s Hinv). cbn [negb].
  destruct (has_event s) eqn:He; cbn [orb].
  { repeat case_match; intros; simplify_eq/=. }
  destruct (tx_unreliable_completions s =? 0) eqn:Eu; cbn [orb negb].
  2: { repeat case_match; intros; simplify_eq/=. }
  destruct (negb (tx_pending_event s ==? WL_EVT_NONE) && _) eqn:Ep.
  { repeat case_match; intros; simplify_eq/=. }
  assert (∃ r run, (if control_pending s then (s, false) else wl_rx_runnable s) =
    (s <| rx_ring := r |>, run) ∧
    s <| rx_ring := r |> = (if control_pending s then s else (wl_rx_runnable s).1) ∧
    (control_pending s = false → (wl_rx_runnable s).2 = run)) as (r & run & -> & <- & Hrun).
  { destruct (control_pending s).
    - exists (rx_ring s), false. by destruct s.
    - destruct (rx_runnable_ring s) as (r & Er & _). exists r, (wl_rx_runnable s).2.
      rewrite <- Er. by destruct (wl_rx_runnable s). }
  cbn. rewrite Hcl, !andb_true_r. intros E Hh.
  match type of E with (if ?b then _ else _) = _ =>
    assert (s1 = s <| rx_ring := r |> ∧
      run || (control_pending s || tx_queued s) &&
        (tx_writable s && negb (tx_inflight s) && negb (control_inflight s)
           && negb (tx_drain_pending s)) = false ∧
      (b = true → next_deadline_ms hint = ack_timeout_ms (config s) - u32 (now - tx_start_ts s)))
      as (-> & Hrn & Hdl) by (destruct b; [destruct (_ >=? _)|]; by simplify_eq/=)
  end.
  apply orb_false_iff in Hrn as [-> Hturn]. split_and!; [done|done|].
  apply Z.eqb_eq in Eu. destruct (ti_fixed c st s Hinv) as (Hcfg & _).
  split; try done; [by apply Hinv|..].
  - apply andb_false_iff in Ep. rewrite !negb_false_iff in Ep.
    destruct Ep as [Ep|Ep]; [left|by right]. by apply bool_decide_eq_true in Ep.
  - intros Hw. by rewrite Hw in Hturn.
  - apply Hinv.
  - intros later Hl Hc Hf Hq Hs Hwt Hto. rewrite Hdl in Hl.
    + apply (u32_deadline now); [rewrite Hcfg; apply Hack|exact Hl].
    + rewrite Hc, Hf, Hq, Hs, Hwt. cbn. by apply negb_true_iff, Z.eqb_neq.
Qed.

(** when a reachable link that lends no payload reports that nothing
    is runnable, a pass of the owner at any time before the reported deadline
    returns no event, offers nothing to the sink and changes nothing but the
    clock and the cache of the delimiter search. *)
Theorem link_readiness_sound c st s now s1 hint later :
  is_u16 (max_retries c) → is_u32 (ack_timeout_ms c) → link_reachable c st s →
  tx_claim_active s = false →
  wl_link_get_readiness s now = (s1, WL_OK, hint) → runnable hint = false →
  u32 (later - now) < next_deadline_ms hint →
  ∃ r, wl_poll s1 later =
         (s1 <| now_ms := later |> <| rx_ring := r |>, WL_ERR_NO_DATA, event_zero) ∧
       ring_core r = ring_core (rx_ring s).
Proof.
  intros Hr Ha Hs Hcl Hh Hrun Hl. destruct (reachable_inv c st s Hr Hs) as [Hinv _].
  destruct (readiness_quiet c st s now s1 hint Hinv Hcl Ha Hh Hrun) as (-> & Hrx & Hq).
  set (P := λ later, u32 (later - now) < next_deadline_ms hint) in *.
  assert (∃ r, probed s = s <| rx_ring := r |> ∧ ring_core r = ring_core (rx_ring s))
    as (r & Ep & Hc).
  { unfold probed. destruct (control_pending s); [|apply rx_runnable_ring].
    exists (rx_ring s). by destruct s. }
  assert (quiet (probed s) P) as Hq' by (rewrite Ep; by destruct Hq).
  destruct (quiet_poll (probed s) P later Hq' (probed_deaf s later (qt_event s P Hq) Hrx) Hl)
    as (r' & E & Hc'). exists r'. split; [exact E|]. rewrite Hc', Ep. exact Hc.
Qed.
End Readiness.

(** A message waits for its acknowledgement until time 10. *)
Lemma link_readiness_sound_witness :
  let p := demo_platform (λ _, WL_SINK_SENT) in
  let s := link_run (take 1 demo_silent_peer) (demo_start p demo_cfg) in
  let hint := mk_readiness false 7 true in
  ∃ r, wl_poll (wl_link_get_readiness s 3).1.1 9 =
         ((wl_link_get_readiness s 3).1.1 <| now_ms := 9 |> <| rx_ring := r |>,
          WL_ERR_NO_DATA, event_zero) ∧
       ring_core r = ring_core (rx_ring s).
Proof.
  intros p s hint.
  apply (link_readiness_sound demo_cfg demo_stg s 3 (wl_link_get_readiness s 3).1.1 hint 9).
  - split; vm_compute; congruence.
  - split; vm_compute; congruence.
  - apply demo_reachable. vm_compute. reflexivity.
  - vm_compute. reflexivity.
  - apply surjective_result; vm_compute; reflexivity.
  - reflexivity.
  - vm_compute. reflexivity.
Defined.
