(* ===== verification/LinkMem.v ===== *)
(** Memory facts the link relies on: what its encoder stores, which bytes its
    stream decoder may touch, and that a wire image determines its packet. *)
From S2P Require Import Prelude Crc Cobs Frame.

Definition bytes_mem (m : mem) : Prop := ∀ a, is_byte (m a).

Lemma bytes_mem_read m a n : bytes_mem m → Forall is_byte (mread m a n).
Proof.
  intros H. revert a. induction n as [|n IH]; intros a; [done|]. by constructor.
Qed.

Lemma stored_bytes m m' a l : bytes_mem m → Forall is_byte l → stored m m' a l → bytes_mem m'.
Proof.
  intros Hm Hl [R F] x.
  destruct (decide (x < a ∨ a + Z.of_nat (length l) <= x)) as [H|H]; [by rewrite F|].
  assert (l !! Z.to_nat (x - a) = Some (m' x)) as Hx.
  { rewrite <- R, mread_lookup by lia. do 2 f_equal. lia. }
  by eapply Forall_lookup in Hx.
Qed.

Lemma memmove_bytes m dst src n : bytes_mem m → bytes_mem (memmove m dst src n).
Proof.
  intros H. eapply stored_bytes; [exact H| |apply stored_mwrite]. by apply bytes_mem_read.
Qed.

Lemma mset_bytes m a v : bytes_mem m → is_byte v → bytes_mem (mset m a v).
Proof. intros H Hv x. unfold mset. by destruct (x =? a). Qed.

(** [m'] differs from [m] in the [n] bytes at [a] only. *)
Definition only_at (m m' : mem) (a n : Z) : Prop := ∀ x, x < a ∨ a + n <= x → m' x = m x.

Lemma only_at_read m m' a n b k :
  only_at m m' a n → a + n <= b ∨ b + Z.of_nat k <= a → mread m' b k = mread m b k.
Proof. intros H Hb. apply mread_ext. intros x Hx. apply H. lia. Qed.

Lemma only_at_weaken m m' a n b k :
  only_at m m' a n → b <= a → a + n <= b + k → only_at m m' b k.
Proof. intros H H1 H2 x Hx. apply H. lia. Qed.

Lemma stored_only m m' a l n : stored m m' a l → Z.of_nat (length l) <= n → only_at m m' a n.
Proof. intros [_ F] Hn x Hx. apply F. lia. Qed.

Lemma memmove_only m dst src n k : n <= k → only_at m (memmove m dst src n) dst k.
Proof.
  intros Hn x Hx. apply mwrite_out. rewrite mread_length. lia.
Qed.

(** ** The encoder of a link *)

Lemma link_encode_ok m env integ packet out cap :
  0 <= pk_payload_len packet <= WL_PACKET_MAX_PAYLOAD → out ≠ NULL →
  encode_result m out cap
    (wire_image packet env integ
       (mread m (pk_payload packet) (Z.to_nat (pk_payload_len packet))))
    (wl_link_encode m env integ packet out cap).
Proof.
  intros Hl Ho. unfold wl_link_encode. destruct (negb _ || negb _) eqn:E.
  - by apply encode_bounded_ok.
  - apply orb_false_iff in E as [E1 E2]. apply negb_false_iff, Z.eqb_eq in E1 as ->, E2 as ->.
    by apply encode_cobs_crc16_ok.
Qed.

(** ** Injectivity of the wire image *)

(** What a frame carries of a packet. *)
Definition same_frame (p q : wl_wire_packet) : Prop :=
  pk_type p = pk_type q ∧ pk_flags p = pk_flags q ∧ pk_message_id p = pk_message_id q ∧
  pk_payload_len p = pk_payload_len q ∧
  (packet_header_len p = WL_FRAME_RELIABLE_HEADER_SIZE →
   pk_session_id p = pk_session_id q ∧ pk_sequence p = pk_sequence q).

Lemma envelope_bytes_inj env l1 l2 : envelope_bytes env l1 = envelope_bytes env l2 → l1 = l2.
Proof.
  unfold envelope_bytes. destruct (_ =? _); [|destruct (_ =? _); [|done]].
  - intros H. apply app_inj_tail in H as [H _].
    apply (f_equal cobs_decoded) in H. rewrite !cobs_decoded_enc in H. by injection H.
  - intros H. by apply app_inj_1 in H as [_ H].
Qed.

Lemma raw_frame_inj p q integ l1 l2 :
  packet_valid p → packet_valid q →
  Z.of_nat (length l1) = pk_payload_len p → Z.of_nat (length l2) = pk_payload_len q →
  raw_frame p integ l1 = raw_frame q integ l2 → same_frame p q ∧ l1 = l2.
Proof.
  intros Hp Hq H1 H2 E. set (m := mwrite (λ _, 0) 64 (raw_frame p integ l1)).
  assert (mread m 64 (length (raw_frame p integ l1)) = raw_frame p integ l1) as Hm
    by by apply mread_mwrite.
  pose proof (frame_parse_complete m 64 p integ l1 1 Hp ltac:(done) ltac:(done) H1 Hm) as F1.
  rewrite E in Hm, F1.
  pose proof (frame_parse_complete m 64 q integ l2 1 Hq ltac:(done) ltac:(done) H2 Hm) as F2.
  rewrite F1 in F2. injection F2 as Et Ef Ei Es Eq Ea El _ _.
  assert (packet_header_len p = packet_header_len q) as Eh by lia.
  split.
  - split_and!; try done. intros Hr. rewrite <- Eh, Hr in Es, Eq. done.
  - unfold raw_frame in E. cbv zeta in E. rewrite <- !app_assoc in E.
    pose proof (frame_write_header_length p). pose proof (frame_write_header_length q).
    unfold local_len in *. apply app_inj_1 in E as [_ E]; [|lia].
    apply app_inj_1 in E as [E _]; [done|lia].
Qed.

Lemma wire_image_inj p q env integ l1 l2 :
  packet_valid p → packet_valid q →
  Z.of_nat (length l1) = pk_payload_len p → Z.of_nat (length l2) = pk_payload_len q →
  wire_image p env integ l1 = wire_image q env integ l2 → same_frame p q ∧ l1 = l2.
Proof. intros ? ? ? ? E. by eapply raw_frame_inj, envelope_bytes_inj. Qed.

Lemma wire_image_bytes p env integ l :
  packet_valid p → Forall is_byte l → Forall is_byte (wire_image p env integ l).
Proof.
  intros Hp Hl. unfold wire_image, envelope_bytes.
  pose proof (raw_frame_bytes p integ l Hp Hl) as Hr.
  destruct (_ =? _); [|destruct (_ =? _); [|done]]; apply Forall_app; split; try done.
  - eapply Forall_impl; [by apply cobs_enc_wire|]. unfold wire_byte, is_byte. lia.
  - by repeat constructor.
  - rewrite write_u16_be_eq. apply be_bytes_bytes.
Qed.

(** ** The reach of the stream decoder *)

(** [m'] is [m] with bytes stored between [a] and [a + n]. *)
Definition scratched (m m' : mem) (a n : Z) : Prop :=
  only_at m m' a n ∧ (bytes_mem m → bytes_mem m').

Lemma scratched_refl m a n : scratched m m a n.
Proof. done. Qed.

Lemma scratched_trans m1 m2 m3 a n :
  scratched m1 m2 a n → scratched m2 m3 a n → scratched m1 m3 a n.
Proof.
  intros [H1 B1] [H2 B2]. split; [|by auto]. intros x Hx. by rewrite H2, H1.
Qed.

Lemma cobs_copy_bytes n m src dst : bytes_mem m → bytes_mem (cobs_copy n m src dst).
Proof.
  revert m src dst. induction n as [|n IH]; intros m src dst H; [done|].
  by apply IH, mset_bytes.
Qed.

Lemma cobs_copy_scratched n m src dst a k :
  a <= dst → dst + Z.of_nat n <= a + k → scratched m (cobs_copy n m src dst) a k.
Proof.
  intros H1 H2. split; [|apply cobs_copy_bytes]. intros x Hx. apply cobs_copy_frame. lia.
Qed.

Lemma crc16_decode_loop_scratched n m encoded encoded_len read write crc :
  0 <= write <= read →
  scratched m (cobs_crc16_decode_loop n m encoded encoded_len read write crc).1
    encoded encoded_len.
Proof.
  revert m read write crc. induction n as [|n IH]; intros m read write crc Hw; [done|].
  cbn [cobs_crc16_decode_loop]. destruct (Z.ltb_spec read encoded_len); [|done].
  set (count := usize _). assert (0 <= count) by (apply Z.mod_pos_bound; done).
  destruct (_ || _) eqn:E; [done|]. apply orb_false_iff in E as [_ E].
  rewrite crc16_copy_ok by lia.
  pose proof (cobs_copy_scratched (Z.to_nat count) m (encoded + (read + 1)) (encoded + write)
    encoded encoded_len ltac:(lia) ltac:(lia)) as Hc.
  destruct (_ && _); (eapply scratched_trans; [exact Hc|]).
  - eapply scratched_trans; [|apply IH; lia]. split; [|by intros; apply mset_bytes].
    intros x Hx. apply mset_ne. lia.
  - apply IH. lia.
Qed.

Lemma decode_stream_scratched m integ encoded len v :
  bytes_mem m → 0 < len < 2 ^ 63 →
  scratched m (wl_link_decode_stream m integ encoded len v).1 encoded len.
Proof.
  intros Hm Hl. unfold wl_link_decode_stream. destruct (negb _).
  - unfold wl_frame_decode_cobs_generic, wl_cobs_decode_in_place.
    destruct (decide (encoded = NULL)) as [->|He].
    { unfold wl_cobs_decode. by replace (len >? 0) with true by lia. }
    pose proof (wl_cobs_decode_ok m encoded len encoded len 1 _ ltac:(done) He He Hl
      ltac:(lia) ltac:(lia) eq_refl (bytes_mem_read _ _ _ Hm)) as Hd.
    destruct (cobs_decoded _) as [d|] eqn:Ed; [|by rewrite Hd].
    destruct Hd as (m' & -> & Hst).
    assert (scratched m m' encoded len) as Hs.
    { pose proof (cobs_decoded_length _ _ Ed) as Hdl. rewrite mread_length in Hdl.
      split; [eapply stored_only; [exact Hst|lia]|]. intros _.
      eapply stored_bytes; [exact Hm| |exact Hst].
      eapply cobs_decoded_bytes; [|exact Ed]. by apply bytes_mem_read. }
    cbn. by destruct (_ =? 0).
  - unfold wl_frame_decode_cobs_crc16. destruct (_ || _); [done|]. destruct (_ =? 0); [done|].
    pose proof (crc16_decode_loop_scratched (Z.to_nat len) m encoded len 0 0 0xffff
      ltac:(lia)) as Hs.
    destruct (cobs_crc16_decode_loop _ _ _ _ _ _ _) as [m' [e|[w c]]]; [done|].
    by destruct (w =? 0).
Qed.

(** ** Frames that pass validation *)

(** A view of a valid frame whose payload lies in the [len] bytes at [a]. *)
Definition view_within (view : wl_frame_view) (a len : Z) : Prop :=
  packet_valid (view_packet view) ∧
  a <= span_data (fv_payload view) ∧
  span_data (fv_payload view) + span_length (fv_payload view) <= a + len.

Lemma parsed_within m a n integ crc view k :
  parsed m a n integ crc view → n <= k → view_within view a k.
Proof.
  intros (Hv & Hview & Hn & _) Hk. split; [done|].
  pose proof (packet_header_len_cases (view_packet view)) as Hh.
  pose proof (wl_profile_crc_size_le integ) as Hc.
  assert (span_data (fv_payload view) = a + packet_header_len (view_packet view)) as ->
    by by rewrite Hview.
  change (span_length (fv_payload view)) with (pk_payload_len (view_packet view)).
  destruct Hv as (Hl & _). lia.
Qed.

Lemma decode_within m a n integ v view :
  bytes_mem m → wl_frame_decode m a n integ v = inr view → view_within view a n.
Proof.
  intros Hm. unfold wl_frame_decode. destruct (_ || _); [done|]. intros H.
  apply frame_parse_sound in H as [_ H]; [|by apply bytes_mem_read].
  by eapply parsed_within.
Qed.

Lemma decode_stream_within m integ encoded len v m' view :
  bytes_mem m → wl_profile_integrity_valid integ = true → v ≠ NULL → 0 < len < 2 ^ 63 →
  wl_link_decode_stream m integ encoded len v = (m', inr view) → view_within view encoded len.
Proof.
  intros Hm Hi Hv Hl E.
  assert (encoded ≠ NULL) as He.
  { intros ->. unfold wl_link_decode_stream, wl_frame_decode_cobs_generic,
      wl_cobs_decode_in_place, wl_cobs_decode, wl_frame_decode_cobs_crc16 in E.
    replace (len >? 0) with true in E by lia. by destruct (negb _). }
  pose proof (bytes_mem_read m encoded (Z.to_nat len) Hm) as Hby.
  assert (stream_decode_spec m integ encoded (mread m encoded (Z.to_nat len)) v
    (wl_link_decode_stream m integ encoded len v)) as Hd.
  { unfold wl_link_decode_stream. destruct (Z.eqb_spec integ WL_INTEGRITY_CRC16) as [->|]; cbn [negb].
    - by apply decode_cobs_crc16_ok.
    - by apply decode_cobs_generic_ok. }
  unfold stream_decode_spec in Hd. rewrite E in Hd.
  destruct (cobs_decoded _) as [d|] eqn:Ed; [|done]. destruct Hd as (m1 & [Hst _] & E1).
  destruct (_ =? 0); [done|]. injection E1 as _ E1. symmetry in E1.
  pose proof (cobs_decoded_length _ _ Ed) as Hdl. rewrite mread_length in Hdl.
  apply frame_parse_sound in E1 as [_ E1].
  - eapply parsed_within; [exact E1|lia].
  - rewrite Nat2Z.id, Hst. by eapply cobs_decoded_bytes.
Qed.
