(* ===== verification/LinkSteps.v ===== *)
(** Elementary steps of a link.

    [micro] lists the ways in which the data of a link can change: its memory,
    its logs, the message it keeps for retransmission and the key of the last
    reliable frame.  Every operation of the engine is a sequence of such steps,
    so a statement about the data needs to be checked for these steps only.
    [quiet_step] stands for everything else an operation does to the flags. *)
From stdpp Require Import relations.
From S2P Require Import Prelude Cobs Frame RxRing RingShape UnitQueue Link LinkInv LinkMem.
#[local] Open Scope wl_scope.

(** A message that may still be offered to the sink. *)
Definition engaged (s : wl_ctx) : Prop := tx_handle s ≠ 0 ∧ ¬ terminal s.

(** An unreliable unit that waits for the sink. *)
Definition unrel_queued (s : wl_ctx) : Prop :=
  tx_queued s = true ∧ in_flight_reliable s = false.

Definition tx_core (s : wl_ctx) :=
  (tx_handle s, tx_waiting_seq s, tx_encoded_len s, tx_payload s, tx_last_message_id s).
Definition fixed (s : wl_ctx) := (config s, storage s, session_id s).
Definition rx_keys (s : wl_ctx) := (rx_have_reliable s, rx_session_id s, rx_sequence s).
Definition logs (s : wl_ctx) := (io_log s, rx_log s, rx_delivered s).
Definition claim_data (s : wl_ctx) :=
  (tx_claim_payload s, tx_claim_reliable s, tx_claim_message_id s).

Definition last_offer (s : wl_ctx) : option Z := last (attempts (io_log s)).*1.

(** Flags may fall, the data they guard stays. *)
Record quiet_step (s s' : wl_ctx) : Prop := {
  qs_fixed : fixed s' = fixed s;
  qs_mem : lmem s' = lmem s;
  qs_logs : logs s' = logs s;
  qs_ring : rx_ring s' = rx_ring s;
  qs_keys : rx_keys s' = rx_keys s;
  qs_consume : 0 <= rx_pending_consume s → 0 <= rx_pending_consume s';
  qs_sequence : tx_sequence s <= tx_sequence s';
  qs_engaged : engaged s' → engaged s ∧ tx_core s' = tx_core s ∧
    (tx_state s' ≠ WL_TX_STATE_IDLE →
     tx_state s ≠ WL_TX_STATE_IDLE ∨ last_offer s = Some (tx_waiting_seq s));
  qs_span : tx_handle s' ≠ 0 → tx_handle s ≠ 0 ∧
    (tx_payload s' = tx_payload s ∨ tx_payload s' = mk_span (st_tx_payload (storage s)) 0);
  qs_unrel : unrel_queued s' → unrel_queued s ∧ tx_unreliable_len s' = tx_unreliable_len s;
  qs_control : control_pending s' = true →
    control_pending s = true ∧ control_len s' = control_len s;
  qs_success : tx_state s' = WL_TX_STATE_SUCCESS → tx_state s = WL_TX_STATE_SUCCESS;
  qs_claim : tx_claim_active s' = true →
    tx_claim_active s = true ∧ claim_data s' = claim_data s;
}.

(** The packet of the message in hand, and its payload. *)
Definition rel_packet (s : wl_ctx) : wl_wire_packet :=
  mk_packet WL_PACKET_DATA (integrity (config s)) WL_PACKET_FLAG_RELIABLE
    (tx_last_message_id s) (session_id s) (tx_waiting_seq s)
    (span_data (tx_payload s)) (span_length (tx_payload s)).

Definition tx_bytes (s : wl_ctx) : list Z :=
  mread (lmem s) (span_data (tx_payload s)) (Z.to_nat (span_length (tx_payload s))).

Definition image (s : wl_ctx) (p : wl_wire_packet) (l : list Z) : list Z :=
  wire_image p (envelope (config s)) (integrity (config s)) l.

Definition ack_packet (s : wl_ctx) (session sequence : Z) : wl_wire_packet :=
  mk_packet WL_PACKET_ACK (integrity (config s)) 0 0 session sequence NULL 0.

(** [p] is an unreliable message. *)
Definition is_unreliable (p : wl_wire_packet) : Prop :=
  packet_valid p ∧ pk_type p = WL_PACKET_DATA ∧ pk_flags p = 0.

Definition entry_valid (e : rx_entry) : Prop :=
  packet_valid (view_packet (rx_view e)) ∧
  Z.of_nat (length (rx_bytes e)) = span_length (fv_payload (rx_view e)).

Definition entry_reliable (e : rx_entry) : bool :=
  (fv_type (rx_view e) =? WL_PACKET_DATA)
  && negb (Z.land (fv_flags (rx_view e)) WL_PACKET_FLAG_RELIABLE =? 0).

Definition entry_key (e : rx_entry) : Z * Z :=
  (fv_session_id (rx_view e), fv_sequence (rx_view e)).

(** Where the payload of a reliable message lives. *)
Definition payload_place (c : wl_config) (st : wl_storage) (d : Z) : Prop :=
  d = st_tx_payload st ∨
  (envelope c = WL_ENVELOPE_NATIVE_PACKET ∧ d = st_tx_unit st + WL_FRAME_RELIABLE_HEADER_SIZE).

Definition in_span (a data len : Z) : Prop := data <= a < data + len.

(** The stores the application and the drivers may make: outside the transmit
    storage, or in the payload lent to them. *)
Definition may_store (s : wl_ctx) (a : Z) : Prop :=
  let st := storage s in
  (¬ in_span a (st_tx_payload st) (st_tx_payload_size st) ∧
   ¬ in_span a (st_tx_unit st) (st_tx_unit_size st) ∧
   ¬ in_span a (st_control_unit st) (st_control_unit_size st)) ∨
  (tx_claim_active s = true ∧
   in_span a (span_data (tx_claim_payload s)) (span_length (tx_claim_payload s))).

(** The receive storage the link itself may scribble on. *)
Definition rx_area (st : wl_storage) (a n : Z) : Prop :=
  (st_rx_fifo st <= a ∧ a + n <= st_rx_fifo st + st_rx_fifo_size st) ∨
  (st_rx_fallback st <= a ∧ a + n <= st_rx_fallback st + st_rx_fallback_size st).

(** The span of a payload claim. *)
Definition claim_place (s : wl_ctx) (reliable : bool) (d : Z) : Prop :=
  let st := storage s in
  (reliable = true → payload_place (config s) st d ∧ ¬ engaged s) ∧
  (d = st_tx_payload st ∧ ¬ engaged s ∨
   st_tx_unit st <= d <= st_tx_unit st + WL_FRAME_RELIABLE_HEADER_SIZE ∧
   (engaged s → tx_encoded_len s = 0 ∧ span_data (tx_payload s) = st_tx_payload st)).

(** The key of the last reliable frame is that of [e]. *)
Definition seen (s : wl_ctx) (e : rx_entry) : Prop :=
  rx_keys s = (true, (entry_key e).1, (entry_key e).2).

Inductive micro (s : wl_ctx) : wl_ctx → Prop :=
  | mi_quiet s' : quiet_step s s' → micro s s'
  | mi_ring r : ring_moves (rx_ring s) r → micro s (s <| rx_ring := r |>)
  | mi_scratch m a n :
      scratched (lmem s) m a n → rx_area (storage s) a n → micro s (s <| lmem := m |>)
  | mi_store a v :
      is_byte v → may_store s a → micro s (s <| lmem := mset (lmem s) a v |>)
  | mi_log e :
      entry_valid e → micro s (s <| rx_log := rx_log s ++ [e] |>)
  | mi_deliver e :
      entry_valid e → entry_reliable e = false →
      micro s (s <| rx_log := rx_log s ++ [e] |> <| rx_delivered := rx_delivered s ++ [e] |>)
  | mi_deliver_rel e :
      entry_valid e → entry_reliable e = true → ¬ seen s e →
      micro s (s <| rx_log := rx_log s ++ [e] |> <| rx_delivered := rx_delivered s ++ [e] |>
                 <| rx_have_reliable := true |> <| rx_session_id := (entry_key e).1 |>
                 <| rx_sequence := (entry_key e).2 |>)
  | mi_ack m e :
      entry_valid e → entry_reliable e = true → seen s e → control_pending s = false →
      let l := image s (ack_packet s (entry_key e).1 (entry_key e).2) [] in
      stored (lmem s) m (st_control_unit (storage s)) l →
      Z.of_nat (length l) <= st_control_unit_size (storage s) →
      micro s (s <| lmem := m |> <| control_len := Z.of_nat (length l) |>
                 <| control_pending := true |>)
  | mi_offer_control token answer :
      control_pending s = true →
      micro s (s <| io_log := io_log s ++
        [mk_io IO_CONTROL token
           (mread (lmem s) (st_control_unit (storage s)) (Z.to_nat (control_len s))) answer] |>)
  | mi_acked e :
      e ∈ rx_log s → fv_type (rx_view e) = WL_PACKET_ACK → engaged s →
      tx_state s ≠ WL_TX_STATE_IDLE → entry_key e = (session_id s, tx_waiting_seq s) →
      micro s (s <| tx_state := WL_TX_STATE_SUCCESS |>)
  | mi_begin s' :
      tx_handle s = 0 → tx_state s = WL_TX_STATE_IDLE → tx_state s' = WL_TX_STATE_IDLE →
      tx_claim_active s = false →
      ¬ unrel_queued s → fixed s' = fixed s → logs s' = logs s → rx_ring s' = rx_ring s →
      rx_keys s' = rx_keys s → rx_pending_consume s' = rx_pending_consume s →
      tx_encoded_len s' = 0 →
      (control_pending s' = control_pending s ∧ control_len s' = control_len s) →
      tx_claim_active s' = false → ¬ unrel_queued s' →
      scratched (lmem s) (lmem s') (st_tx_payload (storage s)) (max_payload_len (config s)) →
      payload_place (config s) (storage s) (span_data (tx_payload s')) →
      0 <= span_length (tx_payload s') <= max_payload_len (config s) →
      packet_valid (rel_packet s') →
      tx_waiting_seq s' = tx_sequence s → tx_sequence s' = tx_sequence s + 1 →
      (∀ e, e ∈ io_log s → io_what e ≠ IO_RELIABLE (tx_waiting_seq s')) →
      micro s s'
  | mi_encode m :
      engaged s → tx_encoded_len s = 0 → tx_claim_active s = false → ¬ unrel_queued s →
      let l := image s (rel_packet s) (tx_bytes s) in
      stored (lmem s) m (st_tx_unit (storage s)) l →
      Z.of_nat (length l) <= st_tx_unit_size (storage s) →
      micro s (s <| lmem := m |> <| tx_encoded_len := Z.of_nat (length l) |>)
  | mi_offer_rel token answer :
      engaged s → tx_encoded_len s ≠ 0 →
      micro s (s <| io_log := io_log s ++
        [mk_io (IO_RELIABLE (tx_waiting_seq s)) token
           (mread (lmem s) (st_tx_unit (storage s)) (Z.to_nat (tx_encoded_len s))) answer] |>)
  | mi_invalidate :
      tx_claim_active s = false → ¬ unrel_queued s → micro s (wl_invalidate_tx_image s)
  | mi_unrel m p l :
      (engaged s → tx_encoded_len s = 0 ∧ span_data (tx_payload s) = st_tx_payload (storage s)) →
      tx_claim_active s = false → is_unreliable p → Z.of_nat (length l) = pk_payload_len p →
      Forall is_byte l →
      stored (lmem s) m (st_tx_unit (storage s)) (image s p l) →
      Z.of_nat (length (image s p l)) <= st_tx_unit_size (storage s) →
      micro s (s <| lmem := m |> <| tx_unreliable_len := Z.of_nat (length (image s p l)) |>
                 <| tx_queued := true |> <| in_flight_reliable := false |>)
  | mi_offer_unrel token answer :
      unrel_queued s →
      micro s (s <| io_log := io_log s ++
        [mk_io IO_UNRELIABLE token
           (mread (lmem s) (st_tx_unit (storage s)) (Z.to_nat (tx_unreliable_len s))) answer] |>)
  | mi_claim span reliable message_id :
      tx_claim_active s = false → ¬ unrel_queued s → is_u16 message_id → message_id ≠ 0 →
      span_length span = max_payload_len (config s) → claim_place s reliable (span_data span) →
      micro s (s <| tx_claim_active := true |> <| tx_claim_reliable := reliable |>
                 <| tx_claim_message_id := message_id |> <| tx_claim_payload := span |>).

Definition steps : relation wl_ctx := rtc micro.

(** ** The invariant of the data *)

(** [st] is large enough for [c] and its transmit areas do not overlap the
    receive areas; [wl_init] checks the sizes and the transmit areas among
    themselves. *)
Definition apart (a n b k : Z) : Prop := a + n <= b ∨ b + k <= a.

Record storage_fits (c : wl_config) (st : wl_storage) : Prop := {
  sf_payload : 0 < max_payload_len c <= WL_PACKET_MAX_PAYLOAD;
  sf_payload_room : max_payload_len c <= st_tx_payload_size st;
  sf_unit_room : max_payload_len c + WL_FRAME_RELIABLE_HEADER_SIZE <= st_tx_unit_size st;
  sf_control_room : 0 <= st_control_unit_size st;
  sf_nonnull : st_tx_payload st ≠ NULL ∧ st_tx_unit st ≠ NULL ∧ st_control_unit st ≠ NULL;
  sf_payload_unit : apart (st_tx_payload st) (st_tx_payload_size st)
                      (st_tx_unit st) (st_tx_unit_size st);
  sf_payload_control : apart (st_tx_payload st) (st_tx_payload_size st)
                         (st_control_unit st) (st_control_unit_size st);
  sf_unit_control : apart (st_tx_unit st) (st_tx_unit_size st)
                      (st_control_unit st) (st_control_unit_size st);
}.

(** What the caller of [wl_init] promises about the receive areas. *)
Definition rx_apart (st : wl_storage) : Prop :=
  ∀ b k, (b, k) ∈ [(st_tx_payload st, st_tx_payload_size st);
                   (st_tx_unit st, st_tx_unit_size st);
                   (st_control_unit st, st_control_unit_size st)] →
  apart (st_rx_fifo st) (st_rx_fifo_size st) b k ∧
  apart (st_rx_fallback st) (st_rx_fallback_size st) b k.
