(* ===== verification/LinkData.v ===== *)
(** What the data of a link means.

    [tx_data] says what the transmit storage holds: the image of the message in
    hand, of a queued unreliable unit and of a pending acknowledgement; and what
    the units in the log of the sink were.  [rx_data] relates the frames that
    were received to those that became events.  Every elementary step keeps both. *)
From stdpp Require Import relations.
From S2P Require Import Prelude Cobs Frame RxRing RingShape UnitQueue Link LinkInv LinkMem LinkSteps.
#[local] Open Scope wl_scope.

Section Data.
Context (c : wl_config) (st : wl_storage).
Context (Hfit : storage_fits c st) (Hrx : rx_apart st).

Definition img (p : wl_wire_packet) (l : list Z) : list Z :=
  wire_image p (envelope c) (integrity c) l.

Definition unreliable_unit (u : list Z) : Prop :=
  ∃ p l, is_unreliable p ∧ Z.of_nat (length l) = pk_payload_len p ∧ Forall is_byte l ∧
         u = img p l.

Definition reliable_unit (q : Z) (u : list Z) : Prop :=
  ∃ p l, packet_valid p ∧ pk_type p = WL_PACKET_DATA ∧ pk_flags p = WL_PACKET_FLAG_RELIABLE ∧
         pk_session_id p = cfg_session_id c ∧ pk_sequence p = q ∧
         Z.of_nat (length l) = pk_payload_len p ∧ u = img p l.

(** The acknowledgement of a message that became an event. *)
Definition ack_unit (delivered : list rx_entry) (u : list Z) : Prop :=
  ∃ e, e ∈ delivered ∧ entry_valid e ∧ entry_reliable e = true ∧
       u = img (mk_packet WL_PACKET_ACK (integrity c) 0 0 (entry_key e).1 (entry_key e).2 NULL 0) [].

Definition unit_meaning (delivered : list rx_entry) (e : io_entry) : Prop :=
  match io_what e with
  | IO_RELIABLE q => reliable_unit q (io_unit e)
  | IO_UNRELIABLE => unreliable_unit (io_unit e)
  | IO_CONTROL => ack_unit delivered (io_unit e)
  end.

Definition tx_unit_at (s : wl_ctx) (n : Z) : list Z := mread (lmem s) (st_tx_unit st) (Z.to_nat n).

Record tx_data (s : wl_ctx) : Prop := {
  td_fixed : config s = c ∧ storage s = st ∧ session_id s = cfg_session_id c;
  td_bytes : bytes_mem (lmem s);
  td_span : tx_handle s ≠ 0 →
    payload_place c st (span_data (tx_payload s)) ∧
    0 <= span_length (tx_payload s) <= max_payload_len c;
  td_message : engaged s → packet_valid (rel_packet s);
  td_image : engaged s → tx_encoded_len s ≠ 0 →
    tx_unit_at s (tx_encoded_len s) = img (rel_packet s) (tx_bytes s);
  td_sent : engaged s → ∀ e, e ∈ io_log s → io_what e = IO_RELIABLE (tx_waiting_seq s) →
    io_unit e = img (rel_packet s) (tx_bytes s);
  td_last : engaged s → tx_state s ≠ WL_TX_STATE_IDLE → last_offer s = Some (tx_waiting_seq s);
  td_unrel : unrel_queued s → unreliable_unit (tx_unit_at s (tx_unreliable_len s));
  td_control : control_pending s = true →
    ack_unit (rx_delivered s)
      (mread (lmem s) (st_control_unit st) (Z.to_nat (control_len s))) ∧
    control_len s <= st_control_unit_size st;
  td_room : (engaged s → tx_encoded_len s <= st_tx_unit_size st) ∧
    (unrel_queued s → tx_unreliable_len s <= st_tx_unit_size st);
  td_log : ∀ e, e ∈ io_log s → unit_meaning (rx_delivered s) e;
  td_same : ∀ e1 e2 q, e1 ∈ io_log s → e2 ∈ io_log s → io_what e1 = IO_RELIABLE q →
    io_what e2 = IO_RELIABLE q → io_unit e1 = io_unit e2;
  td_claim : tx_claim_active s = true →
    ¬ unrel_queued s ∧ claim_place s (tx_claim_reliable s) (span_data (tx_claim_payload s)) ∧
    span_length (tx_claim_payload s) = max_payload_len c ∧
    is_u16 (tx_claim_message_id s) ∧ tx_claim_message_id s ≠ 0;
  td_success : tx_state s = WL_TX_STATE_SUCCESS →
    ∃ e, e ∈ rx_log s ∧ fv_type (rx_view e) = WL_PACKET_ACK ∧
         (entry_key e).1 = session_id s ∧ last_offer s = Some (entry_key e).2;
}.

(** Adjacent reliable deliveries have different keys, and the last one is the
    one the link compares with. *)
Definition reliable_keys (l : list rx_entry) : list (Z * Z) :=
  entry_key <$> filter (λ e, entry_reliable e = true) l.

Fixpoint adjacent_differ (l : list (Z * Z)) : Prop :=
  match l with
  | x :: (y :: _) as l' => x ≠ y ∧ adjacent_differ l'
  | _ => True
  end.

Record rx_data (s : wl_ctx) : Prop := {
  rd_valid : Forall entry_valid (rx_log s);
  rd_sub : rx_delivered s `sublist_of` rx_log s;
  rd_differ : adjacent_differ (reliable_keys (rx_delivered s));
  rd_last : last (reliable_keys (rx_delivered s)) =
    if rx_have_reliable s then Some (rx_session_id s, rx_sequence s) else None;
}.

(** ** Steps that leave the data alone *)

Lemma quiet_tx_data s s' : quiet_step s s' → tx_data s → tx_data s'.
Proof.
  intros [Hf Hm Hl _ _ _ _ He Hsp Hu Hc Hs Hcl] [].
  injection Hf as Ec Est Ese. injection Hl as Eio Erx Ed.
  assert (engaged s' → engaged s ∧ rel_packet s' = rel_packet s ∧ tx_bytes s' = tx_bytes s ∧
    tx_payload s' = tx_payload s ∧ tx_encoded_len s' = tx_encoded_len s ∧
    tx_waiting_seq s' = tx_waiting_seq s) as Hcore.
  { intros Hs'. destruct (He Hs') as (Hen & E & _). injection E as E1 E2 E3 E4 E5.
    split; [done|]. unfold rel_packet, tx_bytes. by rewrite Hm, Ec, Ese, E2, E3, E4, E5. }
  unfold tx_unit_at, last_offer in *.
  split; rewrite ?Ec, ?Est, ?Ese, ?Hm, ?Eio, ?Erx, ?Ed; unfold tx_unit_at, last_offer;
    rewrite ?Hm, ?Eio; try done.
  - intros H. destruct (Hsp H) as (H' & Hp). destruct (td_span0 H') as [Hpl Hln].
    destruct td_fixed0 as (_ & Est' & _). destruct Hp as [-> | ->]; [done|].
    rewrite Est'. split; [by left|]. pose proof (sf_payload c st Hfit). cbn. lia.
  - intros H. destruct (Hcore H) as (H' & -> & _). by apply td_message0.
  - intros H. destruct (Hcore H) as (H' & -> & -> & _ & -> & _). by apply td_image0.
  - intros H. destruct (Hcore H) as (H' & -> & -> & _ & _ & ->). by apply td_sent0.
  - intros H Hi. destruct (Hcore H) as (H' & _ & _ & _ & _ & ->).
    destruct (He H) as (_ & _ & Ho). destruct (Ho Hi) as [Hi'|Hi']; [by apply td_last0|done].
  - intros H. destruct (Hu H) as (H' & ->). by apply td_unrel0.
  - intros H. destruct (Hc H) as (H' & ->). by apply td_control0.
  - split.
    + intros H. destruct (Hcore H) as (H' & _ & _ & _ & -> & _). by apply td_room0.
    + intros H. destruct (Hu H) as (H' & ->). by apply td_room0.
  - intros H. destruct (Hcl H) as (H' & E). injection E as -> -> ->.
    destruct (td_claim0 H') as (Hnu & (Hp1 & Hp2) & Hrest).
    split; [intros Hq; by destruct (Hu Hq)|]. split; [|done].
    unfold claim_place in *. rewrite Ec, Est.
    split.
    + intros Hr. destruct (Hp1 Hr) as [? Hne]. split; [done|]. intros He'. by destruct (Hcore He').
    + destruct Hp2 as [[? Hne]|[? Hen]]; [left|right]; split; try done.
      * intros He'. by destruct (Hcore He').
      * intros He'. destruct (Hcore He') as (H2 & _ & _ & -> & -> & _). by apply Hen.
  - intros H. by apply td_success0, Hs.
Qed.

(** A change of memory that spares the images. *)
Lemma mem_tx_data s m :
  tx_data s → bytes_mem m →
  (engaged s → mread m (span_data (tx_payload s)) (Z.to_nat (span_length (tx_payload s)))
     = tx_bytes s) →
  (engaged s → tx_encoded_len s ≠ 0 →
     mread m (st_tx_unit st) (Z.to_nat (tx_encoded_len s)) = tx_unit_at s (tx_encoded_len s)) →
  (unrel_queued s →
     mread m (st_tx_unit st) (Z.to_nat (tx_unreliable_len s))
     = tx_unit_at s (tx_unreliable_len s)) →
  (control_pending s = true →
     mread m (st_control_unit st) (Z.to_nat (control_len s))
     = mread (lmem s) (st_control_unit st) (Z.to_nat (control_len s))) →
  tx_data (s <| lmem := m |>).
Proof.
  intros [] Hb Hp Hi Hu Hc. split; try assumption; unfold tx_unit_at, tx_bytes in *; cbn in *.
  - intros H Hn. rewrite (Hi H Hn), (td_image0 H Hn). f_equal. symmetry. by apply Hp.
  - intros H e He Hw. rewrite (td_sent0 H e He Hw). f_equal. symmetry. by apply Hp.
  - intros H. rewrite (Hu H). by apply td_unrel0.
  - intros H. rewrite (Hc H). by apply td_control0.
Qed.

(** ** Stores outside the images *)

(** The payload lies in one of the two transmit areas. *)
Lemma payload_inside s :
  tx_data s → engaged s →
  let d := span_data (tx_payload s) in let n := span_length (tx_payload s) in
  0 <= n ∧
  (d = st_tx_payload st ∧ n <= st_tx_payload_size st ∨
   st_tx_unit st <= d ∧ d + n <= st_tx_unit st + st_tx_unit_size st).
Proof.
  intros [] [He _]. destruct (td_span0 He) as ([->|(_ & ->)] & Hn);
    (split; [lia|]); [left|right]; destruct Hfit;
    unfold WL_FRAME_RELIABLE_HEADER_SIZE in *; lia.
Qed.

Lemma elsewhere_tx_data s m a n :
  tx_data s → bytes_mem m → only_at (lmem s) m a n →
  apart a n (st_tx_payload st) (st_tx_payload_size st) →
  apart a n (st_tx_unit st) (st_tx_unit_size st) →
  apart a n (st_control_unit st) (st_control_unit_size st) →
  tx_data (s <| lmem := m |>).
Proof.
  intros Hd Hb Ho H1 H2 H3. unfold apart in *.
  apply mem_tx_data; [done..| | | |]; unfold tx_bytes, tx_unit_at.
  - intros He. destruct (payload_inside s Hd He) as (Hn & Hpl).
    eapply only_at_read; [exact Ho|]. lia.
  - intros He _. destruct (td_room s Hd) as [Hr _]. specialize (Hr He).
    pose proof (sf_unit_room c st Hfit). pose proof (sf_payload c st Hfit).
    unfold WL_FRAME_RELIABLE_HEADER_SIZE in *.
    eapply only_at_read; [exact Ho|]. lia.
  - intros Hu. destruct (td_room s Hd) as [_ Hr]. specialize (Hr Hu).
    pose proof (sf_unit_room c st Hfit). pose proof (sf_payload c st Hfit).
    unfold WL_FRAME_RELIABLE_HEADER_SIZE in *.
    eapply only_at_read; [exact Ho|]. lia.
  - intros Hc. destruct (td_control s Hd Hc) as [_ Hr].
    pose proof (sf_control_room c st Hfit).
    eapply only_at_read; [exact Ho|]. lia.
Qed.

Lemma scratch_tx_data s m a n :
  tx_data s → scratched (lmem s) m a n → rx_area st a n → tx_data (s <| lmem := m |>).
Proof.
  intros Hd [Ho Hb] Ha. apply (elsewhere_tx_data s m a n); [done|by apply Hb, Hd|done|..].
  all: match goal with |- apart _ _ ?b ?k => destruct (Hrx b k) as [H1 H2]; [set_solver|] end;
    destruct Ha as [[??]|[??]]; unfold apart in *; lia.
Qed.

Lemma store_tx_data s a v :
  tx_data s → is_byte v → may_store s a → tx_data (s <| lmem := mset (lmem s) a v |>).
Proof.
  intros Hd Hv Hs. assert (bytes_mem (mset (lmem s) a v)) as Hb by (apply mset_bytes; [apply Hd|done]).
  assert (only_at (lmem s) (mset (lmem s) a v) a 1) as Ho
    by (intros x Hx; apply mset_ne; lia).
  destruct (td_fixed s Hd) as (Ec & Est & _). unfold may_store, in_span in Hs. rewrite Est in Hs.
  destruct Hs as [(H1 & H2 & H3)|[Hcl Hin]].
  { pose proof (sf_control_room c st Hfit). pose proof (sf_payload c st Hfit).
    pose proof (sf_payload_room c st Hfit). pose proof (sf_unit_room c st Hfit).
    unfold WL_FRAME_RELIABLE_HEADER_SIZE in *.
    apply (elsewhere_tx_data s _ a 1); [done..|unfold apart; lia|unfold apart; lia|unfold apart; lia]. }
  destruct (td_claim s Hd Hcl) as (Hnu & [_ Hplace] & Hlen & _).
  rewrite Hlen in Hin. rewrite Est in Hplace. destruct Hfit. unfold apart, WL_FRAME_RELIABLE_HEADER_SIZE in *.
  apply mem_tx_data; try done.
  - intros He. destruct Hplace as [[_ ?]|[Hp Hen]]; [done|]. destruct (Hen He) as [_ E].
    destruct (td_span s Hd) as [_ Hn]; [apply He|]. unfold tx_bytes. rewrite E.
    eapply only_at_read; [exact Ho|]. lia.
  - intros He Hne. destruct Hplace as [[_ ?]|[Hp Hen]]; [done|]. by destruct (Hen He).
  - intros Hc. destruct (td_control s Hd Hc) as [_ Hr].
    eapply only_at_read; [exact Ho|]. destruct Hplace as [[? _]|[? _]]; lia.
Qed.

(** ** Steps of the log *)

Lemma ring_tx_data s r : tx_data s → tx_data (s <| rx_ring := r |>).
Proof. intros []. by split. Qed.

Lemma log_tx_data s e : tx_data s → tx_data (s <| rx_log := rx_log s ++ [e] |>).
Proof.
  intros []. split; try assumption. cbn. intros H. destruct (td_success0 H) as (x & Hx & Hrest).
  exists x. split; [|done]. set_solver.
Qed.

Lemma ack_unit_mono l l' u : l ⊆ l' → ack_unit l u → ack_unit l' u.
Proof. intros Hl (e & He & Hrest). exists e. split; [by apply Hl|done]. Qed.

Lemma deliver_tx_data s l :
  tx_data s → tx_data (s <| rx_delivered := rx_delivered s ++ l |>).
Proof.
  intros []. split; try assumption; cbn.
  - intros H. destruct (td_control0 H) as [Ha ?]. split; [|done].
    eapply ack_unit_mono; [|exact Ha]. set_solver.
  - intros e He. specialize (td_log0 e He). unfold unit_meaning in *.
    destruct (io_what e); [done..|]. eapply ack_unit_mono; [|exact td_log0]. set_solver.
Qed.

(** A unit offered to the sink. *)
Lemma offer_tx_data s x :
  tx_data s → unit_meaning (rx_delivered s) x →
  (∀ q, io_what x = IO_RELIABLE q →
     engaged s ∧ q = tx_waiting_seq s ∧ io_unit x = img (rel_packet s) (tx_bytes s)) →
  tx_data (s <| io_log := io_log s ++ [x] |>).
Proof.
  intros Hd Hx Hr. pose proof Hd as [].
  assert (last_offer (s <| io_log := io_log s ++ [x] |>) =
    match io_what x with IO_RELIABLE q => Some q | _ => last_offer s end) as Hlast.
  { unfold last_offer. change (io_log (s <| _ := _ |>)) with (io_log s ++ [x]).
    rewrite attempts_app, fmap_app. unfold attempts at 2. cbn [omap list_omap].
    destruct (io_what x); cbn; [by rewrite last_snoc|by rewrite app_nil_r..]. }
  split; try assumption; rewrite ?Hlast; cbn -[last_offer].
  - intros He e [Hin| ->%list_elem_of_singleton]%elem_of_app Hw; [by apply td_sent0|].
    by destruct (Hr _ Hw) as (_ & _ & ?).
  - intros He Hi. destruct (io_what x) eqn:Ew; [|by apply td_last0..].
    destruct (Hr _ eq_refl) as (_ & -> & _). done.
  - intros e [Hin| ->%list_elem_of_singleton]%elem_of_app; [by apply td_log0|done].
  - intros e1 e2 q [H1| ->%list_elem_of_singleton]%elem_of_app
      [H2| ->%list_elem_of_singleton]%elem_of_app W1 W2; [by eapply td_same0| | |done].
    + destruct (Hr _ W2) as (He & -> & ->). by apply td_sent0.
    + destruct (Hr _ W1) as (He & -> & ->). symmetry. by apply td_sent0.
  - intros Hs. destruct (td_success0 Hs) as (e & ? & ? & ? & Hl). exists e. split_and!; try done.
    destruct (io_what x) eqn:Ew; [|done..]. destruct (Hr _ eq_refl) as ([_ He] & _).
    destruct He. by left.
Qed.

(** ** Steps of the transmit side *)

(** The reading of an area after a store inside the transmit unit. *)
Ltac room :=
  pose proof (sf_payload c st Hfit); pose proof (sf_payload_room c st Hfit);
  pose proof (sf_unit_room c st Hfit); pose proof (sf_control_room c st Hfit);
  pose proof (sf_payload_unit c st Hfit); pose proof (sf_payload_control c st Hfit);
  pose proof (sf_unit_control c st Hfit); unfold apart, WL_FRAME_RELIABLE_HEADER_SIZE in *.

Lemma ack_tx_data s m e :
  tx_data s → e ∈ rx_delivered s → entry_valid e → entry_reliable e = true →
  let l := image s (ack_packet s (entry_key e).1 (entry_key e).2) [] in
  stored (lmem s) m (st_control_unit st) l → bytes_mem m →
  Z.of_nat (length l) <= st_control_unit_size st → control_pending s = false →
  tx_data (s <| lmem := m |> <| control_len := Z.of_nat (length l) |> <| control_pending := true |>).
Proof.
  intros Hd He Hv Hr l Hst Hb Hl Hc. room.
  pose proof (stored_only _ _ _ _ _ Hst Hl) as Ho.
  assert (tx_data (s <| lmem := m |>)) as Hd'.
  { apply mem_tx_data; try done; unfold tx_bytes, tx_unit_at; [| | |congruence].
    - intros Hen. destruct (payload_inside s Hd Hen) as (Hn & Hp).
      eapply only_at_read; [exact Ho|lia].
    - intros Hen _. destruct (td_room s Hd) as [Hq _]. specialize (Hq Hen).
      eapply only_at_read; [exact Ho|lia].
    - intros Hu. destruct (td_room s Hd) as [_ Hq]. specialize (Hq Hu).
      eapply only_at_read; [exact Ho|lia]. }
  destruct Hd'. split; try assumption. cbn. intros _. split; [|done].
  exists e. split_and!; try done. destruct Hst as [Hread _]. rewrite Nat2Z.id, Hread.
  destruct (td_fixed s Hd) as (Ec & _). unfold l, image, img, ack_packet. by rewrite Ec.
Qed.

Lemma acked_tx_data s e :
  tx_data s → e ∈ rx_log s → fv_type (rx_view e) = WL_PACKET_ACK → engaged s →
  tx_state s ≠ WL_TX_STATE_IDLE → entry_key e = (session_id s, tx_waiting_seq s) →
  tx_data (s <| tx_state := WL_TX_STATE_SUCCESS |>).
Proof.
  intros Hd Hin Ht He Hi Hk. pose proof Hd as [].
  assert (¬ engaged (s <| tx_state := WL_TX_STATE_SUCCESS |>)) as Hne
    by (intros [_ Hx]; apply Hx; by left).
  split; try assumption; try (intros H; by destruct (Hne H)); try (split; [by intros H|apply td_room0]).
  - intros H. destruct (td_claim0 H) as (Hu & [Hp1 Hp2] & Hrest).
    split; [exact Hu|]. split; [|exact Hrest]. split; [intros Hr; split; [by apply Hp1|done]|].
    destruct Hp2 as [[? ?]|[? ?]]; [left|right]; split; done.
  - intros _. exists e. split_and!; [done..|by rewrite Hk|]. rewrite Hk. by apply td_last0.
Qed.

Lemma offer_rel_tx_data s token answer :
  tx_data s → engaged s → tx_encoded_len s ≠ 0 →
  tx_data (s <| io_log := io_log s ++
    [mk_io (IO_RELIABLE (tx_waiting_seq s)) token
       (mread (lmem s) (st_tx_unit st) (Z.to_nat (tx_encoded_len s))) answer] |>).
Proof.
  intros Hd He Hn. pose proof (td_image s Hd He Hn) as Hi. unfold tx_unit_at in Hi. rewrite Hi.
  apply offer_tx_data; [done| |intros q [= <-]; done]. cbn.
  exists (rel_packet s), (tx_bytes s). destruct (td_span s Hd) as [_ Hl]; [apply He|].
  destruct (td_fixed s Hd) as (_ & _ & Ese).
  split_and!; try done; [by apply td_message|].
  unfold tx_bytes. rewrite mread_length. cbn. lia.
Qed.

Lemma offer_control_tx_data s token answer :
  tx_data s → control_pending s = true →
  tx_data (s <| io_log := io_log s ++
    [mk_io IO_CONTROL token
       (mread (lmem s) (st_control_unit st) (Z.to_nat (control_len s))) answer] |>).
Proof. intros Hd Hc. apply offer_tx_data; [done|by apply td_control|done]. Qed.

Lemma offer_unrel_tx_data s token answer :
  tx_data s → unrel_queued s →
  tx_data (s <| io_log := io_log s ++
    [mk_io IO_UNRELIABLE token
       (mread (lmem s) (st_tx_unit st) (Z.to_nat (tx_unreliable_len s))) answer] |>).
Proof. intros Hd Hc. apply offer_tx_data; [done|by apply (td_unrel s Hd)|done]. Qed.

Lemma claim_tx_data s span reliable id :
  tx_data s → ¬ unrel_queued s → is_u16 id → id ≠ 0 → span_length span = max_payload_len c →
  claim_place s reliable (span_data span) →
  tx_data (s <| tx_claim_active := true |> <| tx_claim_reliable := reliable |>
             <| tx_claim_message_id := id |> <| tx_claim_payload := span |>).
Proof. intros [] ? ? ? ? ?. split; try assumption. intros _. done. Qed.

(** A native unit carries the payload right behind the header. *)
Lemma raw_frame_payload m m' a p integ l :
  stored m m' a (raw_frame p integ l) →
  mread m' (a + packet_header_len p) (length l) = l.
Proof.
  unfold raw_frame. cbv zeta. intros [Hr _]. rewrite <- app_assoc in Hr.
  apply mread_app_inv in Hr as [_ Hr]. apply mread_app_inv in Hr as [Hr _].
  pose proof (frame_write_header_length p) as Hh. unfold local_len in Hh. by rewrite Hh in Hr.
Qed.

Lemma encode_tx_data s m :
  tx_data s → engaged s → tx_claim_active s = false → ¬ unrel_queued s →
  let l := image s (rel_packet s) (tx_bytes s) in
  stored (lmem s) m (st_tx_unit st) l → Z.of_nat (length l) <= st_tx_unit_size st →
  tx_data (s <| lmem := m |> <| tx_encoded_len := Z.of_nat (length l) |>).
Proof.
  intros Hd He Hcl Hnu l Hst Hl. pose proof Hd as []. room.
  destruct td_fixed0 as (Ec & Est & Ese).
  pose proof (stored_only _ _ _ _ _ Hst Hl) as Ho.
  assert (Forall is_byte (tx_bytes s)) as Htb by by apply bytes_mem_read.
  assert (bytes_mem m) as Hb.
  { eapply stored_bytes; [exact td_bytes0| |exact Hst]. apply wire_image_bytes; auto. }
  assert (mread m (span_data (tx_payload s)) (Z.to_nat (span_length (tx_payload s))) = tx_bytes s)
    as Hp.
  { destruct (td_span0 (proj1 He)) as [[Hpl|(Env & Hpl)] Hn].
    - unfold tx_bytes. rewrite Hpl. eapply only_at_read; [exact Ho|lia].
    - unfold l, image, wire_image, envelope_bytes in Hst. rewrite Ec, Env in Hst.
      apply raw_frame_payload in Hst. unfold tx_bytes in Hst at 1. rewrite mread_length in Hst.
      rewrite Hpl. exact Hst. }
  split; try assumption; unfold tx_unit_at, tx_bytes; cbn; rewrite ?Hp; try done.
  - intros _ _. rewrite Nat2Z.id. destruct Hst as [Hr _]. rewrite Hr.
    unfold l, image, img. by rewrite Ec.
  - intros Hc. destruct (td_control0 Hc) as [Ha Hn]. split; [|done].
    erewrite (only_at_read (lmem s)); [exact Ha|exact Ho|lia].
  - intros. congruence.
Qed.

Lemma unrel_tx_data s m p l :
  tx_data s →
  (engaged s → tx_encoded_len s = 0 ∧ span_data (tx_payload s) = st_tx_payload st) →
  tx_claim_active s = false → is_unreliable p → Z.of_nat (length l) = pk_payload_len p →
  Forall is_byte l → stored (lmem s) m (st_tx_unit st) (image s p l) →
  Z.of_nat (length (image s p l)) <= st_tx_unit_size st →
  tx_data (s <| lmem := m |> <| tx_unreliable_len := Z.of_nat (length (image s p l)) |>
             <| tx_queued := true |> <| in_flight_reliable := false |>).
Proof.
  intros Hd He Hcl Hp Hlen Hby Hst Hl. pose proof Hd as []. room.
  destruct td_fixed0 as (Ec & Est & Ese).
  pose proof (stored_only _ _ _ _ _ Hst Hl) as Ho.
  assert (unreliable_unit (image s p l)) as Hu.
  { exists p, l. split_and!; try done. unfold image, img. by rewrite Ec. }
  assert (bytes_mem m) as Hb.
  { eapply stored_bytes; [exact td_bytes0| |exact Hst]. apply wire_image_bytes; [apply Hp|done]. }
  assert (engaged s → mread m (span_data (tx_payload s))
    (Z.to_nat (span_length (tx_payload s))) = tx_bytes s) as Hpay.
  { intros Hen. destruct (He Hen) as [_ Hpl]. unfold tx_bytes. rewrite Hpl.
    destruct (td_span0 (proj1 Hen)) as [_ Hn]. eapply only_at_read; [exact Ho|lia]. }
  split; try assumption; unfold tx_unit_at, tx_bytes; cbn; try done.
  - intros Hen Hn. by destruct (He Hen).
  - intros Hen. rewrite (Hpay Hen). by apply td_sent0.
  - intros _. rewrite Nat2Z.id. by destruct Hst as [-> _].
  - intros Hc. destruct (td_control0 Hc) as [Ha Hn]. split; [|done].
    erewrite (only_at_read (lmem s)); [exact Ha|exact Ho|lia].
  - split; [apply td_room0|done].
  - intros. congruence.
Qed.

Lemma begin_tx_data s s' :
  tx_data s → tx_state s' = WL_TX_STATE_IDLE → fixed s' = fixed s → logs s' = logs s →
  tx_encoded_len s' = 0 →
  control_pending s' = control_pending s → control_len s' = control_len s →
  tx_claim_active s' = false → ¬ unrel_queued s' →
  scratched (lmem s) (lmem s') (st_tx_payload st) (max_payload_len c) →
  payload_place c st (span_data (tx_payload s')) →
  0 <= span_length (tx_payload s') <= max_payload_len c → packet_valid (rel_packet s') →
  (∀ e, e ∈ io_log s → io_what e ≠ IO_RELIABLE (tx_waiting_seq s')) → tx_data s'.
Proof.
  intros [] Hs Hf Hl He Ec1 Ec2 Hcl Hu [Ho Hb] Hp Hn Hv Hno. room.
  injection Hf as Ec Est Ese. injection Hl as Eio Erx Ed.
  split; rewrite ?Ec, ?Est, ?Ese, ?Eio, ?Erx, ?Ed, ?Ec1, ?Ec2; try done.
  - by apply Hb.
  - intros _ e Hin Hw. by destruct (Hno e Hin).
  - intros Hc. destruct (td_control0 Hc) as [Ha Hr]. split; [|done].
    erewrite (only_at_read (lmem s)); [exact Ha|exact Ho|lia].
  - rewrite He. split; [lia|done].
  - congruence.
  - congruence.
Qed.

Lemma invalidate_tx_data s :
  tx_data s → tx_claim_active s = false → ¬ unrel_queued s → tx_data (wl_invalidate_tx_image s).
Proof.
  intros Hd Hcl Hu. unfold wl_invalidate_tx_image. room.
  assert (∀ s, tx_data s → ¬ unrel_queued s → tx_claim_active s = false →
    tx_data (s <| tx_encoded_len := 0 |>)) as Hzero.
  { intros s0 [] Hu0 Hc0. split; try assumption; cbn; [done|split; [lia|apply td_room0]|congruence]. }
  destruct (negb (tx_handle s =? 0) && _) eqn:E; [|by apply Hzero].
  apply andb_true_iff in E as [Eh Ed]. apply negb_true_iff, Z.eqb_neq in Eh, Ed.
  destruct (td_fixed s Hd) as (Ec & Est & _).
  destruct (td_span s Hd Eh) as [[Hpl|(Env & Hpl)] Hn]; [by rewrite Est in Ed|].
  set (m := if negb (span_length (tx_payload s) =? 0) then
    memmove (lmem s) (st_tx_payload st) (span_data (tx_payload s)) (span_length (tx_payload s))
    else lmem s).
  assert (only_at (lmem s) m (st_tx_payload st) (max_payload_len c)) as Ho.
  { unfold m. destruct (negb _); [apply memmove_only; lia|done]. }
  assert (bytes_mem m) as Hb.
  { unfold m. destruct (negb _); [apply memmove_bytes|]; apply Hd. }
  assert (mread m (st_tx_payload st) (Z.to_nat (span_length (tx_payload s))) = tx_bytes s) as Hp.
  { unfold m, tx_bytes. destruct (Z.eqb_spec (span_length (tx_payload s)) 0) as [->|]; [done|].
    apply mread_mwrite. by rewrite mread_length. }
  replace (if negb (span_length (tx_payload s) =? 0) then _ else s) with (s <| lmem := m |>)
    by (unfold m; rewrite Est; destruct (negb _); [done|by destruct s]).
  destruct Hd. split; try assumption; unfold tx_bytes, tx_unit_at; cbn; rewrite ?Est, ?Hp; try done.
  - intros _. split; [by left|done].
  - intros Hc. destruct (td_control0 Hc) as [Ha Hr]. split; [|done].
    erewrite (only_at_read (lmem s)); [exact Ha|exact Ho|lia].
  - split; [lia|apply td_room0].
  - congruence.
Qed.

(** ** Steps of the receive side *)

Lemma adjacent_snoc l x : adjacent_differ l → last l ≠ Some x → adjacent_differ (l ++ [x]).
Proof.
  induction l as [|y [|z l] IH]; [done| |].
  - intros _ Hl. split; [|done]. cbn in Hl. congruence.
  - intros [Hyz Hd] Hl. split; [done|]. by apply IH.
Qed.

Lemma reliable_keys_app l k : reliable_keys (l ++ k) = reliable_keys l ++ reliable_keys k.
Proof. unfold reliable_keys. by rewrite filter_app, fmap_app. Qed.

Lemma reliable_keys_one e :
  reliable_keys [e] = if entry_reliable e then [entry_key e] else [].
Proof.
  unfold reliable_keys. rewrite filter_cons, filter_nil.
  destruct (entry_reliable e); [by rewrite decide_True|by rewrite decide_False].
Qed.

Lemma log_rx_data s e :
  rx_data s → entry_valid e → rx_data (s <| rx_log := rx_log s ++ [e] |>).
Proof.
  intros [] He. split; try assumption; cbn; [by apply Forall_app; split; [|constructor]|].
  by apply sublist_inserts_r.
Qed.

Lemma deliver_rx_data s e :
  rx_data s → entry_valid e → entry_reliable e = false →
  rx_data (s <| rx_log := rx_log s ++ [e] |> <| rx_delivered := rx_delivered s ++ [e] |>).
Proof.
  intros [] He Hr. split; cbn -[reliable_keys];
    rewrite ?reliable_keys_app, ?reliable_keys_one, ?Hr, ?app_nil_r; try assumption.
  - by apply Forall_app; split; [|constructor].
  - by apply sublist_app.
Qed.

Lemma deliver_rel_rx_data s e :
  rx_data s → entry_valid e → entry_reliable e = true → ¬ seen s e →
  rx_data (s <| rx_log := rx_log s ++ [e] |> <| rx_delivered := rx_delivered s ++ [e] |>
             <| rx_have_reliable := true |> <| rx_session_id := (entry_key e).1 |>
             <| rx_sequence := (entry_key e).2 |>).
Proof.
  intros [] He Hr Hs. split; cbn -[reliable_keys];
    rewrite ?reliable_keys_app, ?reliable_keys_one, ?Hr.
  - by apply Forall_app; split; [|constructor].
  - by apply sublist_app.
  - apply adjacent_snoc; [done|]. rewrite rd_last0. intros E. apply Hs. unfold seen, rx_keys.
    destruct (rx_have_reliable s); [|done]. by injection E as -> ->.
  - by rewrite last_snoc.
Qed.

(** The frame the link has seen last is one it delivered. *)
Lemma seen_delivered s e :
  rx_data s → seen s e →
  ∃ e', e' ∈ rx_delivered s ∧ entry_valid e' ∧ entry_reliable e' = true ∧
        entry_key e' = entry_key e.
Proof.
  intros [] Hs. unfold seen, rx_keys in Hs. injection Hs as Hh H1 H2.
  rewrite Hh, H1, H2 in rd_last0.
  apply last_Some_elem_of in rd_last0. unfold reliable_keys in rd_last0.
  apply list_elem_of_fmap in rd_last0 as (e' & Ek & Hin).
  apply list_elem_of_filter in Hin as [Hr Hin]. exists e'. split_and!; try done.
  rewrite Forall_forall in rd_valid0. apply rd_valid0. by eapply elem_of_sublist.
Qed.

Lemma quiet_rx_data s s' : quiet_step s s' → rx_data s → rx_data s'.
Proof.
  intros [_ _ Hl _ Hk _ _ _ _ _ _ _] []. injection Hl as _ Erx Ed. injection Hk as K1 K2 K3.
  split; by rewrite ?Erx, ?Ed, ?K1, ?K2, ?K3.
Qed.

(** The acknowledgement of a valid frame is a valid packet. *)
Lemma ack_valid e i :
  entry_valid e → entry_reliable e = true →
  packet_valid (mk_packet WL_PACKET_ACK i 0 0 (entry_key e).1 (entry_key e).2 NULL 0).
Proof.
  intros [(_ & _ & Hs & Hq & Hk) _] Hr. unfold entry_reliable in Hr.
  apply andb_true_iff in Hr as [Ht Hf]. apply Z.eqb_eq in Ht.
  apply negb_true_iff, Z.eqb_neq in Hf. cbn in Hk.
  unfold packet_valid. cbn. split_and!; try done. right. split_and!; try done.
  destruct Hk as [(_ & _ & [E|[_ E]])|(E & _)]; [by rewrite E in Hf|done|].
  by rewrite Ht in E.
Qed.

(** ** The ring *)

(** A stream link has a ring over its whole receive storage, others have none. *)
Record ring_data (s : wl_ctx) : Prop := {
  rg_shape : if envelope c =? WL_ENVELOPE_COBS_STREAM
    then ring_ok (rx_ring s) ∧ memory (rx_ring s) = st_rx_fifo st ∧
         capacity (rx_ring s) = st_rx_fifo_size st
    else ring_ready (rx_ring s) = false;
  rg_consume : 0 <= rx_pending_consume s;
}.

Lemma moves_ring_data s r :
  ring_data s → ring_moves (rx_ring s) r → ring_data (s <| rx_ring := r |>).
Proof.
  intros [Hs Hc] Hm. split; [|done]. cbn. destruct (_ =? _).
  - destruct Hs as (Hok & <- & <-). by apply ring_moves_ok in Hm.
  - destruct (ring_moves_region _ _ Hm) as [Em Ek]. unfold ring_ready in *. by rewrite Em, Ek.
Qed.

(** ** Every step *)

Record data_inv (s : wl_ctx) : Prop := {
  di_tx : tx_data s;
  di_rx : rx_data s;
  di_ring : ring_data s;
}.

Lemma micro_data s s' : micro s s' → data_inv s → data_inv s'.
Proof.
  intros Hm [Ht Hr Hg]. destruct (td_fixed s Ht) as (Ec & Est & Ese).
  destruct Hm as [s' Hq|r Hmv|m a n Hsc Ha|a v Hv Hs|e He|e He Hrel|e He Hrel Hns
    |m e He Hrel Hs Hc l Hst Hl|token answer Hc|e Hin Hty He Hi Hk
    |s' Hh Hi Hi' Hcl Hu Hf Hlg Hring Hkeys Hpc Hen [Hc1 Hc2] Hcl' Hu' Hsc Hp Hn Hv Hno
    |m He Hz Hcl Hu l Hst Hl|token answer He Hn|Hcl Hu|m p l He Hcl Hp Hlen Hby Hst Hl
    |token answer Hu|span rel id Hcl Hu Hid Hz Hlen Hpl]; rewrite ?Ec, ?Est in *;
    split; try by destruct Hr; try by destruct Hg.
  - by eapply quiet_tx_data.
  - by eapply quiet_rx_data.
  - destruct Hg as [Hs Hc]. by split; [rewrite (qs_ring s s' Hq)|apply (qs_consume s s' Hq)].
  - by apply ring_tx_data.
  - by apply moves_ring_data.
  - by eapply scratch_tx_data.
  - by apply store_tx_data.
  - by apply log_tx_data.
  - by apply log_rx_data.
  - exact (deliver_tx_data _ [e] (log_tx_data s e Ht)).
  - by apply deliver_rx_data.
  - destruct (deliver_tx_data _ [e] (log_tx_data s e Ht)). by split.
  - by apply deliver_rel_rx_data.
  - destruct (seen_delivered s e Hr Hs) as (e' & Hin & Hv' & Hr' & Ek).
    subst l. rewrite <- Ek in *. apply ack_tx_data; try done.
    eapply stored_bytes; [apply Ht| |exact Hst]. apply wire_image_bytes; [|done].
    by apply ack_valid.
  - by apply offer_control_tx_data.
  - by eapply acked_tx_data.
  - by apply (begin_tx_data s).
  - injection Hlg as _ Erx Ed. injection Hkeys as K1 K2 K3. destruct Hr.
    split; by rewrite ?Erx, ?Ed, ?K1, ?K2, ?K3.
  - destruct Hg as [Hs Hc]. by split; [rewrite Hring|rewrite Hpc].
  - by apply encode_tx_data.
  - by apply offer_rel_tx_data.
  - by apply invalidate_tx_data.
  - destruct Hr. unfold wl_invalidate_tx_image. by destruct (_ && _); [destruct (negb _)|].
  - destruct Hg. unfold wl_invalidate_tx_image. by destruct (_ && _); [destruct (negb _)|].
  - by apply unrel_tx_data.
  - by apply offer_unrel_tx_data.
  - by apply claim_tx_data.
Qed.

Lemma steps_data s s' : steps s s' → data_inv s → data_inv s'.
Proof. induction 1; eauto using micro_data. Qed.
End Data.
