(* ===== verification/LinkTrace.v ===== *)
(** Every operation of a link as a sequence of elementary steps.

    The lemmas follow the functions of [protocol.c], [unit_frame.c] and
    [transport.c] from the leaves up; [link_step_steps] puts them together. *)
From stdpp Require Import relations.
From S2P Require Import Prelude Cobs Frame RxRing RingShape UnitQueue Link LinkInv LinkMem LinkSteps LinkData.
#[local] Open Scope wl_scope.

Lemma steps_quiet s s' : quiet_step s s' → steps s s'.
Proof. intros H. by apply rtc_once, mi_quiet. Qed.

Lemma steps_refl s : steps s s.
Proof. done. Qed.

Lemma steps_trans s1 s2 s3 : steps s1 s2 → steps s2 s3 → steps s1 s3.
Proof. intros. by etrans. Qed.

Lemma steps_micro s1 s2 s3 : steps s1 s2 → micro s2 s3 → steps s1 s3.
Proof. intros. by eapply rtc_r. Qed.

(** Closes a quiet step between a state and an update of it. *)
Ltac quiet_goal :=
  split; try reflexivity; unfold engaged, terminal, unrel_queued, tx_core, claim_data; cbn;
  intros; repeat match goal with H : _ ∧ _ |- _ => destruct H end;
  repeat match goal with |- _ ∧ _ => split end;
  try assumption; try reflexivity; try congruence; try (apply Z.le_refl || apply Z.le_succ_diag_r);
  try solve [left; reflexivity | left; assumption | right; reflexivity].
Ltac quiet := apply steps_quiet; quiet_goal.

(** The early returns of an operation that leave [s] alone. *)
Ltac early s :=
  repeat match goal with
  | |- context [if ?b then (s, _, _) else _] => destruct b eqn:?; [done|]
  | |- context [if ?b then (s, _) else _] => destruct b eqn:?; [done|]
  end.

Section Trace.
Context {plat : Platform} (c : wl_config) (st : wl_storage).
Context (Hfit : storage_fits c st) (Hrx : rx_apart st).
Context (Hsid : is_u64 (cfg_session_id c)) (Hnz : cfg_session_id c ≠ 0).
Context (Hint : wl_profile_integrity_valid (integrity c) = true).

Lemma push_event_quiet s type id p n h : quiet_step s (wl_push_event s type id p n h).1.
Proof.
  unfold wl_push_event. destruct (_ || _); [quiet_goal|]. destruct (_ && _); [quiet_goal|].
  destruct (is_rx_event type); quiet_goal.
Qed.

Lemma push_tx_event_quiet s type : quiet_step s (wl_push_tx_event s type).
Proof.
  unfold wl_push_tx_event. destruct (_ && _); [quiet_goal|].
  pose proof (push_event_quiet s type 0 NULL 0 (tx_handle s)) as Hq.
  destruct (wl_push_event _ _ _ _ _ _) as [s' ret]. cbn [fst] in Hq.
  destruct (is_ok ret); [done|]. destruct Hq. split; try assumption.
Qed.

Lemma complete_unreliable_steps s :
  ¬ unrel_queued s → steps s (wl_complete_unreliable_tx s).1.
Proof.
  intros Hu. unfold wl_complete_unreliable_tx. destruct (_ =? UINT32_MAX); [done|]. cbn [fst].
  quiet. all: by destruct Hu.
Qed.

Lemma submit_control_steps s : steps s (wl_submit_control s).1.
Proof.
  unfold wl_submit_control. destruct (_ || _) eqn:E; [done|].
  rewrite !orb_false_iff, negb_false_iff in E. destruct E as [[[[Hc _] _] _] _].
  destruct (sink s =? NULL); [done|]. destruct (in_callback s); [done|].
  set (s1 := s <| tx_token := next_token (tx_token s) |> <| in_callback := true |>).
  assert (steps s s1) as H1 by quiet.
  unfold sink_call. cbv zeta. generalize (sink_answer (length (io_log s1))). intros a.
  eapply steps_trans; [eapply steps_micro; [exact H1|]|].
  { exact (mi_offer_control s1 (tx_token s1) a Hc). }
  destruct a; quiet.
Qed.

Lemma last_offer_rel s q token u a :
  last_offer (s <| io_log := io_log s ++ [mk_io (IO_RELIABLE q) token u a] |>) = Some q.
Proof.
  unfold last_offer. change (io_log (s <| _ := _ |>)) with
    (io_log s ++ [mk_io (IO_RELIABLE q) token u a]).
  rewrite attempts_app, fmap_app. apply last_snoc.
Qed.

Lemma submit_reliable_steps s :
  storage s = st → engaged s → tx_encoded_len s ≠ 0 → steps s (wl_submit_data s true).1.
Proof.
  intros Hst He Hn. unfold wl_submit_data. destruct (sink s =? NULL); [done|].
  set (s1 := s <| tx_token := next_token (tx_token s) |> <| in_callback := true |>).
  assert (steps s s1) as H1 by quiet.
  unfold sink_call. cbv zeta. generalize (sink_answer (length (io_log s1))). intros a.
  eapply steps_trans; [eapply steps_micro; [exact H1|]|].
  { exact (mi_offer_rel s1 (tx_token s1) a He Hn). }
  match goal with |- steps ?x _ => assert (last_offer x = Some (tx_waiting_seq x)) as Hlast
    by apply last_offer_rel end.
  destruct a; quiet; try (right; exact Hlast); try apply He.
Qed.

Lemma submit_unreliable_steps s : unrel_queued s → steps s (wl_submit_data s false).1.
Proof.
  intros Hu. unfold wl_submit_data. destruct (sink s =? NULL); [done|].
  set (s1 := s <| tx_token := next_token (tx_token s) |> <| in_callback := true |>).
  assert (steps s s1) as H1 by quiet.
  unfold sink_call. cbv zeta. generalize (sink_answer (length (io_log s1))). intros a.
  eapply steps_trans; [eapply steps_micro; [exact H1|]|].
  { exact (mi_offer_unrel s1 (tx_token s1) a Hu). }
  destruct a; cbn [fst]; try by (quiet; apply Hu).
  eapply steps_trans; [|apply complete_unreliable_steps; by intros [? _]].
  quiet; apply Hu.
Qed.

(** What the encoder of the link returns. *)
Lemma link_encode_cases m env integ packet out cap m' ret n :
  0 <= pk_payload_len packet <= WL_PACKET_MAX_PAYLOAD → out ≠ NULL →
  wl_link_encode m env integ packet out cap = (m', ret, n) →
  let l := wire_image packet env integ
             (mread m (pk_payload packet) (Z.to_nat (pk_payload_len packet))) in
  (ret = WL_OK ∧ stored m m' out l ∧ n = Z.of_nat (length l) ∧ n <= cap ∧ n ≠ 0) ∨
  (m' = m ∧ ret ≠ WL_OK).
Proof.
  intros Hl Ho E l. pose proof (link_encode_ok m env integ packet out cap Hl Ho) as H.
  fold l in H. unfold encode_result in H. rewrite E in H.
  destruct (Z.ltb_spec cap (Z.of_nat (length l))).
  - injection H as -> -> ->. by right.
  - destruct H as (m1 & [= -> -> ->] & Hst). left. split_and!; try done; try lia.
    unfold l, wire_image, envelope_bytes.
    pose proof (raw_frame_length m packet integ Hl) as Hr.
    pose proof (raw_len_bound packet integ Hl) as Hb. rewrite <- Hr in Hb.
    destruct (_ =? _); [|destruct (_ =? _)]; rewrite ?length_app; cbn [length]; lia.
Qed.

Lemma send_tx_payload_steps s :
  tx_data c st s → engaged s → tx_claim_active s = false → ¬ unrel_queued s →
  steps s (wl_send_tx_payload s).1.
Proof.
  intros Hd He Hcl Hu. destruct (td_fixed c st s Hd) as (Ec & Est & Ese).
  unfold wl_send_tx_payload. destruct (_ || _); [done|]. destruct (in_callback s); [done|].
  destruct (Z.eqb_spec (tx_encoded_len s) 0) as [Hz|Hn]; [|by apply submit_reliable_steps].
  fold (rel_packet s).
  destruct (wl_link_encode _ _ _ _ _ _) as [[m ret] n] eqn:E.
  destruct (td_span c st s Hd (proj1 He)) as [_ Hlen]. pose proof (sf_payload c st Hfit).
  apply link_encode_cases in E; [|cbn; lia|rewrite Est; apply Hfit].
  destruct E as [(-> & Hst & -> & Hcap & Hne)|(-> & Hret)].
  - rewrite Est in Hst, Hcap. cbn [is_ok bool_decide negb].
    pose proof (mi_encode s m He Hz Hcl Hu) as Hm. rewrite Est in Hm. specialize (Hm Hst Hcap).
    eapply rtc_l; [exact Hm|]. apply submit_reliable_steps; [exact Est|exact He|exact Hne].
  - replace (is_ok ret) with false by (symmetry; by apply bool_decide_eq_false).
    cbn. replace (fs_lmem _ s) with s by by destruct s. done.
Qed.

(** After the message was moved out of the unit. *)
Lemma invalidate_post s :
  tx_data c st s → let s' := wl_invalidate_tx_image s in
  (engaged s' → tx_encoded_len s' = 0 ∧ span_data (tx_payload s') = st_tx_payload st) ∧
  tx_queued s' = tx_queued s ∧ tx_claim_active s' = tx_claim_active s ∧ fixed s' = fixed s ∧
  sink s' = sink s.
Proof.
  intros Hd. destruct (td_fixed c st s Hd) as (_ & Est & _). unfold wl_invalidate_tx_image.
  destruct (negb (tx_handle s =? 0) && _) eqn:E.
  - destruct (negb (span_length _ =? 0)); cbn; by rewrite Est.
  - cbn. split_and!; try done. intros [Hh _]. cbn in Hh. split; [done|].
    apply Z.eqb_neq in Hh. rewrite Hh in E. cbn in E.
    apply negb_false_iff, Z.eqb_eq in E. by rewrite E, Est.
Qed.

(** A call of the sink settles the flags, whatever they were. *)
Lemma submit_unreliable_flags s :
  sink s ≠ NULL →
  wl_submit_data (s <| tx_queued := true |> <| in_flight_reliable := false |>) false
  = wl_submit_data s false.
Proof.
  intros Hs. apply Z.eqb_neq in Hs. unfold wl_submit_data, sink_call. cbn. rewrite Hs.
  by destruct (sink_answer _).
Qed.

Lemma send_unreliable_frame_steps s pkt :
  tx_data c st s → tx_claim_active s = false → tx_queued s = false → is_unreliable pkt →
  steps s (send_unreliable_frame s pkt).1.
Proof.
  intros Hd Hcl Hq Hp. unfold send_unreliable_frame.
  destruct (invalidate_post s Hd) as (Hpost & Hq1 & Hcl1 & _). rewrite Hq in Hq1.
  rewrite Hcl in Hcl1.
  assert (¬ unrel_queued s) as Hu by (intros [? _]; congruence).
  pose proof (mi_invalidate s Hcl Hu) as Hm. eapply rtc_l; [exact Hm|].
  assert (tx_data c st (wl_invalidate_tx_image s)) as Hd1 by by apply invalidate_tx_data.
  clear Hm. generalize dependent (wl_invalidate_tx_image s). clear s Hd Hcl Hq Hu.
  intros s Hpost Hq Hcl Hd. destruct (td_fixed c st s Hd) as (Ec & Est & Ese).
  destruct (wl_link_encode _ _ _ _ _ _) as [[m ret] n] eqn:E.
  apply link_encode_cases in E; [|apply Hp|rewrite Est; apply Hfit].
  destruct E as [(-> & Hst & -> & Hcap & Hne)|(-> & Hret)].
  - cbn [is_ok bool_decide negb].
    set (l := mread (lmem s) (pk_payload pkt) (Z.to_nat (pk_payload_len pkt))) in *.
    assert (Z.of_nat (length l) = pk_payload_len pkt) as Hl.
    { unfold l. rewrite mread_length. destruct Hp as [(Hb & _) _]. lia. }
    assert (Forall is_byte l) as Hby by (apply bytes_mem_read, Hd). rewrite <- Est in Hpost.
    pose proof (mi_unrel s m pkt l Hpost Hcl Hp Hl Hby Hst Hcap) as Hm.
    eapply rtc_l; [exact Hm|].
    clear Hm. fold (image s pkt l).
    set (s1 := s <| lmem := m |> <| tx_unreliable_len := Z.of_nat (length (image s pkt l)) |>).
    assert (tx_queued s1 = false) as Hq1 by exact Hq. clearbody s1. clear -Hq1.
    destruct (decide (sink s1 = NULL)) as [Hz|Hz].
    + unfold wl_submit_data. rewrite Hz. cbn. quiet.
    + rewrite <- submit_unreliable_flags by done. by apply submit_unreliable_steps.
  - replace (is_ok ret) with false by (symmetry; by apply bool_decide_eq_false). cbn. quiet.
Qed.

(** ** Reliable messages *)

(** What the callers of [send_reliable_frame] have checked. *)
Record may_begin (s : wl_ctx) (pkt : wl_wire_packet) (direct : bool) : Prop := {
  mb_handle : tx_handle s = 0;
  mb_state : tx_state s = WL_TX_STATE_IDLE;
  mb_claim : tx_claim_active s = false;
  mb_queued : tx_queued s = false;
  mb_id : is_u16 (pk_message_id pkt) ∧ pk_message_id pkt ≠ 0;
  mb_sequence : is_u32 (pk_sequence pkt) ∧ pk_sequence pkt = tx_sequence s;
  mb_fresh : ∀ e, e ∈ io_log s → io_what e ≠ IO_RELIABLE (pk_sequence pkt);
  mb_length : 0 <= pk_payload_len pkt <= max_payload_len c;
  mb_place : direct = true → payload_place c st (pk_payload pkt);
  mb_session : is_u64 (session_id s) ∧ session_id s ≠ 0;
}.

(** The state in which a new message is offered for the first time. *)
Definition begun (s : wl_ctx) (pkt : wl_wire_packet) (direct : bool) (now : Z) : wl_ctx :=
  let s := wl_prepare_reliable_payload (s <| now_ms := now |>) pkt direct in
  let generation := u16 (tx_generation s + 1) in
  let generation := if generation =? 0 then 1 else generation in
  s <| tx_generation := generation |>
    <| tx_handle := Z.lor (u32 (Z.shiftl generation 16)) 1 |>
    <| tx_waiting_seq := pk_sequence pkt |> <| tx_wait_state := WL_TX_WAIT_NONE |>
    <| tx_retries_left := tx_retries_max s |> <| tx_retries_used := 0 |>.

Lemma begun_micro s pkt direct now :
  tx_data c st s → may_begin s pkt direct →
  micro s (begun (s <| tx_sequence := tx_sequence s + 1 |>) pkt direct now).
Proof.
  intros Hd []. destruct (td_fixed c st s Hd) as (Ec & Est & Ese).
  pose proof (sf_payload c st Hfit).
  set (s' := begun (s <| tx_sequence := tx_sequence s + 1 |>) pkt direct now).
  assert (lmem s' = if negb direct && negb (pk_payload_len pkt =? 0)
    then memmove (lmem s) (st_tx_payload st) (pk_payload pkt) (pk_payload_len pkt) else lmem s)
    as Hm.
  { unfold s', begun, wl_prepare_reliable_payload. cbn. destruct (_ && _); cbn; by rewrite ?Est. }
  assert (tx_payload s' = mk_span (if direct then pk_payload pkt else st_tx_payload st)
    (pk_payload_len pkt)) as Hp.
  { unfold s', begun, wl_prepare_reliable_payload. cbn. destruct (_ && _); cbn; by rewrite ?Est. }
  assert (rel_packet s' = mk_packet WL_PACKET_DATA (integrity c) WL_PACKET_FLAG_RELIABLE
    (pk_message_id pkt) (session_id s) (pk_sequence pkt) (span_data (tx_payload s'))
    (span_length (tx_payload s'))) as Hk.
  { unfold s', begun, wl_prepare_reliable_payload, rel_packet. cbn. destruct (_ && _); cbn; by rewrite ?Ec. }
  rewrite Hp in Hk. cbn in Hk.
  apply mi_begin; try done; rewrite ?Ec, ?Est, ?Hm, ?Hp, ?Hk; try done;
    try (unfold s', begun, wl_prepare_reliable_payload; by destruct (_ && _)).
  - by intros [? _]; congruence.
  - unfold unrel_queued, s', begun, wl_prepare_reliable_payload.
    intros [Hq _]. destruct (_ && _); cbn in Hq; congruence.
  - destruct (_ && _); [|done]. split; [apply memmove_only; lia|apply memmove_bytes].
  - cbn. destruct direct; [by apply mb_place0|by left].
  - destruct mb_id0, mb_session0. unfold packet_valid, WL_PACKET_MAX_PAYLOAD in *. cbn.
    destruct mb_sequence0 as [? _]. do 4 (split; [done || lia|]). left. split_and!; try done. by right.
  - destruct mb_sequence0 as [_ <-]. unfold s', begun, wl_prepare_reliable_payload.
    by destruct (_ && _).
Qed.

Lemma begun_engaged s pkt direct now :
  tx_state s = WL_TX_STATE_IDLE → tx_claim_active s = false → tx_queued s = false →
  let s' := begun s pkt direct now in
  engaged s' ∧ tx_claim_active s' = false ∧ ¬ unrel_queued s'.
Proof.
  intros Hs Hc Hq. unfold begun, wl_prepare_reliable_payload, engaged, terminal, unrel_queued.
  destruct (negb direct && _); cbn; rewrite Hs, Hc, Hq;
    (split_and!; [apply generated_handle| |done|by intros [? _]]); by intros [?|[?|?]].
Qed.

Lemma begun_steps s pkt direct now :
  data_inv c st s → may_begin s pkt direct →
  let s0 := s <| tx_sequence := tx_sequence s + 1 |> in
  steps (begun s0 pkt direct now) (send_reliable_frame s0 pkt direct now).1.1.
Proof.
  intros Hd Hb s0. pose proof (begun_micro s pkt direct now (di_tx _ _ s Hd) Hb) as Hm.
  destruct (begun_engaged s0 pkt direct now) as (He & Hcl & Hu); [apply Hb..|].
  assert (data_inv c st (begun s0 pkt direct now)) as Hd' by (by eapply micro_data).
  unfold send_reliable_frame. fold (begun s0 pkt direct now).
  pose proof (send_tx_payload_steps _ (di_tx _ _ _ Hd') He Hcl Hu) as Hs.
  destruct (wl_send_tx_payload (begun s0 pkt direct now)) as [s1 ret]. cbn [fst] in Hs.
  eapply steps_trans; [exact Hs|]. destruct (negb (is_ok ret)); cbn [fst]; quiet.
Qed.

Lemma send_unreliable_internal_steps s pkt direct now :
  tx_data c st s → tx_claim_active s = false →
  (pk_payload_len pkt <= max_payload_len c → pk_message_id pkt ≠ 0 → is_unreliable pkt) →
  steps s (wl_send_frame_internal s pkt false direct now).1.1.
Proof.
  intros Hd Hcl Hp. unfold wl_send_frame_internal. early s. cbn [negb].
  destruct (td_fixed c st s Hd) as (Ec & _).
  assert (wl_data_busy s false = false) as Hb by done.
  apply data_busy_false in Hb as (_ & _ & _ & _ & Hq & _).
  pose proof (send_unreliable_frame_steps s pkt Hd Hcl Hq) as Hs.
  destruct (send_unreliable_frame s pkt) as [s' e]. apply Hs, Hp; rewrite <- ?Ec; lia.
Qed.

Lemma send_unreliable_steps s id p n :
  tx_data c st s → is_u16 id → 0 <= n → steps s (wl_send_unreliable s id p n).1.
Proof.
  intros Hd Hi Hn. unfold wl_send_unreliable. early s.
  pose proof (send_unreliable_internal_steps s (mk_packet WL_PACKET_DATA 0 0 id 0 0 p n) false 0
    Hd ltac:(done)) as Hs.
  destruct (wl_send_frame_internal _ _ _ _ _) as [[s' e] h]. apply Hs. cbn. intros Hl Hz.
  pose proof (sf_payload c st Hfit). unfold is_unreliable, packet_valid. cbn.
  split_and!; try done; lia.
Qed.

(** Every sequence number offered so far was issued before. *)
Lemma fresh_sequence s e :
  link_inv c st s → e ∈ io_log s → io_what e ≠ IO_RELIABLE (tx_sequence s).
Proof.
  intros [_ []] Hin Hw. rewrite Forall_forall in lg_range.
  assert ((tx_sequence s, accepted (io_answer e)) ∈ attempts (io_log s)) as Ha.
  { apply list_elem_of_omap. exists e. by rewrite Hw. }
  apply lg_range in Ha. cbn in Ha. lia.
Qed.

(** A reliable submission is refused, or it begins a transaction. *)
Lemma internal_begin s pkt direct now :
  data_inv c st s → link_inv c st s → tx_claim_active s = false → tx_sequence s ≠ UINT32_MAX →
  pk_sequence pkt = tx_sequence s → is_u16 (pk_message_id pkt) → 0 <= pk_payload_len pkt →
  (direct = true → payload_place c st (pk_payload pkt)) →
  let s1 := s <| tx_sequence := tx_sequence s + 1 |> in
  let r := wl_send_frame_internal s1 pkt true direct now in
  r.1.1 = s1 ∧ r.1.2 ≠ WL_OK ∨
  may_begin s pkt direct ∧ r = send_reliable_frame s1 pkt direct now.
Proof.
  intros Hd Hinv Hcl Hmax Hq Hi Hn Hpl s1. unfold wl_send_frame_internal.
  destruct (_ && _); [by left|]. destruct (negb _); [by left|].
  destruct (session_id s1 =? 0); [by left|].
  destruct (_ >? _) eqn:El; [by left|]. destruct (wl_data_busy _ _) eqn:Hb; [by left|].
  destruct (in_callback s1); [by left|]. cbn [negb andb].
  destruct (pk_message_id pkt =? 0) eqn:Ei; [by left|]. apply Z.eqb_neq in Ei.
  rewrite Z.gtb_ltb in El. apply Z.ltb_ge in El. right. split; [|done].
  change (wl_data_busy s true = false) in Hb.
  apply data_busy_false in Hb as (_ & _ & _ & _ & Hqu & Hh). specialize (Hh eq_refl).
  destruct (td_fixed c st s (di_tx _ _ s Hd)) as (Ec & Est & Ese).
  pose proof (ti_sequence c st s (proj1 Hinv)) as Hsq. unfold UINT32_MAX in *. split; try done.
  - by apply (ti_handle c st s (proj1 Hinv)).
  - unfold is_u32. lia.
  - intros e He. rewrite Hq. by eapply fresh_sequence.
  - change (max_payload_len (config s1)) with (max_payload_len (config s)) in El.
    rewrite Ec in El. by split.
  - by rewrite Ese.
Qed.

Lemma send_reliable_internal_steps s pkt direct now :
  data_inv c st s → link_inv c st s → tx_claim_active s = false → tx_sequence s ≠ UINT32_MAX →
  pk_sequence pkt = tx_sequence s → is_u16 (pk_message_id pkt) → 0 <= pk_payload_len pkt →
  (direct = true → payload_place c st (pk_payload pkt)) →
  steps s (wl_send_frame_internal (s <| tx_sequence := tx_sequence s + 1 |>) pkt true direct now).1.1.
Proof.
  intros Hd Hinv Hcl Hmax Hq Hi Hn Hpl.
  destruct (internal_begin s pkt direct now) as [[-> _]|[Hb ->]]; [done..|quiet|].
  eapply rtc_l; [by apply (begun_micro s pkt direct now); [apply Hd|]|]. by apply begun_steps.
Qed.

Lemma send_reliable_steps s id p n now out :
  data_inv c st s → link_inv c st s → is_u16 id → 0 <= n →
  steps s (wl_send_reliable s id p n now out).1.1.
Proof.
  intros Hd Hinv Hi Hn. unfold wl_send_reliable. early s.
  destruct (tx_claim_active s) eqn:Hcl.
  - cbn. rewrite Hcl. quiet.
  - cbn [tx_claim_active]. change (tx_claim_active (s <| _ := _ |>)) with (tx_claim_active s).
    rewrite Hcl. apply send_reliable_internal_steps; try done. by apply Z.eqb_neq.
Qed.

(** ** Payload claims *)

Lemma not_orb_delivery d :
  negb (d =? WL_DELIVERY_UNRELIABLE) && negb (d =? WL_DELIVERY_RELIABLE) = false →
  d ≠ WL_DELIVERY_RELIABLE → d = WL_DELIVERY_UNRELIABLE.
Proof. lia. Qed.

Lemma payload_claim_steps s id delivery :
  data_inv c st s → is_u16 id → steps s (wl_tx_payload_claim s id delivery).1.1.
Proof.
  intros Hd Hi. unfold wl_tx_payload_claim.
  destruct (_ || _) eqn:E0; [done|]. apply orb_false_iff in E0 as [Ez E0]. apply Z.eqb_neq in Ez.
  pose proof (not_orb_delivery _ E0) as Hdel. clear E0.
  destruct (negb (initialized s)); [done|].
  destruct (_ || _) eqn:E1; [done|]. apply orb_false_iff in E1 as [Hcl Hb].
  destruct (_ && _); [done|].
  apply data_busy_false in Hb as (_ & _ & _ & _ & Hq & Hh).
  assert (¬ unrel_queued s) as Hu by (intros [? _]; congruence).
  set (s1 := if delivery =? WL_DELIVERY_UNRELIABLE then _ else s).
  assert (steps s s1 ∧ tx_queued s1 = false ∧ tx_claim_active s1 = false ∧
    (delivery = WL_DELIVERY_UNRELIABLE → engaged s1 →
       tx_encoded_len s1 = 0 ∧ span_data (tx_payload s1) = st_tx_payload st) ∧
    tx_handle s1 = tx_handle s) as (Hs1 & Hq1 & Hcl1 & Hpost & Hh1).
  { unfold s1. destruct (Z.eqb_spec delivery WL_DELIVERY_UNRELIABLE) as [->|]; [|done].
    destruct (invalidate_post s (di_tx _ _ s Hd)) as (Hp & E1 & E2 & _).
    split; [by apply rtc_once, mi_invalidate|]. rewrite E1, E2. split_and!; try done.
    unfold wl_invalidate_tx_image. by destruct (_ && _); [destruct (negb _)|]. }
  assert (data_inv c st s1) as Hd1 by by eapply steps_data.
  destruct (td_fixed c st s1 (di_tx _ _ s1 Hd1)) as (Ec & Est & _).
  clearbody s1. eapply steps_trans; [exact Hs1|]. cbv zeta.
  set (token := if _ =? 0 then _ else _). set (d := if envelope _ =? _ then _ else _).
  assert (claim_place s1 (delivery =? WL_DELIVERY_RELIABLE) d) as Hpl.
  { unfold claim_place, d, payload_place. rewrite Ec, Est.
    change WL_FRAME_RELIABLE_HEADER_SIZE with 16.
    destruct (Z.eqb_spec delivery WL_DELIVERY_RELIABLE) as [->|Hr].
    - specialize (Hh eq_refl). rewrite Hh in Hh1.
      assert (¬ engaged s1) as Hne by (intros [? _]; congruence).
      change (wl_frame_packet_header_size WL_PACKET_DATA WL_PACKET_FLAG_RELIABLE) with 16.
      change (WL_DELIVERY_RELIABLE =? WL_DELIVERY_UNRELIABLE) with false. cbn [andb].
      destruct (Z.eqb_spec (envelope c) WL_ENVELOPE_NATIVE_PACKET); split; try by auto.
      right. split; [lia|done].
    - specialize (Hdel Hr). specialize (Hpost Hdel). split; [done|].
      change (wl_frame_packet_header_size WL_PACKET_DATA _) with 4.
      destruct (Z.eqb_spec (envelope c) WL_ENVELOPE_NATIVE_PACKET); [right; split; [lia|done]|].
      rewrite Hdel. change (WL_DELIVERY_UNRELIABLE =? WL_DELIVERY_UNRELIABLE) with true. cbn [andb].
      destruct (Z.eqb_spec (tx_handle s1) 0) as [Hz|]; cbn [negb]; [|right; split; [lia|done]].
      left. split; [done|]. intros [? _]. congruence. }
  set (s2 := s1 <| tx_claim_token := token |>).
  assert (steps s1 s2) as H2 by quiet.
  eapply steps_micro; [exact H2|].
  apply (mi_claim s2 (mk_span d (max_payload_len (config s1)))); try done.
  intros [? _]. cbn in *. congruence.
Qed.

Lemma payload_commit_steps s claim n now out :
  data_inv c st s → link_inv c st s → 0 <= n →
  steps s (wl_tx_payload_commit s claim n now out).1.1.
Proof.
  intros Hd Hinv Hn. unfold wl_tx_payload_commit. destruct (negb _); [done|].
  destruct (negb (tx_claim_matches s claim)) eqn:Em; [done|]. apply negb_false_iff in Em.
  unfold tx_claim_matches in Em. rewrite !andb_true_iff in Em. destruct Em as [[Hcl _] Edata].
  apply Z.eqb_eq in Edata.
  destruct (td_claim c st s (di_tx _ _ s Hd) Hcl) as (_ & [Hplace _] & _ & Hid & Hz).
  destruct (td_fixed c st s (di_tx _ _ s Hd)) as (Ec & Est & Ese). rewrite Ec, Est in Hplace.
  set (s1 := s <| tx_claim_active := false |> <| tx_claim_payload := mk_span NULL 0 |>).
  assert (steps s s1) as H1 by quiet.
  assert (data_inv c st s1) as Hd1 by by eapply steps_data.
  assert (link_inv c st s1) as Hinv1 by by apply release_claim_inv.
  destruct (_ || _); [done|]. destruct (tx_claim_reliable s) eqn:Erel; cbn [andb].
  - destruct (tx_sequence s1 =? UINT32_MAX) eqn:Emax; [done|]. apply Z.eqb_neq in Emax.
    eapply steps_trans; [exact H1|]. apply send_reliable_internal_steps; try done.
    intros _. cbn. rewrite Edata. by apply Hplace.
  - eapply steps_trans; [exact H1|]. apply send_unreliable_internal_steps; [apply Hd1|done|].
    intros Hl _. cbn in Hl. pose proof (sf_payload c st Hfit).
    unfold is_unreliable, packet_valid. cbn. rewrite Ese.
    split_and!; try done; lia.
Qed.

Lemma payload_abort_steps s claim : steps s (wl_tx_payload_abort s claim).1.
Proof. unfold wl_tx_payload_abort. early s. cbn [fst]. quiet. Qed.

(** ** Reports of the transport *)

Lemma tx_fail_steps s code type : steps s (tx_fail s code type).
Proof.
  unfold tx_fail. eapply steps_trans; [|apply steps_quiet, push_tx_event_quiet].
  quiet. all: match goal with H : ¬ _ |- _ => destruct H; by right; left end.
Qed.

Lemma consumed_reliable_steps s ok :
  data_inv c st s → tx_handle s ≠ 0 → tx_queued s = false → tx_claim_active s = false →
  steps s (consumed_reliable s ok).
Proof.
  intros Hd Hh Hq Hcl. unfold consumed_reliable.
  destruct (tx_state s ==? WL_TX_STATE_SENDING) eqn:Es; cbn [negb]; [|apply submit_control_steps].
  apply bool_decide_eq_true in Es.
  assert (engaged s) as He.
  { split; [done|]. unfold terminal. rewrite Es. by intros [?|[?|?]]. }
  destruct ok.
  { eapply steps_trans; [|apply submit_control_steps]. quiet; [apply He|]. left. congruence. }
  match goal with |- context [let (_, _) := ?x in _] =>
    assert (steps s x.1) as Hs; [|destruct x as [s1 ret]] end.
  { destruct (negb _); [|done]. unfold consumed_retry. destruct (control_pending s); [cbn [fst]; quiet|].
    apply send_tx_payload_steps; try done; [apply Hd|]. intros [? _]. congruence. }
  cbn [fst] in Hs. eapply steps_trans; [exact Hs|]. destruct (is_ok ret).
  - eapply steps_trans; [|apply submit_control_steps]. unfold count_retry. quiet.
  - eapply steps_trans; [|apply submit_control_steps]. apply tx_fail_steps.
Qed.

Lemma tx_consumed_steps s token result :
  data_inv c st s → link_inv c st s → steps s (wl_tx_consumed s token result).1.
Proof.
  intros Hd [Hinv _]. unfold wl_tx_consumed. early s. 
  set (s1 := consumed_report s token (result =? 0)).
  assert (quiet_step s s1) as H1 by (unfold s1, consumed_report; destruct ((result =? 0) && _); quiet_goal).
  assert (control_inflight s1 = control_inflight s ∧ tx_inflight s1 = tx_inflight s ∧
    in_flight_reliable s1 = in_flight_reliable s ∧ tx_cancel_requested s1 = tx_cancel_requested s ∧
    tx_queued s1 = tx_queued s ∧ tx_handle s1 = tx_handle s ∧ tx_state s1 = tx_state s ∧
    tx_claim_active s1 = tx_claim_active s)
    as (E1 & E2 & E3 & E4 & E5 & E6 & E7 & E8)
    by (unfold s1, consumed_report; destruct ((result =? 0) && _); done).
  clearbody s1. eapply steps_trans; [by apply steps_quiet|]. apply steps_quiet in H1 as H1'.
  rewrite E1, E2, E3. destruct (control_inflight s); [cbn [fst]; quiet|].
  destruct (tx_inflight s) eqn:Ef; cbn [negb]; [|done].
  destruct (ti_exclusive c st s Hinv Ef) as (_ & Hq & Hcl).
  set (s2 := s1 <| tx_inflight := false |> <| in_flight_reliable := false |>).
  assert (steps s1 s2) as H2 by quiet.
  eapply steps_trans; [exact H2|].
  assert (data_inv c st s2) as Hd2 by (apply (steps_data c st Hfit Hrx s); [by etrans|done]).
  assert (¬ unrel_queued s2) as Hu by (intros [? _]; cbn in *; congruence).
  destruct (in_flight_reliable s) eqn:Er; cbn [negb].
  - destruct (ti_kind c st s Hinv Er) as (Hh & _).
    change (tx_cancel_requested s2) with (tx_cancel_requested s1). rewrite E4.
    destruct (tx_cancel_requested s) eqn:Ecn.
    + destruct (ti_cancel c st s Hinv Ecn) as (Hst & _). cbn [fst]. unfold consumed_cancelled.
      eapply steps_trans; [|apply submit_control_steps].
      assert (terminal s2) as Ht by (right; right; cbn; congruence).
      quiet; match goal with H : ¬ _ |- _ => by destruct (H Ht) end.
    + apply consumed_reliable_steps; [done|cbn; congruence..].
  - unfold consumed_unreliable. cbn [fst].
    match goal with |- context [let (_, _) := ?x in _] =>
      assert (steps s2 x.1 ∧ ¬ unrel_queued x.1) as [Hs Hu3]; [|destruct x as [s3 ret]] end.
    { destruct (result =? 0); [|done]. split; [by apply complete_unreliable_steps|].
      unfold wl_complete_unreliable_tx. by destruct (_ =? UINT32_MAX). }
    cbn [fst] in *. eapply steps_trans; [exact Hs|].
    eapply steps_trans; [|apply submit_control_steps]. quiet; by destruct Hu3.
Qed.

Lemma tx_drained_steps s token result : steps s (wl_tx_drained s token result).1.
Proof.
  unfold wl_tx_drained. early s. cbn [fst].
  set (s1 := s <| tx_drain_pending := false |> <| tx_writable := true |>
    <| resource_generation := u32 (resource_generation s + 1) |>).
  assert (steps s s1) as H1 by quiet. eapply steps_trans; [exact H1|].
  match goal with |- steps _ (fs_tx_drain_reliable _ ?x) => idtac | |- steps _ (with_field _ _ ?x) =>
    assert (steps s1 x) as H2; [|eapply steps_trans; [exact H2|quiet]] end.
  destruct (_ && _) eqn:E; [|done]. rewrite !andb_true_iff, !bool_decide_eq_true in E.
  destruct E as [[_ Es] _]. destruct (result =? 0); [quiet|].
  eapply steps_trans; [|apply steps_quiet, push_tx_event_quiet].
  quiet; match goal with H : ¬ _ |- _ => destruct H; by right; left end.
Qed.

Lemma tx_cancel_steps s h : steps s (wl_tx_cancel s h).1.
Proof.
  unfold wl_tx_cancel. early s. cbn [fst].
  destruct (tx_inflight s && _); [|destruct (tx_queued s && _)]; quiet;
    match goal with H : ¬ _ |- _ => destruct H; by right; right end.
Qed.

Lemma tx_take_steps s h : steps s (wl_tx_take s h).1.
Proof. unfold wl_tx_take. early s. cbn [fst]. quiet. Qed.

(** ** Acknowledgements *)

Lemma send_ack_steps s e :
  tx_data c st s → entry_valid e → entry_reliable e = true → seen s e →
  steps s (wl_send_ack s (rx_view e)).1.
Proof.
  intros Hd He Hr Hs. destruct (td_fixed c st s Hd) as (Ec & Est & _).
  unfold wl_send_ack. early s.
  destruct (wl_link_encode _ _ _ _ _ _) as [[m ret] n] eqn:E.
  apply link_encode_cases in E; [|done|rewrite Est; apply Hfit].
  destruct E as [(-> & Hst & -> & Hcap & _)|(-> & Hret)].
  - cbn [is_ok bool_decide negb]. eapply rtc_l; [|apply submit_control_steps].
    by apply (mi_ack s m e He Hr Hs).
  - replace (is_ok ret) with false by (symmetry; by apply bool_decide_eq_false).
    cbn. replace (fs_lmem _ s) with s by by destruct s. done.
Qed.

Lemma handle_ack_steps s e :
  link_inv c st s → e ∈ rx_log s → fv_type (rx_view e) = WL_PACKET_ACK →
  steps s (wl_handle_ack s (rx_view e)).1.
Proof.
  intros [Hinv _] Hin Ht. unfold wl_handle_ack.
  destruct (_ && _) eqn:E0; [done|]. destruct (_ || _) eqn:E1; [done|].
  apply orb_false_iff in E1 as [Es Eq]. apply negb_false_iff, Z.eqb_eq in Es, Eq.
  assert (tx_state s = WL_TX_STATE_WAITING_ACK ∨ tx_state s = WL_TX_STATE_SENDING) as Hst.
  { apply andb_false_iff in E0. rewrite !negb_false_iff, !bool_decide_eq_true in E0. done. }
  assert (engaged s) as He.
  { split.
    - intros Hz. apply (ti_handle c st s Hinv) in Hz. destruct Hst; congruence.
    - unfold terminal. destruct Hst as [-> | ->]; by intros [?|[?|?]]. }
  assert (tx_state s ≠ WL_TX_STATE_IDLE) as Hi by (destruct Hst; congruence).
  assert (entry_key e = (session_id s, tx_waiting_seq s)) as Hk by (unfold entry_key; congruence).
  eapply rtc_l; [exact (mi_acked s e Hin Ht He Hi Hk)|].
  eapply steps_trans; [|apply steps_quiet, push_tx_event_quiet].
  destruct (tx_queued _ && _); quiet; match goal with H : ¬ _ |- _ => destruct H; by left end.
Qed.

(** ** Received frames *)

(** An event changes nothing but the event. *)
Lemma push_event_shape s type id p n h :
  ∃ ev he rp g, (wl_push_event s type id p n h).1 =
    s <| event := ev |> <| has_event := he |> <| rx_payload := rp |>
      <| rx_event_generation := g |>.
Proof.
  unfold wl_push_event.
  assert (∃ ev he rp g, s = s <| event := ev |> <| has_event := he |> <| rx_payload := rp |>
      <| rx_event_generation := g |>) as Hsame.
  { exists (event s), (has_event s), (rx_payload s), (rx_event_generation s). by destruct s. }
  destruct (_ || _); [exact Hsame|]. destruct (_ && _); [exact Hsame|]. clear Hsame.
  cbv zeta. set (g := if u32 _ =? 0 then _ else _). destruct (is_rx_event type); cbn [fst].
  - exists (mk_event type id p n h 0 g 0), true, (mk_span p n), g. clearbody g. by destruct s.
  - exists (mk_event type id p n h 0 0 0), true, (rx_payload s), (rx_event_generation s).
    by destruct s.
Qed.

Lemma link_inv_rx_log s l : link_inv c st s → link_inv c st (s <| rx_log := l |>).
Proof. intros H. apply (link_inv_ext c st s); [reflexivity|done]. Qed.

Lemma route_view_steps s view :
  data_inv c st s → link_inv c st s →
  packet_valid (view_packet view) →
  steps s (wl_frame_route_view s view).1.
Proof.
  intros Hd Hinv Hv. unfold wl_frame_route_view. cbv zeta.
  set (e := mk_rx view _).
  assert (entry_valid e) as He.
  { split; [done|]. cbn. rewrite mread_length. destruct Hv as (Hl & _). cbn in Hl. lia. }
  change view with (rx_view e). clearbody e. clear view Hv.
  set (s1 := s <| rx_log := rx_log s ++ [e] |>).
  assert (steps s s1) as H1 by by apply rtc_once, mi_log.
  assert (data_inv c st s1) as Hd1 by by eapply steps_data.
  assert (link_inv c st s1) as Hinv1 by by apply link_inv_rx_log.
  destruct (_ >? _); [done|].
  destruct (fv_type (rx_view e) =? WL_PACKET_DATA) eqn:Et.
  - destruct (negb (Z.land _ _ =? 0)) eqn:Ef.
    + assert (entry_reliable e = true) as Hr by (unfold entry_reliable; by rewrite Et, Ef).
      destruct (rx_have_reliable s1 && _ && _) eqn:Ed.
      * rewrite !andb_true_iff, !Z.eqb_eq in Ed. destruct Ed as [[Eh Es] Eq].
        eapply steps_trans; [exact H1|]. set (s2 := s1 <| rx_counters := _ |>).
        assert (steps s1 s2) as H2 by quiet. eapply steps_trans; [exact H2|].
        apply send_ack_steps; try done; [by apply (steps_data c st Hfit Hrx s1)|].
        unfold seen, rx_keys. cbn. cbn in Eh, Es, Eq. by rewrite Eh, Es, Eq.
      * match goal with |- context [wl_push_event ?a ?b ?i ?d ?l ?h] =>
          destruct (push_event_shape a b i d l h) as (ev & he & rp & g & E);
          destruct (wl_push_event a b i d l h) as [s2 ret] end. cbn [fst] in E. subst s2.
        assert (¬ seen s e) as Hns.
        { unfold seen, rx_keys. intros [= E1 E2 E3]. cbn in Ed. rewrite E1, E2, E3, !Z.eqb_refl in Ed. done. }
        destruct (negb (is_ok ret)); cbn [fst].
        { eapply steps_trans; [exact H1|]. unfold s1. quiet. }
        pose proof (mi_deliver_rel s e He Hr Hns) as Hm.
        eapply rtc_l; [exact Hm|].
        match goal with |- rtc micro ?x (wl_send_ack ?y _).1 => assert (steps x y) as H2 by quiet end.
        eapply steps_trans; [exact H2|]. apply send_ack_steps; try done.
        apply (steps_data c st Hfit Hrx s); [|done]. by eapply rtc_l.
    + assert (entry_reliable e = false) as Hr by (unfold entry_reliable; by rewrite Et, Ef).
      match goal with |- context [wl_push_event ?a ?b ?i ?d ?l ?h] =>
        destruct (push_event_shape a b i d l h) as (ev & he & rp & g & E);
        destruct (wl_push_event a b i d l h) as [s2 ret] end. cbn [fst] in E |- *. subst s2.
      destruct (is_ok ret).
      * pose proof (mi_deliver s e He Hr) as Hm. eapply rtc_l; [exact Hm|]. quiet.
      * eapply steps_trans; [exact H1|]. unfold s1. quiet.
  - destruct (fv_type (rx_view e) =? WL_PACKET_ACK) eqn:Ea.
    + eapply steps_trans; [exact H1|]. apply handle_ack_steps; [done| |by apply Z.eqb_eq].
      cbn. set_solver.
    + destruct (_ =? WL_PACKET_NACK); [|done]. eapply steps_trans; [exact H1|]. cbn [fst]. unfold s1. quiet.
Qed.

(** ** Input *)

Definition good (s : wl_ctx) : Prop := data_inv c st s ∧ link_inv c st s.

Lemma good_steps s s' : good s → steps s s' → link_inv c st s' → good s'.
Proof. intros [Hd _] Hs Hl. split; [by eapply steps_data|done]. Qed.

(** The same transmit flags and a sequence of steps. *)
Lemma good_view s s' : good s → steps s s' → link_view s' = link_view s → good s'.
Proof. intros H Hs Hv. apply (good_steps s); [done..|]. by apply (link_inv_ext c st s); [|apply H]. Qed.

Lemma bad_frame_steps s e : steps s (wl_frame_bad_frame s e).1.
Proof. unfold wl_frame_bad_frame. cbn [fst]. quiet. Qed.

Lemma feed_parse_stream_steps s a n :
  good s → rx_area st a n → 0 < n < 2 ^ 63 → steps s (wl_feed_parse_stream s a n).1.
Proof.
  intros Hg Ha Hn. pose proof Hg as [[Htx _ _] _]. destruct (td_fixed c st s Htx) as (Ec & Est & _).
  unfold wl_feed_parse_stream. rewrite Ec.
  pose proof (decode_stream_scratched (lmem s) (integrity c) a n local_view
    (td_bytes c st s Htx) Hn) as Hsc.
  destruct (wl_link_decode_stream _ _ _ _ _) as [m r] eqn:E. cbn [fst] in Hsc.
  set (s1 := s <| lmem := m |>).
  assert (steps s s1) as H1 by (apply rtc_once, (mi_scratch s m a n); [done|by rewrite Est]).
  assert (good s1) as Hg1 by (by apply (good_view s)).
  destruct r as [e|view].
  - destruct (bool_decide _); [done|]. eapply steps_trans; [exact H1|apply bad_frame_steps].
  - eapply steps_trans; [exact H1|]. apply route_view_steps; [apply Hg1..|].
    by apply decode_stream_within in E as [? _]; [|apply Htx|..].
Qed.

Lemma feed_parse_wire_steps s a n : good s → steps s (wl_feed_parse_wire s a n).1.
Proof.
  intros Hg. pose proof Hg as [[Htx _ _] _]. unfold wl_feed_parse_wire. early s.
  destruct (wl_frame_decode _ _ _ _ _) as [e|view] eqn:E; [apply bad_frame_steps|].
  apply route_view_steps; [apply Hg..|].
  by apply decode_within in E as [? _]; [|apply Htx].
Qed.

Lemma feed_unit_raw_steps s a n : good s → steps s (wl_feed_unit_raw s a n).1.
Proof.
  intros Hg. unfold wl_feed_unit_raw. early s.
  assert (steps s (count_malformed s)) as Hm by (unfold count_malformed; quiet).
  destruct (_ =? WL_ENVELOPE_BUS_LENGTH16); [|by apply feed_parse_wire_steps].
  destruct (n <? 2); [done|]. destruct (_ || _); [done|]. destruct (negb _); [done|].
  by apply feed_parse_wire_steps.
Qed.

Lemma process_units_loop_steps fuel s : good s → steps s (process_units_loop fuel s).
Proof.
  revert s. induction fuel as [|fuel IH]; intros s Hg; [done|]. cbn [process_units_loop].
  destruct (has_event s || _); [done|]. destruct (_ || _); [done|].
  set (s1 := s <| rx_candidate_source := WL_RX_SOURCE_UNIT |>).
  assert (steps s s1) as H1 by quiet.
  assert (good s1) as Hg1 by by apply (good_view s).
  match goal with |- context [wl_feed_unit_raw s1 ?b ?d] =>
    pose proof (feed_unit_raw_steps s1 b d Hg1) as H2;
    pose proof (feed_unit_raw_inv c st s1 b d (proj2 Hg1)) as Hi2;
    generalize dependent (wl_feed_unit_raw s1 b d).1 end. intros s2 H2 Hi2.
  assert (good s2) as Hg2 by by apply (good_steps s1).
  eapply steps_trans; [exact H1|]. eapply steps_trans; [exact H2|].
  destruct (_ && _); [by quiet|].
  set (s3 := consume_unit s2 <| rx_candidate_source := WL_RX_SOURCE_NONE |>).
  assert (steps s2 s3) as H3 by (unfold s3, consume_unit; quiet).
  destruct (has_event s3); [done|]. eapply steps_trans; [exact H3|]. apply IH.
  by apply (good_view s2).
Qed.

(** *** The ring *)

Lemma ring_consume_move r n : 0 <= n → ring_moves r (wl_rx_ring_consumer_consume r n).1.
Proof.
  intros Hn. apply rtc_once, mv_step. intros m. eexists _, m.
  apply (step_consume m r n _ (wl_rx_ring_consumer_consume r n).2); [done|].
  apply surjective_pairing.
Qed.

Lemma consume_ring_steps s n : 0 <= n → steps s (consume_ring s n).
Proof. intros Hn. by apply rtc_once, mi_ring, ring_consume_move. Qed.

Lemma peek_range r :
  ring_ok r → let sp := wl_rx_ring_consumer_peek r in
  0 < span_length sp →
  memory r <= span_data sp ∧ span_data sp + span_length sp <= memory r + capacity r.
Proof.
  intros [Hwf _ _]. unfold wl_rx_ring_consumer_peek. rewrite (ring_wf_ready r Hwf). cbn [negb].
  destruct (_ =? 0); [done|]. cbn. intros _. pose proof (snapshot_distance r Hwf) as [_ Hs].
  destruct Hwf as [_ Hcap Hr Hw _].
  pose proof (contiguous_bound (capacity r) (read_cursor r) (readable_snapshot r)
    ltac:(lia) Hr ltac:(lia)) as [Hb1 Hb2].
  unfold cursor_physical in *. destruct (_ <? _) eqn:E; lia.
Qed.

Lemma ring_copy_scratched m r out len :
  ring_ok r → 0 <= len → scratched m (wl_rx_ring_consumer_copy m r 0 out len).1 out len.
Proof.
  intros [Hwf _ _] Hl. unfold wl_rx_ring_consumer_copy. destruct (_ && _); [done|].
  destruct (negb _); [done|]. destruct (_ || _); [done|]. destruct (len =? 0); [done|]. cbn [fst].
  set (cursor := cursor_advance _ _ _). set (first := contiguous_length _ _ _).
  assert (0 <= first <= len) as Hf.
  { destruct Hwf. apply contiguous_bound; [lia| |lia]. unfold cursor, cursor_advance. split_ifs; lia. }
  assert (scratched m (memmove m out (memory r + cursor_physical (capacity r) cursor) first) out len)
    as H1 by (split; [apply memmove_only; lia|apply memmove_bytes]).
  destruct (first <? len); [|done]. eapply scratched_trans; [exact H1|].
  split; [|apply memmove_bytes]. intros x Hx. apply mwrite_out. rewrite mread_length. lia.
Qed.

Lemma stream_candidate_steps s n s' a :
  good s → envelope c = WL_ENVELOPE_COBS_STREAM → 0 < n →
  stream_candidate s n = Some (s', a) → steps s s' ∧ rx_area st a n.
Proof.
  intros [[Htx _ [Hsh _]] _] Henv Hn. destruct (td_fixed c st s Htx) as (Ec & Est & _).
  rewrite Henv in Hsh. cbn in Hsh. destruct Hsh as (Hok & Em & Ek).
  unfold stream_candidate. rewrite Est.
  destruct (Z.leb_spec n (span_length (wl_rx_ring_consumer_peek (rx_ring s)))) as [Hle|_].
  - intros [= <- <-]. split; [quiet|]. left.
    pose proof (peek_range (rx_ring s) Hok ltac:(lia)). lia.
  - destruct (Z.gtb_spec n (st_rx_fallback_size st)); [done|].
    pose proof (ring_copy_scratched (lmem s) (rx_ring s) (st_rx_fallback st) n Hok
      ltac:(lia)) as Hsc.
    destruct (wl_rx_ring_consumer_copy _ _ _ _ _) as [m e]. cbn [fst] in Hsc.
    destruct (is_ok e); [|done]. intros [= <- <-].
    assert (rx_area st (st_rx_fallback st) n) as Ha by (right; lia). split; [|done].
    eapply rtc_l; [apply (mi_scratch s m _ n Hsc); by rewrite Est|]. quiet.
Qed.

Lemma find_steps s v r e off :
  wl_rx_ring_consumer_find (lmem s) (rx_ring s) v = (r, e, off) →
  steps s (s <| rx_ring := r |>).
Proof. intros E. apply rtc_once, mi_ring, rtc_once. by eapply mv_find. Qed.

Lemma process_stream_loop_steps fuel s :
  good s → envelope c = WL_ENVELOPE_COBS_STREAM → steps s (process_stream_loop fuel s).
Proof.
  intros Hg Henv. revert s Hg. induction fuel as [|fuel IH]; intros s Hg; [done|].
  cbn [process_stream_loop]. destruct (has_event s || _); [done|].
  destruct (wl_rx_ring_consumer_find _ _ _) as [[r ret] off] eqn:Ef.
  pose proof (find_steps s 0 r ret off Ef) as H1.
  assert (ring_ok (rx_ring s)) as Hok.
  { destruct Hg as [[_ _ [Hsh _]] _]. rewrite Henv in Hsh. apply Hsh. }
  apply find_ok in Ef as (_ & _ & _ & _ & Hoff); [|done].
  pose proof (snapshot_distance (rx_ring s) (ok_wf _ Hok)) as [_ Hsd].
  pose proof (wf_capacity _ (ok_wf _ Hok)) as Hcap.
  destruct (is_ok ret) eqn:Er; cbn [negb]; [|done]. apply bool_decide_eq_true in Er.
  specialize (Hoff Er). clear Hok.
  assert (0 <= off < 2 ^ 63) as Hrange by div_lia. clear Hoff Hsd Hcap.
  set (s1 := s <| rx_ring := r |>) in *.
  assert (good s1) as Hg1 by by apply (good_view s).
  eapply steps_trans; [exact H1|]. clearbody s1. clear s H1 Hg Er r.
  assert (∀ x, good x → good (consume_ring x (off + 1))) as Hcons.
  { intros x Hx. apply (good_view x); [done| |done]. apply consume_ring_steps. lia. }
  destruct (Z.eqb_spec off 0) as [|Hnz0].
  { eapply steps_trans; [apply (consume_ring_steps s1 (off + 1)); lia|]. apply IH. by apply Hcons. }
  destruct (stream_candidate s1 off) as [[s2 a]|] eqn:Ec.
  - pose proof (stream_candidate_view _ _ _ _ Ec) as Hv2.
    apply stream_candidate_steps in Ec as [H2 Ha]; [|done..|lia].
    assert (good s2) as Hg2 by by apply (good_view s1).
    eapply steps_trans; [exact H2|].
    pose proof (feed_parse_stream_steps s2 a off Hg2 Ha ltac:(lia)) as H3.
    pose proof (feed_parse_stream_inv c st s2 a off (proj2 Hg2)) as Hi3.
    generalize dependent (wl_feed_parse_stream s2 a off).1. intros s3 H3 Hi3.
    assert (good s3) as Hg3 by by apply (good_steps s2).
    eapply steps_trans; [exact H3|]. clear H2 H3 Hi3 Hg2 Hv2.
    pose proof (consume_ring_steps s3 (off + 1) ltac:(lia)) as H4.
    destruct (has_event s3 && _).
    + destruct (bool_decide _); [quiet; lia|]. eapply steps_trans; [exact H4|]. by quiet.
    + set (s4 := consume_ring s3 (off + 1) <| rx_candidate_source := WL_RX_SOURCE_NONE |>).
      assert (steps s3 s4) as H5 by (eapply steps_trans; [exact H4|]; unfold s4; quiet).
      destruct (has_event s4); [done|]. eapply steps_trans; [exact H5|]. apply IH.
      by apply (good_view s3).
  - match goal with |- context [consume_ring ?x _] =>
      assert (steps s1 x) as H2 by quiet; assert (good x) as Hg2 by by apply (good_view s1) end.
    eapply steps_trans; [exact H2|]. eapply steps_trans; [apply (consume_ring_steps _ (off + 1)); lia|].
    apply IH. by apply Hcons.
Qed.

Lemma take_overflow_move r : ring_moves r (wl_rx_ring_consumer_take_overflow r).1.
Proof.
  apply rtc_once, mv_step. intros m. eexists _, m.
  apply (step_take_overflow m r _ (wl_rx_ring_consumer_take_overflow r).2), surjective_pairing.
Qed.

Lemma stream_ring s :
  good s → envelope c = WL_ENVELOPE_COBS_STREAM → ring_ok (rx_ring s).
Proof. intros [[_ _ [Hsh _]] _] Henv. rewrite Henv in Hsh. apply Hsh. Qed.

Lemma drop_overflow_steps s :
  good s → envelope c = WL_ENVELOPE_COBS_STREAM → steps s (drop_overflow s).
Proof.
  intros Hg Henv. unfold drop_overflow. pose proof (take_overflow_move (rx_ring s)) as Hm.
  destruct (wl_rx_ring_consumer_take_overflow _) as [r n]. cbn [fst] in Hm.
  set (s1 := s <| rx_ring := r |>).
  assert (steps s s1) as H1 by by apply rtc_once, mi_ring.
  assert (good s1) as Hg1 by by apply (good_view s).
  destruct (negb _); [|done]. eapply steps_trans; [exact H1|].
  eapply steps_trans; [|apply consume_ring_steps, readable_nonneg].
  - quiet.
  - by apply (stream_ring s1).
Qed.

Lemma process_rx_steps s : good s → steps s (wl_link_process_rx s).
Proof.
  intros Hg. unfold wl_link_process_rx, stream_link. pose proof Hg as [[Htx _ _] _].
  destruct (td_fixed c st s Htx) as (Ec & _). rewrite Ec.
  destruct (Z.eqb_spec (envelope c) WL_ENVELOPE_COBS_STREAM) as [Henv|]; cbn [negb].
  - unfold wl_frame_process_stream. pose proof (drop_overflow_steps s Hg Henv) as H1.
    eapply steps_trans; [exact H1|]. apply process_stream_loop_steps; [|done].
    apply (good_view s); [done..|]. apply drop_overflow_view.
  - unfold wl_frame_process_units. destruct (negb _); [done|]. by apply process_units_loop_steps.
Qed.

(** ** The owner's pass *)

Lemma publish_pending_steps s : steps s (poll_publish_pending s).
Proof.
  unfold poll_publish_pending. destruct (_ && _); [|done].
  eapply steps_trans; [apply steps_quiet, push_event_quiet|]. quiet.
Qed.

Lemma poll_receive_steps s : good s → steps s (poll_receive s).
Proof. intros Hg. unfold poll_receive. destruct (_ && _); [by apply process_rx_steps|done]. Qed.

Lemma poll_queued_steps s : good s → steps s (poll_queued s).
Proof.
  intros Hg. unfold poll_queued. destruct (_ && _) eqn:E; [|done].
  rewrite !andb_true_iff, !negb_true_iff in E.
  destruct E as [[[[[[_ _] Hcl] Hq] Hf] _] _]. pose proof Hg as [[Htx _ _] [Hinv _]].
  destruct (ti_queued c st s Hinv Hq) as (_ & Hsend).
  match goal with |- context [let (_, _) := ?x in _] =>
    assert (steps s x.1) as Hs; [|destruct x as [s1 ret]] end.
  { destruct (in_flight_reliable s) eqn:Er.
    - destruct (ti_kind c st s Hinv Er) as (Hh & _). specialize (Hsend eq_refl).
      apply send_tx_payload_steps; [done| |done|by intros [_ ?]; congruence].
      split; [done|]. unfold terminal. rewrite Hsend. by intros [?|[?|?]].
    - by apply submit_unreliable_steps. }
  cbn [fst] in Hs. destruct (negb _); [|done]. eapply steps_trans; [exact Hs|].
  destruct (in_flight_reliable s).
  - eapply steps_trans; [|apply tx_fail_steps]. quiet.
  - quiet.
Qed.

Lemma poll_timeout_steps s now : good s → steps s (poll_timeout s now).
Proof.
  intros Hg. unfold poll_timeout. destruct (_ && _) eqn:E; [|done].
  rewrite !andb_true_iff, !negb_true_iff, !bool_decide_eq_true in E.
  destruct E as [[[[[[[[_ _] Hf] Hq] Hcl] Hst] _] _] _]. pose proof Hg as [[Htx _ _] [Hinv _]].
  destruct (_ >=? _); [|done]. destruct (_ =? 0); [apply tx_fail_steps|].
  assert (steps s (wl_send_tx_payload s).1) as Hs.
  { apply send_tx_payload_steps; [done| |done|by intros [? _]; congruence].
    split; [intros Hz; apply (ti_handle c st s Hinv) in Hz; congruence|].
    unfold terminal. rewrite Hst. by intros [?|[?|?]]. }
  destruct (wl_send_tx_payload s) as [s1 ret]. cbn [fst] in Hs. eapply steps_trans; [exact Hs|].
  destruct (is_ok ret); [|apply tx_fail_steps].
  unfold count_retry. destruct (bool_decide _); quiet.
Qed.

Lemma transport_progress_steps s now : good s → steps s (wl_poll_transport_progress s now).
Proof.
  intros Hg. unfold wl_poll_transport_progress.
  pose proof (submit_control_steps s) as H1.
  assert (good (wl_submit_control s).1) as G1
    by (apply (good_steps s); [done..|]; apply submit_control_inv, Hg).
  generalize dependent (wl_submit_control s).1. intros s1 H1 G1.
  assert (good (poll_publish_pending s1)) as G2.
  { apply (good_steps s1); [done|apply publish_pending_steps|]. apply publish_pending_inv, G1. }
  assert (good (poll_receive (poll_publish_pending s1))) as G3.
  { apply (good_steps _ _ G2); [by apply poll_receive_steps|]. apply poll_receive_inv, G2. }
  assert (good (poll_queued (poll_receive (poll_publish_pending s1)))) as G4.
  { apply (good_steps _ _ G3); [by apply poll_queued_steps|]. apply poll_queued_inv, G3. }
  eapply steps_trans; [exact H1|]. eapply steps_trans; [apply publish_pending_steps|].
  eapply steps_trans; [by apply poll_receive_steps|].
  eapply steps_trans; [by apply poll_queued_steps|]. by apply poll_timeout_steps.
Qed.

Lemma poll_steps s now : good s → steps s (wl_poll s now).1.1.
Proof.
  intros Hg. unfold wl_poll. early s.
  set (s1 := s <| now_ms := now |>). assert (steps s s1) as H1 by quiet.
  assert (good s1) as G1 by by apply (good_view s).
  eapply steps_trans; [exact H1|].
  match goal with |- context [if ?b then wl_poll_transport_progress s1 now else s1] =>
    assert (steps s1 (if b then wl_poll_transport_progress s1 now else s1)) as H2
      by (destruct b; [by apply transport_progress_steps|done]);
    generalize dependent (if b then wl_poll_transport_progress s1 now else s1) end.
  intros s2 H2. eapply steps_trans; [exact H2|].
  match goal with |- context [if negb (has_event ?x) then _ else _] =>
    assert (steps s2 x) as H3; [|generalize dependent x] end.
  { destruct (_ && _); [|done].
    destruct (push_event_shape s2 WL_EVT_TX_SUCCESS 0 NULL 0 0) as (ev & he & rp & g & E).
    destruct (wl_push_event _ _ _ _ _ _) as [s3 ret]. cbn [fst] in E. subst s3.
    destruct (is_ok ret); quiet. }
  intros s3 H3. eapply steps_trans; [exact H3|].
  destruct (has_event s3); cbn [negb fst]; [|done]. destruct (is_rx_event _); quiet.
Qed.

(** ** The producers and the rest *)

(** A ring operation at the link level. *)
Lemma ring_op_steps s r : ring_moves (rx_ring s) r → steps s (s <| rx_ring := r |>).
Proof. intros H. by apply rtc_once, mi_ring. Qed.

Ltac ring_op constructor_lemma :=
  apply ring_op_steps, rtc_once, mv_step; intros m; eexists _, m;
  eapply constructor_lemma; try eassumption; try done.

Lemma rx_reserve_steps s : steps s (wl_rx_reserve s).1.1.
Proof.
  unfold wl_rx_reserve. early s.
  destruct (wl_rx_ring_producer_reserve _) as [[r e] sp] eqn:E. ring_op step_reserve.
Qed.

Lemma rx_commit_steps s n : 0 <= n → steps s (wl_rx_commit s n).1.
Proof.
  intros Hn. unfold wl_rx_commit. early s.
  destruct (wl_rx_ring_producer_commit _ _) as [r e] eqn:E. ring_op step_commit.
Qed.

Lemma rx_dma_claim_steps s n : 0 <= n → steps s (wl_rx_dma_claim s n).1.1.
Proof.
  intros Hn. unfold wl_rx_dma_claim. early s.
  destruct (wl_rx_ring_dma_claim _ _) as [[r e] sp] eqn:E. ring_op step_dma_claim.
Qed.

Lemma rx_dma_publish_steps s t o n : 0 <= o → 0 <= n → steps s (wl_rx_dma_publish s t o n).1.
Proof.
  intros Ho Hn. unfold wl_rx_dma_publish. early s.
  destruct (wl_rx_ring_dma_publish _ _ _ _) as [r e] eqn:E.
  apply ring_op_steps, rtc_once, mv_step. intros m. eexists _, m.
  by apply (step_dma_publish m (rx_ring s) t o n r e).
Qed.

Lemma rx_dma_finish_steps s t : steps s (wl_rx_dma_finish s t).1.
Proof.
  unfold wl_rx_dma_finish. early s.
  destruct (wl_rx_ring_dma_finish _ _) as [r e] eqn:E. ring_op step_dma_finish.
Qed.

Lemma rx_dma_abort_steps s : steps s (wl_rx_dma_abort s).1.
Proof.
  unfold wl_rx_dma_abort. early s.
  destruct (wl_rx_ring_dma_abort _) as [r e] eqn:E. ring_op step_dma_abort.
Qed.

Lemma note_overflow_steps s : steps s (note_ring_overflow s).
Proof. ring_op step_note_overflow. Qed.

Lemma reserve_range s s' ret sp :
  good s → wl_rx_reserve s = (s', ret, sp) → ret = WL_OK →
  0 <= span_length sp ∧ rx_area st (span_data sp) (span_length sp).
Proof.
  intros Hg E ->. pose proof Hg as [[Htx _ [Hsh _]] _].
  destruct (td_fixed c st s Htx) as (Ec & Est & _).
  unfold wl_rx_reserve in E. destruct (negb _); [done|].
  destruct (negb (stream_link s)) eqn:Es; [done|]. unfold stream_link in Es.
  rewrite negb_false_iff, Ec in Es. rewrite Es in Hsh. destruct Hsh as ([Hwf Hp _] & Em & Ek).
  unfold wl_rx_ring_producer_reserve in E. rewrite (ring_wf_ready _ Hwf) in E. cbn [negb] in E.
  destruct (_ || _); [done|]. pose proof (snapshot_distance _ Hwf) as [Hd Hs].
  destruct (_ >? _) eqn:Eg; [done|]. injection E as _ <-. cbn. destruct Hwf as [_ Hc _ Hw _].
  pose proof (contiguous_bound (capacity (rx_ring s)) (write_cursor (rx_ring s))
    (capacity (rx_ring s) - cursor_distance (capacity (rx_ring s) * 2)
       (read_cursor (rx_ring s)) (write_cursor (rx_ring s))) ltac:(lia) Hw ltac:(lia)) as [Hb1 Hb2].
  split; [lia|]. left. unfold cursor_physical in *. destruct (_ <? _) eqn:E2; lia.
Qed.

Lemma rx_reserve_view s : link_view (wl_rx_reserve s).1.1 = link_view s.
Proof. exact (silent_view OpRxReserve s eq_refl). Qed.

Lemma rx_commit_view s n : link_view (wl_rx_commit s n).1 = link_view s.
Proof. exact (silent_view (OpRxCommit n) s eq_refl). Qed.

Lemma feed_bytes_loop_steps fuel s data len accepted :
  good s → steps s (feed_bytes_loop fuel s data len accepted).1.1.
Proof.
  revert s accepted. induction fuel as [|fuel IH]; intros s accepted Hg; [done|].
  cbn [feed_bytes_loop]. destruct (Z.ltb_spec accepted len); [|done].
  pose proof (rx_reserve_steps s) as H1. pose proof (rx_reserve_view s) as V1.
  pose proof (reserve_range s) as Hr.
  destruct (wl_rx_reserve s) as [[s1 ret] sp]. cbn [fst] in *.
  destruct (is_ok ret) eqn:Eo; cbn [negb]; [|done]. apply bool_decide_eq_true in Eo.
  destruct (Hr s1 ret sp Hg eq_refl Eo) as [Hl Ha].
  assert (good s1) as G1 by by apply (good_view s).
  eapply steps_trans; [exact H1|]. destruct (_ =? 0); [by apply rx_commit_steps|].
  set (chunk := if _ >? _ then _ else _).
  assert (0 <= chunk <= span_length sp) as Hch.
  { unfold chunk. destruct (Z.gtb_spec (len - accepted) (span_length sp)); lia. }
  set (s2 := s1 <| lmem := memmove (lmem s1) (span_data sp) (data + accepted) chunk |>).
  assert (steps s1 s2) as H2.
  { apply rtc_once, (mi_scratch s1 _ (span_data sp) (span_length sp)).
    - split; [apply memmove_only; lia|apply memmove_bytes].
    - by destruct (td_fixed c st s1 (di_tx _ _ _ (proj1 G1))) as (_ & -> & _). }
  eapply steps_trans; [exact H2|]. assert (good s2) as G2 by by apply (good_view s1).
  pose proof (rx_commit_steps s2 chunk ltac:(lia)) as H3. pose proof (rx_commit_view s2 chunk) as V3.
  destruct (wl_rx_commit s2 chunk) as [s3 ret3]. cbn [fst] in *.
  destruct (negb _); [done|]. eapply steps_trans; [exact H3|]. apply IH. by apply (good_view s2).
Qed.

Lemma feed_bytes_steps s data len : good s → steps s (wl_feed_bytes s data len).1.1.
Proof.
  intros Hg. unfold wl_feed_bytes. early s.
  pose proof (feed_bytes_loop_steps (Z.to_nat len) s data len 0 Hg) as Hs.
  destruct (feed_bytes_loop _ _ _ _ _) as [[s1 [ret|]] n]; [done|]. cbn [fst] in Hs.
  destruct (negb (n =? len)); [|done]. eapply steps_trans; [exact Hs|apply note_overflow_steps].
Qed.

Lemma receive_unit_steps s unit len : good s → 0 <= len → steps s (wl_frame_receive_unit s unit len).1.
Proof.
  intros Hg Hl. unfold wl_frame_receive_unit. destruct (_ || _); [done|].
  destruct (Z.gtb_spec len (st_rx_fallback_size (storage s))) as [|Hle]; [done|].
  set (s1 := if negb (len =? 0) then _ else s).
  assert (steps s s1 ∧ link_view s1 = link_view s) as [H1 V1].
  { unfold s1. destruct (negb _); [|done]. split; [|done].
    apply rtc_once, (mi_scratch s _ (st_rx_fallback (storage s)) len).
    - split; [apply memmove_only; lia|apply memmove_bytes].
    - right. lia. }
  clearbody s1. eapply steps_trans; [exact H1|].
  assert (good s1) as G1 by by apply (good_view s).
  set (s2 := s1 <| rx_candidate_source := WL_RX_SOURCE_FALLBACK |>).
  assert (steps s1 s2) as H2 by quiet. eapply steps_trans; [exact H2|].
  apply feed_unit_raw_steps. by apply (good_view s1).
Qed.

Lemma feed_unit_steps s unit len : good s → 0 <= len → steps s (wl_feed_unit s unit len).1.
Proof.
  intros Hg Hl. unfold wl_feed_unit. early s. destruct (stream_link s).
  - pose proof (feed_bytes_steps s unit len Hg) as Hs.
    by destruct (wl_feed_bytes s unit len) as [[s1 ret] n].
  - by apply receive_unit_steps.
Qed.

Lemma event_release_steps s ev : good s → steps s (wl_event_release s ev).
Proof.
  intros Hg. unfold wl_event_release. destruct (negb (initialized s)); [done|].
  destruct (_ && _); [|done].
  set (s1 := s <| rx_event_leased := false |>
    <| resource_generation := u32 (resource_generation s + 1) |>).
  assert (steps s s1) as H1 by quiet. eapply steps_trans; [exact H1|].
  match goal with |- context [rx_payload ?x] => assert (steps s1 x) as H2; [|generalize dependent x] end.
  { destruct (negb _); [|done]. destruct (bool_decide _); [unfold consume_unit; by quiet|].
    eapply steps_trans; [apply consume_ring_steps|by quiet]. apply Hg. }
  intros s2 H2. eapply steps_trans; [exact H2|]. quiet.
Qed.

Lemma readiness_steps s now : steps s (wl_link_get_readiness s now).1.1.
Proof.
  assert (steps s (wl_rx_runnable s).1) as Hr.
  { unfold wl_rx_runnable. destruct (rx_event_leased s); [done|]. destruct (stream_link s); [|done].
    destruct (wl_rx_ring_consumer_overflow_pending _); [done|].
    destruct (wl_rx_ring_consumer_find _ _ _) as [[r e] o] eqn:E.
    pose proof (find_steps s 0 r e o E). by destruct (is_ok e). }
  unfold wl_link_get_readiness. early s.
  match goal with |- context [let (_, _) := ?x in _] =>
    assert (steps s x.1) as Hs; [|destruct x as [s1 run]] end.
  { destruct (_ || _); [done|]. by destruct (control_pending s). }
  cbn [fst] in Hs. destruct (_ && _); [destruct (_ >=? _)|]; done.
Qed.
End Trace.
