(* ===== verification/LinkFair.v ===== *)
(** Links whose users keep their side of the contract.

    [op_fair] is that side: arguments in the range of their C types, and stores
    only outside the transmit storage or into a payload that was lent out.  A
    link that was initialized with sufficient storage and used fairly satisfies
    the invariants of [LinkData] at all times. *)
From stdpp Require Import relations.
From S2P Require Import Prelude Cobs Frame RxRing RingShape UnitQueue Link LinkInv LinkMem LinkSteps LinkData LinkTrace.
#[local] Open Scope wl_scope.

Definition op_fair (s : wl_ctx) (op : link_op) : Prop :=
  match op with
  | OpSendUnreliable i _ n => is_u16 i ∧ is_size n
  | OpSendReliable i _ n _ _ => is_u16 i ∧ is_size n
  | OpClaim i _ => is_u16 i
  | OpCommit _ n _ _ => is_size n
  | OpFeedBytes _ n | OpFeedUnit _ n | OpRxCommit n | OpDmaClaim n => is_size n
  | OpDmaPublish _ o n => is_size o ∧ is_size n
  | OpStore a v => is_byte v ∧ may_store s a
  | _ => True
  end.

Inductive link_fair `{Platform} (c : wl_config) (st : wl_storage) : wl_ctx → Prop :=
  | fair_init s0 s :
      wl_init s0 c st = (s, WL_OK) → logs s0 = ([], [], []) → bytes_mem (lmem s0) →
      link_fair c st s
  | fair_step s op : link_fair c st s → op_fair s op → link_fair c st (link_step op s).

(** More of the same. *)
Definition fair_run `{Platform} : relation wl_ctx :=
  rtc (λ s s', ∃ op, op_fair s op ∧ s' = link_step op s).

(** [op_fair] as a check. *)
Definition in_spanb (a data len : Z) : bool := (data <=? a) && (a <? data + len).

Definition may_storeb (s : wl_ctx) (a : Z) : bool :=
  let st := storage s in
  (negb (in_spanb a (st_tx_payload st) (st_tx_payload_size st))
   && negb (in_spanb a (st_tx_unit st) (st_tx_unit_size st))
   && negb (in_spanb a (st_control_unit st) (st_control_unit_size st)))
  || (tx_claim_active s
      && in_spanb a (span_data (tx_claim_payload s)) (span_length (tx_claim_payload s))).

Definition op_fairb (s : wl_ctx) (op : link_op) : bool :=
  let u16b i := (0 <=? i) && (i <? 2 ^ 16) in
  let sizeb n := (0 <=? n) && (n <? 2 ^ 64) in
  match op with
  | OpSendUnreliable i _ n => u16b i && sizeb n
  | OpSendReliable i _ n _ _ => u16b i && sizeb n
  | OpClaim i _ => u16b i
  | OpCommit _ n _ _ => sizeb n
  | OpFeedBytes _ n | OpFeedUnit _ n | OpRxCommit n | OpDmaClaim n => sizeb n
  | OpDmaPublish _ o n => sizeb o && sizeb n
  | OpStore a v => (0 <=? v) && (v <? 256) && may_storeb s a
  | _ => true
  end.

Fixpoint run_fairb `{Platform} (ops : list link_op) (s : wl_ctx) : bool :=
  match ops with
  | [] => true
  | op :: ops => op_fairb s op && run_fairb ops (link_step op s)
  end.

Lemma may_storeb_ok s a : may_storeb s a = true → may_store s a.
Proof. unfold may_storeb, may_store, in_spanb, in_span. lia. Qed.

Lemma op_fairb_ok s op : op_fairb s op = true → op_fair s op.
Proof.
  destruct op; cbn [op_fairb op_fair]; unfold is_u16, is_size, is_byte; try done; try lia.
  intros [? ?]%andb_true_iff. split; [lia|by apply may_storeb_ok].
Qed.

Lemma run_fairb_ok `{Platform} ops s : run_fairb ops s = true → fair_run s (link_run ops s).
Proof.
  revert s. induction ops as [|op ops IH]; intros s; [done|]. cbn [run_fairb].
  intros [Ho Hr]%andb_true_iff. eapply rtc_l; [|by apply IH].
  exists op. split; [by apply op_fairb_ok|done].
Qed.

(** What the types of the fields promise, and that the receive areas are apart
    from the transmit areas. *)
Record config_typed (c : wl_config) : Prop := {
  ct_payload : is_size (max_payload_len c);
  ct_session : is_u64 (cfg_session_id c);
  ct_retries : is_u16 (max_retries c);
}.

Section Fair.
Context {plat : Platform} (c : wl_config) (st : wl_storage).

Lemma fair_reachable s : link_fair c st s → link_reachable c st s.
Proof.
  induction 1 as [s0 s Hi Hl _|s op _ IH _]; [|by apply reach_step].
  injection Hl as ? ? ?. by eapply reach_init.
Qed.

(** ** The room [wl_init] insists on *)

Lemma requirements_ok rq :
  wl_config_requirements c = inr rq →
  (max_payload_len c ≠ 0 ∧ max_payload_len c <= WL_PACKET_MAX_PAYLOAD) ∧
  wl_profile_envelope_valid (envelope c) = true ∧
  wl_profile_integrity_valid (integrity c) = true ∧ cfg_session_id c ≠ 0 ∧
  rq = mk_requirements (max_payload_len c) (wl_max_unit_size c)
         (wl_frame_encode_overhead (envelope c) (integrity c))
         (if envelope c =? WL_ENVELOPE_COBS_STREAM then wl_max_unit_size c else 0)
         (if envelope c =? WL_ENVELOPE_COBS_STREAM then wl_max_unit_size c - 1
          else wl_max_unit_size c).
Proof.
  unfold wl_config_requirements.
  destruct (_ || _) eqn:E1; [done|]. apply orb_false_iff in E1 as [E1 E1'].
  apply Z.eqb_neq in E1. rewrite Z.gtb_ltb in E1'. apply Z.ltb_ge in E1'.
  destruct (wl_profile_envelope_valid _); [|done]. destruct (wl_profile_integrity_valid _); [|done].
  cbn [negb]. destruct (Z.eqb_spec (cfg_session_id c) 0); [done|].
  destruct (_ >=? _); [done|]. cbn [negb wl_profile_supported].
  destruct (_ || _); [done|]. intros [= <-]. done.
Qed.

(** The size of the image of a packet with at most [n] bytes of payload. *)
Definition unit_bound (env integ n : Z) : Z :=
  let raw := WL_FRAME_HEADER_SIZE + n + wl_profile_crc_size integ in
  if env =? WL_ENVELOPE_COBS_STREAM then raw + raw / 254 + 2
  else if env =? WL_ENVELOPE_BUS_LENGTH16 then raw + 2 else raw.

Lemma raw_size_eq integ n :
  wl_profile_integrity_valid integ = true → 0 <= n <= WL_PACKET_MAX_PAYLOAD →
  wl_frame_raw_size n integ = WL_FRAME_HEADER_SIZE + n + wl_profile_crc_size integ ∧
  16 <= wl_frame_raw_size n integ <= 2068.
Proof.
  intros Hi Hn. pose proof (wl_profile_crc_size_le integ) as Hc.
  unfold wl_frame_raw_size. rewrite Hi. cbn [negb].
  unfold WL_FRAME_HEADER_SIZE, WL_FRAME_RELIABLE_HEADER_SIZE, WL_PACKET_MAX_PAYLOAD, SIZE_MAX in *.
  replace (n >? _) with false by lia. lia.
Qed.

Lemma max_unit_size_eq :
  wl_profile_integrity_valid (integrity c) = true → 0 <= max_payload_len c <= WL_PACKET_MAX_PAYLOAD →
  wl_max_unit_size c = unit_bound (envelope c) (integrity c) (max_payload_len c).
Proof.
  intros Hi Hn. destruct (raw_size_eq (integrity c) (max_payload_len c) Hi Hn) as [Er Hr].
  unfold wl_max_unit_size, unit_bound, wl_cobs_encoded_max_size. rewrite <- Er.
  set (raw := wl_frame_raw_size _ _) in *. clearbody raw. replace (raw =? 0) with false by lia.
  replace (raw >? SIZE_MAX - raw / 254 - 1) with false by div_lia.
  destruct (_ =? WL_ENVELOPE_COBS_STREAM); lia.
Qed.

Lemma overhead_eq :
  wl_profile_integrity_valid (integrity c) = true →
  wl_profile_envelope_valid (envelope c) = true →
  wl_frame_encode_overhead (envelope c) (integrity c) = unit_bound (envelope c) (integrity c) 0.
Proof.
  intros Hi He. destruct (raw_size_eq (integrity c) 0 Hi ltac:(done)) as [Er Hr].
  unfold wl_frame_encode_overhead, unit_bound, wl_cobs_encoded_max_size. rewrite <- Er, Hi, He.
  set (raw := wl_frame_raw_size _ _) in *. clearbody raw. cbn [negb orb].
  replace (raw =? 0) with false by lia.
  replace (raw >? SIZE_MAX - raw / 254 - 1) with false by div_lia.
  destruct (_ =? WL_ENVELOPE_COBS_STREAM) eqn:E1.
  { rewrite usize_id by (unfold is_size; div_lia). lia. }
  destruct (_ =? WL_ENVELOPE_BUS_LENGTH16) eqn:E2; [done|].
  unfold wl_profile_envelope_valid, WL_ENVELOPE_COBS_STREAM, WL_ENVELOPE_BUS_LENGTH16 in *.
  by replace (envelope c =? WL_ENVELOPE_NATIVE_PACKET) with true
    by (unfold WL_ENVELOPE_NATIVE_PACKET; lia).
Qed.

(** An image fits where its bound does. *)
Lemma image_room p env integ l n :
  0 <= pk_payload_len p <= WL_PACKET_MAX_PAYLOAD → Z.of_nat (length l) = pk_payload_len p →
  pk_payload_len p <= n <= WL_PACKET_MAX_PAYLOAD →
  Z.of_nat (length (wire_image p env integ l)) <= unit_bound env integ n.
Proof.
  intros Hp Hl Hm.
  assert (l = mread (mwrite (λ _, 0) (pk_payload p) l) (pk_payload p)
    (Z.to_nat (pk_payload_len p))) as El.
  { rewrite <- Hl, Nat2Z.id. symmetry. by apply mread_mwrite. }
  pose proof (raw_frame_length (mwrite (λ _, 0) (pk_payload p) l) p integ Hp) as Hr.
  rewrite <- El in Hr. pose proof (packet_header_len_cases p) as Hh.
  pose proof (wl_profile_crc_size_le integ) as Hc.
  unfold unit_bound, wire_image, envelope_bytes.
  unfold WL_FRAME_HEADER_SIZE, WL_FRAME_RELIABLE_HEADER_SIZE, WL_PACKET_MAX_PAYLOAD in *.
  set (raw := raw_frame p integ l) in *. pose proof (cobs_enc_length raw).
  destruct (env =? WL_ENVELOPE_COBS_STREAM); [|destruct (env =? WL_ENVELOPE_BUS_LENGTH16)];
    rewrite ?length_app; change (length (write_u16_be _)) with 2%nat; change (length [0]) with 1%nat;
    [|lia|lia].
  enough (Z.of_nat (length raw) / 254 <= (16 + n + wl_profile_crc_size integ) / 254) by lia.
  apply Z.div_le_mono; lia.
Qed.

Lemma storage_overlaps_apart a n b k :
  0 <= n → 0 <= k → storage_overlaps a n b k = false → apart a n b k.
Proof.
  unfold storage_overlaps, apart. intros Hn Hk. destruct (Z.leb_spec a b); intros E;
    apply Z.ltb_ge in E; lia.
Qed.

Lemma init_ok s0 s :
  config_typed c → wl_init s0 c st = (s, WL_OK) →
  storage_fits c st ∧ wl_profile_integrity_valid (integrity c) = true ∧
  wl_profile_envelope_valid (envelope c) = true ∧ cfg_session_id c ≠ 0 ∧
  max_payload_len c < wl_max_unit_size c <= st_tx_unit_size st ∧
  wl_frame_encode_overhead (envelope c) (integrity c) <= st_control_unit_size st ∧
  (envelope c = WL_ENVELOPE_COBS_STREAM → wl_max_unit_size c <= st_rx_fifo_size st).
Proof.
  intros [Hp Hs Hr]. unfold wl_init.
  destruct (wl_config_requirements c) as [e|rq] eqn:Eq.
  { intros [= _ ->]. by apply requirements_error in Eq. }
  apply requirements_ok in Eq as ((Hp0 & Hp1) & He & Hi & Hz & ->). cbn [rq_tx_payload_size
    rq_tx_unit_size rq_control_unit_size rq_rx_fallback_size rq_rx_fifo_size].
  destruct (_ || _) eqn:E1; [done|].
  rewrite !orb_false_iff, !Z.eqb_neq, !Z.ltb_ge in E1.
  destruct E1 as ((((((((N1 & N2) & N3) & _) & R1) & R2) & R3) & _) & Rf).
  destruct (storage_overlaps _ _ _ _ || _ || _) eqn:E2; [done|]. rewrite !orb_false_iff in E2. destruct E2 as ((O1 & O2) & O3).
  intros _. unfold is_size in Hp.
  pose proof (max_unit_size_eq Hi ltac:(lia)) as Em. pose proof (overhead_eq Hi He) as Eo.
  assert (max_payload_len c + WL_FRAME_RELIABLE_HEADER_SIZE <= wl_max_unit_size c ∧
    0 <= wl_frame_encode_overhead (envelope c) (integrity c)) as [Hu Hc].
  { rewrite Em, Eo. pose proof (wl_profile_crc_size_le (integrity c)).
    unfold unit_bound, WL_FRAME_HEADER_SIZE, WL_FRAME_RELIABLE_HEADER_SIZE.
    set (k := wl_profile_crc_size _) in *.
    pose proof (Z.div_pos (16 + max_payload_len c + k) 254 ltac:(lia) ltac:(lia)).
    pose proof (Z.div_pos (16 + 0 + k) 254 ltac:(lia) ltac:(lia)).
    destruct (envelope c =? WL_ENVELOPE_COBS_STREAM); [lia|].
    destruct (envelope c =? WL_ENVELOPE_BUS_LENGTH16); lia. }
  unfold WL_FRAME_RELIABLE_HEADER_SIZE in Hu.
  split; [|split_and!; (done || lia || idtac)].
  - split; try done; try lia; try (apply storage_overlaps_apart; (done || lia)).
    unfold WL_FRAME_RELIABLE_HEADER_SIZE. lia.
  - intros Henv. rewrite Henv in Rf. cbn in Rf. unfold WL_PACKET_MAX_PAYLOAD in *.
    destruct (wl_max_unit_size c =? 0) eqn:E0; [lia|]. cbn in Rf.
    apply orb_false_iff in Rf as [_ Rf]. by apply Z.ltb_ge in Rf.
Qed.

(** The context as [wl_init] fills it in before it prepares the ring. *)
Definition init_fields (m : mem) : wl_ctx :=
  let retries := if negb (max_retries c =? 0) then max_retries c else 0 in
  ctx_zero m [] [] [] c st <| tx_retries_max := retries |> <| tx_retries_left := retries |>
    <| session_id := cfg_session_id c |> <| tx_token := 1 |>
    <| tx_payload := mk_span (st_tx_payload st) 0 |> <| rx_payload := mk_span (st_rx_fallback st) 0 |>.

Lemma init_fields_data m :
  bytes_mem m → tx_data c st (init_fields m) ∧ rx_data (init_fields m).
Proof.
  intros Hb. split; [|by split].
  split; unfold init_fields, engaged, unrel_queued; cbn; try done; try by intros [].
  - by split; intros [].
  - intros e He. by apply not_elem_of_nil in He.
  - intros e1 e2 q He. by apply not_elem_of_nil in He.
Qed.

Lemma ready_data s r :
  tx_data c st s → rx_data s → ring_data c st (s <| rx_ring := r |>) →
  data_inv c st (s <| rx_ring := r |> <| tx_writable := true |> <| initialized := true |>).
Proof. intros [] [] []. by split. Qed.

Lemma init_data s0 s :
  config_typed c → wl_init s0 c st = (s, WL_OK) → logs s0 = ([], [], []) →
  bytes_mem (lmem s0) → data_inv c st s.
Proof.
  intros Hct Hi Hl Hb. destruct (init_ok s0 s Hct Hi) as (Hfit & Hint & Henv & Hz & Hunit & _ & Hfifo).
  injection Hl as L1 L2 L3. revert Hi. unfold wl_init.
  destruct (wl_config_requirements c) as [e|rq] eqn:Eq.
  { intros [= _ ->]. by apply requirements_error in Eq. }
  apply requirements_ok in Eq as ((Hp0 & Hp1) & _ & _ & _ & ->).
  cbn [rq_tx_payload_size rq_tx_unit_size rq_control_unit_size rq_rx_fallback_size rq_rx_fifo_size].
  destruct (_ || _); [done|]. destruct (storage_overlaps _ _ _ _ || _ || _); [done|].
  rewrite L1, L2, L3. change (ctx_zero _ _ _ _ _ _ <| tx_retries_max := _ |> <| tx_retries_left := _ |>
    <| session_id := _ |> <| tx_token := _ |> <| tx_payload := _ |> <| rx_payload := _ |>)
    with (init_fields (lmem s0)).
  destruct (init_fields_data (lmem s0) Hb) as [Htx Hrx].
  assert (rx_pending_consume (init_fields (lmem s0)) = 0 ∧
    ring_ready (rx_ring (init_fields (lmem s0))) = false) as [Hpc Hrr] by done.
  revert Htx Hrx Hpc Hrr. generalize (init_fields (lmem s0)) as s1. intros s1 Htx Hrx Hpc Hrr.
  destruct (Z.eqb_spec (envelope c) WL_ENVELOPE_COBS_STREAM) as [Es|Es].
  - specialize (Hfifo Es). destruct Hct as [[Hp _] _ _].
    replace (wl_max_unit_size c =? 0) with false by lia. cbn [negb].
    destruct (wl_rx_ring_init _ _ _ _) as [r ret] eqn:Er.
    destruct (is_ok ret) eqn:Eo; cbn [negb]; [|done]. apply bool_decide_eq_true in Eo as ->.
    intros [= <-]. apply ready_data; [done|done|].
    assert (lock_free = true) as El.
    { revert Er. unfold wl_rx_ring_init. destruct (_ || _); [done|]. by destruct lock_free. }
    rewrite El in Er. apply (ring_init_inv (λ _, 0)) in Er as (Hinv & _ & Em & Ek); [|lia].
    split; cbn; [|by rewrite Hpc]. rewrite Es. split; [by eapply ring_inv_ok|done].
  - cbn [negb]. intros [= <-]. apply ready_data; [done|done|].
    split; cbn; [|by rewrite Hpc]. apply Z.eqb_neq in Es. by rewrite Es.
Qed.

(** ** Every operation is a sequence of steps *)

Section Steps.
Context (Hfit : storage_fits c st) (Hrx : rx_apart st).
Context (Hsid : is_u64 (cfg_session_id c)) (Hnz : cfg_session_id c ≠ 0).
Context (Hint : wl_profile_integrity_valid (integrity c) = true).

Lemma recover_reset_steps s : good c st s → steps s (wl_feed_recover_reset s).1.
Proof.
  intros Hg. unfold wl_feed_recover_reset, stream_link. pose proof Hg as [[Htx _ _] _].
  destruct (td_fixed c st s Htx) as (Ec & _). rewrite Ec. early s. cbn [fst].
  apply consume_ring_steps, readable_nonneg. apply (stream_ring c st); [done|]. lia.
Qed.

Lemma unit_op_steps s q : steps s (s <| rx_units := q |>).
Proof. quiet. Qed.

Lemma setting_steps s op :
  match op with
  | OpSetSink _ _ | OpSetDrainRequired _ | OpWritable | OpOwnerTime _ | OpNoteOverflow
  | OpUnitInit _ | OpUnitClaim _ | OpUnitCommit _ _ | OpUnitAbort _ => True
  | _ => False
  end → steps s (link_step op s).
Proof.
  destruct op; intros []; cbn [link_step].
  - unfold wl_set_sink. early s. cbn [fst]. quiet.
  - unfold wl_set_tx_drain_required. early s. cbn [fst]. quiet.
  - unfold wl_tx_writable. early s. cbn [fst]. quiet.
  - quiet.
  - unfold wl_rx_note_overflow. destruct (_ && _); [apply note_overflow_steps|done].
  - unfold link_unit_queue_init. destruct (wl_rx_unit_queue_init _ _ _ _ _ _ _). apply unit_op_steps.
  - unfold link_unit_claim. destruct (wl_rx_unit_claim _ _ _) as [[??]?]. apply unit_op_steps.
  - unfold link_unit_commit. destruct (wl_rx_unit_commit _ _ _ _). apply unit_op_steps.
  - unfold link_unit_abort. destruct (wl_rx_unit_abort _ _ _). apply unit_op_steps.
Qed.

Lemma link_step_steps s op : good c st s → op_fair s op → steps s (link_step op s).
Proof.
  intros Hg Hf. pose proof Hg as [Hd Hinv]. pose proof (di_tx c st s Hd) as Htx.
  destruct op; cbn [op_fair] in Hf; try (by apply setting_steps); cbn [link_step];
    unfold is_size in Hf.
  all: try (by eapply send_unreliable_steps; eauto; apply Hf).
  all: try (by eapply send_reliable_steps; eauto; apply Hf).
  all: try (by eapply payload_commit_steps; eauto; lia).
  all: try (by apply (feed_unit_steps c st); auto; lia).
  all: try (by first [apply rx_commit_steps | apply rx_dma_claim_steps]; lia).
  all: try (by apply rx_dma_publish_steps; lia).
  all: eauto using payload_claim_steps, payload_abort_steps, tx_consumed_steps, tx_drained_steps,
    tx_cancel_steps, tx_take_steps, poll_steps, event_release_steps, readiness_steps,
    rx_reserve_steps, rx_dma_finish_steps, rx_dma_abort_steps, recover_reset_steps, feed_bytes_steps.
  destruct Hf. by apply rtc_once, mi_store.
Qed.
End Steps.

Lemma fair_init_ok s :
  config_typed c → link_fair c st s →
  storage_fits c st ∧ wl_profile_integrity_valid (integrity c) = true ∧ cfg_session_id c ≠ 0.
Proof.
  intros Hct. induction 1 as [s0 s Hi _ _|s op _ IH _]; [|exact IH].
  by destruct (init_ok s0 s Hct Hi) as (?&?&?&?&_).
Qed.

Lemma fair_good s : config_typed c → rx_apart st → link_fair c st s → good c st s.
Proof.
  intros Hct Hrx Hf. pose proof (ct_retries c Hct) as Hret. pose proof (ct_session c Hct) as Hsid.
  destruct (fair_init_ok s Hct Hf) as (Hfit & Hint & Hnz).
  pose proof (reachable_inv c st s Hret (fair_reachable s Hf)) as Hinv. split; [|done]. clear Hinv.
  induction Hf as [s0 s Hi Hl Hb|s op Hf IH Ho]; [by eapply init_data|].
  pose proof (reachable_inv c st s Hret (fair_reachable s Hf)) as Hinv.
  apply (steps_data c st Hfit Hrx s); [|done].
  by apply link_step_steps.
Qed.

Lemma run_fair s s' : link_fair c st s → fair_run s s' → link_fair c st s'.
Proof. intros Hs. induction 1 as [|s1 s2 s3 (op & Ho & ->) _ IH]; [done|]. by apply IH, fair_step. Qed.

Lemma fair_run_steps s s' :
  config_typed c → rx_apart st → link_fair c st s → fair_run s s' → steps s s'.
Proof.
  intros Hct Hrx Hs. destruct (fair_init_ok s Hct Hs) as (Hfit & Hint & Hnz).
  pose proof (ct_session c Hct) as Hsid.
  induction 1 as [|s1 s2 s3 (op & Ho & ->) _ IH]; [done|].
  etrans; [|by apply IH, fair_step]. apply link_step_steps; try done. by apply fair_good.
Qed.
End Fair.
