(* ===== verification/LinkMessage.v ===== *)
(** The message a transaction carries.

    A message that was accepted may wait before it is offered for the first
    time.  [asked] adds the unit it stands for to the log of a link; the added
    entry survives every step, so the invariant of the log says that all units
    that are offered for the message are that unit. *)
From stdpp Require Import relations.
From S2P Require Import Prelude Cobs Frame RxRing RingShape UnitQueue Link LinkInv LinkMem LinkSteps LinkData LinkTrace LinkFair.
#[local] Open Scope wl_scope.

Section Asked.
Context (c : wl_config) (st : wl_storage).
Context (Hfit : storage_fits c st) (Hrx : rx_apart st).
Context (x : io_entry) (q : Z) (Hx : io_what x = IO_RELIABLE q).

Definition asked (s : wl_ctx) : wl_ctx := s <| io_log := x :: io_log s |>.

Lemma asked_last s a : last_offer s = Some a → last_offer (asked s) = Some a.
Proof.
  unfold last_offer, asked. change (io_log (s <| _ := _ |>)) with ([x] ++ io_log s).
  rewrite attempts_app, fmap_app, last_app. by intros ->.
Qed.

Lemma asked_quiet s s' : quiet_step s s' → quiet_step (asked s) (asked s').
Proof.
  intros []. split; try assumption.
  - injection qs_logs as E1 E2 E3. unfold logs, asked. cbn. by rewrite E1, E2, E3.
  - intros H. destruct (qs_engaged H) as (? & ? & Ho). split_and!; [done..|].
    intros Hi. destruct (Ho Hi) as [?|Hl]; [by left|right]. by apply asked_last.
Qed.

Lemma asked_micro s s' : micro s s' → q < tx_sequence s → micro (asked s) (asked s').
Proof.
  intros Hm Hq.
  destruct Hm as [s' Hqs|r Hmv|m a n Hsc Ha|a v Hv Hs|e He|e He Hrel|e He Hrel Hns
    |m e He Hrel Hs Hc l Hst Hl|token answer Hc|e Hin Hty He Hi Hk
    |s' Hh Hi Hi' Hcl Hu Hf Hlg Hring Hkeys Hpc Hen Hcc Hcl' Hu' Hsc Hp Hn Hv Hw Hseq Hno
    |m He Hz Hcl Hu l Hst Hl|token answer He Hn|Hcl Hu|m p l He Hcl Hp Hlen Hby Hst Hl
    |token answer Hu|span rel id Hcl Hu Hid Hz Hlen Hpl].
  - by apply mi_quiet, asked_quiet.
  - by apply (mi_ring (asked s)).
  - by apply (mi_scratch (asked s) m a n).
  - by apply (mi_store (asked s)).
  - by apply (mi_log (asked s)).
  - by apply (mi_deliver (asked s)).
  - by apply (mi_deliver_rel (asked s)).
  - by apply (mi_ack (asked s) m e).
  - by apply (mi_offer_control (asked s)).
  - by apply (mi_acked (asked s) e).
  - apply (mi_begin (asked s) (asked s')); try assumption.
    + injection Hlg as E1 E2 E3. unfold logs, asked. cbn. by rewrite E1, E2, E3.
    + intros e [->|He]%elem_of_cons; [|by apply Hno]. cbn. rewrite Hx, Hw. intros [=]. lia.
  - by apply (mi_encode (asked s)).
  - by apply (mi_offer_rel (asked s)).
  - replace (asked (wl_invalidate_tx_image s)) with (wl_invalidate_tx_image (asked s)).
    { by apply (mi_invalidate (asked s)). }
    unfold wl_invalidate_tx_image. cbn [asked]. by destruct (_ && _); [destruct (negb _)|].
  - by apply (mi_unrel (asked s)).
  - by apply (mi_offer_unrel (asked s)).
  - by apply (mi_claim (asked s)).
Qed.

Lemma micro_sequence s s' : micro s s' → tx_sequence s <= tx_sequence s'.
Proof.
  destruct 1; try reflexivity; [by apply qs_sequence|lia|].
  unfold wl_invalidate_tx_image. by destruct (_ && _); [destruct (negb _)|].
Qed.

Lemma asked_steps s s' :
  steps s s' → q < tx_sequence s → steps (asked s) (asked s') ∧ q < tx_sequence s'.
Proof.
  induction 1 as [s|s1 s2 s3 Hm _ IH]; intros Hq; [done|].
  pose proof (micro_sequence s1 s2 Hm). destruct IH as [Hs Hq']; [lia|].
  split; [|done]. eapply rtc_l; [by apply asked_micro|done].
Qed.

Lemma asked_data s :
  data_inv c st s → engaged s → tx_waiting_seq s = q →
  io_unit x = img c (rel_packet s) (tx_bytes s) → data_inv c st (asked s).
Proof.
  intros [Ht [] []] He Hq Hu. split; [|by split..]. pose proof Ht as []. split; try assumption.
  - intros _ e [->|Hin]%elem_of_cons Hw; [done|]. by apply td_sent.
  - intros _ Hi. by apply asked_last, td_last.
  - intros e [->|Hin]%elem_of_cons; [|by apply td_log]. unfold unit_meaning. rewrite Hx, Hu.
    exists (rel_packet s), (tx_bytes s). destruct (td_span (proj1 He)) as [_ Hl].
    destruct td_fixed as (_ & _ & Ese). split_and!; try done; [by apply td_message|].
    unfold tx_bytes. rewrite mread_length. cbn. lia.
  - assert (∀ e, e ∈ io_log s → io_what e = IO_RELIABLE q → io_unit e = io_unit x) as Hs.
    { intros e Hin Hw. rewrite Hu. apply td_sent; [done..|]. by rewrite Hq. }
    intros e1 e2 a [->|H1]%elem_of_cons [->|H2]%elem_of_cons W1 W2; [done| | |by eapply td_same].
    + rewrite Hx in W1. injection W1 as <-. symmetry. by apply Hs.
    + rewrite Hx in W2. injection W2 as <-. by apply Hs.
  - intros Hs. destruct He as [_ []]. by left.
Qed.

(** All the units offered for the message in hand are the same, in all that
    follows. *)
Lemma message_units s s' e :
  data_inv c st s → engaged s → tx_waiting_seq s = q → q < tx_sequence s →
  io_unit x = img c (rel_packet s) (tx_bytes s) → steps s s' →
  e ∈ io_log s' → io_what e = IO_RELIABLE q → io_unit e = io_unit x.
Proof.
  intros Hd He Hw Hq Hu Hs Hin Hwe. destruct (asked_steps s s' Hs Hq) as [Hs' _].
  pose proof (steps_data c st Hfit Hrx _ _ Hs' (asked_data s Hd He Hw Hu)) as [Ht _ _].
  apply (td_same c st _ Ht e x q); [|apply elem_of_cons; by left|done|done].
  apply elem_of_cons. by right.
Qed.
End Asked.
