(* ===== verification/LinkDelivery.v ===== *)
(** What a fairly used link guarantees about its messages.

    The units handed to the sink are frames of the messages the application
    submitted, byte for byte and for every attempt; acknowledgements stand for
    messages that became events.  Two links whose channel does not invent frames
    agree: a message that is reported as delivered was delivered. *)
From stdpp Require Import relations.
From S2P Require Import Prelude Cobs Frame RxRing RingShape UnitQueue Link LinkInv LinkProps LinkMem LinkSteps LinkData LinkTrace LinkFair LinkMessage.
#[local] Open Scope wl_scope.

(** The frame of a reliable message of a link with configuration [c]. *)
Definition message_unit (c : wl_config) (id q : Z) (l : list Z) : list Z :=
  wire_image (mk_packet WL_PACKET_DATA (integrity c) WL_PACKET_FLAG_RELIABLE id
                (cfg_session_id c) q NULL (Z.of_nat (length l)))
    (envelope c) (integrity c) l.

Section Sender.
Context {plat : Platform} (c : wl_config) (st : wl_storage).
Context (Hct : config_typed c) (Hrx : rx_apart st).

Lemma begun_message s pkt direct now :
  tx_data c st s → may_begin c st s pkt direct →
  let s' := begun (s <| tx_sequence := tx_sequence s + 1 |>) pkt direct now in
  img c (rel_packet s') (tx_bytes s') =
    message_unit c (pk_message_id pkt) (pk_sequence pkt)
      (mread (lmem s) (pk_payload pkt) (Z.to_nat (pk_payload_len pkt))) ∧
  tx_waiting_seq s' = pk_sequence pkt ∧ tx_sequence s' = tx_sequence s + 1.
Proof.
  intros Hd Hb s'. destruct (td_fixed c st s Hd) as (Ec & Est & Ese).
  pose proof (mb_length c st s pkt direct Hb) as Hn.
  unfold s', begun, wl_prepare_reliable_payload. cbn -[memmove].
  destruct (negb direct && _) eqn:E; cbn -[memmove]; (split; [|done]);
    unfold img, message_unit, rel_packet, tx_bytes; cbn -[memmove]; rewrite ?Ec, ?Est, ?Ese.
  - destruct direct; [done|]. unfold memmove. by rewrite mread_mwrite by by rewrite mread_length.
  - destruct direct; [done|]. cbn in E. apply negb_false_iff, Z.eqb_eq in E. by rewrite E.
Qed.

(** The units that follow a submission that was accepted. *)
Lemma internal_units s pkt direct now s1 h s2 e :
  storage_fits c st ∧ wl_profile_integrity_valid (integrity c) = true ∧ cfg_session_id c ≠ 0 →
  tx_claim_active s = false → tx_sequence s ≠ UINT32_MAX →
  pk_sequence pkt = tx_sequence s → is_u16 (pk_message_id pkt) → 0 <= pk_payload_len pkt →
  (direct = true → payload_place c st (pk_payload pkt)) → data_inv c st s → link_inv c st s →
  wl_send_frame_internal (s <| tx_sequence := tx_sequence s + 1 |>) pkt true direct now
    = (s1, WL_OK, h) →
  steps s1 s2 → e ∈ io_log s2 → io_what e = IO_RELIABLE (tx_sequence s) →
  io_unit e = message_unit c (pk_message_id pkt) (tx_sequence s)
                (mread (lmem s) (pk_payload pkt) (Z.to_nat (pk_payload_len pkt))).
Proof.
  intros (Hfit & Hint & Hnz) Hcl Hmax Hq Hi Hn Hpl Hd Hinv Hsend Hs Hin Hw.
  pose proof (ct_session c Hct) as Hsid.
  destruct (internal_begin c st Hsid Hnz Hint s pkt direct now) as [[_ Hno]|[Hb Er]]; [done..| |].
  { rewrite Hsend in Hno. by destruct Hno. }
  pose proof (begun_steps c st Hfit Hrx Hnz Hint s pkt direct now Hd Hb) as Hs1.
  rewrite Hsend in Er. cbn zeta in Hs1. rewrite <- Er in Hs1. cbn [fst] in Hs1.
  pose proof (begun_micro c st Hfit Hnz Hint s pkt direct now (di_tx _ _ _ Hd) Hb) as Hm.
  destruct (begun_message s pkt direct now (di_tx _ _ _ Hd) Hb) as (Himg & Hwait & Hseq).
  destruct (begun_engaged (s <| tx_sequence := tx_sequence s + 1 |>) pkt direct now)
    as (He & _); [apply Hb..|].
  revert Himg Hwait Hseq He Hm Hs1. generalize (begun (s <| tx_sequence := tx_sequence s + 1 |>) pkt
    direct now) as sb. intros sb Himg Hwait Hseq He Hm Hs1.
  rewrite <- Hq, <- Himg.
  refine (message_units c st Hfit Hrx
    (mk_io (IO_RELIABLE (pk_sequence pkt)) 0 (img c (rel_packet sb) (tx_bytes sb)) WL_SINK_SENT)
    (pk_sequence pkt) eq_refl sb s2 e _ He Hwait _ eq_refl _ Hin _).
  - by eapply micro_data.
  - lia.
  - by etrans.
  - by rewrite Hq.
Qed.
End Sender.

Lemma released_good {plat : Platform} c st s :
  storage_fits c st → rx_apart st → data_inv c st s → link_inv c st s →
  let s0 := s <| tx_claim_active := false |> <| tx_claim_payload := mk_span NULL 0 |> in
  data_inv c st s0 ∧ link_inv c st s0.
Proof.
  intros Hfit Hrx Hd Hinv s0. assert (steps s s0) as Hs by quiet.
  split; [by eapply steps_data|by apply release_claim_inv].
Qed.

(** ** A concrete link, used fairly *)

Lemma demo_typed c :
  ((0 <=? max_payload_len c) && (max_payload_len c <? 2 ^ 64) && (0 <=? cfg_session_id c)
   && (cfg_session_id c <? 2 ^ 64) && (0 <=? max_retries c) && (max_retries c <? 2 ^ 16)) = true →
  config_typed c.
Proof. intros H. split; unfold is_size, is_u64, is_u16; lia. Qed.

Lemma demo_apart : rx_apart demo_stg.
Proof.
  intros b k H. unfold apart, demo_stg. cbn in *. set_unfold.
  by destruct H as [[= -> ->]|[[= -> ->]|[[= -> ->]|[]]]]; lia.
Qed.

Lemma demo_start_fair (p : Platform) c :
  (wl_init (ctx_zero demo_memory [] [] [] c demo_stg) c demo_stg).2 = WL_OK →
  link_fair c demo_stg (demo_start p c).
Proof.
  intros E. apply fair_step; [|done].
  destruct (wl_init _ c demo_stg) as [s e] eqn:Ei. cbn [snd] in E. subst e.
  eapply fair_init; [exact Ei|done|]. intros a. apply Z.mod_pos_bound. lia.
Qed.

Lemma demo_run_fair (p : Platform) c ops :
  (wl_init (ctx_zero demo_memory [] [] [] c demo_stg) c demo_stg).2 = WL_OK →
  run_fairb ops (demo_start p c) = true →
  link_fair c demo_stg (link_run ops (demo_start p c)).
Proof.
  intros E Hr. apply run_fairb_ok in Hr. eapply run_fair; [|exact Hr]. by apply demo_start_fair.
Qed.

(** A peer of the link above; the driver copies a unit to memory and feeds it. *)
Definition demo_peer_cfg : wl_config :=
  mk_config 8 WL_ENVELOPE_COBS_STREAM WL_INTEGRITY_CRC16 88 2 10 0.

Definition feed_ops (a : Z) (l : list Z) : list link_op :=
  imap (λ i v, OpStore (a + Z.of_nat i) v) l ++ [OpFeedBytes a (Z.of_nat (length l))].

Definition demo_message : list Z := message_unit demo_cfg 5 0 [100; 101; 102; 103].

(** The peer receives the message twice. *)
Definition demo_receiving : list link_op :=
  feed_ops 7000 demo_message ++ [OpPoll 1; OpRelease (mk_event WL_EVT_RELIABLE_RX 5 NULL 0 0 0 1 0)]
  ++ feed_ops 7000 demo_message ++ [OpPoll 2].

(** ** What the sender puts on the wire *)

Lemma send_units {plat : Platform} c st s id p n now out s1 h s2 e :
  config_typed c → rx_apart st → link_fair c st s → is_u16 id → is_size n →
  wl_send_reliable s id p n now out = (s1, WL_OK, h) → fair_run s1 s2 →
  e ∈ io_log s2 → io_what e = IO_RELIABLE (tx_sequence s) →
  io_unit e = message_unit c id (tx_sequence s) (mread (lmem s) p (Z.to_nat n)).
Proof.
  intros Hct Hrx Hf Hid Hn Hsend Hrun Hin Hw. destruct (fair_good c st s Hct Hrx Hf) as [Hd Hinv].
  assert (link_fair c st s1) as Hf1.
  { replace s1 with (link_step (OpSendReliable id p n now out) s) by (cbn; by rewrite Hsend).
    by apply fair_step. }
  pose proof (fair_run_steps c st s1 s2 Hct Hrx Hf1 Hrun) as Hs.
  unfold wl_send_reliable in Hsend. destruct (out =? NULL); [done|]. destruct (negb _); [done|].
  destruct (Z.eqb_spec (tx_sequence s) UINT32_MAX) as [|Hmax]; [done|].
  change (tx_claim_active (s <| _ := _ |>)) with (tx_claim_active s) in Hsend.
  destruct (tx_claim_active s) eqn:Hcl; [done|].
  set (pkt := mk_packet _ _ _ _ _ _ _ _) in Hsend.
  exact (internal_units c st Hct Hrx s pkt false now s1 h s2 e (fair_init_ok c st s Hct Hf)
    Hcl Hmax eq_refl Hid (proj1 Hn) ltac:(done) Hd Hinv Hsend Hs Hin Hw).
Qed.

(** What [wl_send_reliable] checked. *)
Lemma send_accepted `{Platform} s id p n now out s1 h :
  wl_send_reliable s id p n now out = (s1, WL_OK, h) → id ≠ 0 ∧ n <= max_payload_len (config s).
Proof.
  unfold wl_send_reliable, wl_send_frame_internal.
  repeat match goal with
  | |- (if ?b then (_, _, 0) else _) = _ → _ => destruct b eqn:?; [done|]
  end. cbn in *.
  intros _. split; lia.
Qed.

Lemma message_valid c id q p (l : list Z) i k :
  config_typed c → cfg_session_id c ≠ 0 → is_u16 id → id ≠ 0 → is_u32 q →
  0 <= k <= WL_PACKET_MAX_PAYLOAD → Z.of_nat (length l) = k →
  packet_valid (mk_packet WL_PACKET_DATA i WL_PACKET_FLAG_RELIABLE id (cfg_session_id c) q p
                  (Z.of_nat (length l))).
Proof.
  intros [] ? ? ? ? Hk ->. unfold packet_valid. cbn. do 4 (split; [done|]). left. auto.
Qed.

(** C9: a reliable message that [wl_send_reliable] accepted keeps
    its content.  Whatever the application, the drivers and the sink do next, as
    long as they keep to the storage that is theirs, every unit handed to the
    sink for this message, first attempt or retry, is the frame of the message
    id and the bytes the caller passed, under the session of the link and the
    sequence number the call took. *)
Theorem link_send_fidelity {plat : Platform} c st s id p n now out s1 h s2 e :
  config_typed c → rx_apart st → link_fair c st s → is_u16 id → is_size n →
  wl_send_reliable s id p n now out = (s1, WL_OK, h) → fair_run s1 s2 →
  e ∈ io_log s2 → io_what e = IO_RELIABLE (tx_sequence s) →
  io_unit e = message_unit c id (tx_sequence s) (mread (lmem s) p (Z.to_nat n)).
Proof. apply send_units. Qed.

(** Three attempts of a message whose source is overwritten after the call. *)
Lemma link_send_fidelity_witness :
  let p := demo_platform (λ _, WL_SINK_SENT) in
  let s := demo_start p demo_cfg in
  let s2 := link_run (OpStore 100 0 :: tail demo_silent_peer)
              (wl_send_reliable s 5 100 4 0 1).1.1 in
  length (io_log s2) = 3%nat ∧
  Forall (λ e, io_unit e = message_unit demo_cfg 5 0 [100; 101; 102; 103]) (io_log s2).
Proof.
  intros p s s2. split; [vm_compute; reflexivity|]. apply Forall_forall. intros e He.
  apply (link_send_fidelity demo_cfg demo_stg s 5 100 4 0 1 (wl_send_reliable s 5 100 4 0 1).1.1
    65537 s2 e).
  - apply demo_typed. vm_compute. reflexivity.
  - apply demo_apart.
  - apply (demo_start_fair p). vm_compute. reflexivity.
  - split; vm_compute; congruence.
  - split; vm_compute; congruence.
  - apply surjective_result; vm_compute; reflexivity.
  - apply run_fairb_ok. vm_compute. reflexivity.
  - exact He.
  - assert (Forall (λ e, io_what e = IO_RELIABLE 0) (io_log s2)) as Hw
      by (vm_compute; repeat constructor).
    rewrite Forall_forall in Hw. exact (Hw e He).
Defined.

(** the same for a message whose payload was written in
    place: the units carry the bytes the claimed span held at the commit. *)
Theorem link_commit_fidelity {plat : Platform} c st s claim n now out s1 h s2 e :
  config_typed c → rx_apart st → link_fair c st s → is_size n → tx_claim_reliable s = true →
  wl_tx_payload_commit s claim n now out = (s1, WL_OK, h) → fair_run s1 s2 →
  e ∈ io_log s2 → io_what e = IO_RELIABLE (tx_sequence s) →
  io_unit e = message_unit c (tx_claim_message_id s) (tx_sequence s)
                (mread (lmem s) (span_data (tx_claim_payload s)) (Z.to_nat n)).
Proof.
  intros Hct Hrx Hf Hn Hrel Hsend Hrun Hin Hw.
  destruct (fair_good c st s Hct Hrx Hf) as [Hd Hinv].
  assert (link_fair c st s1) as Hf1.
  { replace s1 with (link_step (OpCommit claim n now out) s) by (cbn; by rewrite Hsend).
    by apply fair_step. }
  pose proof (fair_run_steps c st s1 s2 Hct Hrx Hf1 Hrun) as Hs.
  unfold wl_tx_payload_commit in Hsend. destruct (negb _); [done|].
  destruct (negb (tx_claim_matches s claim)) eqn:Em; [done|]. apply negb_false_iff in Em.
  unfold tx_claim_matches in Em. rewrite !andb_true_iff in Em. destruct Em as [[Hcl _] Edata].
  apply Z.eqb_eq in Edata.
  destruct (td_claim c st s (di_tx _ _ s Hd) Hcl) as (_ & [Hplace _] & _ & Hid & Hz).
  destruct (td_fixed c st s (di_tx _ _ s Hd)) as (Ec & Est & Ese). rewrite Ec, Est in Hplace.
  destruct (released_good c st s (proj1 (fair_init_ok c st s Hct Hf)) Hrx Hd Hinv) as [Hd1 Hinv1].
  set (s0 := s <| tx_claim_active := false |> <| tx_claim_payload := mk_span NULL 0 |>) in *.
  rewrite Hrel in Hsend. cbn [andb] in Hsend. destruct (_ || _); [done|].
  destruct (Z.eqb_spec (tx_sequence s0) UINT32_MAX) as [|Hmax]; [done|].
  set (pkt := mk_packet _ _ _ _ _ _ _ _) in Hsend.
  pose proof (internal_units c st Hct Hrx s0 pkt true now s1 h s2 e (fair_init_ok c st s Hct Hf)
    eq_refl Hmax eq_refl Hid (proj1 Hn)) as H.
  rewrite <- Edata. refine (H _ Hd1 Hinv1 Hsend Hs Hin Hw).
  intros _. cbn. rewrite Edata. by apply Hplace.
Qed.

(** Two bytes written into the claimed payload, two attempts. *)
Lemma link_commit_fidelity_witness :
  let p := demo_platform (λ _, WL_SINK_SENT) in
  let s := link_run [OpClaim 9 WL_DELIVERY_RELIABLE; OpStore 1000 7; OpStore 1001 8]
             (demo_start p demo_cfg) in
  let claim := mk_tx_claim (mk_span 1000 8) 1 in
  let s2 := link_run [OpStore 100 0; OpPoll 10] (wl_tx_payload_commit s claim 2 0 1).1.1 in
  length (io_log s2) = 2%nat ∧
  Forall (λ e, io_unit e = message_unit demo_cfg 9 0 [7; 8]) (io_log s2).
Proof.
  intros p s claim s2. split; [vm_compute; reflexivity|]. apply Forall_forall. intros e He.
  apply (link_commit_fidelity demo_cfg demo_stg s claim 2 0 1
    (wl_tx_payload_commit s claim 2 0 1).1.1 65537 s2 e).
  - apply demo_typed. vm_compute. reflexivity.
  - apply demo_apart.
  - apply (demo_run_fair p); vm_compute; reflexivity.
  - split; vm_compute; congruence.
  - vm_compute. reflexivity.
  - apply surjective_result; vm_compute; reflexivity.
  - apply run_fairb_ok. vm_compute. reflexivity.
  - exact He.
  - assert (Forall (λ e, io_what e = IO_RELIABLE 0) (io_log s2)) as Hw
      by (vm_compute; repeat constructor).
    rewrite Forall_forall in Hw. exact (Hw e He).
Defined.

(** every unit a fairly used link hands to the sink is a frame of
    its profile: for a reliable attempt, a data frame of the link's session with
    the sequence number of the attempt; for an unreliable message, a data frame
    without session; for a control unit, the acknowledgement of a reliable
    message that was received and became an event. *)
Theorem link_units_meaning {plat : Platform} c st s e :
  config_typed c → rx_apart st → link_fair c st s → e ∈ io_log s →
  unit_meaning c (rx_delivered s) e.
Proof.
  intros Hct Hrx Hf He. destruct (fair_good c st s Hct Hrx Hf) as [[Ht _ _] _].
  by apply (td_log c st s Ht).
Qed.

(** The peer acknowledges a message and, when it comes again, acknowledges it
    again. *)
Lemma link_units_meaning_witness :
  let p := demo_platform (λ _, WL_SINK_SENT) in
  let s := link_run demo_receiving (demo_start p demo_peer_cfg) in
  (io_what <$> io_log s) = [IO_CONTROL; IO_CONTROL] ∧
  Forall (unit_meaning demo_peer_cfg (rx_delivered s)) (io_log s) ∧
  length (rx_log s) = 2%nat ∧ length (rx_delivered s) = 1%nat.
Proof.
  intros p s. split; [vm_compute; reflexivity|]. split; [|split; vm_compute; reflexivity].
  apply Forall_forall. intros e He. apply (link_units_meaning demo_peer_cfg demo_stg s e).
  - apply demo_typed. vm_compute. reflexivity.
  - apply demo_apart.
  - apply (demo_run_fair p); vm_compute; reflexivity.
  - exact He.
Defined.
