(* ===== verification/LinkPair.v ===== *)
(** Two links and the channel between them.

    The frames a link accepts are compared with the units its peer handed to
    the sink.  A channel that does not invent frames makes the sender's success
    truthful; one that also keeps their order makes the receiver deliver the
    sender's messages in order and once. *)
From Stdlib Require Import Sorted.
From stdpp Require Import relations.
From S2P Require Import Prelude Cobs Frame RxRing RingShape UnitQueue Link LinkInv LinkProps LinkMem LinkSteps LinkData LinkTrace LinkFair LinkMessage LinkDelivery.
#[local] Open Scope wl_scope.

(** The unit a received frame came from. *)
Definition frame_of (c : wl_config) (e : rx_entry) : list Z :=
  wire_image (view_packet (rx_view e)) (envelope c) (integrity c) (rx_bytes e).

(** Frames may be lost, repeated and reordered, but every frame that passes the
    checks of the receiver was sent. *)
Definition no_invention (c : wl_config) (sent : list io_entry) (got : list rx_entry) : Prop :=
  ∀ e, e ∈ got → ∃ u, u ∈ sent ∧ io_unit u = frame_of c e.

(** In addition the order is kept: the frames stem from positions of the log
    that do not decrease. *)
Definition in_order (c : wl_config) (sent : list io_entry) (got : list rx_entry) : Prop :=
  ∃ pos : list nat, StronglySorted le pos ∧
    Forall2 (λ i e, ∃ u, sent !! i = Some u ∧ io_unit u = frame_of c e) pos got.

Definition no_inventionb (c : wl_config) (sent : list io_entry) (got : list rx_entry) : bool :=
  forallb (λ e, existsb (λ u, bool_decide (io_unit u = frame_of c e)) sent) got.

Lemma no_inventionb_ok c sent got : no_inventionb c sent got = true → no_invention c sent got.
Proof.
  unfold no_inventionb. rewrite forallb_forall. intros H e He%list_elem_of_In.
  apply H, existsb_exists in He as (u & Hu%list_elem_of_In & E%bool_decide_eq_true). by exists u.
Qed.

(** [low] is a lower bound of the positions that remain. *)
Fixpoint in_orderb (c : wl_config) (sent : list io_entry) (low : nat) (pos : list nat)
    (got : list rx_entry) : bool :=
  match pos, got with
  | [], [] => true
  | i :: pos, e :: got =>
      (low <=? i)%nat && bool_decide (io_unit <$> sent !! i = Some (frame_of c e))
      && in_orderb c sent i pos got
  | _, _ => false
  end.

Lemma in_orderb_ok c sent pos got : in_orderb c sent 0 pos got = true → in_order c sent got.
Proof.
  intros H. exists pos. enough (Forall (le 0) pos ∧ StronglySorted le pos ∧
    Forall2 (λ i e, ∃ u, sent !! i = Some u ∧ io_unit u = frame_of c e) pos got) by tauto.
  revert got H. generalize 0%nat as low. induction pos as [|i pos IH]; intros low [|e got] H; try done.
  { by repeat constructor. }
  cbn in H. rewrite !andb_true_iff in H. destruct H as [[Hl He%bool_decide_eq_true] H].
  apply Nat.leb_le in Hl. destruct (IH i got H) as (H1 & H2 & H3).
  split_and!; [|by constructor|].
  - constructor; [done|]. eapply Forall_impl; [exact H1|]. cbn. lia.
  - constructor; [|done]. apply fmap_Some in He as (u & Hu & Ee). by exists u.
Qed.

Section Meaning.
Context (c : wl_config) (st : wl_storage).

Lemma frame_of_inj e p l :
  entry_valid e → packet_valid p → Z.of_nat (length l) = pk_payload_len p →
  img c p l = frame_of c e → same_frame p (view_packet (rx_view e)) ∧ l = rx_bytes e.
Proof. intros [Hv Hl] Hp Hn E. by eapply wire_image_inj in E. Qed.

(** An acknowledgement that was received was sent for a delivered message. *)
Lemma meaning_ack delivered u e :
  unit_meaning c delivered u → io_unit u = frame_of c e → entry_valid e →
  fv_type (rx_view e) = WL_PACKET_ACK →
  ∃ d, d ∈ delivered ∧ entry_reliable d = true ∧ entry_key d = entry_key e.
Proof.
  intros Hm Hu He Ht. unfold unit_meaning in Hm. destruct (io_what u) as [q| |].
  - destruct Hm as (p & l & Hp & Hty & _ & _ & _ & Hl & E). rewrite Hu in E. symmetry in E.
    apply frame_of_inj in E as [(Et & _) _]; [|done..]. cbn in Et. by rewrite Hty, Ht in Et.
  - destruct Hm as (p & l & (Hp & Hty & _) & Hl & _ & E). rewrite Hu in E. symmetry in E.
    apply frame_of_inj in E as [(Et & _) _]; [|done..]. cbn in Et. by rewrite Hty, Ht in Et.
  - destruct Hm as (d & Hd & Hdv & Hdr & E). rewrite Hu in E. symmetry in E.
    apply frame_of_inj in E as [(_ & _ & _ & _ & Ek) _]; [|done|by apply ack_valid|done].
    exists d. split_and!; [done..|]. destruct Ek as [E1 E2]; [done|].
    cbn in E1, E2. unfold entry_key in *. cbn in *. congruence.
Qed.

(** A reliable message that was received is one of the reliable units. *)
Lemma meaning_reliable delivered u e :
  unit_meaning c delivered u → io_unit u = frame_of c e → entry_valid e →
  entry_reliable e = true →
  io_what u = IO_RELIABLE (entry_key e).2 ∧ (entry_key e).1 = cfg_session_id c.
Proof.
  intros Hm Hu He Hr. unfold entry_reliable in Hr. apply andb_true_iff in Hr as [Ht Hfl].
  apply Z.eqb_eq in Ht. unfold unit_meaning in Hm. destruct (io_what u) as [q| |].
  - destruct Hm as (p & l & Hp & Hty & Hf & Hs & Hq & Hl & E). rewrite Hu in E. symmetry in E.
    apply frame_of_inj in E as [(_ & _ & _ & _ & Ek) _]; [|done..].
    destruct Ek as [E1 E2].
    { unfold packet_header_len. by rewrite Hty, Hf. }
    cbn in *. unfold entry_key. cbn. by rewrite <- E1, <- E2, Hs, Hq.
  - destruct Hm as (p & l & (Hp & Hty & Hf) & Hl & _ & E). rewrite Hu in E. symmetry in E.
    apply frame_of_inj in E as [(_ & Ef & _) _]; [|done..]. cbn in Ef. rewrite <- Ef, Hf in Hfl. done.
  - destruct Hm as (d & Hd & Hdv & Hdr & E). rewrite Hu in E. symmetry in E.
    apply frame_of_inj in E as [(Et & _) _]; [|done|by apply ack_valid|done].
    cbn in Et. rewrite Ht in Et. done.
Qed.
End Meaning.

(** ** Order *)

Lemma sorted_sublist (l k : list Z) : l `sublist_of` k → StronglySorted Z.le k → StronglySorted Z.le l.
Proof.
  induction 1 as [|x l k Hlk IH|x l k Hlk IH]; intros Hs; [done| |];
    apply StronglySorted_inv in Hs as [Hs Hx]; [|by apply IH].
  constructor; [by apply IH|]. rewrite Forall_forall in *. intros y Hy. apply Hx.
  by eapply elem_of_sublist.
Qed.

(** Attempts at later positions have later sequence numbers. *)
Lemma attempts_lookup log i j u v q r :
  StronglySorted Z.le (attempts log).*1 → (i <= j)%nat → log !! i = Some u → log !! j = Some v →
  io_what u = IO_RELIABLE q → io_what v = IO_RELIABLE r → q <= r.
Proof.
  intros Hs Hij Hi Hj Hu Hv. destruct (decide (i = j)) as [->|Hne].
  { rewrite Hi in Hj. injection Hj as ->. rewrite Hu in Hv. by injection Hv as ->. }
  apply take_drop_middle in Hi. rewrite <- Hi in Hs.
  rewrite attempts_app, fmap_app in Hs. unfold attempts at 2 in Hs. cbn in Hs. rewrite Hu in Hs.
  cbn in Hs. eapply sorted_sublist in Hs; [|by apply sublist_inserts_l]. apply StronglySorted_inv in Hs as [_ Hs].
  rewrite Forall_forall in Hs. apply Hs, list_elem_of_fmap. exists (r, accepted (io_answer v)).
  split; [done|]. apply list_elem_of_omap. exists v. rewrite Hv. split; [|done].
  apply list_elem_of_lookup. exists (j - S i)%nat. rewrite lookup_drop.
  by replace (S i + (j - S i))%nat with j by lia.
Qed.

Lemma sorted_strict (l : list (Z * Z)) sid :
  StronglySorted Z.le l.*2 → adjacent_differ l → Forall (λ k, k.1 = sid) l →
  StronglySorted Z.lt l.*2.
Proof.
  intros Hs Hd Hsid. apply Sorted_StronglySorted; [intros ???; lia|].
  induction l as [|x [|y l] IH]; [constructor|by repeat constructor|].
  apply StronglySorted_inv in Hs as [Hs Hx]. destruct Hd as [Hxy Hd].
  apply Forall_cons in Hsid as [Ex Hsid]. constructor; [by apply IH|].
  constructor. apply Forall_cons in Hx as [Hle _]. apply Forall_cons in Hsid as [Ey _].
  destruct x as [x1 x2], y as [y1 y2]. cbn in *. subst.
  destruct (decide (x2 = y2)) as [->|]; [done|lia].
Qed.

Lemma keys_sorted c delivered sent pos got :
  StronglySorted Z.le (attempts sent).*1 → (∀ u, u ∈ sent → unit_meaning c delivered u) →
  Forall entry_valid got → StronglySorted le pos →
  Forall2 (λ i e, ∃ u, sent !! i = Some u ∧ io_unit u = frame_of c e) pos got →
  StronglySorted Z.le (reliable_keys got).*2 ∧
  Forall (λ k, k.1 = cfg_session_id c) (reliable_keys got).
Proof.
  intros Hs Hm Hv Hp H. revert Hv Hp.
  induction H as [|i e pos got (u & Hi & Hu) Hrest IH]; intros Hv Hp; [by repeat constructor|].
  apply Forall_cons in Hv as [He Hv]. apply StronglySorted_inv in Hp as [Hp Hip].
  destruct (IH Hv Hp) as [IH1 IH2]. unfold reliable_keys. rewrite filter_cons.
  destruct (decide (entry_reliable e = true)) as [Hr|]; [|done].
  destruct (meaning_reliable c delivered u e) as [Wu Su]; [|done..|].
  { apply Hm. by eapply list_elem_of_lookup_2. }
  cbn. split; constructor; [done| |done|done].
  apply Forall_forall. intros r (k & -> & Hk)%list_elem_of_fmap.
  apply list_elem_of_fmap in Hk as (e' & -> & [Hr' Hin]%list_elem_of_filter).
  apply list_elem_of_lookup in Hin as [n Hn]. pose proof Hn as Hn'.
  destruct (Forall2_lookup_r _ _ _ _ _ Hrest Hn) as (j & Hj & v & Hjv & Hvu).
  destruct (meaning_reliable c delivered v e') as [Wv _]; [|done|..|done|].
  { apply Hm. by eapply list_elem_of_lookup_2. }
  { rewrite Forall_forall in Hv. apply Hv. by eapply list_elem_of_lookup_2. }
  eapply (attempts_lookup sent i j u v); eauto.
  rewrite Forall_forall in Hip. apply Hip. by eapply list_elem_of_lookup_2.
Qed.

Lemma reliable_keys_sublist l k : l `sublist_of` k → reliable_keys l `sublist_of` reliable_keys k.
Proof.
  unfold reliable_keys. induction 1 as [|x l k _ IH|x l k _ IH]; [done| |];
    rewrite ?filter_cons; destruct (decide _); cbn; (done || by constructor).
Qed.

(** C2: over a channel that may lose and repeat frames but keeps
    their order, the receiver turns the sender's reliable messages into events in
    the order of their sequence numbers and each of them at most once, although
    every message may be sent and received several times. *)
Theorem pair_in_order_once (pa pb : Platform) ca cb sta stb sa sb :
  config_typed ca → config_typed cb → rx_apart sta → rx_apart stb →
  link_fair (H := pa) ca sta sa → link_fair (H := pb) cb stb sb →
  in_order ca (io_log sa) (rx_log sb) →
  StronglySorted Z.lt (reliable_keys (rx_delivered sb)).*2 ∧
  Forall (λ k, k.1 = cfg_session_id ca) (reliable_keys (rx_delivered sb)).
Proof.
  intros Hca Hcb Ha Hb Hsa Hsb (pos & Hp & Hch).
  destruct (fair_good (plat := pa) ca sta sa Hca Ha Hsa) as [[Ht _ _] [_ Hl]].
  destruct (fair_good (plat := pb) cb stb sb Hcb Hb Hsb) as [[_ [] _] _].
  destruct (keys_sorted ca (rx_delivered sa) (io_log sa) pos (rx_log sb)) as [Hs Hsid];
    [apply Hl|apply Ht|done..|].
  pose proof (reliable_keys_sublist _ _ rd_sub) as Hsub.
  assert (Forall (λ k, k.1 = cfg_session_id ca) (reliable_keys (rx_delivered sb))) as Hd.
  { rewrite Forall_forall in *. intros k Hk. apply Hsid. by eapply elem_of_sublist. }
  split; [|done]. apply (sorted_strict _ (cfg_session_id ca)); [|done..].
  eapply sorted_sublist; [|exact Hs]. by apply fmap_sublist.
Qed.

(** A message that is sent twice, received twice and delivered once. *)
Definition demo_sending : list link_op := take 2 demo_silent_peer.

Lemma pair_in_order_once_witness :
  let p := demo_platform (λ _, WL_SINK_SENT) in
  let sa := link_run demo_sending (demo_start p demo_cfg) in
  let sb := link_run demo_receiving (demo_start p demo_peer_cfg) in
  StronglySorted Z.lt (reliable_keys (rx_delivered sb)).*2 ∧
  reliable_keys (rx_log sb) = [(77, 0); (77, 0)] ∧
  reliable_keys (rx_delivered sb) = [(77, 0)].
Proof.
  intros p sa sb. split; [|split; vm_compute; reflexivity].
  apply (pair_in_order_once p p demo_cfg demo_peer_cfg demo_stg demo_stg sa sb).
  - apply demo_typed. vm_compute. reflexivity.
  - apply demo_typed. vm_compute. reflexivity.
  - apply demo_apart.
  - apply demo_apart.
  - apply (demo_run_fair p); vm_compute; reflexivity.
  - apply (demo_run_fair p); vm_compute; reflexivity.
  - apply (in_orderb_ok _ _ [0%nat; 1%nat]). vm_compute. reflexivity.
Defined.

(** ** Truthful success *)

(** The message whose acknowledgement made a transaction successful was
    delivered by the peer. *)
Lemma success_delivered (pa pb : Platform) ca cb sta stb sa sb :
  config_typed ca → config_typed cb → rx_apart sta → rx_apart stb →
  link_fair (H := pa) ca sta sa → link_fair (H := pb) cb stb sb →
  no_invention ca (io_log sa) (rx_log sb) → no_invention cb (io_log sb) (rx_log sa) →
  tx_state sa = WL_TX_STATE_SUCCESS →
  ∃ q u d, last_offer sa = Some q ∧ u ∈ io_log sa ∧ io_what u = IO_RELIABLE q ∧
    d ∈ rx_delivered sb ∧ entry_valid d ∧ entry_key d = (cfg_session_id ca, q) ∧
    io_unit u = frame_of ca d.
Proof.
  intros Hca Hcb Ha Hb Hsa Hsb Hab Hba Hok.
  destruct (fair_good (plat := pa) ca sta sa Hca Ha Hsa) as [[Ht [] _] _].
  destruct (fair_good (plat := pb) cb stb sb Hcb Hb Hsb) as [[Ht' Hr' _] _].
  destruct (td_success ca sta sa Ht Hok) as (a & Hin & Hty & Hsid & Hlast).
  destruct (td_fixed ca sta sa Ht) as (_ & _ & Ese). rewrite Ese in Hsid.
  destruct (Hba a Hin) as (w & Hw & Ew). rewrite Forall_forall in rd_valid.
  destruct (meaning_ack cb (rx_delivered sb) w a) as (d & Hd & Hdr & Hk);
    [by apply (td_log cb stb sb Ht')|done|by apply rd_valid|done|].
  destruct Hr' as [Hval Hsub _ _]. rewrite Forall_forall in Hval.
  assert (d ∈ rx_log sb) as Hdl by by eapply elem_of_sublist.
  destruct (Hab d Hdl) as (u & Hu & Eu).
  destruct (meaning_reliable ca (rx_delivered sa) u d) as [Wu Su];
    [by apply (td_log ca sta sa Ht)|done|by apply Hval|done|].
  exists (entry_key d).2, u, d. rewrite Hk in Wu |- *. split_and!; auto.
  rewrite <- Hk. destruct (entry_key d). cbn in *. by rewrite Su.
Qed.

(** C1: a message that was accepted by [wl_send_reliable] and whose
    transaction ends in success has been delivered to the application of the
    peer: under the sender's session and the sequence number the call took, with
    the message id and the very bytes that were passed.  The channel may lose,
    repeat and reorder frames in both directions; the frames it delivers intact
    are frames that were sent. *)
Theorem pair_success_truthful (pa pb : Platform) ca cb sta stb s id p n now out s1 h sa sb :
  config_typed ca → config_typed cb → rx_apart sta → rx_apart stb →
  link_fair (H := pa) ca sta s → is_u16 id → is_size n →
  wl_send_reliable (H := pa) s id p n now out = (s1, WL_OK, h) → fair_run (H := pa) s1 sa →
  link_fair (H := pb) cb stb sb →
  no_invention ca (io_log sa) (rx_log sb) → no_invention cb (io_log sb) (rx_log sa) →
  tx_state sa = WL_TX_STATE_SUCCESS → last_offer sa = Some (tx_sequence s) →
  ∃ d, d ∈ rx_delivered sb ∧ entry_key d = (cfg_session_id ca, tx_sequence s) ∧
       fv_message_id (rx_view d) = id ∧ rx_bytes d = mread (lmem s) p (Z.to_nat n).
Proof.
  intros Hca Hcb Ha Hb Hs Hid Hn Hsend Hrun Hsb Hab Hba Hok Hlast.
  assert (link_fair (H := pa) ca sta s1) as Hs1.
  { replace s1 with (link_step (H := pa) (OpSendReliable id p n now out) s) by (cbn; by rewrite Hsend).
    by apply fair_step. }
  pose proof (run_fair (plat := pa) ca sta s1 sa Hs1 Hrun) as Hsa.
  destruct (success_delivered pa pb ca cb sta stb sa sb)
    as (q & u & d & Hq & Hu & Wu & Hd & Hv & Hk & Eu); [done..|].
  rewrite Hlast in Hq. injection Hq as <-.
  pose proof (send_units (plat := pa) ca sta s id p n now out s1 h sa u Hca Ha Hs Hid Hn Hsend Hrun
    Hu Wu) as E.
  destruct (fair_init_ok (plat := pa) ca sta s Hca Hs) as (Hfit & _ & Hz).
  destruct (fair_good (plat := pa) ca sta s Hca Ha Hs) as [[[(Ec & _)] _ _] [Hti _]].
  destruct (send_accepted s id p n now out s1 h Hsend) as [Hi0 Hn0]. rewrite Ec in Hn0.
  pose proof (ti_sequence ca sta s Hti). pose proof (sf_payload ca sta Hfit).
  rewrite Eu in E. symmetry in E.
  apply frame_of_inj in E as [(_ & _ & Ei & _) El]; [by exists d|done| |done].
  unfold is_size, UINT32_MAX in *. apply (message_valid ca id _ _ _ _ n); try done;
    rewrite ?mread_length; unfold is_u32; lia.
Qed.

(** The message is sent, received by the peer, and its acknowledgement received. *)
Lemma pair_success_truthful_witness :
  let p := demo_platform (λ _, WL_SINK_SENT) in
  let s := demo_start p demo_cfg in
  let sb := link_run demo_receiving (demo_start p demo_peer_cfg) in
  let ack := mjoin (io_unit <$> take 1 (io_log sb)) in
  let sa := link_run (feed_ops 7000 ack ++ [OpPoll 1]) (wl_send_reliable s 5 100 4 0 1).1.1 in
  ∃ d, d ∈ rx_delivered sb ∧ entry_key d = (77, 0) ∧ fv_message_id (rx_view d) = 5 ∧
       rx_bytes d = [100; 101; 102; 103].
Proof.
  intros p s sb ack sa.
  apply (pair_success_truthful p p demo_cfg demo_peer_cfg demo_stg demo_stg s 5 100 4 0 1
    (wl_send_reliable s 5 100 4 0 1).1.1 65537 sa sb).
  - apply demo_typed. vm_compute. reflexivity.
  - apply demo_typed. vm_compute. reflexivity.
  - apply demo_apart.
  - apply demo_apart.
  - apply (demo_start_fair p). vm_compute. reflexivity.
  - split; vm_compute; congruence.
  - split; vm_compute; congruence.
  - apply surjective_result; vm_compute; reflexivity.
  - apply run_fairb_ok. vm_compute. reflexivity.
  - apply (demo_run_fair p); vm_compute; reflexivity.
  - apply no_inventionb_ok. vm_compute. reflexivity.
  - apply no_inventionb_ok. vm_compute. reflexivity.
  - vm_compute. reflexivity.
  - vm_compute. reflexivity.
Defined.
