(* ===== verification/LinkLease.v ===== *)
(** Who holds a received payload.  A receive event lends the application a span of
    the receive storage until it is released; the lease is identified by the
    generation that the event carries.  No operation of the library but [wl_poll]
    lends a payload, and while one is lent its generation stays. *)
From S2P Require Import Prelude Cobs Frame RxRing UnitQueue Link LinkInv.
#[local] Open Scope wl_scope.

(** A receive event that waits for the application carries the newest generation,
    and no other payload is lent. *)
Definition lease_tagged (s : wl_ctx) : Prop :=
  has_event s = true → is_rx_event (ev_type (event s)) = true →
  rx_event_leased s = false ∧ ev_lease (event s) = rx_event_generation s.

Definition is_poll (op : link_op) : bool := match op with OpPoll _ => true | _ => false end.

(** Between [s] and [s'] no payload was lent, and if one was lent it is the same. *)
Record lease_step (s s' : wl_ctx) : Prop := {
  ls_kept : rx_event_leased s' = true →
            rx_event_leased s = true ∧ rx_event_generation s' = rx_event_generation s;
  ls_tagged : lease_tagged s → lease_tagged s';
}.

#[export] Instance lease_step_refl : Reflexive lease_step.
Proof. split; auto. Qed.

#[export] Instance lease_step_trans : Transitive lease_step.
Proof.
  intros s1 s2 s3 [K1 T1] [K2 T2]. split; [|auto].
  intros H3. destruct (K2 H3) as [H2 ->]. by apply K1.
Qed.

(** What of a link the relation looks at. *)
Definition lease_view (s : wl_ctx) : bool * Z * bool * wl_event :=
  (rx_event_leased s, rx_event_generation s, has_event s, event s).

Lemma lease_view_step s s1 s2 : lease_view s2 = lease_view s1 → lease_step s s1 → lease_step s s2.
Proof.
  unfold lease_view. intros [= E1 E2 E3 E4] [K T]. split; [rewrite E1, E2; exact K|].
  unfold lease_tagged in *. rewrite E1, E2, E3, E4. exact T.
Qed.

(** Calls stay calls when a field of their result is computed. *)
#[local] Arguments wl_invalidate_tx_image : simpl never.
#[local] Arguments wl_prepare_reliable_payload : simpl never.
#[local] Arguments wl_push_tx_event : simpl never.
#[local] Arguments tx_fail : simpl never.
#[local] Arguments count_retry : simpl never.
#[local] Arguments consumed_reliable : simpl never.
#[local] Arguments consumed_cancelled : simpl never.
#[local] Arguments consumed_report : simpl never.
#[local] Arguments consume_unit : simpl never.
#[local] Arguments consume_ring : simpl never.
#[local] Arguments count_malformed : simpl never.
#[local] Arguments drop_overflow : simpl never.
#[local] Arguments wl_push_event : simpl never.
#[local] Arguments wl_submit_data : simpl never.
#[local] Arguments wl_submit_control : simpl never.
#[local] Arguments wl_feed_unit_raw : simpl never.
#[local] Arguments wl_feed_parse_stream : simpl never.

Create HintDb lease.
#[export] Hint Extern 0 (lease_step _ _) => reflexivity : lease.
#[export] Hint Extern 2 (lease_step _ _) =>
  match goal with |- lease_step _ (if ?b then _ else _) => destruct b end : lease.
#[export] Hint Extern 5 (lease_step _ _) =>
  (eapply lease_view_step; [unfold lease_view; cbn; reflexivity|]) : lease.

(** A step ends in a state that was computed: the pairs of the computation are
    opened and its branches taken, the calls by their lemmas. *)
Ltac lease_result :=
  repeat match goal with
  | |- lease_step _ (fst (if ?b then _ else _)) => destruct b
  end; cbn [fst]; eauto 5 with lease.

Ltac lease_call :=
  match goal with
  | |- lease_step ?s ?t =>
      match t with context [let '(_, _) := ?e in _] =>
      lazymatch type of e with
      | (wl_ctx * _ * _)%type =>
          let E := fresh "E" in
          assert (lease_step s e.1.1) as E by lease_result;
          destruct e as [[? ?] ?]; cbn [fst snd] in *
      | (wl_ctx * _)%type =>
          let E := fresh "E" in
          assert (lease_step s e.1) as E by lease_result;
          destruct e as [? ?]; cbn [fst snd] in *
      | _ => destruct e
      end end
  end.

Ltac lease_solve :=
  repeat first
    [ progress cbv zeta
    | lease_call
    | match goal with
      | |- lease_step _ (if ?b then _ else _) => destruct b
      | |- lease_step _ (fst (if ?b then _ else _)) => destruct b
      | |- lease_step _ (fst (fst (if ?b then _ else _))) => destruct b
      | |- lease_step _ (fst (match ?b with _ => _ end)) => destruct b
      | |- lease_step _ (fst (fst (match ?b with _ => _ end))) => destruct b
      end
    | progress cbn [fst snd]
    | solve [eauto 3 with lease]
    | progress (eapply lease_view_step; [unfold lease_view; cbn; reflexivity|]) ];
  eauto 6 with lease.

Lemma push_event_lease s s1 type i p n h :
  lease_step s s1 → lease_step s (wl_push_event s1 type i p n h).1.
Proof.
  intros E. unfold wl_push_event. destruct (has_event s1) eqn:Ee; [done|]. cbn [orb].
  destruct (is_rx_event type) eqn:Er; cbn [andb].
  - destruct (rx_event_leased s1) eqn:El; [done|]. destruct (_ || _); [done|].
    split; [cbn; by rewrite El|]. by unfold lease_tagged.
  - destruct E as [K T]. split; [exact K|]. unfold lease_tagged. cbn. by rewrite Er.
Qed.
#[export] Hint Resolve push_event_lease : lease.

Section Lease.
Context {plat : Platform}.
Implicit Types s : wl_ctx.

Lemma push_tx_event_lease s s1 type : lease_step s s1 → lease_step s (wl_push_tx_event s1 type).
Proof. intros E. unfold wl_push_tx_event. lease_solve. Qed.
Hint Resolve push_tx_event_lease : lease.

Lemma complete_unreliable_lease s s1 :
  lease_step s s1 → lease_step s (wl_complete_unreliable_tx s1).1.
Proof. intros E. unfold wl_complete_unreliable_tx. lease_solve. Qed.
Hint Resolve complete_unreliable_lease : lease.

Lemma submit_data_lease s s1 b : lease_step s s1 → lease_step s (wl_submit_data s1 b).1.
Proof. intros E. unfold wl_submit_data, sink_call. lease_solve. Qed.
Hint Resolve submit_data_lease : lease.

Lemma send_tx_payload_lease s s1  : lease_step s s1 → lease_step s (wl_send_tx_payload s1).1.
Proof. intros E. unfold wl_send_tx_payload. lease_solve. Qed.
Hint Resolve send_tx_payload_lease : lease.

Lemma invalidate_lease s s1  : lease_step s s1 → lease_step s (wl_invalidate_tx_image s1).
Proof. intros E. unfold wl_invalidate_tx_image. lease_solve. Qed.
Hint Resolve invalidate_lease : lease.

Lemma prepare_payload_lease s s1 pkt d : lease_step s s1 → lease_step s (wl_prepare_reliable_payload s1 pkt d).
Proof. intros E. unfold wl_prepare_reliable_payload. lease_solve. Qed.
Hint Resolve prepare_payload_lease : lease.

Lemma submit_control_lease s s1  : lease_step s s1 → lease_step s (wl_submit_control s1).1.
Proof. intros E. unfold wl_submit_control, sink_call. lease_solve. Qed.
Hint Resolve submit_control_lease : lease.

Lemma tx_fail_lease s s1 code type : lease_step s s1 → lease_step s (tx_fail s1 code type).
Proof. intros E. unfold tx_fail. lease_solve. Qed.
Hint Resolve tx_fail_lease : lease.

Lemma consumed_retry_lease s s1  : lease_step s s1 → lease_step s (consumed_retry s1).1.
Proof. intros E. unfold consumed_retry. lease_solve. Qed.
Hint Resolve consumed_retry_lease : lease.

Lemma count_retry_lease s s1  : lease_step s s1 → lease_step s (count_retry s1).
Proof. intros E. unfold count_retry. lease_solve. Qed.
Hint Resolve count_retry_lease : lease.

Lemma consumed_reliable_lease s s1 ok : lease_step s s1 → lease_step s (consumed_reliable s1 ok).
Proof. intros E. unfold consumed_reliable. lease_solve. Qed.
Hint Resolve consumed_reliable_lease : lease.

Lemma consumed_unreliable_lease s s1 ok : lease_step s s1 → lease_step s (consumed_unreliable s1 ok).1.
Proof. intros E. unfold consumed_unreliable. lease_solve. Qed.
Hint Resolve consumed_unreliable_lease : lease.

Lemma consumed_cancelled_lease s s1  : lease_step s s1 → lease_step s (consumed_cancelled s1).
Proof. intros E. unfold consumed_cancelled. lease_solve. Qed.
Hint Resolve consumed_cancelled_lease : lease.

Lemma consumed_report_lease s s1 t ok : lease_step s s1 → lease_step s (consumed_report s1 t ok).
Proof. intros E. unfold consumed_report. lease_solve. Qed.
Hint Resolve consumed_report_lease : lease.

Lemma tx_consumed_lease s s1 t r : lease_step s s1 → lease_step s (wl_tx_consumed s1 t r).1.
Proof. intros E. unfold wl_tx_consumed. lease_solve. Qed.
Hint Resolve tx_consumed_lease : lease.

Lemma tx_drained_lease s s1 t r : lease_step s s1 → lease_step s (wl_tx_drained s1 t r).1.
Proof. intros E. unfold wl_tx_drained. lease_solve. Qed.
Hint Resolve tx_drained_lease : lease.

Lemma send_ack_lease s s1 v : lease_step s s1 → lease_step s (wl_send_ack s1 v).1.
Proof. intros E. unfold wl_send_ack. lease_solve. Qed.
Hint Resolve send_ack_lease : lease.

Lemma handle_ack_lease s s1 v : lease_step s s1 → lease_step s (wl_handle_ack s1 v).1.
Proof. intros E. unfold wl_handle_ack. lease_solve. Qed.
Hint Resolve handle_ack_lease : lease.

Lemma send_reliable_frame_lease s s1 pkt d now : lease_step s s1 → lease_step s (send_reliable_frame s1 pkt d now).1.1.
Proof. intros E. unfold send_reliable_frame. lease_solve. Qed.
Hint Resolve send_reliable_frame_lease : lease.

Lemma send_unreliable_frame_lease s s1 pkt : lease_step s s1 → lease_step s (send_unreliable_frame s1 pkt).1.
Proof. intros E. unfold send_unreliable_frame. lease_solve. Qed.
Hint Resolve send_unreliable_frame_lease : lease.

Lemma send_frame_lease s s1 pkt r d now : lease_step s s1 → lease_step s (wl_send_frame_internal s1 pkt r d now).1.1.
Proof. intros E. unfold wl_send_frame_internal. lease_solve. Qed.
Hint Resolve send_frame_lease : lease.

Lemma send_unreliable_lease s s1 i p n : lease_step s s1 → lease_step s (wl_send_unreliable s1 i p n).1.
Proof. intros E. unfold wl_send_unreliable. lease_solve. Qed.
Hint Resolve send_unreliable_lease : lease.

Lemma send_reliable_lease s s1 i p n now out : lease_step s s1 → lease_step s (wl_send_reliable s1 i p n now out).1.1.
Proof. intros E. unfold wl_send_reliable. lease_solve. Qed.
Hint Resolve send_reliable_lease : lease.

Lemma payload_claim_lease s s1 i d : lease_step s s1 → lease_step s (wl_tx_payload_claim s1 i d).1.1.
Proof. intros E. unfold wl_tx_payload_claim. lease_solve. Qed.
Hint Resolve payload_claim_lease : lease.

Lemma payload_commit_lease s s1 c n now out : lease_step s s1 → lease_step s (wl_tx_payload_commit s1 c n now out).1.1.
Proof. intros E. unfold wl_tx_payload_commit. lease_solve. Qed.
Hint Resolve payload_commit_lease : lease.

Lemma payload_abort_lease s s1 c : lease_step s s1 → lease_step s (wl_tx_payload_abort s1 c).1.
Proof. intros E. unfold wl_tx_payload_abort. lease_solve. Qed.
Hint Resolve payload_abort_lease : lease.

Lemma peer_session_lease s s1 i :
  lease_step s s1 → lease_step s (s1 <| event := event s1 <| ev_peer_session_id := i |> |>).
Proof. intros [K T]. split; [exact K|]. intros Ht. apply T in Ht. exact Ht. Qed.

Lemma route_view_lease s s1 v : lease_step s s1 → lease_step s (wl_frame_route_view s1 v).1.
Proof.
  intros E. unfold wl_frame_route_view. lease_solve. apply send_ack_lease.
  match goal with
  | H : lease_step s ?w |- _ =>
      eapply lease_view_step; [|exact (peer_session_lease s w (fv_session_id v) H)]; reflexivity
  end.
Qed.
Hint Resolve route_view_lease : lease.

Lemma bad_frame_lease s s1 e : lease_step s s1 → lease_step s (wl_frame_bad_frame s1 e).1.
Proof. intros E. unfold wl_frame_bad_frame. lease_solve. Qed.
Hint Resolve bad_frame_lease : lease.

Lemma parse_stream_lease s s1 p n : lease_step s s1 → lease_step s (wl_feed_parse_stream s1 p n).1.
Proof. intros E. unfold wl_feed_parse_stream. lease_solve. Qed.
Hint Resolve parse_stream_lease : lease.

Lemma parse_wire_lease s s1 p n : lease_step s s1 → lease_step s (wl_feed_parse_wire s1 p n).1.
Proof. intros E. unfold wl_feed_parse_wire. lease_solve. Qed.
Hint Resolve parse_wire_lease : lease.

Lemma count_malformed_lease s s1  : lease_step s s1 → lease_step s (count_malformed s1).
Proof. intros E. unfold count_malformed. lease_solve. Qed.
Hint Resolve count_malformed_lease : lease.

Lemma feed_unit_raw_lease s s1 p n : lease_step s s1 → lease_step s (wl_feed_unit_raw s1 p n).1.
Proof. intros E. unfold wl_feed_unit_raw. lease_solve. Qed.
Hint Resolve feed_unit_raw_lease : lease.

Lemma consume_unit_lease s s1  : lease_step s s1 → lease_step s (consume_unit s1).
Proof. intros E. unfold consume_unit. lease_solve. Qed.
Hint Resolve consume_unit_lease : lease.

Lemma consume_ring_lease s s1 n : lease_step s s1 → lease_step s (consume_ring s1 n).
Proof. intros E. unfold consume_ring. lease_solve. Qed.
Hint Resolve consume_ring_lease : lease.

Lemma receive_unit_lease s s1 p n : lease_step s s1 → lease_step s (wl_frame_receive_unit s1 p n).1.
Proof. intros E. unfold wl_frame_receive_unit. lease_solve. Qed.
Hint Resolve receive_unit_lease : lease.

Lemma drop_overflow_lease s s1  : lease_step s s1 → lease_step s (drop_overflow s1).
Proof. intros E. unfold drop_overflow. lease_solve. Qed.
Hint Resolve drop_overflow_lease : lease.

Lemma process_units_lease fuel s s1 : lease_step s s1 → lease_step s (process_units_loop fuel s1).
Proof.
  revert s1. induction fuel as [|fuel IH]; intros s1 E; [done|]. cbn [process_units_loop]. lease_solve.
Qed.
Hint Resolve process_units_lease : lease.

Lemma stream_candidate_lease s s1 n s2 p :
  stream_candidate s1 n = Some (s2, p) → lease_step s s1 → lease_step s s2.
Proof.
  unfold stream_candidate. intros Ec E. split_ifs_in Ec; try done.
  - injection Ec as <- <-. lease_solve.
  - destruct (wl_rx_ring_consumer_copy _ _ _ _ _) as [m e]. destruct (is_ok e); [|done].
    injection Ec as <- <-. lease_solve.
Qed.

Lemma process_stream_lease fuel s s1 : lease_step s s1 → lease_step s (process_stream_loop fuel s1).
Proof.
  revert s1. induction fuel as [|fuel IH]; intros s1 E; [done|]. cbn [process_stream_loop]. lease_solve.
  match goal with |- context [stream_candidate ?x ?n] =>
    destruct (stream_candidate x n) as [[s2 p]|] eqn:Ec end; [|lease_solve].
  assert (lease_step s s2) as E2 by (eapply stream_candidate_lease; [exact Ec|]; lease_solve).
  lease_solve.
Qed.
Hint Resolve process_stream_lease : lease.

Lemma process_rx_lease s s1 : lease_step s s1 → lease_step s (wl_link_process_rx s1).
Proof.
  intros E. unfold wl_link_process_rx, wl_frame_process_units, wl_frame_process_stream. lease_solve.
Qed.
Hint Resolve process_rx_lease : lease.

Lemma publish_pending_lease s s1  : lease_step s s1 → lease_step s (poll_publish_pending s1).
Proof. intros E. unfold poll_publish_pending. lease_solve. Qed.
Hint Resolve publish_pending_lease : lease.

Lemma poll_receive_lease s s1  : lease_step s s1 → lease_step s (poll_receive s1).
Proof. intros E. unfold poll_receive. lease_solve. Qed.
Hint Resolve poll_receive_lease : lease.

Lemma poll_queued_lease s s1  : lease_step s s1 → lease_step s (poll_queued s1).
Proof. intros E. unfold poll_queued. lease_solve. Qed.
Hint Resolve poll_queued_lease : lease.

Lemma poll_timeout_lease s s1 now : lease_step s s1 → lease_step s (poll_timeout s1 now).
Proof. intros E. unfold poll_timeout. lease_solve. Qed.
Hint Resolve poll_timeout_lease : lease.

Lemma transport_progress_lease s s1 now : lease_step s s1 → lease_step s (wl_poll_transport_progress s1 now).
Proof. intros E. unfold wl_poll_transport_progress. lease_solve. Qed.
Hint Resolve transport_progress_lease : lease.

Lemma rx_runnable_lease s s1 : lease_step s s1 → lease_step s (wl_rx_runnable s1).1.
Proof. intros E. unfold wl_rx_runnable. lease_solve. Qed.
Hint Resolve rx_runnable_lease : lease.

Lemma readiness_lease s s1 now : lease_step s s1 → lease_step s (wl_link_get_readiness s1 now).1.1.
Proof. intros E. unfold wl_link_get_readiness. lease_solve. Qed.
Hint Resolve readiness_lease : lease.

Lemma rx_reserve_lease s s1 : lease_step s s1 → lease_step s (wl_rx_reserve s1).1.1.
Proof. intros E. unfold wl_rx_reserve. lease_solve. Qed.
Hint Resolve rx_reserve_lease : lease.

Lemma rx_commit_lease s s1 n : lease_step s s1 → lease_step s (wl_rx_commit s1 n).1.
Proof. intros E. unfold wl_rx_commit. lease_solve. Qed.
Hint Resolve rx_commit_lease : lease.

Lemma feed_bytes_loop_lease fuel s s1 p n a :
  lease_step s s1 → lease_step s (feed_bytes_loop fuel s1 p n a).1.1.
Proof.
  revert s1 a. induction fuel as [|fuel IH]; intros s1 a E; [done|]. cbn [feed_bytes_loop]. lease_solve.
Qed.
Hint Resolve feed_bytes_loop_lease : lease.

Lemma feed_bytes_lease s s1 p n : lease_step s s1 → lease_step s (wl_feed_bytes s1 p n).1.1.
Proof.
  intros E. unfold wl_feed_bytes, note_ring_overflow. lease_solve.
Qed.
Hint Resolve feed_bytes_lease : lease.

Lemma feed_unit_lease s s1 p n : lease_step s s1 → lease_step s (wl_feed_unit s1 p n).1.
Proof. intros E. unfold wl_feed_unit. lease_solve. Qed.
Hint Resolve feed_unit_lease : lease.

Lemma event_release_lease s s1 ev : lease_step s s1 → lease_step s (wl_event_release s1 ev).
Proof.
  intros E. unfold wl_event_release. destruct (negb _); [done|].
  destruct (_ && _); [|done]. apply (lease_view_step s (s1 <| rx_event_leased := false |>)).
  - destruct (negb _); [destruct (bool_decide _)|]; reflexivity.
  - destruct E as [_ T]. split; [done|]. intros Ht Hh Hr. split; [done|].
    by apply T in Ht; destruct (Ht Hh Hr).
Qed.
Hint Resolve event_release_lease : lease.

(** Every operation but [wl_poll]. *)
Lemma link_step_lease s op : is_poll op = false → lease_step s (link_step op s).
Proof.
  intros Hp. destruct op; try discriminate Hp; cbn [link_step]; eauto 3 with lease.
  all: unfold wl_set_sink, wl_set_tx_drain_required, wl_tx_writable, wl_tx_cancel, wl_tx_take,
    wl_rx_dma_claim, wl_rx_dma_publish, wl_rx_dma_finish, wl_rx_dma_abort, wl_rx_note_overflow,
    note_ring_overflow, wl_feed_recover_reset, link_unit_queue_init, link_unit_claim,
    link_unit_commit, link_unit_abort; lease_solve.
Qed.

Lemma poll_progress_lease s now (b : bool) :
  lease_step s (if b then wl_poll_transport_progress (s <| now_ms := now |>) now
                else s <| now_ms := now |>).
Proof. destruct b; eauto 4 with lease. Qed.

(** [wl_poll] lends the payload of the receive event it returns, under the lease the
    event carries; otherwise it lends nothing. *)
Lemma poll_lends s now s' e ev :
  wl_poll s now = (s', e, ev) → lease_tagged s →
  lease_tagged s' ∧
  (e = WL_OK → is_rx_event (ev_type ev) = true →
     rx_event_leased s' = true ∧ ev_lease ev = rx_event_generation s') ∧
  (e ≠ WL_OK ∨ is_rx_event (ev_type ev) = false →
     rx_event_leased s' = true → rx_event_leased s = true).
Proof.
  unfold wl_poll. destruct (negb (initialized s)); [by intros [= <- <- <-] Ht|].
  match goal with |- context [if ?b then wl_poll_transport_progress ?x ?n else _] =>
    pose proof (poll_progress_lease s now b) as E1;
    set (s1 := if b then wl_poll_transport_progress x n else x) in *; clearbody s1 end.
  match goal with |- context [if negb (has_event ?x) then (_, _, _) else _] => set (s2 := x) end.
  assert (lease_step s s2) as [K T] by (unfold s2; lease_solve). clearbody s2.
  intros Hp Ht. apply T in Ht. destruct (has_event s2) eqn:Eh; cbn [negb] in Hp.
  2: { injection Hp as <- <- <-. split; [done|]. split; [done|]. intros _ Hl. by apply K. }
  injection Hp as <- <- <-. specialize (Ht Eh).
  destruct (is_rx_event (ev_type (event s2))) eqn:Er.
  - destruct (Ht eq_refl) as [Hl Hg]. split; [by intros [=]|]. split; [done|]. by intros [?|?].
  - split; [by intros [=]|]. split; [done|]. intros _ Hl. by apply K.
Qed.

Lemma init_tagged s0 c st s : wl_init s0 c st = (s, WL_OK) → lease_tagged s.
Proof.
  unfold wl_init. intros Hw.
  destruct (wl_config_requirements c) as [e|rq] eqn:Ec.
  { apply requirements_error in Ec. congruence. }
  destruct (_ || _); [done|]. destruct (_ || _); [done|].
  match type of Hw with context [let (_, _) := ?e in _] => destruct e as [r ret] end.
  destruct (negb (is_ok ret)); [done|]. by injection Hw as <-.
Qed.

Lemma reachable_tagged c st s : link_reachable c st s → lease_tagged s.
Proof.
  induction 1 as [s0 s Hi _ _ _|s op _ IH]; [by eapply init_tagged|].
  destruct (is_poll op) eqn:Hp.
  - destruct op; try discriminate Hp. cbn [link_step]. destruct (wl_poll s now) as [[s' e] ev] eqn:E. by apply poll_lends in E as [? _].
  - by apply (link_step_lease s op).
Qed.
End Lease.
