(* ===== verification/Pump.v ===== *)
(** The owner pass of [pump.c]: one bounded round of adapter service, protocol
    events and application work over a link, and the merged readiness from which
    the owner decides how long it may sleep.

    The callbacks of [wl_pump_hooks_t] are code outside the library.  They appear
    as function pointers that [PumpCode] interprets on the link and on a world [W]
    of everything else they can reach. *)
From stdpp Require Import relations.
From S2P Require Import Prelude Cobs Frame RxRing UnitQueue Link LinkInv LinkProps LinkReady LinkMem LinkSteps LinkData LinkTrace LinkFair LinkDelivery LinkLease.
#[local] Open Scope wl_scope.

(** ** Readiness values ([link.h]) *)

Definition wl_readiness_idle : wl_readiness := mk_readiness false WL_NO_DEADLINE false.

Definition wl_readiness_at (deadline : Z) : wl_readiness :=
  mk_readiness (deadline =? 0) deadline (negb (deadline =? WL_NO_DEADLINE)).

Definition wl_readiness_merge (value source : wl_readiness) : wl_readiness :=
  mk_readiness (runnable value || runnable source)
    (if next_deadline_ms source <? next_deadline_ms value
     then next_deadline_ms source else next_deadline_ms value)
    (blocked value || blocked source).

(** ** Hooks and results ([pump.h]) *)

Inductive pump_disposition :=
  | WL_PUMP_EVENT_UNHANDLED
  | WL_PUMP_EVENT_CONSUMED
  | WL_PUMP_EVENT_LEASED.

#[export] Instance pump_disposition_eq_dec : EqDecision pump_disposition.
Proof. solve_decision. Defined.

(** [wl_pump_hooks_t] over function pointers [F]; [None] is a null pointer. *)
Record pump_hooks (F : Type) := mk_pump_hooks {
  hk_adapter_user_data : Z;
  hk_service : option F;
  hk_quiesce : option F;
  hk_adapter_readiness : option F;
  hk_application_user_data : Z;
  hk_application_step : option F;
  hk_application_readiness : option F;
  hk_on_event : option F;
}.
Arguments mk_pump_hooks {F}.
Arguments hk_adapter_user_data {F}.
Arguments hk_service {F}.
Arguments hk_quiesce {F}.
Arguments hk_adapter_readiness {F}.
Arguments hk_application_user_data {F}.
Arguments hk_application_step {F}.
Arguments hk_application_readiness {F}.
Arguments hk_on_event {F}.

(** What calling a function pointer does, by the type it is called at.  A readiness
    callback takes its arguments as constants. *)
Class PumpCode (F W : Type) := {
  call_service : F → Z → wl_ctx → W → wl_ctx * W * Z;
  call_quiesce : F → Z → wl_ctx → W → wl_ctx * W;
  call_readiness : F → Z → wl_ctx → W → Z → wl_readiness;
  call_step : F → Z → wl_ctx → W → Z → wl_ctx * W * bool;
  call_event : F → Z → wl_ctx → W → wl_event → Z → wl_ctx * W * pump_disposition;
}.

Record pump_result := mk_pump_result {
  pr_events : Z;
  pr_rx_events : Z;
  pr_polls : Z;
  pr_services : Z;
  pr_poll_errors : Z;
  pr_service_errors : Z;
  pr_service_result : Z;
  pr_poll_result : wl_err;
  pr_did_work : bool;
}.

#[export] Instance pump_result_rebuild : Rebuild pump_result := λ r,
  mk_pump_result (pr_events r) (pr_rx_events r) (pr_polls r) (pr_services r) (pr_poll_errors r)
    (pr_service_errors r) (pr_service_result r) (pr_poll_result r) (pr_did_work r).

(** ** The pass *)

Definition service_result_expected (result : Z) : bool :=
  (result =? wl_err_code WL_OK) || (result =? wl_err_code WL_ERR_NO_DATA) ||
  (result =? wl_err_code WL_ERR_WOULD_BLOCK).

Definition is_terminal_tx_event (type : wl_event_type) : bool :=
  match type with
  | WL_EVT_TX_SUCCESS | WL_EVT_TX_TIMEOUT | WL_EVT_TX_FAILED => true
  | _ => false
  end.

Section Pump.
Context {plat : Platform} {F W : Type} {code : PumpCode F W}.

(** The result before anything was done. *)
Definition pump_result_start : pump_result :=
  mk_pump_result 0 0 0 0 0 0 (wl_err_code WL_ERR_NO_DATA) WL_ERR_NO_DATA false.

Definition hooks_invalid (hooks : pump_hooks F) : bool :=
  (bool_decide (is_Some (hk_service hooks)) && bool_decide (hk_adapter_readiness hooks = None)) ||
  (bool_decide (is_Some (hk_application_step hooks)) &&
   bool_decide (hk_application_readiness hooks = None)).

(** The readiness of a hook; a null hook has nothing to run. *)
Definition hook_runnable (f : option F) (user_data : Z) (s : wl_ctx) (w : W) (now : Z) : bool :=
  match f with Some f => runnable (call_readiness f user_data s w now) | None => false end.

Definition pump_service (hooks : pump_hooks F) (s : wl_ctx) (w : W) (now : Z) (r : pump_result)
    : wl_ctx * W * pump_result :=
  match hk_service hooks with
  | Some f =>
      if hook_runnable (hk_adapter_readiness hooks) (hk_adapter_user_data hooks) s w now then
        let r := r <| pr_services := usize (pr_services r + 1) |> in
        let '(s, w, result) := call_service f (hk_adapter_user_data hooks) s w in
        let r := r <| pr_service_result := result |>
                   <| pr_did_work := pr_did_work r || (result =? wl_err_code WL_OK) |> in
        (s, w, if negb (service_result_expected result) then r <| pr_service_errors := 1 |> else r)
      else (s, w, r)
  | None => (s, w, r)
  end.

(** [hooks->on_event], whose disposition stays [UNHANDLED] without the hook. *)
Definition pump_dispatch (hooks : pump_hooks F) (s : wl_ctx) (w : W) (ev : wl_event) (now : Z)
    : wl_ctx * W * pump_disposition :=
  match hk_on_event hooks with
  | Some f => call_event f (hk_application_user_data hooks) s w ev now
  | None => (s, w, WL_PUMP_EVENT_UNHANDLED)
  end.

(** What a polled event is followed by. *)
Definition pump_event (hooks : pump_hooks F) (s : wl_ctx) (w : W) (ev : wl_event) (now : Z)
    : wl_ctx * W :=
  if is_rx_event (ev_type ev) then
    let '(s, w, d) := pump_dispatch hooks s w ev now in
    (if bool_decide (d = WL_PUMP_EVENT_UNHANDLED) then wl_event_release s ev else s, w)
  else if negb (is_terminal_tx_event (ev_type ev)) || (ev_handle ev =? 0) then (s, w)
  else
    let '(s, w, d) := pump_dispatch hooks s w ev now in
    (if bool_decide (d = WL_PUMP_EVENT_UNHANDLED) then (wl_tx_take s (ev_handle ev)).1 else s, w).

(** The loop over the event budget. *)
Fixpoint pump_events (budget : nat) (hooks : pump_hooks F) (s : wl_ctx) (w : W) (now : Z)
    (r : pump_result) : wl_ctx * W * pump_result :=
  match budget with
  | O => (s, w, r)
  | S budget =>
      let '(s, ret, hint) := wl_link_get_readiness s now in
      if negb (is_ok ret) || negb (runnable hint) then (s, w, r)
      else
        let r := r <| pr_polls := usize (pr_polls r + 1) |> in
        let '(s, poll_result, ev) := wl_poll s now in
        let r := r <| pr_poll_result := poll_result |> in
        if bool_decide (poll_result = WL_ERR_NO_DATA) then (s, w, r <| pr_did_work := true |>)
        else if negb (is_ok poll_result) then (s, w, r <| pr_poll_errors := 1 |>)
        else
          let r := r <| pr_events := usize (pr_events r + 1) |> <| pr_did_work := true |> in
          let r := if is_rx_event (ev_type ev)
                   then r <| pr_rx_events := usize (pr_rx_events r + 1) |> else r in
          let '(s, w) := pump_event hooks s w ev now in
          pump_events budget hooks s w now r
  end.

Definition pump_application (hooks : pump_hooks F) (s : wl_ctx) (w : W) (now : Z) (r : pump_result)
    : wl_ctx * W * pump_result :=
  match hk_application_step hooks with
  | Some f =>
      if hook_runnable (hk_application_readiness hooks) (hk_application_user_data hooks) s w now then
        let '(s, w, worked) := call_step f (hk_application_user_data hooks) s w now in
        (s, w, if worked then r <| pr_did_work := true |> else r)
      else (s, w, r)
  | None => (s, w, r)
  end.

(** Null [hooks] behave as hooks that are all null. *)
Definition wl_pump_step (s : wl_ctx) (w : W) (now event_budget : Z) (hooks : pump_hooks F)
    : wl_ctx * W * (wl_err + pump_result) :=
  if (event_budget =? 0) || hooks_invalid hooks then (s, w, inl WL_ERR_INVALID_ARG)
  else if negb (initialized s) then (s, w, inl WL_ERR_NOT_INITIALIZED)
  else
    let s := s <| now_ms := now |> in
    let '(s, w, r) := pump_service hooks s w now pump_result_start in
    let '(s, w, r) := pump_events (Z.to_nat event_budget) hooks s w now r in
    let '(s, w, r) := pump_application hooks s w now r in
    (s, w, inr r).

Definition merge_hook (f : option F) (user_data : Z) (s : wl_ctx) (w : W) (now : Z)
    (hint : wl_readiness) : wl_readiness :=
  match f with
  | Some f => wl_readiness_merge hint (call_readiness f user_data s w now)
  | None => hint
  end.

Definition wl_pump_get_readiness (s : wl_ctx) (w : W) (now : Z) (hooks : pump_hooks F)
    : wl_ctx * wl_err * wl_readiness :=
  let '(s, result, hint) := wl_link_get_readiness s now in
  if negb (is_ok result) then (s, result, hint)
  else
    let hint := merge_hook (hk_application_readiness hooks) (hk_application_user_data hooks) s w now
                  hint in
    (s, WL_OK, merge_hook (hk_adapter_readiness hooks) (hk_adapter_user_data hooks) s w now hint).

Definition wl_pump_quiesce (hooks : pump_hooks F) (s : wl_ctx) (w : W) : wl_ctx * W :=
  match hk_quiesce hooks with
  | Some f => call_quiesce f (hk_adapter_user_data hooks) s w
  | None => (s, w)
  end.
End Pump.

(** ** Sleeping *)

Section Sleep.
Context {plat : Platform}.

Lemma rx_runnable_again s :
  (wl_rx_runnable s).2 = false → (wl_rx_runnable (wl_rx_runnable s).1).2 = false.
Proof.
  unfold wl_rx_runnable, stream_link. destruct (rx_event_leased s) eqn:El; [cbn; by rewrite El|].
  destruct (_ =? WL_ENVELOPE_COBS_STREAM) eqn:Es; [|cbn; by rewrite El, Es].
  destruct (wl_rx_ring_consumer_overflow_pending _) eqn:Eo; [done|].
  pose proof (find_core (lmem s) (rx_ring s) 0) as Hc. pose proof (find_again (lmem s) (rx_ring s)) as Ha.
  destruct (wl_rx_ring_consumer_find _ _ _) as [[r e] o]. cbn in Hc, Ha. unfold is_ok.
  case_bool_decide as Ee; [done|]. specialize (Ha Ee). cbn. intros Hu.
  rewrite El, Es, (overflow_pending_core _ _ Hc), Eo.
  destruct (wl_rx_ring_consumer_find (lmem s) r 0) as [[r' e'] o']. cbn in Ha.
  by rewrite bool_decide_eq_false_2.
Qed.

(** The readiness of a link, given what the search of the input found. *)
Definition readiness_from (s : wl_ctx) (now : Z) (run : bool) : wl_readiness :=
  let turn := tx_writable s && negb (tx_inflight s) && negb (control_inflight s)
              && negb (tx_drain_pending s) && negb (tx_claim_active s) in
  let waiting := control_pending s || tx_queued s in
  let block := (waiting && negb turn) || tx_inflight s || control_inflight s
               || tx_drain_pending s || rx_event_leased s || tx_claim_active s in
  if negb (control_pending s) && negb (tx_inflight s) && negb (tx_queued s)
     && negb (tx_claim_active s) && (tx_state s ==? WL_TX_STATE_WAITING_ACK)
     && (tx_wait_state s ==? WL_TX_WAIT_ACK) && negb (ack_timeout_ms (config s) =? 0)
  then
    let elapsed := u32 (now - tx_start_ts s) in
    if elapsed >=? ack_timeout_ms (config s) then mk_readiness true 0 block
    else mk_readiness (run || (waiting && turn)) (ack_timeout_ms (config s) - elapsed) true
  else mk_readiness (run || (waiting && turn)) WL_NO_DEADLINE block.

Definition readiness_probe (s : wl_ctx) : wl_ctx * bool :=
  if has_event s || negb (tx_unreliable_completions s =? 0)
     || (negb (tx_pending_event s ==? WL_EVT_NONE) && negb (tx_inflight s && in_flight_reliable s))
  then (s, true)
  else if control_pending s then (s, false) else wl_rx_runnable s.

Lemma readiness_probe_ring s :
  ∃ r, (readiness_probe s).1 = s <| rx_ring := r |> ∧ ring_core r = ring_core (rx_ring s).
Proof.
  unfold readiness_probe. assert (s = s <| rx_ring := rx_ring s |>) as Es by by destruct s.
  destruct (_ || _); [by exists (rx_ring s)|]. destruct (control_pending s); [by exists (rx_ring s)|].
  apply rx_runnable_ring.
Qed.

Lemma readiness_eq s now :
  initialized s = true →
  wl_link_get_readiness s now =
    ((readiness_probe s).1, WL_OK, readiness_from s now (readiness_probe s).2).
Proof.
  intros Hi. unfold wl_link_get_readiness. rewrite Hi. cbn [negb].
  destruct (readiness_probe_ring s) as (r & Er & _). fold (readiness_probe s).
  destruct (readiness_probe s) as [s1 run]. cbn [fst snd] in *. subst s1. unfold readiness_from. cbn.
  destruct (_ && _); [destruct (_ >=? _)|]; reflexivity.
Qed.

(** The same link at another time, up to the cache of the delimiter search. *)
Definition same_link (s s' : wl_ctx) : Prop :=
  ∃ now r, s' = s <| now_ms := now |> <| rx_ring := r |> ∧ ring_core r = ring_core (rx_ring s).

Lemma same_link_trans s1 s2 s3 : same_link s1 s2 → same_link s2 s3 → same_link s1 s3.
Proof.
  intros (n1 & r1 & -> & C1) (n2 & r2 & -> & C2). exists n2, r2. split; [done|].
  cbn in C2. by rewrite C2.
Qed.

Lemma same_link_time s now : same_link s (s <| now_ms := now |>).
Proof. exists now, (rx_ring s). split; [by destruct s|done]. Qed.

Lemma readiness_probe_time s now :
  readiness_probe (s <| now_ms := now |>) =
    ((readiness_probe s).1 <| now_ms := now |>, (readiness_probe s).2).
Proof.
  unfold readiness_probe. cbn. destruct (has_event s || _ || _); [done|].
  destruct (control_pending s); [done|]. apply rx_runnable_time.
Qed.

Lemma readiness_probe_again s :
  (readiness_probe s).2 = false → (readiness_probe (readiness_probe s).1).2 = false.
Proof.
  intros Hf. destruct (readiness_probe_ring s) as (r & Er & _). rewrite Er. revert Er Hf.
  unfold readiness_probe. cbn. destruct (has_event s || _ || _); [done|].
  destruct (control_pending s); [done|]. intros <- Hf. by apply rx_runnable_again.
Qed.

(** A link that has nothing to run has nothing to run before its deadline. *)
Lemma readiness_stays s now s1 hint later :
  initialized s = true → is_u32 (ack_timeout_ms (config s)) →
  wl_link_get_readiness s now = (s1, WL_OK, hint) → runnable hint = false →
  u32 (later - now) < next_deadline_ms hint →
  ∃ s2 hint', wl_link_get_readiness (s1 <| now_ms := later |>) later = (s2, WL_OK, hint') ∧
    runnable hint' = false ∧ same_link s1 s2 ∧ now_ms s2 = later.
Proof.
  intros Hi Ha. rewrite readiness_eq by done. intros [= <- <-] Hr Hl.
  assert ((readiness_probe ((readiness_probe s).1 <| now_ms := later |>)).2 =
    (readiness_probe (readiness_probe s).1).2) as Hp by by rewrite readiness_probe_time.
  pose proof (readiness_probe_again s) as Ha'.
  destruct (readiness_probe_ring s) as (r & Er & Hc). rewrite Er in Hp, Ha' |- *.
  set (s1 := s <| rx_ring := r |> <| now_ms := later |>) in *.
  destruct (readiness_probe_ring s1) as (r' & Er' & Hc').
  exists (readiness_probe s1).1, (readiness_from s1 later (readiness_probe s1).2).
  split; [by apply readiness_eq|]. rewrite Er'. split; [|by split; [exists later, r'|]].
  change (readiness_from s1 later) with (readiness_from s later). rewrite Hp.
  clear -Ha Ha' Hr Hl. revert Ha' Hr Hl. generalize (readiness_probe (s <| rx_ring := r |>)).2.
  generalize (readiness_probe s).2. intros run run' Ha'. unfold readiness_from.
  destruct (negb (control_pending s) && _ && _ && _ && _ && _ && _).
  - destruct (_ >=? _) eqn:Et; [done|]. cbn. intros Hr Hl.
    apply orb_false_iff in Hr as [Hr Hw]. rewrite (Ha' Hr).
    pose proof (u32_deadline now (tx_start_ts s) later _ Ha Hl).
    destruct (u32 (later - tx_start_ts s) >=? _) eqn:Et'; [lia|]. exact Hw.
  - cbn. intros Hr _. apply orb_false_iff in Hr as [Hr Hw]. by rewrite (Ha' Hr).
Qed.

Context {F W : Type} {code : PumpCode F W}.

(** What the library relies on of a readiness callback: when it has nothing to run,
    it has nothing to run before the deadline it gives, as long as nobody acts.  The
    world in which the pass starts is [w']. *)
Definition sleeps (f : option F) (user_data : Z) (w w' : W) : Prop :=
  ∀ g s s' now later, f = Some g → same_link s s' →
    runnable (call_readiness g user_data s w now) = false →
    u32 (later - now) < next_deadline_ms (call_readiness g user_data s w now) →
    runnable (call_readiness g user_data s' w' later) = false.

Lemma merge_hook_idle f u s w now hint :
  runnable (merge_hook f u s w now hint) = false →
  runnable hint = false ∧ next_deadline_ms (merge_hook f u s w now hint) <= next_deadline_ms hint ∧
  ∀ g, f = Some g → runnable (call_readiness g u s w now) = false ∧
    next_deadline_ms (merge_hook f u s w now hint) <= next_deadline_ms (call_readiness g u s w now).
Proof.
  unfold merge_hook, wl_readiness_merge. destruct f as [g|]; cbn; [|intros; split_and!; [done|lia|done]].
  intros [Hh Hg]%orb_false_iff.
  split_and!; [done|destruct (_ <? _) eqn:?; lia|]. intros g' [= <-]. split; [done|].
  destruct (_ <? _) eqn:?; lia.
Qed.

Lemma hook_sleeps f u s s' w w' now later :
  sleeps f u w w' → same_link s s' →
  (∀ g, f = Some g → runnable (call_readiness g u s w now) = false ∧
     u32 (later - now) < next_deadline_ms (call_readiness g u s w now)) →
  hook_runnable f u s' w' later = false.
Proof.
  unfold hook_runnable. destruct f as [g|]; [|done]. intros Hs Hl Hg.
  destruct (Hg g eq_refl). by eapply Hs.
Qed.

(** An owner that sleeps as the pump allows misses nothing.  When the merged readiness
    says that nothing is runnable, a pass at any time before the merged deadline
    calls neither the adapter nor the application, polls nothing, and leaves the link
    as it was but for its clock and the cache of the delimiter search; the readiness
    callbacks are only relied on to keep their own promise. *)
Lemma pump_sleep_safe s w w' now hooks s1 hint later budget :
  initialized s = true → is_u32 (ack_timeout_ms (config s)) →
  hooks_invalid hooks = false → 0 < budget →
  sleeps (hk_adapter_readiness hooks) (hk_adapter_user_data hooks) w w' →
  sleeps (hk_application_readiness hooks) (hk_application_user_data hooks) w w' →
  wl_pump_get_readiness s w now hooks = (s1, WL_OK, hint) → runnable hint = false →
  u32 (later - now) < next_deadline_ms hint →
  ∃ s2, wl_pump_step s1 w' later budget hooks = (s2, w', inr pump_result_start) ∧
        same_link s1 s2 ∧ now_ms s2 = later.
Proof.
  intros Hi Ha Hh Hb Had Hap. unfold wl_pump_get_readiness.
  destruct (wl_link_get_readiness s now) as [[s0 e] h] eqn:El.
  pose proof El as El'. rewrite readiness_eq in El' by done. injection El' as E0 <- _.
  change (is_ok WL_OK) with true. intros [= <- <-] Hr Hl.
  apply merge_hook_idle in Hr as (Hr & Hd & Hg). apply merge_hook_idle in Hr as (Hr & Hd' & Hg').
  destruct (readiness_stays s now s0 h later Hi Ha El Hr) as (s2 & h' & E2 & Hr2 & Hs2 & Hn2); [lia|].
  exists s2. split; [|done]. unfold wl_pump_step. rewrite Hh.
  assert (initialized s0 = true) as ->.
  { rewrite <- E0. by destruct (readiness_probe_ring s) as (r & -> & _). }
  destruct (Z.eqb_spec budget 0) as [->|_]; [lia|]. cbn [orb negb].
  assert (pump_service hooks (s0 <| now_ms := later |>) w' later pump_result_start =
    (s0 <| now_ms := later |>, w', pump_result_start)) as ->.
  { unfold pump_service. destruct (hk_service hooks); [|done].
    rewrite (hook_sleeps _ _ s0 _ w w' now later Had (same_link_time s0 later)); [done|].
    intros g Eg. destruct (Hg g Eg). split; [done|lia]. }
  destruct (Z.to_nat budget) as [|n] eqn:En; [lia|]. cbn [pump_events]. rewrite E2.
  change (is_ok WL_OK) with true. rewrite Hr2. cbn [negb orb].
  unfold pump_application. destruct (hk_application_step hooks); [|done].
  rewrite (hook_sleeps _ _ s0 _ w w' now later Hap Hs2); [done|].
  intros g Eg. destruct (Hg' g Eg). split; [done|lia].
Qed.
End Sleep.

(** ** The pass as a run of the link *)

Section Pass.
Context {plat : Platform} {F W : Type} {code : PumpCode F W}.
Implicit Types s : wl_ctx.

(** A callback uses the link fairly and leaves polling to the pump. *)
Definition callback_run : relation wl_ctx :=
  rtc (λ s s', ∃ op, op_fair s op ∧ is_poll op = false ∧ s' = link_step op s).

Lemma callback_fair s s' : callback_run s s' → fair_run s s'.
Proof.
  induction 1 as [|s1 s2 s3 (op & Ho & _ & ->) _ IH]; [done|]. eapply rtc_l; [|exact IH]. by exists op.
Qed.

Lemma callback_lease s s' : callback_run s s' → lease_step s s'.
Proof.
  induction 1 as [|s1 s2 s3 (op & _ & Hp & ->) _ IH]; [done|]. etrans; [|exact IH].
  by apply link_step_lease.
Qed.

(** A payload that is lent is one the application holds. *)
Definition settled (holds : W → Prop) (s : wl_ctx) (w : W) : Prop :=
  rx_event_leased s = true → holds w.

(** What an event obliges the owner to: a received payload is released unless the
    application holds it, and the outcome of a transmission is collected. *)
Definition discharged (holds : W → Prop) (ev : wl_event) (s : wl_ctx) (w : W) : Prop :=
  if is_rx_event (ev_type ev) then settled holds s w
  else is_terminal_tx_event (ev_type ev) = true → wl_tx_can_take s (ev_handle ev) = false.

(** The contract of [wl_pump_hooks_t].  An event callback answers [CONSUMED] only
    after it released the receive event or took the handle of the transmission, and
    [LEASED] only when the application holds the payload from then on; the other
    callbacks do not forget a payload that the application holds. *)
Record pump_laws (hooks : pump_hooks F) (holds : W → Prop) : Prop := {
  pl_service f s w s' w' r :
    hk_service hooks = Some f → call_service f (hk_adapter_user_data hooks) s w = (s', w', r) →
    callback_run s s' ∧ (settled holds s w → settled holds s' w');
  pl_step f s w now s' w' r :
    hk_application_step hooks = Some f →
    call_step f (hk_application_user_data hooks) s w now = (s', w', r) →
    callback_run s s' ∧ (settled holds s w → settled holds s' w');
  pl_event f s w ev now s' w' d :
    hk_on_event hooks = Some f →
    call_event f (hk_application_user_data hooks) s w ev now = (s', w', d) →
    callback_run s s' ∧ (d ≠ WL_PUMP_EVENT_UNHANDLED → discharged holds ev s' w') ∧
    (is_rx_event (ev_type ev) = false → settled holds s w → settled holds s' w');
}.

Context (c : wl_config) (st : wl_storage) (Hretries : is_u16 (max_retries c)).
Context (hooks : pump_hooks F) (holds : W → Prop) (Hlaws : pump_laws hooks holds).

(** What a stretch of the pass keeps. *)
Definition pass (s : wl_ctx) (w : W) (s' : wl_ctx) (w' : W) : Prop :=
  fair_run s s' ∧ (settled holds s w → settled holds s' w').

Lemma pass_trans s1 w1 s2 w2 s3 w3 : pass s1 w1 s2 w2 → pass s2 w2 s3 w3 → pass s1 w1 s3 w3.
Proof. intros [R1 H1] [R2 H2]. split; [by etrans|auto]. Qed.

Lemma pass_refl s w : pass s w s w.
Proof. by split. Qed.

Lemma pass_op s w op : op_fair s op → is_poll op = false → pass s w (link_step op s) w.
Proof.
  intros Ho Hp. split; [apply rtc_once; by exists op|]. intros Hs Hl.
  apply Hs, (ls_kept _ _ (link_step_lease s op Hp) Hl).
Qed.

Lemma service_pass s w now r s' w' r' :
  pump_service hooks s w now r = (s', w', r') → pass s w s' w'.
Proof.
  unfold pump_service. destruct (hk_service hooks) as [f|] eqn:Ef; [|intros [= <- <- _]; apply pass_refl].
  destruct (hook_runnable _ _ _ _ _); [|intros [= <- <- _]; apply pass_refl].
  destruct (call_service _ _ _ _) as [[s1 w1] res] eqn:Ec. intros [= <- <- _].
  destruct (pl_service _ _ Hlaws _ _ _ _ _ _ Ef Ec) as [Hr Hh]. split; [by apply callback_fair|done].
Qed.

Lemma application_pass s w now r s' w' r' :
  pump_application hooks s w now r = (s', w', r') → pass s w s' w'.
Proof.
  unfold pump_application.
  destruct (hk_application_step hooks) as [f|] eqn:Ef; [|intros [= <- <- _]; apply pass_refl].
  destruct (hook_runnable _ _ _ _ _); [|intros [= <- <- _]; apply pass_refl].
  destruct (call_step _ _ _ _ _) as [[s1 w1] res] eqn:Ec. intros [= <- <- _].
  destruct (pl_step _ _ Hlaws _ _ _ _ _ _ _ Ef Ec) as [Hr Hh]. split; [by apply callback_fair|done].
Qed.

Lemma dispatch_run s w ev now s' w' d :
  pump_dispatch hooks s w ev now = (s', w', d) →
  callback_run s s' ∧ (d ≠ WL_PUMP_EVENT_UNHANDLED → discharged holds ev s' w') ∧
  (is_rx_event (ev_type ev) = false → settled holds s w → settled holds s' w').
Proof.
  unfold pump_dispatch. destruct (hk_on_event hooks) as [f|] eqn:Ef.
  - intros Ec. by apply (pl_event _ _ Hlaws _ _ _ _ _ _ _ _ Ef Ec).
  - intros [= <- <- <-]. done.
Qed.

(** A handle that was taken, or could not be, cannot be taken again. *)
Lemma take_final s h : wl_tx_can_take (wl_tx_take s h).1 h = false.
Proof.
  unfold wl_tx_take. destruct (initialized s) eqn:E1; cbn [negb fst];
    [|unfold wl_tx_can_take; by rewrite E1].
  destruct (_ || _) eqn:E2.
  { apply orb_true_iff in E2 as [E|E%negb_true_iff]; unfold wl_tx_can_take; cbn [fst]; rewrite E;
      cbn [negb]; by rewrite ?andb_false_r. }
  destruct (tx_inflight s && in_flight_reliable s || negb (tx_terminal s)) eqn:E3.
  { apply orb_true_iff in E3 as [E|E%negb_true_iff]; unfold wl_tx_can_take; cbn [fst]; rewrite E;
      cbn [negb]; by rewrite ?andb_false_r. }
  unfold wl_tx_can_take. cbn. destruct (h =? 0); by rewrite ?andb_false_r.
Qed.

Lemma fair_initialized s : link_fair c st s → initialized s = true.
Proof.
  intros Hf. destruct (reachable_inv c st s Hretries (fair_reachable c st s Hf)) as [Hi _].
  exact (ti_init c st s Hi).
Qed.

Lemma release_frees s ev :
  initialized s = true → is_rx_event (ev_type ev) = true →
  (rx_event_leased s = true → ev_lease ev = rx_event_generation s) →
  rx_event_leased (wl_event_release s ev) = false.
Proof.
  intros Hi Hr Hg. unfold wl_event_release. rewrite Hi, Hr. cbn [negb andb].
  destruct (rx_event_leased s) eqn:El; [|by cbn]. rewrite (Hg eq_refl), Z.eqb_refl. cbn [andb].
  destruct (negb _); [destruct (bool_decide _)|]; reflexivity.
Qed.

(** After the pump has dealt with an event nothing of it is left to the owner. *)
Lemma event_pass s w ev now s' w' :
  link_fair c st s →
  (is_rx_event (ev_type ev) = true →
     rx_event_leased s = true ∧ ev_lease ev = rx_event_generation s) →
  (is_rx_event (ev_type ev) = false → settled holds s w) →
  pump_event hooks s w ev now = (s', w') →
  fair_run s s' ∧ settled holds s' w' ∧ discharged holds ev s' w'.
Proof.
  intros Hf Hrx Htx. unfold pump_event, discharged.
  destruct (pump_dispatch hooks s w ev now) as [[s1 w1] d] eqn:Ed.
  apply dispatch_run in Ed as (Hr & Hd & Hk). pose proof (callback_fair _ _ Hr) as Hrun.
  unfold discharged in Hd. destruct (is_rx_event (ev_type ev)) eqn:Er.
  - intros [= <- <-]. case_bool_decide as Eu; [|split_and!; [done|by apply Hd..]].
    split; [etrans; [exact Hrun|apply rtc_once; by exists (OpRelease ev)]|].
    assert (settled holds (wl_event_release s1 ev) w1) as Hset; [|done].
    intros Hl. rewrite release_frees in Hl; [done|..|done|].
    + apply fair_initialized. by eapply run_fair.
    + intros Hl1. destruct (Hrx eq_refl) as [_ ->]. symmetry.
      by apply (ls_kept _ _ (callback_lease _ _ Hr)).
  - specialize (Htx eq_refl). specialize (Hk eq_refl Htx).
    destruct (_ || _) eqn:Eh; intros [= <- <-].
    { split_and!; [done..|]. intros Ht. rewrite Ht in Eh. cbn in Eh. unfold wl_tx_can_take.
      by rewrite Eh, andb_false_r. }
    case_bool_decide as Eu; [|split_and!; [done..|by apply Hd]].
    destruct (pass_op s1 w1 (OpTake (ev_handle ev)) I eq_refl) as [Ht Hs].
    split_and!; [by etrans|by apply Hs|]. intros _. apply take_final.
Qed.

(** Why the loop over the events ends: the budget is used up, the link has nothing
    to run, or a poll brought no event. *)
Inductive pump_stop :=
  | StopBudget
  | StopIdle
  | StopPoll (e : wl_err).

(** The events of a pass with a budget of [n]: each is polled from a link that has
    something to run and is dealt with, by operations a fair owner may use, before
    the next poll. *)
Inductive drained (now : Z) : nat → wl_ctx → W → list wl_event → pump_stop → wl_ctx → W → Prop :=
  | dr_budget s w : drained now 0 s w [] StopBudget s w
  | dr_idle n s w s1 hint :
      wl_link_get_readiness s now = (s1, WL_OK, hint) → runnable hint = false →
      drained now (S n) s w [] StopIdle s1 w
  | dr_poll n s w s1 hint s2 e ev :
      wl_link_get_readiness s now = (s1, WL_OK, hint) → runnable hint = true →
      wl_poll s1 now = (s2, e, ev) → e ≠ WL_OK → drained now (S n) s w [] (StopPoll e) s2 w
  | dr_event n s w s1 hint s2 ev s3 w3 evs stop s' w' :
      wl_link_get_readiness s now = (s1, WL_OK, hint) → runnable hint = true →
      wl_poll s1 now = (s2, WL_OK, ev) → fair_run s2 s3 → discharged holds ev s3 w3 →
      drained now n s3 w3 evs stop s' w' → drained now (S n) s w (ev :: evs) stop s' w'.

Definition rx_count (evs : list wl_event) : Z :=
  Z.of_nat (length (filter (λ ev, is_rx_event (ev_type ev) = true) evs)).

Definition empty_polls (stop : pump_stop) : Z := match stop with StopPoll _ => 1 | _ => 0 end.

(** The result of a pass, from the one before its events. *)
Record tallied (r : pump_result) (evs : list wl_event) (stop : pump_stop) (r' : pump_result) : Prop := {
  ta_events : pr_events r' = pr_events r + Z.of_nat (length evs);
  ta_rx : pr_rx_events r' = pr_rx_events r + rx_count evs;
  ta_polls : pr_polls r' = pr_polls r + Z.of_nat (length evs) + empty_polls stop;
  ta_result : pr_poll_result r' =
    match stop with
    | StopPoll e => e
    | _ => if decide (evs = []) then pr_poll_result r else WL_OK
    end;
  ta_errors : pr_poll_errors r' =
    match stop with
    | StopPoll e => if decide (e = WL_ERR_NO_DATA) then pr_poll_errors r else 1
    | _ => pr_poll_errors r
    end;
  ta_work : pr_did_work r' =
    (pr_did_work r || bool_decide (evs ≠ []) ||
     match stop with StopPoll e => bool_decide (e = WL_ERR_NO_DATA) | _ => false end);
  ta_services : pr_services r' = pr_services r;
}.

Lemma drained_budget now n s w evs stop s' w' :
  drained now n s w evs stop s' w' → Z.of_nat (length evs) + empty_polls stop <= Z.of_nat n.
Proof. induction 1; cbn [length empty_polls] in *; lia. Qed.

Lemma rx_count_cons ev evs :
  rx_count (ev :: evs) = (if is_rx_event (ev_type ev) then 1 else 0) + rx_count evs.
Proof.
  unfold rx_count. rewrite filter_cons.
  destruct (is_rx_event (ev_type ev)); [rewrite decide_True by done; cbn [length]; lia|].
  by rewrite decide_False by done.
Qed.

(** The tally of one more event. *)
Lemma tallied_cons r ev evs stop r1 r' :
  pr_events r1 = pr_events r + 1 →
  pr_rx_events r1 = pr_rx_events r + (if is_rx_event (ev_type ev) then 1 else 0) →
  pr_polls r1 = pr_polls r + 1 → pr_poll_result r1 = WL_OK → pr_poll_errors r1 = pr_poll_errors r →
  pr_did_work r1 = true → pr_services r1 = pr_services r →
  tallied r1 evs stop r' → tallied r (ev :: evs) stop r'.
Proof.
  intros E1 E2 E3 E4 E5 E6 E7 [H1 H2 H3 H4 H5 H6 H7].
  split; rewrite ?rx_count_cons; cbn [length]; try lia.
  - rewrite H4, E4. destruct stop; [by repeat case_decide..|done].
  - by rewrite H5, E5.
  - rewrite H6, E6. by destruct (pr_did_work r).
Qed.

(** The counters so far, with [left] polls of the budget left. *)
Definition counts (budget left : Z) (r : pump_result) : Prop :=
  0 <= pr_rx_events r <= pr_events r ∧ pr_polls r = pr_events r ∧ pr_polls r + left <= budget.

Lemma tallied_nil r stop : empty_polls stop = 0 → tallied r [] stop r.
Proof.
  intros E. split; try (unfold rx_count; cbn; lia); destruct stop; try done; by destruct (pr_did_work r).
Qed.

(** A poll that brings no event ends the loop. *)
Lemma tallied_stop r e :
  usize (pr_polls r + 1) = pr_polls r + 1 →
  let r1 := r <| pr_polls := usize (pr_polls r + 1) |> <| pr_poll_result := e |> in
  tallied r [] (StopPoll e)
    (if bool_decide (e = WL_ERR_NO_DATA) then r1 <| pr_did_work := true |> else r1 <| pr_poll_errors := 1 |>).
Proof.
  intros Eu r1. subst r1. case_bool_decide as E; split; unfold rx_count; cbn; rewrite ?Eu; try lia; try done.
  - by rewrite decide_True.
  - rewrite (bool_decide_eq_true_2 _ E). by rewrite orb_true_r.
  - by rewrite decide_False.
  - rewrite (bool_decide_eq_false_2 _ E). by rewrite !orb_false_r.
Qed.

(** The counters after a poll that brings an event. *)
Lemma count_event budget left r ev :
  is_size budget → 0 <= left → counts budget (left + 1) r →
  let r1 := r <| pr_polls := usize (pr_polls r + 1) |> <| pr_poll_result := WL_OK |> in
  let r2 := r1 <| pr_events := usize (pr_events r1 + 1) |> <| pr_did_work := true |> in
  let r3 := if is_rx_event (ev_type ev) then r2 <| pr_rx_events := usize (pr_rx_events r2 + 1) |> else r2 in
  counts budget left r3 ∧
  ∀ evs stop r', tallied r3 evs stop r' → tallied r (ev :: evs) stop r'.
Proof.
  intros Hb Hl (Hrx & Hpe & Hle) r1 r2 r3. unfold is_size in Hb.
  assert (usize (pr_polls r + 1) = pr_polls r + 1 ∧ usize (pr_events r + 1) = pr_events r + 1 ∧
    usize (pr_rx_events r + 1) = pr_rx_events r + 1) as (E1 & E2 & E3)
    by (unfold usize; rewrite !Z.mod_small; lia).
  split; [|intros evs stop r'; apply tallied_cons]; subst r1 r2 r3; unfold counts;
    destruct (is_rx_event (ev_type ev)); cbn; rewrite ?E1, ?E2, ?E3; try done; try lia.
Qed.

Lemma events_pass n s w now r s' w' r' budget :
  link_fair c st s → settled holds s w → is_size budget → counts budget (Z.of_nat n) r →
  pump_events n hooks s w now r = (s', w', r') →
  fair_run s s' ∧ settled holds s' w' ∧
  ∃ evs stop, drained now n s w evs stop s' w' ∧ tallied r evs stop r'.
Proof.
  intros Hf Hs Hb. revert s w r Hf Hs.
  induction n as [|n IH]; intros s w r Hf Hs (Hrx & Hpe & Hle); cbn [pump_events].
  { intros [= <- <- <-]. split_and!; [done..|]. exists [], StopBudget. split; [constructor|].
    by apply tallied_nil. }
  destruct (pass_op s w (OpReadiness now) I eq_refl) as [R1 H1]. cbn [link_step] in R1, H1.
  destruct (wl_link_get_readiness s now) as [[s1 e] hint] eqn:Er. cbn [fst] in R1, H1.
  specialize (H1 Hs). assert (e = WL_OK) as ->.
  { rewrite readiness_eq in Er by by apply fair_initialized. by injection Er as _ <- _. }
  change (is_ok WL_OK) with true. cbn [negb orb]. destruct (runnable hint) eqn:Eh; cbn [negb].
  2: { intros [= <- <- <-]. split_and!; [done..|]. exists [], StopIdle.
       split; [by econstructor|by apply tallied_nil]. }
  assert (link_fair c st s1) as Hf1 by by eapply run_fair.
  assert (fair_run s1 (wl_poll s1 now).1.1) as R2 by (apply rtc_once; by exists (OpPoll now)).
  destruct (wl_poll s1 now) as [[s2 p] ev] eqn:Ep. cbn [fst] in R2.
  destruct (poll_lends _ _ _ _ _ Ep (reachable_tagged c st s1 (fair_reachable _ _ _ Hf1)))
    as (_ & Hl & Hk).
  assert (link_fair c st s2) as Hf2 by by eapply run_fair.
  assert (fair_run s s2) as R by by etrans.
  assert (p ≠ WL_OK ∨ is_rx_event (ev_type ev) = false → settled holds s2 w) as Hs2.
  { intros Hor Hl2. apply H1, Hk; auto. }
  unfold is_size in Hb. assert (usize (pr_polls r + 1) = pr_polls r + 1) as Eu
    by (unfold usize; rewrite Z.mod_small; lia).
  destruct (decide (p = WL_OK)) as [->|Hp].
  2: { intros Hend. pose proof (tallied_stop r p Eu) as Ht. cbv zeta in Ht. revert Hend Ht.
       unfold is_ok. rewrite (bool_decide_eq_false_2 _ Hp). cbn [negb].
       destruct (bool_decide (p = WL_ERR_NO_DATA)); intros [= <- <- <-] Ht;
         (split_and!; [done|by apply Hs2; left|]; exists [], (StopPoll p); split; [by eapply dr_poll|done]). }
  change (bool_decide (WL_OK = WL_ERR_NO_DATA)) with false. change (is_ok WL_OK) with true. cbn [negb].
  destruct (pump_event hooks s2 w ev now) as [s3 w3] eqn:Ee.
  apply event_pass in Ee as (R3 & H3 & D3); [|done|by apply Hl|by intros ?; apply Hs2; right].
  destruct (count_event budget (Z.of_nat n) r ev Hb ltac:(lia)) as [Hc Ht]; [unfold counts; lia|].
  intros Hrest. apply IH in Hrest as (R4 & H4 & evs & stop & D4 & T4); [|by eapply run_fair|done|done].
  split_and!; [etrans; [done|]; by etrans|done|]. exists (ev :: evs), stop.
  split; [by eapply dr_event|by apply Ht].
Qed.

(** Whether the pass calls the adapter. *)
Definition service_due (s : wl_ctx) (w : W) (now : Z) : bool :=
  bool_decide (is_Some (hk_service hooks)) &&
  hook_runnable (hk_adapter_readiness hooks) (hk_adapter_user_data hooks) s w now.

Lemma service_tally s w now s' w' r' :
  pump_service hooks s w now pump_result_start = (s', w', r') →
  pr_services r' = (if service_due s w now then 1 else 0) ∧
  (service_due s w now = false → s' = s ∧ w' = w ∧ r' = pump_result_start) ∧
  pr_events r' = 0 ∧ pr_rx_events r' = 0 ∧ pr_polls r' = 0 ∧ pr_poll_errors r' = 0 ∧
  pr_poll_result r' = WL_ERR_NO_DATA.
Proof.
  unfold pump_service, service_due. destruct (hk_service hooks) as [f|]; cbn.
  2: { intros [= <- <- <-]. done. }
  destruct (hook_runnable _ _ _ _ _); [|intros [= <- <- <-]; done].
  destruct (call_service _ _ _ _) as [[??]?]. intros [= _ _ <-].
  by destruct (negb (service_result_expected _)).
Qed.

(** The application's step only adds to the work done. *)
Lemma application_tally s w now r s' w' r' :
  pump_application hooks s w now r = (s', w', r') →
  ∃ worked : bool, r' = if worked then r <| pr_did_work := true |> else r.
Proof.
  unfold pump_application.
  destruct (hk_application_step hooks); [|intros [= _ _ <-]; by exists false].
  destruct (hook_runnable _ _ _ _ _); [|intros [= _ _ <-]; by exists false].
  destruct (call_step _ _ _ _ _) as [[??] worked]. intros [= _ _ <-]. by exists worked.
Qed.

(** What a pass reports of the events [evs] it saw and of the end of its loop. *)
Record reported (evs : list wl_event) (stop : pump_stop) (r : pump_result) : Prop := {
  re_events : pr_events r = Z.of_nat (length evs);
  re_rx : pr_rx_events r = rx_count evs;
  re_polls : pr_polls r = Z.of_nat (length evs) + empty_polls stop;
  re_result : pr_poll_result r =
    match stop with
    | StopPoll e => e
    | _ => if decide (evs = []) then WL_ERR_NO_DATA else WL_OK
    end;
  re_errors : pr_poll_errors r =
    match stop with StopPoll e => if decide (e = WL_ERR_NO_DATA) then 0 else 1 | _ => 0 end;
  re_work : evs ≠ [] ∨ stop = StopPoll WL_ERR_NO_DATA → pr_did_work r = true;
}.

Lemma reported_tally r1 evs stop r2 (worked : bool) :
  tallied r1 evs stop r2 →
  pr_events r1 = 0 ∧ pr_rx_events r1 = 0 ∧ pr_polls r1 = 0 ∧ pr_poll_errors r1 = 0 ∧
  pr_poll_result r1 = WL_ERR_NO_DATA →
  reported evs stop (if worked then r2 <| pr_did_work := true |> else r2).
Proof.
  intros [H1 H2 H3 H4 H5 H6 H7] (E1 & E2 & E3 & E4 & E5).
  rewrite E1 in H1. rewrite E2 in H2. rewrite E3 in H3. rewrite E4 in H5. rewrite E5 in H4.
  split; destruct worked; cbn; try lia; try done.
  - intros [Hne| ->]; rewrite H6.
    + rewrite (bool_decide_eq_true_2 _ Hne). by rewrite orb_true_r.
    + rewrite (bool_decide_eq_true_2 (WL_ERR_NO_DATA = WL_ERR_NO_DATA)) by done. by rewrite orb_true_r.
Qed.



End Pass.

(** ** What the callbacks keep, the pass keeps *)

Section Kept.
Context {plat : Platform} {F W : Type} {code : PumpCode F W}.
Context (hooks : pump_hooks F) (R : relation W) {HR : PreOrder R}.
Context (Hservice : ∀ f s w,
  hk_service hooks = Some f → R w (call_service f (hk_adapter_user_data hooks) s w).1.2).
Context (Hevent : ∀ f s w ev now,
  hk_on_event hooks = Some f → R w (call_event f (hk_application_user_data hooks) s w ev now).1.2).

Lemma service_kept s w now r : R w (pump_service hooks s w now r).1.2.
Proof.
  unfold pump_service. destruct (hk_service hooks) as [f|] eqn:Ef; [|done].
  destruct (hook_runnable _ _ _ _ _); [|done]. pose proof (Hservice f s w eq_refl) as H.
  by destruct (call_service _ _ _ _) as [[s1 w1] res].
Qed.

Lemma event_kept s w ev now : R w (pump_event hooks s w ev now).2.
Proof.
  assert (R w (pump_dispatch hooks s w ev now).1.2) as H.
  { unfold pump_dispatch. destruct (hk_on_event hooks) as [f|] eqn:Ef; [by apply Hevent|done]. }
  unfold pump_event. destruct (pump_dispatch hooks s w ev now) as [[s1 w1] d].
  destruct (is_rx_event _); [done|]. by destruct (_ || _).
Qed.

Lemma events_kept n s w now r : R w (pump_events n hooks s w now r).1.2.
Proof.
  revert s w r. induction n as [|n IH]; intros s w r; [done|]. cbn [pump_events].
  destruct (wl_link_get_readiness s now) as [[s1 e] hint]. destruct (_ || _); [done|].
  destruct (wl_poll s1 now) as [[s2 p] ev]. destruct (bool_decide _); [done|].
  destruct (negb _); [done|]. pose proof (event_kept s2 w ev now) as H.
  destruct (pump_event hooks s2 w ev now) as [s3 w3]. etrans; [exact H|apply IH].
Qed.
End Kept.

(** ** An application that keeps a received event until its next step

    Its world is the event it keeps; it is ready when it keeps one. *)
#[export] Instance keeper_code {plat : Platform} : PumpCode unit (option wl_event) := {
  call_service _ _ s w := (s, w, 0);
  call_quiesce _ _ s w := (s, w);
  call_readiness _ _ _ w _ := mk_readiness (bool_decide (is_Some w)) WL_NO_DEADLINE false;
  call_step _ _ s w _ :=
    match w with
    | Some ev => let s := wl_event_release s ev in
                 if rx_event_leased s then (s, w, false) else (s, None, true)
    | None => (s, w, false)
    end;
  call_event _ _ s w ev _ :=
    if is_rx_event (ev_type ev) then (s, Some ev, WL_PUMP_EVENT_LEASED)
    else (s, w, WL_PUMP_EVENT_UNHANDLED);
}.

Definition keeper_hooks : pump_hooks unit :=
  mk_pump_hooks 0 None None None 0 (Some tt) (Some tt) (Some tt).

Lemma keeper_laws {plat : Platform} : pump_laws keeper_hooks (λ w : option wl_event, is_Some w).
Proof.
  split; [done|..].
  - intros f s w now s' w' r _. cbn. destruct w as [ev|].
    + destruct (rx_event_leased _) eqn:El; intros [= <- <- _].
      all: split; [apply rtc_once; exists (OpRelease ev); done|].
      * intros _ _. by eexists.
      * intros _. unfold settled. by rewrite El.
    + by intros [= <- <- _].
  - intros f s w ev now s' w' d _. cbn. unfold discharged.
    destruct (is_rx_event _); intros [= <- <- <-]; (split_and!; [done| |done]); [|done]. intros _ _. by eexists.
Qed.

