(* ===== verification/Endpoint.v ===== *)
(** The endpoint of [endpoint.c]: a link with a clock, an adapter, the generated
    application hooks, an optional product policy and up to 64 services, driven by
    one owner through the pump.

    The user's functions are pointers [F]; [EndpointCode] interprets them on the link,
    on the endpoint itself, which they may reenter, and on a world [W].  The hooks
    that the endpoint gives to the pump are the user's or the endpoint's own. *)
From S2P Require Import Prelude Cobs Frame RxRing UnitQueue Link LinkInv LinkProps LinkReady LinkMem LinkSteps LinkData LinkTrace LinkFair LinkDelivery LinkLease Pump.
#[local] Open Scope wl_scope.

Section Types.
Context (F : Type).

(** [wl_endpoint_policy_t] *)
Record policy := mk_policy {
  po_user_data : Z;
  po_on_event : option F;
  po_step : option F;
  po_deadline_hint : option F;
}.

(** [wl_endpoint_service_t] *)
Record service := mk_service {
  sc_user_data : Z;
  sc_step : option F;
  sc_deadline_hint : option F;
  sc_on_peer_session : option F;
  sc_on_close : option F;
}.

(** [wl_clock_t] and [wl_waiter_t] *)
Record clock := mk_clock { ck_now_ms : option F; ck_user_data : Z }.
Record waiter := mk_waiter { wt_wait : option F; wt_user_data : Z; wt_notify : option F }.

(** [wl_endpoint_t] without its link, which is passed beside it; the services are
    the array and its count. *)
Record endpoint := mk_endpoint {
  ep_hooks : pump_hooks F;
  ep_policy : policy;
  ep_services : list service;
  ep_service_cursor : Z;
  ep_peer_session : Z;
  ep_step : pump_result;
  ep_clock : clock;
  ep_waiter : waiter;
  ep_executor : Z;
  ep_now : Z;
  ep_stepping : bool;
  ep_policy_pending : bool;
  ep_services_active : Z;
  ep_resource_generation : Z;
  ep_ready : bool;
  ep_started : bool;
}.
End Types.

Arguments mk_policy {F}.
Arguments po_user_data {F}.
Arguments po_on_event {F}.
Arguments po_step {F}.
Arguments po_deadline_hint {F}.
Arguments mk_service {F}.
Arguments sc_user_data {F}.
Arguments sc_step {F}.
Arguments sc_deadline_hint {F}.
Arguments sc_on_peer_session {F}.
Arguments sc_on_close {F}.
Arguments mk_clock {F}.
Arguments ck_now_ms {F}.
Arguments ck_user_data {F}.
Arguments mk_waiter {F}.
Arguments wt_wait {F}.
Arguments wt_user_data {F}.
Arguments wt_notify {F}.
Arguments mk_endpoint {F}.
Arguments ep_hooks {F}.
Arguments ep_policy {F}.
Arguments ep_services {F}.
Arguments ep_service_cursor {F}.
Arguments ep_peer_session {F}.
Arguments ep_step {F}.
Arguments ep_clock {F}.
Arguments ep_waiter {F}.
Arguments ep_executor {F}.
Arguments ep_now {F}.
Arguments ep_stepping {F}.
Arguments ep_policy_pending {F}.
Arguments ep_services_active {F}.
Arguments ep_resource_generation {F}.
Arguments ep_ready {F}.
Arguments ep_started {F}.

#[export] Instance endpoint_rebuild {F} : Rebuild (endpoint F) := λ e,
  mk_endpoint (ep_hooks e) (ep_policy e) (ep_services e) (ep_service_cursor e) (ep_peer_session e)
    (ep_step e) (ep_clock e) (ep_waiter e) (ep_executor e) (ep_now e) (ep_stepping e)
    (ep_policy_pending e) (ep_services_active e) (ep_resource_generation e) (ep_ready e)
    (ep_started e).

#[export] Instance pump_hooks_rebuild {F} : Rebuild (pump_hooks F) := λ h,
  mk_pump_hooks (hk_adapter_user_data h) (hk_service h) (hk_quiesce h) (hk_adapter_readiness h)
    (hk_application_user_data h) (hk_application_step h) (hk_application_readiness h)
    (hk_on_event h).

Definition hooks_null {F} : pump_hooks F := mk_pump_hooks 0 None None None 0 None None None.
Definition policy_null {F} : policy F := mk_policy 0 None None None.
Definition clock_null {F} : clock F := mk_clock None 0.
Definition waiter_null {F} : waiter F := mk_waiter None 0 None.

(** What the functions of the user do.  A readiness, deadline or clock callback takes
    its arguments as constants; a step returns whether it did work and whether more
    is runnable. *)
Class EndpointCode (F W : Type) := {
  user_pump :: PumpCode F (endpoint F * W);
  user_now : F → Z → W → Z;
  user_notify : F → Z → W → W;
  user_observe : F → Z → wl_ctx → endpoint F * W → wl_event → Z → wl_ctx * (endpoint F * W);
  user_work : F → Z → wl_ctx → endpoint F * W → Z → wl_ctx * (endpoint F * W) * (bool * bool);
  user_deadline : F → Z → endpoint F * W → Z → Z;
  user_session : F → Z → wl_ctx → endpoint F * W → Z → Z → Z → wl_ctx * (endpoint F * W);
  user_close : F → Z → wl_ctx → endpoint F * W → wl_ctx * (endpoint F * W);
}.

(** [wl_wait_remaining] of [wait.h] *)
Definition wl_wait_remaining (maximum_ms sampled_at_ms now_ms : Z) : Z :=
  if maximum_ms =? UINT32_MAX then UINT32_MAX
  else
    let elapsed := u32 (now_ms - sampled_at_ms) in
    if elapsed >=? maximum_ms then 0 else maximum_ms - elapsed.

Definition service_bit (i : nat) : Z := Z.shiftl 1 (Z.of_nat i).

Section Endpoint.
Context {plat : Platform} {F W : Type} {code : EndpointCode F W}.
Notation world := (endpoint F * W)%type.

(** Every service that has a step function. *)
Definition activate_services (services : list (service F)) (active : Z) : Z :=
  foldl (λ a '(i, sv), if bool_decide (is_Some (sc_step sv)) then Z.lor a (service_bit i) else a)
    active (imap pair services).

(** The loop that announces a new peer session; service [i] is read from the array in
    its turn. *)
Definition announce_session (previous session now : Z) (s : wl_ctx) (ew : world)
    : wl_ctx * world :=
  foldl (λ '(s, ew) i,
    match ep_services ew.1 !! i with
    | Some sv =>
        match sc_on_peer_session sv with
        | Some f => user_session f (sc_user_data sv) s ew previous session now
        | None => (s, ew)
        end
    | None => (s, ew)
    end) (s, ew) (seq 0 (length (ep_services ew.1))).

Definition endpoint_event (s : wl_ctx) (ew : world) (ev : wl_event) (now : Z)
    : wl_ctx * world * pump_disposition :=
  let '(e, w) := ew in
  let e := e <| ep_policy_pending := bool_decide (is_Some (po_step (ep_policy e))) |>
             <| ep_services_active := activate_services (ep_services e) (ep_services_active e) |> in
  let '(s, ew) :=
    if is_rx_event (ev_type ev) && negb (ev_peer_session_id ev =? 0)
       && negb (ev_peer_session_id ev =? ep_peer_session e) then
      let previous := ep_peer_session e in
      announce_session previous (ev_peer_session_id ev) now s
        (e <| ep_peer_session := ev_peer_session_id ev |>, w)
    else (s, (e, w)) in
  let '(s, ew) :=
    match po_on_event (ep_policy ew.1) with
    | Some f => user_observe f (po_user_data (ep_policy ew.1)) s ew ev now
    | None => (s, ew)
    end in
  match hk_on_event (ep_hooks ew.1) with
  | Some f => call_event f (hk_application_user_data (ep_hooks ew.1)) s ew ev now
  | None => (s, ew, WL_PUMP_EVENT_UNHANDLED)
  end.

(** A deadline callback that is due; a null one never is. *)
Definition deadline_due (f : option F) (user_data : Z) (ew : world) (now : Z) : bool :=
  match f with Some f => user_deadline f user_data ew now =? 0 | None => false end.

(** The policy's part of [endpoint_step_application]. *)
Definition policy_turn (s : wl_ctx) (ew : world) (now : Z) : wl_ctx * world * bool :=
  let p := ep_policy ew.1 in
  match po_step p with
  | Some f =>
      if ep_policy_pending ew.1 || deadline_due (po_deadline_hint p) (po_user_data p) ew now then
        let '(s, ew, (did_work, more)) :=
          user_work f (po_user_data p) s (ew.1 <| ep_policy_pending := false |>, ew.2) now in
        (s, (ew.1 <| ep_policy_pending := ep_policy_pending ew.1 || more |>, ew.2), did_work)
      else (s, ew, false)
  | None => (s, ew, false)
  end.

(** The application's part. *)
Definition application_turn (s : wl_ctx) (ew : world) (now : Z) : wl_ctx * world * bool :=
  let h := ep_hooks ew.1 in
  match hk_application_step h with
  | Some f =>
      if hook_runnable (hk_application_readiness h) (hk_application_user_data h) s ew now
      then call_step f (hk_application_user_data h) s ew now else (s, ew, false)
  | None => (s, ew, false)
  end.

(** The turn of the service at [index]. *)
Definition service_turn (index : nat) (s : wl_ctx) (ew : world) (now : Z) : wl_ctx * world * bool :=
  match ep_services ew.1 !! index with
  | Some sv =>
      match sc_step sv with
      | Some f =>
          if Z.testbit (ep_services_active ew.1) (Z.of_nat index)
             || deadline_due (sc_deadline_hint sv) (sc_user_data sv) ew now then
            let '(s, ew, (did_work, more)) :=
              user_work f (sc_user_data sv) s
                (ew.1 <| ep_services_active := Z.ldiff (ep_services_active ew.1) (service_bit index) |>,
                 ew.2) now in
            (s, (if more
                 then ew.1 <| ep_services_active := Z.lor (ep_services_active ew.1) (service_bit index) |>
                 else ew.1, ew.2), did_work)
          else (s, ew, false)
      | None => (s, ew, false)
      end
  | None => (s, ew, false)
  end.

(** One turn per service, starting at the cursor and wrapping at the end. *)
Fixpoint service_turns (n index : nat) (s : wl_ctx) (ew : world) (now : Z) (worked : bool)
    : wl_ctx * world * bool :=
  match n with
  | O => (s, ew, worked)
  | S n =>
      let '(s, ew, did_work) := service_turn index s ew now in
      let index := if Nat.eqb (S index) (length (ep_services ew.1)) then O else S index in
      service_turns n index s ew now (worked || did_work)
  end.

(** A change of the link's resource generation activates everything that steps. *)
Definition observe_resources (s : wl_ctx) (e : endpoint F) : endpoint F :=
  let generation := wl_link_resource_generation s in
  if generation =? ep_resource_generation e then e
  else
    e <| ep_resource_generation := generation |>
      <| ep_policy_pending := ep_policy_pending e || bool_decide (is_Some (po_step (ep_policy e))) |>
      <| ep_services_active := activate_services (ep_services e) (ep_services_active e) |>.

Definition advance_cursor (e : endpoint F) : endpoint F :=
  if Nat.eqb (length (ep_services e)) 0 then e
  else
    let cursor := usize (ep_service_cursor e + 1) in
    e <| ep_service_cursor := if cursor =? Z.of_nat (length (ep_services e)) then 0 else cursor |>.

(** Neither a policy that steps or waits nor a service. *)
Definition application_only (e : endpoint F) : bool :=
  bool_decide (po_step (ep_policy e) = None) && bool_decide (po_deadline_hint (ep_policy e) = None) &&
  Nat.eqb (length (ep_services e)) 0.

Definition endpoint_step_application (s : wl_ctx) (ew : world) (now : Z) : wl_ctx * world * bool :=
  if application_only ew.1 then
    match hk_application_step (ep_hooks ew.1) with
    | Some f => call_step f (hk_application_user_data (ep_hooks ew.1)) s ew now
    | None => (s, ew, false)
    end
  else
    let ew := (observe_resources s ew.1, ew.2) in
    let '(s, ew, worked) := policy_turn s ew now in
    let '(s, ew, did_work) := application_turn s ew now in
    let '(s, ew, worked) :=
      service_turns (length (ep_services ew.1)) (Z.to_nat (ep_service_cursor ew.1)) s ew now
        (worked || did_work) in
    (s, (advance_cursor ew.1, ew.2), worked).

(** A deadline source of [endpoint_readiness]. *)
Definition merge_deadline (f : option F) (user_data : Z) (ew : world) (now : Z)
    (value : wl_readiness) : wl_readiness :=
  match f with
  | Some f => wl_readiness_merge value (wl_readiness_at (user_deadline f user_data ew now))
  | None => value
  end.

Definition endpoint_readiness (s : wl_ctx) (ew : world) (now : Z) : wl_readiness :=
  let e := ew.1 in
  let value := merge_hook (hk_application_readiness (ep_hooks e)) (hk_application_user_data (ep_hooks e))
                 s ew now wl_readiness_idle in
  let value := merge_deadline (po_deadline_hint (ep_policy e)) (po_user_data (ep_policy e)) ew now value in
  let value :=
    foldl (λ v sv, merge_deadline (sc_deadline_hint sv) (sc_user_data sv) ew now v)
      value (ep_services e) in
  mk_readiness
    (runnable value || ep_policy_pending e || negb (ep_services_active e =? 0)
     || ((bool_decide (is_Some (po_step (ep_policy e))) || negb (Nat.eqb (length (ep_services e)) 0))
         && negb (ep_resource_generation e =? wl_link_resource_generation s)))
    (next_deadline_ms value) (blocked value).
End Endpoint.

(** ** The hooks the pump is given *)

Inductive endpoint_fn (F : Type) :=
  | fn_user (f : F)
  | fn_endpoint_event
  | fn_endpoint_step_application
  | fn_endpoint_readiness.
Arguments fn_user {F}.
Arguments fn_endpoint_event {F}.
Arguments fn_endpoint_step_application {F}.
Arguments fn_endpoint_readiness {F}.

Section Code.
Context {plat : Platform} {F W : Type} {code : EndpointCode F W}.
Notation world := (endpoint F * W)%type.

(** The endpoint's functions are called at their own types only. *)
#[export] Instance endpoint_pump : PumpCode (endpoint_fn F) world := {
  call_service f u s ew :=
    match f with fn_user f => call_service f u s ew | _ => (s, ew, 0) end;
  call_quiesce f u s ew :=
    match f with fn_user f => call_quiesce f u s ew | _ => (s, ew) end;
  call_readiness f u s ew now :=
    match f with
    | fn_user f => call_readiness f u s ew now
    | fn_endpoint_readiness => endpoint_readiness s ew now
    | _ => wl_readiness_idle
    end;
  call_step f u s ew now :=
    match f with
    | fn_user f => call_step f u s ew now
    | fn_endpoint_step_application => endpoint_step_application s ew now
    | _ => (s, ew, false)
    end;
  call_event f u s ew ev now :=
    match f with
    | fn_user f => call_event f u s ew ev now
    | fn_endpoint_event => endpoint_event s ew ev now
    | _ => (s, ew, WL_PUMP_EVENT_UNHANDLED)
    end;
}.

(** The address of the endpoint, as the user data of its own hooks. *)
Definition endpoint_address : Z := 1.

Definition endpoint_hooks (e : endpoint F) : pump_hooks (endpoint_fn F) :=
  let h := ep_hooks e in
  if negb (Nat.eqb (length (ep_services e)) 0) || bool_decide (is_Some (po_on_event (ep_policy e)))
     || bool_decide (is_Some (po_step (ep_policy e)))
     || bool_decide (is_Some (po_deadline_hint (ep_policy e)))
  then mk_pump_hooks (hk_adapter_user_data h) (fn_user <$> hk_service h) (fn_user <$> hk_quiesce h)
         (fn_user <$> hk_adapter_readiness h) endpoint_address
         (Some fn_endpoint_step_application) (Some fn_endpoint_readiness) (Some fn_endpoint_event)
  else mk_pump_hooks (hk_adapter_user_data h) (fn_user <$> hk_service h) (fn_user <$> hk_quiesce h)
         (fn_user <$> hk_adapter_readiness h) (hk_application_user_data h)
         (fn_user <$> hk_application_step h) (fn_user <$> hk_application_readiness h)
         (fn_user <$> hk_on_event h).

(** ** Setting up *)

Definition wl_endpoint_init (s : wl_ctx) (e : endpoint F) (c : wl_config) (st : wl_storage)
    (ck : clock F) (application : pump_hooks F) : wl_ctx * endpoint F * wl_err :=
  if bool_decide (is_Some (hk_application_step application))
     && bool_decide (hk_application_readiness application = None)
  then (s, e, WL_ERR_INVALID_ARG)
  else if ep_ready e then (s, e, WL_ERR_INVALID_STATE)
  else if bool_decide (ck_now_ms ck = None) then (s, e, WL_ERR_INVALID_ARG)
  else
    let '(s, result) := wl_init s c st in
    if negb (is_ok result) then (s, e, result)
    else
      (s, mk_endpoint
            (mk_pump_hooks 0 None None None (hk_application_user_data application)
               (hk_application_step application) (hk_application_readiness application)
               (hk_on_event application))
            policy_null [] 0 0 (mk_pump_result 0 0 0 0 0 0 0 WL_OK false) ck waiter_null NULL 0
            false false 0 (wl_link_resource_generation s) true false, WL_OK).

Definition wl_endpoint_has_adapter (e : endpoint F) : bool :=
  bool_decide (is_Some (hk_service (ep_hooks e))) || bool_decide (is_Some (hk_quiesce (ep_hooks e)))
  || negb (hk_adapter_user_data (ep_hooks e) =? NULL)
  || bool_decide (is_Some (hk_adapter_readiness (ep_hooks e))).

Definition wl_endpoint_attach (e : endpoint F) (adapter : pump_hooks F) : endpoint F * wl_err :=
  if bool_decide (is_Some (hk_service adapter)) && bool_decide (hk_adapter_readiness adapter = None)
  then (e, WL_ERR_INVALID_ARG)
  else if negb (ep_ready e) then (e, WL_ERR_NOT_INITIALIZED)
  else if wl_endpoint_has_adapter e then (e, WL_ERR_BUSY)
  else
    let h := ep_hooks e in
    (e <| ep_hooks := mk_pump_hooks (hk_adapter_user_data adapter) (hk_service adapter)
            (hk_quiesce adapter) (hk_adapter_readiness adapter) (hk_application_user_data h)
            (hk_application_step h) (hk_application_readiness h) (hk_on_event h) |>, WL_OK).

(** The array is given with its length. *)
Definition wl_endpoint_set_services (e : endpoint F) (services : list (service F))
    : endpoint F * wl_err :=
  if Z.of_nat (length services) >? 64 then (e, WL_ERR_INVALID_ARG)
  else if negb (ep_ready e) then (e, WL_ERR_NOT_INITIALIZED)
  else if ep_stepping e then (e, WL_ERR_REENTRANT)
  else if ep_started e then (e, WL_ERR_INVALID_STATE)
  else (e <| ep_services := services |> <| ep_service_cursor := 0 |>
          <| ep_services_active := activate_services services 0 |>, WL_OK).

Definition notify_waiter (e : endpoint F) (w : W) : W :=
  match wt_notify (ep_waiter e) with
  | Some f => user_notify f (wt_user_data (ep_waiter e)) w
  | None => w
  end.

Definition wl_endpoint_activate_service (ew : world) (index : nat) : world * wl_err :=
  if Nat.leb (length (ep_services ew.1)) index then (ew, WL_ERR_INVALID_ARG)
  else if negb (ep_ready ew.1) then (ew, WL_ERR_NOT_INITIALIZED)
  else
    let e := ew.1 <| ep_services_active := Z.lor (ep_services_active ew.1) (service_bit index) |> in
    (e, notify_waiter e ew.2, WL_OK).

Definition wl_endpoint_activate_policy (ew : world) : world * wl_err :=
  if negb (ep_ready ew.1) then (ew, WL_ERR_NOT_INITIALIZED)
  else
    let e := ew.1 <| ep_policy_pending := bool_decide (is_Some (po_step (ep_policy ew.1))) |> in
    (e, notify_waiter e ew.2, WL_OK).

Definition wl_endpoint_set_waiter (e : endpoint F) (wt : option (waiter F)) : endpoint F * wl_err :=
  if negb (ep_ready e) then (e, WL_ERR_NOT_INITIALIZED)
  else if ep_stepping e then (e, WL_ERR_REENTRANT)
  else
    match wt with
    | Some wt => if bool_decide (wt_wait wt = None) then (e, WL_ERR_INVALID_ARG)
                 else (e <| ep_waiter := wt |>, WL_OK)
    | None => (e <| ep_waiter := waiter_null |>, WL_OK)
    end.

Definition wl_endpoint_set_policy (e : endpoint F) (p : option (policy F)) : endpoint F * wl_err :=
  if negb (ep_ready e) then (e, WL_ERR_NOT_INITIALIZED)
  else if ep_stepping e then (e, WL_ERR_REENTRANT)
  else
    let e := e <| ep_policy := default policy_null p |> in
    (e <| ep_policy_pending := bool_decide (is_Some (po_step (ep_policy e))) |>, WL_OK).

Definition wl_endpoint_waiter (e : endpoint F) : option (waiter F) :=
  if ep_ready e && bool_decide (is_Some (wt_wait (ep_waiter e))) then Some (ep_waiter e) else None.

Definition wl_endpoint_set_rpc_executor (e : endpoint F) (executor : Z) : endpoint F * wl_err :=
  if negb (ep_ready e) then (e, WL_ERR_NOT_INITIALIZED)
  else if ep_stepping e then (e, WL_ERR_REENTRANT)
  else (e <| ep_executor := executor |>, WL_OK).

Definition wl_endpoint_get_clock (e : endpoint F) : wl_err + clock F :=
  if negb (ep_ready e) then inl WL_ERR_NOT_INITIALIZED else inr (ep_clock e).

(** ** Driving *)

Definition read_clock (e : endpoint F) (w : W) : Z :=
  match ck_now_ms (ep_clock e) with
  | Some f => user_now f (ck_user_data (ep_clock e)) w
  | None => 0
  end.

Definition wl_endpoint_now (ew : world) : wl_err + Z :=
  if negb (ep_ready ew.1) then inl WL_ERR_NOT_INITIALIZED
  else inr (if ep_stepping ew.1 then ep_now ew.1 else read_clock ew.1 ew.2).

(** The code the step returns: a [wl_err_t], or what the adapter's service returned. *)
Definition wl_endpoint_step (s : wl_ctx) (ew : world) (event_budget : Z) : wl_ctx * world * Z :=
  let '(e, w) := ew in
  if negb (ep_ready e) then (s, ew, wl_err_code WL_ERR_NOT_INITIALIZED)
  else if event_budget =? 0 then (s, ew, wl_err_code WL_ERR_INVALID_ARG)
  else if ep_stepping e then (s, ew, wl_err_code WL_ERR_REENTRANT)
  else
    let e := e <| ep_now := read_clock e w |> <| ep_stepping := true |> <| ep_started := true |> in
    let '(s, ew, result) := wl_pump_step s (e, w) (ep_now e) event_budget (endpoint_hooks e) in
    match result with
    | inl err => (s, (ew.1 <| ep_stepping := false |>, ew.2), wl_err_code err)
    | inr r =>
        (s, (ew.1 <| ep_step := r |> <| ep_stepping := false |>, ew.2),
         if negb (pr_service_errors r =? 0) then pr_service_result r
         else if negb (pr_poll_errors r =? 0) then wl_err_code (pr_poll_result r)
         else wl_err_code WL_OK)
    end.

Definition wl_endpoint_get_readiness_at (s : wl_ctx) (ew : world) (now : Z)
    : wl_ctx * wl_err * wl_readiness :=
  if negb (ep_ready ew.1) then (s, WL_ERR_NOT_INITIALIZED, wl_readiness_idle)
  else wl_pump_get_readiness s ew now (endpoint_hooks ew.1).

Definition wl_endpoint_get_readiness (s : wl_ctx) (ew : world) : wl_ctx * wl_err * wl_readiness :=
  match wl_endpoint_now ew with
  | inl err => (s, err, wl_readiness_idle)
  | inr now => wl_endpoint_get_readiness_at s ew now
  end.

(** The services are closed from the last to the first. *)
Fixpoint close_services (n : nat) (s : wl_ctx) (ew : world) : wl_ctx * world :=
  match n with
  | O => (s, ew)
  | S i =>
      let '(s, ew) :=
        match ep_services ew.1 !! i with
        | Some sv =>
            match sc_on_close sv with
            | Some f => user_close f (sc_user_data sv) s ew
            | None => (s, ew)
            end
        | None => (s, ew)
        end in
      close_services i s ew
  end.

Definition wl_endpoint_close (s : wl_ctx) (ew : world) : wl_ctx * world :=
  if negb (ep_ready ew.1) || ep_stepping ew.1 then (s, ew)
  else
    let ew := (ew.1 <| ep_stepping := true |>, ew.2) in
    let '(s, ew) := wl_pump_quiesce (ep_hooks ew.1) s ew in
    let '(s, ew) := close_services (length (ep_services ew.1)) s ew in
    (s, (ew.1 <| ep_services := [] |> <| ep_hooks := hooks_null |> <| ep_policy := policy_null |>
           <| ep_clock := clock_null |> <| ep_waiter := waiter_null |> <| ep_ready := false |>
           <| ep_stepping := false |>, ew.2)).
End Code.
