(* ===== verification/EndpointPass.v ===== *)
(** What the owner of an endpoint can rely on: it may sleep until the deadline the
    endpoint gives, and a service that was activated is stepped in the next pass. *)
From stdpp Require Import relations.
From S2P Require Import Prelude Cobs Frame RxRing UnitQueue Link LinkInv LinkProps LinkReady LinkMem LinkSteps LinkData LinkTrace LinkFair LinkDelivery LinkLease Pump Endpoint.
#[local] Open Scope wl_scope.

(** ** Sleeping *)

(** A condition on readiness values that holds of a merged value exactly when it
    holds of both parts. *)
Definition merging (Q : wl_readiness → Prop) : Prop :=
  ∀ v x, Q (wl_readiness_merge v x) ↔ Q v ∧ Q x.

(** Nothing to run, now and for [t] more milliseconds. *)
Definition idle_for (t : Z) (v : wl_readiness) : Prop := runnable v = false ∧ t < next_deadline_ms v.

Lemma idle_for_merging t : merging (idle_for t).
Proof.
  intros v x. unfold idle_for, wl_readiness_merge. cbn. rewrite orb_false_iff.
  destruct (_ <? _) eqn:?; split; intros; split_and?; try done; lia.
Qed.

Lemma idle_merging : merging (λ v, runnable v = false).
Proof. intros v x. unfold wl_readiness_merge. cbn. by rewrite orb_false_iff. Qed.

Section Sleep.
Context {plat : Platform} {F W : Type} {code : EndpointCode F W}.
Notation world := (endpoint F * W)%type.

(** The endpoint as a pass finds it: only the bookkeeping of the pass differs. *)
Definition same_setup (e e' : endpoint F) : Prop :=
  e' = e <| ep_now := ep_now e' |> <| ep_stepping := ep_stepping e' |> <| ep_started := ep_started e' |>.

(** What is relied on of the user's readiness and deadline callbacks between the
    world [w] of the query and the world [w'] of the pass. *)
Record user_sleeps (w w' : W) : Prop := {
  us_readiness (f : F) u s s' e e' now later :
    same_link s s' → same_setup e e' →
    idle_for (u32 (later - now)) (call_readiness f u s (e, w) now) →
    runnable (call_readiness f u s' (e', w') later) = false;
  us_deadline (f : F) u e e' now later :
    same_setup e e' → u32 (later - now) < user_deadline f u (e, w) now →
    user_deadline f u (e', w') later ≠ 0;
}.

Lemma hook_idle Q (f : option F) u s (ew : world) now v :
  merging Q →
  Q (merge_hook f u s ew now v) ↔ Q v ∧ (∀ g, f = Some g → Q (call_readiness g u s ew now)).
Proof.
  intros HQ. unfold merge_hook. destruct f as [g|]; [rewrite (HQ v)|].
  - split; intros [H1 H2]; split; auto. by intros ? [= <-].
  - split; [|by intros [? _]]. by intros H; split.
Qed.

Lemma deadline_idle Q f u (ew : world) now v :
  merging Q →
  Q (merge_deadline f u ew now v) ↔
  Q v ∧ (∀ g, f = Some g → Q (wl_readiness_at (user_deadline g u ew now))).
Proof.
  intros HQ. unfold merge_deadline. destruct f as [g|]; [rewrite (HQ v)|].
  - split; intros [H1 H2]; split; auto. by intros ? [= <-].
  - split; [|by intros [? _]]. by intros H; split.
Qed.

Lemma services_idle Q l (ew : world) now v :
  merging Q →
  Q (foldl (λ v sv, merge_deadline (sc_deadline_hint sv) (sc_user_data sv) ew now v) v l) ↔
  Q v ∧ Forall (λ sv, ∀ g, sc_deadline_hint sv = Some g →
                  Q (wl_readiness_at (user_deadline g (sc_user_data sv) ew now))) l.
Proof.
  intros HQ. revert v. induction l as [|sv l IH]; intros v; cbn [foldl].
  - split; [intros H; split; [done|constructor]|by intros [? _]].
  - rewrite IH, deadline_idle, Forall_cons by done. tauto.
Qed.

(** The sources of [endpoint_readiness]. *)
Lemma endpoint_idle Q s (e : endpoint F) (w : W) now :
  merging Q →
  (∀ b v, Q (mk_readiness (runnable v || b) (next_deadline_ms v) (blocked v)) ↔ Q v ∧ b = false) →
  Q (endpoint_readiness s (e, w) now) ↔
  Q wl_readiness_idle ∧
  (∀ g, hk_application_readiness (ep_hooks e) = Some g →
     Q (call_readiness g (hk_application_user_data (ep_hooks e)) s (e, w) now)) ∧
  (∀ g, po_deadline_hint (ep_policy e) = Some g →
     Q (wl_readiness_at (user_deadline g (po_user_data (ep_policy e)) (e, w) now))) ∧
  Forall (λ sv, ∀ g, sc_deadline_hint sv = Some g →
            Q (wl_readiness_at (user_deadline g (sc_user_data sv) (e, w) now))) (ep_services e) ∧
  ep_policy_pending e = false ∧ ep_services_active e = 0 ∧
  (bool_decide (is_Some (po_step (ep_policy e))) || negb (Nat.eqb (length (ep_services e)) 0))
    && negb (ep_resource_generation e =? resource_generation s) = false.
Proof.
  intros HQ Hb. unfold endpoint_readiness, wl_link_resource_generation. cbn [fst].
  rewrite <- !orb_assoc, Hb, (services_idle Q), (deadline_idle Q), (hook_idle Q), !orb_false_iff,
    negb_false_iff, Z.eqb_eq by done. tauto.
Qed.

Context (w w' : W) (Hw : user_sleeps w w').

Lemma user_hook_sleeps (f : option F) u e e' :
  same_setup e e' → sleeps (fn_user <$> f) u (e, w) (e', w').
Proof.
  intros He g s s' now later Hf Hs Hr Hl. destruct f as [f|]; [|done]. injection Hf as <-. cbn in *.
  by apply (us_readiness w w' Hw f u s s' e e' now later).
Qed.

Lemma deadline_sleeps (f : F) u e e' now later :
  same_setup e e' →
  idle_for (u32 (later - now)) (wl_readiness_at (user_deadline f u (e, w) now)) →
  runnable (wl_readiness_at (user_deadline f u (e', w') later)) = false.
Proof.
  intros He [_ Hl]. cbn. apply Z.eqb_neq. by apply (us_deadline w w' Hw f u e e' now).
Qed.

Lemma same_setup_fields e e' :
  same_setup e e' →
  ep_hooks e' = ep_hooks e ∧ ep_policy e' = ep_policy e ∧ ep_services e' = ep_services e ∧
  ep_policy_pending e' = ep_policy_pending e ∧ ep_services_active e' = ep_services_active e ∧
  ep_resource_generation e' = ep_resource_generation e.
Proof. intros He. rewrite He. done. Qed.

Lemma endpoint_readiness_sleeps u e e' :
  same_setup e e' → sleeps (Some fn_endpoint_readiness) u (e, w) (e', w').
Proof.
  intros He g s s' now later [= <-] Hs. cbn [call_readiness endpoint_pump]. intros Hr Hl.
  assert (idle_for (u32 (later - now)) (endpoint_readiness s (e, w) now)) as Hi by done.
  assert (resource_generation s' = resource_generation s) as Hg by by destruct Hs as (n & r & -> & _).
  apply endpoint_idle in Hi as (_ & H1 & H2 & H3 & H4 & H5 & H6); [|apply idle_for_merging|].
  - apply (endpoint_idle (λ v, runnable v = false)); [exact idle_merging| |].
    { intros b v. cbn. by rewrite orb_false_iff. }
    destruct (same_setup_fields e e' He) as (-> & -> & -> & -> & -> & ->). rewrite Hg.
    split_and!; try done.
    + intros g Eg. apply (us_readiness w w' Hw g _ s s' e e' now later Hs He). by apply H1.
    + intros g Eg. apply (deadline_sleeps g _ e e' now later He). by apply H2.
    + eapply Forall_impl; [exact H3|]. intros sv Hsv g Eg. cbn in Hsv.
      apply (deadline_sleeps g _ e e' now later He). by apply Hsv.
  - intros b v. unfold idle_for. cbn. rewrite orb_false_iff. tauto.
Qed.

Lemma endpoint_hooks_invalid (e : endpoint F) :
  hooks_invalid (ep_hooks e) = false → hooks_invalid (endpoint_hooks e) = false.
Proof.
  unfold hooks_invalid, endpoint_hooks.
  destruct (ep_hooks e) as [a [f1|] f2 [f3|] b [f4|] [f5|] f6]; destruct (_ || _ || _ || _); cbn; done.
Qed.

(** C15: an owner that sleeps as the endpoint allows misses nothing.  When the
    endpoint reports that nothing is runnable, a step at any time before the
    reported deadline calls none of the user's functions but their readiness and
    deadline queries, polls nothing, and changes the link in nothing but its clock
    and the cache of the delimiter search. *)
Theorem endpoint_sleep_safe s e now s1 hint budget :
  initialized s = true → is_u32 (ack_timeout_ms (config s)) →
  ep_ready e = true → ep_stepping e = false → hooks_invalid (ep_hooks e) = false → 0 < budget →
  wl_endpoint_get_readiness_at s (e, w) now = (s1, WL_OK, hint) → runnable hint = false →
  u32 (read_clock e w' - now) < next_deadline_ms hint →
  ∃ s2, wl_endpoint_step s1 (e, w') budget =
          (s2, (e <| ep_now := read_clock e w' |> <| ep_started := true |>
                  <| ep_step := pump_result_start |>, w'), wl_err_code WL_OK) ∧
        same_link s1 s2 ∧ now_ms s2 = read_clock e w'.
Proof.
  intros Hi Ha Hre Hst Hh Hb. unfold wl_endpoint_get_readiness_at. cbn [fst]. rewrite Hre. cbn [negb].
  set (e' := e <| ep_now := read_clock e w' |> <| ep_stepping := true |> <| ep_started := true |>).
  assert (same_setup e e') as He by done. intros Hq Hr Hl.
  assert (endpoint_hooks e' = endpoint_hooks e) as Ehk by done.
  destruct (pump_sleep_safe s (e, w) (e', w') now (endpoint_hooks e) s1 hint (read_clock e w') budget)
    as (s2 & E2 & Hs2 & Hn2); try done.
  - by apply endpoint_hooks_invalid.
  - unfold endpoint_hooks. destruct (_ || _ || _ || _); by apply user_hook_sleeps.
  - unfold endpoint_hooks. destruct (_ || _ || _ || _);
      [by apply endpoint_readiness_sleeps|by apply user_hook_sleeps].
  - exists s2. split; [|done]. unfold wl_endpoint_step. rewrite Hre, Hst. cbn [negb].
    destruct (Z.eqb_spec budget 0) as [->|_]; [lia|]. fold e'. rewrite Ehk.
    change (ep_now e') with (read_clock e w'). rewrite E2. destruct e. cbn in Hst. subst. reflexivity.
Qed.
End Sleep.

(** ** An activated service is stepped *)

Lemma service_bit_testbit i j : Z.testbit (service_bit i) (Z.of_nat j) = Nat.eqb i j.
Proof.
  unfold service_bit. rewrite Z.shiftl_spec by lia.
  destruct (Nat.eqb_spec i j) as [->|Hne]; [by rewrite Z.sub_diag|].
  destruct (Z.lt_ge_cases (Z.of_nat j - Z.of_nat i) 0); [by apply Z.testbit_neg_r|].
  apply Z.bits_above_log2; cbn; lia.
Qed.

Section Served.
Context {plat : Platform} {F W : Type} {code : EndpointCode F W}.
Notation world := (endpoint F * W)%type.

(** What a callback keeps of the endpoint it runs in: it may activate, and it cannot
    replace the setup or take an activation back. *)
Record keeps (e e' : endpoint F) : Prop := {
  kp_hooks : ep_hooks e' = ep_hooks e;
  kp_policy : ep_policy e' = ep_policy e;
  kp_services : ep_services e' = ep_services e;
  kp_cursor : ep_service_cursor e' = ep_service_cursor e;
  kp_active i : Z.testbit (ep_services_active e) i = true →
                Z.testbit (ep_services_active e') i = true;
}.

#[export] Instance keeps_preorder : PreOrder keeps.
Proof.
  split; [by split|]. intros e1 e2 e3 [? ? ? ? A1] [? ? ? ? A2].
  split; try congruence. intros i Hi. by apply A2, A1.
Qed.

Context (P : W → Prop).

Definition kept : relation world := λ ew ew', keeps ew.1 ew'.1 ∧ (P ew.2 → P ew'.2).

#[export] Instance kept_preorder : PreOrder kept.
Proof.
  split; [by split|]. intros x y z [K1 P1] [K2 P2]. split; [by etrans|auto].
Qed.

(** Every callback of the user keeps the endpoint's setup and [P]. *)
Record callback_laws : Prop := {
  cl_service (f : F) u s ew : kept ew (call_service f u s ew).1.2;
  cl_step (f : F) u s ew now : kept ew (call_step f u s ew now).1.2;
  cl_event (f : F) u s ew ev now : kept ew (call_event f u s ew ev now).1.2;
  cl_observe (f : F) u s ew ev now : kept ew (user_observe f u s ew ev now).2;
  cl_work (f : F) u s ew now : kept ew (user_work f u s ew now).1.2;
  cl_session (f : F) u s ew previous session now :
    kept ew (user_session f u s ew previous session now).2;
}.
Context (Hlaws : callback_laws).

Lemma activate_services_mono (l : list (service F)) a i :
  Z.testbit a i = true → Z.testbit (activate_services l a) i = true.
Proof.
  unfold activate_services. generalize (imap pair l). intros k. revert a.
  induction k as [|[j sv] k IH]; intros a Ha; [done|]. cbn. apply IH.
  destruct (bool_decide _); [|done]. by rewrite Z.lor_spec, Ha.
Qed.

Lemma announce_kept previous session now s (ew : world) :
  kept ew (announce_session previous session now s ew).2.
Proof.
  unfold announce_session. generalize (seq 0 (length (ep_services ew.1))). intros l.
  revert s ew. induction l as [|i l IH]; intros s ew; [done|]. cbn [foldl].
  destruct (ep_services ew.1 !! i) as [sv|]; [|apply IH].
  destruct (sc_on_peer_session sv) as [f|]; [|apply IH].
  pose proof (cl_session Hlaws f (sc_user_data sv) s ew previous session now) as Hk.
  destruct (user_session _ _ _ _ _ _ _) as [s1 ew1]. etrans; [exact Hk|apply IH].
Qed.

Lemma endpoint_event_kept s (ew : world) ev now : kept ew (endpoint_event s ew ev now).1.2.
Proof.
  destruct ew as [e w]. unfold endpoint_event.
  set (e1 := e <| ep_policy_pending := _ |> <| ep_services_active := _ |>).
  assert (∀ e2 : endpoint F, ep_hooks e2 = ep_hooks e1 → ep_policy e2 = ep_policy e1 →
    ep_services e2 = ep_services e1 → ep_service_cursor e2 = ep_service_cursor e1 →
    ep_services_active e2 = ep_services_active e1 → kept (e, w) (e2, w)) as K.
  { intros e2 E1 E2 E3 E4 E5. split; [|done]. cbn [fst]. split; rewrite ?E1, ?E2, ?E3, ?E4, ?E5; try done.
    intros i. apply activate_services_mono. }
  match goal with |- context [let '(_, _) := ?x in _] => assert (kept (e, w) x.2) as K1 end.
  { destruct (_ && _); [|by apply K]. etrans; [|apply announce_kept]. by apply K. }
  match goal with |- context [let '(_, _) := ?x in _] => destruct x as [s1 ew1] end. cbn [snd] in K1.
  match goal with |- context [let '(_, _) := ?x in _] => assert (kept (e, w) x.2) as K2 end.
  { destruct (po_on_event _); [|done]. etrans; [exact K1|apply (cl_observe Hlaws)]. }
  match goal with |- context [let '(_, _) := ?x in _] => destruct x as [s2 ew2] end. cbn [snd] in K2.
  destruct (hk_on_event _); [|done]. etrans; [exact K2|apply (cl_event Hlaws)].
Qed.

Lemma observe_resources_keeps s (e : endpoint F) : keeps e (observe_resources s e).
Proof.
  unfold observe_resources. destruct (_ =? _); [done|]. split; try done.
  intros i. apply activate_services_mono.
Qed.

Lemma policy_turn_kept s (ew : world) now : kept ew (policy_turn s ew now).1.2.
Proof.
  unfold policy_turn. destruct (po_step _) as [f|]; [|done]. destruct (_ || _); [|done].
  pose proof (cl_work Hlaws f (po_user_data (ep_policy ew.1)) s
    (ew.1 <| ep_policy_pending := false |>, ew.2) now) as [K Hp].
  destruct (user_work _ _ _ _ _) as [[s1 ew1] [d m]]. cbn in *. by split; [destruct K; split|].
Qed.

Lemma application_turn_kept s (ew : world) now : kept ew (application_turn s ew now).1.2.
Proof.
  unfold application_turn. destruct (hk_application_step _) as [f|]; [|done].
  destruct (hook_runnable _ _ _ _ _); [|done]. apply (cl_step Hlaws).
Qed.

(** A turn of service [j] keeps the activation of every other service. *)
Lemma service_turn_kept j s (ew : world) now :
  let ew' := (service_turn j s ew now).1.2 in
  ep_services ew'.1 = ep_services ew.1 ∧ (P ew.2 → P ew'.2) ∧
  ∀ i, i ≠ j → Z.testbit (ep_services_active ew.1) (Z.of_nat i) = true →
       Z.testbit (ep_services_active ew'.1) (Z.of_nat i) = true.
Proof.
  unfold service_turn. destruct (ep_services ew.1 !! j) as [sv|]; [|done].
  destruct (sc_step sv) as [f|]; [|done]. destruct (_ || _); [|done].
  pose proof (cl_work Hlaws f (sc_user_data sv) s
    (ew.1 <| ep_services_active := Z.ldiff (ep_services_active ew.1) (service_bit j) |>, ew.2) now)
    as [[_ _ K _ A] Hp].
  destruct (user_work _ _ _ _ _) as [[s1 ew1] [d m]]. cbn [fst snd] in *.
  assert (∀ i, i ≠ j → Z.testbit (ep_services_active ew.1) (Z.of_nat i) = true →
    Z.testbit (ep_services_active ew1.1) (Z.of_nat i) = true) as B.
  { intros i Hi Hb. apply A. cbn. rewrite Z.ldiff_spec, Hb, service_bit_testbit.
    by destruct (Nat.eqb_spec j i). }
  destruct m; cbn; split_and!; try done. intros i Hi Hb. by rewrite Z.lor_spec, B.
Qed.

Lemma service_turns_kept n j s (ew : world) now b : P ew.2 → P (service_turns n j s ew now b).1.2.2.
Proof.
  revert j s ew b. induction n as [|n IH]; intros j s ew b HP; [done|]. cbn [service_turns].
  destruct (service_turn_kept j s ew now) as (_ & Hp & _).
  destruct (service_turn j s ew now) as [[s1 ew1] d]. by apply IH, Hp.
Qed.

Section Turn.
Context (i : nat) (sv : service F) (f : F).
Context (Hstep : sc_step sv = Some f).
Context (Hserved : ∀ s ew now, P (user_work f (sc_user_data sv) s ew now).1.2.2).

Lemma service_turn_serves s (ew : world) now :
  ep_services ew.1 !! i = Some sv → Z.testbit (ep_services_active ew.1) (Z.of_nat i) = true →
  P (service_turn i s ew now).1.2.2.
Proof.
  intros Hi Hb. unfold service_turn. rewrite Hi, Hstep, Hb. cbn [orb].
  match goal with |- context [user_work f ?u s ?x now] => pose proof (Hserved s x now) as H end.
  by destruct (user_work _ _ _ _ _) as [[s1 ew1] [d m]].
Qed.

(** How many turns from [j] on it takes to reach [i] of [n]. *)
Definition turns_to (n j : nat) : nat := if Nat.leb j i then i - j else i + n - j.

Lemma service_turns_serve n j s (ew : world) now b m :
  length (ep_services ew.1) = n → (j < n)%nat → (turns_to n j < m)%nat →
  ep_services ew.1 !! i = Some sv → Z.testbit (ep_services_active ew.1) (Z.of_nat i) = true →
  P (service_turns m j s ew now b).1.2.2.
Proof.
  intros Hn Hj Hm Hi Hb. assert (i < n)%nat as Hin by (subst n; by eapply lookup_lt_Some).
  revert j s ew b Hn Hj Hm Hi Hb. induction m as [|m IH]; intros j s ew b Hn Hj Hm Hi Hb; [lia|].
  cbn [service_turns]. pose proof (service_turn_serves s ew now Hi Hb) as Hs.
  destruct (service_turn_kept j s ew now) as (Ks & _ & Kb).
  destruct (decide (j = i)) as [->|Hne].
  - destruct (service_turn i s ew now) as [[s1 ew1] d]. by apply service_turns_kept.
  - specialize (Kb i (not_eq_sym Hne) Hb).
    destruct (service_turn j s ew now) as [[s1 ew1] d]. cbn [fst snd] in *.
    rewrite Ks, Hn. apply IH; try congruence.
    + destruct (Nat.eqb_spec (S j) n); lia.
    + unfold turns_to in *. destruct (Nat.eqb_spec (S j) n) as [<-|];
        repeat match goal with |- context [Nat.leb ?a ?b] => destruct (Nat.leb_spec a b) end;
        destruct (Nat.leb_spec j i); lia.
Qed.

Lemma step_application_serves s (ew : world) now :
  0 <= ep_service_cursor ew.1 < Z.of_nat (length (ep_services ew.1)) →
  ep_services ew.1 !! i = Some sv → Z.testbit (ep_services_active ew.1) (Z.of_nat i) = true →
  P (endpoint_step_application s ew now).1.2.2.
Proof.
  intros Hc Hi Hb. unfold endpoint_step_application, application_only.
  destruct (Nat.eqb_spec (length (ep_services ew.1)) 0) as [E|_]; [lia|]. rewrite andb_false_r.
  assert (kept ew (observe_resources s ew.1, ew.2)) as K0
    by (split; [apply observe_resources_keeps|done]).
  pose proof (policy_turn_kept s (observe_resources s ew.1, ew.2) now) as K1.
  destruct (policy_turn _ _ _) as [[s1 ew1] b1]. cbn [fst snd] in K1.
  pose proof (application_turn_kept s1 ew1 now) as K2.
  destruct (application_turn _ _ _) as [[s2 ew2] b2]. cbn [fst snd] in K2.
  assert (kept ew ew2) as [[_ _ Ks Kc Ka] _] by (etrans; [exact K0|]; by etrans).
  pose proof (service_turns_serve (length (ep_services ew2.1)) (Z.to_nat (ep_service_cursor ew2.1))
    s2 ew2 now (b1 || b2) (length (ep_services ew2.1))) as H.
  destruct (service_turns _ _ _ _ _ _) as [[s3 ew3] b3]. cbn [fst snd] in *. apply H; clear H.
  - done.
  - rewrite Ks, Kc. lia.
  - rewrite Ks, Kc. apply lookup_lt_Some in Hi. unfold turns_to.
    destruct (Nat.leb_spec (Z.to_nat (ep_service_cursor ew.1)) i); lia.
  - by rewrite Ks.
  - by apply Ka.
Qed.
End Turn.

Lemma endpoint_hooks_services (e : endpoint F) :
  length (ep_services e) ≠ 0%nat →
  hk_service (endpoint_hooks e) = fn_user <$> hk_service (ep_hooks e) ∧
  hk_on_event (endpoint_hooks e) = Some fn_endpoint_event ∧
  hk_application_step (endpoint_hooks e) = Some fn_endpoint_step_application ∧
  hk_application_readiness (endpoint_hooks e) = Some fn_endpoint_readiness.
Proof. intros Hl. unfold endpoint_hooks. by destruct (Nat.eqb_spec (length (ep_services e)) 0). Qed.

(** The part of a pass before the application's step. *)
Lemma pump_prefix_kept e w s now r n :
  length (ep_services e) ≠ 0%nat →
  ∃ s2 ew2 r2 r1 s1 ew1,
    pump_service (endpoint_hooks e) s (e, w) now r = (s1, ew1, r1) ∧
    pump_events n (endpoint_hooks e) s1 ew1 now r1 = (s2, ew2, r2) ∧ kept (e, w) ew2.
Proof.
  intros Hlen. destruct (endpoint_hooks_services e Hlen) as (Hk1 & Hk2 & _).
  assert (∀ (g : endpoint_fn F) s ew, hk_service (endpoint_hooks e) = Some g →
    kept ew (call_service g (hk_adapter_user_data (endpoint_hooks e)) s ew).1.2) as Hs.
  { intros g s' ew. rewrite Hk1. destruct (hk_service (ep_hooks e)) as [f|]; [|done].
    intros [= <-]. apply (cl_service Hlaws). }
  assert (∀ (g : endpoint_fn F) s ew ev now, hk_on_event (endpoint_hooks e) = Some g →
    kept ew (call_event g (hk_application_user_data (endpoint_hooks e)) s ew ev now).1.2) as He.
  { intros g s' ew ev now'. rewrite Hk2. intros [= <-]. apply endpoint_event_kept. }
  pose proof (service_kept (endpoint_hooks e) kept Hs s (e, w) now r) as K1.
  destruct (pump_service _ _ _ _ _) as [[s1 ew1] r1] eqn:E1.
  pose proof (events_kept (endpoint_hooks e) kept He n s1 ew1 now r1) as K2.
  destruct (pump_events _ _ _ _ _ _) as [[s2 ew2] r2] eqn:E2. cbn [fst snd] in *.
  exists s2, ew2, r2, r1, s1, ew1. split; [done|]. split; [done|]. by etrans.
Qed.

Lemma active_runnable i s (ew : world) now :
  Z.testbit (ep_services_active ew.1) (Z.of_nat i) = true →
  runnable (endpoint_readiness s ew now) = true.
Proof.
  intros Hb. unfold endpoint_readiness. cbn.
  destruct (Z.eqb_spec (ep_services_active ew.1) 0) as [E|_].
  - by rewrite E, Z.bits_0 in Hb.
  - cbn. by rewrite !orb_true_r.
Qed.

(** a service that was activated is stepped in the next pass, wherever the
    rotation stands and whatever events the pass handles.  Its step is given by
    what it achieves: [P] holds of the world whenever that step has run, and no
    callback undoes it; the callbacks may activate services and policy, but not
    replace the setup. *)
Theorem endpoint_activation_served s e w i ew budget sv f :
  initialized s = true → ep_stepping e = false → hooks_invalid (ep_hooks e) = false → budget ≠ 0 →
  0 <= ep_service_cursor e < Z.of_nat (length (ep_services e)) →
  ep_services e !! i = Some sv → sc_step sv = Some f →
  (∀ s ew now, P (user_work f (sc_user_data sv) s ew now).1.2.2) →
  wl_endpoint_activate_service (e, w) i = (ew, WL_OK) →
  P (wl_endpoint_step s ew budget).1.2.2.
Proof.
  intros Hin Hst Hh Hb Hc Hi Hf HP. unfold wl_endpoint_activate_service. cbn [fst].
  destruct (Nat.leb _ _); [done|]. destruct (ep_ready e) eqn:Hre; [|done]. cbn [negb]. intros [= <-].
  unfold wl_endpoint_step. cbn [snd ep_ready]. rewrite Hre. cbn [negb].
  destruct (Z.eqb_spec budget 0) as [?|_]; [done|]. cbn [ep_stepping]. rewrite Hst.
  match goal with |- context [wl_pump_step s (?x, ?y) _ _ _] => set (e1 := x); set (w1 := y) end.
  assert (Z.testbit (ep_services_active e1) (Z.of_nat i) = true) as Hbit.
  { cbn. by rewrite Z.lor_spec, service_bit_testbit, Nat.eqb_refl, orb_true_r. }
  assert (length (ep_services e1) ≠ 0%nat) as Hlen by (change (ep_services e1) with (ep_services e); lia).
  destruct (endpoint_hooks_services e1 Hlen) as (Hk1 & Hk2 & Hk3 & Hk4).
  unfold wl_pump_step. rewrite endpoint_hooks_invalid by done.
  destruct (Z.eqb_spec budget 0) as [?|_]; [done|]. rewrite Hin. cbn [orb negb].
  destruct (pump_prefix_kept e1 w1 (s <| now_ms := ep_now e1 |>) (ep_now e1) pump_result_start
    (Z.to_nat budget) Hlen) as (s2 & ew2 & r2 & r1 & s1 & ew1 & E1 & E2 & K).
  rewrite E1, E2. destruct K as [[_ _ Ks Kc Ka] _]. cbn [fst] in Ks, Kc, Ka.
  unfold pump_application. rewrite Hk3, Hk4. cbn [hook_runnable call_readiness endpoint_pump].
  rewrite (active_runnable i) by by apply Ka. cbn [call_step endpoint_pump].
  pose proof (step_application_serves i sv f Hf HP s2 ew2 (ep_now e1)) as H.
  destruct (endpoint_step_application s2 ew2 (ep_now e1)) as [[s3 ew3] b]. cbn in *.
  apply H; [by rewrite Ks, Kc|by rewrite Ks|by apply Ka].
Qed.
End Served.

(** ** An endpoint with three services

    Its world is the time and the services that were stepped, by their user data; the
    user data of a deadline is the time it is due at. *)
Definition due_in (due now : Z) : Z :=
  let elapsed := u32 (now - 0) in if elapsed >=? u32 due then 0 else u32 due - elapsed.

#[export] Instance stepper_code : EndpointCode unit (Z * list Z) := {
  user_pump := {|
    call_service _ _ s ew := (s, ew, 0);
    call_quiesce _ _ s ew := (s, ew);
    call_readiness _ due _ _ now := wl_readiness_at (due_in due now);
    call_step _ _ s ew _ := (s, ew, false);
    call_event _ _ s ew _ _ := (s, ew, WL_PUMP_EVENT_UNHANDLED);
  |};
  user_now _ _ w := w.1;
  user_notify _ _ w := w;
  user_observe _ _ s ew _ _ := (s, ew);
  user_work _ u s ew _ := (s, (ew.1, (ew.2.1, ew.2.2 ++ [u])), (true, false));
  user_deadline _ due _ now := due_in due now;
  user_session _ _ s ew _ _ _ := (s, ew);
  user_close _ _ s ew := (s, ew);
}.

Definition stepper (user_data : Z) : service unit :=
  mk_service user_data (Some tt) (Some tt) None None.

Definition blank_endpoint : endpoint unit :=
  mk_endpoint hooks_null policy_null [] 0 0 pump_result_start clock_null waiter_null 0 0 false false 0
    0 false false.

Definition demo_endpoint : endpoint unit :=
  let p := demo_platform (λ _, WL_SINK_SENT) in
  let application := mk_pump_hooks 0 None None None 70 (Some tt) (Some tt) (Some tt) in
  let e := (wl_endpoint_init (demo_start p demo_cfg) blank_endpoint demo_cfg demo_stg
              (mk_clock (Some tt) 0) application).1.2 in
  (wl_endpoint_set_services e [stepper 50; stepper 60; stepper 70]).1
    <| ep_service_cursor := 1 |> <| ep_services_active := 0 |>.

Lemma stepper_laws : callback_laws (λ w : Z * list Z, 50 ∈ w.2).
Proof.
  split; try done. intros f u s ew now. split; [done|]. cbn. intros H. apply elem_of_app. by left.
Qed.

(** The first service is stepped although the rotation is at the second one. *)
Lemma endpoint_activation_served_witness :
  let p := demo_platform (λ _, WL_SINK_SENT) in
  let s := demo_start p demo_cfg in
  let ew := (wl_endpoint_activate_service (demo_endpoint, (3, [])) 0).1 in
  50 ∈ (wl_endpoint_step s ew 4).1.2.2.2 ∧ (wl_endpoint_step s ew 4).1.2.2.2 = [50].
Proof.
  intros p s ew. split; [|vm_compute; reflexivity].
  apply (endpoint_activation_served (λ w, 50 ∈ w.2) stepper_laws s demo_endpoint (3, []) 0 ew 4
    (stepper 50) tt).
  - vm_compute. reflexivity.
  - vm_compute. reflexivity.
  - vm_compute. reflexivity.
  - lia.
  - vm_compute. split; congruence.
  - vm_compute. reflexivity.
  - reflexivity.
  - intros. cbn. apply elem_of_app. right. by apply list_elem_of_singleton.
  - vm_compute. reflexivity.
Defined.

Lemma due_in_sleeps due now later : u32 (later - now) < due_in due now → due_in due later ≠ 0.
Proof.
  unfold due_in. cbv zeta. assert (is_u32 (u32 due)) as Hd by by apply Z.mod_pos_bound.
  destruct (u32 (now - 0) >=? u32 due) eqn:E1.
  { intros Hl. pose proof (Z.mod_pos_bound (later - now) (2 ^ 32) eq_refl). unfold u32 in Hl. lia. }
  intros Hl%u32_deadline; [|done]. destruct (u32 (later - 0) >=? u32 due) eqn:E2; lia.
Qed.

Lemma stepper_sleeps t t' l : user_sleeps (t, l) (t', l).
Proof.
  split.
  - intros f u s s' e e' now later _ _ [_ Hl]. cbn in *. apply Z.eqb_neq. by apply (due_in_sleeps u now).
  - intros f u e e' now later _ Hl. cbn in *. by apply (due_in_sleeps u now).
Qed.

(** Everything is due at 50 or later, and the owner wakes at 40. *)
Lemma endpoint_sleep_safe_witness :
  let p := demo_platform (λ _, WL_SINK_SENT) in
  let s := demo_start p demo_cfg in
  let s1 := (wl_endpoint_get_readiness_at s (demo_endpoint, (3, [])) 3).1.1 in
  let hint := mk_readiness false 47 true in
  ∃ s2, wl_endpoint_step s1 (demo_endpoint, (40, [])) 4 =
          (s2, (demo_endpoint <| ep_now := read_clock demo_endpoint (40, []) |> <| ep_started := true |>
                  <| ep_step := pump_result_start |>, (40, [])), wl_err_code WL_OK) ∧
        same_link s1 s2 ∧ now_ms s2 = read_clock demo_endpoint (40, []).
Proof.
  intros p s s1 hint.
  apply (endpoint_sleep_safe (3, []) (40, []) (stepper_sleeps 3 40 []) s demo_endpoint 3 s1 hint 4).
  - vm_compute. reflexivity.
  - split; vm_compute; congruence.
  - vm_compute. reflexivity.
  - vm_compute. reflexivity.
  - vm_compute. reflexivity.
  - lia.
  - refine (surjective_result _ _ _ _ _); vm_compute; reflexivity.
  - reflexivity.
  - vm_compute. reflexivity.
Defined.
