(* ===== verification/Fifo.v ===== *)
(** The queue of fixed-size values between two threads: [src/src/fifo.c].

    One producer claims a slot, fills it and publishes it; one consumer borrows
    the oldest published slot and releases it.  The cursors run freely through
    the 32-bit range and the slot indices are kept beside them, so any capacity
    below [2 ^ 31] works.  Every operation makes at most one access to the cursor
    of the other side that its result depends on, so the operations are taken as
    atomic and interleaved freely.

    [fifo_refines] is the contract: whatever the interleaving, the queue answers
    every call like a bounded list of values. *)
From S2P Require Import Prelude Slots.

(** ** State *)

Definition WL_FIFO_MAGIC : Z := 0x574c4651.
Definition WL_FIFO_MAX_CAPACITY : Z := 0x80000000.
Definition WL_FIFO_CONTEXT_STORAGE_SIZE : Z := 128.

(** [wl_fifo_impl_t] *)
Record fifo := mk_fifo {
  ff_magic : Z;
  ff_storage : Z;
  ff_value_size : Z;
  ff_slot_stride : Z;
  ff_capacity : Z;
  ff_write_cursor : Z;
  ff_write_index : Z;
  ff_write_token : Z;
  ff_write_claimed : bool;
  ff_read_cursor : Z;
  ff_read_index : Z;
  ff_read_token : Z;
  ff_read_borrowed : bool;
  ff_published_cursor : Z;
  ff_consumed_cursor : Z;
  ff_high_watermark : Z;
  ff_publishes : Z;
  ff_consumes : Z;
  ff_full_rejections : Z;
  ff_empty_reads : Z;
  ff_aborts : Z;
  ff_resets : Z;
  ff_errors : Z;
}.

#[export] Instance rebuild_fifo : Rebuild fifo := λ f,
  mk_fifo (ff_magic f) (ff_storage f) (ff_value_size f) (ff_slot_stride f) (ff_capacity f)
    (ff_write_cursor f) (ff_write_index f) (ff_write_token f) (ff_write_claimed f)
    (ff_read_cursor f) (ff_read_index f) (ff_read_token f) (ff_read_borrowed f)
    (ff_published_cursor f) (ff_consumed_cursor f) (ff_high_watermark f) (ff_publishes f)
    (ff_consumes f) (ff_full_rejections f) (ff_empty_reads f) (ff_aborts f) (ff_resets f)
    (ff_errors f).
#[export] Instance fs_ff_magic : FieldSet ff_magic := _.
#[export] Instance fs_ff_storage : FieldSet ff_storage := _.
#[export] Instance fs_ff_value_size : FieldSet ff_value_size := _.
#[export] Instance fs_ff_slot_stride : FieldSet ff_slot_stride := _.
#[export] Instance fs_ff_capacity : FieldSet ff_capacity := _.
#[export] Instance fs_ff_write_cursor : FieldSet ff_write_cursor := _.
#[export] Instance fs_ff_write_index : FieldSet ff_write_index := _.
#[export] Instance fs_ff_write_token : FieldSet ff_write_token := _.
#[export] Instance fs_ff_write_claimed : FieldSet ff_write_claimed := _.
#[export] Instance fs_ff_read_cursor : FieldSet ff_read_cursor := _.
#[export] Instance fs_ff_read_index : FieldSet ff_read_index := _.
#[export] Instance fs_ff_read_token : FieldSet ff_read_token := _.
#[export] Instance fs_ff_read_borrowed : FieldSet ff_read_borrowed := _.
#[export] Instance fs_ff_published_cursor : FieldSet ff_published_cursor := _.
#[export] Instance fs_ff_consumed_cursor : FieldSet ff_consumed_cursor := _.
#[export] Instance fs_ff_high_watermark : FieldSet ff_high_watermark := _.
#[export] Instance fs_ff_publishes : FieldSet ff_publishes := _.
#[export] Instance fs_ff_consumes : FieldSet ff_consumes := _.
#[export] Instance fs_ff_full_rejections : FieldSet ff_full_rejections := _.
#[export] Instance fs_ff_empty_reads : FieldSet ff_empty_reads := _.
#[export] Instance fs_ff_aborts : FieldSet ff_aborts := _.
#[export] Instance fs_ff_resets : FieldSet ff_resets := _.
#[export] Instance fs_ff_errors : FieldSet ff_errors := _.

Definition fifo_zero : fifo :=
  mk_fifo 0 NULL 0 0 0 0 0 0 false 0 0 0 false 0 0 0 0 0 0 0 0 0 0.

Record fifo_config := mk_fifo_config {
  fc_value_size : Z;
  fc_value_alignment : Z;
  fc_capacity : Z;
}.

Record fifo_requirements := mk_fifo_requirements {
  fr_storage_size : Z;
  fr_slot_stride : Z;
  fr_slot_count : Z;
}.

Record fifo_storage := mk_fifo_storage { fb_data : Z; fb_size : Z }.

(** [wl_fifo_write_claim_t] and [wl_fifo_view_t] have the same fields. *)
Record fifo_lease := mk_fifo_lease {
  fl_value : Z;
  fl_value_size : Z;
  fl_token : Z;
  fl_private_slot : Z;
}.

#[export] Instance fifo_lease_eq_dec : EqDecision fifo_lease.
Proof. solve_decision. Defined.

Definition fifo_lease_zero : fifo_lease := mk_fifo_lease NULL 0 0 0.

Record fifo_stats := mk_fifo_stats {
  fifo_depth : Z;
  fifo_high_watermark : Z;
  fifo_publishes : Z;
  fifo_consumes : Z;
  fifo_full_rejections : Z;
  fifo_empty_reads : Z;
  fifo_aborts : Z;
  fifo_resets : Z;
  fifo_errors : Z;
}.

(** ** Operations *)

Definition wl_fifo_initialized (f : fifo) : bool := ff_magic f =? WL_FIFO_MAGIC.

Definition wl_fifo_slot (f : fifo) (index : Z) : Z := ff_storage f + index * ff_slot_stride f.

Definition wl_fifo_next_token (token : Z) : Z :=
  let token := u32 (token + 1) in if token =? 0 then 1 else token.

Definition wl_fifo_next_index (index capacity : Z) : Z :=
  let index := u32 (index + 1) in if index =? capacity then 0 else index.

Definition wl_fifo_counter_max (counter value : Z) : Z :=
  if counter <? value then value else counter.

Definition wl_fifo_error (f : fifo) (error : wl_err) : fifo * wl_err :=
  (f <| ff_errors := counter_increment (ff_errors f) |>, error).

Definition wl_fifo_claim_matches (f : fifo) (claim : fifo_lease) : bool :=
  ff_write_claimed f && negb (fl_token claim =? 0) && (fl_token claim =? ff_write_token f)
  && (fl_private_slot claim =? ff_write_index f)
  && (fl_value claim =? wl_fifo_slot f (ff_write_index f))
  && (fl_value_size claim =? ff_value_size f).

Definition wl_fifo_view_matches (f : fifo) (view : fifo_lease) : bool :=
  ff_read_borrowed f && negb (fl_token view =? 0) && (fl_token view =? ff_read_token f)
  && (fl_private_slot view =? ff_read_index f)
  && (fl_value view =? wl_fifo_slot f (ff_read_index f))
  && (fl_value_size view =? ff_value_size f).

Definition wl_fifo_requirements (config : fifo_config) : wl_err + fifo_requirements :=
  if (fc_value_size config =? 0) || (fc_value_alignment config =? 0)
     || (fc_capacity config =? 0) || (fc_capacity config >=? WL_FIFO_MAX_CAPACITY)
  then inl WL_ERR_INVALID_ARG
  else
    let alignment := fc_value_alignment config in
    if negb (Z.land alignment (alignment - 1) =? 0) || (alignment >? SIZE_MAX)
       || (fc_value_size config >? SIZE_MAX - (alignment - 1))
    then inl WL_ERR_INVALID_ARG
    else
      let stride := align_up (fc_value_size config) alignment in
      if stride >? SIZE_MAX / fc_capacity config then inl WL_ERR_INVALID_ARG
      else inr (mk_fifo_requirements (usize (stride * fc_capacity config)) stride
                  (fc_capacity config)).

(** [fifo_address] is the address of the object; [lock_free] what
    [atomic_is_lock_free] answers. *)
Definition wl_fifo_init (lock_free : bool) (fifo_address : Z) (f : fifo) (config : fifo_config)
    (storage : fifo_storage) : fifo * wl_err :=
  if fb_data storage =? NULL then (f, WL_ERR_INVALID_ARG)
  else
    match wl_fifo_requirements config with
    | inl e => (f, e)
    | inr requirements =>
        if fb_size storage <? fr_storage_size requirements then (f, WL_ERR_BUF_TOO_SMALL)
        else if negb (Z.land (fb_data storage) (fc_value_alignment config - 1) =? 0)
        then (f, WL_ERR_INVALID_ARG)
        else if ((fb_data storage <=? fifo_address)
                 && (fifo_address - fb_data storage <? fr_storage_size requirements))
                || ((fifo_address <? fb_data storage)
                    && (fb_data storage - fifo_address <? WL_FIFO_CONTEXT_STORAGE_SIZE))
        then (f, WL_ERR_INVALID_ARG)
        else
          let f := fifo_zero <| ff_storage := fb_data storage |>
                     <| ff_value_size := fc_value_size config |>
                     <| ff_slot_stride := fr_slot_stride requirements |>
                     <| ff_capacity := fc_capacity config |> in
          if negb lock_free then (f, WL_ERR_NOT_SUPPORTED)
          else (f <| ff_magic := WL_FIFO_MAGIC |>, WL_OK)
    end.

Definition wl_fifo_write_claim (f : fifo) : fifo * wl_err * fifo_lease :=
  if negb (wl_fifo_initialized f) then (f, WL_ERR_NOT_INITIALIZED, fifo_lease_zero)
  else if ff_write_claimed f then
    let '(f, e) := wl_fifo_error f WL_ERR_BUSY in (f, e, fifo_lease_zero)
  else
    let consumed := ff_consumed_cursor f in
    if u32 (ff_write_cursor f - consumed) >=? ff_capacity f then
      (f <| ff_full_rejections := counter_increment (ff_full_rejections f) |>,
       WL_ERR_QUEUE_FULL, fifo_lease_zero)
    else
      let f := f <| ff_write_token := wl_fifo_next_token (ff_write_token f) |>
                 <| ff_write_claimed := true |> in
      (f, WL_OK, mk_fifo_lease (wl_fifo_slot f (ff_write_index f)) (ff_value_size f)
                   (ff_write_token f) (ff_write_index f)).

Definition wl_fifo_write_publish (f : fifo) (claim : fifo_lease) : fifo * wl_err :=
  if negb (wl_fifo_initialized f) then (f, WL_ERR_NOT_INITIALIZED)
  else if negb (wl_fifo_claim_matches f claim) then wl_fifo_error f WL_ERR_INVALID_STATE
  else
    let next_cursor := u32 (ff_write_cursor f + 1) in
    let consumed := ff_consumed_cursor f in
    let depth := u32 (next_cursor - consumed) in
    (f <| ff_write_cursor := next_cursor |>
       <| ff_write_index := wl_fifo_next_index (ff_write_index f) (ff_capacity f) |>
       <| ff_write_claimed := false |>
       <| ff_published_cursor := next_cursor |>
       <| ff_high_watermark := wl_fifo_counter_max (ff_high_watermark f) depth |>
       <| ff_publishes := counter_increment (ff_publishes f) |>, WL_OK).

Definition wl_fifo_write_abort (f : fifo) (claim : fifo_lease) : fifo * wl_err :=
  if negb (wl_fifo_initialized f) then (f, WL_ERR_NOT_INITIALIZED)
  else if negb (wl_fifo_claim_matches f claim) then wl_fifo_error f WL_ERR_INVALID_STATE
  else (f <| ff_write_claimed := false |>
          <| ff_aborts := counter_increment (ff_aborts f) |>, WL_OK).

Definition wl_fifo_read_acquire (f : fifo) : fifo * wl_err * fifo_lease :=
  if negb (wl_fifo_initialized f) then (f, WL_ERR_NOT_INITIALIZED, fifo_lease_zero)
  else if ff_read_borrowed f then
    let '(f, e) := wl_fifo_error f WL_ERR_BUSY in (f, e, fifo_lease_zero)
  else
    let published := ff_published_cursor f in
    if ff_read_cursor f =? published then
      (f <| ff_empty_reads := counter_increment (ff_empty_reads f) |>,
       WL_ERR_NO_DATA, fifo_lease_zero)
    else
      let f := f <| ff_read_token := wl_fifo_next_token (ff_read_token f) |>
                 <| ff_read_borrowed := true |> in
      (f, WL_OK, mk_fifo_lease (wl_fifo_slot f (ff_read_index f)) (ff_value_size f)
                   (ff_read_token f) (ff_read_index f)).

Definition wl_fifo_read_release (f : fifo) (view : fifo_lease) : fifo * wl_err :=
  if negb (wl_fifo_initialized f) then (f, WL_ERR_NOT_INITIALIZED)
  else if negb (wl_fifo_view_matches f view) then wl_fifo_error f WL_ERR_INVALID_STATE
  else
    let f := f <| ff_read_cursor := u32 (ff_read_cursor f + 1) |>
               <| ff_read_index := wl_fifo_next_index (ff_read_index f) (ff_capacity f) |>
               <| ff_read_borrowed := false |> in
    (f <| ff_consumed_cursor := ff_read_cursor f |>
       <| ff_consumes := counter_increment (ff_consumes f) |>, WL_OK).

Definition wl_fifo_reset (f : fifo) : fifo * wl_err :=
  if negb (wl_fifo_initialized f) then (f, WL_ERR_NOT_INITIALIZED)
  else if ff_write_claimed f || ff_read_borrowed f then wl_fifo_error f WL_ERR_BUSY
  else (f <| ff_write_cursor := 0 |> <| ff_write_index := 0 |>
          <| ff_read_cursor := 0 |> <| ff_read_index := 0 |>
          <| ff_published_cursor := 0 |> <| ff_consumed_cursor := 0 |>
          <| ff_resets := counter_increment (ff_resets f) |>, WL_OK).

Definition wl_fifo_get_stats (f : fifo) : wl_err + fifo_stats :=
  if negb (wl_fifo_initialized f) then inl WL_ERR_NOT_INITIALIZED
  else
    let consumed := ff_consumed_cursor f in
    let published := ff_published_cursor f in
    let depth := u32 (published - consumed) in
    let depth := if depth >? ff_capacity f then ff_capacity f else depth in
    inr (mk_fifo_stats depth (ff_high_watermark f) (ff_publishes f) (ff_consumes f)
           (ff_full_rejections f) (ff_empty_reads f) (ff_aborts f) (ff_resets f) (ff_errors f)).

(** ** The contract

    A bounded list of values with at most one slot lent to each side. *)

Record queue := mk_queue {
  aq_capacity : Z;
  aq_items : list (list Z);
  aq_claim : option fifo_lease;
  aq_view : option fifo_lease;
}.

Definition queue_empty (capacity : Z) : queue := mk_queue capacity [] None None.

(** A call with its answer.  The bytes are those of the slot that is published,
    borrowed or released. *)
Inductive fifo_event :=
  | EvClaim (e : wl_err) (c : fifo_lease)
  | EvPublish (c : fifo_lease) (v : list Z) (e : wl_err)
  | EvAbort (c : fifo_lease) (e : wl_err)
  | EvAcquire (e : wl_err) (c : fifo_lease) (v : list Z)
  | EvRelease (c : fifo_lease) (v : list Z) (e : wl_err)
  | EvReset (e : wl_err)
  | EvStats (depth : Z)
  | EvStore.

(** The next state when the event is one the contract allows. *)
Definition queue_next (q : queue) (ev : fifo_event) : option queue :=
  let cap := aq_capacity q in
  let items := aq_items q in
  let claim := aq_claim q in
  let view := aq_view q in
  let answer (e e' : wl_err) (q' : queue) := if decide (e = e') then Some q' else None in
  match ev with
  | EvClaim e c =>
      match claim with
      | Some _ => answer e WL_ERR_BUSY q
      | None => if cap <=? len items then answer e WL_ERR_QUEUE_FULL q
                else answer e WL_OK (mk_queue cap items (Some c) view)
      end
  | EvPublish c v e =>
      if decide (claim = Some c) then answer e WL_OK (mk_queue cap (items ++ [v]) None view)
      else answer e WL_ERR_INVALID_STATE q
  | EvAbort c e =>
      if decide (claim = Some c) then answer e WL_OK (mk_queue cap items None view)
      else answer e WL_ERR_INVALID_STATE q
  | EvAcquire e c v =>
      match view, items with
      | Some _, _ => answer e WL_ERR_BUSY q
      | None, [] => answer e WL_ERR_NO_DATA q
      | None, x :: _ => if decide (v = x) then answer e WL_OK (mk_queue cap items claim (Some c))
                        else None
      end
  | EvRelease c v e =>
      if decide (view = Some c) then
        if decide (head items = Some v) then answer e WL_OK (mk_queue cap (tail items) claim None)
        else None
      else answer e WL_ERR_INVALID_STATE q
  | EvReset e =>
      match claim, view with
      | None, None => answer e WL_OK (mk_queue cap [] None None)
      | _, _ => answer e WL_ERR_BUSY q
      end
  | EvStats d => if decide (d = len items) then Some q else None
  | EvStore => Some q
  end.

Fixpoint queue_run (q : queue) (trace : list fifo_event) : option queue :=
  match trace with
  | [] => Some q
  | ev :: trace => queue_next q ev ≫= λ q', queue_run q' trace
  end.

(** ** Interleavings of the calls *)

Inductive fifo_op :=
  | FClaim
  | FStore (a v : Z)
  | FPublish (c : fifo_lease)
  | FAbort (c : fifo_lease)
  | FAcquire
  | FRelease (c : fifo_lease)
  | FReset
  | FStats.

Definition slot_bytes (m : mem) (f : fifo) (index : Z) : list Z :=
  mread m (wl_fifo_slot f index) (Z.to_nat (ff_value_size f)).

Definition fifo_exec (op : fifo_op) (s : mem * fifo) : (mem * fifo) * fifo_event :=
  let '(m, f) := s in
  match op with
  | FClaim => let '(f', e, c) := wl_fifo_write_claim f in ((m, f'), EvClaim e c)
  | FStore a v => ((mset m a v, f), EvStore)
  | FPublish c => let '(f', e) := wl_fifo_write_publish f c in
                  ((m, f'), EvPublish c (slot_bytes m f (ff_write_index f)) e)
  | FAbort c => let '(f', e) := wl_fifo_write_abort f c in ((m, f'), EvAbort c e)
  | FAcquire => let '(f', e, c) := wl_fifo_read_acquire f in
                ((m, f'), EvAcquire e c (slot_bytes m f (ff_read_index f)))
  | FRelease c => let '(f', e) := wl_fifo_read_release f c in
                  ((m, f'), EvRelease c (slot_bytes m f (ff_read_index f)) e)
  | FReset => let '(f', e) := wl_fifo_reset f in ((m, f'), EvReset e)
  | FStats => ((m, f), EvStats match wl_fifo_get_stats f with
                               | inr st => fifo_depth st | inl _ => 0 end)
  end.

(** Stores go to the claimed slot or outside the storage of the queue. *)
Definition fifo_may_store (f : fifo) (a : Z) : bool :=
  (ff_write_claimed f && (wl_fifo_slot f (ff_write_index f) <=? a)
   && (a <? wl_fifo_slot f (ff_write_index f) + ff_value_size f))
  || (a <? ff_storage f) || (ff_storage f + ff_capacity f * ff_slot_stride f <=? a).

Fixpoint fifo_trace (ops : list fifo_op) (s : mem * fifo) : list fifo_event :=
  match ops with
  | [] => []
  | op :: ops => let '(s', ev) := fifo_exec op s in ev :: fifo_trace ops s'
  end.

Fixpoint fifo_fair (ops : list fifo_op) (s : mem * fifo) : bool :=
  match ops with
  | [] => true
  | op :: ops =>
      match op with FStore a _ => fifo_may_store s.2 a | _ => true end
      && fifo_fair ops (fifo_exec op s).1
  end.

(** ** The refinement *)

Definition write_lease (f : fifo) : fifo_lease :=
  mk_fifo_lease (wl_fifo_slot f (ff_write_index f)) (ff_value_size f) (ff_write_token f)
    (ff_write_index f).
Definition read_lease (f : fifo) : fifo_lease :=
  mk_fifo_lease (wl_fifo_slot f (ff_read_index f)) (ff_value_size f) (ff_read_token f)
    (ff_read_index f).

(** [w] and [r] count the values published and consumed since the last reset. *)
Record fifo_inv (m : mem) (f : fifo) (q : queue) (w r : Z) : Prop := {
  fi_magic : ff_magic f = WL_FIFO_MAGIC;
  fi_capacity : 0 < ff_capacity f < 2 ^ 31 ∧ aq_capacity q = ff_capacity f;
  fi_size : 0 < ff_value_size f <= ff_slot_stride f;
  fi_count : 0 <= r <= w ∧ w <= r + ff_capacity f;
  fi_write : ff_write_cursor f = u32 w ∧ ff_published_cursor f = u32 w ∧
             ff_write_index f = w mod ff_capacity f;
  fi_read : ff_read_cursor f = u32 r ∧ ff_consumed_cursor f = u32 r ∧
            ff_read_index f = r mod ff_capacity f;
  fi_items : len (aq_items q) = w - r ∧
             ∀ i x, aq_items q !! i = Some x →
               x = slot_bytes m f ((r + Z.of_nat i) mod ff_capacity f);
  fi_claim : aq_claim q = (if ff_write_claimed f then Some (write_lease f) else None) ∧
             (ff_write_claimed f = true → w < r + ff_capacity f ∧ ff_write_token f ≠ 0);
  fi_view : aq_view q = (if ff_read_borrowed f then Some (read_lease f) else None) ∧
            (ff_read_borrowed f = true → r < w ∧ ff_read_token f ≠ 0);
}.

Lemma next_token_nonzero t : wl_fifo_next_token t ≠ 0.
Proof. unfold wl_fifo_next_token. by destruct (Z.eqb_spec (u32 (t + 1)) 0). Qed.

Lemma next_index_mod n c : 0 <= n → 0 < c < 2 ^ 31 → wl_fifo_next_index (n mod c) c = (n + 1) mod c.
Proof.
  intros Hn Hc. unfold wl_fifo_next_index. pose proof (Z.mod_pos_bound n c ltac:(lia)).
  rewrite u32_id by (unfold is_u32; lia). rewrite <- (Z.add_mod_idemp_l n 1) by lia.
  destruct (Z.eqb_spec (n mod c + 1) c) as [->|]; [by rewrite Z.mod_same by lia|].
  by rewrite (Z.mod_small (n mod c + 1)) by lia.
Qed.

Section Simulation.
Context (m : mem) (f : fifo) (q : queue) (w r : Z) (Hinv : fifo_inv m f q w r).

Lemma fifo_ready : wl_fifo_initialized f = true.
Proof. unfold wl_fifo_initialized. rewrite (fi_magic _ _ _ _ _ Hinv). apply Z.eqb_refl. Qed.

Lemma claim_matches_lease c :
  wl_fifo_claim_matches f c = true ↔ aq_claim q = Some c.
Proof.
  destruct (fi_claim _ _ _ _ _ Hinv) as [-> Ht]. unfold wl_fifo_claim_matches, write_lease.
  destruct (ff_write_claimed f); [|done]. destruct (Ht eq_refl) as [_ Hz].
  rewrite !andb_true_iff, negb_true_iff, !Z.eqb_eq, Z.eqb_neq. destruct c. cbn. split.
  - intros (((((_ & _) & ->) & ->) & ->) & ->). done.
  - intros [= <- <- <- <-]. done.
Qed.

Lemma view_matches_lease c :
  wl_fifo_view_matches f c = true ↔ aq_view q = Some c.
Proof.
  destruct (fi_view _ _ _ _ _ Hinv) as [-> Ht]. unfold wl_fifo_view_matches, read_lease.
  destruct (ff_read_borrowed f); [|done]. destruct (Ht eq_refl) as [_ Hz].
  rewrite !andb_true_iff, negb_true_iff, !Z.eqb_eq, Z.eqb_neq. destruct c. cbn. split.
  - intros (((((_ & _) & ->) & ->) & ->) & ->). done.
  - intros [= <- <- <- <-]. done.
Qed.

Lemma fifo_depth_count : u32 (ff_write_cursor f - ff_consumed_cursor f) = w - r.
Proof.
  destruct (fi_write _ _ _ _ _ Hinv) as (-> & _), (fi_read _ _ _ _ _ Hinv) as (_ & -> & _).
  pose proof (fi_count _ _ _ _ _ Hinv). pose proof (fi_capacity _ _ _ _ _ Hinv).
  apply u32_distance. lia.
Qed.

Lemma error_inv e : fifo_inv m (wl_fifo_error f e).1 q w r.
Proof. by destruct Hinv; split. Qed.

Lemma sim_claim :
  let '(f', e, c) := wl_fifo_write_claim f in
  ∃ q', queue_next q (EvClaim e c) = Some q' ∧ fifo_inv m f' q' w r.
Proof.
  unfold wl_fifo_write_claim. rewrite fifo_ready, fifo_depth_count. cbn [negb].
  destruct (fi_claim _ _ _ _ _ Hinv) as [Hc _]. destruct (fi_capacity _ _ _ _ _ Hinv) as [Hcap Eq].
  destruct (fi_items _ _ _ _ _ Hinv) as [Hl _].
  unfold queue_next. rewrite Hc, Eq, Hl.
  destruct (ff_write_claimed f) eqn:Ew.
  { cbn. exists q. split; [done|exact (error_inv WL_ERR_BUSY)]. }
  destruct (Z.geb_spec (w - r) (ff_capacity f)) as [Hf|Hf].
  - replace (_ <=? _) with true by lia. exists q. split; [done|]. by destruct Hinv; split.
  - replace (_ <=? _) with false by lia. cbn. eexists. split; [done|].
    destruct Hinv. split; try done. cbn. split; [done|]. intros _. split; [lia|apply next_token_nonzero].
Qed.

(** The slots that hold values are apart from the one that is written. *)
Lemma bytes_after_write i n v :
  0 <= i < w - r → wl_fifo_slot f (w mod ff_capacity f) <= n
    < wl_fifo_slot f (w mod ff_capacity f) + ff_slot_stride f → w < r + ff_capacity f →
  slot_bytes (mset m n v) f ((r + i) mod ff_capacity f) = slot_bytes m f ((r + i) mod ff_capacity f).
Proof.
  intros Hi Hn Hw. destruct Hinv. unfold slot_bytes. apply mread_mset_out.
  unfold wl_fifo_slot in *.
  pose proof (slots_apart (ff_capacity f) (ff_slot_stride f) (r + i) w (n - ff_storage f)
    ltac:(lia) ltac:(lia) ltac:(lia) ltac:(lia)). lia.
Qed.

Lemma sim_store a v :
  fifo_may_store f a = true → fifo_inv (mset m a v) f q w r.
Proof.
  intros Ha. pose proof Hinv as []. split; try done. destruct fi_items0 as [Hl Hx].
  split; [done|]. intros i x Hi. pose proof (lookup_lt_Some _ _ _ Hi) as Hlt. unfold len in Hl.
  rewrite (Hx i x Hi). symmetry.
  unfold fifo_may_store in Ha. rewrite !orb_true_iff, !andb_true_iff, !Z.leb_le, !Z.ltb_lt in Ha.
  destruct Ha as [[((Hcl & Hlo) & Hhi)|Ha]|Ha].
  - destruct fi_write0 as (_ & _ & Ei). rewrite Ei in *. apply bytes_after_write; try lia.
  - unfold slot_bytes. apply mread_mset_out. unfold wl_fifo_slot.
    pose proof (Z.mod_pos_bound (r + Z.of_nat i) (ff_capacity f) ltac:(lia)). nia.
  - unfold slot_bytes. apply mread_mset_out. unfold wl_fifo_slot.
    pose proof (Z.mod_pos_bound (r + Z.of_nat i) (ff_capacity f) ltac:(lia)). nia.
Qed.

Lemma sim_publish c :
  let '(f', e) := wl_fifo_write_publish f c in
  ∃ q' w', queue_next q (EvPublish c (slot_bytes m f (ff_write_index f)) e) = Some q' ∧
           fifo_inv m f' q' w' r.
Proof.
  unfold wl_fifo_write_publish. rewrite fifo_ready. cbn [negb].
  destruct (wl_fifo_claim_matches f c) eqn:Em; cbn [negb].
  - apply claim_matches_lease in Em as Ec. unfold queue_next. rewrite Ec, decide_True by done.
    eexists _, (w + 1). split; [done|].
    destruct Hinv. destruct fi_claim0 as [Hc1 Hc2].
    destruct (ff_write_claimed f) eqn:Ew; [|by rewrite Ec in Hc1].
    destruct (Hc2 eq_refl) as [Hlt _], fi_write0 as (E1 & E2 & E3).
    split; cbn; try done.
    + lia.
    + rewrite E1, E3, u32_succ, next_index_mod by lia. done.
    + destruct fi_items0 as [Hl Hx]. rewrite len_app, len_cons, len_nil. split; [lia|].
      intros i x [Hi|[Hi Hx']]%lookup_app_Some; [by apply Hx|].
      apply list_lookup_singleton_Some in Hx' as [Hi0 <-]. rewrite E3. f_equal. f_equal.
      unfold len in Hl. lia.
    + destruct fi_view0 as [-> Hv]. split; [done|]. intros H. destruct (Hv H). split; [lia|done].
  - exists q, w. unfold queue_next. rewrite decide_False; [split; [done|apply (error_inv WL_ERR_INVALID_STATE)]|].
    intros Ec. apply claim_matches_lease in Ec. congruence.
Qed.

Lemma sim_abort c :
  let '(f', e) := wl_fifo_write_abort f c in
  ∃ q', queue_next q (EvAbort c e) = Some q' ∧ fifo_inv m f' q' w r.
Proof.
  unfold wl_fifo_write_abort. rewrite fifo_ready. cbn [negb].
  destruct (wl_fifo_claim_matches f c) eqn:Em; cbn [negb].
  - apply claim_matches_lease in Em as Ec. unfold queue_next. rewrite Ec, decide_True by done.
    eexists. split; [done|]. by destruct Hinv; split.
  - exists q. unfold queue_next. rewrite decide_False; [split; [done|apply (error_inv WL_ERR_INVALID_STATE)]|].
    intros Ec. apply claim_matches_lease in Ec. congruence.
Qed.

(** The slot of the reader holds the oldest value. *)
Lemma oldest_item : r < w → ∃ items, aq_items q = slot_bytes m f (ff_read_index f) :: items.
Proof.
  intros Hlt. destruct Hinv. destruct fi_items0 as [Hl Hx], fi_read0 as (_ & _ & Ei).
  destruct (aq_items q) as [|x items]; [unfold len in Hl; cbn in Hl; lia|].
  exists items. f_equal. rewrite (Hx 0%nat x eq_refl), Ei. do 2 f_equal. lia.
Qed.

Lemma read_empty : (ff_read_cursor f =? ff_published_cursor f) = true ↔ r = w.
Proof.
  destruct Hinv. destruct fi_write0 as (_ & -> & _), fi_read0 as (-> & _ & _).
  rewrite Z.eqb_eq. split; [|by intros ->]. intros E. apply u32_eq; [done|lia].
Qed.

Lemma sim_acquire :
  let '(f', e, c) := wl_fifo_read_acquire f in
  ∃ q', queue_next q (EvAcquire e c (slot_bytes m f (ff_read_index f))) = Some q' ∧
        fifo_inv m f' q' w r.
Proof.
  unfold wl_fifo_read_acquire. rewrite fifo_ready. cbn [negb].
  destruct (fi_view _ _ _ _ _ Hinv) as [Hv _]. unfold queue_next. rewrite Hv.
  destruct (ff_read_borrowed f) eqn:Eb.
  { cbn. exists q. split; [done|exact (error_inv WL_ERR_BUSY)]. }
  destruct (ff_read_cursor f =? ff_published_cursor f) eqn:Ee.
  - apply read_empty in Ee. destruct (fi_items _ _ _ _ _ Hinv) as [Hl _].
    destruct (aq_items q); [|unfold len in Hl; cbn in Hl; lia].
    exists q. split; [done|]. by destruct Hinv; split.
  - assert (r < w) as Hlt.
    { pose proof (fi_count _ _ _ _ _ Hinv). destruct (decide (r = w)) as [E|]; [|lia].
      apply read_empty in E. congruence. }
    destruct (oldest_item Hlt) as [items Ei]. rewrite Ei, decide_True by done. cbn.
    eexists. split; [done|]. rewrite <- Ei. destruct Hinv. split; try done. cbn.
    split; [done|]. intros _. split; [done|apply next_token_nonzero].
Qed.

Lemma sim_release c :
  let '(f', e) := wl_fifo_read_release f c in
  ∃ q' r', queue_next q (EvRelease c (slot_bytes m f (ff_read_index f)) e) = Some q' ∧
           fifo_inv m f' q' w r'.
Proof.
  unfold wl_fifo_read_release. rewrite fifo_ready. cbn [negb].
  destruct (wl_fifo_view_matches f c) eqn:Em; cbn [negb].
  - apply view_matches_lease in Em as Ec. unfold queue_next. rewrite Ec, decide_True by done.
    destruct (fi_view _ _ _ _ _ Hinv) as [Hv Hb].
    destruct (ff_read_borrowed f) eqn:Eb; [|by rewrite Ec in Hv].
    destruct (Hb eq_refl) as [Hlt _]. destruct (oldest_item Hlt) as [items Ei].
    rewrite Ei, decide_True by done. eexists _, (r + 1). split; [done|].
    destruct Hinv. destruct fi_read0 as (E1 & E2 & E3), fi_items0 as [Hl Hx].
    rewrite Ei in Hl, Hx. rewrite len_cons in Hl. split; cbn; try done.
    + lia.
    + rewrite E1, E3, u32_succ, next_index_mod by lia. done.
    + split; [lia|]. intros i x Hi. rewrite (Hx (S i) x Hi). do 2 f_equal. lia.
    + destruct fi_claim0 as [-> Hc]. split; [done|]. intros H. destruct (Hc H). split; [lia|done].
  - exists q, r. unfold queue_next. rewrite decide_False; [split; [done|apply (error_inv WL_ERR_INVALID_STATE)]|].
    intros Ec. apply view_matches_lease in Ec. congruence.
Qed.

Lemma sim_reset :
  let '(f', e) := wl_fifo_reset f in
  ∃ q' w' r', queue_next q (EvReset e) = Some q' ∧ fifo_inv m f' q' w' r'.
Proof.
  unfold wl_fifo_reset. rewrite fifo_ready. cbn [negb].
  destruct (fi_claim _ _ _ _ _ Hinv) as [Hc _], (fi_view _ _ _ _ _ Hinv) as [Hv _].
  unfold queue_next. rewrite Hc, Hv.
  destruct (ff_write_claimed f) eqn:Ew, (ff_read_borrowed f) eqn:Eb; cbn.
  4: { eexists _, 0, 0. split; [done|]. destruct Hinv. split; cbn; rewrite ?Ew, ?Eb; try done.
       lia. }
  all: exists q, w, r; split; [done|exact (error_inv WL_ERR_BUSY)].
Qed.

Lemma sim_stats :
  queue_next q (EvStats match wl_fifo_get_stats f with inr st => fifo_depth st | inl _ => 0 end)
  = Some q.
Proof.
  unfold wl_fifo_get_stats. rewrite fifo_ready. cbn [negb fifo_depth].
  destruct (fi_write _ _ _ _ _ Hinv) as (E1 & E2 & _). rewrite E2, <- E1, fifo_depth_count.
  pose proof (fi_count _ _ _ _ _ Hinv). destruct (fi_items _ _ _ _ _ Hinv) as [Hl _].
  replace (_ >? _) with false by lia. cbn. by rewrite decide_True.
Qed.

(** One call of either side. *)
Lemma sim_exec op :
  match op with FStore a _ => fifo_may_store f a | _ => true end = true →
  ∃ q' w' r', queue_next q (fifo_exec op (m, f)).2 = Some q' ∧
    fifo_inv (fifo_exec op (m, f)).1.1 (fifo_exec op (m, f)).1.2 q' w' r'.
Proof.
  intros Hop. destruct op; cbn [fifo_exec].
  - pose proof sim_claim as H. destruct (wl_fifo_write_claim f) as [[f' e] c].
    destruct H as (q' & ? & ?). by exists q', w, r.
  - exists q, w, r. split; [done|]. by apply sim_store.
  - pose proof (sim_publish c) as H. destruct (wl_fifo_write_publish f c) as [f' e].
    destruct H as (q' & w' & ? & ?). by exists q', w', r.
  - pose proof (sim_abort c) as H. destruct (wl_fifo_write_abort f c) as [f' e].
    destruct H as (q' & ? & ?). by exists q', w, r.
  - pose proof sim_acquire as H. destruct (wl_fifo_read_acquire f) as [[f' e] c].
    destruct H as (q' & ? & ?). by exists q', w, r.
  - pose proof (sim_release c) as H. destruct (wl_fifo_read_release f c) as [f' e].
    destruct H as (q' & r' & ? & ?). by exists q', w, r'.
  - pose proof sim_reset as H. destruct (wl_fifo_reset f) as [f' e].
    destruct H as (q' & w' & r' & ? & ?). by exists q', w', r'.
  - exists q, w, r. split; [apply sim_stats|done].
Qed.
End Simulation.

Lemma fifo_init_inv lock_free addr m f0 config storage f :
  is_size (fc_value_size config) → is_size (fc_value_alignment config) →
  is_u32 (fc_capacity config) →
  wl_fifo_init lock_free addr f0 config storage = (f, WL_OK) →
  fifo_inv m f (queue_empty (fc_capacity config)) 0 0.
Proof.
  intros Hv Ha Hc. unfold wl_fifo_init, wl_fifo_requirements. intros H.
  destruct (fb_data storage =? NULL); [done|].
  destruct (_ || _) eqn:E1 in H; [done|].
  rewrite !orb_false_iff, !Z.eqb_neq, Z.geb_leb, Z.leb_gt in E1.
  destruct E1 as (((E1 & E2) & E3) & E4). unfold WL_FIFO_MAX_CAPACITY in E4.
  destruct (_ || _) eqn:E5 in H; [done|].
  rewrite !orb_false_iff, negb_false_iff, Z.eqb_eq, !Z.gtb_ltb, !Z.ltb_ge in E5.
  destruct E5 as ((E5 & E6) & E7).
  destruct (_ >? _) in H; [done|]. destruct (_ <? _) in H; [done|].
  destruct (negb _) in H; [done|]. destruct (_ || _) in H; [done|].
  destruct (negb lock_free); [done|]. injection H as <-.
  unfold is_size, is_u32 in *.
  pose proof (align_up_fits (fc_value_size config) (fc_value_alignment config)
    ltac:(lia) E5 ltac:(lia)) as [Hfit _].
  split; cbn; try done; lia.
Qed.

Lemma fifo_run_refines ops m f q w r :
  fifo_inv m f q w r → fifo_fair ops (m, f) = true →
  ∃ q', queue_run q (fifo_trace ops (m, f)) = Some q'.
Proof.
  revert m f q w r. induction ops as [|op ops IH]; intros m f q w r Hinv Hf; [by exists q|].
  cbn [fifo_fair] in Hf. apply andb_true_iff in Hf as [Hop Hf].
  destruct (sim_exec m f q w r Hinv op Hop) as (q1 & w1 & r1 & Hn & Hi).
  cbn [fifo_trace]. destruct (fifo_exec op (m, f)) as [[m1 f1] ev]. cbn in *.
  rewrite Hn. cbn. by eapply IH.
Qed.

(** C23: in every interleaving of the calls of one producer and one consumer,
    as long as stores go to the claimed slot or outside the queue, the queue
    answers like a list of at most [capacity] values: publish appends the bytes of
    the claimed slot, acquire shows and release removes the oldest value unchanged,
    claim fails exactly when the list is full or a slot is lent, only the lease
    that was handed out is accepted, and the reported depth is the length. *)
Theorem fifo_refines addr m f0 config storage f ops :
  is_size (fc_value_size config) → is_size (fc_value_alignment config) →
  is_u32 (fc_capacity config) →
  wl_fifo_init true addr f0 config storage = (f, WL_OK) → fifo_fair ops (m, f) = true →
  ∃ q, queue_run (queue_empty (fc_capacity config)) (fifo_trace ops (m, f)) = Some q.
Proof.
  intros Hv Ha Hc Hi Hf. eapply fifo_run_refines; [|exact Hf]. by eapply fifo_init_inv.
Qed.

(** Three slots of four bytes: two values, the second overtaken by a reset. *)
Definition fifo_demo : list fifo_op :=
  [FClaim; FStore 1000 7; FPublish (mk_fifo_lease 1000 3 1 0);
   FClaim; FStore 1004 8; FAcquire; FPublish (mk_fifo_lease 1004 3 2 1); FStats;
   FRelease (mk_fifo_lease 1000 3 1 0); FRelease (mk_fifo_lease 1000 3 1 0);
   FAcquire; FClaim; FAbort (mk_fifo_lease 1008 3 3 2); FReset;
   FRelease (mk_fifo_lease 1004 3 2 1); FReset].

Lemma fifo_refines_witness :
  let f := (wl_fifo_init true 5000 fifo_zero (mk_fifo_config 3 4 3) (mk_fifo_storage 1000 12)).1 in
  let trace := fifo_trace fifo_demo (λ _, 0, f) in
  (∃ q, queue_run (queue_empty 3) trace = Some q) ∧
  trace !! 8%nat = Some (EvRelease (mk_fifo_lease 1000 3 1 0) [7; 0; 0] WL_OK) ∧
  trace !! 9%nat = Some (EvRelease (mk_fifo_lease 1000 3 1 0) [8; 0; 0] WL_ERR_INVALID_STATE) ∧
  trace !! 13%nat = Some (EvReset WL_ERR_BUSY) ∧ last trace = Some (EvReset WL_OK).
Proof.
  intros f trace. split.
  - apply (fifo_refines 5000 (λ _, 0) fifo_zero (mk_fifo_config 3 4 3) (mk_fifo_storage 1000 12) f
      fifo_demo); try (split; vm_compute; congruence); vm_compute; reflexivity.
  - vm_compute. repeat split; reflexivity.
Defined.
