(* ===== verification/Latest.v ===== *)
(** The mailbox that keeps the newest value: [src/src/latest.c].

    Three slots rotate between one producer, one consumer and the exchange word
    [middle].  Publishing and taking are single atomic exchanges; the consumer
    looks at [middle] before it exchanges, and the producer may publish in
    between, so these two accesses are separate steps here.

    [latest_refines] is the contract: a taken value is the newest one published,
    whole, taken at most once, and unchanged until it is released. *)
From S2P Require Import Prelude Slots.

(** ** State *)

Definition WL_LATEST_MAGIC : Z := 0x574c4c54.
Definition WL_LATEST_DIRTY : Z := 0x80000000.
Definition WL_LATEST_INDEX_MASK : Z := 0x00000003.
Definition WL_LATEST_SLOT_COUNT : Z := 3.
Definition WL_LATEST_CONTEXT_STORAGE_SIZE : Z := 128.

(** [wl_latest_impl_t] *)
Record latest := mk_latest {
  lt_magic : Z;
  lt_storage : Z;
  lt_value_size : Z;
  lt_slot_stride : Z;
  lt_writer_back : Z;
  lt_write_token : Z;
  lt_write_claimed : bool;
  lt_reader_front : Z;
  lt_read_token : Z;
  lt_read_borrowed : bool;
  lt_slot_generation : list Z;
  lt_middle : Z;
  lt_generation : Z;
  lt_publishes : Z;
  lt_reads : Z;
  lt_coalesced : Z;
  lt_empty_reads : Z;
  lt_resets : Z;
  lt_errors : Z;
}.

#[export] Instance rebuild_latest : Rebuild latest := λ l,
  mk_latest (lt_magic l) (lt_storage l) (lt_value_size l) (lt_slot_stride l) (lt_writer_back l)
    (lt_write_token l) (lt_write_claimed l) (lt_reader_front l) (lt_read_token l)
    (lt_read_borrowed l) (lt_slot_generation l) (lt_middle l) (lt_generation l)
    (lt_publishes l) (lt_reads l) (lt_coalesced l) (lt_empty_reads l) (lt_resets l)
    (lt_errors l).
#[export] Instance fs_lt_magic : FieldSet lt_magic := _.
#[export] Instance fs_lt_storage : FieldSet lt_storage := _.
#[export] Instance fs_lt_value_size : FieldSet lt_value_size := _.
#[export] Instance fs_lt_slot_stride : FieldSet lt_slot_stride := _.
#[export] Instance fs_lt_writer_back : FieldSet lt_writer_back := _.
#[export] Instance fs_lt_write_token : FieldSet lt_write_token := _.
#[export] Instance fs_lt_write_claimed : FieldSet lt_write_claimed := _.
#[export] Instance fs_lt_reader_front : FieldSet lt_reader_front := _.
#[export] Instance fs_lt_read_token : FieldSet lt_read_token := _.
#[export] Instance fs_lt_read_borrowed : FieldSet lt_read_borrowed := _.
#[export] Instance fs_lt_slot_generation : FieldSet lt_slot_generation := _.
#[export] Instance fs_lt_middle : FieldSet lt_middle := _.
#[export] Instance fs_lt_generation : FieldSet lt_generation := _.
#[export] Instance fs_lt_publishes : FieldSet lt_publishes := _.
#[export] Instance fs_lt_reads : FieldSet lt_reads := _.
#[export] Instance fs_lt_coalesced : FieldSet lt_coalesced := _.
#[export] Instance fs_lt_empty_reads : FieldSet lt_empty_reads := _.
#[export] Instance fs_lt_resets : FieldSet lt_resets := _.
#[export] Instance fs_lt_errors : FieldSet lt_errors := _.

Definition latest_zero : latest :=
  mk_latest 0 NULL 0 0 0 0 false 0 0 false [0; 0; 0] 0 0 0 0 0 0 0 0.

Record latest_config := mk_latest_config {
  lc_value_size : Z;
  lc_value_alignment : Z;
  lc_initial_generation : Z;
}.

Record latest_requirements := mk_latest_requirements {
  lr_storage_size : Z;
  lr_slot_stride : Z;
  lr_slot_count : Z;
}.

Record latest_storage := mk_latest_storage { lb_data : Z; lb_size : Z }.

Record latest_claim := mk_latest_claim {
  wc_value : Z;
  wc_value_size : Z;
  wc_token : Z;
  wc_private_slot : Z;
}.

Record latest_view := mk_latest_view {
  lv_value : Z;
  lv_value_size : Z;
  lv_generation : Z;
  lv_token : Z;
  lv_private_slot : Z;
}.

#[export] Instance latest_claim_eq_dec : EqDecision latest_claim.
Proof. solve_decision. Defined.
#[export] Instance latest_view_eq_dec : EqDecision latest_view.
Proof. solve_decision. Defined.

Definition latest_claim_zero : latest_claim := mk_latest_claim NULL 0 0 0.
Definition latest_view_zero : latest_view := mk_latest_view NULL 0 0 0 0.

Record latest_stats := mk_latest_stats {
  latest_generation : Z;
  latest_publishes : Z;
  latest_reads : Z;
  latest_coalesced : Z;
  latest_empty_reads : Z;
  latest_resets : Z;
  latest_errors : Z;
}.

(** ** Operations *)

Definition wl_latest_initialized (l : latest) : bool := lt_magic l =? WL_LATEST_MAGIC.

Definition wl_latest_slot (l : latest) (index : Z) : Z := lt_storage l + index * lt_slot_stride l.

Definition wl_latest_error (l : latest) (error : wl_err) : latest * wl_err :=
  (l <| lt_errors := counter_increment (lt_errors l) |>, error).

Definition wl_latest_next_token (token : Z) : Z :=
  let token := u32 (token + 1) in if token =? 0 then 1 else token.

Definition slot_generation_of (l : latest) (index : Z) : Z :=
  default 0 (lt_slot_generation l !! Z.to_nat index).

Definition wl_latest_claim_matches (l : latest) (claim : latest_claim) : bool :=
  lt_write_claimed l && negb (wc_token claim =? 0) && (wc_token claim =? lt_write_token l)
  && (wc_private_slot claim =? lt_writer_back l)
  && (wc_value claim =? wl_latest_slot l (lt_writer_back l))
  && (wc_value_size claim =? lt_value_size l).

Definition wl_latest_view_matches (l : latest) (view : latest_view) : bool :=
  lt_read_borrowed l && negb (lv_token view =? 0) && (lv_token view =? lt_read_token l)
  && (lv_private_slot view =? lt_reader_front l)
  && (lv_value view =? wl_latest_slot l (lt_reader_front l))
  && (lv_value_size view =? lt_value_size l)
  && (lv_generation view =? slot_generation_of l (lt_reader_front l)).

Definition wl_latest_requirements (config : latest_config) : wl_err + latest_requirements :=
  if (lc_value_size config =? 0) || (lc_value_alignment config =? 0) then inl WL_ERR_INVALID_ARG
  else
    let alignment := lc_value_alignment config in
    if negb (Z.land alignment (alignment - 1) =? 0)
       || (lc_value_size config >? SIZE_MAX - (alignment - 1))
    then inl WL_ERR_INVALID_ARG
    else
      let stride := align_up (lc_value_size config) alignment in
      if stride >? SIZE_MAX / WL_LATEST_SLOT_COUNT then inl WL_ERR_INVALID_ARG
      else inr (mk_latest_requirements (usize (stride * WL_LATEST_SLOT_COUNT)) stride
                  WL_LATEST_SLOT_COUNT).

(** [mailbox_address] is the address of the object; [lock_free] what
    [atomic_is_lock_free] answers. *)
Definition wl_latest_init (lock_free : bool) (mailbox_address : Z) (l : latest)
    (config : latest_config) (storage : latest_storage) : latest * wl_err :=
  if lb_data storage =? NULL then (l, WL_ERR_INVALID_ARG)
  else
    match wl_latest_requirements config with
    | inl e => (l, e)
    | inr requirements =>
        if lb_size storage <? lr_storage_size requirements then (l, WL_ERR_BUF_TOO_SMALL)
        else if negb (Z.land (lb_data storage) (lc_value_alignment config - 1) =? 0)
        then (l, WL_ERR_INVALID_ARG)
        else if ((lb_data storage <=? mailbox_address)
                 && (mailbox_address - lb_data storage <? lr_storage_size requirements))
                || ((mailbox_address <? lb_data storage)
                    && (lb_data storage - mailbox_address <? WL_LATEST_CONTEXT_STORAGE_SIZE))
        then (l, WL_ERR_INVALID_ARG)
        else
          let l := latest_zero <| lt_storage := lb_data storage |>
                     <| lt_value_size := lc_value_size config |>
                     <| lt_slot_stride := lr_slot_stride requirements |>
                     <| lt_reader_front := 0 |> <| lt_writer_back := 2 |>
                     <| lt_middle := 1 |> <| lt_generation := lc_initial_generation config |> in
          if negb lock_free then (l, WL_ERR_NOT_SUPPORTED)
          else (l <| lt_magic := WL_LATEST_MAGIC |>, WL_OK)
    end.

Definition wl_latest_write_claim (l : latest) : latest * wl_err * latest_claim :=
  if negb (wl_latest_initialized l) then (l, WL_ERR_NOT_INITIALIZED, latest_claim_zero)
  else if lt_write_claimed l then
    let '(l, e) := wl_latest_error l WL_ERR_BUSY in (l, e, latest_claim_zero)
  else
    let l := l <| lt_write_token := wl_latest_next_token (lt_write_token l) |>
               <| lt_write_claimed := true |> in
    (l, WL_OK, mk_latest_claim (wl_latest_slot l (lt_writer_back l)) (lt_value_size l)
                 (lt_write_token l) (lt_writer_back l)).

Definition wl_latest_write_publish (l : latest) (claim : latest_claim) : latest * wl_err :=
  if negb (wl_latest_initialized l) then (l, WL_ERR_NOT_INITIALIZED)
  else if negb (wl_latest_claim_matches l claim) then wl_latest_error l WL_ERR_INVALID_STATE
  else
    let generation := u32 (lt_generation l + 1) in
    let l := l <| lt_generation := generation |>
               <| lt_slot_generation :=
                    <[Z.to_nat (lt_writer_back l) := generation]> (lt_slot_generation l) |> in
    let old_middle := lt_middle l in
    let l := l <| lt_middle := Z.lor (lt_writer_back l) WL_LATEST_DIRTY |> in
    let l := l <| lt_writer_back := Z.land old_middle WL_LATEST_INDEX_MASK |>
               <| lt_write_claimed := false |>
               <| lt_publishes := counter_increment (lt_publishes l) |> in
    (if negb (Z.land old_middle WL_LATEST_DIRTY =? 0)
     then l <| lt_coalesced := counter_increment (lt_coalesced l) |> else l, WL_OK).

Definition wl_latest_write_abort (l : latest) (claim : latest_claim) : latest * wl_err :=
  if negb (wl_latest_initialized l) then (l, WL_ERR_NOT_INITIALIZED)
  else if negb (wl_latest_claim_matches l claim) then wl_latest_error l WL_ERR_INVALID_STATE
  else (l <| lt_write_claimed := false |>, WL_OK).

(** The call up to the first look at [middle]; [WL_OK] means it goes on. *)
Definition read_acquire_check (l : latest) : latest * wl_err :=
  if negb (wl_latest_initialized l) then (l, WL_ERR_NOT_INITIALIZED)
  else if lt_read_borrowed l then wl_latest_error l WL_ERR_BUSY
  else if Z.land (lt_middle l) WL_LATEST_DIRTY =? 0 then
    (l <| lt_empty_reads := counter_increment (lt_empty_reads l) |>, WL_ERR_NO_DATA)
  else (l, WL_OK).

(** The rest of it, from the exchange on. *)
Definition read_acquire_take (l : latest) : latest * latest_view :=
  let middle := lt_middle l in
  let l := l <| lt_middle := lt_reader_front l |> in
  let l := l <| lt_reader_front := Z.land middle WL_LATEST_INDEX_MASK |>
             <| lt_read_token := wl_latest_next_token (lt_read_token l) |>
             <| lt_read_borrowed := true |> in
  let view := mk_latest_view (wl_latest_slot l (lt_reader_front l)) (lt_value_size l)
                (slot_generation_of l (lt_reader_front l)) (lt_read_token l)
                (lt_reader_front l) in
  (l <| lt_reads := counter_increment (lt_reads l) |>, view).

Definition wl_latest_read_acquire (l : latest) : latest * wl_err * latest_view :=
  let '(l, e) := read_acquire_check l in
  if is_ok e then let '(l, view) := read_acquire_take l in (l, WL_OK, view)
  else (l, e, latest_view_zero).

Definition wl_latest_read_release (l : latest) (view : latest_view) : latest * wl_err :=
  if negb (wl_latest_initialized l) then (l, WL_ERR_NOT_INITIALIZED)
  else if negb (wl_latest_view_matches l view) then wl_latest_error l WL_ERR_INVALID_STATE
  else (l <| lt_read_borrowed := false |>, WL_OK).

Definition wl_latest_reset (l : latest) : latest * wl_err :=
  if negb (wl_latest_initialized l) then (l, WL_ERR_NOT_INITIALIZED)
  else if lt_write_claimed l || lt_read_borrowed l then wl_latest_error l WL_ERR_BUSY
  else (l <| lt_reader_front := 0 |> <| lt_writer_back := 2 |> <| lt_middle := 1 |>
          <| lt_resets := counter_increment (lt_resets l) |>, WL_OK).

Definition wl_latest_get_stats (l : latest) : wl_err + latest_stats :=
  if negb (wl_latest_initialized l) then inl WL_ERR_NOT_INITIALIZED
  else inr (mk_latest_stats (lt_generation l) (lt_publishes l) (lt_reads l) (lt_coalesced l)
              (lt_empty_reads l) (lt_resets l) (lt_errors l)).

(** ** The contract *)

Record mailbox := mk_mailbox {
  am_generation : Z;
  am_unread : option (list Z * Z);
  am_claim : option latest_claim;
  am_checked : bool;
  am_view : option (latest_view * list Z);
}.

Definition mailbox_empty (generation : Z) : mailbox := mk_mailbox generation None None false None.

(** A step of either side with its answer.  [EvCheck] and [EvTake] are the two
    accesses of one acquire; the bytes are those of the slot in question. *)
Inductive latest_event :=
  | EvWClaim (e : wl_err) (c : latest_claim)
  | EvWPublish (c : latest_claim) (v : list Z) (e : wl_err)
  | EvWAbort (c : latest_claim) (e : wl_err)
  | EvCheck (e : wl_err)
  | EvTake (c : latest_view) (v : list Z)
  | EvLRelease (c : latest_view) (v : list Z) (e : wl_err)
  | EvLReset (e : wl_err)
  | EvLStore.

Definition mailbox_next (b : mailbox) (ev : latest_event) : option mailbox :=
  let gen := am_generation b in
  let unread := am_unread b in
  let claim := am_claim b in
  let checked := am_checked b in
  let view := am_view b in
  let answer (e e' : wl_err) (b' : mailbox) := if decide (e = e') then Some b' else None in
  match ev with
  | EvWClaim e c =>
      match claim with
      | Some _ => answer e WL_ERR_BUSY b
      | None => answer e WL_OK (mk_mailbox gen unread (Some c) checked view)
      end
  | EvWPublish c v e =>
      if decide (claim = Some c) then
        let gen := u32 (gen + 1) in
        answer e WL_OK (mk_mailbox gen (Some (v, gen)) None checked view)
      else answer e WL_ERR_INVALID_STATE b
  | EvWAbort c e =>
      if decide (claim = Some c) then answer e WL_OK (mk_mailbox gen unread None checked view)
      else answer e WL_ERR_INVALID_STATE b
  | EvCheck e =>
      match view, unread with
      | Some _, _ => answer e WL_ERR_BUSY b
      | None, None => answer e WL_ERR_NO_DATA b
      | None, Some _ => answer e WL_OK (mk_mailbox gen unread claim true view)
      end
  | EvTake c v =>
      match unread with
      | Some (x, g) =>
          if checked && bool_decide (v = x ∧ lv_generation c = g)
          then Some (mk_mailbox gen None claim false (Some (c, x))) else None
      | None => None
      end
  | EvLRelease c v e =>
      match view with
      | Some (c', x) =>
          if decide (c' = c) then
            if decide (v = x) then answer e WL_OK (mk_mailbox gen unread claim checked None) else None
          else answer e WL_ERR_INVALID_STATE b
      | None => answer e WL_ERR_INVALID_STATE b
      end
  | EvLReset e =>
      match claim, view with
      | None, None => answer e WL_OK (mk_mailbox gen None None checked None)
      | _, _ => answer e WL_ERR_BUSY b
      end
  | EvLStore => Some b
  end.

Fixpoint mailbox_run (b : mailbox) (trace : list latest_event) : option mailbox :=
  match trace with
  | [] => Some b
  | ev :: trace => mailbox_next b ev ≫= λ b', mailbox_run b' trace
  end.

(** ** Interleavings *)

Inductive latest_op :=
  | LClaim
  | LStore (a v : Z)
  | LPublish (c : latest_claim)
  | LAbort (c : latest_claim)
  | LCheck
  | LTake
  | LRelease (c : latest_view)
  | LReset.

Definition latest_bytes (m : mem) (l : latest) (index : Z) : list Z :=
  mread m (wl_latest_slot l index) (Z.to_nat (lt_value_size l)).

(** The flag says that the consumer stands between its two accesses. *)
Record latest_run_state := mk_lrs { rs_mem : mem; rs_latest : latest; rs_checked : bool }.

Definition latest_exec (op : latest_op) (s : latest_run_state) : latest_run_state * latest_event :=
  let '(mk_lrs m l checked) := s in
  match op with
  | LClaim => let '(l', e, c) := wl_latest_write_claim l in (mk_lrs m l' checked, EvWClaim e c)
  | LStore a v => (mk_lrs (mset m a v) l checked, EvLStore)
  | LPublish c => let '(l', e) := wl_latest_write_publish l c in
                  (mk_lrs m l' checked, EvWPublish c (latest_bytes m l (lt_writer_back l)) e)
  | LAbort c => let '(l', e) := wl_latest_write_abort l c in (mk_lrs m l' checked, EvWAbort c e)
  | LCheck => let '(l', e) := read_acquire_check l in (mk_lrs m l' (is_ok e), EvCheck e)
  | LTake => let '(l', c) := read_acquire_take l in
             (mk_lrs m l' false, EvTake c (latest_bytes m l' (lt_reader_front l')))
  | LRelease c => let '(l', e) := wl_latest_read_release l c in
                  (mk_lrs m l' checked, EvLRelease c (latest_bytes m l (lt_reader_front l)) e)
  | LReset => let '(l', e) := wl_latest_reset l in (mk_lrs m l' checked, EvLReset e)
  end.

(** The producer stores to its claimed slot or outside the mailbox; the consumer
    finishes an acquire before its next call, and a reset waits for that. *)
Definition latest_may (s : latest_run_state) (op : latest_op) : bool :=
  let l := rs_latest s in
  match op with
  | LStore a _ =>
      (lt_write_claimed l && (wl_latest_slot l (lt_writer_back l) <=? a)
       && (a <? wl_latest_slot l (lt_writer_back l) + lt_value_size l))
      || (a <? lt_storage l) || (lt_storage l + WL_LATEST_SLOT_COUNT * lt_slot_stride l <=? a)
  | LCheck | LRelease _ | LReset => negb (rs_checked s)
  | LTake => rs_checked s
  | _ => true
  end.

Fixpoint latest_trace (ops : list latest_op) (s : latest_run_state) : list latest_event :=
  match ops with
  | [] => []
  | op :: ops => let '(s', ev) := latest_exec op s in ev :: latest_trace ops s'
  end.

Fixpoint latest_fair (ops : list latest_op) (s : latest_run_state) : bool :=
  match ops with
  | [] => true
  | op :: ops => latest_may s op && latest_fair ops (latest_exec op s).1
  end.

(** ** Ownership of the slots *)

Definition is_slot (i : Z) : Prop := 0 <= i <= 2.

Lemma exchange_word k :
  is_slot k →
  Z.land (Z.lor k WL_LATEST_DIRTY) WL_LATEST_DIRTY ≠ 0 ∧
  Z.land (Z.lor k WL_LATEST_DIRTY) WL_LATEST_INDEX_MASK = k ∧
  Z.land k WL_LATEST_DIRTY = 0 ∧ Z.land k WL_LATEST_INDEX_MASK = k.
Proof.
  intros Hk. assert (k = 0 ∨ k = 1 ∨ k = 2) as [->|[->| ->]] by (unfold is_slot in Hk; lia); done.
Qed.

(** [k] is the slot in the exchange word. *)
Record latest_inv (m : mem) (l : latest) (checked : bool) (b : mailbox) (k : Z) : Prop := {
  li_magic : lt_magic l = WL_LATEST_MAGIC;
  li_size : 0 < lt_value_size l <= lt_slot_stride l;
  li_slots : is_slot (lt_writer_back l) ∧ is_slot (lt_reader_front l) ∧ is_slot k;
  li_apart : lt_writer_back l ≠ lt_reader_front l ∧ lt_writer_back l ≠ k ∧ lt_reader_front l ≠ k;
  li_generations : length (lt_slot_generation l) = 3%nat ∧ lt_generation l = am_generation b;
  li_unread : match am_unread b with
              | Some (x, g) => lt_middle l = Z.lor k WL_LATEST_DIRTY ∧
                               x = latest_bytes m l k ∧ g = slot_generation_of l k
              | None => lt_middle l = k
              end;
  li_claim : am_claim b =
    (if lt_write_claimed l then
       Some (mk_latest_claim (wl_latest_slot l (lt_writer_back l)) (lt_value_size l)
               (lt_write_token l) (lt_writer_back l))
     else None) ∧ (lt_write_claimed l = true → lt_write_token l ≠ 0);
  li_view : am_view b =
    (if lt_read_borrowed l then
       Some (mk_latest_view (wl_latest_slot l (lt_reader_front l)) (lt_value_size l)
               (slot_generation_of l (lt_reader_front l)) (lt_read_token l) (lt_reader_front l),
             latest_bytes m l (lt_reader_front l))
     else None) ∧ (lt_read_borrowed l = true → lt_read_token l ≠ 0);
  li_checked : am_checked b = checked ∧
               (checked = true → is_Some (am_unread b) ∧ lt_read_borrowed l = false);
}.

Lemma latest_token_nonzero t : wl_latest_next_token t ≠ 0.
Proof. unfold wl_latest_next_token. by destruct (Z.eqb_spec (u32 (t + 1)) 0). Qed.

Section Simulation.
Context (m : mem) (l : latest) (checked : bool) (b : mailbox) (k : Z).
Context (Hinv : latest_inv m l checked b k).

Lemma latest_ready : wl_latest_initialized l = true.
Proof. unfold wl_latest_initialized. rewrite (li_magic _ _ _ _ _ Hinv). apply Z.eqb_refl. Qed.

Lemma latest_claim_lease c : wl_latest_claim_matches l c = true ↔ am_claim b = Some c.
Proof.
  destruct (li_claim _ _ _ _ _ Hinv) as [-> Ht]. unfold wl_latest_claim_matches.
  destruct (lt_write_claimed l); [|done]. pose proof (Ht eq_refl) as Hz.
  rewrite !andb_true_iff, negb_true_iff, !Z.eqb_eq, Z.eqb_neq. destruct c. cbn. split.
  - intros (((((_ & _) & ->) & ->) & ->) & ->). done.
  - intros [= <- <- <- <-]. done.
Qed.

Lemma latest_view_lease c :
  wl_latest_view_matches l c = true ↔
  am_view b = Some (c, latest_bytes m l (lt_reader_front l)).
Proof.
  destruct (li_view _ _ _ _ _ Hinv) as [-> Ht]. unfold wl_latest_view_matches.
  destruct (lt_read_borrowed l); [|done]. pose proof (Ht eq_refl) as Hz.
  rewrite !andb_true_iff, negb_true_iff, !Z.eqb_eq, Z.eqb_neq. destruct c. cbn. split.
  - intros ((((((_ & _) & ->) & ->) & ->) & ->) & ->). done.
  - intros [= <- <- <- <- <-]. done.
Qed.

Lemma latest_error_inv e : latest_inv m (wl_latest_error l e).1 checked b k.
Proof. by destruct Hinv; split. Qed.

Lemma sim_wclaim :
  let '(l', e, c) := wl_latest_write_claim l in
  ∃ b', mailbox_next b (EvWClaim e c) = Some b' ∧ latest_inv m l' checked b' k.
Proof.
  unfold wl_latest_write_claim. rewrite latest_ready. cbn [negb].
  destruct (li_claim _ _ _ _ _ Hinv) as [Hc _]. unfold mailbox_next. rewrite Hc.
  destruct (lt_write_claimed l) eqn:Ew; cbn.
  { exists b. split; [done|exact (latest_error_inv WL_ERR_BUSY)]. }
  eexists. split; [done|]. destruct Hinv. split; try done. split; [done|].
  intros _. apply latest_token_nonzero.
Qed.

(** Two slots do not share bytes. *)
Lemma latest_slots_apart i j a v :
  is_slot i → is_slot j → i ≠ j →
  wl_latest_slot l j <= a < wl_latest_slot l j + lt_value_size l →
  latest_bytes (mset m a v) l i = latest_bytes m l i.
Proof.
  intros Hi Hj Hne Ha. pose proof (li_size _ _ _ _ _ Hinv). unfold latest_bytes.
  apply mread_mset_out. unfold wl_latest_slot, is_slot in *. nia.
Qed.

Lemma latest_outside i a v :
  is_slot i →
  a < lt_storage l ∨ lt_storage l + WL_LATEST_SLOT_COUNT * lt_slot_stride l <= a →
  latest_bytes (mset m a v) l i = latest_bytes m l i.
Proof.
  intros Hi Ha. pose proof (li_size _ _ _ _ _ Hinv). unfold latest_bytes.
  apply mread_mset_out. unfold wl_latest_slot, is_slot, WL_LATEST_SLOT_COUNT in *. nia.
Qed.

Lemma sim_wstore a v :
  latest_may (mk_lrs m l checked) (LStore a v) = true → latest_inv (mset m a v) l checked b k.
Proof.
  intros Ha. cbn in Ha. rewrite !orb_true_iff, !andb_true_iff, !Z.leb_le, !Z.ltb_lt in Ha.
  pose proof Hinv as []. destruct li_slots0 as (Hb & Hr & Hk), li_apart0 as (N1 & N2 & N3).
  assert (latest_bytes (mset m a v) l k = latest_bytes m l k ∧
    latest_bytes (mset m a v) l (lt_reader_front l) = latest_bytes m l (lt_reader_front l))
    as [E1 E2].
  { destruct Ha as [[((_ & Hlo) & Hhi)|Ha]|Ha].
    - split; apply (latest_slots_apart _ (lt_writer_back l)); done || lia.
    - split; apply latest_outside; auto.
    - split; apply latest_outside; auto. }
  split; try done.
  - by rewrite E1.
  - by rewrite E2.
Qed.

Lemma sim_wabort c :
  let '(l', e) := wl_latest_write_abort l c in
  ∃ b', mailbox_next b (EvWAbort c e) = Some b' ∧ latest_inv m l' checked b' k.
Proof.
  unfold wl_latest_write_abort. rewrite latest_ready. cbn [negb]. unfold mailbox_next.
  destruct (wl_latest_claim_matches l c) eqn:Em; cbn [negb].
  - apply latest_claim_lease in Em as Ec. rewrite Ec, decide_True by done.
    eexists. split; [done|]. by destruct Hinv; split.
  - exists b. rewrite decide_False; [split; [done|exact (latest_error_inv WL_ERR_INVALID_STATE)]|].
    intros Ec. apply latest_claim_lease in Ec. congruence.
Qed.

(** The exchange word carries slot [k] whether or not it is dirty. *)
Lemma middle_index : Z.land (lt_middle l) WL_LATEST_INDEX_MASK = k.
Proof.
  destruct Hinv. destruct (exchange_word k) as (_ & E1 & _ & E2); [apply li_slots0|].
  destruct (am_unread b) as [[x g]|]; [destruct li_unread0 as [-> _]|rewrite li_unread0]; done.
Qed.

Lemma middle_dirty : Z.land (lt_middle l) WL_LATEST_DIRTY = 0 ↔ am_unread b = None.
Proof.
  destruct Hinv. destruct (exchange_word k) as (E1 & _ & E2 & _); [apply li_slots0|].
  destruct (am_unread b) as [[x g]|]; [destruct li_unread0 as [-> _]|rewrite li_unread0]; done.
Qed.

Lemma generation_set i j g :
  is_slot i → is_slot j →
  slot_generation_of (l <| lt_slot_generation := <[Z.to_nat i := g]> (lt_slot_generation l) |>) j
  = if decide (i = j) then g else slot_generation_of l j.
Proof.
  intros Hi Hj. destruct (li_generations _ _ _ _ _ Hinv) as [Hl _].
  unfold slot_generation_of, is_slot in *. cbn. destruct (decide (i = j)) as [->|Hne].
  - by rewrite list_lookup_insert_eq by lia.
  - by rewrite list_lookup_insert_ne by lia.
Qed.

Lemma sim_wpublish c :
  let '(l', e) := wl_latest_write_publish l c in
  ∃ b' k', mailbox_next b (EvWPublish c (latest_bytes m l (lt_writer_back l)) e) = Some b' ∧
           latest_inv m l' checked b' k'.
Proof.
  unfold wl_latest_write_publish. rewrite latest_ready. cbn [negb]. unfold mailbox_next.
  destruct (wl_latest_claim_matches l c) eqn:Em; cbn [negb].
  2: { exists b, k. rewrite decide_False;
         [split; [done|exact (latest_error_inv WL_ERR_INVALID_STATE)]|].
       intros Ec. apply latest_claim_lease in Ec. congruence. }
  apply latest_claim_lease in Em as Ec. rewrite Ec, decide_True by done.
  eexists _, (lt_writer_back l). split; [done|]. cbn [lt_middle].
  pose proof middle_index as Hmid. pose proof (li_slots _ _ _ _ _ Hinv) as (S1 & S2 & S3).
  pose proof (li_apart _ _ _ _ _ Hinv) as (A1 & A2 & A3).
  pose proof (generation_set (lt_writer_back l) (lt_writer_back l) (u32 (lt_generation l + 1)) S1 S1)
    as G1. rewrite decide_True in G1 by done.
  pose proof (generation_set (lt_writer_back l) (lt_reader_front l) (u32 (lt_generation l + 1)) S1 S2)
    as G2. rewrite decide_False in G2 by done. unfold slot_generation_of in G1, G2. cbn in G1, G2.
  destruct Hinv. destruct li_generations0 as [Hg1 Hg2].
  destruct (negb _); split; cbn; rewrite ?Hmid; try done; try (by rewrite length_insert, Hg2);
    unfold slot_generation_of in *; cbn; rewrite ?G1, ?G2, ?Hg2; try done;
    (split; [apply li_checked0|]); intros Hck; destruct (proj2 li_checked0 Hck) as [_ ?]; by split.
Qed.

Lemma sim_check :
  let '(l', e) := read_acquire_check l in
  negb checked = true →
  ∃ b', mailbox_next b (EvCheck e) = Some b' ∧ latest_inv m l' (is_ok e) b' k.
Proof.
  unfold read_acquire_check. rewrite latest_ready. cbn [negb].
  destruct (li_view _ _ _ _ _ Hinv) as [Hv _]. destruct (lt_read_borrowed l) eqn:Eb.
  { intros Hck%negb_true_iff. exists b. unfold mailbox_next. rewrite Hv. split; [done|].
    pose proof (latest_error_inv WL_ERR_BUSY) as H. by rewrite Hck in H. }
  destruct (Z.eqb_spec (Z.land (lt_middle l) WL_LATEST_DIRTY) 0) as [Ed|Ed].
  - apply middle_dirty in Ed. intros Hck%negb_true_iff. exists b. unfold mailbox_next. rewrite Hv, Ed.
    split; [done|]. destruct Hinv. split; try done. by rewrite Hck in *.
  - intros _. destruct (am_unread b) as [[x g]|] eqn:Eu; [|by destruct Ed; apply middle_dirty].
    unfold mailbox_next. rewrite Hv, Eu. eexists. split; [done|].
    destruct Hinv. rewrite Eu in *. split; cbn; rewrite ?Eb; try done.
Qed.

Lemma sim_take :
  checked = true →
  let '(l', c) := read_acquire_take l in
  ∃ b' k', mailbox_next b (EvTake c (latest_bytes m l' (lt_reader_front l'))) = Some b' ∧
           latest_inv m l' false b' k'.
Proof.
  intros Hck. unfold read_acquire_take. cbn. pose proof middle_index as Hmid. cbn in Hmid.
  rewrite Hmid. destruct Hinv. destruct li_checked0 as [Ec Hun].
  destruct (Hun Hck) as [[[x g] Eu] Hb]. unfold mailbox_next. rewrite Eu, Ec, Hck in *.
  destruct li_unread0 as (Em & -> & ->). unfold slot_generation_of, latest_bytes, wl_latest_slot. cbn.
  rewrite bool_decide_true by done. eexists _, (lt_reader_front l). split; [done|].
  destruct li_slots0 as (S1 & S2 & S3), li_apart0 as (A1 & A2 & A3).
  split; try done. split; [done|]. intros _. apply latest_token_nonzero.
Qed.

Lemma sim_lrelease c :
  let '(l', e) := wl_latest_read_release l c in
  negb checked = true →
  ∃ b', mailbox_next b (EvLRelease c (latest_bytes m l (lt_reader_front l)) e) = Some b' ∧
        latest_inv m l' checked b' k.
Proof.
  unfold wl_latest_read_release. rewrite latest_ready. cbn [negb]. unfold mailbox_next.
  destruct (wl_latest_view_matches l c) eqn:Em; cbn [negb]; intros Hck%negb_true_iff.
  - apply latest_view_lease in Em as Ec. rewrite Ec, !decide_True by done.
    eexists. split; [done|]. destruct Hinv. split; try done. cbn.
    split; [apply li_checked0|by rewrite Hck].
  - exists b. pose proof (latest_error_inv WL_ERR_INVALID_STATE) as He.
    destruct (am_view b) as [[c' x]|] eqn:Ev; [|done]. rewrite decide_False; [done|]. intros ->.
    destruct (li_view _ _ _ _ _ Hinv) as [Hv _]. rewrite Ev in Hv.
    destruct (lt_read_borrowed l); [|done]. injection Hv as Hc ->.
    enough (wl_latest_view_matches l c = true) by congruence. by apply latest_view_lease.
Qed.

Lemma sim_lreset :
  let '(l', e) := wl_latest_reset l in
  negb checked = true →
  ∃ b' k', mailbox_next b (EvLReset e) = Some b' ∧ latest_inv m l' checked b' k'.
Proof.
  unfold wl_latest_reset. rewrite latest_ready. cbn [negb].
  destruct (li_claim _ _ _ _ _ Hinv) as [Hc _], (li_view _ _ _ _ _ Hinv) as [Hv _].
  unfold mailbox_next. rewrite Hc, Hv.
  destruct (lt_write_claimed l) eqn:Ew, (lt_read_borrowed l) eqn:Eb; cbn; intros Hck%negb_true_iff.
  4: { eexists _, 1. split; [done|]. destruct Hinv. unfold is_slot. rewrite Hck in *.
       split; cbn; rewrite ?Ew, ?Eb; try done; unfold is_slot; lia. }
  all: exists b, k; split; [done|exact (latest_error_inv WL_ERR_BUSY)].
Qed.

Lemma latest_sim_exec op :
  latest_may (mk_lrs m l checked) op = true →
  ∃ b' k', mailbox_next b (latest_exec op (mk_lrs m l checked)).2 = Some b' ∧
    latest_inv (rs_mem (latest_exec op (mk_lrs m l checked)).1)
      (rs_latest (latest_exec op (mk_lrs m l checked)).1)
      (rs_checked (latest_exec op (mk_lrs m l checked)).1) b' k'.
Proof.
  intros Hop. destruct op; cbn [latest_exec].
  - pose proof sim_wclaim as H. destruct (wl_latest_write_claim l) as [[l' e] c].
    destruct H as (b' & ? & ?). by exists b', k.
  - exists b, k. split; [done|]. by apply sim_wstore.
  - pose proof (sim_wpublish c) as H. destruct (wl_latest_write_publish l c) as [l' e].
    destruct H as (b' & k' & ? & ?). by exists b', k'.
  - pose proof (sim_wabort c) as H. destruct (wl_latest_write_abort l c) as [l' e].
    destruct H as (b' & ? & ?). by exists b', k.
  - pose proof sim_check as H. destruct (read_acquire_check l) as [l' e].
    destruct (H Hop) as (b' & ? & ?). by exists b', k.
  - pose proof (sim_take Hop) as H. destruct (read_acquire_take l) as [l' c].
    destruct H as (b' & k' & ? & ?). by exists b', k'.
  - pose proof (sim_lrelease c) as H. destruct (wl_latest_read_release l c) as [l' e].
    destruct (H Hop) as (b' & ? & ?). by exists b', k.
  - pose proof sim_lreset as H. destruct (wl_latest_reset l) as [l' e].
    destruct (H Hop) as (b' & k' & ? & ?). by exists b', k'.
Qed.
End Simulation.

Lemma latest_init_inv lock_free addr m l0 config storage l :
  is_size (lc_value_size config) → is_size (lc_value_alignment config) →
  wl_latest_init lock_free addr l0 config storage = (l, WL_OK) →
  latest_inv m l false (mailbox_empty (lc_initial_generation config)) 1.
Proof.
  intros Hv Ha. unfold wl_latest_init, wl_latest_requirements. intros H.
  destruct (lb_data storage =? NULL); [done|].
  destruct (_ || _) eqn:E1 in H; [done|]. rewrite !orb_false_iff, !Z.eqb_neq in E1.
  destruct (_ || _) eqn:E5 in H; [done|].
  rewrite !orb_false_iff, negb_false_iff, Z.eqb_eq, !Z.gtb_ltb, !Z.ltb_ge in E5.
  destruct E1 as (E1 & E2), E5 as (E5 & E7).
  destruct (_ >? _) in H; [done|]. destruct (_ <? _) in H; [done|].
  destruct (negb _) in H; [done|]. destruct (_ || _) in H; [done|].
  destruct (negb lock_free); [done|]. injection H as <-. unfold is_size in *.
  pose proof (align_up_fits (lc_value_size config) (lc_value_alignment config)
    ltac:(unfold SIZE_MAX; lia) E5 ltac:(lia)) as [Hfit _].
  split; cbn; try done; unfold is_slot; lia.
Qed.

Lemma latest_run_refines ops m l checked b k :
  latest_inv m l checked b k → latest_fair ops (mk_lrs m l checked) = true →
  ∃ b', mailbox_run b (latest_trace ops (mk_lrs m l checked)) = Some b'.
Proof.
  revert m l checked b k. induction ops as [|op ops IH]; intros m l checked b k Hinv Hf; [by exists b|].
  cbn [latest_fair] in Hf. apply andb_true_iff in Hf as [Hop Hf].
  destruct (latest_sim_exec m l checked b k Hinv op Hop) as (b1 & k1 & Hn & Hi).
  cbn [latest_trace]. destruct (latest_exec op (mk_lrs m l checked)) as [[m1 l1 c1] ev]. cbn in *.
  rewrite Hn. cbn. by eapply IH.
Qed.

(** C24: in every interleaving of one producer and one consumer, also when
    the producer publishes between the two accesses of an acquire, the mailbox
    behaves like a cell that keeps the newest value: an acquire that found the
    cell full takes the newest published value with its generation, whole and
    only once; the borrowed bytes are the same at the release; an acquire of an
    empty cell fails, and only the leases that were handed out are accepted. *)
Theorem latest_refines addr m l0 config storage l ops :
  is_size (lc_value_size config) → is_size (lc_value_alignment config) →
  wl_latest_init true addr l0 config storage = (l, WL_OK) →
  latest_fair ops (mk_lrs m l false) = true →
  ∃ b, mailbox_run (mailbox_empty (lc_initial_generation config))
         (latest_trace ops (mk_lrs m l false)) = Some b.
Proof.
  intros Hv Ha Hi Hf. eapply latest_run_refines; [|exact Hf]. by eapply latest_init_inv.
Qed.

(** A second value is published between the two accesses of the first acquire;
    a third while the second is borrowed. *)
Definition latest_demo : list latest_op :=
  [LCheck; LClaim; LStore 1008 1; LPublish (mk_latest_claim 1008 3 1 2); LCheck;
   LClaim; LStore 1004 2; LPublish (mk_latest_claim 1004 3 2 1); LTake;
   LClaim; LStore 1008 3; LPublish (mk_latest_claim 1008 3 3 2);
   LRelease (mk_latest_view 1004 3 6 1 1); LCheck; LTake].

Lemma latest_refines_witness :
  let l := (wl_latest_init true 5000 latest_zero (mk_latest_config 3 4 4)
              (mk_latest_storage 1000 12)).1 in
  let trace := latest_trace latest_demo (mk_lrs (λ _, 0) l false) in
  (∃ b, mailbox_run (mailbox_empty 4) trace = Some b) ∧
  trace !! 0%nat = Some (EvCheck WL_ERR_NO_DATA) ∧
  trace !! 8%nat = Some (EvTake (mk_latest_view 1004 3 6 1 1) [2; 0; 0]) ∧
  trace !! 12%nat = Some (EvLRelease (mk_latest_view 1004 3 6 1 1) [2; 0; 0] WL_OK) ∧
  last trace = Some (EvTake (mk_latest_view 1008 3 7 2 2) [3; 0; 0]).
Proof.
  intros l trace. split.
  - apply (latest_refines 5000 (λ _, 0) latest_zero (mk_latest_config 3 4 4)
      (mk_latest_storage 1000 12) l latest_demo); try (split; vm_compute; congruence);
      vm_compute; reflexivity.
  - vm_compute. repeat split; reflexivity.
Defined.
