(* ===== verification/Outbox.v ===== *)
(** The outbox with one lane per message id: [src/src/outbox.c].

    An application submits the newest value of a message; an unsent value of the
    same message is replaced.  The sender copies one lane out, tries to send it
    and reports the outcome; a value that was replaced meanwhile stays.

    [outbox_refines] shows that the outbox is a bounded map from message ids to
    their newest values.  [outbox_no_starvation] shows that the rotation of the
    lanes reaches every one of them. *)
From stdpp Require Import gmap.
From S2P Require Import Prelude Slots.

(** ** State *)

Definition WL_OUTBOX_MAGIC : Z := 0x4f555442.

(** [wl_outbox_slot_impl_t] *)
Record outbox_slot := mk_outbox_slot {
  os_generation : Z;
  os_payload_length : Z;
  os_message_id : Z;
  os_valid : bool;
}.

Definition outbox_slot_zero : outbox_slot := mk_outbox_slot 0 0 0 false.

(** [wl_outbox_impl_t] *)
Record outbox := mk_outbox {
  ob_slots : list outbox_slot;
  ob_payload_storage : Z;
  ob_next_generation : Z;
  ob_submitted : Z;
  ob_coalesced : Z;
  ob_queue_full : Z;
  ob_acquired : Z;
  ob_accepted : Z;
  ob_deferred : Z;
  ob_rejected : Z;
  ob_superseded : Z;
  ob_resets : Z;
  ob_active_token : Z;
  ob_magic : Z;
  ob_slot_count : Z;
  ob_payload_capacity : Z;
  ob_cursor : Z;
  ob_depth : Z;
  ob_active_index : Z;
  ob_active : bool;
}.

#[export] Instance rebuild_outbox : Rebuild outbox := λ o,
  mk_outbox (ob_slots o) (ob_payload_storage o) (ob_next_generation o) (ob_submitted o)
    (ob_coalesced o) (ob_queue_full o) (ob_acquired o) (ob_accepted o) (ob_deferred o)
    (ob_rejected o) (ob_superseded o) (ob_resets o) (ob_active_token o) (ob_magic o)
    (ob_slot_count o) (ob_payload_capacity o) (ob_cursor o) (ob_depth o) (ob_active_index o)
    (ob_active o).
#[export] Instance fs_ob_slots : FieldSet ob_slots := _.
#[export] Instance fs_ob_payload_storage : FieldSet ob_payload_storage := _.
#[export] Instance fs_ob_next_generation : FieldSet ob_next_generation := _.
#[export] Instance fs_ob_submitted : FieldSet ob_submitted := _.
#[export] Instance fs_ob_coalesced : FieldSet ob_coalesced := _.
#[export] Instance fs_ob_queue_full : FieldSet ob_queue_full := _.
#[export] Instance fs_ob_acquired : FieldSet ob_acquired := _.
#[export] Instance fs_ob_accepted : FieldSet ob_accepted := _.
#[export] Instance fs_ob_deferred : FieldSet ob_deferred := _.
#[export] Instance fs_ob_rejected : FieldSet ob_rejected := _.
#[export] Instance fs_ob_superseded : FieldSet ob_superseded := _.
#[export] Instance fs_ob_resets : FieldSet ob_resets := _.
#[export] Instance fs_ob_active_token : FieldSet ob_active_token := _.
#[export] Instance fs_ob_magic : FieldSet ob_magic := _.
#[export] Instance fs_ob_slot_count : FieldSet ob_slot_count := _.
#[export] Instance fs_ob_payload_capacity : FieldSet ob_payload_capacity := _.
#[export] Instance fs_ob_cursor : FieldSet ob_cursor := _.
#[export] Instance fs_ob_depth : FieldSet ob_depth := _.
#[export] Instance fs_ob_active_index : FieldSet ob_active_index := _.
#[export] Instance fs_ob_active : FieldSet ob_active := _.

Definition outbox_zero : outbox :=
  mk_outbox [] NULL 0 0 0 0 0 0 0 0 0 0 0 0 0 0 0 0 0 false.

(** [oc_slots] is the pointer to the slots, which the model keeps in the outbox. *)
Record outbox_config := mk_outbox_config {
  oc_slots : Z;
  oc_slot_count : Z;
  oc_payload_storage : Z;
  oc_payload_storage_size : Z;
  oc_payload_capacity_per_slot : Z;
  oc_initial_generation : Z;
}.

Record outbox_item := mk_outbox_item {
  oi_token : Z;
  oi_slot_index : Z;
  oi_message_id : Z;
  oi_payload_length : Z;
}.

Definition outbox_item_zero : outbox_item := mk_outbox_item 0 0 0 0.

Definition WL_OUTBOX_ACCEPTED : Z := 0.
Definition WL_OUTBOX_DEFERRED : Z := 1.
Definition WL_OUTBOX_REJECTED : Z := 2.

Record outbox_stats := mk_outbox_stats {
  outbox_submitted : Z;
  outbox_coalesced : Z;
  outbox_queue_full : Z;
  outbox_acquired : Z;
  outbox_accepted : Z;
  outbox_deferred : Z;
  outbox_rejected : Z;
  outbox_superseded : Z;
  outbox_resets : Z;
  outbox_depth : Z;
}.

(** ** Operations *)

Definition outbox_initialized (o : outbox) : bool := ob_magic o =? WL_OUTBOX_MAGIC.

Definition payload_at (o : outbox) (index : Z) : Z :=
  ob_payload_storage o + index * ob_payload_capacity o.

Definition outbox_slot_at (o : outbox) (index : Z) : outbox_slot :=
  default outbox_slot_zero (ob_slots o !! Z.to_nat index).

Definition set_outbox_slot (o : outbox) (index : Z) (s : outbox_slot) : outbox :=
  o <| ob_slots := <[Z.to_nat index := s]> (ob_slots o) |>.

Definition wl_outbox_init (o : outbox) (config : outbox_config) : outbox * wl_err :=
  if (oc_slots config =? NULL) || (oc_slot_count config =? 0)
     || (oc_payload_storage config =? NULL) || (oc_payload_capacity_per_slot config =? 0)
     || (oc_slot_count config >? SIZE_MAX / oc_payload_capacity_per_slot config)
  then (o, WL_ERR_INVALID_ARG)
  else
    let required := usize (oc_slot_count config * oc_payload_capacity_per_slot config) in
    if oc_payload_storage_size config <? required then (o, WL_ERR_INVALID_ARG)
    else
      (outbox_zero <| ob_slots := replicate (Z.to_nat (oc_slot_count config)) outbox_slot_zero |>
         <| ob_payload_storage := oc_payload_storage config |>
         <| ob_next_generation := oc_initial_generation config |>
         <| ob_slot_count := oc_slot_count config |>
         <| ob_payload_capacity := oc_payload_capacity_per_slot config |>
         <| ob_magic := WL_OUTBOX_MAGIC |>, WL_OK).

(** The index of the first slot with the property. *)
Fixpoint first_slot (p : outbox_slot → bool) (slots : list outbox_slot) (index : Z) : option Z :=
  match slots with
  | [] => None
  | s :: slots => if p s then Some index else first_slot p slots (index + 1)
  end.

(** The slot for a message and whether its value is replaced. *)
Definition select_slot (o : outbox) (message_id : Z) : option (Z * bool) :=
  match first_slot (λ s, os_valid s && (os_message_id s =? message_id)) (ob_slots o) 0 with
  | Some index => Some (index, true)
  | None =>
      match first_slot (λ s, negb (os_valid s)) (ob_slots o) 0 with
      | Some index => Some (index, false)
      | None => None
      end
  end.

(** The last component is [*out_coalesced]. *)
Definition wl_outbox_submit_latest (m : mem) (o : outbox) (message_id payload payload_length : Z)
    : mem * outbox * wl_err * bool :=
  if negb (outbox_initialized o) then (m, o, WL_ERR_NOT_INITIALIZED, false)
  else if (message_id =? 0) || (payload_length >? ob_payload_capacity o)
          || ((payload =? NULL) && negb (payload_length =? 0))
  then (m, o, WL_ERR_INVALID_ARG, false)
  else
    match select_slot o message_id with
    | None => (m, o <| ob_queue_full := u64 (ob_queue_full o + 1) |>, WL_ERR_QUEUE_FULL, false)
    | Some (index, replaced) =>
        let generation := u64 (ob_next_generation o + 1) in
        let generation := if generation =? 0 then u64 (generation + 1) else generation in
        let o := o <| ob_next_generation := generation |> in
        let m := if negb (payload_length =? 0)
                 then memmove m (payload_at o index) payload payload_length else m in
        let o := set_outbox_slot o index (mk_outbox_slot generation payload_length message_id true) in
        let o := o <| ob_submitted := u64 (ob_submitted o + 1) |> in
        let o := if replaced then o <| ob_coalesced := u64 (ob_coalesced o + 1) |>
                 else o <| ob_depth := u16 (ob_depth o + 1) |> in
        (m, o, WL_OK, replaced)
    end.

(** The first valid slot from the cursor on; [n] slots remain to be looked at. *)
Fixpoint next_valid (o : outbox) (n : nat) (offset : Z) : option Z :=
  match n with
  | O => None
  | S n =>
      let index := u16 ((ob_cursor o + offset) mod ob_slot_count o) in
      if os_valid (outbox_slot_at o index) then Some index else next_valid o n (offset + 1)
  end.

Definition wl_outbox_acquire_copy (m : mem) (o : outbox) (payload payload_capacity : Z)
    : mem * outbox * wl_err * outbox_item :=
  if negb (outbox_initialized o) then (m, o, WL_ERR_NOT_INITIALIZED, outbox_item_zero)
  else if payload =? NULL then (m, o, WL_ERR_INVALID_ARG, outbox_item_zero)
  else if ob_active o then (m, o, WL_ERR_BUSY, outbox_item_zero)
  else
    match next_valid o (Z.to_nat (ob_slot_count o)) 0 with
    | None => (m, o, WL_ERR_NO_DATA, outbox_item_zero)
    | Some index =>
        let candidate := outbox_slot_at o index in
        if os_payload_length candidate >? payload_capacity
        then (m, o, WL_ERR_NO_SPACE, outbox_item_zero)
        else
          let m := if negb (os_payload_length candidate =? 0)
                   then memmove m payload (payload_at o index) (os_payload_length candidate)
                   else m in
          (m, o <| ob_active := true |> <| ob_active_index := index |>
                <| ob_active_token := os_generation candidate |>
                <| ob_acquired := u64 (ob_acquired o + 1) |>, WL_OK,
           mk_outbox_item (os_generation candidate) index (os_message_id candidate)
             (os_payload_length candidate))
    end.

Definition wl_outbox_complete (o : outbox) (item : outbox_item) (completion : Z)
    : outbox * wl_err :=
  if negb (outbox_initialized o) then (o, WL_ERR_NOT_INITIALIZED)
  else if (oi_slot_index item >=? ob_slot_count o)
          || (negb (completion =? WL_OUTBOX_ACCEPTED) && negb (completion =? WL_OUTBOX_DEFERRED)
              && negb (completion =? WL_OUTBOX_REJECTED))
  then (o, WL_ERR_INVALID_ARG)
  else if negb (ob_active o) || negb (ob_active_index o =? oi_slot_index item)
          || negb (ob_active_token o =? oi_token item)
  then (o, WL_ERR_INVALID_STATE)
  else
    let o := o <| ob_active := false |> <| ob_active_token := 0 |> in
    if completion =? WL_OUTBOX_DEFERRED
    then (o <| ob_deferred := u64 (ob_deferred o + 1) |>, WL_OK)
    else
      let current := outbox_slot_at o (oi_slot_index item) in
      let o := if os_valid current && (os_generation current =? oi_token item)
               then set_outbox_slot o (oi_slot_index item) outbox_slot_zero
                      <| ob_depth := u16 (ob_depth o - 1) |>
               else o <| ob_superseded := u64 (ob_superseded o + 1) |> in
      let o := o <| ob_cursor := u16 ((oi_slot_index item + 1) mod ob_slot_count o) |> in
      (if completion =? WL_OUTBOX_ACCEPTED then o <| ob_accepted := u64 (ob_accepted o + 1) |>
       else o <| ob_rejected := u64 (ob_rejected o + 1) |>, WL_OK).

(** The last component is [*out_discarded]. *)
Definition wl_outbox_reset (o : outbox) : outbox * wl_err * Z :=
  if negb (outbox_initialized o) then (o, WL_ERR_NOT_INITIALIZED, 0)
  else if ob_active o then (o, WL_ERR_BUSY, 0)
  else (o <| ob_slots := replicate (Z.to_nat (ob_slot_count o)) outbox_slot_zero |>
          <| ob_depth := 0 |> <| ob_cursor := 0 |> <| ob_resets := u64 (ob_resets o + 1) |>,
        WL_OK, ob_depth o).

Definition wl_outbox_get_stats (o : outbox) : wl_err + outbox_stats :=
  if negb (outbox_initialized o) then inl WL_ERR_NOT_INITIALIZED
  else inr (mk_outbox_stats (ob_submitted o) (ob_coalesced o) (ob_queue_full o) (ob_acquired o)
              (ob_accepted o) (ob_deferred o) (ob_rejected o) (ob_superseded o) (ob_resets o)
              (ob_depth o)).

(** ** The contract

    A map from message ids to values.  The flag beside the acquired item says
    whether its value is still the newest one of its lane. *)

Record lanes := mk_lanes {
  la_slots : Z;
  la_capacity : Z;
  la_values : gmap Z (list Z);
  la_active : option (outbox_item * bool);
}.

#[export] Instance outbox_item_eq_dec : EqDecision outbox_item.
Proof. solve_decision. Defined.

(** A call with its answer and the bytes it copied.  [null] says that a payload
    pointer was missing. *)
Inductive outbox_event :=
  | OEvSubmit (id : Z) (v : list Z) (null : bool) (e : wl_err) (coalesced : bool)
  | OEvAcquire (capacity : Z) (null : bool) (e : wl_err) (item : outbox_item) (v : list Z)
  | OEvComplete (token slot completion : Z) (e : wl_err)
  | OEvReset (e : wl_err) (discarded : Z)
  | OEvStore.

Definition is_completion (completion : Z) : bool := (0 <=? completion) && (completion <=? 2).

Definition lanes_next (a : lanes) (ev : outbox_event) : option lanes :=
  let n := la_slots a in
  let cap := la_capacity a in
  let values := la_values a in
  let active := la_active a in
  let answer (b : bool) (a' : lanes) := if b then Some a' else None in
  let code e e' := bool_decide (e = e' :> wl_err) in
  match ev with
  | OEvSubmit id v null e co =>
      if (id =? 0) || (cap <? len v) || (null && negb (len v =? 0))
      then answer (code e WL_ERR_INVALID_ARG) a
      else if negb (bool_decide (is_Some (values !! id))) && (n <=? Z.of_nat (size values))
      then answer (code e WL_ERR_QUEUE_FULL) a
      else
        let stale x := (x.1, x.2 && negb (oi_message_id x.1 =? id)) in
        answer (code e WL_OK && bool_decide (co = bool_decide (is_Some (values !! id))))
          (mk_lanes n cap (<[id := v]> values) (stale <$> active))
  | OEvAcquire room null e item v =>
      if null then answer (code e WL_ERR_INVALID_ARG) a
      else
        match active with
        | Some _ => answer (code e WL_ERR_BUSY) a
        | None =>
            if bool_decide (values = ∅) then answer (code e WL_ERR_NO_DATA) a
            else if code e WL_ERR_NO_SPACE
            then answer (existsb (λ kv, room <? len kv.2) (map_to_list values)) a
            else answer (code e WL_OK && bool_decide (values !! oi_message_id item = Some v)
                         && (oi_payload_length item =? len v) && (len v <=? room))
                   (mk_lanes n cap values (Some (item, true)))
        end
  | OEvComplete token slot completion e =>
      if (n <=? slot) || negb (is_completion completion) then answer (code e WL_ERR_INVALID_ARG) a
      else
        match active with
        | Some (item, newest) =>
            if (oi_token item =? token) && (oi_slot_index item =? slot) then
              answer (code e WL_OK)
                (mk_lanes n cap
                   (if negb (completion =? WL_OUTBOX_DEFERRED) && newest
                    then delete (oi_message_id item) values else values) None)
            else answer (code e WL_ERR_INVALID_STATE) a
        | None => answer (code e WL_ERR_INVALID_STATE) a
        end
  | OEvReset e d =>
      match active with
      | Some _ => answer (code e WL_ERR_BUSY) a
      | None => answer (code e WL_OK && (d =? Z.of_nat (size values))) (mk_lanes n cap ∅ None)
      end
  | OEvStore => Some a
  end.

Fixpoint lanes_run (a : lanes) (trace : list outbox_event) : option lanes :=
  match trace with
  | [] => Some a
  | ev :: trace => lanes_next a ev ≫= λ a', lanes_run a' trace
  end.

(** ** Sequences of calls *)

Inductive outbox_op :=
  | OSubmit (id payload length : Z)
  | OAcquire (payload capacity : Z)
  | OComplete (item : outbox_item) (completion : Z)
  | OReset
  | OStore (a v : Z).

Definition outbox_exec (op : outbox_op) (s : mem * outbox) : (mem * outbox) * outbox_event :=
  let '(m, o) := s in
  match op with
  | OSubmit id p n =>
      let '(m', o', e, co) := wl_outbox_submit_latest m o id p n in
      ((m', o'), OEvSubmit id (mread m p (Z.to_nat n)) (p =? NULL) e co)
  | OAcquire p n =>
      let '(m', o', e, item) := wl_outbox_acquire_copy m o p n in
      ((m', o'), OEvAcquire n (p =? NULL) e item (mread m' p (Z.to_nat (oi_payload_length item))))
  | OComplete item c =>
      let '(o', e) := wl_outbox_complete o item c in
      ((m, o'), OEvComplete (oi_token item) (oi_slot_index item) c e)
  | OReset => let '(o', e, d) := wl_outbox_reset o in ((m, o'), OEvReset e d)
  | OStore a v => ((mset m a v, o), OEvStore)
  end.

(** Lengths are sizes, indices are not negative, and the caller's buffers and
    stores are outside the payload storage. *)
Definition outbox_outside (o : outbox) (a n : Z) : bool :=
  (a + n <=? ob_payload_storage o)
  || (ob_payload_storage o + ob_slot_count o * ob_payload_capacity o <=? a).

Definition outbox_may (o : outbox) (op : outbox_op) : bool :=
  match op with
  | OSubmit _ _ n => 0 <=? n
  | OAcquire p n => (0 <=? n) && outbox_outside o p n
  | OComplete item _ => 0 <=? oi_slot_index item
  | OReset => true
  | OStore a _ => outbox_outside o a 1
  end.

Fixpoint outbox_trace (ops : list outbox_op) (s : mem * outbox) : list outbox_event :=
  match ops with
  | [] => []
  | op :: ops => let '(s', ev) := outbox_exec op s in ev :: outbox_trace ops s'
  end.

Fixpoint outbox_fair (ops : list outbox_op) (s : mem * outbox) : bool :=
  match ops with
  | [] => true
  | op :: ops => outbox_may s.2 op && outbox_fair ops (outbox_exec op s).1
  end.

(** ** The slots as a map *)

Definition valid_at (o : outbox) (i : nat) (s : outbox_slot) : Prop :=
  ob_slots o !! i = Some s ∧ os_valid s = true.

Definition value_at (m : mem) (o : outbox) (i : nat) (s : outbox_slot) : list Z :=
  mread m (payload_at o (Z.of_nat i)) (Z.to_nat (os_payload_length s)).

Definition count_valid (slots : list outbox_slot) : nat :=
  length (filter (λ s, os_valid s = true) slots).

(** [room] submissions are left before the generation would wrap. *)
Record outbox_inv (m : mem) (o : outbox) (a : lanes) (room : Z) : Prop := {
  ox_magic : ob_magic o = WL_OUTBOX_MAGIC;
  ox_slots : 0 < ob_slot_count o < 2 ^ 16 ∧ length (ob_slots o) = Z.to_nat (ob_slot_count o) ∧
             la_slots a = ob_slot_count o;
  ox_capacity : 0 < ob_payload_capacity o ∧ la_capacity a = ob_payload_capacity o;
  ox_values : ∀ id v, la_values a !! id = Some v ↔
    ∃ i s, valid_at o i s ∧ os_message_id s = id ∧ v = value_at m o i s;
  ox_valid : ∀ i s, valid_at o i s →
    os_message_id s ≠ 0 ∧ 0 <= os_payload_length s <= ob_payload_capacity o ∧
    0 < os_generation s <= ob_next_generation o;
  ox_unique : ∀ i j s t, valid_at o i s → valid_at o j t →
    os_message_id s = os_message_id t → i = j;
  ox_depth : ob_depth o = Z.of_nat (size (la_values a)) ∧
             count_valid (ob_slots o) = size (la_values a);
  ox_generation : 0 <= ob_next_generation o ∧ ob_next_generation o + room < 2 ^ 64;
  ox_cursor : 0 <= ob_cursor o < ob_slot_count o;
  ox_active : match la_active a with
    | None => ob_active o = false
    | Some (item, newest) =>
        ob_active o = true ∧ ob_active_index o = oi_slot_index item ∧
        ob_active_token o = oi_token item ∧ 0 <= oi_slot_index item < ob_slot_count o ∧
        ∃ s, valid_at o (Z.to_nat (oi_slot_index item)) s ∧
             os_message_id s = oi_message_id item ∧ oi_token item <= os_generation s ∧
             newest = bool_decide (os_generation s = oi_token item)
    end;
}.

Lemma first_slot_some p slots k i :
  first_slot p slots k = Some i →
  ∃ s, slots !! Z.to_nat (i - k) = Some s ∧ p s = true ∧ k <= i < k + len slots.
Proof.
  revert k. induction slots as [|s slots IH]; intros k H; [done|]. cbn in H. rewrite len_cons.
  pose proof (len_nonneg slots). destruct (p s) eqn:Ep.
  - injection H as ->. exists s. rewrite Z.sub_diag. split_and!; done || lia.
  - destruct (IH _ H) as (t & Ht & Hp & Hr). exists t. split_and!; try done || lia.
    replace (Z.to_nat (i - k)) with (S (Z.to_nat (i - (k + 1)))) by lia. done.
Qed.

Lemma first_slot_none p slots k i s :
  first_slot p slots k = None → slots !! i = Some s → p s = false.
Proof.
  revert k i. induction slots as [|t slots IH]; intros k i H Hi; [done|]. cbn in H.
  destruct (p t) eqn:Ep; [done|]. destruct i as [|i]; [by injection Hi as <-|]. by eapply IH.
Qed.

Lemma count_insert slots i s t :
  slots !! i = Some s →
  (count_valid (<[i := t]> slots) + (if os_valid s then 1 else 0)
   = count_valid slots + (if os_valid t then 1 else 0))%nat.
Proof.
  unfold count_valid. intros Hi. pose proof (lookup_lt_Some _ _ _ Hi).
  rewrite insert_take_drop by done.
  replace (filter (λ s, os_valid s = true) slots) with
    (filter (λ s, os_valid s = true) (take i slots ++ s :: drop (S i) slots))
    by (by rewrite take_drop_middle).
  rewrite !filter_app, !length_app, !filter_cons.
  destruct (os_valid s) eqn:Es, (os_valid t) eqn:Et;
    repeat case_decide; try done; cbn; lia.
Qed.

Lemma count_full slots :
  (∀ i s, slots !! i = Some s → os_valid s = true) → count_valid slots = length slots.
Proof.
  unfold count_valid. induction slots as [|s slots IH]; intros H; [done|].
  rewrite filter_cons, decide_True by exact (H 0%nat s eq_refl). cbn. f_equal.
  apply IH. intros i t Hi. exact (H (S i) t Hi).
Qed.

Lemma zero_invalid n i s : replicate n outbox_slot_zero !! i = Some s → os_valid s = false.
Proof. by intros [-> _]%lookup_replicate. Qed.

Lemma count_zero n : count_valid (replicate n outbox_slot_zero) = 0%nat.
Proof. induction n as [|n IH]; [done|]. exact IH. Qed.

Lemma count_bound slots : (count_valid slots <= length slots)%nat.
Proof. apply length_filter. Qed.

Section Simulation.
Context (m : mem) (o : outbox) (a : lanes) (room : Z) (Hinv : outbox_inv m o a room).

Lemma outbox_ready : outbox_initialized o = true.
Proof. unfold outbox_initialized. rewrite (ox_magic _ _ _ _ Hinv). apply Z.eqb_refl. Qed.

Lemma lane_present id :
  bool_decide (is_Some (la_values a !! id)) = true ↔
  ∃ i s, valid_at o i s ∧ os_message_id s = id.
Proof.
  rewrite bool_decide_eq_true. split.
  - intros [v Hv]. apply (ox_values _ _ _ _ Hinv) in Hv as (i & s & Hs & Hid & _). by exists i, s.
  - intros (i & s & Hs & Hid). exists (value_at m o i s).
    apply (ox_values _ _ _ _ Hinv). by exists i, s.
Qed.

(** What [select_slot] finds. *)
Lemma select_cases id :
  match select_slot o id with
  | Some (i, replaced) =>
      0 <= i < ob_slot_count o ∧ replaced = bool_decide (is_Some (la_values a !! id)) ∧
      ∃ s, ob_slots o !! Z.to_nat i = Some s ∧ os_valid s = replaced ∧
           (replaced = true → os_message_id s = id)
  | None => bool_decide (is_Some (la_values a !! id)) = false ∧
            Z.of_nat (size (la_values a)) = ob_slot_count o
  end.
Proof.
  destruct (ox_slots _ _ _ _ Hinv) as (Hn & Hl & _). unfold select_slot.
  destruct (first_slot (λ s, os_valid s && (os_message_id s =? id)) (ob_slots o) 0) as [i|] eqn:E1.
  - apply first_slot_some in E1 as (s & Hs & Hp & Hr). rewrite Z.sub_0_r in Hs. unfold len in Hr.
    apply andb_true_iff in Hp as [Hv Hid%Z.eqb_eq]. split; [lia|]. split.
    + symmetry. apply lane_present. by exists (Z.to_nat i), s.
    + by exists s.
  - assert (bool_decide (is_Some (la_values a !! id)) = false) as Hno.
    { apply not_true_is_false. intros (i & s & [Hs Hv] & Hid)%lane_present.
      pose proof (first_slot_none _ _ _ _ _ E1 Hs) as Hp. cbn in Hp.
      rewrite Hv, Hid, Z.eqb_refl in Hp. done. }
    rewrite Hno. destruct (first_slot (λ s, negb (os_valid s)) (ob_slots o) 0) as [i|] eqn:E2.
    + apply first_slot_some in E2 as (s & Hs & Hp%negb_true_iff & Hr). rewrite Z.sub_0_r in Hs.
      unfold len in Hr. split; [lia|]. split; [done|]. by exists s.
    + split; [done|]. destruct (ox_depth _ _ _ _ Hinv) as [_ <-]. rewrite count_full; [lia|].
      intros i s Hi. pose proof (first_slot_none _ _ _ _ _ E2 Hi) as Hp. by apply negb_false_iff in Hp.
Qed.

(** The value of another slot does not change when one slot is written. *)
Lemma value_elsewhere i j s p n :
  valid_at o j s → 0 <= i < ob_slot_count o → j ≠ Z.to_nat i → 0 <= n <= ob_payload_capacity o →
  value_at (memmove m (payload_at o i) p n) o j s = value_at m o j s.
Proof.
  intros Hs Hi Hne Hn. destruct (ox_valid _ _ _ _ Hinv j s Hs) as (_ & Hlen & _).
  destruct (ox_slots _ _ _ _ Hinv) as (Hc & Hl & _). destruct Hs as [Hs _].
  pose proof (lookup_lt_Some _ _ _ Hs). pose proof (ox_capacity _ _ _ _ Hinv).
  unfold value_at, memmove. apply mread_mwrite_out. rewrite mread_length.
  unfold payload_at. rewrite !Z2Nat.id by lia. nia.
Qed.
End Simulation.

(** The rotation visits slot [j] at the offset [rotation o j]. *)
Definition rotation (o : outbox) (j : Z) : Z := (j - ob_cursor o) mod ob_slot_count o.

Lemma rotation_index o j :
  0 <= j < ob_slot_count o → (ob_cursor o + rotation o j) mod ob_slot_count o = j.
Proof.
  intros Hj. unfold rotation. rewrite Zplus_mod_idemp_r.
  replace (ob_cursor o + (j - ob_cursor o)) with j by lia. by apply Z.mod_small.
Qed.

Lemma rotation_offset o k :
  0 <= k < ob_slot_count o → rotation o ((ob_cursor o + k) mod ob_slot_count o) = k.
Proof.
  intros Hk. unfold rotation. rewrite Zminus_mod_idemp_l.
  replace (ob_cursor o + k - ob_cursor o) with k by lia. by apply Z.mod_small.
Qed.

Definition valid_index (o : outbox) (j : Z) : bool := os_valid (outbox_slot_at o j).

Lemma next_valid_spec o n k :
  0 < ob_slot_count o < 2 ^ 16 → 0 <= k → k + Z.of_nat n <= ob_slot_count o →
  match next_valid o n k with
  | Some j => 0 <= j < ob_slot_count o ∧ valid_index o j = true ∧ k <= rotation o j ∧
              ∀ i, 0 <= i < ob_slot_count o → k <= rotation o i < rotation o j →
                   valid_index o i = false
  | None => ∀ i, 0 <= i < ob_slot_count o → k <= rotation o i < k + Z.of_nat n →
                 valid_index o i = false
  end.
Proof.
  intros Hc. revert k. induction n as [|n IH]; intros k Hk Hn; [intros i _ Hr; lia|].
  cbn [next_valid]. set (j := (ob_cursor o + k) mod ob_slot_count o).
  assert (0 <= j < ob_slot_count o) as Hj by (apply Z.mod_pos_bound; lia).
  rewrite u16_id by (unfold is_u16; lia). fold (valid_index o j).
  pose proof (rotation_offset o k ltac:(lia)) as Er. fold j in Er.
  destruct (valid_index o j) eqn:Ev.
  - split_and!; try done; lia.
  - assert (∀ i, 0 <= i < ob_slot_count o → rotation o i = k → valid_index o i = false) as Hat.
    { intros i Hi E. rewrite <- (rotation_index o i Hi), E. done. }
    specialize (IH (k + 1) ltac:(lia) ltac:(lia)).
    destruct (next_valid o n (k + 1)) as [i|].
    + destruct IH as (H1 & H2 & H3 & H4). split_and!; try done; try lia.
      intros x Hx Hr. destruct (decide (rotation o x = k)); [by apply Hat|]. apply H4; lia.
    + intros x Hx Hr. destruct (decide (rotation o x = k)); [by apply Hat|]. apply IH; lia.
Qed.

(** Writing a lane into slot [i]. *)
Definition lane_written (o : outbox) (i : Z) (s : outbox_slot) : outbox :=
  set_outbox_slot o i s <| ob_next_generation := os_generation s |>.

Lemma valid_written o i s j t :
  (Z.to_nat i < length (ob_slots o))%nat → os_valid s = true →
  valid_at (lane_written o i s) j t ↔
  (j = Z.to_nat i ∧ t = s) ∨ (j ≠ Z.to_nat i ∧ valid_at o j t).
Proof.
  intros Hi Hv. unfold valid_at, lane_written, set_outbox_slot. cbn.
  destruct (decide (j = Z.to_nat i)) as [->|Hne].
  - rewrite list_lookup_insert_eq by done. split; [intros [[= <-] _]; by left|].
    intros [[_ ->]|[? _]]; done.
  - rewrite list_lookup_insert_ne by done. split; [by right|]. by intros [[? _]|[_ ?]].
Qed.

Definition lane_payload (m : mem) (o : outbox) (i p n : Z) : mem :=
  if negb (n =? 0) then memmove m (payload_at o i) p n else m.

Definition supersede (id : Z) (x : outbox_item * bool) : outbox_item * bool :=
  (x.1, x.2 && negb (oi_message_id x.1 =? id)).

Section Written.
Context (m : mem) (o : outbox) (a : lanes) (room : Z) (Hinv : outbox_inv m o a room).
Context (i id p n : Z) (s : outbox_slot).
Context (Hi : 0 <= i < ob_slot_count o) (Hid : id ≠ 0) (Hn : 0 <= n <= ob_payload_capacity o).
Context (Hs : ob_slots o !! Z.to_nat i = Some s).
Context (Hv : os_valid s = bool_decide (is_Some (la_values a !! id))).
Context (Hsid : os_valid s = true → os_message_id s = id).

Let t := mk_outbox_slot (ob_next_generation o + 1) n id true.
Let o' := lane_written o i t <| ob_depth := ob_depth o + (if os_valid s then 0 else 1) |>.
Let m' := lane_payload m o i p n.
Let values' := <[id := mread m p (Z.to_nat n)]> (la_values a).

Lemma written_valid j x :
  valid_at o' j x ↔ (j = Z.to_nat i ∧ x = t) ∨ (j ≠ Z.to_nat i ∧ valid_at o j x).
Proof. apply (valid_written o i t j x); [by eapply lookup_lt_Some|done]. Qed.

(** The other slots carry other messages. *)
Lemma other_lane j x : valid_at o j x → j ≠ Z.to_nat i → os_message_id x ≠ id.
Proof.
  intros Hx Hne E. destruct (os_valid s) eqn:Ev.
  - apply Hne. apply (ox_unique _ _ _ _ Hinv j (Z.to_nat i) x s); [done|by split|].
    by rewrite E, Hsid.
  - symmetry in Hv. apply bool_decide_eq_false in Hv. apply Hv. exists (value_at m o j x).
    apply (ox_values _ _ _ _ Hinv). by exists j, x.
Qed.

Lemma written_value j x : valid_at o j x → j ≠ Z.to_nat i → value_at m' o' j x = value_at m o j x.
Proof.
  intros Hx Hne. unfold m', lane_payload. change (value_at ?y o' j x) with (value_at y o j x).
  destruct (negb _); [|done]. by eapply value_elsewhere.
Qed.

Lemma written_new : value_at m' o' (Z.to_nat i) t = mread m p (Z.to_nat n).
Proof.
  unfold value_at, m', lane_payload. cbn. rewrite Z2Nat.id by lia.
  change (payload_at o' i) with (payload_at o i).
  destruct (Z.eqb_spec n 0) as [->|]; [done|]. apply mread_mwrite. by rewrite mread_length.
Qed.

Lemma written_lookup k v :
  values' !! k = Some v ↔ ∃ j x, valid_at o' j x ∧ os_message_id x = k ∧ v = value_at m' o' j x.
Proof.
  unfold values'. rewrite lookup_insert_Some. split.
  - intros [[<- <-]|[Hne (j & x & Hx & Ek & ->)%(ox_values _ _ _ _ Hinv)]].
    + exists (Z.to_nat i), t. split; [apply written_valid; by left|]. split; [done|]. by rewrite written_new.
    + assert (j ≠ Z.to_nat i) as Hj.
      { intros ->. destruct Hx as [Hx Hxv]. rewrite Hs in Hx. injection Hx as <-.
        rewrite (Hsid Hxv) in Ek. congruence. }
      exists j, x. split; [apply written_valid; by right|]. split; [done|]. by rewrite written_value.
  - intros (j & x & [[-> ->]|[Hj Hx]]%written_valid & Ek & ->).
    + left. split; [done|]. by rewrite written_new.
    + right. pose proof (other_lane j x Hx Hj). split; [congruence|].
      apply (ox_values _ _ _ _ Hinv). exists j, x. split_and!; [done..|]. by rewrite written_value.
Qed.

Lemma written_size :
  size values' = (size (la_values a) + if os_valid s then 0 else 1)%nat ∧
  count_valid (ob_slots o') = size values'.
Proof.
  destruct (ox_depth _ _ _ _ Hinv) as [_ Hc].
  pose proof (count_insert (ob_slots o) (Z.to_nat i) s t Hs) as Hci. cbn in Hci.
  assert (size values' = (size (la_values a) + if os_valid s then 0 else 1)%nat) as E.
  { unfold values'. rewrite Hv. destruct (la_values a !! id) as [x|] eqn:El.
    - rewrite bool_decide_true by (by eexists). rewrite map_size_insert_Some by (by eexists). lia.
    - rewrite bool_decide_false by (by intros []). rewrite map_size_insert_None by done. lia. }
  split; [done|]. change (ob_slots o') with (<[Z.to_nat i := t]> (ob_slots o)).
  rewrite E. rewrite Hv in *. destruct (bool_decide _); lia.
Qed.

Lemma written_active :
  1 <= room →
  match supersede id <$> la_active a with
  | None => ob_active o = false
  | Some (item, newest) =>
      ob_active o = true ∧ ob_active_index o = oi_slot_index item ∧
      ob_active_token o = oi_token item ∧ 0 <= oi_slot_index item < ob_slot_count o ∧
      ∃ x, valid_at o' (Z.to_nat (oi_slot_index item)) x ∧
           os_message_id x = oi_message_id item ∧ oi_token item <= os_generation x ∧
           newest = bool_decide (os_generation x = oi_token item)
  end.
Proof.
  intros Hroom. pose proof (ox_active _ _ _ _ Hinv) as Ha.
  destruct (la_active a) as [[item newest]|]; cbn; [|done].
  destruct Ha as (A1 & A2 & A3 & A4 & x & Hx & Ex & Ht & ->).
  do 4 (split; [done|]).
  destruct (ox_valid _ _ _ _ Hinv _ x Hx) as (_ & _ & Hg).
  destruct (decide (Z.to_nat (oi_slot_index item) = Z.to_nat i)) as [E|E].
  - exists t. rewrite E in *. split; [apply written_valid; by left|].
    assert (oi_message_id item = id) as Eid.
    { rewrite <- Ex. destruct Hx as [Hx Hxv]. rewrite Hs in Hx. injection Hx as <-. by apply Hsid. }
    rewrite Eid, Z.eqb_refl, andb_false_r. split; [done|]. cbn. split; [lia|].
    symmetry. apply bool_decide_eq_false. lia.
  - exists x. split; [apply written_valid; by right|]. split_and!; try done.
    pose proof (other_lane _ x Hx E) as Hne. rewrite Ex in Hne.
    apply Z.eqb_neq in Hne. by rewrite Hne, andb_true_r.
Qed.

Lemma written_inv :
  1 <= room →
  outbox_inv m' o' (mk_lanes (la_slots a) (la_capacity a) values' (supersede id <$> la_active a))
    (room - 1).
Proof.
  intros Hroom. pose proof Hinv as []. destruct written_size as [Hsz Hcnt].
  split; try done.
  - destruct ox_slots0 as (? & Hl & ?). split; [done|]. split; [|done].
    unfold o', lane_written, set_outbox_slot. cbn. by rewrite length_insert.
  - apply written_lookup.
  - intros j x [[-> ->]|[Hj Hx]]%written_valid; cbn; [lia|].
    destruct (ox_valid0 j x Hx) as (? & ? & ?). split_and!; try done; try lia.
  - intros j k x y [[-> ->]|[Hj Hx]]%written_valid [[-> ->]|[Hk Hy]]%written_valid; [done|..]; cbn.
    + intros E. by destruct (other_lane k y Hy Hk).
    + intros E. by destruct (other_lane j x Hx Hj).
    + by apply ox_unique0.
  - cbn. rewrite Hsz. destruct ox_depth0 as [-> _]. split; [|by rewrite <- Hsz, <- Hcnt].
    destruct (os_valid s); lia.
  - cbn. lia.
  - by apply written_active.
Qed.
End Written.

Lemma outbox_inv_room m o a room room' :
  outbox_inv m o a room → room' <= room → outbox_inv m o a room'.
Proof. intros []. split; try done. lia. Qed.

Lemma lanes_eta a : mk_lanes (la_slots a) (la_capacity a) (la_values a) (la_active a) = a.
Proof. by destruct a. Qed.

Section Calls.
Context (m : mem) (o : outbox) (a : lanes) (room : Z) (Hinv : outbox_inv m o a room).

Lemma sim_submit id p n :
  0 <= n → 1 <= room →
  let '(m', o', e, co) := wl_outbox_submit_latest m o id p n in
  ∃ a', lanes_next a (OEvSubmit id (mread m p (Z.to_nat n)) (p =? NULL) e co) = Some a' ∧
        outbox_inv m' o' a' (room - 1).
Proof.
  intros Hn Hroom. unfold wl_outbox_submit_latest.
  rewrite (outbox_ready m o a room Hinv). cbn [negb].
  destruct (ox_capacity _ _ _ _ Hinv) as [_ Ecap].
  destruct (ox_slots _ _ _ _ Hinv) as (_ & _ & Eslots).
  assert (len (mread m p (Z.to_nat n)) = n) as El by (unfold len; rewrite mread_length; lia).
  unfold lanes_next. rewrite El, Ecap, Eslots, <- (Z.gtb_ltb n).
  destruct ((id =? 0) || _ || _) eqn:Ebad.
  { exists a. split; [done|]. eapply outbox_inv_room; [done|lia]. }
  rewrite !orb_false_iff, Z.eqb_neq, Z.gtb_ltb, Z.ltb_ge in Ebad. destruct Ebad as ((Hid & Hle) & _).
  pose proof (select_cases m o a room Hinv id) as Hsel.
  destruct (select_slot o id) as [[i replaced]|].
  - destruct Hsel as (Hi & -> & s & Hs & Hv & Hsid).
    assert ((negb (bool_decide (is_Some (la_values a !! id))) &&
      (ob_slot_count o <=? Z.of_nat (size (la_values a))))%bool = false) as ->.
    { destruct (bool_decide _) eqn:Ep; [done|]. cbn. apply Z.leb_gt.
      destruct (ox_depth _ _ _ _ Hinv) as [_ <-]. destruct (ox_slots _ _ _ _ Hinv) as (_ & Hl & _).
      pose proof (count_insert _ _ s (mk_outbox_slot 0 0 0 true) Hs) as Hci. rewrite Hv in Hci.
      cbn in Hci. pose proof (count_bound (<[Z.to_nat i := mk_outbox_slot 0 0 0 true]> (ob_slots o))) as Hb.
      rewrite length_insert in Hb. lia. }
    rewrite <- Hv in Hsid.
    destruct (ox_generation _ _ _ _ Hinv) as [Hg0 Hg1].
    assert (u64 (ob_next_generation o + 1) = ob_next_generation o + 1) as Eg
      by (apply u64_id; unfold is_u64; lia).
    rewrite Eg. replace (ob_next_generation o + 1 =? 0) with false by lia.
    pose proof (written_inv m o a room Hinv i id p n s Hi Hid ltac:(lia) Hs Hv Hsid Hroom) as Hw.
    rewrite !bool_decide_true by done. eexists. split; [done|].
    rewrite Eslots, Ecap in Hw. change (λ x : outbox_item * bool, _) with (supersede id).
    rewrite <- Hv. destruct (os_valid s); [rewrite Z.add_0_r in Hw; by destruct Hw; split|].
    assert (u16 (ob_depth o + 1) = ob_depth o + 1) as Ed.
    { apply u16_id. pose proof Hw as []. destruct ox_depth0 as [E1 E2], ox_slots0 as (? & Hl & _).
      pose proof (count_bound (ob_slots (lane_written o i
        (mk_outbox_slot (ob_next_generation o + 1) n id true)))) as Hb.
      cbn in *. rewrite Hl in Hb. unfold is_u16. lia. }
    cbn -[set_outbox_slot]. change (ob_depth (set_outbox_slot _ _ _)) with (ob_depth o).
    rewrite Ed. by destruct Hw; split.
  - destruct Hsel as [-> Hsz]. cbn. replace (_ <=? _) with true by lia. exists a.
    split; [done|]. eapply outbox_inv_room; [|apply Z.le_pred_l]. by destruct Hinv; split.
Qed.

Lemma valid_index_at j :
  0 <= j < ob_slot_count o → valid_index o j = true →
  valid_at o (Z.to_nat j) (outbox_slot_at o j).
Proof.
  intros Hj Hv. destruct (ox_slots _ _ _ _ Hinv) as (_ & Hl & _).
  destruct (lookup_lt_is_Some_2 (ob_slots o) (Z.to_nat j)) as [s Hs]; [lia|].
  unfold valid_index, outbox_slot_at in *. rewrite Hs in *. by split.
Qed.

Lemma valid_at_index j s :
  valid_at o j s → 0 <= Z.of_nat j < ob_slot_count o ∧ valid_index o (Z.of_nat j) = true.
Proof.
  intros [Hs Hv]. destruct (ox_slots _ _ _ _ Hinv) as (_ & Hl & _).
  pose proof (lookup_lt_Some _ _ _ Hs). split; [lia|].
  unfold valid_index, outbox_slot_at. by rewrite Nat2Z.id, Hs.
Qed.

(** A copy to a buffer outside the storage leaves the values alone. *)
Lemma copy_elsewhere p n k src :
  0 <= n <= k → outbox_outside o p k = true →
  outbox_inv (memmove m p src n) o a room.
Proof.
  intros Hn Hp. unfold outbox_outside in Hp. pose proof Hinv as [].
  assert (∀ j s, valid_at o j s → value_at (memmove m p src n) o j s = value_at m o j s) as Ev.
  { intros j s Hs. destruct (ox_valid0 j s Hs) as (_ & Hlen & _).
    destruct (valid_at_index j s Hs) as [Hj _]. unfold value_at, memmove. apply mread_mwrite_out.
    rewrite mread_length. unfold payload_at. nia. }
  split; try done. intros id v. rewrite ox_values0.
  split; intros (j & s & Hs & Hid & ->); exists j, s; by rewrite Ev.
Qed.

Lemma sim_copy_out p n :
  outbox_may o (OAcquire p n) = true →
  let '(m', o', e, item) := wl_outbox_acquire_copy m o p n in
  ∃ a', lanes_next a (OEvAcquire n (p =? NULL) e item
          (mread m' p (Z.to_nat (oi_payload_length item)))) = Some a' ∧ outbox_inv m' o' a' room.
Proof.
  intros [Hn Hout]%andb_true_iff. apply Z.leb_le in Hn. unfold wl_outbox_acquire_copy.
  rewrite (outbox_ready m o a room Hinv). cbn [negb]. unfold lanes_next.
  destruct (p =? NULL) eqn:Ep; [by exists a|].
  pose proof (ox_active _ _ _ _ Hinv) as Hact. destruct (la_active a) as [[it nw]|].
  { destruct Hact as (-> & _). by exists a. }
  rewrite Hact. destruct (ox_slots _ _ _ _ Hinv) as (Hc & Hl & _).
  pose proof (next_valid_spec o (Z.to_nat (ob_slot_count o)) 0 Hc ltac:(lia) ltac:(lia)) as Hnv.
  destruct (next_valid o _ 0) as [j|].
  - destruct Hnv as (Hj & Hv & _). pose proof (valid_index_at j Hj Hv) as Hs.
    set (s := outbox_slot_at o j) in *.
    assert (la_values a !! os_message_id s = Some (value_at m o (Z.to_nat j) s)) as Hlook.
    { apply (ox_values _ _ _ _ Hinv). by exists (Z.to_nat j), s. }
    destruct (ox_valid _ _ _ _ Hinv _ s Hs) as (_ & Hlen & _).
    rewrite (bool_decide_false (la_values a = ∅)) by (intros E; by rewrite E in Hlook).
    assert (len (value_at m o (Z.to_nat j) s) = os_payload_length s) as El.
    { unfold len, value_at. rewrite mread_length. lia. }
    destruct (os_payload_length s >? n) eqn:Egt.
    + rewrite bool_decide_true by done. exists a. split; [|done].
      replace (existsb _ _) with true; [done|]. symmetry. apply existsb_exists.
      exists (os_message_id s, value_at m o (Z.to_nat j) s).
      split; [by apply list_elem_of_In, elem_of_map_to_list|]. cbn. lia.
    + rewrite bool_decide_false by done. cbn [oi_message_id oi_payload_length].
      set (m' := if negb _ then _ else _).
      assert (mread m' p (Z.to_nat (os_payload_length s)) = value_at m o (Z.to_nat j) s) as Em.
      { unfold m', value_at. rewrite Z2Nat.id by lia.
        destruct (Z.eqb_spec (os_payload_length s) 0) as [->|]; [done|].
        apply mread_mwrite. by rewrite mread_length. }
      rewrite Em, El, Hlook, !bool_decide_true by done. rewrite Z.eqb_refl.
      replace (os_payload_length s <=? n) with true by lia. eexists. split; [done|].
      assert (outbox_inv m' o a room) as Hm.
      { unfold m'. destruct (negb _); [|done]. eapply copy_elsewhere; [|exact Hout]. lia. }
      destruct Hm. split; try done. cbn. do 3 (split; [done|]). split; [lia|].
      exists s. split_and!; try done. by rewrite bool_decide_true.
  - rewrite bool_decide_true; [by exists a|]. apply map_empty. intros id.
    apply eq_None_not_Some. intros [v (i & s & Hs & _)%(ox_values _ _ _ _ Hinv)].
    destruct (valid_at_index i s Hs) as [Hi Hvi].
    rewrite Hnv in Hvi; [done|done|]. unfold rotation.
    pose proof (Z.mod_pos_bound (Z.of_nat i - ob_cursor o) (ob_slot_count o) ltac:(lia)). lia.
Qed.

(** Clearing slot [i] removes its lane. *)
Lemma cleared_inv i s depth cursor :
  valid_at o i s → depth = ob_depth o - 1 → 0 <= cursor < ob_slot_count o →
  la_active a = None →
  outbox_inv m (o <| ob_slots := <[i := outbox_slot_zero]> (ob_slots o) |> <| ob_depth := depth |>
                  <| ob_cursor := cursor |>)
    (mk_lanes (la_slots a) (la_capacity a) (delete (os_message_id s) (la_values a)) None) room.
Proof.
  intros Hs -> Hcur Hact. pose proof Hinv as []. pose proof Hs as [Hsi Hsv].
  set (o' := o <| ob_slots := <[i := outbox_slot_zero]> (ob_slots o) |>).
  assert (∀ j t, valid_at o' j t ↔ j ≠ i ∧ valid_at o j t) as Hval.
  { intros j t. unfold valid_at, o'. cbn. destruct (decide (j = i)) as [->|Hne].
    - rewrite list_lookup_insert_eq by (by eapply lookup_lt_Some).
      split; [by intros [[= <-] ?]|by intros []].
    - rewrite list_lookup_insert_ne by done. split; [done|by intros []]. }
  assert (la_values a !! os_message_id s = Some (value_at m o i s)) as Hlook.
  { apply ox_values0. by exists i, s. }
  assert (size (delete (os_message_id s) (la_values a)) = pred (size (la_values a))) as Hsz
    by (apply map_size_delete_Some; by eexists).
  pose proof (count_insert (ob_slots o) i s outbox_slot_zero Hsi) as Hci. rewrite Hsv in Hci.
  cbn in Hci. destruct ox_depth0 as [Ed Ec]. split; try done.
  - destruct ox_slots0 as (? & Hl & ?). split; [done|]. split; [|done]. cbn. by rewrite length_insert.
  - intros id v. cbn [la_values]. rewrite lookup_delete_Some, ox_values0. split.
    + intros (Hne & j & t & Ht & Hid & ->). exists j, t. split; [apply Hval; split; [|done]|done].
      intros ->. destruct Ht as [Ht _]. rewrite Hsi in Ht. by injection Ht as <-.
    + intros (j & t & [Hj Ht]%Hval & Hid & ->). split; [|by exists j, t].
      intros E. apply Hj, (ox_unique0 j i t s); [done|done|congruence].
  - intros j t [_ Ht]%Hval. exact (ox_valid0 j t Ht).
  - intros j k t u [_ Ht]%Hval [_ Hu]%Hval. exact (ox_unique0 j k t u Ht Hu).
  - cbn. rewrite Hsz. assert (size (la_values a) ≠ 0)%nat.
    { intros E. apply map_size_empty_inv in E. by rewrite E in Hlook. }
    split; [lia|]. fold (count_valid (<[i:=outbox_slot_zero]> (ob_slots o))). lia.
  - by rewrite Hact in ox_active0.
Qed.
End Calls.

(** The item is finished: nothing is active any more. *)
Lemma finished_inv m o a room :
  outbox_inv m o a room →
  outbox_inv m (o <| ob_active := false |> <| ob_active_token := 0 |>)
    (mk_lanes (la_slots a) (la_capacity a) (la_values a) None) room.
Proof. intros []. by split. Qed.

Lemma cursor_inv m o a room c :
  outbox_inv m o a room → 0 <= c < ob_slot_count o → outbox_inv m (o <| ob_cursor := c |>) a room.
Proof. intros [] Hc. by split. Qed.

Lemma sim_complete m o a room item completion :
  outbox_inv m o a room → 0 <= oi_slot_index item →
  let '(o', e) := wl_outbox_complete o item completion in
  ∃ a', lanes_next a (OEvComplete (oi_token item) (oi_slot_index item) completion e) = Some a' ∧
        outbox_inv m o' a' room.
Proof.
  intros Hinv Hi. unfold wl_outbox_complete. rewrite (outbox_ready m o a room Hinv). cbn [negb].
  destruct (ox_slots _ _ _ _ Hinv) as (Hc & Hl & Es). unfold lanes_next. rewrite Es.
  assert ((negb (completion =? WL_OUTBOX_ACCEPTED) && negb (completion =? WL_OUTBOX_DEFERRED)
    && negb (completion =? WL_OUTBOX_REJECTED))%bool = negb (is_completion completion)) as ->.
  { unfold is_completion, WL_OUTBOX_ACCEPTED, WL_OUTBOX_DEFERRED, WL_OUTBOX_REJECTED. lia. }
  rewrite Z.geb_leb. destruct (_ || _) eqn:Ebad; [by exists a|].
  rewrite orb_false_iff, Z.leb_gt in Ebad. destruct Ebad as [Hlt _].
  pose proof (ox_active _ _ _ _ Hinv) as Hact. destruct (la_active a) as [[it newest]|].
  2: { rewrite Hact. by exists a. }
  destruct Hact as (-> & -> & -> & Hii & s & Hs & Eid & Hge & ->). cbn [negb orb].
  destruct (Z.eqb_spec (oi_slot_index it) (oi_slot_index item)) as [E1|E1]; cbn [negb orb].
  2: { rewrite andb_false_r. by exists a. }
  destruct (Z.eqb_spec (oi_token it) (oi_token item)) as [E2|E2]; cbn [negb andb].
  2: { by exists a. }
  pose proof (finished_inv m o a room Hinv) as Hf. rewrite Es in Hf.
  set (o1 := o <| ob_active := false |> <| ob_active_token := 0 |>) in *.
  assert (outbox_slot_at o1 (oi_slot_index item) = s) as ->.
  { unfold outbox_slot_at. change (ob_slots o1) with (ob_slots o). destruct Hs as [Hs _].
    by rewrite <- E1, Hs. }
  assert (0 <= (oi_slot_index item + 1) mod ob_slot_count o < ob_slot_count o) as Hmod
    by (apply Z.mod_pos_bound; lia).
  assert (u16 ((oi_slot_index item + 1) mod ob_slot_count o)
    = (oi_slot_index item + 1) mod ob_slot_count o) as Eu by (apply u16_id; unfold is_u16; lia).
  destruct (Z.eqb_spec completion WL_OUTBOX_DEFERRED) as [Ed|Ed]; cbn [negb andb].
  { eexists. split; [done|]. by destruct Hf; split. }
  pose proof Hs as [_ Hv]. rewrite Hv. cbn [andb]. rewrite <- E2.
  destruct (Z.eqb_spec (os_generation s) (oi_token it)) as [Eg|Eg];
    [rewrite (bool_decide_true (os_generation s = oi_token it)) by done
    |rewrite (bool_decide_false (os_generation s = oi_token it)) by done].
  - eexists. split; [done|]. rewrite <- Eid.
    assert (u16 (ob_depth o - 1) = ob_depth o - 1) as Edep.
    { apply u16_id. destruct (ox_depth _ _ _ _ Hinv) as [E3 E4].
      pose proof (count_bound (ob_slots o)). unfold is_u16. rewrite Hl in *.
      enough (count_valid (ob_slots o) ≠ 0)%nat by lia. destruct Hs as [Hs _].
      pose proof (count_insert _ _ s outbox_slot_zero Hs) as Hci. rewrite Hv in Hci. cbn [os_valid outbox_slot_zero] in Hci. lia. }
    pose proof (cleared_inv m o1 _ room Hf (Z.to_nat (oi_slot_index it)) s (ob_depth o - 1) _ Hs
      eq_refl Hmod eq_refl) as Hcl. rewrite E1 in Hcl.
    unfold set_outbox_slot. change (ob_depth o1) with (ob_depth o). rewrite Edep.
    cbn [la_slots la_capacity la_values] in Hcl. destruct (completion =? _);
      cbn -[u16 u64 Z.modulo]; rewrite Eu; by destruct Hcl; split.
  - eexists. split; [done|].
    pose proof (cursor_inv m o1 _ room _ Hf Hmod) as Hcl. destruct (completion =? _);
      cbn -[u16 u64 Z.modulo]; rewrite Eu; by destruct Hcl; split.
Qed.

Lemma sim_discard m o a room :
  outbox_inv m o a room →
  let '(o', e, d) := wl_outbox_reset o in
  ∃ a', lanes_next a (OEvReset e d) = Some a' ∧ outbox_inv m o' a' room.
Proof.
  intros Hinv. unfold wl_outbox_reset. rewrite (outbox_ready m o a room Hinv). cbn [negb].
  pose proof (ox_active _ _ _ _ Hinv) as Hact. unfold lanes_next.
  destruct (la_active a) as [[it nw]|]; [destruct Hact as (-> & _); by exists a|]. rewrite Hact.
  destruct (ox_depth _ _ _ _ Hinv) as [-> _]. rewrite Z.eqb_refl. eexists. split; [done|].
  pose proof Hinv as []. destruct ox_slots0 as (Hc & Hl & Es). split; try done.
  - split; [done|]. split; [cbn; by rewrite length_replicate|done].
  - intros id v. cbn. rewrite lookup_empty. split; [done|].
    intros (i & s & [Hs Hv] & _). apply zero_invalid in Hs. congruence.
  - intros i s [Hs Hv]. apply zero_invalid in Hs. congruence.
  - intros i j s t [Hs Hv]. apply zero_invalid in Hs. congruence.
  - split; [done|]. apply count_zero.
  - cbn. lia.
Qed.

Lemma sim_outside_store m o a room x v :
  outbox_inv m o a room → outbox_outside o x 1 = true → outbox_inv (mset m x v) o a room.
Proof.
  intros Hinv Hx. unfold outbox_outside in Hx. pose proof Hinv as [].
  assert (∀ j s, valid_at o j s → value_at (mset m x v) o j s = value_at m o j s) as Ev.
  { intros j s Hs. destruct (ox_valid0 j s Hs) as (_ & Hlen & _).
    destruct (valid_at_index m o a room Hinv j s Hs) as [Hj _]. unfold value_at.
    apply mread_mset_out. unfold payload_at. nia. }
  split; try done. intros id w. rewrite ox_values0.
  split; intros (j & s & Hs & Hid & ->); exists j, s; by rewrite Ev.
Qed.

Lemma outbox_sim_exec m o a room op :
  outbox_inv m o a room → outbox_may o op = true → 1 <= room →
  ∃ a', lanes_next a (outbox_exec op (m, o)).2 = Some a' ∧
    outbox_inv (outbox_exec op (m, o)).1.1 (outbox_exec op (m, o)).1.2 a' (room - 1).
Proof.
  intros Hinv Hop Hroom. destruct op as [id p n|p n|item c| |x v]; cbn [outbox_exec].
  - apply Z.leb_le in Hop. pose proof (sim_submit m o a room Hinv id p n Hop Hroom) as H.
    by destruct (wl_outbox_submit_latest m o id p n) as [[[m' o'] e] co].
  - pose proof (sim_copy_out m o a room Hinv p n Hop) as H.
    destruct (wl_outbox_acquire_copy m o p n) as [[[m' o'] e] item].
    destruct H as (a' & ? & ?). exists a'. split; [done|]. eapply outbox_inv_room; [done|lia].
  - apply Z.leb_le in Hop. pose proof (sim_complete m o a room item c Hinv Hop) as H.
    destruct (wl_outbox_complete o item c) as [o' e].
    destruct H as (a' & ? & ?). exists a'. split; [done|]. eapply outbox_inv_room; [done|lia].
  - pose proof (sim_discard m o a room Hinv) as H. destruct (wl_outbox_reset o) as [[o' e] d].
    destruct H as (a' & ? & ?). exists a'. split; [done|]. eapply outbox_inv_room; [done|lia].
  - exists a. split; [done|]. eapply outbox_inv_room; [by apply sim_outside_store|lia].
Qed.

Lemma outbox_init_inv m o0 config o room :
  is_u16 (oc_slot_count config) → is_u16 (oc_payload_capacity_per_slot config) →
  0 <= oc_initial_generation config → oc_initial_generation config + room < 2 ^ 64 →
  wl_outbox_init o0 config = (o, WL_OK) →
  outbox_inv m o (mk_lanes (oc_slot_count config) (oc_payload_capacity_per_slot config) ∅ None) room.
Proof.
  intros Hc Hp Hg0 Hg. unfold wl_outbox_init. destruct (_ || _) eqn:E; [done|].
  rewrite !orb_false_iff, !Z.eqb_neq in E. destruct E as ((((_ & E1) & _) & E2) & _).
  destruct (_ <? _); [done|]. intros [= <-]. unfold is_u16 in *.
  split; cbn; try done; try lia.
  - split; [lia|]. by rewrite length_replicate.
  - intros id v. rewrite lookup_empty. split; [done|].
    intros (i & s & [Hs Hv] & _). apply zero_invalid in Hs. congruence.
  - intros i s [Hs Hv]. apply zero_invalid in Hs. congruence.
  - intros i j s t [Hs Hv]. apply zero_invalid in Hs. congruence.
  - split; [done|]. apply count_zero.
Qed.

Lemma outbox_run_refines ops m o a room :
  outbox_inv m o a room → len ops <= room → outbox_fair ops (m, o) = true →
  ∃ a', lanes_run a (outbox_trace ops (m, o)) = Some a'.
Proof.
  revert m o a room. induction ops as [|op ops IH]; intros m o a room Hinv Hr Hf; [by exists a|].
  rewrite len_cons in Hr. pose proof (len_nonneg ops).
  cbn [outbox_fair] in Hf. apply andb_true_iff in Hf as [Hop Hf].
  destruct (outbox_sim_exec m o a room op Hinv Hop ltac:(lia)) as (a1 & Hn & Hi).
  cbn [outbox_trace]. destruct (outbox_exec op (m, o)) as [[m1 o1] ev]. cbn in *.
  rewrite Hn. cbn. eapply IH; [done| |done]. lia.
Qed.

(** C25: every sequence of calls on an outbox is answered as by a map from
    message ids to values: a submission replaces the value of its lane or opens a
    lane while there are free slots; an acquire copies the current value of some
    lane out; accepting or rejecting the copy removes the lane unless it was
    resubmitted since; deferring keeps it; the counts are those of the map.  The
    64-bit generation must not wrap during the sequence. *)
Theorem outbox_refines m o0 config o ops :
  is_u16 (oc_slot_count config) → is_u16 (oc_payload_capacity_per_slot config) →
  0 <= oc_initial_generation config → oc_initial_generation config + len ops < 2 ^ 64 →
  wl_outbox_init o0 config = (o, WL_OK) → outbox_fair ops (m, o) = true →
  ∃ a, lanes_run (mk_lanes (oc_slot_count config) (oc_payload_capacity_per_slot config) ∅ None)
         (outbox_trace ops (m, o)) = Some a.
Proof.
  intros Hc Hp Hg0 Hg Hi Hf. eapply outbox_run_refines; [|reflexivity|exact Hf].
  by eapply outbox_init_inv.
Qed.

(** Two lanes; the first is resubmitted while it is being sent. *)
Definition outbox_demo : list outbox_op :=
  [OSubmit 5 100 2; OSubmit 6 102 1; OSubmit 7 102 1; OAcquire 200 4; OSubmit 5 104 3;
   OComplete (mk_outbox_item 1 0 0 0) WL_OUTBOX_ACCEPTED; OAcquire 200 4;
   OComplete (mk_outbox_item 2 1 0 0) WL_OUTBOX_ACCEPTED; OAcquire 200 4;
   OComplete (mk_outbox_item 3 0 0 0) WL_OUTBOX_REJECTED; OReset].

Lemma outbox_refines_witness :
  let config := mk_outbox_config 1 2 1000 8 4 0 in
  let o := (wl_outbox_init outbox_zero config).1 in
  let trace := outbox_trace outbox_demo (λ a, a mod 256, o) in
  (∃ a, lanes_run (mk_lanes 2 4 ∅ None) trace = Some a) ∧
  trace !! 2%nat = Some (OEvSubmit 7 [102] false WL_ERR_QUEUE_FULL false) ∧
  trace !! 6%nat = Some (OEvAcquire 4 false WL_OK (mk_outbox_item 2 1 6 1) [102]) ∧
  trace !! 8%nat = Some (OEvAcquire 4 false WL_OK (mk_outbox_item 3 0 5 3) [104; 105; 106]) ∧
  last trace = Some (OEvReset WL_OK 0).
Proof.
  intros config o trace. split.
  - apply (outbox_refines (λ a, a mod 256) outbox_zero config o outbox_demo);
      try (split; vm_compute; congruence); vm_compute; congruence.
  - vm_compute. repeat split; reflexivity.
Defined.

(** ** Fairness of the rotation *)

(** An accepted or rejected item. *)
Definition settles (ev : outbox_event) : Z :=
  match ev with
  | OEvComplete _ _ c WL_OK => if c =? WL_OUTBOX_DEFERRED then 0 else 1
  | _ => 0
  end.

Definition settled (trace : list outbox_event) : Z := foldr (λ ev n, settles ev + n) 0 trace.

Definition acquires (id : Z) (ev : outbox_event) : Prop :=
  match ev with OEvAcquire _ _ WL_OK item _ => oi_message_id item = id | _ => False end.

(** Lane [id] waits in slot [i]; the item being sent, if any, comes before it. *)
Definition waits (o : outbox) (i : Z) (id : Z) : Prop :=
  0 <= i < ob_slot_count o ∧ (∃ s, valid_at o (Z.to_nat i) s ∧ os_message_id s = id) ∧
  (ob_active o = true → rotation o (ob_active_index o) < rotation o i).

Section Rotation.
Context (m : mem) (o : outbox) (a : lanes) (room : Z) (Hinv : outbox_inv m o a room).
Context (i id : Z) (Hw : waits o i id).

Lemma waits_submit k p n :
  0 <= n → 1 <= room →
  let '(_, o', _, _) := wl_outbox_submit_latest m o k p n in
  waits o' i id ∧ rotation o' i = rotation o i.
Proof.
  intros Hn Hroom. unfold wl_outbox_submit_latest. rewrite (outbox_ready m o a room Hinv).
  cbn [negb]. destruct ((k =? 0) || _ || _); [done|].
  pose proof (select_cases m o a room Hinv k) as Hsel.
  destruct (select_slot o k) as [[j replaced]|]; [|done].
  destruct Hsel as (Hj & _ & s & Hs & Hv & Hsid). destruct Hw as (Hi & (t & Ht & Hid) & Hact).
  match goal with |- waits ?x _ _ ∧ _ =>
    assert (ob_slots x = <[Z.to_nat j := mk_outbox_slot (ob_next_generation x) n k true]> (ob_slots o) ∧
      ob_slot_count x = ob_slot_count o ∧ ob_cursor x = ob_cursor o ∧ ob_active x = ob_active o ∧
      ob_active_index x = ob_active_index o) as Hx by (by destruct replaced);
    revert Hx; generalize x
  end.
  intros x (E1 & E2 & E3 & E4 & E5).
  unfold waits, rotation in *. rewrite E2, E3, E4, E5. split; [|done]. split; [done|].
  split; [|done]. unfold valid_at. rewrite E1. destruct (decide (j = i)) as [->|Hne].
  - exists (mk_outbox_slot (ob_next_generation x) n k true).
    rewrite list_lookup_insert_eq by (by eapply lookup_lt_Some). split; [done|]. cbn.
    destruct Ht as [Ht Htv]. rewrite Hs in Ht. injection Ht as <-. rewrite Hv in Htv.
    by rewrite <- Hid, Hsid.
  - exists t. rewrite list_lookup_insert_ne by lia. done.
Qed.

Lemma waits_acquire p n :
  let '(_, o', e, item) := wl_outbox_acquire_copy m o p n in
  (e = WL_OK ∧ oi_message_id item = id) ∨ (waits o' i id ∧ rotation o' i = rotation o i).
Proof.
  unfold wl_outbox_acquire_copy. rewrite (outbox_ready m o a room Hinv). cbn [negb].
  destruct (p =? NULL); [by right|]. destruct (ob_active o) eqn:Ea; [by right|].
  destruct (ox_slots _ _ _ _ Hinv) as (Hc & Hl & _). destruct Hw as (Hi & (t & Ht & Hid) & _).
  pose proof (next_valid_spec o (Z.to_nat (ob_slot_count o)) 0 Hc ltac:(lia) ltac:(lia)) as Hnv.
  destruct (valid_at_index m o a room Hinv _ t Ht) as [_ Hvi]. rewrite Z2Nat.id in Hvi by lia.
  destruct (next_valid o _ 0) as [j|]; [|by right]. destruct Hnv as (Hj & _ & _ & Hfirst).
  destruct (_ >? n); [by right|]. destruct (decide (j = i)) as [->|Hne].
  - left. split; [done|]. cbn. unfold outbox_slot_at. destruct Ht as [Ht _]. by rewrite Ht.
  - right. split; [|done]. split; [done|]. split; [by exists t|]. intros _. cbn.
    change (rotation o j < rotation o i).
    assert (0 <= rotation o i) by (apply Z.mod_pos_bound; lia).
    destruct (decide (rotation o j = rotation o i)) as [E|E].
    + destruct Hne. by rewrite <- (rotation_index o j Hj), E, rotation_index.
    + destruct (decide (rotation o i < rotation o j)); [|lia]. rewrite Hfirst in Hvi; [done|done|lia].
Qed.

Lemma rotation_step j :
  0 <= j < ob_slot_count o → rotation o j < rotation o i →
  (i - (j + 1) mod ob_slot_count o) mod ob_slot_count o = rotation o i - rotation o j - 1.
Proof.
  intros Hj Hlt. destruct Hw as (Hi & _). rewrite Zminus_mod_idemp_r. unfold rotation in *.
  pose proof (Z.mod_pos_bound (i - ob_cursor o) (ob_slot_count o) ltac:(lia)).
  pose proof (Z.mod_pos_bound (j - ob_cursor o) (ob_slot_count o) ltac:(lia)).
  replace (i - (j + 1)) with (i - ob_cursor o - (j - ob_cursor o) - 1) by lia.
  rewrite <- (Zminus_mod_idemp_l (_ - _)), (Zminus_mod (i - ob_cursor o)), Zminus_mod_idemp_l.
  apply Z.mod_small. lia.
Qed.

Lemma waits_complete item c :
  0 <= oi_slot_index item →
  let '(o', e) := wl_outbox_complete o item c in
  waits o' i id ∧
  rotation o' i + settles (OEvComplete (oi_token item) (oi_slot_index item) c e) <= rotation o i.
Proof.
  intros Hii. unfold wl_outbox_complete. rewrite (outbox_ready m o a room Hinv). cbn [negb].
  destruct (_ >=? _) eqn:Er; cbn [orb]; [cbn; split; [done|lia]|].
  destruct (_ && _ && _); [cbn; split; [done|lia]|].
  destruct (negb (ob_active o) || _ || _) eqn:Es; [cbn; split; [done|lia]|].
  rewrite !orb_false_iff, !negb_false_iff, !Z.eqb_eq in Es. destruct Es as ((Ea & Ei) & _).
  rewrite Z.geb_leb, Z.leb_gt in Er. destruct Hw as (Hi & (t & Ht & Hid) & Hact).
  specialize (Hact Ea). rewrite Ei in Hact.
  pose proof (rotation_step (oi_slot_index item) ltac:(lia) Hact) as Hrot.
  assert (0 <= rotation o (oi_slot_index item)) by (apply Z.mod_pos_bound; lia).
  cbn [settles]. destruct (c =? WL_OUTBOX_DEFERRED).
  { split; [|change (rotation o i + 0 <= rotation o i); lia]. split; [done|]. by split; [exists t|]. }
  set (j := oi_slot_index item) in *.
  assert (u16 ((j + 1) mod ob_slot_count o) = (j + 1) mod ob_slot_count o) as Eu.
  { apply u16_id. destruct (ox_slots _ _ _ _ Hinv) as (Hc & _).
    pose proof (Z.mod_pos_bound (j + 1) (ob_slot_count o) ltac:(lia)). unfold is_u16. lia. }
  match goal with |- waits ?x _ _ ∧ _ =>
    assert (ob_slot_count x = ob_slot_count o ∧ ob_cursor x = (j + 1) mod ob_slot_count o ∧
      ob_active x = false ∧ ob_slots x !! Z.to_nat i = ob_slots o !! Z.to_nat i) as Hx;
    [|revert Hx; generalize x]
  end.
  - assert (Z.to_nat j ≠ Z.to_nat i) as Hne.
    { intros E. assert (j = i) as E' by lia. rewrite E' in Hact. lia. }
    destruct (c =? WL_OUTBOX_ACCEPTED), (_ && _); cbn -[u16 Z.modulo]; rewrite ?Eu;
      (split_and!; [done..|]); try done; by rewrite list_lookup_insert_ne.
  - intros x (E1 & E2 & E3 & E4). unfold rotation at 1. rewrite E1, E2, Hrot. split; [|lia]. split; [by rewrite E1|].
    split; [|congruence]. exists t. unfold valid_at. by rewrite E4.
Qed.
End Rotation.

Lemma waits_exec m o a room i id op :
  outbox_inv m o a room → waits o i id → outbox_may o op = true → 1 <= room → op ≠ OReset →
  let '((m', o'), ev) := outbox_exec op (m, o) in
  acquires id ev ∨ (waits o' i id ∧ rotation o' i + settles ev <= rotation o i).
Proof.
  intros Hinv Hw Hop Hroom Hnr. destruct op as [k p n|p n|item c| |x v]; cbn [outbox_exec]; [..|done|].
  - apply Z.leb_le in Hop. pose proof (waits_submit m o a room Hinv i id Hw k p n Hop Hroom) as H.
    destruct (wl_outbox_submit_latest m o k p n) as [[[m' o'] e] co].
    right. destruct H as [? ->]. cbn. split; [done|lia].
  - pose proof (waits_acquire m o a room Hinv i id Hw p n) as H.
    destruct (wl_outbox_acquire_copy m o p n) as [[[m' o'] e] item].
    destruct H as [[-> H]|[H ->]]; [by left|]. right. cbn. split; [done|lia].
  - apply Z.leb_le in Hop. pose proof (waits_complete m o a room Hinv i id Hw item c Hop) as H.
    destruct (wl_outbox_complete o item c) as [o' e]. by right.
  - right. cbn. split; [done|lia].
Qed.

Lemma waits_run ops m o a room i id :
  outbox_inv m o a room → len ops <= room → waits o i id → outbox_fair ops (m, o) = true →
  OReset ∉ ops → rotation o i < settled (outbox_trace ops (m, o)) →
  Exists (acquires id) (outbox_trace ops (m, o)).
Proof.
  revert m o a room. induction ops as [|op ops IH]; intros m o a room Hinv Hr Hw Hf Hn Hs.
  { cbn in Hs. destruct Hw as (Hi & _).
    assert (0 <= rotation o i) by (apply Z.mod_pos_bound; lia). lia. }
  rewrite len_cons in Hr. pose proof (len_nonneg ops). rewrite not_elem_of_cons in Hn.
  cbn [outbox_fair] in Hf. apply andb_true_iff in Hf as [Hop Hf].
  destruct (outbox_sim_exec m o a room op Hinv Hop ltac:(lia)) as (a1 & _ & Hi).
  pose proof (waits_exec m o a room i id op Hinv Hw Hop ltac:(lia) ltac:(by destruct Hn)) as Hx.
  cbn [outbox_trace] in *. destruct (outbox_exec op (m, o)) as [[m1 o1] ev]. cbn in *.
  destruct Hx as [Hx|[Hx Hle]]; [by constructor|]. apply Exists_cons_tl.
  eapply (IH m1 o1); [done|lia|done|done|by destruct Hn|]. unfold settled in *. lia.
Qed.

Definition outbox_end (ops : list outbox_op) (s : mem * outbox) : mem * outbox :=
  foldl (λ s op, (outbox_exec op s).1) s ops.

Lemma outbox_end_inv ops m o a room :
  outbox_inv m o a room → len ops <= room → outbox_fair ops (m, o) = true →
  ∃ a', lanes_run a (outbox_trace ops (m, o)) = Some a' ∧
    outbox_inv (outbox_end ops (m, o)).1 (outbox_end ops (m, o)).2 a' (room - len ops).
Proof.
  revert m o a room. induction ops as [|op ops IH]; intros m o a room Hinv Hr Hf.
  { exists a. split; [done|]. cbn. rewrite len_nil. by rewrite Z.sub_0_r. }
  rewrite len_cons in *. pose proof (len_nonneg ops).
  cbn [outbox_fair] in Hf. apply andb_true_iff in Hf as [Hop Hf].
  destruct (outbox_sim_exec m o a room op Hinv Hop ltac:(lia)) as (a1 & Hn & Hi).
  cbn [outbox_trace outbox_end foldl]. destruct (outbox_exec op (m, o)) as [[m1 o1] ev] eqn:E. cbn in *.
  destruct (IH m1 o1 a1 (room - 1) Hi ltac:(lia) Hf) as (a' & Ha & Hinv').
  exists a'. rewrite Hn. cbn. split; [done|].
  replace (room - (len ops + 1)) with (room - 1 - len ops) by lia. exact Hinv'.
Qed.

Lemma lanes_run_slots trace a a' : lanes_run a trace = Some a' → la_slots a' = la_slots a.
Proof.
  revert a. induction trace as [|ev trace IH]; intros a H; [by injection H as ->|].
  cbn in H. destruct (lanes_next a ev) as [a1|] eqn:E; [|done]. cbn in H. rewrite (IH a1 H).
  clear -E. unfold lanes_next in E. destruct ev; repeat case_match; by simplify_eq.
Qed.

(** C26: no lane starves.  If a message waits in the outbox while no
    item is out, and from then on as many items are accepted or rejected as the
    outbox has slots, then the message was among the items handed out, whatever
    is submitted in the meantime. *)
Theorem outbox_no_starvation m o0 config o ops1 ops2 a id :
  is_u16 (oc_slot_count config) → is_u16 (oc_payload_capacity_per_slot config) →
  0 <= oc_initial_generation config →
  oc_initial_generation config + len ops1 + len ops2 < 2 ^ 64 →
  wl_outbox_init o0 config = (o, WL_OK) → outbox_fair (ops1 ++ ops2) (m, o) = true →
  lanes_run (mk_lanes (oc_slot_count config) (oc_payload_capacity_per_slot config) ∅ None)
    (outbox_trace ops1 (m, o)) = Some a →
  is_Some (la_values a !! id) → la_active a = None → OReset ∉ ops2 →
  oc_slot_count config <= settled (outbox_trace ops2 (outbox_end ops1 (m, o))) →
  Exists (acquires id) (outbox_trace ops2 (outbox_end ops1 (m, o))).
Proof.
  intros Hc Hp Hg0 Hg Hi Hf Hrun [v Hv] Hact Hnr Hset.
  pose proof (outbox_init_inv m o0 config o (len ops1 + len ops2) Hc Hp Hg0 ltac:(lia) Hi) as Hinv.
  pose proof (len_nonneg ops1). pose proof (len_nonneg ops2).
  assert (outbox_fair ops1 (m, o) = true ∧ outbox_fair ops2 (outbox_end ops1 (m, o)) = true)
    as [Hf1 Hf2].
  { clear -Hf. revert Hf. generalize (m, o) as s. induction ops1 as [|op ops1 IH]; intros s Hf; [done|].
    cbn in *. apply andb_true_iff in Hf as [-> Hf]. by apply IH. }
  destruct (outbox_end_inv ops1 m o _ _ Hinv ltac:(lia) Hf1) as (a' & Hrun' & Hinv').
  rewrite Hrun in Hrun'. injection Hrun' as <-.
  assert (ob_slot_count (outbox_end ops1 (m, o)).2 = oc_slot_count config) as Ec.
  { destruct (ox_slots _ _ _ _ Hinv') as (_ & _ & <-). by apply lanes_run_slots in Hrun. }
  destruct (outbox_end ops1 (m, o)) as [m1 o1] eqn:Eend. cbn [fst snd] in *.
  apply (ox_values _ _ _ _ Hinv') in Hv as (i & s & Hs & Hid & _).
  destruct (valid_at_index m1 o1 a _ Hinv' i s Hs) as [Hi' _].
  pose proof (ox_active _ _ _ _ Hinv') as Ha. rewrite Hact in Ha.
  eapply (waits_run ops2 m1 o1 a _ (Z.of_nat i) id Hinv'); try done; [lia| |].
  - split; [done|]. split; [|congruence]. exists s. by rewrite Nat2Z.id.
  - assert (rotation o1 (Z.of_nat i) < ob_slot_count o1) by (apply Z.mod_pos_bound; lia). lia.
Qed.

Lemma outbox_no_starvation_witness :
  let config := mk_outbox_config 1 2 1000 8 4 0 in
  let o := (wl_outbox_init outbox_zero config).1 in
  let ops1 := [OSubmit 5 100 2; OSubmit 6 102 1] in
  let ops2 := [OAcquire 200 4; OComplete (mk_outbox_item 1 0 0 0) WL_OUTBOX_ACCEPTED;
               OSubmit 5 100 2; OAcquire 200 4;
               OComplete (mk_outbox_item 2 1 0 0) WL_OUTBOX_ACCEPTED] in
  Exists (acquires 6) (outbox_trace ops2 (outbox_end ops1 (λ a, a mod 256, o))).
Proof.
  intros config o ops1 ops2.
  apply (outbox_no_starvation (λ a, a mod 256) outbox_zero config o ops1 ops2
    (mk_lanes 2 4 (<[6 := [102]]> (<[5 := [100; 101]]> ∅)) None) 6);
    try (split; vm_compute; congruence); try (vm_compute; congruence).
  - by eexists.
  - intros H. repeat (apply elem_of_cons in H as [H|H]; [discriminate H|]). by apply elem_of_nil in H.
Defined.
