(* ===== verification/Clock.v ===== *)
(** Clocks and branches.

    The interval arithmetic on the wrapping 32-bit millisecond clock that the
    bulk engines and the RPC tables share, and the case analysis of the guards of
    an operation. *)
From S2P Require Import Prelude Slots.

(** ** The clock *)

(** [deadline_elapsed] of [src/bulk_sender.c], the comparison of [elapsed] of
    [src/rpc.c] *)
Definition deadline_elapsed (now_ms started_at interval_ms : Z) : bool :=
  interval_ms <=? u32 (now_ms - started_at).

(** [deadline_remaining] of [src/bulk_sender.c] and [src/rpc.c],
    [interval_remaining] of [src/bulk_receiver.c] *)
Definition deadline_remaining (now_ms started_at interval_ms : Z) : Z :=
  let age := u32 (now_ms - started_at) in
  if interval_ms <=? age then 0 else interval_ms - age.

(** The reported remainder is the first moment at which the interval has
    elapsed, as long as the clock has not run past it by half its range. *)
Lemma deadline_remaining_first now started interval d :
  0 <= now < 2 ^ 32 → 0 <= started < 2 ^ 32 → 0 < interval < 2 ^ 31 → 0 <= d →
  d + u32 (now - started) < 2 ^ 32 →
  deadline_elapsed (u32 (now + d)) started interval = true ↔
  deadline_remaining now started interval <= d.
Proof.
  intros Hn Hs Hi Hd Hw. unfold deadline_elapsed, deadline_remaining, u32 in *.
  rewrite Zminus_mod_idemp_l.
  replace (now + d - started) with (now - started + d) by lia.
  pose proof (Z.mod_pos_bound (now - started) (2 ^ 32) ltac:(lia)).
  rewrite <- Zplus_mod_idemp_l, (Z.mod_small (_ + d)) by lia.
  case_match; lia.
Qed.

(** ** Branches of the operations *)

#[export] Hint Rewrite negb_true_iff negb_false_iff orb_true_iff orb_false_iff andb_true_iff
  andb_false_iff Z.eqb_eq Z.eqb_neq Z.ltb_lt Z.ltb_ge Z.leb_le Z.leb_gt bool_decide_eq_true
  bool_decide_eq_false : branch.

(** Case analysis of the innermost test of a hypothesis. *)
Ltac branch_case H :=
  lazymatch type of H with
  | context [if ?b then _ else _] =>
      lazymatch b with
      | context [if _ then _ else _] => fail
      | _ => let E := fresh "E" in destruct b eqn:E; autorewrite with branch in E
      end
  end.
