(* ===== verification/Bulk.v ===== *)
(** Bulk transfer: what both ends share.

    The vocabulary of [include/wirelink/bulk.h]: error codes, phases and status
    codes as they travel in application messages, descriptors, chunks and
    statuses.  Phases and codes are plain integers because they
    arrive from the peer; the states of the two engines are enumerations because
    only the engines set them. *)
From Stdlib Require Import Strings.String.
From S2P Require Import Prelude Slots Clock.

(** ** Codes *)

Inductive bulk_err :=
  | WL_BULK_OK
  | WL_BULK_ERR_INVALID_ARG
  | WL_BULK_ERR_NOT_INITIALIZED
  | WL_BULK_ERR_BUSY
  | WL_BULK_ERR_INVALID_STATE
  | WL_BULK_ERR_NOT_FOUND
  | WL_BULK_ERR_PROTOCOL
  | WL_BULK_ERR_TIMEOUT.

#[export] Instance bulk_err_eq_dec : EqDecision bulk_err.
Proof. solve_decision. Defined.

Definition bulk_err_code (e : bulk_err) : Z :=
  match e with
  | WL_BULK_OK => 0
  | WL_BULK_ERR_INVALID_ARG => -2000
  | WL_BULK_ERR_NOT_INITIALIZED => -2001
  | WL_BULK_ERR_BUSY => -2002
  | WL_BULK_ERR_INVALID_STATE => -2003
  | WL_BULK_ERR_NOT_FOUND => -2004
  | WL_BULK_ERR_PROTOCOL => -2005
  | WL_BULK_ERR_TIMEOUT => -2006
  end.

Definition wl_bulk_err_str (error : Z) : string :=
  (if (error =? 0)%Z then "ok"
   else if (error =? -2000)%Z then "invalid argument"
   else if (error =? -2001)%Z then "not initialized"
   else if (error =? -2002)%Z then "busy"
   else if (error =? -2003)%Z then "invalid state"
   else if (error =? -2004)%Z then "not found"
   else if (error =? -2005)%Z then "protocol error"
   else if (error =? -2006)%Z then "timed out"
   else "unknown bulk error")%string.

Definition WL_BULK_PHASE_NONE : Z := 0.
Definition WL_BULK_PHASE_BEGIN : Z := 1.
Definition WL_BULK_PHASE_CHUNK : Z := 2.
Definition WL_BULK_PHASE_END : Z := 3.
Definition WL_BULK_PHASE_ABORT : Z := 4.

Definition WL_BULK_STATUS_OK : Z := 0.
Definition WL_BULK_STATUS_BUSY : Z := 1.
Definition WL_BULK_STATUS_OUT_OF_ORDER : Z := 2.
Definition WL_BULK_STATUS_CONFLICT : Z := 3.
Definition WL_BULK_STATUS_INVALID : Z := 4.
Definition WL_BULK_STATUS_WRITE_FAILED : Z := 5.
Definition WL_BULK_STATUS_INTEGRITY_FAILED : Z := 6.
Definition WL_BULK_STATUS_ABORTED : Z := 7.
Definition WL_BULK_STATUS_TIMED_OUT : Z := 8.

Definition WL_BULK_MAX_INTERVAL : Z := 0x80000000.
Definition WL_BULK_NO_DEADLINE_MS : Z := UINT32_MAX.

(** ** Messages *)

(** [wl_bulk_descriptor_t] *)
Record descriptor := mk_descriptor {
  transfer_id : Z;
  total_length : Z;
  requested_chunk_size : Z;
  object_crc32c : Z;
}.

#[export] Instance rebuild_descriptor : Rebuild descriptor := λ d,
  mk_descriptor (transfer_id d) (total_length d) (requested_chunk_size d) (object_crc32c d).
#[export] Instance fs_transfer_id : FieldSet transfer_id := _.
#[export] Instance fs_total_length : FieldSet total_length := _.
#[export] Instance fs_requested_chunk_size : FieldSet requested_chunk_size := _.
#[export] Instance fs_object_crc32c : FieldSet object_crc32c := _.

#[export] Instance descriptor_eq_dec : EqDecision descriptor.
Proof. solve_decision. Defined.

Definition descriptor_zero : descriptor := mk_descriptor 0 0 0 0.

(** [wl_bulk_chunk_t]: [data] is the address of [length] bytes of the caller. *)
Record chunk := mk_chunk {
  ck_transfer_id : Z;
  ck_offset : Z;
  ck_data : Z;
  ck_length : Z;
}.

(** [wl_bulk_status_t] *)
Record status := mk_status {
  st_transfer_id : Z;
  st_phase : Z;
  st_code : Z;
  st_next_offset : Z;
  st_accepted_chunk_size : Z;
}.

#[export] Instance status_eq_dec : EqDecision status.
Proof. solve_decision. Defined.

Definition status_zero : status := mk_status 0 0 0 0 0.

(** [descriptor_matches] of the sender and [descriptor_equal] of the receiver *)
Definition descriptor_equal (left right : descriptor) : bool :=
  (transfer_id left =? transfer_id right) && (total_length left =? total_length right) &&
  (requested_chunk_size left =? requested_chunk_size right) &&
  (object_crc32c left =? object_crc32c right).

Definition status_equal (left right : status) : bool :=
  (st_transfer_id left =? st_transfer_id right) && (st_phase left =? st_phase right) &&
  (st_code left =? st_code right) && (st_next_offset left =? st_next_offset right) &&
  (st_accepted_chunk_size left =? st_accepted_chunk_size right).

Lemma descriptor_equal_spec a b : descriptor_equal a b = true ↔ a = b.
Proof.
  unfold descriptor_equal. destruct a, b; cbn. split.
  - intros H. f_equal; lia.
  - intros [= -> -> -> ->]. lia.
Qed.

Lemma status_equal_spec a b : status_equal a b = true ↔ a = b.
Proof.
  unfold status_equal. destruct a, b; cbn. split.
  - intros H. f_equal; lia.
  - intros [= -> -> -> -> ->]. lia.
Qed.
