(* ===== verification/BulkSender.v ===== *)
(** The sending end of a bulk transfer, [src/bulk_sender.c].

    The engine turns a transfer into a sequence of actions (Begin, chunks, End or
    Abort) that the application encodes and submits, waits for the status of
    each, and repeats it a bounded number of times.  The state is the record
    [sender]; every public operation is one definition that returns the new state
    and the error code. *)
From S2P Require Import Prelude Slots Clock Bulk.

Definition WL_BULK_SENDER_MAGIC : Z := 0x42554c53.

Inductive sender_state :=
  | WL_BULK_SENDER_IDLE
  | WL_BULK_SENDER_READY
  | WL_BULK_SENDER_WAIT_STATUS
  | WL_BULK_SENDER_COMPLETED
  | WL_BULK_SENDER_FAILED
  | WL_BULK_SENDER_ABORTED.

#[export] Instance sender_state_eq_dec : EqDecision sender_state.
Proof. solve_decision. Defined.

(** [wl_bulk_sender_stats_t] *)
Record sender_stats := mk_sender_stats {
  ss_starts : Z;
  ss_actions_submitted : Z;
  ss_statuses_received : Z;
  ss_retries : Z;
  ss_busy_responses : Z;
  ss_protocol_errors : Z;
  ss_completed : Z;
  ss_failed : Z;
  ss_aborted : Z;
}.

#[export] Instance rebuild_sender_stats : Rebuild sender_stats := λ t,
  mk_sender_stats (ss_starts t) (ss_actions_submitted t) (ss_statuses_received t)
    (ss_retries t) (ss_busy_responses t) (ss_protocol_errors t) (ss_completed t) (ss_failed t)
    (ss_aborted t).
#[export] Instance fs_ss_starts : FieldSet ss_starts := _.
#[export] Instance fs_ss_actions_submitted : FieldSet ss_actions_submitted := _.
#[export] Instance fs_ss_statuses_received : FieldSet ss_statuses_received := _.
#[export] Instance fs_ss_retries : FieldSet ss_retries := _.
#[export] Instance fs_ss_busy_responses : FieldSet ss_busy_responses := _.
#[export] Instance fs_ss_protocol_errors : FieldSet ss_protocol_errors := _.
#[export] Instance fs_ss_completed : FieldSet ss_completed := _.
#[export] Instance fs_ss_failed : FieldSet ss_failed := _.
#[export] Instance fs_ss_aborted : FieldSet ss_aborted := _.

(** [wl_bulk_sender_impl_t] *)
Record sender := mk_sender {
  bs_descriptor : descriptor;
  bs_stats : sender_stats;
  bs_next_offset : Z;
  bs_action_length : Z;
  bs_wait_started_at : Z;
  bs_wait_interval_ms : Z;
  bs_status_timeout_ms : Z;
  bs_busy_retry_ms : Z;
  bs_next_token : Z;
  bs_acquired_token : Z;
  bs_magic : Z;
  bs_abort_reason : Z;
  bs_state : sender_state;
  bs_phase : Z;
  bs_last_status : Z;
  bs_negotiated_chunk_size : Z;
  bs_retry_count : Z;
  bs_max_retries : Z;
  bs_action_acquired : bool;
  bs_chunk_acknowledged : bool;
  bs_retry_wait : bool;
}.

#[export] Instance rebuild_sender : Rebuild sender := λ s,
  mk_sender (bs_descriptor s) (bs_stats s) (bs_next_offset s) (bs_action_length s)
    (bs_wait_started_at s) (bs_wait_interval_ms s) (bs_status_timeout_ms s)
    (bs_busy_retry_ms s) (bs_next_token s) (bs_acquired_token s) (bs_magic s)
    (bs_abort_reason s) (bs_state s) (bs_phase s) (bs_last_status s)
    (bs_negotiated_chunk_size s) (bs_retry_count s) (bs_max_retries s) (bs_action_acquired s)
    (bs_chunk_acknowledged s) (bs_retry_wait s).
#[export] Instance fs_bs_descriptor : FieldSet bs_descriptor := _.
#[export] Instance fs_bs_stats : FieldSet bs_stats := _.
#[export] Instance fs_bs_next_offset : FieldSet bs_next_offset := _.
#[export] Instance fs_bs_action_length : FieldSet bs_action_length := _.
#[export] Instance fs_bs_wait_started_at : FieldSet bs_wait_started_at := _.
#[export] Instance fs_bs_wait_interval_ms : FieldSet bs_wait_interval_ms := _.
#[export] Instance fs_bs_status_timeout_ms : FieldSet bs_status_timeout_ms := _.
#[export] Instance fs_bs_busy_retry_ms : FieldSet bs_busy_retry_ms := _.
#[export] Instance fs_bs_next_token : FieldSet bs_next_token := _.
#[export] Instance fs_bs_acquired_token : FieldSet bs_acquired_token := _.
#[export] Instance fs_bs_magic : FieldSet bs_magic := _.
#[export] Instance fs_bs_abort_reason : FieldSet bs_abort_reason := _.
#[export] Instance fs_bs_state : FieldSet bs_state := _.
#[export] Instance fs_bs_phase : FieldSet bs_phase := _.
#[export] Instance fs_bs_last_status : FieldSet bs_last_status := _.
#[export] Instance fs_bs_negotiated_chunk_size : FieldSet bs_negotiated_chunk_size := _.
#[export] Instance fs_bs_retry_count : FieldSet bs_retry_count := _.
#[export] Instance fs_bs_max_retries : FieldSet bs_max_retries := _.
#[export] Instance fs_bs_action_acquired : FieldSet bs_action_acquired := _.
#[export] Instance fs_bs_chunk_acknowledged : FieldSet bs_chunk_acknowledged := _.
#[export] Instance fs_bs_retry_wait : FieldSet bs_retry_wait := _.

Definition sender_stats_zero : sender_stats := mk_sender_stats 0 0 0 0 0 0 0 0 0.

Definition sender_zero : sender :=
  mk_sender descriptor_zero sender_stats_zero 0 0 0 0 0 0 0 0 0 0 WL_BULK_SENDER_IDLE 0 0 0 0 0
    false false false.

(** [wl_bulk_sender_config_t] *)
Record sender_config := mk_sender_config {
  sc_status_timeout_ms : Z;
  sc_busy_retry_ms : Z;
  sc_max_retries : Z;
}.

(** [wl_bulk_sender_action_t] *)
Record action := mk_action {
  ac_phase : Z;
  ac_descriptor : descriptor;
  ac_offset : Z;
  ac_length : Z;
  ac_abort_reason : Z;
  ac_token : Z;
}.

Definition action_zero : action := mk_action 0 descriptor_zero 0 0 0 0.

(** [wl_bulk_sender_result_t] *)
Record sender_result := mk_sender_result {
  sr_state : sender_state;
  sr_status : Z;
  sr_next_offset : Z;
  sr_retry_count : Z;
}.

(** ** Helpers *)

Definition sender_initialized (s : sender) : bool := bs_magic s =? WL_BULK_SENDER_MAGIC.

(** [interval_valid] of the sender, whose delays are never zero *)
Definition delay_valid (interval_ms : Z) : bool :=
  negb (interval_ms =? 0) && (interval_ms <? WL_BULK_MAX_INTERVAL).

(** [increment] applied to one counter of the statistics *)
Definition sender_count (counter : sender_stats → Z) `{!FieldSet counter} (s : sender) : sender :=
  s <| bs_stats := with_field counter counter_increment (bs_stats s) |>.

Definition in_sender_state (s : sender) (x : sender_state) : bool := bool_decide (bs_state s = x).

Definition sender_active (s : sender) : bool :=
  in_sender_state s WL_BULK_SENDER_READY || in_sender_state s WL_BULK_SENDER_WAIT_STATUS.

Definition phase_valid (phase : Z) : bool :=
  (WL_BULK_PHASE_BEGIN <=? phase) && (phase <=? WL_BULK_PHASE_ABORT).

Definition status_code_valid (code : Z) : bool :=
  (WL_BULK_STATUS_OK <=? code) && (code <=? WL_BULK_STATUS_TIMED_OUT).

(** [next_token] on the counter of the sender *)
Definition bulk_next_token (token : Z) : Z :=
  let token := u32 (token + 1) in if token =? 0 then u32 (token + 1) else token.

Definition set_action_length (s : sender) : sender :=
  if negb (bs_phase s =? WL_BULK_PHASE_CHUNK) || (total_length (bs_descriptor s) <=? bs_next_offset s)
  then s <| bs_action_length := 0 |>
  else
    let remaining := total_length (bs_descriptor s) - bs_next_offset s in
    s <| bs_action_length :=
           if remaining <? bs_negotiated_chunk_size s then remaining
           else bs_negotiated_chunk_size s |>.

Definition prepare_phase (s : sender) (phase : Z) : sender :=
  set_action_length
    (s <| bs_phase := phase |> <| bs_state := WL_BULK_SENDER_READY |> <| bs_action_acquired := false |>
       <| bs_acquired_token := 0 |> <| bs_retry_count := 0 |> <| bs_retry_wait := false |>
       <| bs_wait_interval_ms := 0 |>).

Definition fail_sender (s : sender) (code : Z) : sender :=
  sender_count ss_failed
    (s <| bs_state := WL_BULK_SENDER_FAILED |> <| bs_last_status := code |>
       <| bs_action_acquired := false |> <| bs_acquired_token := 0 |> <| bs_retry_wait := false |>
       <| bs_wait_interval_ms := 0 |>).

Definition protocol_failure (s : sender) : sender :=
  fail_sender (sender_count ss_protocol_errors s) WL_BULK_STATUS_INVALID.

Definition action_matches (s : sender) (a : action) : bool :=
  (ac_phase a =? bs_phase s) && descriptor_equal (ac_descriptor a) (bs_descriptor s) &&
  (ac_offset a =? bs_next_offset s) && (ac_length a =? bs_action_length s) &&
  (ac_abort_reason a =? bs_abort_reason s).

Definition status_chunk_size_matches (s : sender) (st : status) : bool :=
  if bs_phase s =? WL_BULK_PHASE_BEGIN then true
  else st_accepted_chunk_size st =? bs_negotiated_chunk_size s.

Definition proposed_chunk_size_valid (s : sender) (chunk_size : Z) : bool :=
  negb ((chunk_size =? 0) || (requested_chunk_size (bs_descriptor s) <? chunk_size)).

Definition terminal_status_valid (s : sender) (st : status) : bool :=
  if total_length (bs_descriptor s) <? st_next_offset st then false
  else if negb (bs_negotiated_chunk_size s =? 0) then
    st_accepted_chunk_size st =? bs_negotiated_chunk_size s
  else if st_accepted_chunk_size st =? 0 then bs_phase s =? WL_BULK_PHASE_ABORT
  else proposed_chunk_size_valid s (st_accepted_chunk_size st).

Definition status_is_stale (s : sender) (st : status) : bool :=
  if st_phase st <? bs_phase s then true
  else (bs_phase s =? WL_BULK_PHASE_CHUNK) && (st_phase st =? WL_BULK_PHASE_CHUNK) &&
       (st_code st =? WL_BULK_STATUS_OK) && bs_chunk_acknowledged s &&
       (st_next_offset st <=? bs_next_offset s).

Definition wait_for_retry (s : sender) (now_ms delay_ms exhausted_status : Z) : sender :=
  if bs_max_retries s <=? bs_retry_count s then fail_sender s exhausted_status
  else s <| bs_wait_started_at := now_ms |> <| bs_wait_interval_ms := delay_ms |>
         <| bs_retry_wait := true |>.

(** The phase that follows a status which moved [next_offset]. *)
Definition phase_after_offset (s : sender) : Z :=
  if bs_next_offset s =? total_length (bs_descriptor s) then WL_BULK_PHASE_END
  else WL_BULK_PHASE_CHUNK.

(** ** Operations *)

Definition wl_bulk_sender_init (s : sender) (config : sender_config) : sender * bulk_err :=
  if negb (delay_valid (sc_status_timeout_ms config)) || negb (delay_valid (sc_busy_retry_ms config))
  then (s, WL_BULK_ERR_INVALID_ARG)
  else
    (sender_zero <| bs_status_timeout_ms := sc_status_timeout_ms config |>
       <| bs_busy_retry_ms := sc_busy_retry_ms config |> <| bs_max_retries := sc_max_retries config |>
       <| bs_state := WL_BULK_SENDER_IDLE |> <| bs_last_status := WL_BULK_STATUS_OK |>
       <| bs_magic := WL_BULK_SENDER_MAGIC |>, WL_BULK_OK).

Definition wl_bulk_sender_reset (s : sender) : sender * bulk_err :=
  if negb (sender_initialized s) then (s, WL_BULK_ERR_NOT_INITIALIZED)
  else if bs_action_acquired s || sender_active s ||
          (in_sender_state s WL_BULK_SENDER_FAILED && negb (bs_phase s =? WL_BULK_PHASE_ABORT))
  then (s, WL_BULK_ERR_BUSY)
  else
    (s <| bs_descriptor := descriptor_zero |> <| bs_next_offset := 0 |> <| bs_action_length := 0 |>
       <| bs_wait_started_at := 0 |> <| bs_wait_interval_ms := 0 |> <| bs_acquired_token := 0 |>
       <| bs_abort_reason := 0 |> <| bs_state := WL_BULK_SENDER_IDLE |>
       <| bs_phase := WL_BULK_PHASE_NONE |> <| bs_last_status := WL_BULK_STATUS_OK |>
       <| bs_negotiated_chunk_size := 0 |> <| bs_retry_count := 0 |> <| bs_action_acquired := false |>
       <| bs_chunk_acknowledged := false |> <| bs_retry_wait := false |>, WL_BULK_OK).

Definition wl_bulk_sender_start (s : sender) (d : descriptor) : sender * bulk_err :=
  if negb (sender_initialized s) then (s, WL_BULK_ERR_NOT_INITIALIZED)
  else if (transfer_id d =? 0) || (requested_chunk_size d =? 0) then (s, WL_BULK_ERR_INVALID_ARG)
  else if negb (in_sender_state s WL_BULK_SENDER_IDLE) then (s, WL_BULK_ERR_BUSY)
  else
    (sender_count ss_starts
       (prepare_phase
          (s <| bs_descriptor := d |> <| bs_next_offset := 0 |> <| bs_negotiated_chunk_size := 0 |>
             <| bs_chunk_acknowledged := false |> <| bs_abort_reason := 0 |>
             <| bs_last_status := WL_BULK_STATUS_OK |>)
          WL_BULK_PHASE_BEGIN), WL_BULK_OK).

Definition wl_bulk_sender_request_abort (s : sender) (reason : Z) : sender * bulk_err :=
  if negb (sender_initialized s) then (s, WL_BULK_ERR_NOT_INITIALIZED)
  else if (negb (sender_active s) && negb (in_sender_state s WL_BULK_SENDER_FAILED)) ||
          (bs_phase s =? WL_BULK_PHASE_ABORT)
  then (s, WL_BULK_ERR_INVALID_STATE)
  else if bs_action_acquired s then (s, WL_BULK_ERR_BUSY)
  else (prepare_phase (s <| bs_abort_reason := reason |>) WL_BULK_PHASE_ABORT, WL_BULK_OK).

Definition wl_bulk_sender_action_acquire (s : sender) : sender * bulk_err * action :=
  if negb (sender_initialized s) then (s, WL_BULK_ERR_NOT_INITIALIZED, action_zero)
  else if negb (in_sender_state s WL_BULK_SENDER_READY) then (s, WL_BULK_ERR_NOT_FOUND, action_zero)
  else if bs_action_acquired s then (s, WL_BULK_ERR_BUSY, action_zero)
  else
    let token := bulk_next_token (bs_next_token s) in
    (s <| bs_next_token := token |> <| bs_acquired_token := token |> <| bs_action_acquired := true |>,
     WL_BULK_OK,
     mk_action (bs_phase s) (bs_descriptor s) (bs_next_offset s) (bs_action_length s)
       (bs_abort_reason s) token).

Definition wl_bulk_sender_action_defer (s : sender) (a : action) : sender * bulk_err :=
  if negb (sender_initialized s) then (s, WL_BULK_ERR_NOT_INITIALIZED)
  else if negb (in_sender_state s WL_BULK_SENDER_READY) || negb (bs_action_acquired s) ||
          negb (ac_token a =? bs_acquired_token s)
  then (s, WL_BULK_ERR_INVALID_STATE)
  else if negb (action_matches s a) then (s, WL_BULK_ERR_INVALID_ARG)
  else (s <| bs_action_acquired := false |> <| bs_acquired_token := 0 |>, WL_BULK_OK).

Definition wl_bulk_sender_action_submitted (s : sender) (a : action) (now_ms : Z) : sender * bulk_err :=
  if negb (sender_initialized s) then (s, WL_BULK_ERR_NOT_INITIALIZED)
  else if negb (in_sender_state s WL_BULK_SENDER_READY) || negb (bs_action_acquired s) ||
          negb (ac_token a =? bs_acquired_token s)
  then (s, WL_BULK_ERR_INVALID_STATE)
  else if negb (action_matches s a) then (s, WL_BULK_ERR_INVALID_ARG)
  else
    (sender_count ss_actions_submitted
       (s <| bs_action_acquired := false |> <| bs_acquired_token := 0 |>
          <| bs_state := WL_BULK_SENDER_WAIT_STATUS |> <| bs_wait_started_at := now_ms |>
          <| bs_wait_interval_ms := bs_status_timeout_ms s |> <| bs_retry_wait := false |>),
     WL_BULK_OK).

(** A terminal status of the Abort phase, whatever the sender waits for. *)
Definition on_terminal_status (s : sender) (st : status) : sender * bulk_err :=
  if negb (terminal_status_valid s st) then (protocol_failure s, WL_BULK_ERR_PROTOCOL)
  else
    let s := sender_count ss_statuses_received s in
    let s := s <| bs_last_status := st_code st |> <| bs_next_offset := st_next_offset st |>
               <| bs_wait_interval_ms := 0 |> in
    (if st_code st =? WL_BULK_STATUS_ABORTED
     then sender_count ss_aborted (s <| bs_state := WL_BULK_SENDER_ABORTED |>)
     else fail_sender (s <| bs_phase := WL_BULK_PHASE_ABORT |>) (st_code st), WL_BULK_OK).

Definition on_out_of_order (s : sender) (st : status) : sender * bulk_err :=
  if (total_length (bs_descriptor s) <? st_next_offset st) ||
     ((bs_phase s =? WL_BULK_PHASE_BEGIN) &&
      negb (proposed_chunk_size_valid s (st_accepted_chunk_size st))) ||
     ((bs_phase s =? WL_BULK_PHASE_CHUNK) &&
      negb (st_accepted_chunk_size st =? bs_negotiated_chunk_size s)) ||
     (negb (bs_phase s =? WL_BULK_PHASE_BEGIN) && negb (bs_phase s =? WL_BULK_PHASE_CHUNK))
  then (protocol_failure s, WL_BULK_ERR_PROTOCOL)
  else
    let s := if bs_phase s =? WL_BULK_PHASE_BEGIN
             then s <| bs_negotiated_chunk_size := st_accepted_chunk_size st |> else s in
    let s := s <| bs_next_offset := st_next_offset st |> <| bs_chunk_acknowledged := false |> in
    (prepare_phase s (phase_after_offset s), WL_BULK_OK).

Definition on_status_ok (s : sender) (st : status) : sender * bulk_err :=
  if bs_phase s =? WL_BULK_PHASE_BEGIN then
    if negb (proposed_chunk_size_valid s (st_accepted_chunk_size st)) ||
       (total_length (bs_descriptor s) <? st_next_offset st)
    then (protocol_failure s, WL_BULK_ERR_PROTOCOL)
    else
      let s := s <| bs_negotiated_chunk_size := st_accepted_chunk_size st |>
                 <| bs_next_offset := st_next_offset st |> in
      (prepare_phase s (phase_after_offset s), WL_BULK_OK)
  else if bs_phase s =? WL_BULK_PHASE_CHUNK then
    let expected_offset := u64 (bs_next_offset s + bs_action_length s) in
    if negb (st_next_offset st =? expected_offset) ||
       (total_length (bs_descriptor s) <? st_next_offset st)
    then (protocol_failure s, WL_BULK_ERR_PROTOCOL)
    else
      let s := s <| bs_next_offset := st_next_offset st |> <| bs_chunk_acknowledged := true |> in
      (prepare_phase s (phase_after_offset s), WL_BULK_OK)
  else if bs_phase s =? WL_BULK_PHASE_END then
    if negb (st_next_offset st =? total_length (bs_descriptor s))
    then (protocol_failure s, WL_BULK_ERR_PROTOCOL)
    else
      (sender_count ss_completed
         (s <| bs_next_offset := st_next_offset st |> <| bs_state := WL_BULK_SENDER_COMPLETED |>
            <| bs_wait_interval_ms := 0 |>), WL_BULK_OK)
  else if bs_phase s =? WL_BULK_PHASE_ABORT then
    (sender_count ss_aborted
       (s <| bs_next_offset := st_next_offset st |> <| bs_state := WL_BULK_SENDER_ABORTED |>
          <| bs_wait_interval_ms := 0 |>), WL_BULK_OK)
  else (protocol_failure s, WL_BULK_ERR_PROTOCOL).

Definition wl_bulk_sender_on_status (s : sender) (st : status) (now_ms : Z) : sender * bulk_err :=
  if negb (sender_initialized s) then (s, WL_BULK_ERR_NOT_INITIALIZED)
  else if negb (phase_valid (st_phase st)) || negb (status_code_valid (st_code st))
  then (s, WL_BULK_ERR_INVALID_ARG)
  else if negb (st_transfer_id st =? transfer_id (bs_descriptor s)) then (s, WL_BULK_ERR_NOT_FOUND)
  else if negb (in_sender_state s WL_BULK_SENDER_WAIT_STATUS) || bs_retry_wait s
  then (s, WL_BULK_ERR_INVALID_STATE)
  else if (st_phase st =? WL_BULK_PHASE_ABORT) &&
          ((st_code st =? WL_BULK_STATUS_ABORTED) || (st_code st =? WL_BULK_STATUS_TIMED_OUT))
  then on_terminal_status s st
  else if status_is_stale s st then (s, WL_BULK_ERR_NOT_FOUND)
  else if negb (st_phase st =? bs_phase s) || negb (status_chunk_size_matches s st)
  then (protocol_failure s, WL_BULK_ERR_PROTOCOL)
  else
    let s := sender_count ss_statuses_received s <| bs_last_status := st_code st |> in
    if st_code st =? WL_BULK_STATUS_BUSY then
      if negb (st_next_offset st =? bs_next_offset s)
      then (protocol_failure s, WL_BULK_ERR_PROTOCOL)
      else (wait_for_retry (sender_count ss_busy_responses s) now_ms (bs_busy_retry_ms s)
              WL_BULK_STATUS_BUSY, WL_BULK_OK)
    else if st_code st =? WL_BULK_STATUS_OUT_OF_ORDER then on_out_of_order s st
    else if negb (st_code st =? WL_BULK_STATUS_OK) then
      (if st_code st =? WL_BULK_STATUS_ABORTED
       then sender_count ss_aborted (s <| bs_state := WL_BULK_SENDER_ABORTED |>)
       else fail_sender s (st_code st), WL_BULK_OK)
    else on_status_ok s st.

(** The step of [wl_bulk_sender_poll] that makes the action available again. *)
Definition retry_action (s : sender) : sender :=
  sender_count ss_retries (s <| bs_retry_count := u16 (bs_retry_count s + 1) |>)
    <| bs_state := WL_BULK_SENDER_READY |> <| bs_retry_wait := false |> <| bs_wait_interval_ms := 0 |>.

Definition wl_bulk_sender_poll (s : sender) (now_ms : Z) : sender * bulk_err :=
  if negb (sender_initialized s) then (s, WL_BULK_ERR_NOT_INITIALIZED)
  else if negb (in_sender_state s WL_BULK_SENDER_WAIT_STATUS) ||
          negb (deadline_elapsed now_ms (bs_wait_started_at s) (bs_wait_interval_ms s))
  then (s, WL_BULK_OK)
  else if bs_retry_wait s then (retry_action s, WL_BULK_OK)
  else
    let s := wait_for_retry s now_ms 0 WL_BULK_STATUS_TIMED_OUT in
    if in_sender_state s WL_BULK_SENDER_FAILED then (s, WL_BULK_OK)
    else (retry_action s, WL_BULK_OK).

Definition wl_bulk_sender_get_deadline_hint (s : sender) (now_ms : Z) : bulk_err + Z :=
  if negb (sender_initialized s) then inl WL_BULK_ERR_NOT_INITIALIZED
  else inr (if in_sender_state s WL_BULK_SENDER_WAIT_STATUS
            then deadline_remaining now_ms (bs_wait_started_at s) (bs_wait_interval_ms s)
            else WL_BULK_NO_DEADLINE_MS).

Definition wl_bulk_sender_get_result (s : sender) : bulk_err + sender_result :=
  if negb (sender_initialized s) then inl WL_BULK_ERR_NOT_INITIALIZED
  else inr (mk_sender_result (bs_state s) (bs_last_status s) (bs_next_offset s) (bs_retry_count s)).

Definition wl_bulk_sender_get_stats (s : sender) : bulk_err + sender_stats :=
  if negb (sender_initialized s) then inl WL_BULK_ERR_NOT_INITIALIZED else inr (bs_stats s).
