(* ===== verification/BulkSending.v ===== *)
(** What the sending end does, whatever the peer answers.

    [sender_inv] is the well-formedness of a sender: every field within its C
    type, the retry counter within its bound, and the shape of the action each
    phase offers.  Every operation preserves it, with statuses the peer may have
    made up.  A peer that stays silent ends the transfer after the configured
    number of attempts. *)
From S2P Require Import Prelude Slots Clock Bulk BulkSender.

Inductive sender_op :=
  | SStart (d : descriptor)
  | SCancel (reason : Z)
  | SReset
  | SPoll (now_ms : Z)
  | SAcquire
  | SDefer (a : action)
  | SSubmitted (a : action) (now_ms : Z)
  | SStatus (st : status) (now_ms : Z).

Definition sender_exec (op : sender_op) (s : sender) : sender * bulk_err :=
  match op with
  | SStart d => wl_bulk_sender_start s d
  | SCancel reason => wl_bulk_sender_request_abort s reason
  | SReset => wl_bulk_sender_reset s
  | SPoll now => wl_bulk_sender_poll s now
  | SAcquire => (wl_bulk_sender_action_acquire s).1
  | SDefer a => wl_bulk_sender_action_defer s a
  | SSubmitted a now => wl_bulk_sender_action_submitted s a now
  | SStatus st now => wl_bulk_sender_on_status s st now
  end.

Definition sender_run (ops : list sender_op) (s : sender) : sender :=
  foldl (λ s op, (sender_exec op s).1) s ops.

Definition sender_op_typed (op : sender_op) : Prop :=
  match op with
  | SStart d => is_u32 (requested_chunk_size d) ∧ is_u64 (total_length d)
  | SStatus st _ => is_u64 (st_next_offset st) ∧ is_u32 (st_accepted_chunk_size st)
  | _ => True
  end.

(** ** Well-formed senders *)

Definition stats_typed (t : sender_stats) : Prop :=
  Forall is_u32 [ss_starts t; ss_actions_submitted t; ss_statuses_received t; ss_retries t;
                 ss_busy_responses t; ss_protocol_errors t; ss_completed t; ss_failed t; ss_aborted t].

(** The action a phase offers. *)
Definition phase_shape (s : sender) : Prop :=
  let total := total_length (bs_descriptor s) in
  bs_phase s = WL_BULK_PHASE_BEGIN ∧ bs_next_offset s = 0 ∧ bs_action_length s = 0 ∨
  bs_phase s = WL_BULK_PHASE_CHUNK ∧ 0 <= bs_next_offset s < total ∧
    0 < bs_negotiated_chunk_size s <= requested_chunk_size (bs_descriptor s) ∧
    bs_action_length s = Z.min (bs_negotiated_chunk_size s) (total - bs_next_offset s) ∨
  bs_phase s = WL_BULK_PHASE_END ∧ bs_next_offset s = total ∧ bs_action_length s = 0 ∨
  bs_phase s = WL_BULK_PHASE_ABORT ∧ bs_action_length s = 0.

Ltac phases :=
  unfold phase_shape, WL_BULK_PHASE_BEGIN, WL_BULK_PHASE_CHUNK, WL_BULK_PHASE_END, WL_BULK_PHASE_ABORT in *.

(** What does not depend on the state. *)
Record sender_base (s : sender) : Prop := {
  si_magic : bs_magic s = WL_BULK_SENDER_MAGIC;
  si_stats : stats_typed (bs_stats s);
  si_total : is_u64 (total_length (bs_descriptor s));
  si_requested : is_u32 (requested_chunk_size (bs_descriptor s));
  si_negotiated : is_u32 (bs_negotiated_chunk_size s);
  si_next : is_u64 (bs_next_offset s);
  si_token : is_u32 (bs_next_token s);
  si_max : is_u16 (bs_max_retries s);
  si_timeout : 0 < bs_status_timeout_ms s < WL_BULK_MAX_INTERVAL;
  si_retries : 0 <= bs_retry_count s <= bs_max_retries s;
  si_retry_wait : bs_retry_wait s = true → bs_retry_count s < bs_max_retries s;
}.

Record sender_inv (s : sender) : Prop := {
  si_base : sender_base s;
  si_acquired : bs_action_acquired s = true →
    bs_state s = WL_BULK_SENDER_READY ∧ bs_acquired_token s = bs_next_token s ∧ 0 < bs_next_token s;
  si_phase : sender_active s = true → phase_shape s;
}.

Lemma counter_increment_u32 c : is_u32 c → is_u32 (counter_increment c).
Proof. unfold is_u32, counter_increment, UINT32_MAX. case_match; lia. Qed.

(** Counting keeps a sender well-formed. *)
Lemma sender_base_stats s t : sender_base s → stats_typed t → sender_base (s <| bs_stats := t |>).
Proof. intros [] ?. by split. Qed.

Class SenderCounter (f : sender_stats → Z) `{!FieldSet f} :=
  counter_typed : ∀ t, stats_typed t → stats_typed (with_field f counter_increment t).

Ltac counter_instance :=
  intros t Ht; unfold stats_typed in *; cbn; rewrite ?Forall_cons in *;
  naive_solver auto using counter_increment_u32.

#[export] Instance counter_starts : SenderCounter ss_starts.
Proof. counter_instance. Qed.
#[export] Instance counter_actions : SenderCounter ss_actions_submitted.
Proof. counter_instance. Qed.
#[export] Instance counter_statuses : SenderCounter ss_statuses_received.
Proof. counter_instance. Qed.
#[export] Instance counter_retries : SenderCounter ss_retries.
Proof. counter_instance. Qed.
#[export] Instance counter_busy : SenderCounter ss_busy_responses.
Proof. counter_instance. Qed.
#[export] Instance counter_protocol : SenderCounter ss_protocol_errors.
Proof. counter_instance. Qed.
#[export] Instance counter_completed : SenderCounter ss_completed.
Proof. counter_instance. Qed.
#[export] Instance counter_failed : SenderCounter ss_failed.
Proof. counter_instance. Qed.
#[export] Instance counter_aborted : SenderCounter ss_aborted.
Proof. counter_instance. Qed.

Lemma sender_base_count f `{!FieldSet f, !SenderCounter f} s : sender_base s → sender_base (sender_count f s).
Proof. intros Hs. apply sender_base_stats; [done|]. by apply counter_typed, Hs. Qed.

Lemma sender_inv_count f `{!FieldSet f, !SenderCounter f} s : sender_inv s → sender_inv (sender_count f s).
Proof. intros [? ? ?]. split; [by apply sender_base_count|done..]. Qed.

Lemma in_sender_state_true s x : in_sender_state s x = true ↔ bs_state s = x.
Proof. unfold in_sender_state. by rewrite bool_decide_eq_true. Qed.

Lemma in_sender_state_false s x : in_sender_state s x = false ↔ bs_state s ≠ x.
Proof. unfold in_sender_state. by rewrite bool_decide_eq_false. Qed.

#[export] Hint Rewrite in_sender_state_true in_sender_state_false : branch.

Lemma sender_inactive s :
  bs_state s ≠ WL_BULK_SENDER_READY → bs_state s ≠ WL_BULK_SENDER_WAIT_STATUS → sender_active s = false.
Proof. intros. unfold sender_active. autorewrite with branch. auto. Qed.

(** A sender whose transfer is over. *)
Lemma sender_inv_over s :
  sender_base s → bs_action_acquired s = false →
  bs_state s ≠ WL_BULK_SENDER_READY → bs_state s ≠ WL_BULK_SENDER_WAIT_STATUS → sender_inv s.
Proof. intros Hb Ha H1 H2. split; [done|congruence|]. by rewrite sender_inactive. Qed.

Lemma sender_inv_fail s code : sender_base s → sender_inv (fail_sender s code).
Proof.
  intros Hb. apply sender_inv_count; [apply _|]. apply sender_inv_over; [|done..]. by destruct Hb.
Qed.

Lemma sender_inv_protocol s : sender_base s → sender_inv (protocol_failure s).
Proof. intros Hs. apply sender_inv_fail. by apply sender_base_count; [apply _|]. Qed.

(** A phase that is prepared has its shape. *)
Lemma sender_inv_prepare s phase :
  sender_base s →
  phase = WL_BULK_PHASE_BEGIN ∧ bs_next_offset s = 0 ∨
  phase = WL_BULK_PHASE_CHUNK ∧ bs_next_offset s < total_length (bs_descriptor s) ∧
    0 < bs_negotiated_chunk_size s <= requested_chunk_size (bs_descriptor s) ∨
  phase = WL_BULK_PHASE_END ∧ bs_next_offset s = total_length (bs_descriptor s) ∨
  phase = WL_BULK_PHASE_ABORT →
  sender_inv (prepare_phase s phase).
Proof.
  intros [] Hp. unfold prepare_phase, set_action_length.
  destruct (_ || _) eqn:E; autorewrite with branch in E; cbn in E;
    (split; cbn; [by split; cbn; try lia|done|]); intros _; unfold phase_shape; cbn; unfold is_u64 in *.
  - naive_solver lia.
  - right; left. destruct E as [E1 E2].
    destruct Hp as [[-> _]|[[-> Hp]|[[-> _]| ->]]]; try done. split; [done|].
    split; [lia|]. split; [lia|]. case_match; lia.
Qed.

(** ** Every operation preserves well-formedness *)

Lemma phase_after_offset_inv s :
  sender_base s → bs_next_offset s <= total_length (bs_descriptor s) →
  0 < bs_negotiated_chunk_size s <= requested_chunk_size (bs_descriptor s) →
  sender_inv (prepare_phase s (phase_after_offset s)).
Proof.
  intros Hs Ho Hn. apply sender_inv_prepare; [done|]. unfold phase_after_offset.
  destruct (_ =? _) eqn:E; lia.
Qed.

Lemma proposed_chunk_size_spec s size :
  is_u32 size → proposed_chunk_size_valid s size = true →
  0 < size <= requested_chunk_size (bs_descriptor s).
Proof. unfold is_u32, proposed_chunk_size_valid. lia. Qed.

Section hostile.
Context (s : sender) (Hs : sender_inv s).

Lemma start_inv d : sender_op_typed (SStart d) → sender_inv (wl_bulk_sender_start s d).1.
Proof.
  intros [? ?]. unfold wl_bulk_sender_start. repeat case_match; try done. apply sender_inv_count; [apply _|].
  apply sender_inv_prepare; [|by left]. destruct Hs as [[] _ _]. by split.
Qed.

Lemma cancel_inv reason : sender_inv (wl_bulk_sender_request_abort s reason).1.
Proof.
  unfold wl_bulk_sender_request_abort. repeat case_match; try done.
  apply sender_inv_prepare; [|auto]. by destruct Hs as [[] _ _]; split.
Qed.

Lemma reset_inv : sender_inv (wl_bulk_sender_reset s).1.
Proof.
  unfold wl_bulk_sender_reset. repeat case_match; try done.
  apply sender_inv_over; [|done..].
  destruct Hs as [[] _ _]; split; cbn; try done; unfold is_u16, is_u32, is_u64 in *; lia.
Qed.

Lemma bulk_next_token_u32 t : is_u32 (bulk_next_token t) ∧ 0 < bulk_next_token t.
Proof using.
  unfold bulk_next_token, is_u32, u32. pose proof (Z.mod_pos_bound (t + 1) (2 ^ 32) ltac:(lia)).
  case_match; [|lia]. replace ((t + 1) mod 2 ^ 32) with 0 by lia. rewrite Z.mod_small; lia.
Qed.

Lemma acquire_inv : sender_inv (sender_exec SAcquire s).1.
Proof.
  cbn. unfold wl_bulk_sender_action_acquire. repeat case_match; try done; cbn.
  destruct (bulk_next_token_u32 (bs_next_token s)). destruct Hs as [[] ? ?]; split; cbn; [by split| |done].
  intros _. autorewrite with branch in *. done.
Qed.

Lemma defer_inv a : sender_inv (wl_bulk_sender_action_defer s a).1.
Proof.
  unfold wl_bulk_sender_action_defer. repeat case_match; try done. destruct Hs as [[] ? ?].
  split; [by split|done..].
Qed.

Lemma submitted_inv a now : sender_inv (wl_bulk_sender_action_submitted s a now).1.
Proof.
  unfold wl_bulk_sender_action_submitted. repeat case_match; try done. apply sender_inv_count; [apply _|].
  destruct Hs as [[] ? Hp]; split; cbn; [by split|done|]. intros _. apply Hp. unfold sender_active.
  autorewrite with branch in *. naive_solver.
Qed.

(** While it waits for a status no action is acquired. *)
Lemma waiting_free : bs_state s = WL_BULK_SENDER_WAIT_STATUS → bs_action_acquired s = false.
Proof.
  intros Hw. destruct (bs_action_acquired s) eqn:Ea; [|done].
  destruct (si_acquired s Hs Ea) as [? _]. congruence.
Qed.

Lemma waiting_shape : bs_state s = WL_BULK_SENDER_WAIT_STATUS → phase_shape s.
Proof. intros Hw. apply Hs. unfold sender_active. autorewrite with branch. auto. Qed.
End hostile.

Lemma sender_inv_retry s :
  sender_inv s → bs_state s = WL_BULK_SENDER_WAIT_STATUS → bs_retry_count s < bs_max_retries s →
  sender_inv (retry_action s).
Proof.
  intros Hs Hw Hr. pose proof (waiting_free s Hs Hw) as Hf. pose proof (waiting_shape s Hs Hw) as Hp.
  assert (u16 (bs_retry_count s + 1) = bs_retry_count s + 1) as E.
  { destruct Hs as [[] _ _]. unfold u16, is_u16 in *. apply Z.mod_small. lia. }
  unfold retry_action. rewrite E.
  pose proof (sender_base_count ss_retries s (si_base s Hs)) as []. unfold sender_count in *.
  split; cbn in *; [split; cbn; try done; lia|congruence|done].
Qed.

Lemma sender_base_waiting s now delay :
  sender_base s → bs_retry_count s < bs_max_retries s →
  sender_base (s <| bs_wait_started_at := now |> <| bs_wait_interval_ms := delay |> <| bs_retry_wait := true |>).
Proof. intros [] ?. by split. Qed.

Lemma sender_inv_wait s now delay code : sender_inv s → sender_inv (wait_for_retry s now delay code).
Proof.
  intros Hs. unfold wait_for_retry. case_match; [by apply sender_inv_fail, Hs|].
  destruct Hs; split; cbn; [apply sender_base_waiting; [done|lia]|done..].
Qed.

Lemma sender_poll_inv s now : sender_inv s → sender_inv (wl_bulk_sender_poll s now).1.
Proof.
  intros Hs. unfold wl_bulk_sender_poll. case_match; [done|]. destruct (_ || _) eqn:Eg; [done|].
  autorewrite with branch in Eg. destruct Eg as [Hw _].
  destruct (bs_retry_wait s) eqn:Er; cbn.
  { apply sender_inv_retry; [done..|]. by apply Hs. }
  pose proof (sender_inv_wait s now 0 WL_BULK_STATUS_TIMED_OUT Hs) as Hwt.
  destruct (in_sender_state _ _) eqn:Ef; autorewrite with branch in Ef; cbn; [done|].
  unfold wait_for_retry in *. destruct (bs_max_retries s <=? bs_retry_count s) eqn:Em; [done|].
  apply sender_inv_retry; cbn; [done|done|lia].
Qed.

(** A status that arrived and is recorded. *)
Definition noted (s : sender) (st : status) : sender :=
  sender_count ss_statuses_received s <| bs_last_status := st_code st |>.

Section statuses.
Context (s : sender) (st : status).
Hypotheses (Hs : sender_inv s) (Hw : bs_state s = WL_BULK_SENDER_WAIT_STATUS).
Hypotheses (Hst : is_u64 (st_next_offset st)) (Hck : is_u32 (st_accepted_chunk_size st)).

Lemma terminal_status_inv : sender_inv (on_terminal_status s st).1.
Proof using Hs Hw Hst.
  pose proof (waiting_free s Hs Hw) as Hf. pose proof (sender_base_count ss_statuses_received s (si_base s Hs)) as Hc.
  unfold on_terminal_status. case_match; [by apply sender_inv_protocol, Hs|]. cbn.
  case_match; [apply sender_inv_count; [apply _|]; apply sender_inv_over; [|done..]|apply sender_inv_fail];
    destruct Hc; by split.
Qed.

Lemma out_of_order_inv : sender_inv (on_out_of_order s st).1.
Proof using Hs Hw Hst Hck.
  unfold on_out_of_order. destruct (_ || _) eqn:E; [by apply sender_inv_protocol, Hs|].
  autorewrite with branch in E. destruct E as [[[Ho Hb] Hc] Hph].
  pose proof (waiting_shape s Hs Hw) as Hsh. destruct Hs as [[] _ _]. cbn.
  apply phase_after_offset_inv; destruct (bs_phase s =? WL_BULK_PHASE_BEGIN) eqn:Ep; try done; try (by split).
  - cbn. destruct Hb as [Hb|Hb]; [lia|]. by apply proposed_chunk_size_spec.
  - cbn. phases. lia.
Qed.

Lemma status_ok_inv : sender_inv (on_status_ok s st).1.
Proof using Hs Hw Hst Hck.
  pose proof (waiting_free s Hs Hw) as Hf. pose proof (waiting_shape s Hs Hw) as Hsh.
  pose proof (si_base s Hs) as Hb. unfold on_status_ok.
  destruct (bs_phase s =? WL_BULK_PHASE_BEGIN) eqn:E1.
  { destruct (_ || _) eqn:E; [by apply sender_inv_protocol|]. autorewrite with branch in E. destruct E as [E ?].
    apply phase_after_offset_inv; [by destruct Hb; split|done|]. by apply proposed_chunk_size_spec. }
  destruct (bs_phase s =? WL_BULK_PHASE_CHUNK) eqn:E2.
  { destruct (_ || _) eqn:E; [by apply sender_inv_protocol|]. autorewrite with branch in E. destruct E as [E ?].
    apply phase_after_offset_inv; [by destruct Hb; split|done|]. cbn. phases. lia. }
  destruct (bs_phase s =? WL_BULK_PHASE_END) eqn:E3.
  { case_match; [by apply sender_inv_protocol|]. apply sender_inv_count; [apply _|].
    apply sender_inv_over; [|done..]. by destruct Hb; split. }
  case_match; [|by apply sender_inv_protocol]. apply sender_inv_count; [apply _|].
  apply sender_inv_over; [|done..]. by destruct Hb; split.
Qed.
End statuses.

Lemma noted_inv s st : sender_inv s → sender_inv (noted s st).
Proof. intros Hs. pose proof (sender_inv_count ss_statuses_received s Hs) as [[] ? ?]. split; [by split|done..]. Qed.

Lemma status_inv s st now :
  sender_op_typed (SStatus st now) → sender_inv s → sender_inv (wl_bulk_sender_on_status s st now).1.
Proof.
  intros [Ho Hc] Hs. unfold wl_bulk_sender_on_status. do 3 (case_match; [done|]).
  case_match eqn:Ew; [done|]. autorewrite with branch in Ew. destruct Ew as [Hw _].
  case_match; [by apply terminal_status_inv|]. case_match; [done|].
  case_match; [by apply sender_inv_protocol, Hs|]. pose proof (noted_inv s st Hs) as Hn. fold (noted s st).
  assert (bs_state (noted s st) = WL_BULK_SENDER_WAIT_STATUS) as Hnw by done.
  revert Hn Hnw. generalize (noted s st). clear Hs Hw. intros s' Hs Hw.
  case_match.
  { case_match; [by apply sender_inv_protocol, Hs|]. cbn. by apply sender_inv_wait, sender_inv_count; [apply _|]. }
  case_match; [by apply out_of_order_inv|]. case_match; [|by apply status_ok_inv]. cbn.
  case_match; [|by apply sender_inv_fail, Hs]. apply sender_inv_count; [apply _|].
  pose proof (waiting_free s' Hs Hw). apply sender_inv_over; [|done..]. by destruct Hs as [[] _ _]; split.
Qed.

Lemma sender_exec_inv op s : sender_op_typed op → sender_inv s → sender_inv (sender_exec op s).1.
Proof.
  intros Ht Hs. destruct op; cbn [sender_exec];
    auto using start_inv, cancel_inv, reset_inv, sender_poll_inv, defer_inv, submitted_inv, status_inv.
  by apply acquire_inv.
Qed.

(** ** Reachable senders *)

Definition sender_config_typed (cfg : sender_config) : Prop :=
  is_u32 (sc_status_timeout_ms cfg) ∧ is_u32 (sc_busy_retry_ms cfg) ∧ is_u16 (sc_max_retries cfg).

Lemma sender_init_inv s0 cfg s :
  sender_config_typed cfg → wl_bulk_sender_init s0 cfg = (s, WL_BULK_OK) → sender_inv s.
Proof.
  intros (Ht & Hb & Hm) H. unfold wl_bulk_sender_init in H. branch_case H; [done|]. injection H as <-.
  destruct E as [E _]. unfold delay_valid in E. apply sender_inv_over; [|done..].
  split; cbn; unfold is_u16, is_u32, is_u64 in *; try done; try lia.
  repeat constructor; unfold is_u32; cbn; lia.
Qed.

Lemma sender_run_inv ops s : Forall sender_op_typed ops → sender_inv s → sender_inv (sender_run ops s).
Proof.
  intros Ht. revert s. induction Ht as [|op ops Hop _ IH]; intros s Hs; cbn; [done|].
  by apply IH, sender_exec_inv.
Qed.

(** An action that reads from its object. *)
Definition action_in_range (a : action) : Prop :=
  ac_phase a = WL_BULK_PHASE_CHUNK →
  0 <= ac_offset a ∧ 0 < ac_length a <= requested_chunk_size (ac_descriptor a) ∧
  ac_offset a + ac_length a <= total_length (ac_descriptor a).

Lemma acquire_in_range s s' a :
  sender_inv s → wl_bulk_sender_action_acquire s = (s', WL_BULK_OK, a) → action_in_range a.
Proof.
  intros Hs H. unfold wl_bulk_sender_action_acquire in H. repeat (branch_case H; [done|]).
  injection H as <- <-. intros Hp. cbn in *.
  assert (phase_shape s) as Hsh. { apply Hs. unfold sender_active. autorewrite with branch. auto. }
  phases. lia.
Qed.

Definition demo_sender_config : sender_config := mk_sender_config 100 20 2.

Definition demo_sender : sender := (wl_bulk_sender_init sender_zero demo_sender_config).1.

Definition demo_sender_ops : list sender_op :=
  [SStart (mk_descriptor 7 10 8 0); SAcquire; SSubmitted (mk_action 1 (mk_descriptor 7 10 8 0) 0 0 0 1) 5;
   SStatus (mk_status 7 1 0 4 8) 6].

Lemma demo_sender_ops_typed : Forall sender_op_typed demo_sender_ops.
Proof. repeat (constructor; [first [done | unfold sender_op_typed, is_u64, is_u32; cbn; lia]|]). constructor. Qed.

(** In every state an initialized sender reaches, whatever statuses
    the peer makes up, each field is within its C type, the retry counter is within
    its bound, and a chunk the sender asks for is not empty, no larger than the
    requested chunk size and inside the object. *)
Theorem bulk_sender_well_formed s0 cfg ops s :
  sender_config_typed cfg → wl_bulk_sender_init s0 cfg = (s, WL_BULK_OK) → Forall sender_op_typed ops →
  sender_inv (sender_run ops s) ∧
  ∀ s' a, wl_bulk_sender_action_acquire (sender_run ops s) = (s', WL_BULK_OK, a) → action_in_range a.
Proof.
  intros Hc Hi Ht. assert (sender_inv (sender_run ops s)) as Hs.
  { apply sender_run_inv; [done|]. by eapply sender_init_inv. }
  split; [done|]. intros s' a. by apply acquire_in_range.
Qed.

Lemma bulk_sender_well_formed_witness :
  let a := mk_action 2 (mk_descriptor 7 10 8 0) 4 6 0 2 in
  (wl_bulk_sender_action_acquire (sender_run demo_sender_ops demo_sender)).2 = a ∧ action_in_range a.
Proof.
  split; [reflexivity|].
  refine (proj2 (bulk_sender_well_formed sender_zero demo_sender_config demo_sender_ops demo_sender
                   _ eq_refl demo_sender_ops_typed) _ _ _); [|vm_compute; reflexivity].
  unfold sender_config_typed, is_u32, is_u16. cbn. lia.
Defined.

(** ** A silent peer *)

(** One attempt: the action is acquired and submitted, and no status arrives
    before the timeout. *)
Definition silent_attempt (s : sender) (now : Z) : sender :=
  let '(s, _, a) := wl_bulk_sender_action_acquire s in
  let '(s, _) := wl_bulk_sender_action_submitted s a now in
  (wl_bulk_sender_poll s (u32 (now + bs_status_timeout_ms s))).1.

Lemma silent_elapsed now t : 0 < t < WL_BULK_MAX_INTERVAL → deadline_elapsed (u32 (now + t)) now t = true.
Proof.
  unfold deadline_elapsed, WL_BULK_MAX_INTERVAL, u32. intros H. rewrite Zminus_mod_idemp_l.
  replace (now + t - now) with t by lia. rewrite Z.mod_small; lia.
Qed.

Lemma action_matches_own s token :
  action_matches s (mk_action (bs_phase s) (bs_descriptor s) (bs_next_offset s) (bs_action_length s)
                      (bs_abort_reason s) token) = true.
Proof.
  unfold action_matches. cbn. rewrite !Z.eqb_refl. cbn.
  by rewrite (proj2 (descriptor_equal_spec _ _) eq_refl).
Qed.

(** A ready sender hands out its action and accepts it as submitted. *)
Lemma ready_acquire s :
  sender_inv s → bs_state s = WL_BULK_SENDER_READY → bs_action_acquired s = false →
  ∃ s1 a, wl_bulk_sender_action_acquire s = (s1, WL_BULK_OK, a) ∧
  a = mk_action (bs_phase s) (bs_descriptor s) (bs_next_offset s) (bs_action_length s)
        (bs_abort_reason s) (ac_token a) ∧
  ∀ now, ∃ s2, wl_bulk_sender_action_submitted s1 a now = (s2, WL_BULK_OK) ∧
    s2 = s <| bs_stats := bs_stats s2 |> <| bs_next_token := bs_next_token s2 |>
           <| bs_action_acquired := false |> <| bs_acquired_token := 0 |>
           <| bs_state := WL_BULK_SENDER_WAIT_STATUS |> <| bs_wait_started_at := now |>
           <| bs_wait_interval_ms := bs_status_timeout_ms s |> <| bs_retry_wait := false |> ∧
    stats_typed (bs_stats s2).
Proof.
  intros Hs Hr Ha. pose proof (si_magic s (si_base s Hs)) as Hm.
  unfold wl_bulk_sender_action_acquire, sender_initialized, in_sender_state. rewrite Hm, Hr, Ha. cbn.
  eexists _, _. split; [reflexivity|]. split; [done|]. intros now.
  unfold wl_bulk_sender_action_submitted, sender_initialized, in_sender_state. cbn. rewrite Hm, Hr, !Z.eqb_refl. cbn.
  set (s1 := fs_bs_action_acquired _ _).
  pose proof (action_matches_own s1 (bs_next_token s1)) as Hmt. cbn in Hmt. unfold s1 in *; cbn in *. rewrite Hmt. cbn.
  eexists. split; [reflexivity|]. split; [done|]. cbn. apply (counter_typed (f := ss_actions_submitted)), Hs.
Qed.

Lemma silent_attempt_spec s now :
  sender_inv s → bs_state s = WL_BULK_SENDER_READY → bs_action_acquired s = false →
  let s' := silent_attempt s now in
  bs_max_retries s' = bs_max_retries s ∧ sender_inv s' ∧
  if bs_retry_count s <? bs_max_retries s then
    bs_state s' = WL_BULK_SENDER_READY ∧ bs_action_acquired s' = false ∧
    bs_retry_count s' = bs_retry_count s + 1
  else bs_state s' = WL_BULK_SENDER_FAILED ∧ bs_last_status s' = WL_BULK_STATUS_TIMED_OUT.
Proof.
  intros Hs Hr Ha. cbn. unfold silent_attempt.
  pose proof (acquire_inv s Hs) as Hs1. cbn in Hs1.
  destruct (ready_acquire s Hs Hr Ha) as (s1 & a & E1 & _ & Hsub). rewrite E1 in *.
  destruct (Hsub now) as (s2 & E2 & Es2 & _). pose proof (submitted_inv s1 Hs1 a now) as Hs2. rewrite E2 in *. cbn in Hs2.
  clear E1 E2 Hsub Hs1. pose proof (sender_poll_inv s2 (u32 (now + bs_status_timeout_ms s2)) Hs2) as Hs3. cbn.
  assert (0 <= bs_retry_count s <= bs_max_retries s ∧ is_u16 (bs_max_retries s)) as [Hb Hm]
    by (split; apply Hs).
  pose proof (silent_elapsed now _ (si_timeout s (si_base s Hs))) as He.
  revert Hs3. unfold wl_bulk_sender_poll, sender_initialized. rewrite (si_magic s2 (si_base s2 Hs2)).
  clear Hs2. rewrite Es2. cbn. rewrite He. cbn. unfold wait_for_retry. cbn.
  destruct (bs_max_retries s <=? bs_retry_count s) eqn:Em; cbn; intros Hs3.
  - split; [done|]. split; [done|]. by rewrite (proj2 (Z.ltb_ge _ _)) by lia.
  - rewrite (proj2 (Z.ltb_lt _ _)) by lia. split; [done|]. split; [done|]. split; [done|]. split; [done|].
    unfold in_sender_state, retry_action; cbn. unfold u16, is_u16 in *. rewrite Z.mod_small; [done|lia].
Qed.

(** A sender whose peer never answers gives up: it offers its
    action exactly once more than the configured number of retries, staying ready
    between the attempts, and then fails with the status "timed out". *)
Theorem bulk_silent_peer s nows :
  sender_inv s → bs_state s = WL_BULK_SENDER_READY → bs_action_acquired s = false →
  Z.of_nat (length nows) = bs_max_retries s - bs_retry_count s + 1 →
  (∀ k, (k < length nows)%nat → bs_state (foldl silent_attempt s (take k nows)) = WL_BULK_SENDER_READY) ∧
  bs_state (foldl silent_attempt s nows) = WL_BULK_SENDER_FAILED ∧
  bs_last_status (foldl silent_attempt s nows) = WL_BULK_STATUS_TIMED_OUT.
Proof.
  revert s. induction nows as [|now nows IH]; intros s Hs Hr Ha Hl.
  { pose proof (si_retries s (si_base s Hs)). cbn in Hl. lia. }
  cbn [foldl]. destruct (silent_attempt_spec s now Hs Hr Ha) as (Em & Hs1 & H).
  destruct (bs_retry_count s <? bs_max_retries s) eqn:Ec.
  - destruct H as (Hr1 & Ha1 & Ec1). destruct (IH (silent_attempt s now)) as [Hk Hend]; [done..|cbn in Hl; lia|].
    split; [|done]. intros [|k] Hlt; [done|]. apply Hk. cbn in Hlt. lia.
  - pose proof (si_retries s (si_base s Hs)). destruct nows; [|cbn in Hl; lia]. split; [|done].
    intros [|k] Hlt; [done|]. cbn in Hlt. lia.
Qed.

Lemma bulk_silent_peer_witness :
  let s := sender_run [SStart (mk_descriptor 7 10 8 0)] demo_sender in
  bs_state (foldl silent_attempt s [10; 200; 4294967290]) = WL_BULK_SENDER_FAILED.
Proof.
  refine (proj1 (proj2 (bulk_silent_peer (sender_run [SStart (mk_descriptor 7 10 8 0)] demo_sender)
                          [10; 200; 4294967290] _ eq_refl eq_refl eq_refl))).
  apply sender_run_inv.
  - constructor; [unfold sender_op_typed, is_u64, is_u32; cbn; lia|constructor].
  - apply (sender_init_inv sender_zero demo_sender_config); [|reflexivity].
    unfold sender_config_typed, is_u32, is_u16. cbn. lia.
Defined.

(** ** What completes a transfer *)

Lemma prepare_phase_frame s phase :
  bs_descriptor (prepare_phase s phase) = bs_descriptor s ∧
  bs_state (prepare_phase s phase) = WL_BULK_SENDER_READY.
Proof. unfold prepare_phase, set_action_length. by case_match. Qed.

Lemma sender_count_frame f `{!FieldSet f} s :
  bs_descriptor (sender_count f s) = bs_descriptor s ∧ bs_state (sender_count f s) = bs_state s.
Proof. by split. Qed.

(** The status that ends a transfer well. *)
Definition completes (s : sender) (st : status) : Prop :=
  st_transfer_id st = transfer_id (bs_descriptor s) ∧ st_phase st = WL_BULK_PHASE_END ∧
  st_code st = WL_BULK_STATUS_OK.

(** Everything but a start or a reset keeps the descriptor, and only a status
    for the end of this transfer completes it. *)
Definition sender_frame (op : sender_op) (s s' : sender) : Prop :=
  bs_descriptor s' = bs_descriptor s ∧
  (bs_state s' = WL_BULK_SENDER_COMPLETED →
   bs_state s = WL_BULK_SENDER_COMPLETED ∨ ∃ st now, op = SStatus st now ∧ completes s st) ∧
  (bs_state s = WL_BULK_SENDER_IDLE → bs_state s' = WL_BULK_SENDER_IDLE).

Lemma sender_frame_refl op s : sender_frame op s s.
Proof. split; auto. Qed.

Lemma status_ok_frame s st s' e :
  on_status_ok s st = (s', e) →
  bs_descriptor s' = bs_descriptor s ∧
  (bs_state s' = WL_BULK_SENDER_COMPLETED → bs_phase s = WL_BULK_PHASE_END).
Proof.
  unfold on_status_ok. intros H. repeat branch_case H; injection H as <- <-; try done;
    (split; [by rewrite ?(proj1 (prepare_phase_frame _ _))|]);
    rewrite ?(proj2 (prepare_phase_frame _ _)); done.
Qed.

Lemma out_of_order_frame s st s' e :
  on_out_of_order s st = (s', e) →
  bs_descriptor s' = bs_descriptor s ∧ bs_state s' ≠ WL_BULK_SENDER_COMPLETED.
Proof.
  unfold on_out_of_order. intros H. branch_case H; injection H as <- <-; [done|].
  rewrite (proj1 (prepare_phase_frame _ _)), (proj2 (prepare_phase_frame _ _)). by case_match.
Qed.

(** A step of a transfer under way. *)
Lemma sender_frame_busy op s s' :
  bs_state s ≠ WL_BULK_SENDER_IDLE → bs_descriptor s' = bs_descriptor s →
  (bs_state s' = WL_BULK_SENDER_COMPLETED → ∃ st now, op = SStatus st now ∧ completes s st) →
  sender_frame op s s'.
Proof. intros. split; [done|]. split; [auto|done]. Qed.

Lemma status_frame s st now : sender_frame (SStatus st now) s (wl_bulk_sender_on_status s st now).1.
Proof.
  destruct (wl_bulk_sender_on_status s st now) as [s' e] eqn:H. cbn. unfold wl_bulk_sender_on_status in H.
  do 4 (branch_case H; [injection H as <- <-; apply sender_frame_refl|]).
  destruct E2 as [Ew _]. assert (bs_state s ≠ WL_BULK_SENDER_IDLE) as Hb by congruence.
  branch_case H.
  { unfold on_terminal_status in H. by repeat branch_case H; injection H as <- <-; apply sender_frame_busy. }
  branch_case H; [injection H as <- <-; apply sender_frame_refl|].
  branch_case H; [injection H as <- <-; by apply sender_frame_busy|].
  destruct E4 as [Ep _]. branch_case H.
  { branch_case H; injection H as <- <-; [by apply sender_frame_busy|]. unfold wait_for_retry. cbn.
    case_match; [by apply sender_frame_busy|]. apply sender_frame_busy; [done..|]. cbn. congruence. }
  branch_case H; [apply out_of_order_frame in H as [? ?]; by apply sender_frame_busy|].
  branch_case H; [|apply status_ok_frame in H as [? Hc]; apply sender_frame_busy; [done..|]].
  { injection H as <- <-. by case_match; apply sender_frame_busy. }
  intros Hs. exists st, now. split; [done|]. split; [done|]. cbn in Hc.
  split; [rewrite Ep; auto|done].
Qed.

Lemma sender_exec_frame op s :
  match op with SStart _ | SReset => True | _ => sender_frame op s (sender_exec op s).1 end.
Proof.
  destruct op as [d|reason| |now| |a|a now|st now]; cbn [sender_exec]; try done.
  - unfold wl_bulk_sender_request_abort. repeat case_match; try apply sender_frame_refl. cbn [fst].
    apply sender_frame_busy; [|by rewrite (proj1 (prepare_phase_frame _ _))|
      by rewrite (proj2 (prepare_phase_frame _ _))].
    intros Hi. unfold sender_active in *. autorewrite with branch in *. intuition congruence.
  - unfold wl_bulk_sender_poll, wait_for_retry. repeat case_match; cbn [fst];
      try apply sender_frame_refl; autorewrite with branch in *;
      apply sender_frame_busy; cbn; try done; intuition congruence.
  - unfold wl_bulk_sender_action_acquire. repeat case_match; cbn [fst]; try apply sender_frame_refl.
    autorewrite with branch in *. apply sender_frame_busy; cbn; congruence.
  - unfold wl_bulk_sender_action_defer. repeat case_match; cbn [fst]; try apply sender_frame_refl.
    autorewrite with branch in *. apply sender_frame_busy; cbn; intuition congruence.
  - unfold wl_bulk_sender_action_submitted. repeat case_match; cbn [fst]; try apply sender_frame_refl.
    autorewrite with branch in *. apply sender_frame_busy; cbn; intuition congruence.
  - apply status_frame.
Qed.

(** A start takes the descriptor it was given or is refused; a reset forgets
    it. *)
Lemma sender_start_frame s d s' e :
  wl_bulk_sender_start s d = (s', e) →
  s' = s ∨ bs_descriptor s' = d ∧ bs_state s' = WL_BULK_SENDER_READY.
Proof.
  unfold wl_bulk_sender_start. intros H. repeat (branch_case H; [injection H as <- <-; by left|]).
  injection H as <- <-. right.
  match goal with |- context [prepare_phase ?x _] =>
    assert (bs_descriptor x = d) as Hd by done; revert Hd; generalize x end.
  intros s1 Hd. destruct (prepare_phase_frame s1 WL_BULK_PHASE_BEGIN) as [Ed Es].
  destruct (sender_count_frame ss_starts (prepare_phase s1 WL_BULK_PHASE_BEGIN)) as [Ec Et].
  rewrite Ec, Et, Ed, Es. by split.
Qed.

Lemma sender_reset_frame s s' e :
  wl_bulk_sender_reset s = (s', e) → s' = s ∨ bs_state s' = WL_BULK_SENDER_IDLE.
Proof.
  unfold wl_bulk_sender_reset. intros H. repeat (branch_case H; [injection H as <- <-; by left|]).
  injection H as <- <-. by right.
Qed.
