(* ===== verification/BulkReceiver.v ===== *)
(** The receiving end of a bulk transfer, [src/bulk_receiver.c].

    The engine checks Begin, Chunk, End and Abort messages against the transfer
    it serves, drives the application's sink, and keeps one status for the peer.
    The sink is code of the application: it is the class [BulkSink], four
    functions over a state of their own, and every operation that may call it
    passes that state along. *)
From S2P Require Import Prelude Slots Clock Bulk.

Definition WL_BULK_RECEIVER_MAGIC : Z := 0x42554c52.

Inductive receiver_state :=
  | WL_BULK_RECEIVER_IDLE
  | WL_BULK_RECEIVER_RECEIVING
  | WL_BULK_RECEIVER_COMPLETED
  | WL_BULK_RECEIVER_FAILED
  | WL_BULK_RECEIVER_ABORTED.

#[export] Instance receiver_state_eq_dec : EqDecision receiver_state.
Proof. solve_decision. Defined.

(** [wl_bulk_sink_result_t] *)
Definition WL_BULK_SINK_OK : Z := 0.
Definition WL_BULK_SINK_BUSY : Z := 1.
Definition WL_BULK_SINK_WRITE_FAILED : Z := 2.
Definition WL_BULK_SINK_INTEGRITY_FAILED : Z := 3.
Definition WL_BULK_SINK_INVALID : Z := 4.

(** [wl_bulk_sink_t]: the callbacks over the state behind [user_data].  A begin
    also returns the resume offset it stored; a write is given the bytes it may
    read. *)
Class BulkSink (W : Type) := {
  sink_begin : W → descriptor → W * Z * Z;
  sink_write : W → Z → Z → list Z → W * Z;
  sink_finish : W → descriptor → W * Z;
  sink_abort : W → Z → Z → W;
}.

(** [wl_bulk_receiver_config_t]; of the four callbacks it holds whether each is
    present. *)
Record receiver_config := mk_receiver_config {
  rc_max_object_length : Z;
  rc_max_chunk_size : Z;
  rc_write_alignment : Z;
  rc_idle_timeout_ms : Z;
  rc_has_begin : bool;
  rc_has_write : bool;
  rc_has_finish : bool;
  rc_has_abort : bool;
}.

Definition receiver_config_zero : receiver_config :=
  mk_receiver_config 0 0 0 0 false false false false.

(** [wl_bulk_receiver_stats_t] *)
Record receiver_stats := mk_receiver_stats {
  rs_begins : Z;
  rs_chunks : Z;
  rs_bytes_written : Z;
  rs_duplicate_messages : Z;
  rs_busy_responses : Z;
  rs_protocol_errors : Z;
  rs_write_failures : Z;
  rs_integrity_failures : Z;
  rs_aborts : Z;
  rs_timeouts : Z;
}.

#[export] Instance rebuild_receiver_stats : Rebuild receiver_stats := λ t,
  mk_receiver_stats (rs_begins t) (rs_chunks t) (rs_bytes_written t) (rs_duplicate_messages t)
    (rs_busy_responses t) (rs_protocol_errors t) (rs_write_failures t)
    (rs_integrity_failures t) (rs_aborts t) (rs_timeouts t).
#[export] Instance fs_rs_begins : FieldSet rs_begins := _.
#[export] Instance fs_rs_chunks : FieldSet rs_chunks := _.
#[export] Instance fs_rs_bytes_written : FieldSet rs_bytes_written := _.
#[export] Instance fs_rs_duplicate_messages : FieldSet rs_duplicate_messages := _.
#[export] Instance fs_rs_busy_responses : FieldSet rs_busy_responses := _.
#[export] Instance fs_rs_protocol_errors : FieldSet rs_protocol_errors := _.
#[export] Instance fs_rs_write_failures : FieldSet rs_write_failures := _.
#[export] Instance fs_rs_integrity_failures : FieldSet rs_integrity_failures := _.
#[export] Instance fs_rs_aborts : FieldSet rs_aborts := _.
#[export] Instance fs_rs_timeouts : FieldSet rs_timeouts := _.

(** [wl_bulk_receiver_impl_t] *)
Record receiver := mk_receiver {
  br_config : receiver_config;
  br_descriptor : descriptor;
  br_pending_status : status;
  br_stats : receiver_stats;
  br_next_offset : Z;
  br_last_activity_ms : Z;
  br_status_token : Z;
  br_accepted_chunk_size : Z;
  br_magic : Z;
  br_state : receiver_state;
  br_terminal_code : Z;
  br_terminal_phase : Z;
  br_status_pending : bool;
  br_status_acquired : bool;
  br_sink_active : bool;
}.

#[export] Instance rebuild_receiver : Rebuild receiver := λ r,
  mk_receiver (br_config r) (br_descriptor r) (br_pending_status r) (br_stats r)
    (br_next_offset r) (br_last_activity_ms r) (br_status_token r) (br_accepted_chunk_size r)
    (br_magic r) (br_state r) (br_terminal_code r) (br_terminal_phase r) (br_status_pending r)
    (br_status_acquired r) (br_sink_active r).
#[export] Instance fs_br_config : FieldSet br_config := _.
#[export] Instance fs_br_descriptor : FieldSet br_descriptor := _.
#[export] Instance fs_br_pending_status : FieldSet br_pending_status := _.
#[export] Instance fs_br_stats : FieldSet br_stats := _.
#[export] Instance fs_br_next_offset : FieldSet br_next_offset := _.
#[export] Instance fs_br_last_activity_ms : FieldSet br_last_activity_ms := _.
#[export] Instance fs_br_status_token : FieldSet br_status_token := _.
#[export] Instance fs_br_accepted_chunk_size : FieldSet br_accepted_chunk_size := _.
#[export] Instance fs_br_magic : FieldSet br_magic := _.
#[export] Instance fs_br_state : FieldSet br_state := _.
#[export] Instance fs_br_terminal_code : FieldSet br_terminal_code := _.
#[export] Instance fs_br_terminal_phase : FieldSet br_terminal_phase := _.
#[export] Instance fs_br_status_pending : FieldSet br_status_pending := _.
#[export] Instance fs_br_status_acquired : FieldSet br_status_acquired := _.
#[export] Instance fs_br_sink_active : FieldSet br_sink_active := _.

Definition receiver_stats_zero : receiver_stats := mk_receiver_stats 0 0 0 0 0 0 0 0 0 0.

Definition receiver_zero : receiver :=
  mk_receiver receiver_config_zero descriptor_zero status_zero receiver_stats_zero 0 0 0 0 0
    WL_BULK_RECEIVER_IDLE 0 0 false false false.

(** [wl_bulk_receiver_status_view_t] *)
Record status_view := mk_status_view { vw_status : status; vw_token : Z }.

Definition status_view_zero : status_view := mk_status_view status_zero 0.

(** ** Helpers *)

Definition receiver_initialized (r : receiver) : bool := br_magic r =? WL_BULK_RECEIVER_MAGIC.

(** [power_of_two] *)
Definition is_power_of_two (value : Z) : bool :=
  negb (value =? 0) && (Z.land value (value - 1) =? 0).

(** [interval_valid] of the receiver, where zero disables the expiry *)
Definition expiry_valid (interval_ms : Z) : bool := interval_ms <? WL_BULK_MAX_INTERVAL.

Definition interval_elapsed (now_ms started_at interval_ms : Z) : bool :=
  negb (interval_ms =? 0) && (interval_ms <=? u32 (now_ms - started_at)).

Definition counter_add (counter increment : Z) : Z :=
  if UINT32_MAX - counter <? increment then UINT32_MAX else counter + increment.

(** [counter_increment] applied to one counter of the statistics *)
Definition receiver_count (counter : receiver_stats → Z) `{!FieldSet counter} (r : receiver) : receiver :=
  r <| br_stats := with_field counter counter_increment (br_stats r) |>.

Definition status_next_token (token : Z) : Z :=
  let token := u32 (token + 1) in if token =? 0 then 1 else token.

Definition in_receiver_state (r : receiver) (x : receiver_state) : bool := bool_decide (br_state r = x).

Definition retain_status (r : receiver) (id phase code next_offset accepted_chunk_size : Z) : receiver :=
  r <| br_pending_status := mk_status id phase code next_offset accepted_chunk_size |>
    <| br_status_token := status_next_token (br_status_token r) |>
    <| br_status_pending := true |> <| br_status_acquired := false |>.

Definition reject_protocol (r : receiver) (id phase code next_offset accepted_chunk_size : Z)
    : receiver * bulk_err :=
  (retain_status (receiver_count rs_protocol_errors r) id phase code next_offset accepted_chunk_size,
   WL_BULK_OK).

Definition require_input_slot (r : receiver) : bulk_err :=
  if br_status_pending r then WL_BULK_ERR_BUSY else WL_BULK_OK.

(** The chunk size the receiver grants, if it can serve the descriptor. *)
Definition negotiate_chunk_size (r : receiver) (d : descriptor) : option Z :=
  if (transfer_id d =? 0) || (rc_max_object_length (br_config r) <? total_length d) ||
     (requested_chunk_size d =? 0)
  then None
  else
    let limit := if rc_max_chunk_size (br_config r) <? requested_chunk_size d
                 then rc_max_chunk_size (br_config r) else requested_chunk_size d in
    let accepted := limit - limit mod rc_write_alignment (br_config r) in
    if accepted =? 0 then
      if limit <? total_length d then None else Some limit
    else Some accepted.

Definition resume_offset_valid (r : receiver) (resume_offset : Z) : bool :=
  if total_length (br_descriptor r) <? resume_offset then false
  else (resume_offset =? total_length (br_descriptor r)) ||
       (resume_offset mod rc_write_alignment (br_config r) =? 0).

Definition sink_failure_code (r : receiver) (sink_result : Z) : receiver * Z :=
  if sink_result =? WL_BULK_SINK_WRITE_FAILED
  then (receiver_count rs_write_failures r, WL_BULK_STATUS_WRITE_FAILED)
  else if sink_result =? WL_BULK_SINK_INTEGRITY_FAILED
  then (receiver_count rs_integrity_failures r, WL_BULK_STATUS_INTEGRITY_FAILED)
  else if sink_result =? WL_BULK_SINK_INVALID then (r, WL_BULK_STATUS_INVALID)
  else (receiver_count rs_write_failures r, WL_BULK_STATUS_WRITE_FAILED).

Definition enter_failure (r : receiver) (phase code : Z) : receiver :=
  r <| br_state := WL_BULK_RECEIVER_FAILED |> <| br_terminal_phase := phase |>
    <| br_terminal_code := code |>.

Definition active_next_offset (r : receiver) : Z :=
  if in_receiver_state r WL_BULK_RECEIVER_IDLE then 0 else br_next_offset r.

Definition active_chunk_size (r : receiver) : Z :=
  if in_receiver_state r WL_BULK_RECEIVER_IDLE then 0 else br_accepted_chunk_size r.

Definition terminal_status_code (r : receiver) : Z :=
  if in_receiver_state r WL_BULK_RECEIVER_COMPLETED then WL_BULK_STATUS_OK
  else if in_receiver_state r WL_BULK_RECEIVER_ABORTED then WL_BULK_STATUS_ABORTED
  else br_terminal_code r.

(** The end of the chunk, when its shape fits the transfer. *)
Definition chunk_shape_valid (r : receiver) (c : chunk) : option Z :=
  if (ck_transfer_id c =? 0) || (ck_data c =? NULL) || (ck_length c =? 0) ||
     (br_accepted_chunk_size r <? ck_length c)
  then None
  else if UINT64_MAX - ck_length c <? ck_offset c then None
  else
    let fin := ck_offset c + ck_length c in
    if (total_length (br_descriptor r) <? fin) ||
       negb (ck_offset c mod rc_write_alignment (br_config r) =? 0)
    then None
    else if negb (fin =? total_length (br_descriptor r)) &&
            negb (ck_length c mod rc_write_alignment (br_config r) =? 0)
    then None
    else Some fin.

(** A retained status with the code, offset and chunk size of the transfer. *)
Definition retain_current (r : receiver) (id phase code : Z) : receiver :=
  retain_status r id phase code (br_next_offset r) (br_accepted_chunk_size r).

Definition reject_current (r : receiver) (id phase code : Z) : receiver * bulk_err :=
  reject_protocol r id phase code (br_next_offset r) (br_accepted_chunk_size r).

(** ** Operations *)

Definition wl_bulk_receiver_init (r : receiver) (config : receiver_config) : receiver * bulk_err :=
  if (rc_max_object_length config =? 0) || (rc_max_chunk_size config =? 0) ||
     negb (is_power_of_two (rc_write_alignment config)) ||
     (rc_max_chunk_size config <? rc_write_alignment config) ||
     negb (expiry_valid (rc_idle_timeout_ms config)) || negb (rc_has_begin config) ||
     negb (rc_has_write config) || negb (rc_has_finish config) || negb (rc_has_abort config)
  then (r, WL_BULK_ERR_INVALID_ARG)
  else
    (receiver_zero <| br_config := config |> <| br_state := WL_BULK_RECEIVER_IDLE |>
       <| br_terminal_code := WL_BULK_STATUS_OK |> <| br_terminal_phase := WL_BULK_PHASE_NONE |>
       <| br_magic := WL_BULK_RECEIVER_MAGIC |>, WL_BULK_OK).

Section sink.
Context {W : Type} `{!BulkSink W}.

Definition release_sink (r : receiver) (w : W) (reason : Z) : receiver * W :=
  if br_sink_active r
  then (r <| br_sink_active := false |>, sink_abort w (transfer_id (br_descriptor r)) reason)
  else (r, w).

Definition clear_session (r : receiver) (w : W) (reason : Z) : receiver * W :=
  let '(r, w) := release_sink r w reason in
  (r <| br_descriptor := descriptor_zero |> <| br_next_offset := 0 |> <| br_last_activity_ms := 0 |>
     <| br_accepted_chunk_size := 0 |> <| br_state := WL_BULK_RECEIVER_IDLE |>
     <| br_terminal_code := WL_BULK_STATUS_OK |> <| br_terminal_phase := WL_BULK_PHASE_NONE |>, w).

Definition retain_abort_tombstone (r : receiver) (w : W) (id now_ms : Z) : receiver * W :=
  let '(r, w) := clear_session r w (bulk_err_code WL_BULK_ERR_INVALID_STATE) in
  let r := r <| br_descriptor := br_descriptor r <| transfer_id := id |> |>
             <| br_last_activity_ms := now_ms |> <| br_state := WL_BULK_RECEIVER_ABORTED |>
             <| br_terminal_phase := WL_BULK_PHASE_ABORT |>
             <| br_terminal_code := WL_BULK_STATUS_ABORTED |> in
  (retain_status (receiver_count rs_aborts r) id WL_BULK_PHASE_ABORT WL_BULK_STATUS_ABORTED 0 0, w).

Definition wl_bulk_receiver_reset (r : receiver) (w : W) : receiver * W * bulk_err :=
  if negb (receiver_initialized r) then (r, w, WL_BULK_ERR_NOT_INITIALIZED)
  else if br_status_acquired r then (r, w, WL_BULK_ERR_BUSY)
  else
    let '(r, w) := clear_session r w (bulk_err_code WL_BULK_ERR_INVALID_STATE) in
    (r <| br_pending_status := status_zero |> <| br_status_pending := false |>
       <| br_status_acquired := false |>, w, WL_BULK_OK).

(** The sink is asked to begin the transfer and its answer recorded. *)
Definition begin_transfer (r : receiver) (w : W) (d : descriptor) (accepted now_ms : Z)
    : receiver * W * bulk_err :=
  let '(w, sink_result, resume_offset) := sink_begin w d in
  if sink_result =? WL_BULK_SINK_BUSY then
    (retain_status (receiver_count rs_busy_responses r) (transfer_id d) WL_BULK_PHASE_BEGIN
       WL_BULK_STATUS_BUSY 0 accepted, w, WL_BULK_OK)
  else
    let r := r <| br_descriptor := d |> <| br_accepted_chunk_size := accepted |>
               <| br_last_activity_ms := now_ms |> <| br_sink_active := true |> in
    if sink_result =? WL_BULK_SINK_OK then
      if negb (resume_offset_valid r resume_offset) then
        (retain_status (enter_failure r WL_BULK_PHASE_BEGIN WL_BULK_STATUS_INVALID) (transfer_id d)
           WL_BULK_PHASE_BEGIN WL_BULK_STATUS_INVALID 0 accepted, w, WL_BULK_OK)
      else
        (retain_status
           (receiver_count rs_begins
              (r <| br_next_offset := resume_offset |> <| br_state := WL_BULK_RECEIVER_RECEIVING |>))
           (transfer_id d) WL_BULK_PHASE_BEGIN WL_BULK_STATUS_OK resume_offset accepted, w, WL_BULK_OK)
    else
      let '(r, code) := sink_failure_code r sink_result in
      (retain_status (enter_failure r WL_BULK_PHASE_BEGIN code) (transfer_id d) WL_BULK_PHASE_BEGIN
         code 0 accepted, w, WL_BULK_OK).

Definition wl_bulk_receiver_on_begin (r : receiver) (w : W) (d : descriptor) (now_ms : Z)
    : receiver * W * bulk_err :=
  if negb (receiver_initialized r) then (r, w, WL_BULK_ERR_NOT_INITIALIZED)
  else if negb (bool_decide (require_input_slot r = WL_BULK_OK)) then (r, w, WL_BULK_ERR_BUSY)
  else
    match negotiate_chunk_size r d with
    | None =>
        let '(r, e) := reject_protocol r (transfer_id d) WL_BULK_PHASE_BEGIN WL_BULK_STATUS_INVALID
                         (active_next_offset r) (active_chunk_size r) in (r, w, e)
    | Some accepted =>
        if in_receiver_state r WL_BULK_RECEIVER_IDLE then begin_transfer r w d accepted now_ms
        else if descriptor_equal (br_descriptor r) d then
          let r := if in_receiver_state r WL_BULK_RECEIVER_RECEIVING
                   then r <| br_last_activity_ms := now_ms |> else r in
          let r := receiver_count rs_duplicate_messages r in
          (retain_current r (transfer_id d) WL_BULK_PHASE_BEGIN (terminal_status_code r), w,
           WL_BULK_OK)
        else if in_receiver_state r WL_BULK_RECEIVER_RECEIVING ||
                (transfer_id d =? transfer_id (br_descriptor r)) then
          let '(r, e) := reject_current r (transfer_id d) WL_BULK_PHASE_BEGIN
                           WL_BULK_STATUS_CONFLICT in (r, w, e)
        else
          let '(r, w) := release_sink r w (bulk_err_code WL_BULK_ERR_INVALID_STATE) in
          begin_transfer r w d accepted now_ms
    end.

(** The chunk is handed to the sink and the answer recorded. *)
Definition write_chunk (m : mem) (r : receiver) (w : W) (c : chunk) (fin now_ms : Z)
    : receiver * W * bulk_err :=
  let '(w, sink_result) :=
    sink_write w (ck_transfer_id c) (ck_offset c) (mread m (ck_data c) (Z.to_nat (ck_length c))) in
  let r := r <| br_last_activity_ms := now_ms |> in
  if sink_result =? WL_BULK_SINK_BUSY then
    (retain_current (receiver_count rs_busy_responses r) (ck_transfer_id c) WL_BULK_PHASE_CHUNK
       WL_BULK_STATUS_BUSY, w, WL_BULK_OK)
  else if sink_result =? WL_BULK_SINK_OK then
    let r := receiver_count rs_chunks (r <| br_next_offset := fin |>) in
    let r := r <| br_stats := with_field rs_bytes_written (λ n, counter_add n (u32 (ck_length c)))
                               (br_stats r) |> in
    (retain_current r (ck_transfer_id c) WL_BULK_PHASE_CHUNK WL_BULK_STATUS_OK, w, WL_BULK_OK)
  else
    let '(r, code) := sink_failure_code r sink_result in
    (retain_current (enter_failure r WL_BULK_PHASE_CHUNK code) (ck_transfer_id c)
       WL_BULK_PHASE_CHUNK code, w, WL_BULK_OK).

Definition wl_bulk_receiver_on_chunk (m : mem) (r : receiver) (w : W) (c : chunk) (now_ms : Z)
    : receiver * W * bulk_err :=
  if negb (receiver_initialized r) then (r, w, WL_BULK_ERR_NOT_INITIALIZED)
  else if negb (bool_decide (require_input_slot r = WL_BULK_OK)) then (r, w, WL_BULK_ERR_BUSY)
  else if (ck_transfer_id c =? 0) || (ck_data c =? NULL) || (ck_length c =? 0) then
    let '(r, e) := reject_protocol r (ck_transfer_id c) WL_BULK_PHASE_CHUNK WL_BULK_STATUS_INVALID
                     (active_next_offset r) (active_chunk_size r) in (r, w, e)
  else if in_receiver_state r WL_BULK_RECEIVER_IDLE then
    let '(r, e) := reject_protocol r (ck_transfer_id c) WL_BULK_PHASE_CHUNK
                     WL_BULK_STATUS_OUT_OF_ORDER 0 0 in (r, w, e)
  else if negb (ck_transfer_id c =? transfer_id (br_descriptor r)) then
    let '(r, e) := reject_current r (ck_transfer_id c) WL_BULK_PHASE_CHUNK WL_BULK_STATUS_CONFLICT in
    (r, w, e)
  else
    match chunk_shape_valid r c with
    | None =>
        let '(r, e) := reject_current r (ck_transfer_id c) WL_BULK_PHASE_CHUNK
                         WL_BULK_STATUS_INVALID in (r, w, e)
    | Some fin =>
        if fin <=? br_next_offset r then
          let r := receiver_count rs_duplicate_messages (r <| br_last_activity_ms := now_ms |>) in
          (retain_current r (ck_transfer_id c) WL_BULK_PHASE_CHUNK (terminal_status_code r), w,
           WL_BULK_OK)
        else if negb (ck_offset c =? br_next_offset r) then
          let '(r, e) := reject_current r (ck_transfer_id c) WL_BULK_PHASE_CHUNK
                           WL_BULK_STATUS_OUT_OF_ORDER in (r, w, e)
        else if negb (in_receiver_state r WL_BULK_RECEIVER_RECEIVING) then
          (retain_current r (ck_transfer_id c) WL_BULK_PHASE_CHUNK (terminal_status_code r), w,
           WL_BULK_OK)
        else write_chunk m r w c fin now_ms
    end.

(** The sink is asked to commit the object and the answer recorded. *)
Definition finish_transfer (r : receiver) (w : W) (id now_ms : Z) : receiver * W * bulk_err :=
  let '(w, sink_result) := sink_finish w (br_descriptor r) in
  let r := r <| br_last_activity_ms := now_ms |> in
  if sink_result =? WL_BULK_SINK_BUSY then
    (retain_current (receiver_count rs_busy_responses r) id WL_BULK_PHASE_END WL_BULK_STATUS_BUSY, w,
     WL_BULK_OK)
  else if sink_result =? WL_BULK_SINK_OK then
    (retain_current
       (r <| br_state := WL_BULK_RECEIVER_COMPLETED |> <| br_terminal_phase := WL_BULK_PHASE_END |>
          <| br_terminal_code := WL_BULK_STATUS_OK |> <| br_sink_active := false |>)
       id WL_BULK_PHASE_END WL_BULK_STATUS_OK, w, WL_BULK_OK)
  else
    let '(r, code) := sink_failure_code r sink_result in
    (retain_current (enter_failure r WL_BULK_PHASE_END code) id WL_BULK_PHASE_END code, w, WL_BULK_OK).

Definition wl_bulk_receiver_on_end (r : receiver) (w : W) (id total crc now_ms : Z)
    : receiver * W * bulk_err :=
  if negb (receiver_initialized r) then (r, w, WL_BULK_ERR_NOT_INITIALIZED)
  else if negb (bool_decide (require_input_slot r = WL_BULK_OK)) then (r, w, WL_BULK_ERR_BUSY)
  else if id =? 0 then
    let '(r, e) := reject_protocol r id WL_BULK_PHASE_END WL_BULK_STATUS_INVALID
                     (active_next_offset r) (active_chunk_size r) in (r, w, e)
  else if in_receiver_state r WL_BULK_RECEIVER_IDLE then
    let '(r, e) := reject_protocol r id WL_BULK_PHASE_END WL_BULK_STATUS_OUT_OF_ORDER 0 0 in (r, w, e)
  else if negb (id =? transfer_id (br_descriptor r)) ||
          negb (total =? total_length (br_descriptor r)) ||
          negb (crc =? object_crc32c (br_descriptor r)) then
    let '(r, e) := reject_current r id WL_BULK_PHASE_END WL_BULK_STATUS_CONFLICT in (r, w, e)
  else if in_receiver_state r WL_BULK_RECEIVER_COMPLETED ||
          (in_receiver_state r WL_BULK_RECEIVER_FAILED && (br_terminal_phase r =? WL_BULK_PHASE_END)) then
    let r := receiver_count rs_duplicate_messages (r <| br_last_activity_ms := now_ms |>) in
    (retain_current r id WL_BULK_PHASE_END (terminal_status_code r), w, WL_BULK_OK)
  else if negb (in_receiver_state r WL_BULK_RECEIVER_RECEIVING) then
    (retain_current r id WL_BULK_PHASE_END (terminal_status_code r), w, WL_BULK_OK)
  else if negb (br_next_offset r =? total_length (br_descriptor r)) then
    let '(r, e) := reject_current r id WL_BULK_PHASE_END WL_BULK_STATUS_OUT_OF_ORDER in (r, w, e)
  else finish_transfer r w id now_ms.

Definition wl_bulk_receiver_on_abort (r : receiver) (w : W) (id reason now_ms : Z)
    : receiver * W * bulk_err :=
  if negb (receiver_initialized r) then (r, w, WL_BULK_ERR_NOT_INITIALIZED)
  else if negb (bool_decide (require_input_slot r = WL_BULK_OK)) then (r, w, WL_BULK_ERR_BUSY)
  else if id =? 0 then
    let '(r, e) := reject_protocol r id WL_BULK_PHASE_ABORT WL_BULK_STATUS_INVALID
                     (active_next_offset r) (active_chunk_size r) in (r, w, e)
  else if in_receiver_state r WL_BULK_RECEIVER_IDLE ||
          (negb (in_receiver_state r WL_BULK_RECEIVER_RECEIVING) &&
           negb (id =? transfer_id (br_descriptor r))) then
    let '(r, w) := retain_abort_tombstone r w id now_ms in (r, w, WL_BULK_OK)
  else if negb (id =? transfer_id (br_descriptor r)) then
    let '(r, e) := reject_current r id WL_BULK_PHASE_ABORT WL_BULK_STATUS_CONFLICT in (r, w, e)
  else if in_receiver_state r WL_BULK_RECEIVER_ABORTED then
    let r := receiver_count rs_duplicate_messages (r <| br_last_activity_ms := now_ms |>) in
    (retain_current r id WL_BULK_PHASE_ABORT WL_BULK_STATUS_ABORTED, w, WL_BULK_OK)
  else if in_receiver_state r WL_BULK_RECEIVER_COMPLETED then
    let '(r, e) := reject_current r id WL_BULK_PHASE_ABORT WL_BULK_STATUS_CONFLICT in (r, w, e)
  else
    let '(r, w) := if br_sink_active r
                   then (r <| br_sink_active := false |>, sink_abort w id reason) else (r, w) in
    let r := r <| br_last_activity_ms := now_ms |> <| br_state := WL_BULK_RECEIVER_ABORTED |>
               <| br_terminal_phase := WL_BULK_PHASE_ABORT |>
               <| br_terminal_code := WL_BULK_STATUS_ABORTED |> in
    (retain_current (receiver_count rs_aborts r) id WL_BULK_PHASE_ABORT WL_BULK_STATUS_ABORTED, w,
     WL_BULK_OK).

Definition wl_bulk_receiver_poll (r : receiver) (w : W) (now_ms : Z) : receiver * W * bulk_err :=
  if negb (receiver_initialized r) then (r, w, WL_BULK_ERR_NOT_INITIALIZED)
  else if negb (in_receiver_state r WL_BULK_RECEIVER_RECEIVING) ||
          (rc_idle_timeout_ms (br_config r) =? 0) || br_status_pending r ||
          negb (interval_elapsed now_ms (br_last_activity_ms r) (rc_idle_timeout_ms (br_config r)))
  then (r, w, WL_BULK_OK)
  else
    let '(r, w) := release_sink r w (bulk_err_code WL_BULK_ERR_TIMEOUT) in
    let r := receiver_count rs_timeouts
               (enter_failure r WL_BULK_PHASE_ABORT WL_BULK_STATUS_TIMED_OUT) in
    (retain_current r (transfer_id (br_descriptor r)) WL_BULK_PHASE_ABORT WL_BULK_STATUS_TIMED_OUT, w,
     WL_BULK_OK).
End sink.

Definition wl_bulk_receiver_status_acquire (r : receiver) : receiver * bulk_err * status_view :=
  if negb (receiver_initialized r) then (r, WL_BULK_ERR_NOT_INITIALIZED, status_view_zero)
  else if negb (br_status_pending r) then (r, WL_BULK_ERR_NOT_FOUND, status_view_zero)
  else if br_status_acquired r then (r, WL_BULK_ERR_BUSY, status_view_zero)
  else (r <| br_status_acquired := true |>, WL_BULK_OK,
        mk_status_view (br_pending_status r) (br_status_token r)).

Definition status_view_matches (r : receiver) (view : status_view) : bool :=
  br_status_pending r && br_status_acquired r && (vw_token view =? br_status_token r) &&
  status_equal (vw_status view) (br_pending_status r).

Definition wl_bulk_receiver_status_defer (r : receiver) (view : status_view) : receiver * bulk_err :=
  if negb (receiver_initialized r) then (r, WL_BULK_ERR_NOT_INITIALIZED)
  else if negb (status_view_matches r view) then (r, WL_BULK_ERR_INVALID_STATE)
  else (r <| br_status_acquired := false |>, WL_BULK_OK).

Definition wl_bulk_receiver_status_release (r : receiver) (view : status_view) : receiver * bulk_err :=
  if negb (receiver_initialized r) then (r, WL_BULK_ERR_NOT_INITIALIZED)
  else if negb (status_view_matches r view) then (r, WL_BULK_ERR_INVALID_STATE)
  else (r <| br_status_pending := false |> <| br_status_acquired := false |>, WL_BULK_OK).

Definition wl_bulk_receiver_get_deadline_hint (r : receiver) (now_ms : Z) : bulk_err * Z :=
  if negb (receiver_initialized r) then (WL_BULK_ERR_NOT_INITIALIZED, WL_BULK_NO_DEADLINE_MS)
  else if in_receiver_state r WL_BULK_RECEIVER_RECEIVING &&
          negb (rc_idle_timeout_ms (br_config r) =? 0) && negb (br_status_pending r)
  then (WL_BULK_OK,
        deadline_remaining now_ms (br_last_activity_ms r) (rc_idle_timeout_ms (br_config r)))
  else (WL_BULK_OK, WL_BULK_NO_DEADLINE_MS).

Definition wl_bulk_receiver_get_state (r : receiver) : bulk_err * receiver_state * Z :=
  if negb (receiver_initialized r) then (WL_BULK_ERR_NOT_INITIALIZED, WL_BULK_RECEIVER_IDLE, 0)
  else (WL_BULK_OK, br_state r, br_next_offset r).

Definition wl_bulk_receiver_get_stats (r : receiver) : bulk_err * receiver_stats :=
  if negb (receiver_initialized r) then (WL_BULK_ERR_NOT_INITIALIZED, receiver_stats_zero)
  else (WL_BULK_OK, br_stats r).
