(* ===== verification/BulkSession.v ===== *)
(** What the receiving end does to the application's sink.

    The operations of [BulkReceiver] are reduced once to the few steps that touch
    the sink or the session: [session_step] is a relation over the part of the
    receiver that matters, [core], and the state of the sink.  [receiver_exec]
    runs one operation; [receiver_effect] says that its effect is a sequence of
    such steps and that the status it leaves is truthful.  The rest of the file
    derives the contract of the sink: the calls it sees form well-shaped sessions
    whatever the peer sends. *)
From stdpp Require Import relations gmap.
From S2P Require Import Prelude Slots Clock Bulk BulkReceiver.

(** ** Messages and operations *)

(** What reaches the receiver: the four application messages, the data of a
    chunk as the bytes its span holds, and the two local stimuli. *)
Inductive bulk_input :=
  | InBegin (d : descriptor)
  | InChunk (id offset : Z) (data : list Z)
  | InEnd (id total crc : Z)
  | InAbort (id reason : Z)
  | InPoll
  | InReset
  | InStatus.

Inductive receiver_op :=
  | RBegin (d : descriptor) (now_ms : Z)
  | RChunk (m : mem) (c : chunk) (now_ms : Z)
  | REnd (id total crc now_ms : Z)
  | RAbort (id reason now_ms : Z)
  | RPoll (now_ms : Z)
  | RReset
  | RAcquire
  | RDefer (view : status_view)
  | RRelease (view : status_view).

Definition input_of (op : receiver_op) : bulk_input :=
  match op with
  | RBegin d _ => InBegin d
  | RChunk m c _ => InChunk (ck_transfer_id c) (ck_offset c) (mread m (ck_data c) (Z.to_nat (ck_length c)))
  | REnd id total crc _ => InEnd id total crc
  | RAbort id reason _ => InAbort id reason
  | RPoll _ => InPoll
  | RReset => InReset
  | RAcquire | RDefer _ | RRelease _ => InStatus
  end.

(** The length of a chunk is unsigned. *)
Definition op_typed (op : receiver_op) : Prop :=
  match op with
  | RChunk _ c _ => 0 <= ck_length c
  | _ => True
  end.

Definition receiver_exec {W} `{!BulkSink W} (op : receiver_op) (s : receiver * W)
    : receiver * W * bulk_err :=
  let '(r, w) := s in
  match op with
  | RBegin d now => wl_bulk_receiver_on_begin r w d now
  | RChunk m c now => wl_bulk_receiver_on_chunk m r w c now
  | REnd id total crc now => wl_bulk_receiver_on_end r w id total crc now
  | RAbort id reason now => wl_bulk_receiver_on_abort r w id reason now
  | RPoll now => wl_bulk_receiver_poll r w now
  | RReset => wl_bulk_receiver_reset r w
  | RAcquire => let '(r, e, _) := wl_bulk_receiver_status_acquire r in (r, w, e)
  | RDefer view => let '(r, e) := wl_bulk_receiver_status_defer r view in (r, w, e)
  | RRelease view => let '(r, e) := wl_bulk_receiver_status_release r view in (r, w, e)
  end.

Fixpoint receiver_run {W} `{!BulkSink W} (ops : list receiver_op) (s : receiver * W) : receiver * W :=
  match ops with
  | [] => s
  | op :: ops => receiver_run ops (receiver_exec op s).1
  end.

(** ** The session a receiver serves *)

Record core := mk_core {
  co_descriptor : descriptor;
  co_next : Z;
  co_accepted : Z;
  co_state : receiver_state;
  co_code : Z;
  co_active : bool;
}.

Definition core_of (r : receiver) : core :=
  mk_core (br_descriptor r) (br_next_offset r) (br_accepted_chunk_size r) (br_state r)
    (br_terminal_code r) (br_sink_active r).

Definition core_idle : core :=
  mk_core descriptor_zero 0 0 WL_BULK_RECEIVER_IDLE WL_BULK_STATUS_OK false.

(** What every state of the receiver satisfies. *)
Record core_inv (c : core) : Prop := {
  ci_idle : co_state c = WL_BULK_RECEIVER_IDLE → co_active c = false;
  ci_receiving : co_state c = WL_BULK_RECEIVER_RECEIVING → co_active c = true;
  ci_completed : co_state c = WL_BULK_RECEIVER_COMPLETED → co_active c = false;
  ci_aborted : co_state c = WL_BULK_RECEIVER_ABORTED → co_active c = false;
  ci_failed : co_state c = WL_BULK_RECEIVER_FAILED → co_code c ≠ WL_BULK_STATUS_OK;
}.

(** A sink result that is neither success nor busy. *)
Definition sink_failed (result : Z) : Prop := result ≠ WL_BULK_SINK_OK ∧ result ≠ WL_BULK_SINK_BUSY.

(** The chunk sizes the configuration can grant. *)
Definition granted (cfg : receiver_config) (d : descriptor) (accepted : Z) : Prop :=
  negotiate_chunk_size (receiver_zero <| br_config := cfg |>) d = Some accepted.

Definition resume_valid (cfg : receiver_config) (d : descriptor) (resume : Z) : Prop :=
  resume <= total_length d ∧ (resume = total_length d ∨ resume mod rc_write_alignment cfg = 0).

(** A chunk the receiver may pass on. *)
Record chunk_fits (cfg : receiver_config) (c : core) (id offset size : Z) : Prop := {
  cf_id : id = transfer_id (co_descriptor c);
  cf_offset : offset = co_next c;
  cf_size : 0 < size <= co_accepted c;
  cf_end : offset + size <= total_length (co_descriptor c);
  cf_aligned : offset mod rc_write_alignment cfg = 0;
  cf_whole : offset + size = total_length (co_descriptor c) ∨ size mod rc_write_alignment cfg = 0;
}.

Section steps.
Context {W : Type} `{!BulkSink W} (cfg : receiver_config).
Implicit Types (c : core) (w : W) (d : descriptor).

Inductive session_step : bulk_input → core * W → core * W → Prop :=
  | step_release d c w reason :
      co_active c = true → co_state c ≠ WL_BULK_RECEIVER_RECEIVING →
      session_step (InBegin d) (c, w)
        (mk_core (co_descriptor c) (co_next c) (co_accepted c) (co_state c) (co_code c) false,
         sink_abort w (transfer_id (co_descriptor c)) reason)
  | step_begin_busy d c w w' accepted resume :
      co_active c = false → co_state c ≠ WL_BULK_RECEIVER_RECEIVING →
      granted cfg d accepted → sink_begin w d = (w', WL_BULK_SINK_BUSY, resume) →
      session_step (InBegin d) (c, w) (c, w')
  | step_begin_ok d c w w' accepted resume :
      co_active c = false → co_state c ≠ WL_BULK_RECEIVER_RECEIVING →
      granted cfg d accepted → resume_valid cfg d resume →
      sink_begin w d = (w', WL_BULK_SINK_OK, resume) →
      session_step (InBegin d) (c, w)
        (mk_core d resume accepted WL_BULK_RECEIVER_RECEIVING (co_code c) true, w')
  | step_begin_failed d c w w' accepted result resume code :
      co_active c = false → co_state c ≠ WL_BULK_RECEIVER_RECEIVING →
      granted cfg d accepted → sink_begin w d = (w', result, resume) →
      sink_failed result ∨ result = WL_BULK_SINK_OK ∧ ¬ resume_valid cfg d resume →
      code ≠ WL_BULK_STATUS_OK →
      session_step (InBegin d) (c, w)
        (mk_core d (co_next c) accepted WL_BULK_RECEIVER_FAILED code true, w')
  | step_write_busy id offset data c w w' :
      co_state c = WL_BULK_RECEIVER_RECEIVING → chunk_fits cfg c id offset (len data) →
      sink_write w id offset data = (w', WL_BULK_SINK_BUSY) →
      session_step (InChunk id offset data) (c, w) (c, w')
  | step_write_ok id offset data c w w' :
      co_state c = WL_BULK_RECEIVER_RECEIVING → chunk_fits cfg c id offset (len data) →
      sink_write w id offset data = (w', WL_BULK_SINK_OK) →
      session_step (InChunk id offset data) (c, w)
        (mk_core (co_descriptor c) (offset + len data) (co_accepted c) (co_state c) (co_code c)
           (co_active c), w')
  | step_write_failed id offset data c w w' result code :
      co_state c = WL_BULK_RECEIVER_RECEIVING → chunk_fits cfg c id offset (len data) →
      sink_write w id offset data = (w', result) → sink_failed result → code ≠ WL_BULK_STATUS_OK →
      session_step (InChunk id offset data) (c, w)
        (mk_core (co_descriptor c) (co_next c) (co_accepted c) WL_BULK_RECEIVER_FAILED code
           (co_active c), w')
  | step_finish_busy c w w' :
      co_state c = WL_BULK_RECEIVER_RECEIVING → co_next c = total_length (co_descriptor c) →
      sink_finish w (co_descriptor c) = (w', WL_BULK_SINK_BUSY) →
      session_step (InEnd (transfer_id (co_descriptor c)) (total_length (co_descriptor c))
                      (object_crc32c (co_descriptor c))) (c, w) (c, w')
  | step_finish_ok c w w' :
      co_state c = WL_BULK_RECEIVER_RECEIVING → co_next c = total_length (co_descriptor c) →
      sink_finish w (co_descriptor c) = (w', WL_BULK_SINK_OK) →
      session_step (InEnd (transfer_id (co_descriptor c)) (total_length (co_descriptor c))
                      (object_crc32c (co_descriptor c))) (c, w)
        (mk_core (co_descriptor c) (co_next c) (co_accepted c) WL_BULK_RECEIVER_COMPLETED
           WL_BULK_STATUS_OK false, w')
  | step_finish_failed c w w' result code :
      co_state c = WL_BULK_RECEIVER_RECEIVING → co_next c = total_length (co_descriptor c) →
      sink_finish w (co_descriptor c) = (w', result) → sink_failed result →
      code ≠ WL_BULK_STATUS_OK →
      session_step (InEnd (transfer_id (co_descriptor c)) (total_length (co_descriptor c))
                      (object_crc32c (co_descriptor c))) (c, w)
        (mk_core (co_descriptor c) (co_next c) (co_accepted c) WL_BULK_RECEIVER_FAILED code
           (co_active c), w')
  | step_abort c w reason :
      co_state c = WL_BULK_RECEIVER_RECEIVING ∨ co_state c = WL_BULK_RECEIVER_FAILED →
      session_step (InAbort (transfer_id (co_descriptor c)) reason) (c, w)
        (mk_core (co_descriptor c) (co_next c) (co_accepted c) WL_BULK_RECEIVER_ABORTED
           WL_BULK_STATUS_ABORTED false,
         if co_active c then sink_abort w (transfer_id (co_descriptor c)) reason else w)
  | step_tombstone id reason reason' c w :
      co_state c ≠ WL_BULK_RECEIVER_RECEIVING →
      session_step (InAbort id reason) (c, w)
        (mk_core (descriptor_zero <| transfer_id := id |>) 0 0 WL_BULK_RECEIVER_ABORTED
           WL_BULK_STATUS_ABORTED false,
         if co_active c then sink_abort w (transfer_id (co_descriptor c)) reason' else w)
  | step_timeout c w reason :
      co_state c = WL_BULK_RECEIVER_RECEIVING →
      session_step InPoll (c, w)
        (mk_core (co_descriptor c) (co_next c) (co_accepted c) WL_BULK_RECEIVER_FAILED
           WL_BULK_STATUS_TIMED_OUT false,
         if co_active c then sink_abort w (transfer_id (co_descriptor c)) reason else w)
  | step_reset c w reason :
      session_step InReset (c, w)
        (core_idle, if co_active c then sink_abort w (transfer_id (co_descriptor c)) reason else w).

Definition session_steps (i : bulk_input) : core * W → core * W → Prop := rtc (session_step i).

(** A status that reports the end of a transfer speaks of a finished one. *)
Definition honest (c : core) (st : status) : Prop :=
  st_phase st = WL_BULK_PHASE_END → st_code st = WL_BULK_STATUS_OK →
  co_state c = WL_BULK_RECEIVER_COMPLETED ∧ st_transfer_id st = transfer_id (co_descriptor c).

(** The effect of an operation: steps of the session, and a status that was
    there before or is honest. *)
Record effect (i : bulk_input) (r : receiver) (w : W) (r' : receiver) (w' : W) : Prop := {
  ef_steps : session_steps i (core_of r, w) (core_of r', w');
  ef_config : br_config r' = br_config r;
  ef_magic : br_magic r' = br_magic r;
  ef_status : br_status_pending r' = true →
              br_status_pending r = true ∧ br_pending_status r' = br_pending_status r ∨
              honest (core_of r') (br_pending_status r');
}.

Lemma session_step_inv i x y : session_step i x y → core_inv (x.1) → core_inv (y.1).
Proof. intros Hs [? ? ? ? ?]. destruct Hs; cbn in *; split; cbn; intros; first [congruence | auto]. Qed.

Lemma session_steps_inv i x y : session_steps i x y → core_inv (x.1) → core_inv (y.1).
Proof. induction 1; eauto using session_step_inv. Qed.
End steps.

(** ** Every operation is a sequence of session steps *)

Lemma in_receiver_state_true r x : in_receiver_state r x = true ↔ br_state r = x.
Proof. unfold in_receiver_state. by rewrite bool_decide_eq_true. Qed.

Lemma in_receiver_state_false r x : in_receiver_state r x = false ↔ br_state r ≠ x.
Proof. unfold in_receiver_state. by rewrite bool_decide_eq_false. Qed.

#[export] Hint Rewrite in_receiver_state_true in_receiver_state_false : branch.

Section effects.
Context {W : Type} `{!BulkSink W}.
Implicit Types (r : receiver) (w : W).

(** A failed call of the sink counts and names a code other than success. *)
Lemma sink_failure_code_spec r result r' code :
  sink_failure_code r result = (r', code) →
  code ≠ WL_BULK_STATUS_OK ∧ ∃ stats, r' = r <| br_stats := stats |>.
Proof.
  unfold sink_failure_code. intros H.
  repeat branch_case H; injection H as <- <-; (split; [done|]); try by eexists.
  exists (br_stats r). by destruct r.
Qed.

(** Nothing happened to the session. *)
Lemma effect_quiet i r w r' :
  core_of r' = core_of r → br_config r' = br_config r → br_magic r' = br_magic r →
  (br_status_pending r' = true →
   br_status_pending r = true ∧ br_pending_status r' = br_pending_status r ∨
   honest (core_of r') (br_pending_status r')) →
  effect (br_config r) i r w r' w.
Proof. intros E ? ? ?. split; [|done..]. rewrite E. apply rtc_refl. Qed.

(** A status of another phase, or with a code other than success, claims
    nothing. *)
Lemma honest_other c id phase code next size :
  phase ≠ WL_BULK_PHASE_END ∨ code ≠ WL_BULK_STATUS_OK →
  honest c (mk_status id phase code next size).
Proof. intros [?|?] Hp Hc; cbn in *; congruence. Qed.

Lemma resume_offset_valid_spec r resume :
  resume_offset_valid r resume = true ↔ resume_valid (br_config r) (br_descriptor r) resume.
Proof. unfold resume_offset_valid, resume_valid. case_match; lia. Qed.

Lemma effect_begin r w d accepted now r' w' e :
  co_active (core_of r) = false → co_state (core_of r) ≠ WL_BULK_RECEIVER_RECEIVING →
  granted (br_config r) d accepted →
  begin_transfer r w d accepted now = (r', w', e) →
  effect (br_config r) (InBegin d) r w r' w'.
Proof.
  intros Ha Hs Hg H. unfold begin_transfer in H. destruct (sink_begin w d) as [[w1 res] resume] eqn:Eb.
  branch_case H.
  { rewrite E in Eb. injection H as <- <- <-. split; [|done..|right; apply honest_other; by left].
    apply rtc_once. by apply (step_begin_busy _ d _ _ _ accepted resume). }
  branch_case H; [rewrite E0 in Eb; branch_case H|].
  - injection H as <- <- <-. split; [|done..|right; apply honest_other; by left].
    apply rtc_once. apply (step_begin_failed _ d (core_of r) w w1 accepted WL_BULK_SINK_OK resume
      WL_BULK_STATUS_INVALID); try done.
    right. split; [done|]. apply not_true_iff_false in E1. intros Hv. by apply E1, resume_offset_valid_spec.
  - injection H as <- <- <-. split; [|done..|right; apply honest_other; by left].
    apply rtc_once. apply (step_begin_ok _ d (core_of r) w w1 accepted resume); try done.
    by apply resume_offset_valid_spec in E1.
  - destruct (sink_failure_code _ res) as [r1 code] eqn:Ef.
    apply sink_failure_code_spec in Ef as [Hc [stats ->]]. injection H as <- <- <-.
    split; [|done..|right; apply honest_other; by left].
    apply rtc_once. apply (step_begin_failed _ d (core_of r) w w1 accepted res resume code); try done.
    by left.
Qed.

(** The shape the receiver demands of a chunk. *)
Lemma chunk_shape_valid_spec r c fin :
  0 <= ck_length c → ck_transfer_id c = transfer_id (br_descriptor r) →
  ck_offset c = br_next_offset r → chunk_shape_valid r c = Some fin →
  chunk_fits (br_config r) (core_of r) (ck_transfer_id c) (ck_offset c) (ck_length c) ∧
  fin = ck_offset c + ck_length c.
Proof.
  intros Hl Hid Ho H. unfold chunk_shape_valid in *.
  repeat (branch_case H; [done|]). injection H as <-. split; [|done].
  destruct E as [[[? ?] ?] ?], E1 as [? ?]. split; cbn; [done..|lia|done|done|done].
Qed.

Lemma len_mread m a n : 0 <= n → len (mread m a (Z.to_nat n)) = n.
Proof. intros. unfold len. rewrite mread_length. lia. Qed.

Lemma effect_write m r w c fin now r' w' e :
  br_state r = WL_BULK_RECEIVER_RECEIVING → 0 <= ck_length c →
  chunk_fits (br_config r) (core_of r) (ck_transfer_id c) (ck_offset c) (ck_length c) →
  fin = ck_offset c + ck_length c →
  write_chunk m r w c fin now = (r', w', e) →
  effect (br_config r) (input_of (RChunk m c now)) r w r' w'.
Proof.
  intros Hs Hl Hf -> H. unfold write_chunk in H. cbn [input_of].
  pose proof (len_mread m (ck_data c) (ck_length c) Hl) as Hn.
  revert H Hn. generalize (mread m (ck_data c) (Z.to_nat (ck_length c))) as data. intros data H Hn.
  rewrite <- Hn in Hf.
  destruct (sink_write w _ _ data) as [w1 res] eqn:Eb. branch_case H; [|branch_case H].
  - rewrite E in Eb. injection H as <- <- <-. split; [|done..|right; apply honest_other; by left].
    apply rtc_once. by apply step_write_busy.
  - rewrite E0 in Eb. injection H as <- <- <-. split; [|done..|right; apply honest_other; by left].
    rewrite <- Hn. apply rtc_once. by apply (step_write_ok _ _ _ _ (core_of r)).
  - destruct (sink_failure_code _ res) as [r1 code] eqn:Ef.
    apply sink_failure_code_spec in Ef as [Hc [stats ->]]. injection H as <- <- <-.
    split; [|done..|right; apply honest_other; by left].
    apply rtc_once. by apply (step_write_failed _ _ _ _ (core_of r) _ _ res code).
Qed.

Lemma effect_finish r w now r' w' e :
  br_state r = WL_BULK_RECEIVER_RECEIVING → br_next_offset r = total_length (br_descriptor r) →
  finish_transfer r w (transfer_id (br_descriptor r)) now = (r', w', e) →
  effect (br_config r) (InEnd (transfer_id (br_descriptor r)) (total_length (br_descriptor r))
                          (object_crc32c (br_descriptor r))) r w r' w'.
Proof.
  intros Hs Ht H. unfold finish_transfer in H.
  destruct (sink_finish w _) as [w1 res] eqn:Eb. branch_case H; [|branch_case H].
  - rewrite E in Eb. injection H as <- <- <-. split; [|done..|right; apply honest_other; by right].
    apply rtc_once. by apply (step_finish_busy _ (core_of r)).
  - rewrite E0 in Eb. injection H as <- <- <-. split; [|done..|by right].
    apply rtc_once. by apply (step_finish_ok _ (core_of r)).
  - destruct (sink_failure_code _ res) as [r1 code] eqn:Ef.
    apply sink_failure_code_spec in Ef as [Hc [stats ->]]. injection H as <- <- <-.
    split; [|done..|right; apply honest_other; by right].
    apply rtc_once. by apply (step_finish_failed _ (core_of r) _ _ res code).
Qed.

(** Operations that change only what is not part of the session. *)
Ltac quiet H := injection H as <- <- <-; apply effect_quiet; [done..|].
Ltac quiet_other H := quiet H; intros _; right; apply honest_other; first [by left | by right].

Lemma effect_on_begin r w d now r' w' e :
  core_inv (core_of r) → wl_bulk_receiver_on_begin r w d now = (r', w', e) →
  effect (br_config r) (InBegin d) r w r' w'.
Proof.
  intros [Hi Hr _ _ _] H. unfold wl_bulk_receiver_on_begin in H.
  branch_case H; [by quiet H; auto|].
  branch_case H; [by quiet H; auto|].
  destruct (negotiate_chunk_size r d) as [accepted|] eqn:En; [|quiet_other H].
  branch_case H. { apply effect_begin in H; cbn; auto. by rewrite E1. }
  branch_case H. { branch_case H; quiet_other H. }
  branch_case H; [quiet_other H|]. destruct E3 as [Hnr _]. unfold release_sink in H.
  destruct (br_sink_active r) eqn:Ea; [|by apply effect_begin in H].
  apply effect_begin in H as [Hs Hc Hm Hst]; [|done..].
  split; [|done..]. eapply rtc_l; [|exact Hs]. by apply (step_release _ d (core_of r)).
Qed.

Lemma effect_on_chunk m r w c now r' w' e :
  0 <= ck_length c → wl_bulk_receiver_on_chunk m r w c now = (r', w', e) →
  effect (br_config r) (input_of (RChunk m c now)) r w r' w'.
Proof.
  intros Hl H. unfold wl_bulk_receiver_on_chunk in H.
  branch_case H; [by quiet H; auto|].
  branch_case H; [by quiet H; auto|].
  branch_case H; [quiet_other H|]. branch_case H; [quiet_other H|]. branch_case H; [quiet_other H|].
  destruct (chunk_shape_valid r c) as [fin|] eqn:Es; [|quiet_other H].
  branch_case H; [quiet_other H|]. branch_case H; [quiet_other H|]. branch_case H; [quiet_other H|].
  destruct (chunk_shape_valid_spec r c fin) as [Hf Hfin]; [done..|]. by eapply effect_write.
Qed.

(** The code of a session that is over is a success only when it completed. *)
Lemma terminal_code_failed r :
  core_inv (core_of r) → br_state r ≠ WL_BULK_RECEIVER_COMPLETED →
  br_state r ≠ WL_BULK_RECEIVER_RECEIVING → br_state r ≠ WL_BULK_RECEIVER_IDLE →
  terminal_status_code r ≠ WL_BULK_STATUS_OK.
Proof.
  intros [_ _ _ _ Hf] Hc Hr Hi. unfold terminal_status_code, in_receiver_state.
  repeat case_bool_decide; [done..|]. apply Hf. cbn. by destruct (br_state r).
Qed.

Lemma effect_on_end r w id total crc now r' w' e :
  core_inv (core_of r) → wl_bulk_receiver_on_end r w id total crc now = (r', w', e) →
  effect (br_config r) (InEnd id total crc) r w r' w'.
Proof.
  intros Hi H. unfold wl_bulk_receiver_on_end in H.
  branch_case H; [by quiet H; auto|].
  branch_case H; [by quiet H; auto|].
  branch_case H; [quiet_other H|]. branch_case H; [quiet_other H|]. branch_case H; [quiet_other H|].
  destruct E3 as [[-> ->] ->]. branch_case H.
  { quiet H. intros _. right. intros _ Hok. cbn in Hok. split; [|done].
    destruct (decide (br_state r = WL_BULK_RECEIVER_COMPLETED)) as [|Hn]; [done|].
    destruct E3 as [|[E3 _]]; [done|]. by apply (terminal_code_failed r) in Hok; rewrite ?E3. }
  branch_case H.
  { quiet H. intros _. right. apply honest_other. right. apply terminal_code_failed; naive_solver. }
  branch_case H; [quiet_other H|]. by apply effect_finish in H.
Qed.

Lemma effect_on_abort r w id reason now r' w' e :
  wl_bulk_receiver_on_abort r w id reason now = (r', w', e) →
  effect (br_config r) (InAbort id reason) r w r' w'.
Proof.
  intros H. unfold wl_bulk_receiver_on_abort in H.
  branch_case H; [by quiet H; auto|].
  branch_case H; [by quiet H; auto|].
  branch_case H; [quiet_other H|]. branch_case H.
  { unfold retain_abort_tombstone, clear_session, release_sink in H.
    assert (br_state r ≠ WL_BULK_RECEIVER_RECEIVING) as Hn by (destruct E2 as [E2 | [? _]]; congruence).
    pose proof (step_tombstone (br_config r) id reason (bulk_err_code WL_BULK_ERR_INVALID_STATE)
                  (core_of r) w Hn) as Hs.
    change (co_active (core_of r)) with (br_sink_active r) in Hs.
    destruct (br_sink_active r) eqn:Ea; [|rewrite <- Ea in Hs]; injection H as <- <- <-;
      (split; [by apply rtc_once|done..|right; apply honest_other; by left]). }
  branch_case H; [quiet_other H|]. rewrite E3 in *. branch_case H; [quiet_other H|]. branch_case H; [quiet_other H|].
  assert (br_state r = WL_BULK_RECEIVER_RECEIVING ∨ br_state r = WL_BULK_RECEIVER_FAILED) as Hn.
  { destruct (br_state r); naive_solver. }
  pose proof (step_abort (br_config r) (core_of r) w reason Hn) as Hs.
    change (co_active (core_of r)) with (br_sink_active r) in Hs.
  destruct (br_sink_active r) eqn:Ea; [|rewrite <- Ea in Hs]; injection H as <- <- <-;
    (split; [by apply rtc_once|done..|right; apply honest_other; by left]).
Qed.

Lemma effect_local r w now r' w' e :
  (wl_bulk_receiver_poll r w now = (r', w', e) → effect (br_config r) InPoll r w r' w') ∧
  (wl_bulk_receiver_reset r w = (r', w', e) → effect (br_config r) InReset r w r' w').
Proof.
  split; intros H.
  - unfold wl_bulk_receiver_poll, release_sink in H.
    branch_case H; [by quiet H; auto|].
    branch_case H; [by quiet H; auto|].
    pose proof (step_timeout (br_config r) (core_of r) w (bulk_err_code WL_BULK_ERR_TIMEOUT)
                  ltac:(cbn; tauto)) as Hs.
    change (co_active (core_of r)) with (br_sink_active r) in Hs.
    destruct (br_sink_active r) eqn:Ea; [|rewrite <- Ea in Hs]; injection H as <- <- <-;
      (split; [by apply rtc_once|done..|right; apply honest_other; by left]).
  - unfold wl_bulk_receiver_reset, clear_session, release_sink in H.
    branch_case H; [by quiet H; auto|].
    branch_case H; [by quiet H; auto|].
    pose proof (step_reset (br_config r) (core_of r) w (bulk_err_code WL_BULK_ERR_INVALID_STATE)) as Hs.
    change (co_active (core_of r)) with (br_sink_active r) in Hs.
    destruct (br_sink_active r) eqn:Ea; injection H as <- <- <-; (split; [|done..]).
    + by apply rtc_once.
    + apply rtc_once. unfold core_idle in Hs. by rewrite <- Ea in Hs.
Qed.
End effects.

(** One operation, whichever it is. *)
Lemma receiver_effect {W} `{!BulkSink W} op r (w : W) r' w' e :
  op_typed op → core_inv (core_of r) → receiver_exec op (r, w) = (r', w', e) →
  effect (br_config r) (input_of op) r w r' w'.
Proof.
  intros Ht Hi H. destruct op as [d now|m c now|id total crc now|id reason now|now| | |view|view]; cbn in H.
  - by eapply effect_on_begin.
  - by eapply effect_on_chunk; [apply Ht|].
  - by eapply effect_on_end.
  - by eapply effect_on_abort.
  - by eapply effect_local.
  - eapply effect_local; [exact 0|]. done.
  - unfold wl_bulk_receiver_status_acquire in H. repeat branch_case H; injection H as <- <- <-; apply effect_quiet; cbn; auto; try done.
  - unfold wl_bulk_receiver_status_defer in H. repeat branch_case H; injection H as <- <- <-; apply effect_quiet; cbn; auto; try done.
  - unfold wl_bulk_receiver_status_release in H. repeat branch_case H; injection H as <- <- <-; apply effect_quiet; cbn; auto; try done.
Qed.

(** ** The contract of the sink *)

Inductive sink_call :=
  | CallBegin (d : descriptor) (result resume : Z)
  | CallWrite (id offset : Z) (data : list Z) (result : Z)
  | CallFinish (d : descriptor) (result : Z)
  | CallAbort (id reason : Z).

(** Any sink, with a record of the calls it was given and their answers. *)
#[export] Instance logged_sink {W} `{!BulkSink W} : BulkSink (W * list sink_call) := {
  sink_begin '(w, log) d :=
    let '(w, result, resume) := sink_begin w d in
    ((w, log ++ [CallBegin d result resume]), result, resume);
  sink_write '(w, log) id offset data :=
    let '(w, result) := sink_write w id offset data in
    ((w, log ++ [CallWrite id offset data result]), result);
  sink_finish '(w, log) d :=
    let '(w, result) := sink_finish w d in ((w, log ++ [CallFinish d result]), result);
  sink_abort '(w, log) id reason := (sink_abort w id reason, log ++ [CallAbort id reason]);
}.

(** What the application may rely on: a transfer is open between a successful
    begin and its finish or abort, a failed call leaves it broken until it is
    aborted. *)
Inductive session :=
  | Closed
  | Open (d : descriptor) (next : Z)
  | Broken (d : descriptor).

Definition servable (cfg : receiver_config) (d : descriptor) : bool :=
  negb (transfer_id d =? 0) && (total_length d <=? rc_max_object_length cfg) &&
  negb (requested_chunk_size d =? 0).

Definition write_allowed (cfg : receiver_config) (d : descriptor) (next id offset size : Z) : bool :=
  (id =? transfer_id d) && (offset =? next) && (0 <? size) && (size <=? rc_max_chunk_size cfg) &&
  (size <=? requested_chunk_size d) && (offset + size <=? total_length d) &&
  (offset mod rc_write_alignment cfg =? 0) &&
  ((offset + size =? total_length d) || (size mod rc_write_alignment cfg =? 0)).

Definition session_next (cfg : receiver_config) (s : session) (k : sink_call) : option session :=
  match k, s with
  | CallBegin d result resume, Closed =>
      if servable cfg d then
        Some (if result =? WL_BULK_SINK_BUSY then Closed
              else if (result =? WL_BULK_SINK_OK) && (resume <=? total_length d) &&
                      ((resume =? total_length d) || (resume mod rc_write_alignment cfg =? 0))
              then Open d resume else Broken d)
      else None
  | CallWrite id offset data result, Open d next =>
      if write_allowed cfg d next id offset (len data) then
        Some (if result =? WL_BULK_SINK_BUSY then Open d next
              else if result =? WL_BULK_SINK_OK then Open d (next + len data) else Broken d)
      else None
  | CallFinish d' result, Open d next =>
      if descriptor_equal d' d && (next =? total_length d) then
        Some (if result =? WL_BULK_SINK_BUSY then Open d next
              else if result =? WL_BULK_SINK_OK then Closed else Broken d)
      else None
  | CallAbort id _, Open d _ | CallAbort id _, Broken d =>
      if id =? transfer_id d then Some Closed else None
  | _, _ => None
  end.

Fixpoint session_run (cfg : receiver_config) (s : session) (calls : list sink_call) : option session :=
  match calls with
  | [] => Some s
  | k :: calls => session_next cfg s k ≫= λ s, session_run cfg s calls
  end.

Definition session_of (c : core) : session :=
  if co_active c then
    if bool_decide (co_state c = WL_BULK_RECEIVER_RECEIVING) then Open (co_descriptor c) (co_next c)
    else Broken (co_descriptor c)
  else Closed.

Lemma session_run_app cfg s k1 k2 :
  session_run cfg s (k1 ++ k2) = session_run cfg s k1 ≫= λ s, session_run cfg s k2.
Proof. revert s. induction k1 as [|k k1 IH]; intros s; cbn; [done|]. destruct (session_next cfg s k); cbn; auto. Qed.

Lemma is_power_of_two_pos v : is_power_of_two v = true → 0 < v.
Proof.
  unfold is_power_of_two. intros H. destruct (decide (v < 0)) as [Hn|]; [|lia].
  assert (Z.land v (v - 1) < 0) by (apply Z.land_neg; lia). lia.
Qed.

Lemma granted_bounds cfg d accepted :
  0 < rc_write_alignment cfg → granted cfg d accepted →
  servable cfg d = true ∧ accepted <= rc_max_chunk_size cfg ∧ accepted <= requested_chunk_size d.
Proof.
  intros Ha H. unfold granted, negotiate_chunk_size, servable in *. cbn in H.
  branch_case H; [done|]. set (limit := if _ <? _ then _ else _) in H.
  assert (limit <= rc_max_chunk_size cfg ∧ limit <= requested_chunk_size d) as Hl.
  { unfold limit. destruct (_ <? _) eqn:El; lia. }
  pose proof (Z.mod_pos_bound limit _ Ha). split; [lia|].
  branch_case H; [branch_case H; [done|]|]; simplify_eq; lia.
Qed.

Section contract.
Context {W : Type} `{!BulkSink W} (cfg : receiver_config).
Hypothesis cfg_aligned : 0 < rc_write_alignment cfg.

(** What the steps keep besides [core_inv]: an open transfer was granted. *)
Definition core_granted (c : core) : Prop :=
  co_state c = WL_BULK_RECEIVER_RECEIVING → granted cfg (co_descriptor c) (co_accepted c).

Lemma session_step_granted i (x y : core * (W * list sink_call)) :
  session_step cfg i x y → core_granted x.1 → core_granted y.1.
Proof using. intros Hs H. destruct Hs; cbn in *; try done; by intros ?. Qed.

Lemma session_of_receiving c :
  core_inv c → co_state c = WL_BULK_RECEIVER_RECEIVING → session_of c = Open (co_descriptor c) (co_next c).
Proof using. intros [_ Hr _ _ _] E. unfold session_of. by rewrite Hr, E. Qed.

Lemma write_allowed_fits c id offset size :
  granted cfg (co_descriptor c) (co_accepted c) → chunk_fits cfg c id offset size →
  write_allowed cfg (co_descriptor c) (co_next c) id offset size = true.
Proof.
  intros Hg Hf. destruct (granted_bounds _ _ _ cfg_aligned Hg) as (_ & ? & ?).
  destruct Hf as [-> -> ? ? ? ?]. unfold write_allowed. lia.
Qed.

(** The log of a call. *)
Lemma logged_begin (x : W * list sink_call) d x' result resume :
  sink_begin x d = (x', result, resume) → x'.2 = x.2 ++ [CallBegin d result resume].
Proof using. destruct x as [w log]. cbn. destruct (sink_begin w d) as [[? ?] ?]. by intros [= <- <- <-]. Qed.

Lemma logged_write (x : W * list sink_call) id offset data x' result :
  sink_write x id offset data = (x', result) → x'.2 = x.2 ++ [CallWrite id offset data result].
Proof using. destruct x as [w log]. cbn. destruct (sink_write w _ _ _) as [? ?]. by intros [= <- <-]. Qed.

Lemma logged_finish (x : W * list sink_call) d x' result :
  sink_finish x d = (x', result) → x'.2 = x.2 ++ [CallFinish d result].
Proof using. destruct x as [w log]. cbn. destruct (sink_finish w _) as [? ?]. by intros [= <- <-]. Qed.

(** An abort of whatever is open closes the session. *)
Lemma session_released c (x : W * list sink_call) reason :
  ∃ calls, (if co_active c then sink_abort x (transfer_id (co_descriptor c)) reason else x).2 = x.2 ++ calls ∧
           session_run cfg (session_of c) calls = Some Closed.
Proof using.
  unfold session_of. destruct x as [w log], (co_active c).
  - eexists [_]. split; [done|]. case_bool_decide; cbn; by rewrite Z.eqb_refl.
  - exists []. by rewrite app_nil_r.
Qed.

Lemma session_of_closed c : co_active c = false → session_of c = Closed.
Proof using. unfold session_of. by intros ->. Qed.

Lemma begin_next c d accepted result resume :
  granted cfg d accepted → co_active c = false →
  session_next cfg (session_of c) (CallBegin d result resume) =
  Some (if result =? WL_BULK_SINK_BUSY then Closed
        else if (result =? WL_BULK_SINK_OK) && (resume <=? total_length d) &&
                ((resume =? total_length d) || (resume mod rc_write_alignment cfg =? 0))
        then Open d resume else Broken d).
Proof.
  intros Hg Ha. destruct (granted_bounds _ _ _ cfg_aligned Hg) as (Hs & _ & _).
  rewrite session_of_closed by done. cbn. by rewrite Hs.
Qed.

Lemma write_next c id offset data result :
  core_inv c → core_granted c → co_state c = WL_BULK_RECEIVER_RECEIVING →
  chunk_fits cfg c id offset (len data) →
  session_next cfg (session_of c) (CallWrite id offset data result) =
  Some (if result =? WL_BULK_SINK_BUSY then session_of c
        else if result =? WL_BULK_SINK_OK then Open (co_descriptor c) (co_next c + len data)
        else Broken (co_descriptor c)).
Proof.
  intros Hi Hg Hr Hf. rewrite (session_of_receiving _ Hi Hr). cbn.
  by rewrite (write_allowed_fits _ _ _ _ (Hg Hr) Hf).
Qed.

Lemma finish_next c result :
  core_inv c → co_state c = WL_BULK_RECEIVER_RECEIVING → co_next c = total_length (co_descriptor c) →
  session_next cfg (session_of c) (CallFinish (co_descriptor c) result) =
  Some (if result =? WL_BULK_SINK_BUSY then session_of c
        else if result =? WL_BULK_SINK_OK then Closed else Broken (co_descriptor c)).
Proof using.
  intros Hi Hr Ht. rewrite (session_of_receiving _ Hi Hr). cbn.
  by rewrite (proj2 (descriptor_equal_spec _ _) eq_refl), Ht, Z.eqb_refl.
Qed.

Lemma session_of_broken c :
  co_active c = true → co_state c ≠ WL_BULK_RECEIVER_RECEIVING → session_of c = Broken (co_descriptor c).
Proof using. unfold session_of. intros -> ?. by rewrite bool_decide_false. Qed.

Lemma sink_failed_tests result :
  sink_failed result → (result =? WL_BULK_SINK_BUSY) = false ∧ (result =? WL_BULK_SINK_OK) = false.
Proof using. intros [? ?]. by rewrite !Z.eqb_neq. Qed.

(** The calls of one step drive the session automaton. *)
Lemma session_step_calls i c (x : W * list sink_call) c' x' :
  session_step cfg i (c, x) (c', x') → core_inv c → core_granted c →
  ∃ calls, x'.2 = x.2 ++ calls ∧ session_run cfg (session_of c) calls = Some (session_of c').
Proof.
  intros Hs Hi Hg. inversion Hs; subst; clear Hs.
  all: lazymatch goal with
       | H : sink_begin _ _ = _ |- _ =>
           eexists [_]; split; [by eapply logged_begin|]; cbn [session_run]; erewrite begin_next by done
       | H : sink_write _ _ _ _ = _ |- _ =>
           eexists [_]; split; [by eapply logged_write|]; cbn [session_run]; rewrite write_next by done
       | H : sink_finish _ _ = _ |- _ =>
           eexists [_]; split; [by eapply logged_finish|]; cbn [session_run]; rewrite finish_next by done
       | _ => idtac
       end.
  all: try match goal with H : sink_failed _ |- _ => destruct (sink_failed_tests _ H) as [-> ->] end; cbn -[sink_abort].
  all: try apply session_released; try done.
  - pose proof (session_released c x reason) as R. by match goal with H : co_active c = true |- _ => rewrite H in R end.
  - by rewrite session_of_closed.
  - match goal with H : resume_valid _ _ _ |- _ => destruct H as [? Hv] end.
    rewrite (proj2 (Z.leb_le _ _)) by done. cbn. by destruct Hv as [-> | ->]; rewrite ?Z.eqb_refl, ?orb_true_r.
  - match goal with H : _ ∨ _ |- _ => destruct H as [Hf | [-> Hv]] end.
    { by destruct (sink_failed_tests _ Hf) as [-> ->]. }
    cbn. case_match eqn:E; [|done]. exfalso. apply Hv. unfold resume_valid. lia.
  - match goal with H : chunk_fits _ _ _ _ _ |- _ => destruct H as [_ -> _ _ _ _] end.
    by rewrite (session_of_receiving (mk_core _ _ _ _ _ _)) by first [done | destruct Hi; by split].
  - by rewrite (session_of_broken (mk_core _ _ _ _ _ _)) by first [done | by apply Hi].
  - by rewrite (session_of_broken (mk_core _ _ _ _ _ _)) by first [done | by apply Hi].
Qed.

Lemma session_steps_calls i (s s' : core * (W * list sink_call)) :
  session_steps cfg i s s' → core_inv s.1 → core_granted s.1 →
  core_granted s'.1 ∧
  ∃ calls, s'.2.2 = s.2.2 ++ calls ∧ session_run cfg (session_of s.1) calls = Some (session_of s'.1).
Proof.
  induction 1 as [s|[c x] [c1 x1] s2 H1 H2 IH]; intros Hi Hg.
  { split; [done|]. exists []. by rewrite app_nil_r. }
  destruct (session_step_calls _ _ _ _ _ H1 Hi Hg) as (k1 & E1 & R1).
  destruct IH as [? (k2 & E2 & R2)].
  { by apply (session_step_inv _ _ _ _ H1). }
  { by apply (session_step_granted _ _ _ H1). }
  split; [done|]. exists (k1 ++ k2). cbn in *. by rewrite E2, E1, <- app_assoc, session_run_app, R1.
Qed.
End contract.

(** A run keeps the invariants and appends the calls of a session. *)
Lemma receiver_run_calls {W} `{!BulkSink W} cfg ops (s : receiver * (W * list sink_call)) :
  0 < rc_write_alignment cfg → Forall op_typed ops → br_config s.1 = cfg →
  core_inv (core_of s.1) → core_granted cfg (core_of s.1) →
  let s' := receiver_run ops s in
  ∃ calls, s'.2.2 = s.2.2 ++ calls ∧
           session_run cfg (session_of (core_of s.1)) calls = Some (session_of (core_of s'.1)).
Proof.
  intros Ha Ht. revert s. induction Ht as [|op ops Hop Ht IH]; intros [r x] Hc Hi Hg; cbn [receiver_run].
  { exists []. by rewrite app_nil_r. }
  destruct (receiver_exec op (r, x)) as [[r1 x1] e] eqn:E. cbn in *.
  destruct (receiver_effect _ _ _ _ _ _ Hop Hi E) as [Hs Hc1 _ _]. rewrite Hc in Hs.
  destruct (session_steps_calls cfg Ha _ _ _ Hs Hi Hg) as [Hg1 (k1 & E1 & R1)].
  destruct (IH (r1, x1)) as (k2 & E2 & R2); [cbn; congruence|by apply (session_steps_inv _ _ _ _ Hs)|done|].
  exists (k1 ++ k2). cbn in *. by rewrite E2, E1, <- app_assoc, session_run_app, R1.
Qed.

Lemma receiver_init_spec r0 cfg r :
  wl_bulk_receiver_init r0 cfg = (r, WL_BULK_OK) →
  r = receiver_zero <| br_config := cfg |> <| br_magic := WL_BULK_RECEIVER_MAGIC |> ∧
  0 < rc_write_alignment cfg ∧ 0 < rc_max_chunk_size cfg ∧ rc_write_alignment cfg <= rc_max_chunk_size cfg.
Proof.
  unfold wl_bulk_receiver_init. intros H. branch_case H; [done|]. injection H as <-.
  destruct E as [[[[[[[[? ?] Hp] ?] ?] ?] ?] ?] ?]. apply is_power_of_two_pos in Hp.
  split; [done|]. lia.
Qed.

(** ** A sink in memory

    Keeps what it was given per transfer and resumes at the last whole word. *)
Record memory_sink := mk_memory_sink {
  ms_persisted : gmap Z (list Z);
  ms_committed : list (Z * list Z);
}.

Definition ms_bytes (w : memory_sink) (id : Z) : list Z := default [] (ms_persisted w !! id).

#[export] Instance memory_bulk_sink : BulkSink memory_sink := {
  sink_begin w d :=
    let kept := take (Z.to_nat (len (ms_bytes w (transfer_id d)) / 4 * 4)) (ms_bytes w (transfer_id d)) in
    (mk_memory_sink (<[transfer_id d := kept]> (ms_persisted w)) (ms_committed w), WL_BULK_SINK_OK, len kept);
  sink_write w id offset data :=
    (mk_memory_sink (<[id := ms_bytes w id ++ data]> (ms_persisted w)) (ms_committed w), WL_BULK_SINK_OK);
  sink_finish w d :=
    (mk_memory_sink (ms_persisted w) (ms_committed w ++ [(transfer_id d, ms_bytes w (transfer_id d))]),
     WL_BULK_SINK_OK);
  sink_abort w id reason := w;
}.

Definition memory_sink_empty : memory_sink := mk_memory_sink ∅ [].

Definition demo_receiver_config : receiver_config :=
  mk_receiver_config 64 8 4 1000 true true true true.

Definition demo_receiver : receiver := (wl_bulk_receiver_init receiver_zero demo_receiver_config).1.

Definition demo_descriptor : descriptor := mk_descriptor 7 10 8 0.

Definition demo_memory : mem := mwrite (λ _, 0) 100 [1; 2; 3; 4; 5; 6; 7; 8; 9; 10].

(** The application publishes the status the receiver retained. *)
Definition published (code phase next size token : Z) : list receiver_op :=
  [RAcquire; RRelease (mk_status_view (mk_status 7 phase code next size) token)].

(** A run with a chunk out of turn, a repeated chunk and an End too early. *)
Definition demo_receiver_ops : list receiver_op :=
  [RChunk demo_memory (mk_chunk 7 0 100 8) 1] ++ published 2 2 0 0 1 ++
  [RBegin demo_descriptor 2] ++ published 0 1 0 8 2 ++
  [RChunk demo_memory (mk_chunk 7 0 100 8) 3] ++ published 0 2 8 8 3 ++
  [RChunk demo_memory (mk_chunk 7 0 100 8) 4] ++ published 0 2 8 8 4 ++
  [REnd 7 10 0 5] ++ published 2 3 8 8 5 ++
  [RChunk demo_memory (mk_chunk 7 8 108 2) 6] ++ published 0 2 10 8 6 ++
  [REnd 7 10 0 7] ++ published 0 3 10 8 7.

Lemma demo_receiver_ops_typed : Forall op_typed demo_receiver_ops.
Proof. repeat (constructor; [first [done | unfold op_typed; cbn; lia]|]). constructor. Qed.

(** C7: Whatever messages arrive, in whatever order and however
    often, the calls an initialized receiver makes to the application's sink form
    proper sessions: Begin only when nothing is open and only for an object it may
    serve; writes only to the open transfer, contiguous from the resumed offset,
    aligned, inside the object and no larger than granted; Finish only when every
    byte was written; and exactly one Finish or Abort closes what a Begin opened.
    The automaton ends in the state the receiver's own fields describe. *)
Theorem receiver_sink_contract {W} `{!BulkSink W} cfg r0 (w0 : W) ops r :
  wl_bulk_receiver_init r0 cfg = (r, WL_BULK_OK) → Forall op_typed ops →
  let '(r', (_, calls)) := receiver_run ops (r, (w0, [])) in
  session_run cfg Closed calls = Some (session_of (core_of r')).
Proof.
  intros [-> [Ha _]]%receiver_init_spec Ht.
  set (r := receiver_zero <| br_config := cfg |> <| br_magic := WL_BULK_RECEIVER_MAGIC |>).
  destruct (receiver_run_calls cfg ops (r, (w0, [])) Ha Ht) as (calls & E & R); [done|by split|done|].
  destruct (receiver_run ops (r, (w0, []))) as [r' [w' log]]. cbn in *. by subst.
Qed.

Lemma receiver_sink_contract_witness :
  let '(_, (w, calls)) := receiver_run demo_receiver_ops (demo_receiver, (memory_sink_empty, [])) in
  calls = [CallBegin demo_descriptor 0 0; CallWrite 7 0 [1; 2; 3; 4; 5; 6; 7; 8] 0; CallWrite 7 8 [9; 10] 0;
           CallFinish demo_descriptor 0] ∧
  ms_committed w = [(7, [1; 2; 3; 4; 5; 6; 7; 8; 9; 10])] ∧
  session_run demo_receiver_config Closed calls = Some Closed.
Proof.
  pose proof (receiver_sink_contract demo_receiver_config receiver_zero memory_sink_empty demo_receiver_ops
                demo_receiver eq_refl demo_receiver_ops_typed) as H.
  destruct (receiver_run demo_receiver_ops (demo_receiver, (memory_sink_empty, []))) as [r [w calls]] eqn:E.
  vm_compute in E. injection E as <- <- <-. split; [reflexivity|]. split; [reflexivity|]. exact H.
Defined.
