(* ===== verification/BulkTransfer.v ===== *)
(** Bulk transfer end to end.

    A sender and a receiver exchange messages and statuses over a network that
    keeps everything ever sent and may deliver any of it, in any order, any number
    of times, or never.  The sink is any sink that satisfies [SinkLaws], what the
    callbacks of [wl_bulk_sink_t] are documented to do.  The applications at both
    ends follow the interface: they submit the action they acquired, read the
    chunk from the object the transfer names, and publish the status they
    acquired. *)
From stdpp Require Import gmap.
From S2P Require Import Prelude Slots Clock Bulk BulkSender BulkSending BulkReceiver BulkSession.

(** ** What a sink promises *)

(** [persisted w id] is the prefix the sink keeps of a transfer, [committed w]
    the objects it has committed. *)
Class SinkLaws (W : Type) `{!BulkSink W} := {
  persisted : W → Z → list Z;
  committed : W → list (Z * list Z);
  law_begin w d w' result resume :
    sink_begin w d = (w', result, resume) →
    committed w' = committed w ∧ (∀ id, persisted w' id `prefix_of` persisted w id) ∧
    (result = WL_BULK_SINK_OK → resume = len (persisted w' (transfer_id d)));
  law_write w id offset data w' result :
    offset = len (persisted w id) → sink_write w id offset data = (w', result) →
    committed w' = committed w ∧ (∀ id', id' ≠ id → persisted w' id' `prefix_of` persisted w id') ∧
    persisted w' id `prefix_of` persisted w id ++ data ∧
    (result = WL_BULK_SINK_OK → persisted w' id = persisted w id ++ data) ∧
    (result = WL_BULK_SINK_BUSY → persisted w' id = persisted w id);
  law_finish w d w' result :
    sink_finish w d = (w', result) →
    (∀ id, persisted w' id `prefix_of` persisted w id) ∧
    (result = WL_BULK_SINK_OK →
     committed w' = committed w ++ [(transfer_id d, persisted w (transfer_id d))]) ∧
    (result ≠ WL_BULK_SINK_OK → committed w' = committed w) ∧
    (result = WL_BULK_SINK_BUSY → persisted w' (transfer_id d) = persisted w (transfer_id d));
  law_abort w id reason :
    committed (sink_abort w id reason) = committed w ∧
    (∀ id', persisted (sink_abort w id reason) id' `prefix_of` persisted w id');
}.

Lemma ms_bytes_insert p c id l id' :
  ms_bytes (mk_memory_sink (<[id := l]> p) c) id' =
  if decide (id = id') then l else ms_bytes (mk_memory_sink p c) id'.
Proof. unfold ms_bytes. cbn. case_decide; subst; [by rewrite lookup_insert_eq|by rewrite lookup_insert_ne]. Qed.

#[export, refine] Instance memory_sink_laws : SinkLaws memory_sink := {
  persisted := ms_bytes;
  committed := ms_committed;
}.
Proof.
  - intros w d w' result resume [= <- <- <-]. split; [done|]. split.
    + intros id. rewrite ms_bytes_insert. case_decide; subst; [apply prefix_take|done].
    + intros _. by rewrite ms_bytes_insert, decide_True.
  - intros w id offset data w' result _ [= <- <-]. split; [done|]. split; [|split_and!].
    + intros id' Hne. by rewrite ms_bytes_insert, decide_False.
    + by rewrite ms_bytes_insert, decide_True.
    + intros _. by rewrite ms_bytes_insert, decide_True.
    + done.
  - by intros w d w' result [= <- <-].
  - done.
Defined.

(** ** The objects behind the transfer identifiers *)

(** Transfer identifiers are fresh per logical transfer: each names one
    descriptor and one object. *)
Record catalog := mk_catalog {
  cat_descriptor : Z → descriptor;
  cat_object : Z → list Z;
}.

Record catalog_ok (cat : catalog) : Prop := {
  ok_id id : transfer_id (cat_descriptor cat id) = id;
  ok_length id : total_length (cat_descriptor cat id) = len (cat_object cat id);
}.

(** The bytes a source yields for [length] bytes at [offset]. *)
Definition source_read (object : list Z) (offset length : Z) : list Z :=
  take (Z.to_nat length) (drop (Z.to_nat offset) object).

Section world.
Context {W : Type} `{!BulkSink W, !SinkLaws W} (cat : catalog) (Hcat : catalog_ok cat).
Implicit Types (c : core) (w : W).

Notation object := (cat_object cat).

(** A message the sender may have sent. *)
Definition genuine (i : bulk_input) : Prop :=
  match i with
  | InBegin d => d = cat_descriptor cat (transfer_id d)
  | InChunk id offset data => data = source_read (object id) offset (len data)
  | _ => True
  end.

(** What the sink holds is right. *)
Record world_ok (w : W) : Prop := {
  wo_prefix id : persisted w id `prefix_of` object id;
  wo_exact id bytes : (id, bytes) ∈ committed w → bytes = object id;
}.

(** What the receiver believes of the sink is true. *)
Record good (c : core) (w : W) : Prop := {
  go_world : world_ok w;
  go_receiving : co_state c = WL_BULK_RECEIVER_RECEIVING →
    co_descriptor c = cat_descriptor cat (transfer_id (co_descriptor c)) ∧
    co_next c = len (persisted w (transfer_id (co_descriptor c)));
  go_completed : co_state c = WL_BULK_RECEIVER_COMPLETED →
    (transfer_id (co_descriptor c), object (transfer_id (co_descriptor c))) ∈ committed w;
}.

(** A sink that kept less than before is still right. *)
Lemma world_ok_prefix w w' :
  world_ok w → committed w' = committed w → (∀ id, persisted w' id `prefix_of` persisted w id) → world_ok w'.
Proof using.
  intros [Hp He] Ec Hw. split; [|by rewrite Ec]. intros id. etrans; [apply Hw|apply Hp].
Qed.

(** A whole prefix is the object. *)
Lemma prefix_whole (l k : list Z) : l `prefix_of` k → len l = len k → l = k.
Proof using. intros Hp Hl. apply prefix_length_eq; [done|]. unfold len in Hl. lia. Qed.

(** The next chunk of the source continues the prefix. *)
Lemma prefix_continue (l k data : list Z) :
  l `prefix_of` k → data = source_read k (len l) (len data) → l ++ data `prefix_of` k.
Proof using.
  intros [t ->] Hd. unfold source_read, len in Hd. rewrite !Nat2Z.id, drop_app_length in Hd.
  exists (drop (length data) t). rewrite <- app_assoc. f_equal. rewrite <- (take_drop (length data) t) at 1.
  by rewrite <- Hd.
Qed.

(** An abort, of an open transfer or of none. *)
Lemma abort_good c w reason :
  world_ok w →
  let w' := if co_active c then sink_abort w (transfer_id (co_descriptor c)) reason else w in
  world_ok w' ∧ committed w' = committed w.
Proof using.
  intros Hw. cbn. destruct (co_active c); [|done].
  destruct (law_abort w (transfer_id (co_descriptor c)) reason) as [Ec Hp].
  split; [|done]. by eapply world_ok_prefix.
Qed.

Lemma begin_good w d w' result resume :
  sink_begin w d = (w', result, resume) → world_ok w → world_ok w' ∧ committed w' = committed w.
Proof using. intros (Ec & Hp & _)%law_begin Hw. split; [|done]. by eapply world_ok_prefix. Qed.

Lemma write_good cfg c w id offset data w' result :
  sink_write w id offset data = (w', result) → chunk_fits cfg c id offset (len data) →
  genuine (InChunk id offset data) → co_next c = len (persisted w (transfer_id (co_descriptor c))) →
  world_ok w → world_ok w' ∧ committed w' = committed w.
Proof using.
  intros H Hf Hg Hn Hw. destruct Hf as [-> -> _ _ _ _]. cbn in Hg. rewrite Hn in *.
  destruct (law_write _ _ _ _ _ _ eq_refl H) as (Ec & Ho & Hp & _ & _).
  split; [|done]. split; [|rewrite Ec; apply Hw]. intros id.
  destruct (decide (id = transfer_id (co_descriptor c))) as [->|Hne].
  - etrans; [exact Hp|]. apply prefix_continue; [apply Hw|done].
  - etrans; [by apply Ho|apply Hw].
Qed.

(** A transfer whose every byte is persisted is the object. *)
Lemma receiving_whole c w :
  good c w → co_state c = WL_BULK_RECEIVER_RECEIVING → co_next c = total_length (co_descriptor c) →
  persisted w (transfer_id (co_descriptor c)) = object (transfer_id (co_descriptor c)).
Proof using Hcat.
  intros [Hw Hr _] Hs Ht. destruct (Hr Hs) as [Hd Hn]. apply prefix_whole; [apply Hw|].
  rewrite <- (ok_length cat Hcat), <- Hd. congruence.
Qed.

Lemma finish_good c w w' result :
  sink_finish w (co_descriptor c) = (w', result) → good c w →
  co_state c = WL_BULK_RECEIVER_RECEIVING → co_next c = total_length (co_descriptor c) →
  world_ok w' ∧ (∀ x, x ∈ committed w → x ∈ committed w') ∧
  (result = WL_BULK_SINK_OK →
   (transfer_id (co_descriptor c), object (transfer_id (co_descriptor c))) ∈ committed w').
Proof using Hcat.
  intros H Hg Hs Ht. pose proof (receiving_whole c w Hg Hs Ht) as Hfull.
  destruct (law_finish _ _ _ _ H) as (Hp & Hok & Hno & _). rewrite Hfull in Hok.
  assert (∀ id, persisted w' id `prefix_of` object id) as Hp'.
  { intros id. etrans; [apply Hp|apply Hg]. }
  destruct (decide (result = WL_BULK_SINK_OK)) as [E|E].
  - rewrite (Hok E). split; [split; [done|]|].
    + intros id bytes. rewrite (Hok E), elem_of_app, list_elem_of_singleton.
      intros [Hin|[= -> ->]]; [by apply (wo_exact w (go_world c w Hg))|done].
    + split; [intros x; rewrite elem_of_app; auto|]. intros _. apply elem_of_app. right.
      by apply list_elem_of_singleton.
  - rewrite (Hno E). split; [split; [done|rewrite (Hno E); apply Hg]|]. done.
Qed.

(** Committed objects stay committed, and the beliefs stay true. *)
Lemma session_step_good cfg i c w c' w' :
  session_step cfg i (c, w) (c', w') → genuine i → good c w →
  good c' w' ∧ (∀ x, x ∈ committed w → x ∈ committed w').
Proof using Hcat.
  intros Hs Hgen Hg. inversion Hs; subst; clear Hs.
  all: try (match goal with H : sink_begin _ _ = _ |- _ => rename H into Hb end;
            destruct (begin_good _ _ _ _ _ Hb (go_world _ _ Hg)) as [Hw' Ec]).
  all: try (match goal with H : sink_write _ _ _ _ = _, H2 : chunk_fits _ _ _ _ _ |- _ =>
              rename H into Hb; rename H2 into Hf end;
            destruct (go_receiving _ _ Hg ltac:(assumption)) as [Hd Hn];
            destruct (write_good _ _ _ _ _ _ _ _ Hb Hf Hgen Hn (go_world _ _ Hg)) as [Hw' Ec]).
  all: try (match goal with H : sink_finish _ _ = _ |- _ => rename H into Hb end;
            destruct (finish_good _ _ _ _ Hb Hg ltac:(assumption) ltac:(assumption)) as (Hw' & Ec & Hok)).
  all: try (lazymatch goal with |- context [if co_active ?c0 then sink_abort ?w0 _ ?reason else _] =>
              destruct (abort_good c0 w0 reason (go_world _ _ Hg)) as [Hw' Ec] end).
  all: try (split; [by split; cbn|by (rewrite Ec + idtac)]).
  - pose proof (abort_good c w reason (go_world _ _ Hg)) as Hr.
    match goal with H : co_active c = true |- _ => rewrite H in Hr end. destruct Hr as [Hw' Ec].
    split; [split; cbn; [done|done|rewrite Ec; apply Hg]|by rewrite Ec].
  - split; [split; [done|done|rewrite Ec; apply Hg]|by rewrite Ec].
  - split; [split; cbn; [done| |done]|by rewrite Ec]. intros _. split; [done|].
    by apply (law_begin _ _ _ _ _ Hb).
  - destruct Hf as [-> -> _ _ _ _]. rewrite Hn in Hb. apply law_write in Hb as (_ & _ & _ & _ & Hbz); [|done].
    split; [split; [done| |rewrite Ec; apply Hg]|by rewrite Ec]. intros _. split; [done|]. by rewrite Hbz.
  - destruct Hf as [-> -> _ _ _ _]. rewrite Hn in Hb. apply law_write in Hb as (_ & _ & _ & Hok & _); [|done].
    split; [split; cbn; [done| |rewrite Ec; apply Hg]|by rewrite Ec]. intros _. split; [done|].
    rewrite Hok by done. rewrite len_app. lia.
  - split; [split; [done| |congruence]|done]. intros Hs. destruct (go_receiving _ _ Hg Hs) as [Hd Hn].
    split; [done|]. apply law_finish in Hb as (_ & _ & _ & Hbz). by rewrite Hbz.
  - split; [split; cbn; [done|done|]|done]. by intros _; apply Hok.
Qed.

Lemma session_steps_good cfg i s s' :
  session_steps cfg i s s' → genuine i → good s.1 s.2 →
  good s'.1 s'.2 ∧ (∀ x, x ∈ committed s.2 → x ∈ committed s'.2).
Proof using Hcat.
  induction 1 as [|[c w] [c1 w1] s2 H1 _ IH]; intros Hgen Hg; [done|].
  destruct (session_step_good _ _ _ _ _ _ H1 Hgen Hg) as [Hg1 Hc1].
  destruct (IH Hgen Hg1) as [Hg2 Hc2]. split; [done|]. auto.
Qed.
End world.

(** ** Two ends and a network *)

Record system (W : Type) := mk_system {
  sy_sender : sender;
  sy_receiver : receiver;
  sy_sink : W;
  sy_action : option action;
  sy_view : option status_view;
  sy_messages : list bulk_input;
  sy_statuses : list status;
}.
Arguments mk_system {W}.
Arguments sy_sender {W}.
Arguments sy_receiver {W}.
Arguments sy_sink {W}.
Arguments sy_action {W}.
Arguments sy_view {W}.
Arguments sy_messages {W}.
Arguments sy_statuses {W}.

(** [nth]s choose from everything ever sent. *)
Inductive system_op :=
  | OpStart (id : Z)
  | OpCancel (reason : Z)
  | OpSenderReset
  | OpSenderPoll (now : Z)
  | OpAcquireAction
  | OpDeferAction
  | OpSubmitAction (now : Z)
  | OpDeliverMessage (n : nat) (address now : Z)
  | OpReceiverPoll (now : Z)
  | OpReceiverReset
  | OpAcquireStatus
  | OpDeferStatus
  | OpPublishStatus
  | OpDeliverStatus (n : nat) (now : Z).

(** The message of an action, with the chunk read from the object. *)
Definition message_of (cat : catalog) (a : action) : bulk_input :=
  let d := ac_descriptor a in
  if ac_phase a =? WL_BULK_PHASE_BEGIN then InBegin d
  else if ac_phase a =? WL_BULK_PHASE_CHUNK then
    InChunk (transfer_id d) (ac_offset a) (source_read (cat_object cat (transfer_id d)) (ac_offset a) (ac_length a))
  else if ac_phase a =? WL_BULK_PHASE_END then InEnd (transfer_id d) (total_length d) (object_crc32c d)
  else InAbort (transfer_id d) (ac_abort_reason a).

(** What the receiver's application does with a message; the bytes of a chunk
    arrive in a buffer of its own. *)
Definition deliver (i : bulk_input) (address now : Z) : receiver_op :=
  match i with
  | InBegin d => RBegin d now
  | InChunk id offset data =>
      RChunk (mwrite (λ _, 0) address data) (mk_chunk id offset address (len data)) now
  | InEnd id total crc => REnd id total crc now
  | InAbort id reason => RAbort id reason now
  | InPoll | InReset | InStatus => RPoll now
  end.

Section system.
Context {W : Type} `{!BulkSink W} (cat : catalog).

Definition on_sender (y : system W) (op : sender_op) : system W :=
  mk_system (sender_exec op (sy_sender y)).1 (sy_receiver y) (sy_sink y) (sy_action y) (sy_view y)
    (sy_messages y) (sy_statuses y).

Definition on_receiver (y : system W) (op : receiver_op) : system W :=
  let '(r, w, _) := receiver_exec op (sy_receiver y, sy_sink y) in
  mk_system (sy_sender y) r w (sy_action y) (sy_view y) (sy_messages y) (sy_statuses y).

Definition system_exec (op : system_op) (y : system W) : system W :=
  match op with
  | OpStart id => on_sender y (SStart (cat_descriptor cat id))
  | OpCancel reason => on_sender y (SCancel reason)
  | OpSenderReset => on_sender y SReset
  | OpSenderPoll now => on_sender y (SPoll now)
  | OpAcquireAction =>
      let '(s, e, a) := wl_bulk_sender_action_acquire (sy_sender y) in
      mk_system s (sy_receiver y) (sy_sink y) (if decide (e = WL_BULK_OK) then Some a else sy_action y)
        (sy_view y) (sy_messages y) (sy_statuses y)
  | OpDeferAction =>
      match sy_action y with
      | None => y
      | Some a => on_sender y (SDefer a)
      end
  | OpSubmitAction now =>
      match sy_action y with
      | None => y
      | Some a =>
          let '(s, e) := wl_bulk_sender_action_submitted (sy_sender y) a now in
          mk_system s (sy_receiver y) (sy_sink y) (sy_action y) (sy_view y)
            (sy_messages y ++ if decide (e = WL_BULK_OK) then [message_of cat a] else []) (sy_statuses y)
      end
  | OpDeliverMessage n address now =>
      match sy_messages y !! n with
      | None => y
      | Some i => on_receiver y (deliver i address now)
      end
  | OpReceiverPoll now => on_receiver y (RPoll now)
  | OpReceiverReset => on_receiver y RReset
  | OpAcquireStatus =>
      let '(r, e, v) := wl_bulk_receiver_status_acquire (sy_receiver y) in
      mk_system (sy_sender y) r (sy_sink y) (sy_action y)
        (if decide (e = WL_BULK_OK) then Some v else sy_view y) (sy_messages y) (sy_statuses y)
  | OpDeferStatus =>
      match sy_view y with
      | None => y
      | Some v => on_receiver y (RDefer v)
      end
  | OpPublishStatus =>
      match sy_view y with
      | None => y
      | Some v =>
          let '(r, e) := wl_bulk_receiver_status_release (sy_receiver y) v in
          mk_system (sy_sender y) r (sy_sink y) (sy_action y) (sy_view y) (sy_messages y)
            (sy_statuses y ++ if decide (e = WL_BULK_OK) then [vw_status v] else [])
      end
  | OpDeliverStatus n now =>
      match sy_statuses y !! n with
      | None => y
      | Some st => on_sender y (SStatus st now)
      end
  end.

Definition system_run (ops : list system_op) (y : system W) : system W := foldl (λ y op, system_exec op y) y ops.
End system.

(** ** Nothing is reported done that is not *)

Section exact.
Context {W : Type} `{!BulkSink W, !SinkLaws W} (cat : catalog) (Hcat : catalog_ok cat).
Notation object := (cat_object cat).

(** A status that reports the end of a transfer tells the truth. *)
Definition true_status (w : W) (st : status) : Prop :=
  st_phase st = WL_BULK_PHASE_END → st_code st = WL_BULK_STATUS_OK →
  (st_transfer_id st, object (st_transfer_id st)) ∈ committed w.

Definition known_descriptor (d : descriptor) : Prop := d = cat_descriptor cat (transfer_id d).

Record system_ok (y : system W) : Prop := {
  yo_core : core_inv (core_of (sy_receiver y));
  yo_good : good cat (core_of (sy_receiver y)) (sy_sink y);
  yo_sender : bs_state (sy_sender y) = WL_BULK_SENDER_IDLE ∨ known_descriptor (bs_descriptor (sy_sender y));
  yo_action a : sy_action y = Some a → known_descriptor (ac_descriptor a);
  yo_messages : Forall (genuine cat) (sy_messages y);
  yo_pending : br_status_pending (sy_receiver y) = true →
               true_status (sy_sink y) (br_pending_status (sy_receiver y));
  yo_view v : sy_view y = Some v → true_status (sy_sink y) (vw_status v);
  yo_statuses : Forall (true_status (sy_sink y)) (sy_statuses y);
  yo_completed : bs_state (sy_sender y) = WL_BULK_SENDER_COMPLETED →
    (transfer_id (bs_descriptor (sy_sender y)), object (transfer_id (bs_descriptor (sy_sender y))))
      ∈ committed (sy_sink y);
}.

Lemma source_read_idem l offset length :
  source_read l offset length = source_read l offset (len (source_read l offset length)).
Proof using.
  unfold source_read, len. rewrite Nat2Z.id, length_take. set (l' := drop _ l). set (n := Z.to_nat length).
  destruct (decide (n <= List.length l')%nat) as [Hn|Hn]; [by rewrite Nat.min_l|].
  rewrite Nat.min_r by lia. by rewrite !take_ge by lia.
Qed.

Lemma message_genuine a : known_descriptor (ac_descriptor a) → genuine cat (message_of cat a).
Proof using.
  intros H. unfold message_of. repeat case_match; [done| |done..]. apply source_read_idem.
Qed.

Lemma deliver_genuine i address now : genuine cat i → genuine cat (input_of (deliver i address now)).
Proof using.
  destruct i; cbn; try done. intros Hd.
  by rewrite mread_mwrite by (unfold len; lia).
Qed.

Lemma deliver_typed i address now : op_typed (deliver i address now).
Proof using. destruct i; cbn; try done. apply len_nonneg. Qed.

Lemma true_status_mono w w' st :
  (∀ x, x ∈ committed w → x ∈ committed w') → true_status w st → true_status w' st.
Proof using. unfold true_status. auto. Qed.

(** The receiver may do anything with genuine input. *)
Lemma on_receiver_ok y op :
  system_ok y → op_typed op → genuine cat (input_of op) → system_ok (on_receiver y op).
Proof using Hcat.
  intros [Hi Hg Hs Ha Hm Hp Hv Hst Hc] Ht Hgen. unfold on_receiver.
  destruct (receiver_exec op (sy_receiver y, sy_sink y)) as [[r w] e] eqn:E.
  destruct (receiver_effect _ _ _ _ _ _ Ht Hi E) as [Hsteps _ _ Hpend].
  pose proof (session_steps_inv _ _ _ _ Hsteps Hi) as Hi'.
  destruct (session_steps_good cat Hcat _ _ _ _ Hsteps Hgen Hg) as [Hg' Hmono]. cbn in *.
  split; cbn; auto.
  - intros Hpn. destruct (Hpend Hpn) as [[Hold ->]|Hh]; [by eapply true_status_mono; auto|].
    intros He Hok. destruct (Hh He Hok) as [Hcp ->]. by apply Hg'.
  - intros v Ev. eapply true_status_mono; eauto.
  - eapply Forall_impl; [done|]. intros st. by apply true_status_mono.
Qed.

(** So may the sender, with a status that is true. *)
Lemma on_sender_ok y op :
  system_ok y →
  match op with
  | SStart d => known_descriptor d
  | SStatus st _ => true_status (sy_sink y) st
  | _ => True
  end → system_ok (on_sender y op).
Proof using.
  intros [Hi Hg Hs Ha Hm Hp Hv Hst Hc] Hop. unfold on_sender.
  assert (let s' := (sender_exec op (sy_sender y)).1 in
    (bs_state s' = WL_BULK_SENDER_IDLE ∨ known_descriptor (bs_descriptor s')) ∧
    (bs_state s' = WL_BULK_SENDER_COMPLETED →
     (transfer_id (bs_descriptor s'), object (transfer_id (bs_descriptor s'))) ∈ committed (sy_sink y))) as [H1 H2];
    [|by split].
  destruct (sender_exec op (sy_sender y)) as [s' e] eqn:E. cbn.
  pose proof (sender_exec_frame op (sy_sender y)) as Hf. rewrite E in Hf. cbn in Hf.
  destruct op as [d| | | | | | |st now].
  { apply sender_start_frame in E as [->|[-> ->]]; [auto|]. split; [by right|done]. }
  2: { apply sender_reset_frame in E as [-> | ->]; [auto|]. split; [by left|done]. }
  all: destruct Hf as (Ed & Hcp & Hid); rewrite Ed; (split; [naive_solver|]).
  all: intros Hd; destruct (Hcp Hd) as [|(st' & now' & [= -> ->] & (<- & ? & ?))]; auto.
Qed.

(** The action the sender hands out is about its transfer. *)
Lemma acquire_known y s e a :
  system_ok y → wl_bulk_sender_action_acquire (sy_sender y) = (s, e, a) → e = WL_BULK_OK →
  known_descriptor (ac_descriptor a).
Proof using.
  intros Hy H ->. unfold wl_bulk_sender_action_acquire in H. repeat (branch_case H; [done|]).
  injection H as <- <-. cbn. destruct (yo_sender y Hy) as [Hi|]; [|done]. congruence.
Qed.

(** The status the receiver hands out is the one it retains. *)
Lemma acquire_view r r' e v :
  wl_bulk_receiver_status_acquire r = (r', e, v) → e = WL_BULK_OK →
  br_status_pending r = true ∧ vw_status v = br_pending_status r.
Proof using.
  intros H ->. unfold wl_bulk_receiver_status_acquire in H. repeat (branch_case H; [done|]).
  by injection H as <- <-.
Qed.

Lemma system_exec_ok op y : system_ok y → system_ok (system_exec cat op y).
Proof using Hcat.
  intros Hy. destruct op; cbn [system_exec]; try by apply on_sender_ok.
  - apply on_sender_ok; [done|]. unfold known_descriptor. by rewrite (ok_id cat Hcat).
  - pose proof (on_sender_ok y SAcquire Hy I) as Hy'. unfold on_sender in Hy'. cbn in Hy'.
    destruct (wl_bulk_sender_action_acquire (sy_sender y)) as [[s e] a] eqn:E.
    destruct Hy'; split; cbn in *; try done. intros a' Ha. case_decide; [simplify_eq|by apply Hy].
    by eapply acquire_known.
  - destruct (sy_action y) as [a|] eqn:Ea; [by apply on_sender_ok|done].
  - destruct (sy_action y) as [a|] eqn:Ea; [|done].
    pose proof (on_sender_ok y (SSubmitted a now) Hy I) as Hy'. unfold on_sender in Hy'. cbn in Hy'.
    destruct (wl_bulk_sender_action_submitted (sy_sender y) a now) as [s e] eqn:E.
    rewrite Ea in Hy'. destruct Hy'; split; cbn in *; try done. apply Forall_app. split; [done|].
    case_decide; [|done]. apply Forall_singleton, message_genuine. by apply Hy.
  - destruct (sy_messages y !! n) as [i|] eqn:Em; [|done].
    apply on_receiver_ok; [done|apply deliver_typed|]. apply deliver_genuine.
    by apply (Forall_lookup_1 _ _ _ _ (yo_messages y Hy) Em).
  - by apply on_receiver_ok.
  - by apply on_receiver_ok.
  - pose proof (on_receiver_ok y RAcquire Hy I I) as Hy'. unfold on_receiver in Hy'. cbn in Hy'.
    destruct (wl_bulk_receiver_status_acquire (sy_receiver y)) as [[r e] v] eqn:E.
    destruct Hy'; split; cbn in *; try done. intros v' Hv. case_decide; [simplify_eq|by apply Hy].
    apply acquire_view in E as [Hp ->]; [|done]. by apply (yo_pending y Hy).
  - destruct (sy_view y) as [v|] eqn:Ev; [by apply on_receiver_ok|done].
  - destruct (sy_view y) as [v|] eqn:Ev; [|done].
    pose proof (on_receiver_ok y (RRelease v) Hy I I) as Hy'. unfold on_receiver in Hy'. cbn in Hy'.
    destruct (wl_bulk_receiver_status_release (sy_receiver y) v) as [r e] eqn:E.
    rewrite Ev in Hy'. destruct Hy'; split; cbn in *; try done. apply Forall_app. split; [done|].
    case_decide; [|done]. apply Forall_singleton. by apply yo_view0.
  - destruct (sy_statuses y !! n) as [st|] eqn:Em; [|done]. apply on_sender_ok; [done|].
    by apply (Forall_lookup_1 _ _ _ _ (yo_statuses y Hy) Em).
Qed.

Lemma system_run_ok ops y : system_ok y → system_ok (system_run cat ops y).
Proof using Hcat. revert y. induction ops as [|op ops IH]; intros y Hy; cbn; [done|]. by apply IH, system_exec_ok. Qed.
End exact.

Definition system_start {W} (s : sender) (r : receiver) (w : W) : system W := mk_system s r w None None [] [].

Definition demo_catalog : catalog :=
  mk_catalog (λ id, mk_descriptor id 10 8 0) (λ _, [1; 2; 3; 4; 5; 6; 7; 8; 9; 10]).

(** One exchange: the action out, message [n] in, its status out, status [n] in. *)
Definition exchange (n : nat) (now : Z) : list system_op :=
  [OpAcquireAction; OpSubmitAction now; OpDeliverMessage n 100 now; OpAcquireStatus; OpPublishStatus;
   OpDeliverStatus n now].

(** A transfer with a repeated Begin, its status lost, and a repeated chunk. *)
Definition demo_transfer : list system_op :=
  [OpStart 7; OpAcquireAction; OpSubmitAction 0; OpDeliverMessage 0 100 1; OpAcquireStatus; OpPublishStatus;
   OpSenderPoll 100] ++ exchange 1 101 ++ exchange 2 110 ++
  [OpDeliverMessage 2 100 115; OpAcquireStatus; OpPublishStatus] ++
  [OpAcquireAction; OpSubmitAction 120; OpDeliverMessage 3 100 121; OpAcquireStatus; OpPublishStatus;
   OpDeliverStatus 3 122; OpDeliverStatus 4 123] ++
  [OpAcquireAction; OpSubmitAction 130; OpDeliverMessage 4 100 131; OpAcquireStatus; OpPublishStatus;
   OpDeliverStatus 5 132].

Lemma system_start_ok {W} `{!BulkSink W, !SinkLaws W} cat s0 scfg s r0 rcfg r (w0 : W) :
  wl_bulk_sender_init s0 scfg = (s, WL_BULK_OK) → wl_bulk_receiver_init r0 rcfg = (r, WL_BULK_OK) →
  world_ok cat w0 → system_ok cat (system_start s r w0).
Proof.
  intros Hs [-> _]%receiver_init_spec Hw. unfold wl_bulk_sender_init in Hs. case_match; [done|].
  injection Hs as <-. split; cbn; try done; by left.
Qed.

(** C5: Bulk transfer is exact end to end.  Over a network that may
    lose, repeat, reorder and delay messages and statuses without bound, with any
    use of retries, aborts, resets and timeouts, every object the sink commits is
    the object the transfer names, byte for byte, and when the sender reports a
    transfer completed the sink has committed its object. *)
Theorem bulk_transfer_exact {W} `{!BulkSink W, !SinkLaws W} cat s0 scfg s r0 rcfg r (w0 : W) ops :
  catalog_ok cat → wl_bulk_sender_init s0 scfg = (s, WL_BULK_OK) →
  wl_bulk_receiver_init r0 rcfg = (r, WL_BULK_OK) → world_ok cat w0 →
  let y := system_run cat ops (system_start s r w0) in
  (∀ id bytes, (id, bytes) ∈ committed (sy_sink y) → bytes = cat_object cat id) ∧
  (bs_state (sy_sender y) = WL_BULK_SENDER_COMPLETED →
   let id := transfer_id (bs_descriptor (sy_sender y)) in (id, cat_object cat id) ∈ committed (sy_sink y)).
Proof.
  intros Hcat Hs Hr Hw. pose proof (system_start_ok cat _ _ _ _ _ _ _ Hs Hr Hw) as Hy.
  pose proof (system_run_ok cat Hcat ops _ Hy) as [_ [[_ He] _ _] _ _ _ _ _ _ Hc]. by split.
Qed.

Lemma demo_catalog_ok : catalog_ok demo_catalog.
Proof. by split. Qed.

Lemma bulk_transfer_exact_witness :
  let y := system_run demo_catalog demo_transfer (system_start demo_sender demo_receiver memory_sink_empty) in
  bs_state (sy_sender y) = WL_BULK_SENDER_COMPLETED ∧
  (7, [1; 2; 3; 4; 5; 6; 7; 8; 9; 10]) ∈ committed (sy_sink y).
Proof.
  assert (world_ok demo_catalog memory_sink_empty) as Hw.
  { split; cbn; [intros id; apply prefix_nil|]. intros id bytes Hin. by apply not_elem_of_nil in Hin. }
  pose proof (bulk_transfer_exact demo_catalog sender_zero demo_sender_config demo_sender receiver_zero
    demo_receiver_config demo_receiver memory_sink_empty demo_transfer demo_catalog_ok eq_refl eq_refl Hw) as [_ H].
  assert (bs_state (sy_sender (system_run demo_catalog demo_transfer
    (system_start demo_sender demo_receiver memory_sink_empty))) = WL_BULK_SENDER_COMPLETED) as E
    by (vm_compute; reflexivity).
  split; [exact E|]. specialize (H E). vm_compute in H. vm_compute. exact H.
Defined.

(** ** Two ways a repeated message is answered from an earlier transfer *)

(** Transfer 6 is begun and aborted. *)
Definition aborted_first : list system_op :=
  [OpStart 6] ++ exchange 0 10 ++ [OpCancel 1] ++ exchange 1 20 ++ [OpSenderReset].

(** Transfer 7 is begun, but the status of its Begin is lost and the Begin
    repeated. *)
Definition begin_repeated : list system_op :=
  [OpStart 7; OpAcquireAction; OpSubmitAction 30; OpDeliverMessage 2 100 31; OpAcquireStatus; OpPublishStatus;
   OpSenderPoll 130] ++ exchange 3 131.

(** C39: After an aborted transfer, a lost status is not recovered
    by repeating the message: the receiver is serving transfer 7, but answers its
    repeated Begin with the code of transfer 6, and the sender ends as aborted. *)
Theorem bulk_stale_terminal_code :
  let y := system_run demo_catalog (aborted_first ++ begin_repeated)
             (system_start demo_sender demo_receiver memory_sink_empty) in
  br_state (sy_receiver y) = WL_BULK_RECEIVER_RECEIVING ∧ transfer_id (br_descriptor (sy_receiver y)) = 7 ∧
  last (sy_statuses y) = Some (mk_status 7 WL_BULK_PHASE_BEGIN WL_BULK_STATUS_ABORTED 0 8) ∧
  bs_state (sy_sender y) = WL_BULK_SENDER_ABORTED.
Proof. vm_compute. auto. Qed.

(** A sink in memory that refuses to begin transfer 8. *)
Record picky_sink := mk_picky_sink { picky_memory : memory_sink }.

#[export] Instance picky_bulk_sink : BulkSink picky_sink := {
  sink_begin w d :=
    if transfer_id d =? 8 then (w, WL_BULK_SINK_WRITE_FAILED, 0)
    else let '(m, result, resume) := sink_begin (picky_memory w) d in (mk_picky_sink m, result, resume);
  sink_write w id offset data :=
    let '(m, result) := sink_write (picky_memory w) id offset data in (mk_picky_sink m, result);
  sink_finish w d := let '(m, result) := sink_finish (picky_memory w) d in (mk_picky_sink m, result);
  sink_abort w id reason := mk_picky_sink (sink_abort (picky_memory w) id reason);
}.

(** Transfer 8 is shorter than the others. *)
Definition short_catalog : catalog :=
  mk_catalog (λ id, mk_descriptor id (if id =? 8 then 4 else 10) 8 0)
    (λ id, take (if id =? 8 then 4%nat else 10%nat) [1; 2; 3; 4; 5; 6; 7; 8; 9; 10]).

(** Transfer 7 completes; transfer 8 is refused by the sink and cancelled. *)
Definition refused_second : list system_op :=
  [OpStart 7] ++ exchange 0 10 ++ exchange 1 20 ++ exchange 2 30 ++ exchange 3 40 ++
  [OpSenderReset; OpStart 8] ++ exchange 4 50 ++ [OpCancel 1] ++ exchange 5 60.

(** C40: When the sink refuses a Begin after an earlier transfer,
    the receiver keeps the offset of that earlier transfer: it aborts transfer 8 as
    asked but reports offset 10 of an object of 4 bytes, and the sender takes the
    confirmation of its Abort for a protocol failure. *)
Theorem bulk_stale_next_offset :
  let y := system_run short_catalog refused_second
             (system_start demo_sender demo_receiver (mk_picky_sink memory_sink_empty)) in
  br_state (sy_receiver y) = WL_BULK_RECEIVER_ABORTED ∧ br_descriptor (sy_receiver y) = mk_descriptor 8 4 8 0 ∧
  last (sy_statuses y) = Some (mk_status 8 WL_BULK_PHASE_ABORT WL_BULK_STATUS_ABORTED 10 8) ∧
  bs_state (sy_sender y) = WL_BULK_SENDER_FAILED ∧ bs_last_status (sy_sender y) = WL_BULK_STATUS_INVALID.
Proof. vm_compute. auto 10. Qed.
