(* ===== verification/BulkLive.v ===== *)
(** A bulk transfer completes when nothing is lost.

    With a sink that accepts what it is given and a network that delivers, the
    conversation of the two ends reaches its end in one exchange for the Begin, one
    for the End and one per chunk that is left after the resumed prefix. *)
From stdpp Require Import gmap.
From S2P Require Import Prelude Slots Clock Bulk BulkSender BulkSending BulkReceiver BulkSession BulkTransfer.

(** ** Replies of the receiver *)

(** [r1] is [r] with the session [c] and a status to publish. *)
Record replied (r r1 : receiver) (c : core) (st : status) : Prop := {
  rp_config : br_config r1 = br_config r;
  rp_magic : br_magic r1 = br_magic r;
  rp_core : core_of r1 = c;
  rp_pending : br_status_pending r1 = true;
  rp_acquired : br_status_acquired r1 = false;
  rp_status : br_pending_status r1 = st;
}.

Definition listening (r : receiver) : Prop :=
  br_magic r = WL_BULK_RECEIVER_MAGIC ∧ br_status_pending r = false.

Lemma listening_tests r :
  listening r → receiver_initialized r = true ∧ bool_decide (require_input_slot r = WL_BULK_OK) = true.
Proof. intros [Hm Hp]. unfold receiver_initialized, require_input_slot. by rewrite Hm, Hp. Qed.

Section replies.
Context {W : Type} `{!BulkSink W}.
Implicit Types (r : receiver) (w : W).

Lemma begin_reply r w d accepted w1 resume now :
  listening r → br_state r = WL_BULK_RECEIVER_IDLE → granted (br_config r) d accepted →
  resume_valid (br_config r) d resume → sink_begin w d = (w1, WL_BULK_SINK_OK, resume) →
  ∃ r1, wl_bulk_receiver_on_begin r w d now = (r1, w1, WL_BULK_OK) ∧
        replied r r1 (mk_core d resume accepted WL_BULK_RECEIVER_RECEIVING (br_terminal_code r) true)
          (mk_status (transfer_id d) WL_BULK_PHASE_BEGIN WL_BULK_STATUS_OK resume accepted).
Proof.
  intros [Hm Hp]%listening_tests Hs Hg Hv Hb. unfold wl_bulk_receiver_on_begin. rewrite Hm, Hp. cbn [negb].
  unfold granted in Hg. change (negotiate_chunk_size (receiver_zero <| br_config := br_config r |>) d)
    with (negotiate_chunk_size r d) in Hg. rewrite Hg.
  rewrite (proj2 (in_receiver_state_true _ _) Hs). unfold begin_transfer. rewrite Hb. cbn -[with_field resume_offset_valid].
  match goal with |- context [resume_offset_valid ?x resume] =>
    rewrite (proj2 (resume_offset_valid_spec x resume)) by done end.
  cbn -[with_field]. eexists. split; [reflexivity|]. by split.
Qed.

Lemma chunk_reply m r w c now w1 :
  listening r → br_state r = WL_BULK_RECEIVER_RECEIVING → 0 <= ck_offset c → ck_transfer_id c ≠ 0 → ck_data c ≠ NULL →
  chunk_fits (br_config r) (core_of r) (ck_transfer_id c) (ck_offset c) (ck_length c) →
  is_u64 (total_length (br_descriptor r)) →
  sink_write w (ck_transfer_id c) (ck_offset c) (mread m (ck_data c) (Z.to_nat (ck_length c))) =
    (w1, WL_BULK_SINK_OK) →
  ∃ r1, wl_bulk_receiver_on_chunk m r w c now = (r1, w1, WL_BULK_OK) ∧
        replied r r1 (mk_core (br_descriptor r) (ck_offset c + ck_length c) (br_accepted_chunk_size r)
                        WL_BULK_RECEIVER_RECEIVING (br_terminal_code r) (br_sink_active r))
          (mk_status (ck_transfer_id c) WL_BULK_PHASE_CHUNK WL_BULK_STATUS_OK (ck_offset c + ck_length c)
             (br_accepted_chunk_size r)).
Proof.
  intros [Hm Hp]%listening_tests Hs Ho Hid Hd [E1 E2 E3 E4 E5 E6] Ht Hb. cbn in *. unfold wl_bulk_receiver_on_chunk.
  rewrite Hm, Hp. cbn [negb].
  rewrite (proj2 (Z.eqb_neq _ _) Hid), (proj2 (Z.eqb_neq _ _) Hd), (proj2 (Z.eqb_neq (ck_length c) 0)) by lia.
  rewrite (proj2 (in_receiver_state_false _ _)) by congruence. rewrite <- E1, Z.eqb_refl. cbn [orb negb].
  assert (chunk_shape_valid r c = Some (ck_offset c + ck_length c)) as ->.
  { unfold chunk_shape_valid, is_u64, UINT64_MAX in *.
    case_match eqn:F1; [lia|]. case_match eqn:F2; [lia|]. cbv zeta. rewrite E5. cbn [Z.eqb negb].
    case_match eqn:F3; [lia|]. case_match eqn:F4; [|done]. exfalso.
    destruct E6 as [E6|E6]; rewrite E6 in F4; [rewrite Z.eqb_refl in F4; done|].
    by rewrite andb_false_r in F4. }
  rewrite (proj2 (Z.leb_gt _ _)), <- E2, Z.eqb_refl by lia. cbn [negb].
  rewrite (proj2 (in_receiver_state_true _ _) Hs). unfold write_chunk. rewrite Hb. cbn -[with_field].
  eexists. split; [reflexivity|]. split; try done. unfold core_of. cbn. by rewrite Hs.
Qed.

Lemma end_reply r w now w1 :
  listening r → br_state r = WL_BULK_RECEIVER_RECEIVING → transfer_id (br_descriptor r) ≠ 0 →
  br_next_offset r = total_length (br_descriptor r) → sink_finish w (br_descriptor r) = (w1, WL_BULK_SINK_OK) →
  ∃ r1, wl_bulk_receiver_on_end r w (transfer_id (br_descriptor r)) (total_length (br_descriptor r))
          (object_crc32c (br_descriptor r)) now = (r1, w1, WL_BULK_OK) ∧
        replied r r1 (mk_core (br_descriptor r) (br_next_offset r) (br_accepted_chunk_size r)
                        WL_BULK_RECEIVER_COMPLETED WL_BULK_STATUS_OK false)
          (mk_status (transfer_id (br_descriptor r)) WL_BULK_PHASE_END WL_BULK_STATUS_OK (br_next_offset r)
             (br_accepted_chunk_size r)).
Proof.
  intros [Hm Hp]%listening_tests Hs Hid Hn Hb. unfold wl_bulk_receiver_on_end. rewrite Hm, Hp. cbn [negb].
  rewrite (proj2 (Z.eqb_neq _ _) Hid), !Z.eqb_refl. unfold in_receiver_state. rewrite Hs, Hn, Z.eqb_refl. cbn.
  unfold finish_transfer. rewrite Hb. cbn -[with_field]. eexists. split; [reflexivity|].
  split; try done; unfold core_of; cbn; by rewrite ?Hn, ?Hs.
Qed.
End replies.

(** The application publishes the status the receiver retains. *)
Lemma publish_reply r r1 c st :
  replied r r1 c st → br_magic r = WL_BULK_RECEIVER_MAGIC →
  ∃ r2 v r3, wl_bulk_receiver_status_acquire r1 = (r2, WL_BULK_OK, v) ∧ vw_status v = st ∧
    wl_bulk_receiver_status_release r2 v = (r3, WL_BULK_OK) ∧
    listening r3 ∧ core_of r3 = c ∧ br_config r3 = br_config r.
Proof.
  intros [Hc Hm Hco Hp Ha Hst] Hmg. rewrite Hmg in Hm.
  unfold wl_bulk_receiver_status_acquire, receiver_initialized. rewrite Hm, Hp, Ha. cbn.
  eexists _, _, _. split; [reflexivity|]. split; [done|].
  unfold wl_bulk_receiver_status_release, receiver_initialized, status_view_matches. cbn. rewrite Hm, Hp, Z.eqb_refl. cbn.
  rewrite Z.eqb_refl, (proj2 (status_equal_spec _ _) eq_refl). cbn. by split; [|split].
Qed.

(** ** Progress of the sender *)

Lemma prepare_phase_fields s phase :
  bs_next_offset (prepare_phase s phase) = bs_next_offset s ∧
  bs_negotiated_chunk_size (prepare_phase s phase) = bs_negotiated_chunk_size s ∧
  bs_phase (prepare_phase s phase) = phase ∧ bs_action_acquired (prepare_phase s phase) = false.
Proof. unfold prepare_phase, set_action_length. by case_match. Qed.

(** A sender with bytes to send, or at the end of its object. *)
Record ready_at (d : descriptor) (accepted next : Z) (s : sender) : Prop := {
  ra_inv : sender_inv s;
  ra_state : bs_state s = WL_BULK_SENDER_READY;
  ra_free : bs_action_acquired s = false;
  ra_descriptor : bs_descriptor s = d;
  ra_accepted : bs_negotiated_chunk_size s = accepted;
  ra_next : bs_next_offset s = next;
  ra_phase : bs_phase s = if next =? total_length d then WL_BULK_PHASE_END else WL_BULK_PHASE_CHUNK;
}.

(** A sender that waits for the answer to its action. *)
Definition waiting (s : sender) : Prop :=
  sender_inv s ∧ bs_state s = WL_BULK_SENDER_WAIT_STATUS ∧ bs_retry_wait s = false.

(** A status that confirms the action. *)
Definition confirms (s : sender) (st : status) : Prop :=
  st_transfer_id st = transfer_id (bs_descriptor s) ∧ st_phase st = bs_phase s ∧
  WL_BULK_PHASE_BEGIN <= bs_phase s <= WL_BULK_PHASE_END ∧ st_code st = WL_BULK_STATUS_OK ∧
  (bs_phase s = WL_BULK_PHASE_BEGIN ∨ st_accepted_chunk_size st = bs_negotiated_chunk_size s) ∧
  (bs_phase s = WL_BULK_PHASE_CHUNK → bs_next_offset s < st_next_offset st).

Lemma status_accepted s st now :
  waiting s → confirms s st → wl_bulk_sender_on_status s st now = on_status_ok (noted s st) st.
Proof.
  intros (Hs & Hw & Hr) (Hid & Hph & Hb & Hc & Hck & Hn). unfold wl_bulk_sender_on_status, sender_initialized.
  rewrite (si_magic s (si_base s Hs)), Hid, !Z.eqb_refl, Hph, Hc. cbn [negb].
  unfold in_sender_state. rewrite Hw, Hr. cbn. phases.
  destruct (phase_valid (bs_phase s)) eqn:E1; [cbn|unfold phase_valid, WL_BULK_PHASE_BEGIN, WL_BULK_PHASE_ABORT in E1; lia].
  rewrite andb_false_r. assert (status_is_stale s st = false) as ->.
  { unfold status_is_stale, WL_BULK_PHASE_CHUNK. rewrite Hph, Z.ltb_irrefl.
    destruct (bs_phase s =? 2) eqn:E2; [|done]. rewrite (proj2 (Z.leb_gt _ _)) by lia. by rewrite !andb_false_r. }
  assert (status_chunk_size_matches s st = true) as ->; [|rewrite Z.eqb_refl, bool_decide_true by done; unfold noted; by rewrite Hc].
  unfold status_chunk_size_matches, WL_BULK_PHASE_BEGIN. case_match; [done|]. lia.
Qed.

Lemma ready_after_offset s :
  sender_base s → bs_next_offset s <= total_length (bs_descriptor s) →
  0 < bs_negotiated_chunk_size s <= requested_chunk_size (bs_descriptor s) →
  ready_at (bs_descriptor s) (bs_negotiated_chunk_size s) (bs_next_offset s) (prepare_phase s (phase_after_offset s)).
Proof.
  intros Hb Ho Hn. destruct (prepare_phase_frame s (phase_after_offset s)) as [Ed Es].
  destruct (prepare_phase_fields s (phase_after_offset s)) as (En & Ek & Ep & Ea).
  split; try done. by apply phase_after_offset_inv.
Qed.

Lemma begin_confirmed s st now d :
  waiting s → confirms s st → bs_phase s = WL_BULK_PHASE_BEGIN → bs_descriptor s = d →
  is_u64 (st_next_offset st) → 0 < st_accepted_chunk_size st <= requested_chunk_size d →
  st_next_offset st <= total_length d →
  ready_at d (st_accepted_chunk_size st) (st_next_offset st) (wl_bulk_sender_on_status s st now).1.
Proof.
  intros Hw Hc Hp Hd Hu Ha Hn. rewrite status_accepted by done. destruct Hw as (Hs & _ & _).
  pose proof (si_base _ (noted_inv s st Hs)) as Hb. unfold on_status_ok.
  change (bs_phase (noted s st)) with (bs_phase s). rewrite Hp. cbn [Z.eqb Pos.eqb WL_BULK_PHASE_BEGIN].
  change (bs_descriptor (noted s st)) with (bs_descriptor s). rewrite Hd.
  unfold proposed_chunk_size_valid. change (bs_descriptor (noted s st)) with (bs_descriptor s). rewrite Hd.
  case_match eqn:E; [lia|]. cbn [fst].
  set (s1 := noted s st <| bs_negotiated_chunk_size := _ |> <| bs_next_offset := _ |>).
  assert (bs_descriptor s1 = d) as Hd1 by (by rewrite <- Hd).
  pose proof (ready_after_offset s1) as Hr. rewrite Hd1 in Hr. apply Hr; [|done..].
  pose proof (si_requested s (si_base s Hs)) as Hrq. rewrite Hd in Hrq.
  destruct Hb. split; cbn in *; try done. unfold is_u32 in *. lia.
Qed.

Lemma chunk_confirmed s st now d accepted next :
  waiting s → confirms s st → bs_phase s = WL_BULK_PHASE_CHUNK → bs_descriptor s = d →
  bs_negotiated_chunk_size s = accepted → bs_next_offset s = next →
  st_next_offset st = next + Z.min accepted (total_length d - next) →
  ready_at d accepted (next + Z.min accepted (total_length d - next)) (wl_bulk_sender_on_status s st now).1.
Proof.
  intros Hw Hc Hp Hd Ha Hn Ho. rewrite status_accepted by done. destruct Hw as (Hs & Hw & _).
  pose proof (si_base _ (noted_inv s st Hs)) as Hb. pose proof (waiting_shape s Hs Hw) as Hsh.
  pose proof (si_total s (si_base s Hs)) as Ht. rewrite Hd in Ht.
  assert (0 <= next < total_length d ∧ 0 < accepted <= requested_chunk_size d ∧
          bs_action_length s = Z.min accepted (total_length d - next)) as (Hx & Hy & Hl).
  { revert Hsh. phases. rewrite Hp, Hd, Ha, Hn. lia. }
  unfold on_status_ok. change (bs_phase (noted s st)) with (bs_phase s). rewrite Hp.
  change (WL_BULK_PHASE_CHUNK =? WL_BULK_PHASE_BEGIN) with false. rewrite Z.eqb_refl. cbv zeta.
  change (bs_descriptor (noted s st)) with (bs_descriptor s).
  change (bs_next_offset (noted s st)) with (bs_next_offset s).
  change (bs_action_length (noted s st)) with (bs_action_length s). rewrite Hd, Hn, Hl, Ho.
  unfold is_u64 in Ht. unfold u64. rewrite (Z.mod_small (next + _)), Z.eqb_refl by lia. cbn [negb orb].
  rewrite (proj2 (Z.ltb_ge _ _)) by lia. cbn [fst].
  set (s1 := noted s st <| bs_next_offset := _ |> <| bs_chunk_acknowledged := _ |>).
  assert (bs_descriptor s1 = d) as Hd1 by (by rewrite <- Hd).
  assert (bs_negotiated_chunk_size s1 = accepted) as Ha1 by (by rewrite <- Ha).
  pose proof (ready_after_offset s1) as Hr. rewrite Hd1, Ha1 in Hr. apply Hr; [|cbn; lia|done].
  destruct Hb. split; cbn in *; try done. unfold is_u64. lia.
Qed.

Lemma end_confirmed s st now :
  waiting s → confirms s st → bs_phase s = WL_BULK_PHASE_END →
  st_next_offset st = total_length (bs_descriptor s) →
  bs_state (wl_bulk_sender_on_status s st now).1 = WL_BULK_SENDER_COMPLETED ∧
  bs_descriptor (wl_bulk_sender_on_status s st now).1 = bs_descriptor s.
Proof.
  intros Hw Hc Hp Ho. rewrite status_accepted by done. unfold on_status_ok.
  change (bs_phase (noted s st)) with (bs_phase s). rewrite Hp.
  change (bs_descriptor (noted s st)) with (bs_descriptor s).
  change (WL_BULK_PHASE_END =? WL_BULK_PHASE_BEGIN) with false.
  change (WL_BULK_PHASE_END =? WL_BULK_PHASE_CHUNK) with false. by rewrite Ho, !Z.eqb_refl.
Qed.

(** ** Exchanges *)

Ltac fields := cbn [sy_sender sy_receiver sy_sink sy_action sy_view sy_messages sy_statuses] in *.

Section exchanges.
Context {W : Type} `{!BulkSink W} (cat : catalog).

(** One exchange, given what the two ends do. *)
Lemma exchange_run (y : system W) n now s1 a s2 r1 w1 c st :
  length (sy_messages y) = n → length (sy_statuses y) = n →
  wl_bulk_sender_action_acquire (sy_sender y) = (s1, WL_BULK_OK, a) →
  wl_bulk_sender_action_submitted s1 a now = (s2, WL_BULK_OK) →
  receiver_exec (deliver (message_of cat a) 100 now) (sy_receiver y, sy_sink y) = (r1, w1, WL_BULK_OK) →
  replied (sy_receiver y) r1 c st → br_magic (sy_receiver y) = WL_BULK_RECEIVER_MAGIC →
  let y' := system_run cat (exchange n now) y in
  sy_sender y' = (wl_bulk_sender_on_status s2 st now).1 ∧ sy_sink y' = w1 ∧
  listening (sy_receiver y') ∧ core_of (sy_receiver y') = c ∧
  br_config (sy_receiver y') = br_config (sy_receiver y) ∧
  length (sy_messages y') = S n ∧ length (sy_statuses y') = S n.
Proof.
  intros Hm Hs Ea Eb Er Hrep Hmg.
  destruct (publish_reply _ _ _ _ Hrep Hmg) as (r2 & v & r3 & Eq & Ev & Es & Hl & Hco & Hcf).
  destruct y as [s r w act vw msgs sts]. fields. unfold exchange, system_run. cbn [foldl system_exec]. fields.
  rewrite Ea; fields. rewrite decide_True by done. rewrite Eb; fields. rewrite decide_True by done.
  rewrite lookup_app_r, Hm, Nat.sub_diag by lia. cbn [lookup list_lookup]. unfold on_receiver; fields.
  rewrite Er; fields. rewrite Eq; fields. rewrite decide_True by done. rewrite Es; fields. rewrite decide_True by done.
  rewrite lookup_app_r, Hs, Nat.sub_diag by lia. cbn [lookup list_lookup]. unfold on_sender; fields.
  cbn [sender_exec]. rewrite Ev, !length_app, Hm, Hs. cbn [length]. split_and!; try done; lia.
Qed.
End exchanges.

(** A ready sender submits its action and waits. *)
Lemma submit_ready s now :
  sender_inv s → bs_state s = WL_BULK_SENDER_READY → bs_action_acquired s = false →
  ∃ s1 token s2, let a := mk_action (bs_phase s) (bs_descriptor s) (bs_next_offset s) (bs_action_length s)
                     (bs_abort_reason s) token in
    wl_bulk_sender_action_acquire s = (s1, WL_BULK_OK, a) ∧
    wl_bulk_sender_action_submitted s1 a now = (s2, WL_BULK_OK) ∧ waiting s2 ∧
    bs_phase s2 = bs_phase s ∧ bs_descriptor s2 = bs_descriptor s ∧ bs_next_offset s2 = bs_next_offset s ∧
    bs_negotiated_chunk_size s2 = bs_negotiated_chunk_size s.
Proof.
  intros Hs Hr Ha. destruct (ready_acquire s Hs Hr Ha) as (s1 & a & E1 & Ea & Hsub).
  destruct (Hsub now) as (s2 & E2 & Es2 & _). exists s1, (ac_token a), s2. cbn. rewrite <- Ea.
  pose proof (acquire_inv s Hs) as Hs1. cbn in Hs1. rewrite E1 in Hs1.
  pose proof (submitted_inv s1 Hs1 a now) as Hs2. rewrite E2 in Hs2. cbn in Hs2.
  split; [done|]. split; [done|]. split; [split; [done|]|]; rewrite Es2; done.
Qed.

(** A sink that takes everything. *)
Record accepting (W : Type) `{!BulkSink W} : Prop := {
  acc_begin (w : W) d : (sink_begin w d).1.2 = WL_BULK_SINK_OK;
  acc_write (w : W) id offset data : (sink_write w id offset data).2 = WL_BULK_SINK_OK;
  acc_finish (w : W) d : (sink_finish w d).2 = WL_BULK_SINK_OK;
}.

Section live.
Context {W : Type} `{!BulkSink W} (HW : accepting W) (cat : catalog) (Hcat : catalog_ok cat).
Context (cfg : receiver_config) (id accepted : Z).
Notation d := (cat_descriptor cat id).
Notation total := (total_length d).
Hypotheses (Hid : id ≠ 0) (Hg : granted cfg d accepted) (Hal : 0 < rc_write_alignment cfg).
Hypotheses (Hrq : is_u32 (requested_chunk_size d)) (Hmax : 0 < rc_max_chunk_size cfg).

(** Both ends at the same offset, nothing in flight. *)
Record conversing (next : Z) (k : nat) (y : system W) : Prop := {
  cv_sender : ready_at d accepted next (sy_sender y);
  cv_listening : listening (sy_receiver y);
  cv_core : ∃ code, core_of (sy_receiver y) = mk_core d next accepted WL_BULK_RECEIVER_RECEIVING code true;
  cv_config : br_config (sy_receiver y) = cfg;
  cv_messages : length (sy_messages y) = k;
  cv_statuses : length (sy_statuses y) = k;
}.

(** Granted chunks are whole multiples of the alignment, or hold the object. *)
Lemma granted_shape :
  0 < accepted <= requested_chunk_size d ∧ (accepted mod rc_write_alignment cfg = 0 ∨ total <= accepted).
Proof using Hg Hal Hrq Hmax.
  unfold granted, negotiate_chunk_size, is_u32 in *. cbn in Hg.
  destruct (_ || _) eqn:E0; [done|]. set (limit := if _ <? _ then _ else _) in Hg.
  assert (0 < limit <= requested_chunk_size d) as Hl.
  { unfold limit. clear -E0 Hrq Hmax. destruct (_ <? requested_chunk_size d) eqn:El; lia. }
  pose proof (Z.mod_pos_bound limit _ Hal). pose proof (Z.mod_le limit (rc_write_alignment cfg)).
  clearbody limit. destruct (_ =? 0) eqn:Ez in Hg; [destruct (limit <? total) eqn:Et; [done|]|];
    injection Hg as <-.
  - lia.
  - split; [lia|]. left. rewrite Zminus_mod_idemp_r, Z.sub_diag. apply Z.mod_0_l. lia.
Qed.

Lemma conversing_fields next k y :
  conversing next k y →
  br_descriptor (sy_receiver y) = d ∧ br_next_offset (sy_receiver y) = next ∧
  br_accepted_chunk_size (sy_receiver y) = accepted ∧ br_state (sy_receiver y) = WL_BULK_RECEIVER_RECEIVING ∧
  br_sink_active (sy_receiver y) = true.
Proof using. intros [_ _ [code Hc] _ _ _]. by injection Hc. Qed.

Lemma len_source_read l offset size :
  0 <= offset → 0 <= size → offset + size <= len l → len (source_read l offset size) = size.
Proof using. unfold len, source_read. intros. rewrite length_take, length_drop. lia. Qed.

(** An exchange that moves a chunk. *)
Lemma chunk_exchange next k y now :
  conversing next k y → 0 <= next < total → next mod rc_write_alignment cfg = 0 →
  conversing (next + Z.min accepted (total - next)) (S k) (system_run cat (exchange k now) y).
Proof using HW Hcat Hid Hg Hal Hrq Hmax.
  intros Hy Hn Hna. destruct granted_shape as [Ha Hsh].
  destruct (conversing_fields _ _ _ Hy) as (Fd & Fn & Fa & Fs & Fk). destruct Hy as [[Hs Hr Hf Hd Hac Hnx Hp] Hl [code Hc] Hcf Hm Hst].
  rewrite (proj2 (Z.eqb_neq _ _)) in Hp by lia.
  destruct (submit_ready _ now Hs Hr Hf) as (s1 & token & s2 & E1 & E2 & Hw & P2 & D2 & N2 & A2).
  assert (phase_shape (sy_sender y)) as Hps. { apply Hs. unfold sender_active. autorewrite with branch. auto. }
  assert (bs_action_length (sy_sender y) = Z.min accepted (total - next)) as Hlen.
  { revert Hps. phases. rewrite Hp, Hd, Hac, Hnx. lia. }
  pose proof (si_total _ (si_base _ Hs)) as Ht. rewrite Hd in Ht.
  rewrite Hp, Hd, Hnx, Hlen in *. set (size := Z.min accepted (total - next)) in *.
  set (data := source_read (cat_object cat id) next size).
  assert (len data = size) as Hdl.
  { apply len_source_read; [lia..|]. rewrite <- (ok_length cat Hcat). lia. }
  destruct (sink_write (sy_sink y) id next data) as [w1 res] eqn:Ew.
  pose proof (acc_write W HW (sy_sink y) id next data) as Hok. rewrite Ew in Hok. cbn in Hok. subst res.
  set (c := mk_chunk id next 100 (len data)).
  assert (chunk_fits (br_config (sy_receiver y)) (core_of (sy_receiver y)) id next (len data)) as Hcfit.
  { rewrite Hcf, Hc, Hdl. split; cbn; [by rewrite (ok_id cat Hcat)|done|lia|lia|done|].
    destruct Hsh as [Hsh|Hsh]; [|lia].
    destruct (decide (accepted <= total - next)); [right; by replace size with accepted by lia|lia]. }
  destruct (chunk_reply (mwrite (λ _, 0) 100 data) (sy_receiver y) (sy_sink y) c now w1 Hl Fs)
    as (r1 & Er & Hrep); [apply Hn|done|done|done|by rewrite Fd| |].
  { unfold c. cbn [ck_data ck_length ck_transfer_id ck_offset]. by rewrite mread_mwrite by (unfold len; lia). }
  assert (receiver_exec (deliver (message_of cat (mk_action WL_BULK_PHASE_CHUNK d next size
            (bs_abort_reason (sy_sender y)) token)) 100 now) (sy_receiver y, sy_sink y) = (r1, w1, WL_BULK_OK)) as Ex.
  { rewrite <- Er. unfold message_of, c, data, size. cbn [ac_phase ac_descriptor ac_offset ac_length].
    by rewrite (ok_id cat Hcat). }
  destruct (exchange_run cat y k now s1 _ s2 r1 w1 _ _ Hm Hst E1 E2 Ex Hrep (proj1 Hl))
    as (Xs & Xw & Xl & Xc & Xcf & Xm & Xst).
  split; try done.
  - rewrite Xs. unfold size. apply chunk_confirmed; try done; try congruence.
    + unfold c; cbn [st_next_offset ck_offset ck_length]. rewrite Fa, Hdl. split; [by rewrite D2, (ok_id cat Hcat)|].
      split; [by rewrite P2|]. split; [phases; rewrite P2; lia|]. split; [done|].
      split; [right; cbn; congruence|]. intros _. rewrite N2. cbn. lia.
    + unfold c; cbn [st_next_offset ck_offset ck_length]. by rewrite Hdl.
  - rewrite Xc. unfold c; cbn [ck_offset ck_length]. rewrite Fd, Fa, Fk, Hdl. by eexists.
  - by rewrite Xcf.
Qed.

(** The exchange of the Begin. *)
Lemma begin_exchange k (y : system W) now w1 resume :
  sender_inv (sy_sender y) → bs_state (sy_sender y) = WL_BULK_SENDER_READY →
  bs_action_acquired (sy_sender y) = false → bs_descriptor (sy_sender y) = d →
  bs_phase (sy_sender y) = WL_BULK_PHASE_BEGIN →
  listening (sy_receiver y) → br_state (sy_receiver y) = WL_BULK_RECEIVER_IDLE → br_config (sy_receiver y) = cfg →
  length (sy_messages y) = k → length (sy_statuses y) = k →
  sink_begin (sy_sink y) d = (w1, WL_BULK_SINK_OK, resume) → 0 <= resume → resume_valid cfg d resume →
  conversing resume (S k) (system_run cat (exchange k now) y).
Proof using Hcat Hg Hal Hrq Hmax.
  intros Hs Hr Hf Hd Hp Hl Hi Hcf Hm Hst Hb H0 Hv. destruct granted_shape as [Ha _].
  destruct (submit_ready _ now Hs Hr Hf) as (s1 & token & s2 & E1 & E2 & Hw & P2 & D2 & N2 & A2).
  rewrite Hp, Hd in *. pose proof (si_total _ (si_base _ Hs)) as Ht. rewrite Hd in Ht.
  destruct (begin_reply (sy_receiver y) (sy_sink y) d accepted w1 resume now Hl Hi) as (r1 & Er & Hrep);
    [by rewrite Hcf|by rewrite Hcf|done|].
  destruct (exchange_run cat y k now s1 _ s2 r1 w1 _ _ Hm Hst E1 E2 Er Hrep (proj1 Hl))
    as (Xs & Xw & Xl & Xc & Xcf & Xm & Xst).
  split; try done.
  - rewrite Xs. destruct Hv as [Hv _]. unfold is_u64 in *.
    apply (begin_confirmed s2 (mk_status _ WL_BULK_PHASE_BEGIN _ resume accepted)); try done; [|unfold is_u64; cbn; lia].
    split; [by rewrite D2|]. split; [by rewrite P2|]. split; [phases; rewrite P2; lia|]. split; [done|].
    split; [by left|]. rewrite P2. phases. lia.
  - rewrite Xc. by eexists.
  - by rewrite Xcf.
Qed.

(** The exchange of the End. *)
Lemma end_exchange k (y : system W) now :
  conversing total k y →
  bs_state (sy_sender (system_run cat (exchange k now) y)) = WL_BULK_SENDER_COMPLETED ∧
  bs_descriptor (sy_sender (system_run cat (exchange k now) y)) = d.
Proof using HW Hcat Hid.
  intros Hy. destruct (conversing_fields _ _ _ Hy) as (Fd & Fn & Fa & Fs & Fk).
  destruct Hy as [[Hs Hr Hf Hd Hac Hnx Hp] Hl _ Hcf Hm Hst]. rewrite Z.eqb_refl in Hp.
  destruct (submit_ready _ now Hs Hr Hf) as (s1 & token & s2 & E1 & E2 & Hw & P2 & D2 & N2 & A2).
  rewrite Hp, Hd in *.
  destruct (sink_finish (sy_sink y) d) as [w1 res] eqn:Ew.
  pose proof (acc_finish W HW (sy_sink y) d) as Hok. rewrite Ew in Hok. cbn in Hok. subst res.
  destruct (end_reply (sy_receiver y) (sy_sink y) now w1 Hl Fs) as (r1 & Er & Hrep); rewrite ?Fd, ?Fn; try done.
  { by rewrite (ok_id cat Hcat). }
  rewrite Fd in Er.
  destruct (exchange_run cat y k now s1 _ s2 r1 w1 _ _ Hm Hst E1 E2 Er Hrep (proj1 Hl)) as (-> & _).
  rewrite <- D2. apply end_confirmed; cbn; [done| |done|congruence].
  split; [by cbn; rewrite Fd, D2|]. split; [by rewrite P2|]. split; [phases; rewrite P2; lia|]. split; [done|].
  split; [right; cbn; congruence|]. rewrite P2. phases. lia.
Qed.

(** ** The whole conversation *)

Fixpoint exchanges (k : nat) (nows : list Z) : list system_op :=
  match nows with
  | [] => []
  | now :: nows => exchange k now ++ exchanges (S k) nows
  end.

Definition chunks_left (next : Z) : Z := (total - next + accepted - 1) / accepted.

Lemma system_run_app ops1 ops2 (y : system W) :
  system_run cat (ops1 ++ ops2) y = system_run cat ops2 (system_run cat ops1 y).
Proof using. unfold system_run. by rewrite foldl_app. Qed.

Lemma chunks_left_step next :
  0 < accepted → next < total → chunks_left (next + Z.min accepted (total - next)) = chunks_left next - 1.
Proof using.
  intros Ha Hn. unfold chunks_left. destruct (decide (accepted <= total - next)) as [Hl|Hl].
  - rewrite Z.min_l by lia. replace (total - next + accepted - 1) with (total - (next + accepted) + accepted - 1 + 1 * accepted) by lia.
    rewrite Z.div_add by lia. lia.
  - rewrite Z.min_r by lia. replace (total - (next + (total - next)) + accepted - 1) with (accepted - 1) by lia.
    rewrite (Z.div_small (accepted - 1)) by lia.
    replace (total - next + accepted - 1) with (total - next - 1 + 1 * accepted) by lia.
    rewrite Z.div_add, Z.div_small by lia. lia.
Qed.

Lemma all_chunks nows next k y :
  conversing next k y → 0 <= next <= total → next = total ∨ next mod rc_write_alignment cfg = 0 →
  Z.of_nat (length nows) = chunks_left next →
  conversing total (k + length nows) (system_run cat (exchanges k nows) y).
Proof using HW Hcat Hid Hg Hal Hrq Hmax.
  destruct granted_shape as [Ha Hsh]. revert next k y.
  induction nows as [|now nows IH]; intros next k y Hy Hn Hal' Hlen; cbn [exchanges length] in *.
  - assert (next = total) as <-.
    { unfold chunks_left in Hlen. destruct (decide (next = total)) as [|Hne]; [done|].
      assert (1 <= (total - next + accepted - 1) / accepted) by (apply Z.div_le_lower_bound; lia). lia. }
    by rewrite Nat.add_0_r.
  - assert (next < total) as Hlt.
    { unfold chunks_left in Hlen. destruct (decide (next = total)) as [->|]; [|lia].
      rewrite Z.div_small in Hlen by lia. lia. }
    destruct Hal' as [|Hal']; [lia|].
    rewrite system_run_app. replace (k + S (length nows))%nat with (S k + length nows)%nat by lia.
    apply (IH (next + Z.min accepted (total - next))); [by apply chunk_exchange; [done|lia|]|lia| |].
    + destruct (decide (accepted <= total - next)) as [Hl|Hl]; [|left; lia].
      destruct Hsh as [Hsh|Hsh]; [|left; lia]. right. rewrite Z.min_l by lia.
      rewrite Z.add_mod, Hal', Hsh by lia. by rewrite Z.mod_0_l by lia.
    + rewrite chunks_left_step by lia. lia.
Qed.
End live.

Lemma exchanges_snoc k nows last :
  exchanges k (nows ++ [last]) = exchanges k nows ++ exchange (k + length nows) last.
Proof.
  revert k. induction nows as [|now nows IH]; intros k; cbn [exchanges app length].
  - by rewrite app_nil_r, Nat.add_0_r.
  - rewrite IH, <- app_assoc. do 3 f_equal. lia.
Qed.

(** A fresh sender that starts a transfer offers its Begin. *)
Lemma start_ready s0 scfg s d :
  sender_config_typed scfg → wl_bulk_sender_init s0 scfg = (s, WL_BULK_OK) →
  transfer_id d ≠ 0 → requested_chunk_size d ≠ 0 → is_u32 (requested_chunk_size d) → is_u64 (total_length d) →
  let s1 := (wl_bulk_sender_start s d).1 in
  sender_inv s1 ∧ bs_state s1 = WL_BULK_SENDER_READY ∧ bs_action_acquired s1 = false ∧ bs_descriptor s1 = d ∧
  bs_phase s1 = WL_BULK_PHASE_BEGIN.
Proof.
  intros Hc Hi Hid Hrq H32 H64. pose proof (start_inv s (sender_init_inv _ _ _ Hc Hi) d (conj H32 H64)) as Hs.
  split; [done|]. clear Hs Hc. assert (sender_initialized s = true ∧ bs_state s = WL_BULK_SENDER_IDLE) as [Hm Hst].
  { unfold wl_bulk_sender_init in Hi. branch_case Hi; [done|]. by injection Hi as <-. }
  unfold wl_bulk_sender_start. rewrite Hm, (proj2 (in_sender_state_true _ _) Hst). cbn [negb].
  rewrite (proj2 (Z.eqb_neq _ _) Hid), (proj2 (Z.eqb_neq _ _) Hrq). cbn [orb fst].
  match goal with |- context [prepare_phase ?x _] =>
    assert (bs_descriptor x = d) as Hd by done; revert Hd; generalize x end.
  intros s1 Hd. destruct (prepare_phase_frame s1 WL_BULK_PHASE_BEGIN) as [Ed Es].
  destruct (prepare_phase_fields s1 WL_BULK_PHASE_BEGIN) as (_ & _ & Ep & Ef).
  revert Ed Es Ep Ef. generalize (prepare_phase s1 WL_BULK_PHASE_BEGIN). intros s2 Ed Es Ep Ef.
  cbn. by rewrite Ed.
Qed.

(** C8: When messages and statuses are delivered and the sink accepts
    what it is given, a started transfer completes: one exchange for the Begin, one
    per chunk left after the prefix the sink resumes from, and one for the End
    bring the sender to its completed state, and the sink has committed the
    object. *)
Theorem bulk_transfer_completes {W} `{!BulkSink W, !SinkLaws W} cat id s0 scfg s r0 rcfg r (w0 : W) accepted nows :
  accepting W → catalog_ok cat → world_ok cat w0 →
  sender_config_typed scfg → wl_bulk_sender_init s0 scfg = (s, WL_BULK_OK) →
  wl_bulk_receiver_init r0 rcfg = (r, WL_BULK_OK) →
  let d := cat_descriptor cat id in
  let resume := (sink_begin w0 d).2 in
  id ≠ 0 → is_u32 (requested_chunk_size d) → is_u64 (total_length d) →
  granted rcfg d accepted → resume_valid rcfg d resume →
  Z.of_nat (length nows) = (total_length d - resume + accepted - 1) / accepted + 2 →
  let y := system_run cat (OpStart id :: exchanges 0 nows) (system_start s r w0) in
  bs_state (sy_sender y) = WL_BULK_SENDER_COMPLETED ∧ (id, cat_object cat id) ∈ committed (sy_sink y).
Proof.
  intros HW Hcat Hw Hsc Hsi Hri d resume Hid H32 H64 Hg Hv Hn.
  pose proof (receiver_init_spec _ _ _ Hri) as (Hr & Hal & Hmax & _).
  destruct (granted_shape cat rcfg id accepted Hg Hal H32 Hmax) as [Ha _].
  destruct (sink_begin w0 d) as [[w1 res] resume'] eqn:Eb. cbn in resume. subst resume.
  pose proof (acc_begin W HW w0 d) as Hok. rewrite Eb in Hok. cbn in Hok. subst res.
  destruct (law_begin _ _ _ _ _ Eb) as (_ & _ & Hres). specialize (Hres eq_refl).
  assert (0 <= resume' <= total_length d) as Hrb. { split; [rewrite Hres; apply len_nonneg|apply Hv]. }
  assert (0 <= (total_length d - resume' + accepted - 1) / accepted) as Hq by (apply Z.div_pos; lia).
  destruct nows as [|now nows]; [cbn in Hn; lia|].
  destruct nows as [|last nows _] using rev_ind; [cbn in Hn; lia|].
  cbn [length] in Hn. rewrite length_app in Hn. cbn [length] in Hn.
  set (y0 := system_start s r w0). set (y1 := system_exec cat (OpStart id) y0).
  assert (system_run cat (OpStart id :: exchanges 0 (now :: nows ++ [last])) y0 =
    system_run cat (exchange (1 + length nows) last)
      (system_run cat (exchanges 1 nows) (system_run cat (exchange 0 now) y1))) as ->.
  { change (system_run cat (OpStart id :: ?l) y0) with (system_run cat l y1). cbn [exchanges].
    by rewrite exchanges_snoc, !system_run_app. }
  assert (requested_chunk_size d ≠ 0) as Hrq0 by (unfold d; lia).
  destruct (start_ready s0 scfg s d Hsc Hsi) as (Hs1 & Hst & Hf & Hd & Hp);
    [unfold d; by rewrite (ok_id cat Hcat)|done..|].
  assert (conversing cat rcfg id accepted resume' 1 (system_run cat (exchange 0 now) y1)) as H1.
  { apply (begin_exchange cat Hcat rcfg id accepted Hg Hal H32 Hmax 0 y1 now w1 resume'); try done; try lia;
      change (sy_receiver y1) with r; by rewrite Hr. }
  pose proof (all_chunks HW cat Hcat rcfg id accepted Hid Hg Hal H32 Hmax nows resume' 1 _ H1 Hrb
    ltac:(apply Hv) ltac:(unfold chunks_left; fold d; lia)) as H2.
  destruct (end_exchange HW cat Hcat rcfg id accepted Hid _ _ last H2) as [Hdone Hdd].
  split; [done|].
  assert (system_ok cat y0) as Hy0 by (by eapply system_start_ok).
  assert (system_ok cat y1) as Hy1 by (by apply system_exec_ok).
  match type of Hdone with bs_state (sy_sender ?y) = _ =>
    assert (system_ok cat y) as Hy by (by do 3 apply (system_run_ok cat Hcat));
    pose proof (yo_completed cat y Hy Hdone) as Hin end.
  rewrite Hdd, (ok_id cat Hcat) in Hin. exact Hin.
Qed.

(** What the sink in memory resumes from, 4 bytes of transfer 7. *)
Definition resumed_sink : memory_sink := mk_memory_sink {[7 := [1; 2; 3; 4; 5]]} [].

Lemma memory_accepting : accepting memory_sink.
Proof. by split. Qed.

Lemma bulk_transfer_completes_witness :
  let y := system_run demo_catalog (OpStart 7 :: exchanges 0 [10; 20; 30])
             (system_start demo_sender demo_receiver resumed_sink) in
  (7, [1; 2; 3; 4; 5; 6; 7; 8; 9; 10]) ∈ committed (sy_sink y).
Proof.
  refine (proj2 (bulk_transfer_completes demo_catalog 7 sender_zero demo_sender_config demo_sender
    receiver_zero demo_receiver_config demo_receiver resumed_sink 8 [10; 20; 30] memory_accepting demo_catalog_ok
    _ _ eq_refl eq_refl _ _ _ eq_refl _ eq_refl)).
  - split; [|intros id bytes Hin; by apply not_elem_of_nil in Hin]. intros id.
    change (default [] (({[7 := [1; 2; 3; 4; 5]]} : gmap Z (list Z)) !! id) `prefix_of` cat_object demo_catalog id).
    destruct (decide (7 = id)) as [<-|Hne]; [rewrite lookup_singleton_eq; by exists [6; 7; 8; 9; 10]|].
    rewrite lookup_singleton_ne by done. apply prefix_nil.
  - unfold sender_config_typed, is_u32, is_u16. cbn. lia.
  - lia.
  - unfold is_u32. cbn. lia.
  - unfold is_u64. cbn. lia.
  - unfold resume_valid. vm_compute. split; [discriminate|]. by right.
Defined.
