(* ===== verification/Rpc.v ===== *)
(** RPC: what the client and the server share.

    The error codes of [include/wirelink/rpc.h], their texts, and the interval
    arithmetic of [src/rpc.c]. *)
From Stdlib Require Import Strings.String.
From S2P Require Import Prelude Slots Clock Link.

Inductive rpc_err :=
  | WL_RPC_OK
  | WL_RPC_ERR_INVALID_ARG
  | WL_RPC_ERR_NOT_INITIALIZED
  | WL_RPC_ERR_NO_SLOT
  | WL_RPC_ERR_OPERATION_CONFLICT
  | WL_RPC_ERR_NOT_FOUND
  | WL_RPC_ERR_INVALID_STATE
  | WL_RPC_ERR_RESPONSE_MISMATCH
  | WL_RPC_ERR_RESPONSE_TOO_LARGE
  | WL_RPC_ERR_CACHE_FULL
  | WL_RPC_ERR_MALFORMED_METADATA
  | WL_RPC_ERR_SESSION_MISMATCH
  | WL_RPC_ERR_ID_EXHAUSTED.

#[export] Instance rpc_err_eq_dec : EqDecision rpc_err.
Proof. solve_decision. Defined.

Definition rpc_err_code (e : rpc_err) : Z :=
  match e with
  | WL_RPC_OK => 0
  | WL_RPC_ERR_INVALID_ARG => -1000
  | WL_RPC_ERR_NOT_INITIALIZED => -1001
  | WL_RPC_ERR_NO_SLOT => -1002
  | WL_RPC_ERR_OPERATION_CONFLICT => -1003
  | WL_RPC_ERR_NOT_FOUND => -1004
  | WL_RPC_ERR_INVALID_STATE => -1005
  | WL_RPC_ERR_RESPONSE_MISMATCH => -1006
  | WL_RPC_ERR_RESPONSE_TOO_LARGE => -1007
  | WL_RPC_ERR_CACHE_FULL => -1008
  | WL_RPC_ERR_MALFORMED_METADATA => -1009
  | WL_RPC_ERR_SESSION_MISMATCH => -1010
  | WL_RPC_ERR_ID_EXHAUSTED => -1011
  end.

Definition wl_rpc_err_str (error : Z) : string :=
  (if (error =? 0)%Z then "ok"
   else if (error =? -1000)%Z then "invalid argument"
   else if (error =? -1001)%Z then "not initialized"
   else if (error =? -1002)%Z then "no free slot"
   else if (error =? -1003)%Z then "operation conflict"
   else if (error =? -1004)%Z then "not found"
   else if (error =? -1005)%Z then "invalid state"
   else if (error =? -1006)%Z then "response mismatch"
   else if (error =? -1007)%Z then "response too large"
   else if (error =? -1008)%Z then "response cache full"
   else if (error =? -1009)%Z then "malformed RPC metadata"
   else if (error =? -1010)%Z then "RPC session mismatch"
   else if (error =? -1011)%Z then "RPC operation identities exhausted"
   else "unknown rpc error")%string.

Definition WL_RPC_MAX_INTERVAL : Z := 0x80000000.
Definition WL_RPC_NO_DEADLINE_MS : Z := UINT32_MAX.

Definition interval_valid (interval_ms : Z) : bool := interval_ms <? WL_RPC_MAX_INTERVAL.

Lemma interval_valid_lt t : interval_valid t = true → t < 2 ^ 31.
Proof.
  unfold interval_valid. intros E%Z.ltb_lt. unfold WL_RPC_MAX_INTERVAL in E. lia.
Qed.

(** An interval of zero never elapses. *)
Definition elapsed (now_ms started_at interval_ms : Z) : bool :=
  negb (interval_ms =? 0) && deadline_elapsed now_ms started_at interval_ms.

(** The events both tables accept from the link. *)
Definition tx_terminal_event (ev : wl_event) : bool :=
  bool_decide (ev_type ev = WL_EVT_TX_SUCCESS) || bool_decide (ev_type ev = WL_EVT_TX_TIMEOUT) ||
  bool_decide (ev_type ev = WL_EVT_TX_FAILED).

(** ** Counting the entries of a table *)

Definition tally {A} (f : A → bool) (l : list A) : Z :=
  foldr (λ x n, Z.b2z (f x) + n) 0 l.
#[global] Arguments tally : simpl never.

Section tally.
Context {A : Type} (f : A → bool).

Lemma tally_cons x l : tally f (x :: l) = Z.b2z (f x) + tally f l.
Proof. done. Qed.

Lemma tally_bounds l : 0 <= tally f l <= len l.
Proof.
  induction l as [|x l IH]; [done|]. rewrite len_cons, tally_cons. destruct (f x); cbn; lia.
Qed.

Lemma tally_insert l i x y :
  l !! i = Some x → tally f (<[i := y]> l) = tally f l - Z.b2z (f x) + Z.b2z (f y).
Proof.
  revert i. induction l as [|z l IH]; intros [|i] H; try done; cbn in H.
  - injection H as ->. change (<[0%nat := y]> (x :: l)) with (y :: l). rewrite !tally_cons. lia.
  - change (<[S i := y]> (z :: l)) with (z :: <[i := y]> l). rewrite !tally_cons, (IH i H). lia.
Qed.

Lemma tally_zero l : tally f l = 0 ↔ ∀ i x, l !! i = Some x → f x = false.
Proof.
  induction l as [|z l IH]; [naive_solver|]. rewrite tally_cons. pose proof (tally_bounds l). split.
  - intros H0. assert (f z = false) as Hz by (destruct (f z); cbn in *; [lia|done]).
    rewrite Hz in H0. intros [|i] x Hx; cbn in Hx; [naive_solver|]. by apply (proj1 IH H0 i).
  - intros H0. rewrite (H0 0%nat z eq_refl). apply (proj2 IH). intros i x Hx. by apply (H0 (S i)).
Qed.

Lemma tally_pos l : 0 < tally f l ↔ ∃ i x, l !! i = Some x ∧ f x = true.
Proof.
  induction l as [|z l IH]; [unfold tally; cbn; split; [lia|naive_solver]|]. rewrite tally_cons.
  pose proof (tally_bounds l). split.
  - destruct (f z) eqn:Ez; [intros _; by exists 0%nat, z|]. cbn. intros (i & x & H1)%IH.
    by exists (S i), x.
  - intros ([|i] & x & Hi & Hx); cbn in Hi.
    + injection Hi as ->. rewrite Hx. cbn. lia.
    + assert (0 < tally f l) by (apply IH; by exists i, x). destruct (f z); cbn; lia.
Qed.

Lemma tally_full l : tally f l = len l ↔ ∀ i x, l !! i = Some x → f x = true.
Proof.
  induction l as [|z l IH]; [naive_solver|]. rewrite tally_cons, len_cons.
  pose proof (tally_bounds l). split.
  - intros H0. assert (f z = true) as Hz by (destruct (f z); cbn in *; [done|lia]).
    rewrite Hz in H0. cbn in H0. intros [|i] x Hx; cbn in Hx; [naive_solver|].
    apply (proj1 IH ltac:(lia) i x Hx).
  - intros H0. rewrite (H0 0%nat z eq_refl). cbn.
    rewrite (proj2 IH); [lia|]. intros i x Hx. by apply (H0 (S i)).
Qed.
End tally.

(** ** Keys of the entries of a table *)

(** No two entries that satisfy [P] have the same key. *)
Definition distinct {A B} (P : A → Prop) (key : A → B) (l : list A) : Prop :=
  ∀ i j x y, l !! i = Some x → l !! j = Some y → P x → P y → key x = key y → i = j.

Section distinct.
Context {A B : Type} (P : A → Prop) (key : A → B).

Lemma distinct_insert l i y :
  distinct P key l → (P y → ∀ j x, j ≠ i → l !! j = Some x → P x → key x ≠ key y) →
  distinct P key (<[i := y]> l).
Proof.
  intros Hd Hy a b x z Ha Hb Px Pz E.
  apply list_lookup_insert_Some in Ha as [(<- & <- & _)|[Hia Ha]];
    apply list_lookup_insert_Some in Hb as [(Eb & Ez & _)|[Hib Hb]].
  - done.
  - edestruct (Hy Px b z); auto.
  - subst. edestruct (Hy Pz a x); auto.
  - by apply (Hd a b x z).
Qed.

Lemma distinct_update l i x y :
  distinct P key l → l !! i = Some x → (P y → P x ∧ key y = key x) → distinct P key (<[i := y]> l).
Proof.
  intros Hd Hi Hy. apply distinct_insert; [done|]. intros Py j z Hj Hz Pz E.
  destruct (Hy Py) as [Px Ek]. apply Hj. apply (Hd j i z x); auto. congruence.
Qed.

Lemma distinct_fmap (f : A → A) l :
  distinct P key l → (∀ x, P (f x) → P x ∧ key (f x) = key x) → distinct P key (f <$> l).
Proof.
  intros Hd Hf i j x y Hi Hj Px Py E.
  apply list_lookup_fmap_Some in Hi as (x' & -> & Hi). apply list_lookup_fmap_Some in Hj as (y' & -> & Hj).
  destruct (Hf x' Px) as [Px' Ex]. destruct (Hf y' Py) as [Py' Ey].
  apply (Hd i j x' y'); auto. congruence.
Qed.
End distinct.
