(* ===== verification/RpcClient.v ===== *)
(** The RPC client table, [src/rpc.c] lines 22 to 849.

    A client keeps one slot per call: its operation id, its message ids, its
    end-to-end deadline and the state it is in.  The link layer and the decoder of
    the responses drive the state; the application polls for deadlines, cancels
    and releases.  The slot array of the caller is the list [cl_slots]; a handle is
    the address of the client, a slot index and the generation of the slot, so the
    operations on handles take the address [self] of the client.  Null object
    pointers are not modelled. *)
From S2P Require Import Prelude Slots Clock Link Rpc.

Definition WL_RPC_CLIENT_MAGIC : Z := 0x52504343.

(** [wl_rpc_client_state_t] *)
Inductive client_state :=
  | WL_RPC_CLIENT_FREE
  | WL_RPC_CLIENT_QUEUED
  | WL_RPC_CLIENT_LINK_PENDING
  | WL_RPC_CLIENT_WAIT_RESPONSE
  | WL_RPC_CLIENT_COMPLETED
  | WL_RPC_CLIENT_LINK_FAILED
  | WL_RPC_CLIENT_TIMED_OUT
  | WL_RPC_CLIENT_CANCELLED
  | WL_RPC_CLIENT_APPLICATION_ERROR.

#[export] Instance client_state_eq_dec : EqDecision client_state.
Proof. solve_decision. Defined.

(** [wl_rpc_client_slot_impl_t] *)
Record client_slot := mk_client_slot {
  cs_generation : Z;
  cs_operation_id : Z;
  cs_started_at : Z;
  cs_timeout_ms : Z;
  cs_tx_handle : Z;
  cs_link_result : Z;
  cs_application_status : Z;
  cs_runtime_error : rpc_err;
  cs_state : client_state;
  cs_request_message_id : Z;
  cs_response_message_id : Z;
  cs_link_delivery_confirmed : bool;
}.

#[export] Instance rebuild_client_slot : Rebuild client_slot := λ s,
  mk_client_slot (cs_generation s) (cs_operation_id s) (cs_started_at s) (cs_timeout_ms s)
    (cs_tx_handle s) (cs_link_result s) (cs_application_status s) (cs_runtime_error s)
    (cs_state s) (cs_request_message_id s) (cs_response_message_id s)
    (cs_link_delivery_confirmed s).
#[export] Instance fs_cs_generation : FieldSet cs_generation := _.
#[export] Instance fs_cs_operation_id : FieldSet cs_operation_id := _.
#[export] Instance fs_cs_started_at : FieldSet cs_started_at := _.
#[export] Instance fs_cs_timeout_ms : FieldSet cs_timeout_ms := _.
#[export] Instance fs_cs_tx_handle : FieldSet cs_tx_handle := _.
#[export] Instance fs_cs_link_result : FieldSet cs_link_result := _.
#[export] Instance fs_cs_application_status : FieldSet cs_application_status := _.
#[export] Instance fs_cs_runtime_error : FieldSet cs_runtime_error := _.
#[export] Instance fs_cs_state : FieldSet cs_state := _.
#[export] Instance fs_cs_request_message_id : FieldSet cs_request_message_id := _.
#[export] Instance fs_cs_response_message_id : FieldSet cs_response_message_id := _.
#[export] Instance fs_cs_link_delivery_confirmed : FieldSet cs_link_delivery_confirmed := _.

#[export] Instance client_slot_eq_dec : EqDecision client_slot.
Proof. solve_decision. Defined.

Definition client_slot_zero : client_slot :=
  mk_client_slot 0 0 0 0 0 0 0 WL_RPC_OK WL_RPC_CLIENT_FREE 0 0 false.

(** [wl_rpc_client_impl_t] *)
Record client := mk_client {
  cl_slots : list client_slot;
  cl_next_generation : Z;
  cl_next_operation_id : Z;
  cl_magic : Z;
  cl_slot_count : Z;
  cl_allocated_count : Z;
}.

#[export] Instance rebuild_client : Rebuild client := λ c,
  mk_client (cl_slots c) (cl_next_generation c) (cl_next_operation_id c) (cl_magic c)
    (cl_slot_count c) (cl_allocated_count c).
#[export] Instance fs_cl_slots : FieldSet cl_slots := _.
#[export] Instance fs_cl_next_generation : FieldSet cl_next_generation := _.
#[export] Instance fs_cl_next_operation_id : FieldSet cl_next_operation_id := _.
#[export] Instance fs_cl_magic : FieldSet cl_magic := _.
#[export] Instance fs_cl_slot_count : FieldSet cl_slot_count := _.
#[export] Instance fs_cl_allocated_count : FieldSet cl_allocated_count := _.

(** [wl_rpc_client_config_t]: [clc_slots] is the address of the slot array. *)
Record client_config := mk_client_config {
  clc_slots : Z;
  clc_slot_count : Z;
  clc_next_operation_id : Z;
}.

(** [wl_rpc_client_handle_impl_t], the contents of [wl_rpc_client_handle_t] and of
    [wl_rpc_client_response_t] *)
Record client_handle := mk_client_handle {
  hd_owner : Z;
  hd_generation : Z;
  hd_index : Z;
}.

(** [wl_rpc_client_result_t] *)
Record client_outcome := mk_client_outcome {
  co_operation_id : Z;
  co_request_message_id : Z;
  co_response_message_id : Z;
  co_state : client_state;
  co_tx_handle : Z;
  co_link_result : Z;
  co_application_status : Z;
  co_runtime_error : rpc_err;
  co_link_delivery_confirmed : bool;
  co_result_index : Z;
  co_response_valid : bool;
}.

(** ** Lookup *)

Definition client_initialized (c : client) : bool := cl_magic c =? WL_RPC_CLIENT_MAGIC.

Definition client_terminal (s : client_state) : bool :=
  bool_decide (s = WL_RPC_CLIENT_COMPLETED) || bool_decide (s = WL_RPC_CLIENT_LINK_FAILED) ||
  bool_decide (s = WL_RPC_CLIENT_TIMED_OUT) || bool_decide (s = WL_RPC_CLIENT_CANCELLED) ||
  bool_decide (s = WL_RPC_CLIENT_APPLICATION_ERROR).

(** The test of [wl_rpc_client_poll] and [wl_rpc_client_get_deadline_hint]. *)
Definition client_active (s : client_state) : bool :=
  bool_decide (s = WL_RPC_CLIENT_QUEUED) || bool_decide (s = WL_RPC_CLIENT_LINK_PENDING) ||
  bool_decide (s = WL_RPC_CLIENT_WAIT_RESPONSE).

(** The test of [wl_rpc_client_response_prepare] and
    [wl_rpc_client_response_commit]. *)
Definition client_answerable (s : client_state) : bool :=
  bool_decide (s = WL_RPC_CLIENT_LINK_PENDING) || bool_decide (s = WL_RPC_CLIENT_WAIT_RESPONSE).

Definition client_slot_at (c : client) (index : nat) : client_slot :=
  default client_slot_zero (cl_slots c !! index).

Definition set_client_slot (c : client) (index : nat) (s : client_slot) : client :=
  c <| cl_slots := <[index := s]> (cl_slots c) |>.

Definition client_find (c : client) (operation_id : Z) : option (nat * client_slot) :=
  list_find (λ s, cs_state s ≠ WL_RPC_CLIENT_FREE ∧ cs_operation_id s = operation_id) (cl_slots c).

Definition client_find_free (c : client) : option (nat * client_slot) :=
  list_find (λ s, cs_state s = WL_RPC_CLIENT_FREE) (cl_slots c).

(** ** Admission *)

Definition wl_rpc_client_init (c : client) (config : client_config) : client * rpc_err :=
  if (clc_slots config =? NULL) || (clc_slot_count config =? 0) then (c, WL_RPC_ERR_INVALID_ARG)
  else
    (mk_client (replicate (Z.to_nat (clc_slot_count config)) client_slot_zero) 1
       (if clc_next_operation_id config =? 0 then 1 else clc_next_operation_id config)
       WL_RPC_CLIENT_MAGIC (clc_slot_count config) 0, WL_RPC_OK).

(** The slot of a call just admitted. *)
Definition slot_queued (generation operation_id request_message_id response_message_id timeout_ms
    now_ms : Z) : client_slot :=
  mk_client_slot generation operation_id now_ms timeout_ms 0 0 0 WL_RPC_OK WL_RPC_CLIENT_QUEUED
    request_message_id response_message_id false.

Definition wl_rpc_client_begin_with_id (c : client)
    (operation_id request_message_id response_message_id timeout_ms now_ms : Z) : client * rpc_err :=
  if negb (client_initialized c) then (c, WL_RPC_ERR_NOT_INITIALIZED)
  else if (operation_id =? 0) || (request_message_id =? 0) || (response_message_id =? 0) ||
          negb (interval_valid timeout_ms) then (c, WL_RPC_ERR_INVALID_ARG)
  else if cl_next_generation c =? 0 then (c, WL_RPC_ERR_NO_SLOT)
  else
    match client_find c operation_id, client_find_free c with
    | Some _, _ => (c, WL_RPC_ERR_OPERATION_CONFLICT)
    | None, None => (c, WL_RPC_ERR_NO_SLOT)
    | None, Some (index, _) =>
        let slot := slot_queued (cl_next_generation c) operation_id request_message_id
                      response_message_id timeout_ms now_ms in
        (set_client_slot c index slot
           <| cl_next_generation := u64 (cl_next_generation c + 1) |>
           <| cl_allocated_count := u16 (cl_allocated_count c + 1) |>, WL_RPC_OK)
    end.

(** The search of [wl_rpc_client_begin]: [fuel] is the number of attempts left. *)
Fixpoint begin_candidate (c : client) (candidate : Z) (fuel : nat) : rpc_err + Z :=
  match fuel with
  | O => inl WL_RPC_ERR_NO_SLOT
  | S fuel =>
      if candidate =? 0 then inl WL_RPC_ERR_ID_EXHAUSTED
      else match client_find c candidate with
           | None => inr candidate
           | Some _ => begin_candidate c (u32 (candidate + 1)) fuel
           end
  end.

(** The last component is [*out_operation_id]. *)
Definition wl_rpc_client_begin (c : client)
    (request_message_id response_message_id timeout_ms now_ms : Z) : client * rpc_err * Z :=
  if negb (client_initialized c) then (c, WL_RPC_ERR_NOT_INITIALIZED, 0)
  else if cl_next_operation_id c =? 0 then (c, WL_RPC_ERR_ID_EXHAUSTED, 0)
  else
    match begin_candidate c (cl_next_operation_id c) (S (Z.to_nat (cl_slot_count c))) with
    | inl e => (c, e, 0)
    | inr candidate =>
        let '(c1, error) :=
          wl_rpc_client_begin_with_id c candidate request_message_id response_message_id timeout_ms
            now_ms in
        if bool_decide (error ≠ WL_RPC_OK) then (c1, error, 0)
        else (c1 <| cl_next_operation_id := u32 (candidate + 1) |>, WL_RPC_OK, candidate)
    end.

(** ** The link side of a call *)

Definition wl_rpc_client_bind_tx (c : client) (operation_id handle : Z) : client * rpc_err :=
  if negb (client_initialized c) then (c, WL_RPC_ERR_NOT_INITIALIZED)
  else if (operation_id =? 0) || (handle =? 0) then (c, WL_RPC_ERR_INVALID_ARG)
  else
    match client_find c operation_id with
    | None => (c, WL_RPC_ERR_NOT_FOUND)
    | Some (index, slot) =>
        if bool_decide (cs_state slot ≠ WL_RPC_CLIENT_QUEUED) then (c, WL_RPC_ERR_INVALID_STATE)
        else
          match list_find (λ '(i, s), i ≠ index ∧ cs_state s = WL_RPC_CLIENT_LINK_PENDING ∧
                                      cs_tx_handle s = handle) (imap pair (cl_slots c)) with
          | Some _ => (c, WL_RPC_ERR_OPERATION_CONFLICT)
          | None =>
              (set_client_slot c index
                 (slot <| cs_tx_handle := handle |> <| cs_state := WL_RPC_CLIENT_LINK_PENDING |>),
               WL_RPC_OK)
          end
    end.

Definition wl_rpc_client_tx_completed (c : client) (operation_id : Z) : client * rpc_err :=
  if negb (client_initialized c) then (c, WL_RPC_ERR_NOT_INITIALIZED)
  else if operation_id =? 0 then (c, WL_RPC_ERR_INVALID_ARG)
  else
    match client_find c operation_id with
    | None => (c, WL_RPC_ERR_NOT_FOUND)
    | Some (index, slot) =>
        if bool_decide (cs_state slot ≠ WL_RPC_CLIENT_QUEUED) then (c, WL_RPC_ERR_INVALID_STATE)
        else
          (set_client_slot c index
             (slot <| cs_link_delivery_confirmed := false |>
                   <| cs_state := WL_RPC_CLIENT_WAIT_RESPONSE |>), WL_RPC_OK)
    end.

Definition wl_rpc_client_link_failed (c : client) (operation_id link_result : Z) : client * rpc_err :=
  if negb (client_initialized c) then (c, WL_RPC_ERR_NOT_INITIALIZED)
  else if (operation_id =? 0) || (link_result =? wl_err_code WL_OK) then (c, WL_RPC_ERR_INVALID_ARG)
  else
    match client_find c operation_id with
    | None => (c, WL_RPC_ERR_NOT_FOUND)
    | Some (index, slot) =>
        if bool_decide (cs_state slot ≠ WL_RPC_CLIENT_QUEUED) &&
           bool_decide (cs_state slot ≠ WL_RPC_CLIENT_LINK_PENDING) then (c, WL_RPC_ERR_INVALID_STATE)
        else
          (set_client_slot c index
             (slot <| cs_link_result := link_result |> <| cs_state := WL_RPC_CLIENT_LINK_FAILED |>),
           WL_RPC_OK)
    end.

(** The slot a terminal event of the link leaves behind. *)
Definition tx_event_slot (slot : client_slot) (ev : wl_event) : client_slot :=
  if bool_decide (ev_type ev = WL_EVT_TX_SUCCESS) then
    slot <| cs_link_result := ev_io_result ev |> <| cs_link_delivery_confirmed := true |>
         <| cs_state := WL_RPC_CLIENT_WAIT_RESPONSE |>
  else
    slot <| cs_link_result :=
              if ev_io_result ev =? wl_err_code WL_OK then
                if bool_decide (ev_type ev = WL_EVT_TX_TIMEOUT) then wl_err_code WL_ERR_TIMEOUT
                else wl_err_code WL_ERR_TX_FAILED
              else ev_io_result ev |>
         <| cs_state := WL_RPC_CLIENT_LINK_FAILED |>.

Definition wl_rpc_client_on_tx_event (c : client) (ev : wl_event) : client * rpc_err :=
  if negb (client_initialized c) then (c, WL_RPC_ERR_NOT_INITIALIZED)
  else if (ev_handle ev =? 0) || negb (tx_terminal_event ev) then (c, WL_RPC_ERR_INVALID_ARG)
  else
    match list_find (λ s, cs_state s = WL_RPC_CLIENT_LINK_PENDING ∧ cs_tx_handle s = ev_handle ev)
            (cl_slots c) with
    | None => (c, WL_RPC_ERR_NOT_FOUND)
    | Some (index, slot) => (set_client_slot c index (tx_event_slot slot ev), WL_RPC_OK)
    end.

(** ** Deadlines *)

Definition slot_due (now_ms : Z) (s : client_slot) : bool :=
  client_active (cs_state s) && elapsed now_ms (cs_started_at s) (cs_timeout_ms s).

Fixpoint poll_slots (now_ms : Z) (slots : list client_slot) (timed_out : Z) : list client_slot * Z :=
  match slots with
  | [] => ([], timed_out)
  | s :: rest =>
      if slot_due now_ms s then
        let '(rest', n) := poll_slots now_ms rest (u16 (timed_out + 1)) in
        (s <| cs_state := WL_RPC_CLIENT_TIMED_OUT |> :: rest', n)
      else
        let '(rest', n) := poll_slots now_ms rest timed_out in (s :: rest', n)
  end.

(** The right summand is [*out_timed_out], written only on success. *)
Definition wl_rpc_client_poll (c : client) (now_ms : Z) : client * (rpc_err + Z) :=
  if negb (client_initialized c) then (c, inl WL_RPC_ERR_NOT_INITIALIZED)
  else if cl_allocated_count c =? 0 then (c, inr 0)
  else
    let '(slots, timed_out) := poll_slots now_ms (cl_slots c) 0 in
    (c <| cl_slots := slots |>, inr timed_out).

Definition client_nearest (now_ms : Z) (nearest : Z) (s : client_slot) : Z :=
  if (cs_timeout_ms s =? 0) || negb (client_active (cs_state s)) then nearest
  else
    let remaining := deadline_remaining now_ms (cs_started_at s) (cs_timeout_ms s) in
    if remaining <? nearest then remaining else nearest.

Definition wl_rpc_client_get_deadline_hint (c : client) (now_ms : Z) : rpc_err + Z :=
  if negb (client_initialized c) then inl WL_RPC_ERR_NOT_INITIALIZED
  else if cl_allocated_count c =? 0 then inr WL_RPC_NO_DEADLINE_MS
  else inr (foldl (client_nearest now_ms) WL_RPC_NO_DEADLINE_MS (cl_slots c)).

(** ** Results, cancellation and release by operation id *)

Definition wl_rpc_client_cancel (c : client) (operation_id : Z) : client * rpc_err :=
  if negb (client_initialized c) then (c, WL_RPC_ERR_NOT_INITIALIZED)
  else if operation_id =? 0 then (c, WL_RPC_ERR_INVALID_ARG)
  else
    match client_find c operation_id with
    | None => (c, WL_RPC_ERR_NOT_FOUND)
    | Some (index, slot) =>
        if client_terminal (cs_state slot) then (c, WL_RPC_ERR_INVALID_STATE)
        else (set_client_slot c index (slot <| cs_state := WL_RPC_CLIENT_CANCELLED |>), WL_RPC_OK)
    end.

Definition client_result (s : client_slot) (index : Z) : client_outcome :=
  mk_client_outcome (cs_operation_id s) (cs_request_message_id s) (cs_response_message_id s)
    (cs_state s) (cs_tx_handle s) (cs_link_result s) (cs_application_status s) (cs_runtime_error s)
    (cs_link_delivery_confirmed s) index (bool_decide (cs_state s = WL_RPC_CLIENT_COMPLETED)).

Definition wl_rpc_client_get (c : client) (operation_id : Z) : rpc_err + client_outcome :=
  if negb (client_initialized c) then inl WL_RPC_ERR_NOT_INITIALIZED
  else if operation_id =? 0 then inl WL_RPC_ERR_INVALID_ARG
  else
    match client_find c operation_id with
    | None => inl WL_RPC_ERR_NOT_FOUND
    | Some (index, slot) => inr (client_result slot (Z.of_nat index))
    end.

Definition release_slot (c : client) (index : nat) : client :=
  set_client_slot c index client_slot_zero <| cl_allocated_count := u16 (cl_allocated_count c - 1) |>.

Definition wl_rpc_client_release (c : client) (operation_id : Z) : client * rpc_err :=
  if negb (client_initialized c) then (c, WL_RPC_ERR_NOT_INITIALIZED)
  else if operation_id =? 0 then (c, WL_RPC_ERR_INVALID_ARG)
  else
    match client_find c operation_id with
    | None => (c, WL_RPC_ERR_NOT_FOUND)
    | Some (index, slot) =>
        if negb (client_terminal (cs_state slot)) then (c, WL_RPC_ERR_INVALID_STATE)
        else (release_slot c index, WL_RPC_OK)
    end.

(** ** Handles *)

Definition wl_rpc_client_get_handle (self : Z) (c : client) (operation_id : Z)
    : rpc_err + client_handle :=
  if negb (client_initialized c) then inl WL_RPC_ERR_NOT_INITIALIZED
  else if operation_id =? 0 then inl WL_RPC_ERR_INVALID_ARG
  else
    match client_find c operation_id with
    | None => inl WL_RPC_ERR_NOT_FOUND
    | Some (index, slot) => inr (mk_client_handle self (cs_generation slot) (Z.of_nat index))
    end.

Definition client_handle_index (self : Z) (c : client) (h : client_handle) : rpc_err + nat :=
  if negb (client_initialized c) then inl WL_RPC_ERR_NOT_INITIALIZED
  else if negb (hd_owner h =? self) || (hd_generation h =? 0) || (cl_slot_count c <=? hd_index h)
  then inl WL_RPC_ERR_INVALID_ARG
  else
    let index := Z.to_nat (hd_index h) in
    let slot := client_slot_at c index in
    if bool_decide (cs_state slot = WL_RPC_CLIENT_FREE) || negb (cs_generation slot =? hd_generation h)
    then inl WL_RPC_ERR_NOT_FOUND
    else inr index.

(** The right summand is the authority and [*out_result_index]. *)
Definition wl_rpc_client_response_prepare (self : Z) (c : client)
    (request_message_id response_message_id operation_id now_ms : Z)
    : client * (rpc_err + client_handle * Z) :=
  if (request_message_id =? 0) || (response_message_id =? 0) then (c, inl WL_RPC_ERR_INVALID_ARG)
  else if negb (client_initialized c) then (c, inl WL_RPC_ERR_NOT_INITIALIZED)
  else if operation_id =? 0 then (c, inl WL_RPC_ERR_INVALID_ARG)
  else
    match client_find c operation_id with
    | None => (c, inl WL_RPC_ERR_NOT_FOUND)
    | Some (index, slot) =>
        if negb (cs_request_message_id slot =? request_message_id) ||
           negb (cs_response_message_id slot =? response_message_id)
        then (c, inl WL_RPC_ERR_RESPONSE_MISMATCH)
        else if negb (client_answerable (cs_state slot)) then (c, inl WL_RPC_ERR_INVALID_STATE)
        else if elapsed now_ms (cs_started_at slot) (cs_timeout_ms slot) then
          (set_client_slot c index (slot <| cs_state := WL_RPC_CLIENT_TIMED_OUT |>),
           inl WL_RPC_ERR_INVALID_STATE)
        else
          (c, inr (mk_client_handle self (cs_generation slot) (Z.of_nat index), Z.of_nat index))
    end.

Definition wl_rpc_client_response_commit (self : Z) (c : client) (authority : client_handle)
    (application_status now_ms : Z) : client * rpc_err :=
  match client_handle_index self c authority with
  | inl e => (c, e)
  | inr index =>
      let slot := client_slot_at c index in
      if negb (client_answerable (cs_state slot)) then (c, WL_RPC_ERR_INVALID_STATE)
      else if elapsed now_ms (cs_started_at slot) (cs_timeout_ms slot) then
        (set_client_slot c index (slot <| cs_state := WL_RPC_CLIENT_TIMED_OUT |>),
         WL_RPC_ERR_INVALID_STATE)
      else
        (set_client_slot c index
           (slot <| cs_application_status := application_status |>
                 <| cs_state := if application_status =? 0 then WL_RPC_CLIENT_COMPLETED
                                else WL_RPC_CLIENT_APPLICATION_ERROR |>), WL_RPC_OK)
  end.

Definition wl_rpc_client_state_by_handle (self : Z) (c : client) (h : client_handle)
    : rpc_err + client_state :=
  match client_handle_index self c h with
  | inl e => inl e
  | inr index => inr (cs_state (client_slot_at c index))
  end.

Definition wl_rpc_client_get_by_handle (self : Z) (c : client) (h : client_handle)
    : rpc_err + client_outcome :=
  match client_handle_index self c h with
  | inl e => inl e
  | inr index => inr (client_result (client_slot_at c index) (Z.of_nat index))
  end.

Definition wl_rpc_client_cancel_handle (self : Z) (c : client) (h : client_handle)
    : client * rpc_err :=
  match client_handle_index self c h with
  | inl e => (c, e)
  | inr index =>
      let slot := client_slot_at c index in
      if client_terminal (cs_state slot) then (c, WL_RPC_ERR_INVALID_STATE)
      else (set_client_slot c index (slot <| cs_state := WL_RPC_CLIENT_CANCELLED |>), WL_RPC_OK)
  end.

Definition wl_rpc_client_release_handle (self : Z) (c : client) (h : client_handle)
    : client * rpc_err :=
  match client_handle_index self c h with
  | inl e => (c, e)
  | inr index =>
      let slot := client_slot_at c index in
      if negb (client_terminal (cs_state slot)) then (c, WL_RPC_ERR_INVALID_STATE)
      else (release_slot c index, WL_RPC_OK)
  end.
