(* ===== verification/RpcCalls.v ===== *)
(** The life of an RPC call.

    Every operation of the client table is one step of a small relation: a call
    is admitted, advances along its life cycle, or is released.  From it follow the
    invariant of the table and what a handle answers over time: the same call,
    moving forward only, its outcome frozen once there is one, and never a later
    call of the same slot. *)
From stdpp Require Import relations.
From S2P Require Import Prelude Slots Clock Link Rpc RpcClient.

(** ** Operations *)

Inductive client_op :=
  | ClBeginWithId (operation_id request_message_id response_message_id timeout_ms now_ms : Z)
  | ClBegin (request_message_id response_message_id timeout_ms now_ms : Z)
  | ClBindTx (operation_id handle : Z)
  | ClTxCompleted (operation_id : Z)
  | ClLinkFailed (operation_id link_result : Z)
  | ClTxEvent (ev : wl_event)
  | ClPoll (now_ms : Z)
  | ClCancel (operation_id : Z)
  | ClRelease (operation_id : Z)
  | ClPrepare (request_message_id response_message_id operation_id now_ms : Z)
  | ClCommit (authority : client_handle) (application_status now_ms : Z)
  | ClCancelHandle (h : client_handle)
  | ClReleaseHandle (h : client_handle).

Definition client_exec (self : Z) (c : client) (op : client_op) : client :=
  match op with
  | ClBeginWithId id req resp timeout now => (wl_rpc_client_begin_with_id c id req resp timeout now).1
  | ClBegin req resp timeout now => (wl_rpc_client_begin c req resp timeout now).1.1
  | ClBindTx id h => (wl_rpc_client_bind_tx c id h).1
  | ClTxCompleted id => (wl_rpc_client_tx_completed c id).1
  | ClLinkFailed id r => (wl_rpc_client_link_failed c id r).1
  | ClTxEvent ev => (wl_rpc_client_on_tx_event c ev).1
  | ClPoll now => (wl_rpc_client_poll c now).1
  | ClCancel id => (wl_rpc_client_cancel c id).1
  | ClRelease id => (wl_rpc_client_release c id).1
  | ClPrepare req resp id now => (wl_rpc_client_response_prepare self c req resp id now).1
  | ClCommit a status now => (wl_rpc_client_response_commit self c a status now).1
  | ClCancelHandle h => (wl_rpc_client_cancel_handle self c h).1
  | ClReleaseHandle h => (wl_rpc_client_release_handle self c h).1
  end.

Definition client_run (self : Z) : list client_op → client → client :=
  flip (foldl (client_exec self)).

(** The widths the argument types of the code give. *)
Definition client_op_ok (op : client_op) : Prop :=
  match op with
  | ClBeginWithId _ _ _ timeout now | ClBegin _ _ timeout now => is_u32 timeout ∧ is_u32 now
  | _ => True
  end.

(** ** The life cycle of a call *)

Inductive call_step : client_slot → client_slot → Prop :=
  | call_bound s h :
      cs_state s = WL_RPC_CLIENT_QUEUED → h ≠ 0 →
      call_step s (s <| cs_tx_handle := h |> <| cs_state := WL_RPC_CLIENT_LINK_PENDING |>)
  | call_local s :
      cs_state s = WL_RPC_CLIENT_QUEUED →
      call_step s (s <| cs_link_delivery_confirmed := false |>
                     <| cs_state := WL_RPC_CLIENT_WAIT_RESPONSE |>)
  | call_link_failed s r :
      cs_state s = WL_RPC_CLIENT_QUEUED ∨ cs_state s = WL_RPC_CLIENT_LINK_PENDING → r ≠ 0 →
      call_step s (s <| cs_link_result := r |> <| cs_state := WL_RPC_CLIENT_LINK_FAILED |>)
  | call_acked s r :
      cs_state s = WL_RPC_CLIENT_LINK_PENDING →
      call_step s (s <| cs_link_result := r |> <| cs_link_delivery_confirmed := true |>
                     <| cs_state := WL_RPC_CLIENT_WAIT_RESPONSE |>)
  | call_timed_out s now :
      client_active (cs_state s) = true → elapsed now (cs_started_at s) (cs_timeout_ms s) = true →
      call_step s (s <| cs_state := WL_RPC_CLIENT_TIMED_OUT |>)
  | call_cancelled s :
      client_active (cs_state s) = true →
      call_step s (s <| cs_state := WL_RPC_CLIENT_CANCELLED |>)
  | call_answered s status now :
      client_answerable (cs_state s) = true →
      elapsed now (cs_started_at s) (cs_timeout_ms s) = false →
      call_step s (s <| cs_application_status := status |>
                     <| cs_state := if status =? 0 then WL_RPC_CLIENT_COMPLETED
                                    else WL_RPC_CLIENT_APPLICATION_ERROR |>).

(** No other pending call has the handle of [s]. *)
Definition handle_free (slots : list client_slot) (i : nat) (s : client_slot) : Prop :=
  cs_state s = WL_RPC_CLIENT_LINK_PENDING →
  ∀ j t, j ≠ i → slots !! j = Some t → cs_state t = WL_RPC_CLIENT_LINK_PENDING →
         cs_tx_handle t ≠ cs_tx_handle s.

Definition polled (now : Z) (s : client_slot) : client_slot :=
  if slot_due now s then s <| cs_state := WL_RPC_CLIENT_TIMED_OUT |> else s.

Inductive client_step (c : client) : client → Prop :=
  | step_skip : client_step c c
  | step_call i s s' :
      cl_slots c !! i = Some s → call_step s s' → handle_free (cl_slots c) i s' →
      client_step c (set_client_slot c i s')
  | step_poll now : client_step c (c <| cl_slots := polled now <$> cl_slots c |>)
  | step_begin i s id req resp timeout now next :
      cl_next_generation c ≠ 0 → cl_slots c !! i = Some s → cs_state s = WL_RPC_CLIENT_FREE →
      id ≠ 0 → req ≠ 0 → resp ≠ 0 → 0 <= timeout < 2 ^ 31 → 0 <= now < 2 ^ 32 →
      (∀ j t, cl_slots c !! j = Some t → cs_state t ≠ WL_RPC_CLIENT_FREE → cs_operation_id t ≠ id) →
      next = cl_next_operation_id c ∨ next = u32 (id + 1) →
      client_step c
        (set_client_slot c i (slot_queued (cl_next_generation c) id req resp timeout now)
           <| cl_next_generation := u64 (cl_next_generation c + 1) |>
           <| cl_allocated_count := u16 (cl_allocated_count c + 1) |>
           <| cl_next_operation_id := next |>)
  | step_release i s :
      cl_slots c !! i = Some s → client_terminal (cs_state s) = true →
      client_step c (release_slot c i).

(** ** Lookup *)

Lemma client_find_Some c id i s :
  client_find c id = Some (i, s) →
  cl_slots c !! i = Some s ∧ cs_state s ≠ WL_RPC_CLIENT_FREE ∧ cs_operation_id s = id.
Proof. intros (?&[??]&_)%list_find_Some. done. Qed.

Lemma client_find_None c id :
  client_find c id = None ↔
  ∀ j t, cl_slots c !! j = Some t → cs_state t ≠ WL_RPC_CLIENT_FREE → cs_operation_id t ≠ id.
Proof.
  unfold client_find. rewrite list_find_None, Forall_lookup. split.
  - intros H j t Hj Hf E. by apply (H j t Hj).
  - intros H j t Hj [??]. by apply (H j t Hj).
Qed.

Lemma client_handle_index_inr self c h i :
  client_handle_index self c h = inr i →
  client_initialized c = true ∧ hd_owner h = self ∧ hd_generation h ≠ 0 ∧
  hd_index h < cl_slot_count c ∧ i = Z.to_nat (hd_index h) ∧
  cl_slots c !! i = Some (client_slot_at c i) ∧
  cs_state (client_slot_at c i) ≠ WL_RPC_CLIENT_FREE ∧
  cs_generation (client_slot_at c i) = hd_generation h.
Proof.
  unfold client_handle_index. intros H. repeat branch_case H; try done.
  injection H as <-. repeat split; try tauto; try lia.
  unfold client_slot_at in *. destruct (_ !! _); [done|]. naive_solver.
Qed.

Lemma terminal_active s :
  s ≠ WL_RPC_CLIENT_FREE → client_terminal s = false → client_active s = true.
Proof. by destruct s. Qed.

Lemma answerable_active s : client_answerable s = true → client_active s = true.
Proof. by destruct s. Qed.

#[export] Hint Resolve terminal_active answerable_active : rpc.

(** ** Every operation is a step *)

(** The guards that leave the table as it is. *)
Ltac client_guards :=
  repeat match goal with
    | |- client_step _ (?p).1 =>
        lazymatch p with
        | if ?b then _ else _ => let E := fresh "E" in destruct b eqn:E;
            autorewrite with branch in E; cbn [fst]; [exact (step_skip _) || idtac|..]
        end
    | |- client_step ?c ?c => exact (step_skip c)
    end.

Lemma handle_free_other slots i s : cs_state s ≠ WL_RPC_CLIENT_LINK_PENDING → handle_free slots i s.
Proof. by intros H H'. Qed.

#[export] Hint Resolve handle_free_other : rpc.

Lemma begin_with_id_step c id req resp timeout now c' e :
  is_u32 timeout ∧ is_u32 now →
  wl_rpc_client_begin_with_id c id req resp timeout now = (c', e) →
  c' = c ∧ e ≠ WL_RPC_OK ∨
  e = WL_RPC_OK ∧ ∀ next, next = cl_next_operation_id c ∨ next = u32 (id + 1) →
    client_step c (c' <| cl_next_operation_id := next |>).
Proof.
  unfold wl_rpc_client_begin_with_id, is_u32.
  intros Ht H. repeat branch_case H; try (apply pair_equal_spec in H as [<- <-]; by left).
  destruct (client_find_free c) as [[i s]|] eqn:Ei; [|apply pair_equal_spec in H as [<- <-]; by left].
  apply pair_equal_spec in H as [<- <-]. right. split; [done|]. intros next Hnext.
  apply list_find_Some in Ei as (Hi&Hfree&_).
  apply (step_begin c i s id req resp timeout now next); try tauto.
  - split; [lia|]. apply interval_valid_lt. tauto.
  - by apply client_find_None.
Qed.

Lemma bind_tx_step c id h : client_step c (wl_rpc_client_bind_tx c id h).1.
Proof.
  unfold wl_rpc_client_bind_tx. client_guards.
  destruct (client_find c id) as [[i s]|] eqn:Ef; [|exact (step_skip _)]. client_guards.
  apply client_find_Some in Ef as (Hi&_&_).
  apply dec_stable in E1. apply (step_call c i s); [done|apply call_bound; tauto|].
  intros _ j t Hj Ht Hp Eh. apply list_find_None in E2. rewrite Forall_lookup in E2.
  apply (E2 j (j, t)); [|done]. by rewrite list_lookup_imap, Ht.
Qed.

Lemma tx_completed_step c id : client_step c (wl_rpc_client_tx_completed c id).1.
Proof.
  unfold wl_rpc_client_tx_completed. client_guards.
  destruct (client_find c id) as [[i s]|] eqn:Ef; [|exact (step_skip _)]. client_guards.
  apply client_find_Some in Ef as (Hi&_&_).
  apply (step_call c i s); [done|by apply call_local, dec_stable|by apply handle_free_other].
Qed.

Lemma link_failed_step c id r : client_step c (wl_rpc_client_link_failed c id r).1.
Proof.
  unfold wl_rpc_client_link_failed. client_guards.
  destruct (client_find c id) as [[i s]|] eqn:Ef; [|exact (step_skip _)]. client_guards.
  apply client_find_Some in Ef as (Hi&_&_). cbn in E0.
  apply (step_call c i s); [done|apply call_link_failed; [|tauto]|by apply handle_free_other].
  destruct E1 as [E1|E1]; apply dec_stable in E1; tauto.
Qed.

Lemma tx_event_step c ev : client_step c (wl_rpc_client_on_tx_event c ev).1.
Proof.
  unfold wl_rpc_client_on_tx_event. client_guards.
  destruct (list_find _ _) as [[i s]|] eqn:El; [|exact (step_skip _)].
  apply list_find_Some in El as (Hi&[Hp _]&_). cbn [fst].
  unfold tx_event_slot. case_bool_decide.
  - apply (step_call c i s); [done|by apply call_acked|by apply handle_free_other].
  - apply (step_call c i s); [done| |by apply handle_free_other].
    apply call_link_failed; [tauto|]. repeat case_match; cbn in *; lia.
Qed.

Lemma poll_slots_fst now slots n : (poll_slots now slots n).1 = polled now <$> slots.
Proof.
  revert n. induction slots as [|s rest IH]; intros n; [done|]. cbn. unfold polled at 1.
  destruct (slot_due now s).
  - specialize (IH (u16 (n + 1))). destruct (poll_slots _ _ _). cbn in *. by f_equal.
  - specialize (IH n). destruct (poll_slots _ _ _). cbn in *. by f_equal.
Qed.

Lemma poll_step c now : client_step c (wl_rpc_client_poll c now).1.
Proof.
  unfold wl_rpc_client_poll. client_guards.
  pose proof (poll_slots_fst now (cl_slots c) 0) as E1. destruct (poll_slots _ _ _) as [slots n].
  cbn [fst] in *. rewrite E1. apply step_poll.
Qed.

Lemma cancel_step c id : client_step c (wl_rpc_client_cancel c id).1.
Proof.
  unfold wl_rpc_client_cancel. client_guards.
  destruct (client_find c id) as [[i s]|] eqn:Ef; [|exact (step_skip _)]. client_guards.
  apply client_find_Some in Ef as (Hi&Hf&_).
  apply (step_call c i s); [done|apply call_cancelled; eauto with rpc|by apply handle_free_other].
Qed.

Lemma release_step c id : client_step c (wl_rpc_client_release c id).1.
Proof.
  unfold wl_rpc_client_release. client_guards.
  destruct (client_find c id) as [[i s]|] eqn:Ef; [|exact (step_skip _)]. client_guards.
  apply client_find_Some in Ef as (Hi&Hf&_). by apply (step_release c i s).
Qed.

Lemma prepare_step self c req resp id now :
  client_step c (wl_rpc_client_response_prepare self c req resp id now).1.
Proof.
  unfold wl_rpc_client_response_prepare. client_guards.
  destruct (client_find c id) as [[i s]|] eqn:Ef; [|exact (step_skip _)]. client_guards.
  apply client_find_Some in Ef as (Hi&Hf&_).
  apply (step_call c i s); [done| |by apply handle_free_other].
  apply (call_timed_out s now); eauto with rpc.
Qed.

Lemma commit_step self c a status now :
  client_step c (wl_rpc_client_response_commit self c a status now).1.
Proof.
  unfold wl_rpc_client_response_commit.
  destruct (client_handle_index _ _ _) as [e|i] eqn:Eh; [exact (step_skip _)|].
  apply client_handle_index_inr in Eh as (_&_&_&_&_&Hi&_&_). client_guards.
  - apply (step_call c i _ _ Hi); [|by apply handle_free_other].
    apply (call_timed_out _ now); eauto with rpc.
  - apply (step_call c i _ _ Hi); [by apply (call_answered _ status now)|].
    apply handle_free_other. cbn. by case_match.
Qed.

Lemma cancel_handle_step self c h : client_step c (wl_rpc_client_cancel_handle self c h).1.
Proof.
  unfold wl_rpc_client_cancel_handle.
  destruct (client_handle_index _ _ _) as [e|i] eqn:Eh; [exact (step_skip _)|].
  apply client_handle_index_inr in Eh as (_&_&_&_&_&Hi&Hf&_). client_guards.
  apply (step_call c i _ _ Hi); [apply call_cancelled; eauto with rpc|by apply handle_free_other].
Qed.

Lemma release_handle_step self c h : client_step c (wl_rpc_client_release_handle self c h).1.
Proof.
  unfold wl_rpc_client_release_handle.
  destruct (client_handle_index _ _ _) as [e|i] eqn:Eh; [exact (step_skip _)|].
  apply client_handle_index_inr in Eh as (_&_&_&_&_&Hi&Hf&_). client_guards.
  by apply (step_release c i _ Hi).
Qed.

Lemma next_operation_same (c : client) : c <| cl_next_operation_id := cl_next_operation_id c |> = c.
Proof. by destruct c. Qed.

Lemma begin_frame c id req resp timeout now c' e :
  wl_rpc_client_begin_with_id c id req resp timeout now = (c', e) →
  cl_next_operation_id c' = cl_next_operation_id c.
Proof.
  unfold wl_rpc_client_begin_with_id. intros H. repeat branch_case H; try by simplify_eq.
  destruct (client_find_free c) as [[i s]|]; apply pair_equal_spec in H as [<- _]; done.
Qed.

Lemma begin_step c req resp timeout now :
  is_u32 timeout ∧ is_u32 now → client_step c (wl_rpc_client_begin c req resp timeout now).1.1.
Proof.
  intros Ht. unfold wl_rpc_client_begin.
  destruct (negb _); [exact (step_skip _)|]. destruct (_ =? 0); [exact (step_skip _)|].
  destruct (begin_candidate _ _ _) as [e|id]; [exact (step_skip _)|].
  destruct (wl_rpc_client_begin_with_id _ _ _ _ _ _) as [c' e] eqn:Eb.
  apply (begin_with_id_step _ _ _ _ _ _ _ _ Ht) in Eb as [[-> He]|[-> Hs]].
  - rewrite bool_decide_eq_true_2 by done. exact (step_skip _).
  - rewrite bool_decide_eq_false_2 by tauto. apply Hs. by right.
Qed.

Lemma client_exec_step self c op : client_op_ok op → client_step c (client_exec self c op).
Proof.
  intros Ht. destruct op; cbn [client_exec client_op_ok] in *.
  - destruct (wl_rpc_client_begin_with_id _ _ _ _ _ _) as [c' e] eqn:Eb. cbn [fst].
    pose proof (begin_frame _ _ _ _ _ _ _ _ Eb) as Hn.
    apply (begin_with_id_step _ _ _ _ _ _ _ _ Ht) in Eb as [[-> _]|[-> Hs]]; [exact (step_skip _)|].
    rewrite <- (next_operation_same c'). apply Hs. by left.
  - by apply begin_step.
  - apply bind_tx_step.
  - apply tx_completed_step.
  - apply link_failed_step.
  - apply tx_event_step.
  - apply poll_step.
  - apply cancel_step.
  - apply release_step.
  - apply prepare_step.
  - apply commit_step.
  - apply cancel_handle_step.
  - apply release_handle_step.
Qed.

(** ** The invariant of the table *)

Definition client_live (s : client_slot) : bool := bool_decide (cs_state s ≠ WL_RPC_CLIENT_FREE).

(** Generations below this bound have been handed out. *)
Definition generation_limit (c : client) : Z :=
  if cl_next_generation c =? 0 then 2 ^ 64 else cl_next_generation c.

(** A call in a slot: what its state says about its other fields. *)
Record call_ok (limit : Z) (s : client_slot) : Prop := {
  ck_generation : 0 < cs_generation s < limit;
  ck_operation : cs_operation_id s ≠ 0;
  ck_request : cs_request_message_id s ≠ 0;
  ck_response : cs_response_message_id s ≠ 0;
  ck_timeout : 0 <= cs_timeout_ms s < 2 ^ 31;
  ck_started : 0 <= cs_started_at s < 2 ^ 32;
  ck_runtime : cs_runtime_error s = WL_RPC_OK;
  ck_bound : cs_state s = WL_RPC_CLIENT_LINK_PENDING ∨ cs_link_delivery_confirmed s = true →
    cs_tx_handle s ≠ 0;
  ck_failed : cs_state s = WL_RPC_CLIENT_LINK_FAILED → cs_link_result s ≠ 0;
  ck_completed : cs_state s = WL_RPC_CLIENT_COMPLETED → cs_application_status s = 0;
  ck_rejected : cs_state s = WL_RPC_CLIENT_APPLICATION_ERROR → cs_application_status s ≠ 0;
}.

Definition slot_ok (limit : Z) (s : client_slot) : Prop :=
  s = client_slot_zero ∨ cs_state s ≠ WL_RPC_CLIENT_FREE ∧ call_ok limit s.

Record client_inv (c : client) : Prop := {
  ci_magic : cl_magic c = WL_RPC_CLIENT_MAGIC;
  ci_count : len (cl_slots c) = cl_slot_count c;
  ci_count_range : 1 <= cl_slot_count c < 2 ^ 16;
  ci_allocated : cl_allocated_count c = tally client_live (cl_slots c);
  ci_next : 0 <= cl_next_generation c < 2 ^ 64;
  ci_next_id : 0 <= cl_next_operation_id c < 2 ^ 32;
  ci_slots : ∀ i s, cl_slots c !! i = Some s → slot_ok (generation_limit c) s;
  ci_operations : distinct (λ s, cs_state s ≠ WL_RPC_CLIENT_FREE) cs_operation_id (cl_slots c);
  ci_generations : distinct (λ s, cs_state s ≠ WL_RPC_CLIENT_FREE) cs_generation (cl_slots c);
  ci_handles : distinct (λ s, cs_state s = WL_RPC_CLIENT_LINK_PENDING) cs_tx_handle (cl_slots c);
}.

(** ** The invariant holds along every run *)

(** What a step of its life never changes about a call. *)
Definition same_call (s s' : client_slot) : Prop :=
  cs_generation s' = cs_generation s ∧ cs_operation_id s' = cs_operation_id s ∧
  cs_request_message_id s' = cs_request_message_id s ∧
  cs_response_message_id s' = cs_response_message_id s ∧
  cs_started_at s' = cs_started_at s ∧ cs_timeout_ms s' = cs_timeout_ms s.

Lemma call_step_same s s' : call_step s s' → same_call s s'.
Proof. by destruct 1. Qed.

Lemma call_step_live s s' :
  call_step s s' → client_active (cs_state s) = true ∧ cs_state s' ≠ WL_RPC_CLIENT_FREE.
Proof.
  destruct 1; cbn -[client_active]; split; try done; eauto with rpc.
  all: try by match goal with E : cs_state _ = _ |- _ => rewrite E end.
  - by destruct H as [-> | ->].
  - by case_match.
Qed.

Lemma active_live s : client_active s = true → s ≠ WL_RPC_CLIENT_FREE.
Proof. by destruct s. Qed.

Lemma call_step_ok limit s s' : call_step s s' → call_ok limit s → call_ok limit s'.
Proof.
  intros Hs Hok. destruct Hs; destruct Hok; constructor; cbn; try done; try tauto; try congruence.
  1: by intros [?|?].
  1-4: intros [?|?]; [try done; by case_match|tauto].
  all: case_match; intros ?; try done; lia.
Qed.

Lemma polled_cases now s : polled now s = s ∨ call_step s (polled now s).
Proof.
  unfold polled, slot_due. destruct (_ && _) eqn:E; [|by left]. autorewrite with branch in E.
  destruct E. right. by apply (call_timed_out s now).
Qed.

Lemma polled_same now s :
  (cs_state (polled now s) ≠ WL_RPC_CLIENT_FREE ↔ cs_state s ≠ WL_RPC_CLIENT_FREE) ∧
  same_call s (polled now s).
Proof.
  destruct (polled_cases now s) as [-> |Hs]; [done|]. split; [|by apply call_step_same].
  apply call_step_live in Hs as [Ha Hl]. apply active_live in Ha. tauto.
Qed.

Lemma polled_pending now s :
  cs_state (polled now s) = WL_RPC_CLIENT_LINK_PENDING → polled now s = s.
Proof. unfold polled. by case_match. Qed.

Lemma tally_polled now slots : tally client_live (polled now <$> slots) = tally client_live slots.
Proof.
  induction slots as [|s l IH]; [done|]. rewrite fmap_cons, !tally_cons, IH. f_equal. f_equal.
  unfold client_live. apply bool_decide_ext, polled_same.
Qed.

Lemma slot_ok_live limit s :
  slot_ok limit s → cs_state s ≠ WL_RPC_CLIENT_FREE → call_ok limit s.
Proof. intros [-> |[_ ?]]; done. Qed.

Lemma slot_ok_weaken limit limit' s : limit <= limit' → slot_ok limit s → slot_ok limit' s.
Proof. intros Hl [-> |[? []]]; [by left|]. right. split; [done|]. constructor; auto. lia. Qed.

(** A table that differs in its slots only, each keeping its call. *)
Lemma client_inv_slots c slots :
  client_inv c → len slots = len (cl_slots c) →
  tally client_live slots = tally client_live (cl_slots c) →
  (∀ i s, slots !! i = Some s → slot_ok (generation_limit c) s) →
  distinct (λ s, cs_state s ≠ WL_RPC_CLIENT_FREE) cs_operation_id slots →
  distinct (λ s, cs_state s ≠ WL_RPC_CLIENT_FREE) cs_generation slots →
  distinct (λ s, cs_state s = WL_RPC_CLIENT_LINK_PENDING) cs_tx_handle slots →
  client_inv (c <| cl_slots := slots |>).
Proof. intros [] E1 E2. constructor; cbn; try done; congruence. Qed.

Lemma call_inv c i s s' :
  client_inv c → cl_slots c !! i = Some s → call_step s s' → handle_free (cl_slots c) i s' →
  client_inv (set_client_slot c i s').
Proof.
  intros Hc Hi Hs Hf. destruct (call_step_live _ _ Hs) as [Ha%active_live Hl].
  destruct (call_step_same _ _ Hs) as (Eg & Eo & _).
  apply client_inv_slots; [done|..].
  - unfold len. by rewrite length_insert.
  - rewrite (tally_insert _ _ _ _ _ Hi). unfold client_live. rewrite !bool_decide_eq_true_2 by done. lia.
  - intros j t [(-> & -> & _)|[_ Hj]]%list_lookup_insert_Some; [|by apply (ci_slots c Hc j)].
    right. split; [done|]. apply (call_step_ok _ s), slot_ok_live; auto. by apply (ci_slots c Hc j).
  - apply (distinct_update _ _ _ i s); [apply Hc|done|tauto].
  - apply (distinct_update _ _ _ i s); [apply Hc|done|tauto].
  - apply distinct_insert; [apply Hc|]. intros Hp j t Hj Ht Hq. by apply (Hf Hp j).
Qed.

Lemma polled_inv c now : client_inv c → client_inv (c <| cl_slots := polled now <$> cl_slots c |>).
Proof.
  intros Hc. apply client_inv_slots; [done|..].
  - unfold len. by rewrite length_fmap.
  - apply tally_polled.
  - intros i s (t & -> & Ht)%list_lookup_fmap_Some. pose proof (ci_slots c Hc i t Ht) as Hok.
    destruct (polled_cases now t) as [-> |Hs]; [done|]. right.
    destruct (call_step_live _ _ Hs) as [Ha%active_live Hl]. split; [done|].
    by apply (call_step_ok _ t), slot_ok_live.
  - apply distinct_fmap; [apply Hc|]. intros s. destruct (polled_same now s) as [E (_&?&_)]. tauto.
  - apply distinct_fmap; [apply Hc|]. intros s. destruct (polled_same now s) as [E (?&_&_)]. tauto.
  - apply distinct_fmap; [apply Hc|]. intros s Hp. pose proof (polled_pending now s Hp) as E.
    by rewrite E in *.
Qed.

Lemma release_inv c i s :
  client_inv c → cl_slots c !! i = Some s → client_terminal (cs_state s) = true →
  client_inv (release_slot c i).
Proof.
  intros Hc Hi Ht. assert (cs_state s ≠ WL_RPC_CLIENT_FREE) as Hl by (by destruct (cs_state s)).
  pose proof (tally_insert client_live _ _ _ client_slot_zero Hi) as Et.
  unfold client_live at 3 in Et. rewrite bool_decide_eq_true_2 in Et by done.
  change (client_live client_slot_zero) with false in Et. cbn [Z.b2z] in Et.
  pose proof (tally_bounds client_live (<[i := client_slot_zero]> (cl_slots c))) as Hb.
  pose proof (ci_allocated c Hc) as Ea. pose proof (ci_count c Hc) as El.
  pose proof (ci_count_range c Hc) as Hr.
  destruct Hc. constructor; cbn; try done.
  - unfold len. by rewrite length_insert.
  - unfold len in *. rewrite length_insert in Hb. rewrite u16_id; unfold is_u16; lia.
  - intros j t [(-> & <- & _)|[_ Hj]]%list_lookup_insert_Some; [by left|]. by apply (ci_slots0 j).
  - by apply (distinct_update _ _ _ i s).
  - by apply (distinct_update _ _ _ i s).
  - by apply (distinct_update _ _ _ i s).
Qed.

Lemma next_limit n :
  0 <= n < 2 ^ 64 → n ≠ 0 → (if u64 (n + 1) =? 0 then 2 ^ 64 else u64 (n + 1)) = n + 1.
Proof.
  intros Hn H0. destruct (decide (n = 2 ^ 64 - 1)) as [-> |Hm]; [done|].
  rewrite u64_id by (unfold is_u64; lia). case_match; lia.
Qed.

Lemma begin_inv c i s id req resp timeout now next :
  client_inv c → cl_next_generation c ≠ 0 → cl_slots c !! i = Some s →
  cs_state s = WL_RPC_CLIENT_FREE → id ≠ 0 → req ≠ 0 → resp ≠ 0 → 0 <= timeout < 2 ^ 31 → 0 <= now < 2 ^ 32 →
  (∀ j t, cl_slots c !! j = Some t → cs_state t ≠ WL_RPC_CLIENT_FREE → cs_operation_id t ≠ id) →
  next = cl_next_operation_id c ∨ next = u32 (id + 1) →
  client_inv
    (set_client_slot c i (slot_queued (cl_next_generation c) id req resp timeout now)
       <| cl_next_generation := u64 (cl_next_generation c + 1) |>
       <| cl_allocated_count := u16 (cl_allocated_count c + 1) |>
       <| cl_next_operation_id := next |>).
Proof.
  intros Hc Hg Hi Hf Hid Hreq Hresp Ht Hnow Hfresh Hnext. set (q := slot_queued _ _ _ _ _ _).
  pose proof (tally_insert client_live _ _ _ q Hi) as Et.
  unfold client_live at 3 in Et. rewrite bool_decide_eq_false_2 in Et by tauto.
  change (client_live q) with true in Et. cbn [Z.b2z] in Et.
  pose proof (tally_bounds client_live (<[i := q]> (cl_slots c))) as Hb.
  unfold len in Hb. rewrite length_insert in Hb. fold (len (cl_slots c)) in Hb.
  destruct Hc. rewrite ci_count0 in Hb.
  assert (generation_limit c = cl_next_generation c) as Elim.
  { unfold generation_limit. case_match eqn:E; [lia|done]. }
  constructor; cbn; try done.
  - unfold len. by rewrite length_insert.
  - rewrite u16_id; unfold is_u16; lia.
  - apply wrap_bound. lia.
  - destruct Hnext as [-> | ->]; [done|]. apply wrap_bound. lia.
  - change (generation_limit _) with (generation_limit (c <| cl_next_generation := u64 (cl_next_generation c + 1) |>)).
    unfold generation_limit at 1. cbn. rewrite next_limit by done.
    intros j t [(-> & <- & _)|[_ Hj]]%list_lookup_insert_Some.
    + right. split; [done|]. constructor; cbn; try done; [lia|]. by intros [?|?].
    + apply (slot_ok_weaken (generation_limit c)); [lia|]. by apply (ci_slots0 j).
  - apply distinct_insert; [done|]. intros _ j t _ Hj Hl. by apply (Hfresh j).
  - apply distinct_insert; [done|]. intros _ j t _ Hj Hl E.
    pose proof (ck_generation _ _ (slot_ok_live _ _ (ci_slots0 j t Hj) Hl)). cbn in E. lia.
  - by apply (distinct_update _ _ _ i s).
Qed.

Lemma client_step_inv c c' : client_inv c → client_step c c' → client_inv c'.
Proof.
  intros Hc []; [done|by apply (call_inv c i s)|by apply polled_inv| |by apply (release_inv c i s)].
  by apply (begin_inv c i s).
Qed.

Lemma client_run_inv self ops c : Forall client_op_ok ops → client_inv c → client_inv (client_run self ops c).
Proof.
  intros Hops. revert c. induction Hops as [|op ops Ho _ IH]; intros c Hc; [done|].
  apply IH. by eapply client_step_inv, client_exec_step.
Qed.

Definition client_config_ok (config : client_config) : Prop :=
  is_u16 (clc_slot_count config) ∧ is_u32 (clc_next_operation_id config).

Lemma client_init_inv c0 config c :
  client_config_ok config → wl_rpc_client_init c0 config = (c, WL_RPC_OK) → client_inv c.
Proof.
  unfold wl_rpc_client_init, client_config_ok, is_u16. intros [Hn Hid] H. branch_case H; [done|].
  apply pair_equal_spec in H as [<- _].
  assert (∀ i s, replicate (Z.to_nat (clc_slot_count config)) client_slot_zero !! i = Some s →
            s = client_slot_zero) as Hz by by intros i s [? _]%lookup_replicate.
  constructor; cbn; try done.
  - unfold len. rewrite length_replicate. lia.
  - lia.
  - symmetry. apply tally_zero. by intros i s ->%Hz.
  - unfold is_u32 in Hid. case_match; lia.
  - intros i s ->%Hz. by left.
  - by intros i j s t ->%Hz ->%Hz.
  - by intros i j s t ->%Hz ->%Hz.
  - by intros i j s t ->%Hz ->%Hz.
Qed.

(** ** What a handle answers over time *)

(** The call of generation [g] in slot [i], while it is there. *)
Definition call_at (c : client) (i : nat) (g : Z) : option client_slot :=
  s ← cl_slots c !! i;
  if bool_decide (cs_state s ≠ WL_RPC_CLIENT_FREE) && (cs_generation s =? g) then Some s else None.

Lemma call_at_Some c i g s :
  call_at c i g = Some s ↔
  cl_slots c !! i = Some s ∧ cs_state s ≠ WL_RPC_CLIENT_FREE ∧ cs_generation s = g.
Proof.
  unfold call_at. destruct (cl_slots c !! i) as [t|]; cbn; [|naive_solver].
  destruct (_ && _) eqn:E; autorewrite with branch in E; naive_solver lia.
Qed.

Lemma call_at_None c i g :
  call_at c i g = None ↔
  ∀ s, cl_slots c !! i = Some s → cs_state s ≠ WL_RPC_CLIENT_FREE → cs_generation s ≠ g.
Proof.
  split.
  - intros H s Hs Hl E. assert (call_at c i g = Some s) by by apply call_at_Some. congruence.
  - intros H. destruct (call_at c i g) as [s|] eqn:E; [|done].
    apply call_at_Some in E as (Hi & Hl & Hg). by destruct (H s Hi Hl).
Qed.

Lemma terminal_stays s s' : client_terminal (cs_state s) = true → ¬ call_step s s'.
Proof. intros Ht [Ha _]%call_step_live. by destruct (cs_state s). Qed.

(** One step of the table, seen from one call of it. *)
Lemma call_at_step c c' i g s :
  client_step c c' → call_at c i g = Some s →
  (∃ s', call_at c' i g = Some s' ∧ (s' = s ∨ call_step s s')) ∨
  call_at c' i g = None ∧ client_terminal (cs_state s) = true.
Proof.
  intros Hstep (Hi & Hl & Hg)%call_at_Some. destruct Hstep as [|k t t' Hk Ht _|now|k t * _ Hk Hf|k t Hk Ht].
  - left. exists s. split; [by apply call_at_Some|by left].
  - left. destruct (decide (k = i)) as [-> |Hne].
    + assert (t = s) as -> by congruence. exists t'. split; [|by right].
      apply call_at_Some. split.
      { apply list_lookup_insert_eq. by apply lookup_lt_Some in Hi. }
      destruct (call_step_live _ _ Ht) as [_ Hl'], (call_step_same _ _ Ht) as [Eg _].
      by rewrite Eg.
    + exists s. split; [|by left]. apply call_at_Some. cbn. by rewrite list_lookup_insert_ne.
  - left. exists (polled now s). split.
    + apply call_at_Some. cbn. rewrite list_lookup_fmap, Hi. split; [done|].
      destruct (polled_same now s) as [E [-> _]]. tauto.
    + destruct (polled_cases now s); auto.
  - left. exists s. split; [|by left]. apply call_at_Some. split; [|done].
    cbn. rewrite list_lookup_insert_ne; [done|]. intros ->. congruence.
  - destruct (decide (k = i)) as [-> |Hne].
    + right. assert (t = s) as -> by congruence. split; [|done]. apply call_at_None. cbn.
      intros u [(_ & <- & _)|[? _]]%list_lookup_insert_Some; done.
    + left. exists s. split; [|by left]. apply call_at_Some. cbn. by rewrite list_lookup_insert_ne.
Qed.

Lemma limit_next c :
  client_inv c → cl_next_generation c ≠ 0 → generation_limit c = cl_next_generation c.
Proof. intros _ H. unfold generation_limit. case_match eqn:E; [lia|done]. Qed.

Lemma limit_mono c c' : client_inv c → client_step c c' → generation_limit c <= generation_limit c'.
Proof.
  intros Hc []; try done. rewrite (limit_next c) by done.
  change (generation_limit _) with
    (if u64 (cl_next_generation c + 1) =? 0 then 2 ^ 64 else u64 (cl_next_generation c + 1)).
  rewrite next_limit; [lia|apply Hc|done].
Qed.

(** A generation that was handed out and is gone never comes back. *)
Lemma call_at_gone c c' i g :
  client_inv c → client_step c c' → 0 < g < generation_limit c → call_at c i g = None →
  call_at c' i g = None.
Proof.
  intros Hc Hstep Hg Hn. rewrite call_at_None in Hn. apply call_at_None.
  destruct Hstep as [|k t t' Hk Ht _|now|k t * Hng Hk Hf|k t Hk Ht]; [done|..]; cbn;
    intros s Hs Hl.
  - apply list_lookup_insert_Some in Hs as [(-> & <- & _)|[_ Hs]]; [|by apply Hn].
    destruct (call_step_live _ _ Ht) as [Ha%active_live _], (call_step_same _ _ Ht) as [Eg _].
    rewrite Eg. by apply Hn.
  - apply list_lookup_fmap_Some in Hs as (t & -> & Hs).
    destruct (polled_same now t) as [E [-> _]]. apply Hn; tauto.
  - rewrite (limit_next c) in Hg by done.
    apply list_lookup_insert_Some in Hs as [(-> & <- & _)|[_ Hs]]; [|by apply Hn]. cbn. lia.
  - apply list_lookup_insert_Some in Hs as [(-> & <- & _)|[_ Hs]]; [done|by apply Hn].
Qed.

Lemma client_run_app self a b c : client_run self (a ++ b) c = client_run self b (client_run self a c).
Proof. unfold client_run, flip. apply foldl_app. Qed.

Lemma client_run_snoc self ops op c :
  client_run self (ops ++ [op]) c = client_exec self (client_run self ops c) op.
Proof. apply client_run_app. Qed.

Lemma limit_run self ops c :
  Forall client_op_ok ops → client_inv c →
  generation_limit c <= generation_limit (client_run self ops c).
Proof.
  intros Hops Hc. induction ops as [|op ops IH] using rev_ind; [done|].
  apply Forall_app in Hops as [Hops [Hop _]%Forall_cons]. rewrite client_run_snoc.
  etrans; [by apply IH|]. apply limit_mono; [by apply client_run_inv|by apply client_exec_step].
Qed.

Lemma call_gone_run self ops c i g :
  Forall client_op_ok ops → client_inv c → 0 < g < generation_limit c → call_at c i g = None →
  call_at (client_run self ops c) i g = None.
Proof.
  intros Hops Hc Hg Hn. induction ops as [|op ops IH] using rev_ind; [done|].
  apply Forall_app in Hops as [Hops [Hop _]%Forall_cons]. rewrite client_run_snoc.
  pose proof (limit_run self ops c Hops Hc).
  apply (call_at_gone (client_run self ops c)); [by apply client_run_inv| |lia|by apply IH].
  by apply client_exec_step.
Qed.

Lemma call_generation c i g s :
  client_inv c → call_at c i g = Some s → call_ok (generation_limit c) s ∧ 0 < g < generation_limit c.
Proof.
  intros Hc (Hi & Hl & <-)%call_at_Some. pose proof (slot_ok_live _ _ (ci_slots c Hc i s Hi) Hl) as Hok.
  split; [done|apply Hok].
Qed.

Lemma call_at_run self ops c i g s :
  Forall client_op_ok ops → client_inv c → call_at c i g = Some s →
  (∃ s', call_at (client_run self ops c) i g = Some s' ∧ rtc call_step s s') ∨
  call_at (client_run self ops c) i g = None ∧
  ∃ a b s', ops = a ++ b ∧ call_at (client_run self a c) i g = Some s' ∧ rtc call_step s s' ∧
            client_terminal (cs_state s') = true.
Proof.
  intros Hops Hc Hs. induction ops as [|op ops IH] using rev_ind.
  { left. exists s. split; [done|apply rtc_refl]. }
  apply Forall_app in Hops as [Hops [Hop _]%Forall_cons].
  pose proof (client_run_inv self ops c Hops Hc) as Hc1.
  pose proof (client_exec_step self (client_run self ops c) op Hop) as Hstep.
  rewrite client_run_snoc.
  destruct (IH Hops) as [(t & Ht & Hr)|(Hn & a & b & t & Eab & Ha & Hr & Hterm)].
  - destruct (call_at_step _ _ _ _ _ Hstep Ht) as [(t' & Ht' & Hor)|[Hn Hterm]].
    + left. exists t'. split; [done|]. destruct Hor as [-> |Ht1]; [done|]. by apply (rtc_r _ t).
    + right. split; [done|]. by exists ops, [op], t.
  - right. split.
    + apply (call_at_gone _ _ _ _ Hc1 Hstep); [|done].
      pose proof (limit_run self ops c Hops Hc). destruct (call_generation _ _ _ _ Hc Hs). lia.
    + exists a, (b ++ [op]), t. split; [|done]. by rewrite Eab, app_assoc.
Qed.

(** *** The states a call goes through *)

Definition life (s s' : client_state) : Prop :=
  match s with
  | WL_RPC_CLIENT_QUEUED =>
      s' ∈ [WL_RPC_CLIENT_LINK_PENDING; WL_RPC_CLIENT_WAIT_RESPONSE; WL_RPC_CLIENT_LINK_FAILED;
            WL_RPC_CLIENT_TIMED_OUT; WL_RPC_CLIENT_CANCELLED]
  | WL_RPC_CLIENT_LINK_PENDING =>
      s' ∈ [WL_RPC_CLIENT_WAIT_RESPONSE; WL_RPC_CLIENT_LINK_FAILED; WL_RPC_CLIENT_TIMED_OUT;
            WL_RPC_CLIENT_CANCELLED; WL_RPC_CLIENT_COMPLETED; WL_RPC_CLIENT_APPLICATION_ERROR]
  | WL_RPC_CLIENT_WAIT_RESPONSE =>
      s' ∈ [WL_RPC_CLIENT_TIMED_OUT; WL_RPC_CLIENT_CANCELLED; WL_RPC_CLIENT_COMPLETED;
            WL_RPC_CLIENT_APPLICATION_ERROR]
  | _ => False
  end.

Lemma call_step_life s s' : call_step s s' → life (cs_state s) (cs_state s').
Proof.
  destruct 1 as [? ? H|? H|? ? [H|H]|? ? H|? ? H|? H|? status ? H]; cbn -[elem_of];
    try rewrite H; try (destruct (cs_state s); try done); try case_match; cbn -[elem_of]; set_solver.
Qed.

Lemma call_path s s' :
  rtc call_step s s' →
  rtc life (cs_state s) (cs_state s') ∧ same_call s s' ∧
  (client_terminal (cs_state s) = true → s' = s).
Proof.
  induction 1 as [s|s t u Hst Htu (IHl & IHs & IHt)]; [by repeat split; try apply rtc_refl|].
  split_and!.
  - eapply rtc_l; [by apply call_step_life|done].
  - destruct (call_step_same _ _ Hst) as (?&?&?&?&?&?), IHs as (?&?&?&?&?&?).
    repeat split; congruence.
  - intros Ht. by destruct (terminal_stays _ _ Ht Hst).
Qed.

(** The answer of the table to a handle it issued. *)
Lemma get_by_handle_call self c h :
  client_inv c → hd_owner h = self → hd_generation h ≠ 0 → 0 <= hd_index h < cl_slot_count c →
  wl_rpc_client_get_by_handle self c h =
  match call_at c (Z.to_nat (hd_index h)) (hd_generation h) with
  | Some s => inr (client_result s (hd_index h))
  | None => inl WL_RPC_ERR_NOT_FOUND
  end.
Proof.
  intros Hc Ho Hg Hi. unfold wl_rpc_client_get_by_handle, client_handle_index, client_initialized.
  rewrite (ci_magic c Hc), Z.eqb_refl. cbn [negb].
  destruct (_ || _) eqn:E; autorewrite with branch in E; [lia|]. clear E.
  unfold client_slot_at, call_at. pose proof (ci_count c Hc) as Hn. unfold len in Hn.
  destruct (lookup_lt_is_Some_2 (cl_slots c) (Z.to_nat (hd_index h))) as [s Hs]; [lia|].
  rewrite Hs. cbn. destruct (decide (cs_state s = WL_RPC_CLIENT_FREE)) as [Ef|Ef].
  - rewrite (bool_decide_eq_true_2 _ Ef), bool_decide_eq_false_2 by tauto. done.
  - rewrite (bool_decide_eq_false_2 _ Ef), bool_decide_eq_true_2 by done. cbn.
    destruct (_ =? _) eqn:Eg; cbn; [|done]. rewrite Hs. cbn. by rewrite Z2Nat.id by lia.
Qed.

Lemma get_handle_call self c id h :
  client_inv c → wl_rpc_client_get_handle self c id = inr h →
  hd_owner h = self ∧ 0 <= hd_index h < cl_slot_count c ∧
  ∃ s, call_at c (Z.to_nat (hd_index h)) (hd_generation h) = Some s ∧ cs_operation_id s = id.
Proof.
  intros Hc. unfold wl_rpc_client_get_handle. intros H. repeat branch_case H; try done.
  destruct (client_find c id) as [[i s]|] eqn:Ef; [|done]. injection H as <-. cbn.
  apply client_find_Some in Ef as (Hi & Hl & Hid). pose proof (lookup_lt_Some _ _ _ Hi).
  pose proof (ci_count c Hc) as Hn. unfold len in Hn. split; [done|]. split; [lia|].
  exists s. rewrite Nat2Z.id. split; [by apply call_at_Some|done].
Qed.

Lemma slot_count_run self ops c :
  Forall client_op_ok ops → cl_slot_count (client_run self ops c) = cl_slot_count c.
Proof.
  intros Hops. induction ops as [|op ops IH] using rev_ind; [done|].
  apply Forall_app in Hops as [Hops [Hop _]%Forall_cons]. rewrite client_run_snoc, <- IH by done.
  by destruct (client_exec_step self (client_run self ops c) op Hop).
Qed.

Definition outcome_of (r : rpc_err + client_outcome) (id : Z) (state : client_state) : Prop :=
  ∃ o, r = inr o ∧ co_operation_id o = id ∧ co_state o = state.

(** C35: a handle taken for a call answers for that call only, in whatever order
    operations follow.  While the call is in the table its identity is the same,
    its state only moves forward, and an outcome once reported never changes; the
    call leaves the table only after it had an outcome, and from then on the handle
    is unknown, however often its slot is used again. *)
Theorem client_handle_lifecycle self c0 config c id h before between after :
  client_config_ok config → Forall client_op_ok (before ++ between ++ after) →
  wl_rpc_client_init c0 config = (c, WL_RPC_OK) →
  let c1 := client_run self before c in
  let c2 := client_run self between c1 in
  let c3 := client_run self after c2 in
  wl_rpc_client_get_handle self c1 id = inr h →
  match wl_rpc_client_get_by_handle self c2 h, wl_rpc_client_get_by_handle self c3 h with
  | inr o2, inr o3 =>
      co_operation_id o2 = id ∧ co_operation_id o3 = id ∧ rtc life (co_state o2) (co_state o3) ∧
      (client_terminal (co_state o2) = true → o3 = o2)
  | inr o2, inl e =>
      e = WL_RPC_ERR_NOT_FOUND ∧ co_operation_id o2 = id ∧
      ∃ a b state, after = a ++ b ∧ client_terminal state = true ∧ rtc life (co_state o2) state ∧
        outcome_of (wl_rpc_client_get_by_handle self (client_run self a c2) h) id state
  | inl e2, inl e3 => e2 = WL_RPC_ERR_NOT_FOUND ∧ e3 = WL_RPC_ERR_NOT_FOUND
  | inl _, inr _ => False
  end.
Proof.
  intros Hcfg Hops Hinit c1 c2 c3 Hh.
  apply Forall_app in Hops as [Hb [Hm Ha]%Forall_app].
  assert (client_inv c1) as H1 by (by apply client_run_inv, (client_init_inv c0 config)).
  assert (client_inv c2) as H2 by (by apply client_run_inv).
  destruct (get_handle_call self c1 id h H1 Hh) as (Ho & Hi & s1 & Hs1 & Hid).
  destruct (call_generation _ _ _ _ H1 Hs1) as [_ Hg].
  assert (∀ l, Forall client_op_ok l → wl_rpc_client_get_by_handle self (client_run self l c2) h =
    match call_at (client_run self l c2) (Z.to_nat (hd_index h)) (hd_generation h) with
    | Some s => inr (client_result s (hd_index h)) | None => inl WL_RPC_ERR_NOT_FOUND end) as Hget.
  { intros l Hl. apply get_by_handle_call; [by apply client_run_inv|done|lia|].
    unfold c2. rewrite !slot_count_run by done. done. }
  rewrite (Hget [] ltac:(done) : wl_rpc_client_get_by_handle self c2 h = _).
  rewrite (Hget after Ha : wl_rpc_client_get_by_handle self c3 h = _).
  change (client_run self [] c2) with c2. fold c3.
  assert (∀ s, call_at c2 (Z.to_nat (hd_index h)) (hd_generation h) = Some s → cs_operation_id s = id) as Hsame.
  { intros s Hs. destruct (call_at_run self between c1 _ _ _ Hm H1 Hs1) as [(t & Ht & Hr)|[Hn _]].
    - apply call_path in Hr as (_ & (_ & Eo & _) & _). fold c2 in Ht. congruence.
    - fold c2 in Hn. congruence. }
  destruct (call_at c2 _ _) as [s2|] eqn:E2.
  - specialize (Hsame s2 eq_refl).
    destruct (call_at_run self after c2 _ _ _ Ha H2 E2) as [(s3 & E3 & Hr)|(E3 & a & b & t & Eab & Et & Hr & Hterm)];
      fold c3 in E3; rewrite E3; apply call_path in Hr as (Hl & (_ & Eo & _) & Hfix).
    + cbn. split; [done|]. split; [congruence|]. split; [done|]. intros Ht. by rewrite (Hfix Ht).
    + cbn. split; [done|]. split; [done|]. exists a, b, (cs_state t). split; [done|]. split; [done|].
      split; [done|]. rewrite Hget, Et by (rewrite Eab in Ha; by apply Forall_app in Ha as [? _]).
      exists (client_result t (hd_index h)). cbn. split; [done|]. split; [congruence|done].
  - pose proof (limit_run self between c1 Hm H1). fold c2 in H.
    unfold c3. rewrite (call_gone_run self after c2) by (done || lia). done.
Qed.

Definition rpc_demo_config : client_config := mk_client_config 4096 2 0.

Definition rpc_demo_client : client :=
  (wl_rpc_client_init (mk_client [] 0 0 0 0 0) rpc_demo_config).1.

Definition rpc_demo_handle : client_handle := mk_client_handle 64 1 0.

Definition rpc_demo_acked : wl_event := mk_event WL_EVT_TX_SUCCESS 0 NULL 0 77 0 0 0.

Lemma client_handle_lifecycle_witness :
  let c1 := client_run 64 [ClBegin 1 2 1000 0; ClBindTx 1 77] rpc_demo_client in
  let c2 := client_run 64 [ClTxEvent rpc_demo_acked] c1 in
  let after := [ClPrepare 1 2 1 10; ClCommit rpc_demo_handle 0 10; ClRelease 1; ClBegin 1 2 1000 20] in
  let c3 := client_run 64 after c2 in
  outcome_of (wl_rpc_client_get_by_handle 64 c2 rpc_demo_handle) 1 WL_RPC_CLIENT_WAIT_RESPONSE ∧
  match wl_rpc_client_get_by_handle 64 c2 rpc_demo_handle,
        wl_rpc_client_get_by_handle 64 c3 rpc_demo_handle with
  | inr o2, inl e =>
      e = WL_RPC_ERR_NOT_FOUND ∧ co_operation_id o2 = 1 ∧
      ∃ a b state, after = a ++ b ∧ client_terminal state = true ∧ rtc life (co_state o2) state ∧
        outcome_of (wl_rpc_client_get_by_handle 64 (client_run 64 a c2) rpc_demo_handle) 1 state
  | _, _ => False
  end.
Proof.
  intros c1 c2 after c3. split; [by eexists|].
  assert (client_config_ok rpc_demo_config) as Hcfg by (unfold client_config_ok, is_u16, is_u32; cbn; lia).
  assert (Forall client_op_ok ([ClBegin 1 2 1000 0; ClBindTx 1 77] ++ [ClTxEvent rpc_demo_acked] ++ after)) as Hops
    by (repeat constructor; cbn; unfold is_u32; lia).
  exact (client_handle_lifecycle 64 (mk_client [] 0 0 0 0 0) rpc_demo_config rpc_demo_client 1
           rpc_demo_handle [ClBegin 1 2 1000 0; ClBindTx 1 77] [ClTxEvent rpc_demo_acked] after Hcfg Hops
           eq_refl eq_refl).
Defined.

(** ** Admission *)

Definition operation_used (c : client) (id : Z) : Prop :=
  ∃ i s, cl_slots c !! i = Some s ∧ cs_state s ≠ WL_RPC_CLIENT_FREE ∧ cs_operation_id s = id.

Lemma client_find_used c id p : client_find c id = Some p → operation_used c id.
Proof. destruct p as [i s]. intros (?&?&?)%client_find_Some. by exists i, s. Qed.

Lemma client_find_unused c id : client_find c id = None ↔ ¬ operation_used c id.
Proof.
  rewrite client_find_None. split; [intros H (i & s & Hi & Hl & E); by apply (H i s)|].
  intros H j t Hj Hl E. apply H. by exists j, t.
Qed.

Lemma begin_candidate_spec c fuel k :
  0 < k < 2 ^ 32 →
  match begin_candidate c k fuel with
  | inr id => k <= id < 2 ^ 32 ∧ ¬ operation_used c id ∧ ∀ x, k <= x < id → operation_used c x
  | inl e =>
      e = WL_RPC_ERR_ID_EXHAUSTED ∧ (∀ x, k <= x < 2 ^ 32 → operation_used c x) ∨
      e = WL_RPC_ERR_NO_SLOT ∧ ∀ x, k <= x < k + Z.of_nat fuel → operation_used c x
  end.
Proof.
  revert k. induction fuel as [|fuel IH]; intros k Hk; cbn [begin_candidate]; [right; split; [done|lia]|].
  destruct (k =? 0) eqn:E0; [lia|]. destruct (client_find c k) as [p|] eqn:Ef.
  2: { apply client_find_unused in Ef. split; [lia|]. split; [done|lia]. }
  apply client_find_used in Ef. destruct (decide (k = 2 ^ 32 - 1)) as [-> |Hne].
  - change (u32 (2 ^ 32 - 1 + 1)) with 0. destruct fuel as [|fuel]; cbn [begin_candidate Z.eqb].
    + right. split; [done|]. intros x Hx. by replace x with (2 ^ 32 - 1) by lia.
    + left. split; [done|]. intros x Hx. by replace x with (2 ^ 32 - 1) by lia.
  - rewrite u32_id by (unfold is_u32; lia). specialize (IH (k + 1) ltac:(lia)).
    assert (∀ x, k <= x → (k + 1 <= x → operation_used c x) → operation_used c x) as Hext.
    { intros x Hx H. destruct (decide (x = k)) as [-> |]; [done|]. apply H. lia. }
    destruct (begin_candidate c (k + 1) fuel) as [e|id].
    + destruct IH as [[-> H]|[-> H]]; [left|right]; (split; [done|]); intros x Hx;
        (apply Hext; [lia|]); intros; apply H; lia.
    + destruct IH as (Hid & Hu & H). split; [lia|]. split; [done|]. intros x Hx.
      apply Hext; [lia|]. intros. apply H. lia.
Qed.

(** There are no more operation ids in use than slots. *)
Lemma used_bound c k n :
  client_inv c → (∀ x, k <= x < k + Z.of_nat n → operation_used c x) → Z.of_nat n <= cl_slot_count c.
Proof.
  intros Hc Hu. assert (seqZ k (Z.of_nat n) ⊆+ (cs_operation_id <$> cl_slots c)) as Hs.
  { apply NoDup_submseteq; [apply NoDup_seqZ|]. intros x Hx%elem_of_seqZ.
    destruct (Hu x Hx) as (i & s & Hi & _ & <-). apply list_elem_of_fmap. exists s. split; [done|].
    by apply list_elem_of_lookup_2 in Hi. }
  apply submseteq_length in Hs. rewrite length_seqZ, length_fmap in Hs.
  pose proof (ci_count c Hc) as E. unfold len in E. lia.
Qed.

Lemma client_find_free_spec c :
  client_inv c →
  match client_find_free c with
  | Some (i, s) => cl_slots c !! i = Some s ∧ cl_allocated_count c < cl_slot_count c
  | None => cl_allocated_count c = cl_slot_count c
  end.
Proof.
  intros Hc. rewrite (ci_allocated c Hc), <- (ci_count c Hc). unfold client_find_free.
  destruct (list_find _ _) as [[i s]|] eqn:E.
  - apply list_find_Some in E as (Hi & Hf & _). split; [done|].
    pose proof (tally_bounds client_live (cl_slots c)).
    destruct (decide (tally client_live (cl_slots c) = len (cl_slots c))) as [Ef|]; [|lia].
    pose proof (proj1 (tally_full _ _) Ef i s Hi) as Ht%bool_decide_eq_true. done.
  - apply list_find_None in E. rewrite Forall_lookup in E. apply tally_full. intros i s Hi.
    apply bool_decide_eq_true. by apply (E i).
Qed.

(** admission is complete.  An operation id is refused as exhausted only when
    every id from the next one on is in use (or the last one was given out), and
    for lack of a slot only when every slot is taken or the generations have run
    out; the search over one id more than there are slots always suffices.
    Otherwise the call is admitted under the first id not in use, in its initial
    state, and nothing else in the table changes. *)
Theorem client_begin_complete self c0 config c ops req resp timeout now :
  client_config_ok config → Forall client_op_ok ops → wl_rpc_client_init c0 config = (c, WL_RPC_OK) →
  req ≠ 0 → resp ≠ 0 → is_u32 timeout → interval_valid timeout = true → is_u32 now →
  let c1 := client_run self ops c in
  let '(c2, e, id) := wl_rpc_client_begin c1 req resp timeout now in
  let first := cl_next_operation_id c1 in
  match e with
  | WL_RPC_OK =>
      first <= id < 2 ^ 32 ∧ ¬ operation_used c1 id ∧ (∀ x, first <= x < id → operation_used c1 x) ∧
      cl_allocated_count c1 < cl_slot_count c1 ∧
      ∃ i s, cl_slots c1 !! i = Some s ∧ cs_state s = WL_RPC_CLIENT_FREE ∧
        cl_slots c2 = <[i := slot_queued (cl_next_generation c1) id req resp timeout now]> (cl_slots c1)
  | WL_RPC_ERR_ID_EXHAUSTED =>
      c2 = c1 ∧ id = 0 ∧ (first = 0 ∨ ∀ x, first <= x < 2 ^ 32 → operation_used c1 x)
  | WL_RPC_ERR_NO_SLOT =>
      c2 = c1 ∧ id = 0 ∧ (cl_next_generation c1 = 0 ∨ cl_allocated_count c1 = cl_slot_count c1)
  | _ => False
  end.
Proof.
  intros Hcfg Hops Hinit Hreq Hresp Ht Hiv Hn c1.
  assert (client_inv c1) as Hc by (by apply client_run_inv, (client_init_inv c0 config)).
  unfold wl_rpc_client_begin, client_initialized. rewrite (ci_magic c1 Hc), Z.eqb_refl. cbn [negb].
  destruct (cl_next_operation_id c1 =? 0) eqn:E0; [split; [done|]; split; [done|left; lia]|].
  pose proof (ci_next_id c1 Hc) as Hid. pose proof (ci_count_range c1 Hc) as Hcount.
  pose proof (begin_candidate_spec c1 (S (Z.to_nat (cl_slot_count c1))) (cl_next_operation_id c1)
                ltac:(lia)) as Hcand.
  destruct (begin_candidate _ _ _) as [e|id].
  { destruct Hcand as [[-> H]|[-> H]]; [split; [done|]; split; [done|by right]|].
    apply used_bound in H; [lia|done]. }
  destruct Hcand as (Hr & Hu & Hall). unfold wl_rpc_client_begin_with_id, client_initialized.
  rewrite (ci_magic c1 Hc), Z.eqb_refl, Hiv. cbn [negb].
  destruct (_ || _) eqn:Eg; autorewrite with branch in Eg; [lia|]. clear Eg.
  destruct (cl_next_generation c1 =? 0) eqn:En; [split; [done|]; split; [done|left; lia]|].
  rewrite (proj2 (client_find_unused c1 id) Hu). pose proof (client_find_free_spec c1 Hc) as Hfree.
  destruct (client_find_free c1) as [[i s]|] eqn:Ef; [|split; [done|]; split; [done|by right]].
  apply list_find_Some in Ef as (Hi & Hst & _). cbn [bool_decide decide]. rewrite bool_decide_eq_false_2 by tauto.
  destruct Hfree as [_ Hlt]. do 4 (split; [done|]). by exists i, s.
Qed.

Lemma client_begin_complete_witness :
  let c1 := client_run 64 [ClBeginWithId 1 1 2 1000 0] rpc_demo_client in
  let '(c2, e, id) := wl_rpc_client_begin c1 1 2 1000 5 in
  e = WL_RPC_OK ∧ id = 2 ∧ ¬ operation_used c1 id ∧ operation_used c1 1.
Proof.
  assert (client_config_ok rpc_demo_config) as Hcfg by (unfold client_config_ok, is_u16, is_u32; cbn; lia).
  assert (Forall client_op_ok [ClBeginWithId 1 1 2 1000 0]) as Hops
    by (repeat constructor; cbn; unfold is_u32; lia).
  pose proof (client_begin_complete 64 (mk_client [] 0 0 0 0 0) rpc_demo_config rpc_demo_client
    [ClBeginWithId 1 1 2 1000 0] 1 2 1000 5 Hcfg Hops eq_refl ltac:(done) ltac:(done)
    ltac:(unfold is_u32; lia) eq_refl ltac:(unfold is_u32; lia)) as (_ & Hu & Hall & _).
  split; [done|]. split; [done|]. split; [exact Hu|]. by apply Hall.
Defined.

(** ** Deadlines *)

Lemma poll_slots_snd now slots n :
  0 <= n → n + len slots < 2 ^ 16 → (poll_slots now slots n).2 = n + tally (slot_due now) slots.
Proof.
  revert n. induction slots as [|s rest IH]; intros n Hn Hb; cbn [poll_slots]; [unfold tally; cbn; lia|].
  rewrite len_cons in Hb. rewrite tally_cons. pose proof (len_nonneg rest). destruct (slot_due now s).
  - rewrite u16_id by (unfold is_u16; lia). specialize (IH (n + 1) ltac:(lia) ltac:(lia)).
    destruct (poll_slots _ _ _). cbn in *. lia.
  - specialize (IH n Hn ltac:(lia)). destruct (poll_slots _ _ _). cbn in *. lia.
Qed.

Definition slot_timed (s : client_slot) : bool := negb (cs_timeout_ms s =? 0) && client_active (cs_state s).

Lemma nearest_le now d slots nearest :
  foldl (client_nearest now) nearest slots <= d ↔
  nearest <= d ∨ ∃ i s, slots !! i = Some s ∧ slot_timed s = true ∧
    deadline_remaining now (cs_started_at s) (cs_timeout_ms s) <= d.
Proof.
  revert nearest. induction slots as [|s rest IH]; intros nearest; cbn [foldl]; [naive_solver|].
  rewrite IH. clear IH. transitivity
    ((nearest <= d ∨ slot_timed s = true ∧ deadline_remaining now (cs_started_at s) (cs_timeout_ms s) <= d) ∨
     ∃ i t, rest !! i = Some t ∧ slot_timed t = true ∧
       deadline_remaining now (cs_started_at t) (cs_timeout_ms t) <= d).
  - f_equiv. unfold client_nearest, slot_timed.
    destruct (cs_timeout_ms s =? 0), (client_active (cs_state s)); cbn; try naive_solver.
    case_match; naive_solver lia.
  - split.
    + intros [[H|H]|(i & t & H)]; [by left|right; by exists 0%nat, s|right; by exists (S i), t].
    + intros [H|([|i] & t & H)]; [by left; left| |by right; exists i, t].
      cbn in H. left. right. naive_solver.
Qed.

Lemma slot_due_first c i s now d :
  client_inv c → cl_slots c !! i = Some s → is_u32 now → 0 <= d →
  (client_active (cs_state s) = true → d + u32 (now - cs_started_at s) < 2 ^ 32) →
  slot_due (u32 (now + d)) s = true ↔
  slot_timed s = true ∧ deadline_remaining now (cs_started_at s) (cs_timeout_ms s) <= d.
Proof.
  intros Hc Hi Hnow Hd Hw. unfold slot_due, slot_timed, elapsed.
  destruct (client_active (cs_state s)) eqn:Ea; [|rewrite andb_false_r; naive_solver].
  destruct (cs_timeout_ms s =? 0) eqn:E0; cbn; [naive_solver|].
  destruct (slot_ok_live _ _ (ci_slots c Hc i s Hi) (active_live _ Ea)).
  rewrite deadline_remaining_first by (auto; lia). tauto.
Qed.

(** the deadline hint is exact.  A poll after [d] more milliseconds times out
    at least one call if and only if the hint is at most [d], and it reports exactly
    the number of calls it times out, as long as no call is polled later than the
    range of the clock allows. *)
Theorem client_deadline_exact self c0 config c ops now d h :
  client_config_ok config → Forall client_op_ok ops → wl_rpc_client_init c0 config = (c, WL_RPC_OK) →
  let c1 := client_run self ops c in
  is_u32 now → 0 <= d < WL_RPC_NO_DEADLINE_MS →
  (∀ i s, cl_slots c1 !! i = Some s → client_active (cs_state s) = true →
     d + u32 (now - cs_started_at s) < 2 ^ 32) →
  wl_rpc_client_get_deadline_hint c1 now = inr h →
  ∃ n, (wl_rpc_client_poll c1 (u32 (now + d))).2 = inr n ∧ (0 < n ↔ h <= d) ∧
       n = tally (slot_due (u32 (now + d))) (cl_slots c1).
Proof.
  intros Hcfg Hops Hinit c1 Hnow Hd Hw Hh.
  assert (client_inv c1) as Hc by (by apply client_run_inv, (client_init_inv c0 config)).
  unfold wl_rpc_client_get_deadline_hint, wl_rpc_client_poll, client_initialized in *.
  rewrite (ci_magic c1 Hc), Z.eqb_refl in *. cbn [negb] in *.
  destruct (cl_allocated_count c1 =? 0) eqn:Ea.
  - exists 0. injection Hh as <-. split; [done|]. split; [lia|]. symmetry. apply tally_zero.
    intros i s Hi. apply Z.eqb_eq in Ea. rewrite (ci_allocated c1 Hc) in Ea.
    pose proof (proj1 (tally_zero _ _) Ea i s Hi) as Hf%bool_decide_eq_false.
    apply dec_stable in Hf. unfold slot_due. by rewrite Hf.
  - injection Hh as <-. pose proof (poll_slots_snd (u32 (now + d)) (cl_slots c1) 0) as Hp.
    destruct (poll_slots _ _ _) as [slots n]. cbn in Hp |- *. exists n.
    pose proof (ci_count c1 Hc). pose proof (ci_count_range c1 Hc). rewrite Hp by lia.
    split; [done|]. split; [|lia]. rewrite nearest_le.
    rewrite Z.add_0_l, tally_pos. split.
    + intros (i & s & Hi & Hs). right. exists i, s. split; [done|].
      by apply (slot_due_first c1 i s now d Hc Hi Hnow ltac:(lia) (Hw i s Hi)).
    + intros [?|(i & s & Hi & Hs)]; [lia|]. exists i, s. split; [done|].
      by apply (slot_due_first c1 i s now d Hc Hi Hnow ltac:(lia) (Hw i s Hi)).
Qed.

Lemma client_deadline_exact_witness :
  let c1 := client_run 64 [ClBegin 1 2 1000 4294967000] rpc_demo_client in
  wl_rpc_client_get_deadline_hint c1 200 = inr 504 ∧
  ∃ n, (wl_rpc_client_poll c1 (u32 (200 + 504))).2 = inr n ∧ (0 < n ↔ 504 <= 504) ∧
       n = tally (slot_due (u32 (200 + 504))) (cl_slots c1).
Proof.
  intros c1. split; [done|].
  apply (client_deadline_exact 64 (mk_client [] 0 0 0 0 0) rpc_demo_config rpc_demo_client
    [ClBegin 1 2 1000 4294967000]).
  - unfold client_config_ok, is_u16, is_u32; cbn; lia.
  - repeat constructor; cbn; unfold is_u32; lia.
  - done.
  - unfold is_u32; lia.
  - unfold WL_RPC_NO_DEADLINE_MS, UINT32_MAX; lia.
  - intros [|[|[]]] s [= <-]; done.
  - done.
Defined.
