(* ===== verification/RpcServer.v ===== *)
(** The RPC server tables, [src/rpc.c] lines 851 to 1727.

    A server keeps the requests it is executing in the pending table and their
    responses in two banks of response slots: the history bank, whose entries stay
    as the replay history of at-most-once methods, and the correlate bank, whose
    entries last until the response is on its way.  The two banks are one list
    [sv_responses], the history bank first, as [server_cache] indexes them; the
    pointer of a pending entry to its response slot is the index of the slot.  The
    bytes of the responses are in the memory of the caller.  The observer and the
    cancel callback are calls out of the model: the operations return what they are
    called with.  Null object pointers are not modelled. *)
From S2P Require Import Prelude Slots Clock Link Rpc.

Definition WL_RPC_SERVER_MAGIC : Z := 0x52504353.

Definition WL_RPC_CACHE_REJECT_NEW : Z := 0.
Definition WL_RPC_CACHE_EVICT_OLDEST : Z := 1.

(** [wl_rpc_server_disposition_t] *)
Inductive disposition :=
  | WL_RPC_SERVER_NEW
  | WL_RPC_SERVER_PENDING_DUPLICATE
  | WL_RPC_SERVER_REPLAY
  | WL_RPC_SERVER_CONFLICT.

#[export] Instance disposition_eq_dec : EqDecision disposition.
Proof. solve_decision. Defined.

Inductive delivery_state :=
  | WL_RPC_RESPONSE_RESERVED
  | WL_RPC_RESPONSE_DELIVERED
  | WL_RPC_RESPONSE_READY
  | WL_RPC_RESPONSE_ACQUIRED
  | WL_RPC_RESPONSE_IN_FLIGHT.

#[export] Instance delivery_state_eq_dec : EqDecision delivery_state.
Proof. solve_decision. Defined.

(** [wl_rpc_request_identity_t] *)
Record identity := mk_identity {
  id_operation_id : Z;
  id_request_message_id : Z;
  id_response_message_id : Z;
  id_request_fingerprint : Z;
  id_peer_session_id : Z;
}.

#[export] Instance identity_eq_dec : EqDecision identity.
Proof. solve_decision. Defined.

Definition identity_zero : identity := mk_identity 0 0 0 0 0.

(** [wl_rpc_server_request_t] *)
Record request := mk_request {
  rq_identity : identity;
  rq_generation : Z;
}.

#[export] Instance request_eq_dec : EqDecision request.
Proof. solve_decision. Defined.

Definition request_zero : request := mk_request identity_zero 0.

(** [wl_rpc_server_response_t] *)
Record response := mk_response {
  rs_identity : identity;
  rs_application_status : Z;
  rs_response_data : Z;
  rs_response_length : Z;
  rs_generation : Z;
}.

Definition response_zero : response := mk_response identity_zero 0 NULL 0 0.

(** [wl_rpc_server_response_buffer_t] *)
Record response_buffer := mk_response_buffer {
  rb_request : request;
  rb_data : Z;
  rb_capacity : Z;
}.

(** [wl_rpc_server_pending_impl_t]: [pd_response] is the index of the slot pointed to *)
Record pending_slot := mk_pending_slot {
  pd_identity : identity;
  pd_generation : Z;
  pd_response : option nat;
  pd_started_at : Z;
  pd_active : bool;
  pd_expiry_reported : bool;
}.

#[export] Instance rebuild_pending_slot : Rebuild pending_slot := λ p,
  mk_pending_slot (pd_identity p) (pd_generation p) (pd_response p) (pd_started_at p)
    (pd_active p) (pd_expiry_reported p).
#[export] Instance fs_pd_identity : FieldSet pd_identity := _.
#[export] Instance fs_pd_generation : FieldSet pd_generation := _.
#[export] Instance fs_pd_response : FieldSet pd_response := _.
#[export] Instance fs_pd_started_at : FieldSet pd_started_at := _.
#[export] Instance fs_pd_active : FieldSet pd_active := _.
#[export] Instance fs_pd_expiry_reported : FieldSet pd_expiry_reported := _.

(** [wl_rpc_server_cache_impl_t] *)
Record response_slot := mk_response_slot {
  rc_identity : identity;
  rc_response_length : Z;
  rc_generation : Z;
  rc_data : Z;
  rc_tx_handle : Z;
  rc_completed_at : Z;
  rc_application_status : Z;
  rc_capacity : Z;
  rc_active : Z;
  rc_delivery_state : delivery_state;
}.

#[export] Instance rebuild_response_slot : Rebuild response_slot := λ r,
  mk_response_slot (rc_identity r) (rc_response_length r) (rc_generation r) (rc_data r)
    (rc_tx_handle r) (rc_completed_at r) (rc_application_status r) (rc_capacity r)
    (rc_active r) (rc_delivery_state r).
#[export] Instance fs_rc_identity : FieldSet rc_identity := _.
#[export] Instance fs_rc_response_length : FieldSet rc_response_length := _.
#[export] Instance fs_rc_generation : FieldSet rc_generation := _.
#[export] Instance fs_rc_data : FieldSet rc_data := _.
#[export] Instance fs_rc_tx_handle : FieldSet rc_tx_handle := _.
#[export] Instance fs_rc_completed_at : FieldSet rc_completed_at := _.
#[export] Instance fs_rc_application_status : FieldSet rc_application_status := _.
#[export] Instance fs_rc_capacity : FieldSet rc_capacity := _.
#[export] Instance fs_rc_active : FieldSet rc_active := _.
#[export] Instance fs_rc_delivery_state : FieldSet rc_delivery_state := _.

(** [wl_rpc_server_impl_t] *)
Record server := mk_server {
  sv_pending : list pending_slot;
  sv_responses : list response_slot;
  sv_response_storage : Z;
  sv_correlate_storage : Z;
  sv_response_observer : Z;
  sv_response_observer_data : Z;
  sv_next_generation : Z;
  sv_pending_timeout_ms : Z;
  sv_cache_ttl_ms : Z;
  sv_magic : Z;
  sv_pending_slot_count : Z;
  sv_cache_slot_count : Z;
  sv_response_capacity : Z;
  sv_correlate_slot_count : Z;
  sv_correlate_capacity : Z;
  sv_cache_policy : Z;
}.

#[export] Instance rebuild_server : Rebuild server := λ s,
  mk_server (sv_pending s) (sv_responses s) (sv_response_storage s) (sv_correlate_storage s)
    (sv_response_observer s) (sv_response_observer_data s) (sv_next_generation s)
    (sv_pending_timeout_ms s) (sv_cache_ttl_ms s) (sv_magic s) (sv_pending_slot_count s)
    (sv_cache_slot_count s) (sv_response_capacity s) (sv_correlate_slot_count s)
    (sv_correlate_capacity s) (sv_cache_policy s).
#[export] Instance fs_sv_pending : FieldSet sv_pending := _.
#[export] Instance fs_sv_responses : FieldSet sv_responses := _.
#[export] Instance fs_sv_response_storage : FieldSet sv_response_storage := _.
#[export] Instance fs_sv_correlate_storage : FieldSet sv_correlate_storage := _.
#[export] Instance fs_sv_response_observer : FieldSet sv_response_observer := _.
#[export] Instance fs_sv_response_observer_data : FieldSet sv_response_observer_data := _.
#[export] Instance fs_sv_next_generation : FieldSet sv_next_generation := _.
#[export] Instance fs_sv_pending_timeout_ms : FieldSet sv_pending_timeout_ms := _.
#[export] Instance fs_sv_cache_ttl_ms : FieldSet sv_cache_ttl_ms := _.
#[export] Instance fs_sv_magic : FieldSet sv_magic := _.
#[export] Instance fs_sv_pending_slot_count : FieldSet sv_pending_slot_count := _.
#[export] Instance fs_sv_cache_slot_count : FieldSet sv_cache_slot_count := _.
#[export] Instance fs_sv_response_capacity : FieldSet sv_response_capacity := _.
#[export] Instance fs_sv_correlate_slot_count : FieldSet sv_correlate_slot_count := _.
#[export] Instance fs_sv_correlate_capacity : FieldSet sv_correlate_capacity := _.
#[export] Instance fs_sv_cache_policy : FieldSet sv_cache_policy := _.

Definition pending_zero : pending_slot := mk_pending_slot identity_zero 0 None 0 false false.

Definition response_slot_zero : response_slot :=
  mk_response_slot identity_zero 0 0 NULL 0 0 0 0 0 WL_RPC_RESPONSE_RESERVED.

(** [wl_rpc_server_config_t] and [wl_rpc_server_response_pool_t], with the slot
    arrays and the storage by address *)
Record server_config := mk_server_config {
  vc_pending_slots : Z;
  vc_pending_slot_count : Z;
  vc_cache_slots : Z;
  vc_cache_slot_count : Z;
  vc_response_storage : Z;
  vc_response_storage_size : Z;
  vc_response_capacity_per_slot : Z;
  vc_pending_timeout_ms : Z;
  vc_cache_ttl_ms : Z;
  vc_cache_policy : Z;
}.

Record response_pool := mk_response_pool {
  pl_slots : Z;
  pl_slot_count : Z;
  pl_storage : Z;
  pl_storage_size : Z;
  pl_capacity_per_slot : Z;
}.

(** [wl_rpc_server_discard_result_t] *)
Record discard_result := mk_discard_result {
  dr_pending_discarded : Z;
  dr_responses_discarded : Z;
  dr_tx_cancel_requested : Z;
}.

Definition discard_result_zero : discard_result := mk_discard_result 0 0 0.

(** [wl_rpc_peer_observation_t] *)
Record peer_observation := mk_peer_observation {
  po_previous_session_id : Z;
  po_current_session_id : Z;
  po_discarded : discard_result;
  po_changed : bool;
}.

(** ** Slots and identities *)

Definition server_initialized (s : server) : bool := sv_magic s =? WL_RPC_SERVER_MAGIC.

Definition server_response_count (s : server) : Z := u16 (sv_cache_slot_count s + sv_correlate_slot_count s).

Definition server_response_data (s : server) (index : Z) : Z :=
  if index <? sv_cache_slot_count s then sv_response_storage s + index * sv_response_capacity s
  else sv_correlate_storage s + (index - sv_cache_slot_count s) * sv_correlate_capacity s.

Definition response_at (s : server) (index : nat) : response_slot :=
  default response_slot_zero (sv_responses s !! index).

Definition set_response (s : server) (index : nat) (r : response_slot) : server :=
  s <| sv_responses := <[index := r]> (sv_responses s) |>.

Definition set_pending (s : server) (index : nat) (p : pending_slot) : server :=
  s <| sv_pending := <[index := p]> (sv_pending s) |>.

(** The slots of the history bank. *)
Definition history (s : server) : list response_slot :=
  take (Z.to_nat (sv_cache_slot_count s)) (sv_responses s).

Definition correlated (s : server) : list response_slot :=
  drop (Z.to_nat (sv_cache_slot_count s)) (sv_responses s).

Definition identity_valid (i : identity) : bool :=
  negb (id_operation_id i =? 0) && negb (id_request_message_id i =? 0) &&
  negb (id_response_message_id i =? 0).

Definition identity_equal (left right : identity) : bool :=
  (id_operation_id left =? id_operation_id right) &&
  (id_request_message_id left =? id_request_message_id right) &&
  (id_response_message_id left =? id_response_message_id right) &&
  (id_request_fingerprint left =? id_request_fingerprint right) &&
  (id_peer_session_id left =? id_peer_session_id right).

Definition identity_key_equal (left right : identity) : bool :=
  (id_operation_id left =? id_operation_id right) &&
  (id_peer_session_id left =? id_peer_session_id right).

Definition request_valid (r : request) : bool :=
  negb (rq_generation r =? 0) && identity_valid (rq_identity r).

Definition request_equal (r : request) (p : pending_slot) : bool :=
  (rq_generation r =? pd_generation p) && identity_equal (rq_identity r) (pd_identity p).

(** The generation taken and the counter after it. *)
Definition server_next_generation (s : server) : Z * Z :=
  let generation := sv_next_generation s in
  let next := u64 (generation + 1) in
  if generation =? 0 then (next, u64 (next + 1)) else (generation, next).

Definition generation_older (left right : Z) : bool :=
  negb (left =? right) && (u64 (right - left) <? Z.shiftl 1 63).

Definition response_from_cache (r : response_slot) : response :=
  mk_response (rc_identity r) (rc_application_status r) (rc_data r) (rc_response_length r)
    (rc_generation r).

Definition response_matches (r : response) (c : response_slot) : bool :=
  negb (rc_active c =? 0) && (rc_generation c =? rs_generation r) &&
  identity_equal (rc_identity c) (rs_identity r) && (rs_response_data r =? rc_data c) &&
  (rs_response_length r =? rc_response_length c).

Definition server_response_find (s : server) (r : response) : option (nat * response_slot) :=
  if negb (identity_valid (rs_identity r)) then None
  else list_find (λ c, response_matches r c = true) (sv_responses s).

(** The oldest slot that satisfies [P], by generation. *)
Definition oldest_step (P : response_slot → bool) (best : option (nat * response_slot))
    (x : nat * response_slot) : option (nat * response_slot) :=
  if P x.2 && match best with
              | None => true
              | Some (_, b) => generation_older (rc_generation x.2) (rc_generation b)
              end
  then Some x else best.

Definition oldest (P : response_slot → bool) (l : list response_slot) : option (nat * response_slot) :=
  foldl (oldest_step P) None (imap pair l).

Definition response_ready (c : response_slot) : bool :=
  negb (rc_active c =? 0) && bool_decide (rc_delivery_state c = WL_RPC_RESPONSE_READY).

(** ** Expiry of the history *)

Definition server_cache_expire (now_ms ttl_ms : Z) (c : response_slot) : response_slot * bool :=
  if (rc_active c =? 0) || bool_decide (rc_delivery_state c ≠ WL_RPC_RESPONSE_DELIVERED) ||
     negb (elapsed now_ms (rc_completed_at c) ttl_ms)
  then (c, false) else (response_slot_zero, true).

(** The new history bank and [cache_expired]. *)
Fixpoint expire_slots (now_ms ttl_ms : Z) (l : list response_slot) (expired : Z)
    : list response_slot * Z :=
  match l with
  | [] => ([], expired)
  | c :: rest =>
      let '(c1, gone) := server_cache_expire now_ms ttl_ms c in
      let '(rest1, n) :=
        expire_slots now_ms ttl_ms rest (if gone : bool then u16 (expired + 1) else expired) in
      (c1 :: rest1, n)
  end.

Definition server_expire (s : server) (now_ms : Z) : server * Z :=
  let '(bank, n) := expire_slots now_ms (sv_cache_ttl_ms s) (history s) 0 in
  (s <| sv_responses := bank ++ correlated s |>, n).

(** ** Admission *)

(** The lookup pass of [wl_rpc_server_begin] over the history: it reclaims what
    has expired on its way and stops at the first entry with the key. *)
Fixpoint history_lookup (now_ms ttl_ms : Z) (i : identity) (l : list response_slot)
    : list response_slot * option (nat * response_slot) :=
  match l with
  | [] => ([], None)
  | c :: rest =>
      let c1 := (server_cache_expire now_ms ttl_ms c).1 in
      if negb (rc_active c1 =? 0) && identity_key_equal (rc_identity c1) i
      then (c1 :: rest, Some (0%nat, c1))
      else
        let '(rest1, found) := history_lookup now_ms ttl_ms i rest in
        (c1 :: rest1, prod_map S id <$> found)
  end.

Definition pending_duplicate (s : server) (i : identity) : option (nat * pending_slot) :=
  list_find (λ p, pd_active p = true ∧
                  rc_active (default response_slot_zero (k ← pd_response p; sv_responses s !! k)) = 2 ∧
                  identity_key_equal (pd_identity p) i = true) (sv_pending s).

Definition pending_free (s : server) : option (nat * pending_slot) :=
  list_find (λ p, pd_active p = false) (sv_pending s).

(** The response slot a new execution reserves in the history bank. *)
Definition history_target (s : server) : option (nat * response_slot) :=
  match list_find (λ c, rc_active c = 0) (history s) with
  | Some x => Some x
  | None =>
      if sv_cache_policy s =? WL_RPC_CACHE_EVICT_OLDEST
      then oldest (λ c, bool_decide (rc_delivery_state c = WL_RPC_RESPONSE_DELIVERED)) (history s)
      else None
  end.

(** Both admissions end with a reserved response slot and a pending entry that
    points to it. *)
Definition server_admit (s : server) (p r : nat) (capacity active : Z) (i : identity) (now_ms : Z)
    : server * request :=
  let '(generation, next) := server_next_generation s in
  (set_pending
     (set_response s r
        (mk_response_slot i 0 generation (server_response_data s (Z.of_nat r)) 0 0 0 capacity active
           WL_RPC_RESPONSE_RESERVED))
     p (mk_pending_slot i generation (Some r) now_ms true false)
     <| sv_next_generation := next |>,
   mk_request i generation).

(** The right summand is the disposition, [*out_request] and [*out_replay]. *)
Definition wl_rpc_server_begin (s : server) (i : identity) (now_ms : Z)
    : server * (rpc_err + disposition * request * response) :=
  if negb (server_initialized s) then (s, inl WL_RPC_ERR_NOT_INITIALIZED)
  else if negb (identity_valid i) then (s, inl WL_RPC_ERR_INVALID_ARG)
  else
    match pending_duplicate s i with
    | Some (_, p) =>
        (s, inr (if identity_equal (pd_identity p) i then WL_RPC_SERVER_PENDING_DUPLICATE
                 else WL_RPC_SERVER_CONFLICT, request_zero, response_zero))
    | None =>
        let '(bank, found) := history_lookup now_ms (sv_cache_ttl_ms s) i (history s) in
        let s1 := s <| sv_responses := bank ++ correlated s |> in
        match found with
        | Some (k, c) =>
            if identity_equal (rc_identity c) i then
              (if bool_decide (rc_delivery_state c = WL_RPC_RESPONSE_DELIVERED)
               then set_response s1 k (c <| rc_delivery_state := WL_RPC_RESPONSE_READY |>) else s1,
               inr (WL_RPC_SERVER_REPLAY, request_zero, response_from_cache c))
            else (s1, inr (WL_RPC_SERVER_CONFLICT, request_zero, response_zero))
        | None =>
            match pending_free s1 with
            | None => (s1, inl WL_RPC_ERR_NO_SLOT)
            | Some (p, _) =>
                match history_target s1 with
                | None => (s1, inl WL_RPC_ERR_CACHE_FULL)
                | Some (r, _) =>
                    let '(s2, rq) := server_admit s1 p r (sv_response_capacity s1) 2 i now_ms in
                    (s2, inr (WL_RPC_SERVER_NEW, rq, response_zero))
                end
            end
        end
    end.

Definition wl_rpc_server_begin_correlate (s : server) (i : identity) (now_ms : Z)
    : server * (rpc_err + request) :=
  if negb (server_initialized s) then (s, inl WL_RPC_ERR_NOT_INITIALIZED)
  else if negb (identity_valid i) || negb (id_request_fingerprint i =? 0)
  then (s, inl WL_RPC_ERR_INVALID_ARG)
  else
    match pending_free s with
    | None => (s, inl WL_RPC_ERR_NO_SLOT)
    | Some (p, _) =>
        match list_find (λ c, rc_active c = 0) (correlated s) with
        | None => (s, inl WL_RPC_ERR_CACHE_FULL)
        | Some (k, _) =>
            let '(s1, rq) :=
              server_admit s p (Z.to_nat (sv_cache_slot_count s) + k) (sv_correlate_capacity s) 1 i
                now_ms in
            (s1, inr rq)
        end
    end.

(** ** Completion *)

(** The index of the pending entry and of its response slot. *)
Definition server_resolve_pending (s : server) (rq : request) : rpc_err + nat * nat :=
  match list_find (λ p, pd_active p = true ∧ request_equal rq p = true) (sv_pending s) with
  | None => inl WL_RPC_ERR_NOT_FOUND
  | Some (k, p) =>
      match pd_response p with
      | None => inl WL_RPC_ERR_INVALID_STATE
      | Some r =>
          let c := response_at s r in
          if (rc_active c =? 0) || bool_decide (rc_delivery_state c ≠ WL_RPC_RESPONSE_RESERVED) ||
             negb (rc_generation c =? rq_generation rq) ||
             negb (identity_equal (rc_identity c) (rq_identity rq))
          then inl WL_RPC_ERR_INVALID_STATE
          else inr (k, r)
      end
  end.

Definition server_commit_reserved (s : server) (p r : nat) (application_status response_length now_ms : Z)
    : server * response :=
  let c := response_at s r <| rc_response_length := response_length |> <| rc_completed_at := now_ms |>
             <| rc_application_status := application_status |>
             <| rc_delivery_state := WL_RPC_RESPONSE_READY |> in
  (set_pending (set_response s r c) p pending_zero, response_from_cache c).

Definition wl_rpc_server_response_prepare (s : server) (rq : request) : rpc_err + response_buffer :=
  if negb (server_initialized s) then inl WL_RPC_ERR_NOT_INITIALIZED
  else if negb (request_valid rq) then inl WL_RPC_ERR_INVALID_ARG
  else
    match server_resolve_pending s rq with
    | inl e => inl e
    | inr (_, r) =>
        inr (mk_response_buffer rq (rc_data (response_at s r)) (rc_capacity (response_at s r)))
    end.

Definition wl_rpc_server_response_commit (s : server) (b : response_buffer)
    (application_status response_length now_ms : Z) : server * (rpc_err + response) :=
  if negb (server_initialized s) then (s, inl WL_RPC_ERR_NOT_INITIALIZED)
  else if negb (request_valid (rb_request b)) then (s, inl WL_RPC_ERR_INVALID_ARG)
  else
    match server_resolve_pending s (rb_request b) with
    | inl e => (s, inl e)
    | inr (p, r) =>
        let c := response_at s r in
        if rc_capacity c <? response_length then (s, inl WL_RPC_ERR_RESPONSE_TOO_LARGE)
        else if negb (rb_data b =? rc_data c) || negb (rb_capacity b =? rc_capacity c)
        then (s, inl WL_RPC_ERR_RESPONSE_MISMATCH)
        else
          let '(s1, rs) := server_commit_reserved s p r application_status response_length now_ms in
          (s1, inr rs)
    end.

Definition wl_rpc_server_complete (m : mem) (s : server) (rq : request)
    (application_status response_payload response_length now_ms : Z)
    : mem * server * (rpc_err + response) :=
  if negb (server_initialized s) then (m, s, inl WL_RPC_ERR_NOT_INITIALIZED)
  else if negb (request_valid rq) || (negb (response_length =? 0) && (response_payload =? NULL))
  then (m, s, inl WL_RPC_ERR_INVALID_ARG)
  else
    match server_resolve_pending s rq with
    | inl e => (m, s, inl e)
    | inr (p, r) =>
        let c := response_at s r in
        if rc_capacity c <? response_length then (m, s, inl WL_RPC_ERR_RESPONSE_TOO_LARGE)
        else
          let m1 :=
            if negb (response_length =? 0) && negb (response_payload =? rc_data c)
            then memmove m (rc_data c) response_payload response_length else m in
          let '(s1, rs) := server_commit_reserved s p r application_status response_length now_ms in
          (m1, s1, inr rs)
    end.

Definition wl_rpc_server_reject (m : mem) (s : server) (rq : request)
    (application_status response_payload response_length now_ms : Z)
    : mem * server * (rpc_err + response) :=
  if application_status =? 0 then (m, s, inl WL_RPC_ERR_INVALID_ARG)
  else wl_rpc_server_complete m s rq application_status response_payload response_length now_ms.

(** ** The response queue *)

Definition wl_rpc_server_response_peek (s : server) : rpc_err + Z :=
  if negb (server_initialized s) then inl WL_RPC_ERR_NOT_INITIALIZED
  else
    match oldest response_ready (sv_responses s) with
    | None => inl WL_RPC_ERR_NOT_FOUND
    | Some (_, c) => inr (id_response_message_id (rc_identity c))
    end.

Definition wl_rpc_server_response_acquire (s : server) : server * (rpc_err + response) :=
  if negb (server_initialized s) then (s, inl WL_RPC_ERR_NOT_INITIALIZED)
  else
    match oldest response_ready (sv_responses s) with
    | None => (s, inl WL_RPC_ERR_NOT_FOUND)
    | Some (k, c) =>
        (set_response s k (c <| rc_delivery_state := WL_RPC_RESPONSE_ACQUIRED |>),
         inr (response_from_cache c))
    end.

Definition wl_rpc_server_response_defer (s : server) (rs : response) : server * rpc_err :=
  if negb (server_initialized s) then (s, WL_RPC_ERR_NOT_INITIALIZED)
  else
    match server_response_find s rs with
    | None => (s, WL_RPC_ERR_NOT_FOUND)
    | Some (k, c) =>
        if bool_decide (rc_delivery_state c ≠ WL_RPC_RESPONSE_ACQUIRED)
        then (s, WL_RPC_ERR_INVALID_STATE)
        else (set_response s k (c <| rc_delivery_state := WL_RPC_RESPONSE_READY |>), WL_RPC_OK)
    end.

Definition wl_rpc_server_response_submitted (s : server) (rs : response) (handle : Z)
    : server * rpc_err :=
  if negb (server_initialized s) then (s, WL_RPC_ERR_NOT_INITIALIZED)
  else if handle =? 0 then (s, WL_RPC_ERR_INVALID_ARG)
  else
    match server_response_find s rs with
    | None => (s, WL_RPC_ERR_NOT_FOUND)
    | Some (k, c) =>
        if bool_decide (rc_delivery_state c ≠ WL_RPC_RESPONSE_ACQUIRED)
        then (s, WL_RPC_ERR_INVALID_STATE)
        else
          match list_find (λ '(j, d), j ≠ k ∧ rc_active d ≠ 0 ∧
                             rc_delivery_state d = WL_RPC_RESPONSE_IN_FLIGHT ∧ rc_tx_handle d = handle)
                  (imap pair (sv_responses s)) with
          | Some _ => (s, WL_RPC_ERR_OPERATION_CONFLICT)
          | None =>
              (set_response s k
                 (c <| rc_tx_handle := handle |> <| rc_delivery_state := WL_RPC_RESPONSE_IN_FLIGHT |>),
               WL_RPC_OK)
          end
    end.

(** An entry of the history stays as delivered, a correlate entry is freed. *)
Definition wl_rpc_server_response_sent (s : server) (rs : response) : server * rpc_err :=
  if negb (server_initialized s) then (s, WL_RPC_ERR_NOT_INITIALIZED)
  else
    match server_response_find s rs with
    | None => (s, WL_RPC_ERR_NOT_FOUND)
    | Some (k, c) =>
        if bool_decide (rc_delivery_state c ≠ WL_RPC_RESPONSE_ACQUIRED)
        then (s, WL_RPC_ERR_INVALID_STATE)
        else
          (set_response s k
             (if rc_active c =? 2 then c <| rc_delivery_state := WL_RPC_RESPONSE_DELIVERED |>
              else response_slot_zero), WL_RPC_OK)
    end.

Definition wl_rpc_server_set_response_observer (s : server) (observer user_data : Z)
    : server * rpc_err :=
  if negb (server_initialized s) then (s, WL_RPC_ERR_NOT_INITIALIZED)
  else (s <| sv_response_observer := observer |> <| sv_response_observer_data := user_data |>, WL_RPC_OK).

(** What the observer is called with. *)
Record notification := mk_notification {
  nt_observer : Z;
  nt_user_data : Z;
  nt_identity : identity;
  nt_application_status : Z;
  nt_event : wl_event;
}.

Definition wl_rpc_server_on_tx_event (s : server) (ev : wl_event)
    : server * rpc_err * option notification :=
  if negb (server_initialized s) then (s, WL_RPC_ERR_NOT_INITIALIZED, None)
  else if negb (tx_terminal_event ev) then (s, WL_RPC_ERR_INVALID_ARG, None)
  else if ev_handle ev =? 0 then (s, WL_RPC_ERR_NOT_FOUND, None)
  else
    match list_find (λ c, rc_active c ≠ 0 ∧ rc_delivery_state c = WL_RPC_RESPONSE_IN_FLIGHT ∧
                          rc_tx_handle c = ev_handle ev) (sv_responses s) with
    | None => (s, WL_RPC_ERR_NOT_FOUND, None)
    | Some (k, c) =>
        let c1 := c <| rc_tx_handle := 0 |> <| rc_delivery_state := WL_RPC_RESPONSE_DELIVERED |> in
        (set_response s k (if rc_active c =? 1 then response_slot_zero else c1), WL_RPC_OK,
         if sv_response_observer s =? NULL then None
         else Some (mk_notification (sv_response_observer s) (sv_response_observer_data s)
                      (rc_identity c) (rc_application_status c) ev))
    end.

(** ** Sessions and abandoned requests *)

(** The response slot still reserved for a pending entry is freed with it. *)
Definition release_reserved (s : server) (p : pending_slot) : server :=
  match pd_response p with
  | None => s
  | Some r =>
      let c := response_at s r in
      if negb (rc_active c =? 0) && bool_decide (rc_delivery_state c = WL_RPC_RESPONSE_RESERVED) &&
         (rc_generation c =? pd_generation p)
      then set_response s r response_slot_zero else s
  end.

(** The body of the loop over the pending table; the second component is
    [pending_discarded]. *)
Definition discard_pending (session : Z) (x : server * Z) (k : nat) : server * Z :=
  let '(s, n) := x in
  let p := default pending_zero (sv_pending s !! k) in
  if negb (pd_active p) || negb (id_peer_session_id (pd_identity p) =? session) then (s, n)
  else (set_pending (release_reserved s p) k pending_zero, u16 (n + 1)).

(** The body of the loop over the response slots: [responses_discarded] and the
    handles to cancel, latest first. *)
Definition discard_response (session : Z) (x : server * Z * list Z) (k : nat) : server * Z * list Z :=
  let '(s, n, handles) := x in
  let c := response_at s k in
  if (rc_active c =? 0) || negb (id_peer_session_id (rc_identity c) =? session) then (s, n, handles)
  else
    let handle :=
      if bool_decide (rc_delivery_state c = WL_RPC_RESPONSE_IN_FLIGHT) then rc_tx_handle c else 0 in
    (set_response s k response_slot_zero, u16 (n + 1),
     if handle =? 0 then handles else handle :: handles).

(** The right summand is the result and the handles passed to [cancel_tx], in
    order; [cancel_tx] tells whether there is a callback. *)
Definition wl_rpc_server_discard_session (s : server) (session : Z) (cancel_tx : bool)
    : server * (rpc_err + discard_result * list Z) :=
  if negb (server_initialized s) then (s, inl WL_RPC_ERR_NOT_INITIALIZED)
  else if session =? 0 then (s, inl WL_RPC_ERR_INVALID_ARG)
  else
    let '(s1, pending_discarded) :=
      foldl (discard_pending session) (s, 0) (seq 0 (Z.to_nat (sv_pending_slot_count s))) in
    let '(s2, responses_discarded, handles) :=
      foldl (discard_response session) (s1, 0, []) (seq 0 (Z.to_nat (server_response_count s))) in
    (s2, inr (mk_discard_result pending_discarded responses_discarded (u16 (len handles)),
              if cancel_tx then rev handles else [])).

(** The second component is [peer->session_id]. *)
Definition wl_rpc_peer_observe (s : server) (peer session : Z) (cancel_tx : bool)
    : server * Z * (rpc_err + peer_observation * list Z) :=
  if negb (server_initialized s) then (s, peer, inl WL_RPC_ERR_NOT_INITIALIZED)
  else if session =? 0 then (s, peer, inl WL_RPC_ERR_INVALID_ARG)
  else if peer =? session then
    (s, peer, inr (mk_peer_observation peer session discard_result_zero false, []))
  else if negb (peer =? 0) then
    match wl_rpc_server_discard_session s peer cancel_tx with
    | (s1, inl e) => (s1, peer, inl e)
    | (s1, inr (discarded, cancelled)) =>
        (s1, session, inr (mk_peer_observation peer session discarded true, cancelled))
    end
  else (s, session, inr (mk_peer_observation peer session discard_result_zero true, [])).

Definition wl_rpc_server_abandon (s : server) (rq : request) : server * rpc_err :=
  if negb (server_initialized s) then (s, WL_RPC_ERR_NOT_INITIALIZED)
  else if negb (request_valid rq) then (s, WL_RPC_ERR_INVALID_ARG)
  else
    match list_find (λ p, pd_active p = true ∧ request_equal rq p = true) (sv_pending s) with
    | None => (s, WL_RPC_ERR_NOT_FOUND)
    | Some (k, p) => (set_pending (release_reserved s p) k pending_zero, WL_RPC_OK)
    end.

(** ** Deadlines *)

Definition wl_rpc_server_expired_acquire (s : server) (now_ms : Z) : server * (rpc_err + request) :=
  if negb (server_initialized s) then (s, inl WL_RPC_ERR_NOT_INITIALIZED)
  else if sv_pending_timeout_ms s =? 0 then (s, inl WL_RPC_ERR_NOT_FOUND)
  else
    match list_find (λ p, pd_active p = true ∧ pd_expiry_reported p = false ∧
                          elapsed now_ms (pd_started_at p) (sv_pending_timeout_ms s) = true)
            (sv_pending s) with
    | None => (s, inl WL_RPC_ERR_NOT_FOUND)
    | Some (k, p) =>
        (set_pending s k (p <| pd_expiry_reported := true |>),
         inr (mk_request (pd_identity p) (pd_generation p)))
    end.

(** The right summand is [cache_expired]; [pending_expired] stays zero. *)
Definition wl_rpc_server_poll (s : server) (now_ms : Z) : server * (rpc_err + Z) :=
  if negb (server_initialized s) then (s, inl WL_RPC_ERR_NOT_INITIALIZED)
  else let '(s1, n) := server_expire s now_ms in (s1, inr n).

Definition pending_nearest (s : server) (now_ms nearest : Z) (p : pending_slot) : Z :=
  if negb (pd_active p) || pd_expiry_reported p then nearest
  else
    let remaining := deadline_remaining now_ms (pd_started_at p) (sv_pending_timeout_ms s) in
    if remaining <? nearest then remaining else nearest.

Definition server_pending_deadline (s : server) (now_ms : Z) : Z :=
  if sv_pending_timeout_ms s =? 0 then WL_RPC_NO_DEADLINE_MS
  else foldl (pending_nearest s now_ms) WL_RPC_NO_DEADLINE_MS (sv_pending s).

Definition history_nearest (s : server) (now_ms nearest : Z) (c : response_slot) : Z :=
  if negb (sv_cache_ttl_ms s =? 0) && negb (rc_active c =? 0) &&
     bool_decide (rc_delivery_state c = WL_RPC_RESPONSE_DELIVERED)
  then
    let remaining := deadline_remaining now_ms (rc_completed_at c) (sv_cache_ttl_ms s) in
    if remaining <? nearest then remaining else nearest
  else nearest.

Definition wl_rpc_server_get_deadline_hint (s : server) (now_ms : Z) : rpc_err + Z :=
  if negb (server_initialized s) then inl WL_RPC_ERR_NOT_INITIALIZED
  else
    let nearest := foldl (history_nearest s now_ms) WL_RPC_NO_DEADLINE_MS (history s) in
    let pending := server_pending_deadline s now_ms in
    inr (if pending <? nearest then pending else nearest).

Definition wl_rpc_server_get_pending_deadline_hint (s : server) (now_ms : Z) : rpc_err + Z :=
  if negb (server_initialized s) then inl WL_RPC_ERR_NOT_INITIALIZED
  else inr (server_pending_deadline s now_ms).

(** ** Initialization *)

Definition pool_invalid (config : server_config) (pool : response_pool) : bool :=
  (pl_slots pool =? NULL) || (pl_slot_count pool =? 0) || (pl_storage pool =? NULL) ||
  (pl_capacity_per_slot pool =? 0) ||
  (UINT16_MAX - vc_cache_slot_count config <? pl_slot_count pool) ||
  (SIZE_MAX / pl_capacity_per_slot pool <? pl_slot_count pool) ||
  (pl_storage_size pool <? usize (pl_slot_count pool * pl_capacity_per_slot pool)).

Definition history_config_invalid (config : server_config) (correlate : option response_pool) : bool :=
  if negb (vc_cache_slot_count config =? 0) then
    (vc_cache_slots config =? NULL) || (vc_response_storage config =? NULL) ||
    (vc_response_capacity_per_slot config =? 0)
  else
    bool_decide (correlate = None) || negb (vc_cache_slots config =? NULL) ||
    negb (vc_response_storage config =? NULL) || negb (vc_response_storage_size config =? 0) ||
    negb (vc_response_capacity_per_slot config =? 0) || negb (vc_cache_ttl_ms config =? 0) ||
    negb (vc_cache_policy config =? WL_RPC_CACHE_REJECT_NEW).

Definition wl_rpc_server_init_with_correlate (s : server) (config : server_config)
    (correlate : option response_pool) : server * rpc_err :=
  let required := usize (vc_cache_slot_count config * vc_response_capacity_per_slot config) in
  if (vc_pending_slots config =? NULL) || (vc_pending_slot_count config =? 0) ||
     negb (interval_valid (vc_pending_timeout_ms config)) ||
     negb (interval_valid (vc_cache_ttl_ms config)) ||
     (negb (vc_cache_policy config =? WL_RPC_CACHE_REJECT_NEW) &&
      negb (vc_cache_policy config =? WL_RPC_CACHE_EVICT_OLDEST)) then (s, WL_RPC_ERR_INVALID_ARG)
  else if history_config_invalid config correlate then (s, WL_RPC_ERR_INVALID_ARG)
  else if match correlate with Some pool => pool_invalid config pool | None => false end
  then (s, WL_RPC_ERR_INVALID_ARG)
  else if negb (vc_response_capacity_per_slot config =? 0) &&
          (SIZE_MAX / vc_response_capacity_per_slot config <? vc_cache_slot_count config)
  then (s, WL_RPC_ERR_INVALID_ARG)
  else if vc_response_storage_size config <? required then (s, WL_RPC_ERR_INVALID_ARG)
  else
    let pool := default (mk_response_pool NULL 0 NULL 0 0) correlate in
    (mk_server (replicate (Z.to_nat (vc_pending_slot_count config)) pending_zero)
       (replicate (Z.to_nat (vc_cache_slot_count config)) response_slot_zero ++
        replicate (Z.to_nat (pl_slot_count pool)) response_slot_zero)
       (vc_response_storage config) (pl_storage pool) NULL NULL 1 (vc_pending_timeout_ms config)
       (vc_cache_ttl_ms config) WL_RPC_SERVER_MAGIC (vc_pending_slot_count config)
       (vc_cache_slot_count config) (vc_response_capacity_per_slot config) (pl_slot_count pool)
       (pl_capacity_per_slot pool) (vc_cache_policy config), WL_RPC_OK).

Definition wl_rpc_server_init (s : server) (config : server_config) : server * rpc_err :=
  wl_rpc_server_init_with_correlate s config None.
