(* ===== verification/RpcHistory.v ===== *)
(** The tables of the RPC server stay consistent.

    Every operation of the server is a sequence of a few elementary changes: a
    request is admitted, answered or dropped, a response moves through its
    delivery or is freed.  Here are these changes, the invariant that ties the
    pending table to the response slots, and its preservation.  Each change is
    labelled with what it does to the replay history, which [RpcLedger] turns into
    a specification. *)
From S2P Require Import Prelude Slots Clock Link Rpc RpcServer.

(** ** The invariant *)

Definition key (i : identity) : Z * Z := (id_peer_session_id i, id_operation_id i).

Definition is_history (s : server) (k : nat) : bool := Z.of_nat k <? sv_cache_slot_count s.

Definition bank_active (s : server) (k : nat) : Z := if is_history s k then 2 else 1.

Definition bank_capacity (s : server) (k : nat) : Z :=
  if is_history s k then sv_response_capacity s else sv_correlate_capacity s.

Definition in_state (d : delivery_state) (c : response_slot) : Prop :=
  rc_active c ≠ 0 ∧ rc_delivery_state c = d.

(** A response slot in use. *)
Record live_ok (s : server) (k : nat) (c : response_slot) : Prop := {
  lk_active : rc_active c = bank_active s k;
  lk_identity : identity_valid (rc_identity c) = true;
  lk_generation : 0 < rc_generation c < sv_next_generation s;
  lk_data : rc_data c = server_response_data s (Z.of_nat k);
  lk_capacity : rc_capacity c = bank_capacity s k;
  lk_length : 0 <= rc_response_length c <= rc_capacity c;
  lk_flight : rc_delivery_state c = WL_RPC_RESPONSE_IN_FLIGHT → rc_tx_handle c ≠ 0;
}.

(** A pending entry and the response slot it points to. *)
Definition reserves (s : server) (p : pending_slot) (r : nat) (c : response_slot) : Prop :=
  pd_active p = true ∧ pd_response p = Some r ∧ sv_responses s !! r = Some c ∧
  in_state WL_RPC_RESPONSE_RESERVED c ∧ pd_identity p = rc_identity c ∧
  pd_generation p = rc_generation c.

Record server_inv (s : server) : Prop := {
  vi_magic : sv_magic s = WL_RPC_SERVER_MAGIC;
  vi_pending_count : len (sv_pending s) = sv_pending_slot_count s;
  vi_pending_range : 1 <= sv_pending_slot_count s < 2 ^ 16;
  vi_response_count : len (sv_responses s) = sv_cache_slot_count s + sv_correlate_slot_count s;
  vi_cache_range : 0 <= sv_cache_slot_count s ∧ 0 <= sv_correlate_slot_count s;
  vi_bank_range : sv_cache_slot_count s + sv_correlate_slot_count s < 2 ^ 16;
  vi_capacities : 0 <= sv_response_capacity s ∧ 0 <= sv_correlate_capacity s;
  vi_next : 0 < sv_next_generation s < 2 ^ 64;
  vi_slots : ∀ k c, sv_responses s !! k = Some c → c = response_slot_zero ∨ live_ok s k c;
  vi_pending : ∀ k p, sv_pending s !! k = Some p →
    p = pending_zero ∨ ∃ r c, reserves s p r c;
  vi_reserved : ∀ r c, sv_responses s !! r = Some c → in_state WL_RPC_RESPONSE_RESERVED c →
    ∃ k p, sv_pending s !! k = Some p ∧ reserves s p r c;
  vi_generations : distinct (λ c, rc_active c ≠ 0) rc_generation (sv_responses s);
  vi_keys : distinct (λ c, rc_active c = 2) (λ c, key (rc_identity c)) (sv_responses s);
  vi_tokens : distinct (λ p, pd_active p = true) pd_generation (sv_pending s);
  vi_handles : distinct (in_state WL_RPC_RESPONSE_IN_FLIGHT) rc_tx_handle (sv_responses s);
}.

(** ** Elementary changes *)

(** Why an entry of the replay history is forgotten. *)
Inductive reason :=
  | Abandoned
  | SessionOver
  | Expired (now : Z)
  | Evicted.

(** What a change does to the replay history. *)
Inductive history_move :=
  | HmAdmit (i : identity) (g : Z)
  | HmAnswer (i : identity) (g status : Z) (bytes : list Z) (now : Z)
  | HmDelivered (k : Z * Z)
  | HmReplay (k : Z * Z)
  | HmForget (k : Z * Z) (why : reason).

Definition free_ok (s : server) (c : response_slot) (why : reason) : Prop :=
  match why with
  | Abandoned => False
  | SessionOver => True
  | Expired now =>
      rc_delivery_state c = WL_RPC_RESPONSE_DELIVERED ∧
      elapsed now (rc_completed_at c) (sv_cache_ttl_ms s) = true
  | Evicted =>
      rc_delivery_state c = WL_RPC_RESPONSE_DELIVERED ∧ sv_cache_policy s = WL_RPC_CACHE_EVICT_OLDEST
  end.

Definition drop_ok (why : reason) : Prop := why = Abandoned ∨ why = SessionOver.

(** Only the history bank has a record in the history. *)
Definition on_record (s : server) (k : nat) (mv : history_move) : list history_move :=
  if is_history s k then [mv] else [].

Definition deliver_moves (s : server) (k : nat) (c : response_slot) (d : delivery_state)
    : list history_move :=
  match bool_decide (rc_delivery_state c = WL_RPC_RESPONSE_DELIVERED),
        bool_decide (d = WL_RPC_RESPONSE_DELIVERED) with
  | false, true => on_record s k (HmDelivered (key (rc_identity c)))
  | true, false => on_record s k (HmReplay (key (rc_identity c)))
  | _, _ => []
  end.

(** The bytes of a published response. *)
Definition published (s : server) (k : nat) (c : response_slot) (a : Z) : Prop :=
  sv_responses s !! k = Some c ∧ rc_active c ≠ 0 ∧
  rc_delivery_state c ≠ WL_RPC_RESPONSE_RESERVED ∧
  rc_data c <= a < rc_data c + rc_response_length c.

Definition answered (c : response_slot) (status length now : Z) : response_slot :=
  c <| rc_response_length := length |> <| rc_completed_at := now |>
    <| rc_application_status := status |> <| rc_delivery_state := WL_RPC_RESPONSE_READY |>.

Inductive change : mem * server → list history_move → mem * server → Prop :=
  | change_report m s k p :
      sv_pending s !! k = Some p → pd_active p = true →
      change (m, s) [] (m, set_pending s k (p <| pd_expiry_reported := true |>))
  | change_observer m s f d :
      change (m, s) [] (m, s <| sv_response_observer := f |> <| sv_response_observer_data := d |>)
  | change_write m m' s :
      (∀ k c a, published s k c a → m' a = m a) → change (m, s) [] (m', s)
  | change_deliver m s k c h d :
      sv_responses s !! k = Some c → rc_active c ≠ 0 →
      rc_delivery_state c ≠ WL_RPC_RESPONSE_RESERVED → d ≠ WL_RPC_RESPONSE_RESERVED →
      (d = WL_RPC_RESPONSE_IN_FLIGHT → h ≠ 0 ∧
         ∀ j c', j ≠ k → sv_responses s !! j = Some c' → in_state WL_RPC_RESPONSE_IN_FLIGHT c' →
                 rc_tx_handle c' ≠ h) →
      change (m, s) (deliver_moves s k c d)
        (m, set_response s k (c <| rc_tx_handle := h |> <| rc_delivery_state := d |>))
  | change_free m s k c why :
      sv_responses s !! k = Some c → rc_active c ≠ 0 →
      rc_delivery_state c ≠ WL_RPC_RESPONSE_RESERVED → free_ok s c why →
      change (m, s) (on_record s k (HmForget (key (rc_identity c)) why))
        (m, set_response s k response_slot_zero)
  | change_drop m s k p r c why :
      sv_pending s !! k = Some p → reserves s p r c → drop_ok why →
      change (m, s) (on_record s r (HmForget (key (rc_identity c)) why))
        (m, set_pending (set_response s r response_slot_zero) k pending_zero)
  | change_admit m s k p r i now :
      sv_pending s !! k = Some p → pd_active p = false → sv_responses s !! r = Some response_slot_zero →
      identity_valid i = true → sv_next_generation s < 2 ^ 64 - 1 →
      (is_history s r = true →
       ∀ j c, sv_responses s !! j = Some c → rc_active c = 2 → key (rc_identity c) ≠ key i) →
      change (m, s) (on_record s r (HmAdmit i (sv_next_generation s)))
        (m, (server_admit s k r (bank_capacity s r) (bank_active s r) i now).1)
  | change_answer m m' s k p r c status length now :
      sv_pending s !! k = Some p → reserves s p r c → 0 <= length <= rc_capacity c →
      (∀ a, ¬ (rc_data c <= a < rc_data c + rc_capacity c) → m' a = m a) →
      change (m, s)
        (on_record s r (HmAnswer (rc_identity c) (rc_generation c) status
                          (mread m' (rc_data c) (Z.to_nat length)) now))
        (m', set_pending (set_response s r (answered c status length now)) k pending_zero).

(** ** Changes preserve the invariant *)

Lemma zero_not_live d : ¬ in_state d response_slot_zero.
Proof. by intros [? _]. Qed.

Lemma live_active s k c : live_ok s k c → rc_active c ≠ 0.
Proof. intros []. unfold bank_active in *. by case_match; congruence. Qed.

Lemma slot_live s k c :
  server_inv s → sv_responses s !! k = Some c → rc_active c ≠ 0 → live_ok s k c.
Proof. intros Hs Hk Hl. by destruct (vi_slots s Hs k c Hk) as [-> |]. Qed.

Lemma slot_free s k c :
  server_inv s → sv_responses s !! k = Some c → rc_active c = 0 → c = response_slot_zero.
Proof.
  intros Hs Hk Hl. destruct (vi_slots s Hs k c Hk) as [-> |H]; [done|]. by apply live_active in H.
Qed.

Lemma pending_live s k p :
  server_inv s → sv_pending s !! k = Some p → pd_active p = true → ∃ r c, reserves s p r c.
Proof. intros Hs Hk Hl. by destruct (vi_pending s Hs k p Hk) as [-> |]. Qed.

(** The parameters the banks are laid out with. *)
Definition same_banks (s s' : server) : Prop :=
  sv_cache_slot_count s' = sv_cache_slot_count s ∧ sv_response_capacity s' = sv_response_capacity s ∧
  sv_correlate_capacity s' = sv_correlate_capacity s ∧
  sv_response_storage s' = sv_response_storage s ∧ sv_correlate_storage s' = sv_correlate_storage s.

Lemma live_ok_frame s s' k c :
  same_banks s s' → sv_next_generation s <= sv_next_generation s' → live_ok s k c → live_ok s' k c.
Proof.
  intros (E1 & E2 & E3 & E4 & E5) Hn [].
  constructor; unfold bank_active, bank_capacity, is_history, server_response_data in *;
    rewrite ?E1, ?E2, ?E3, ?E4, ?E5; try done. lia.
Qed.

Lemma slot_ok_frame s s' k c :
  same_banks s s' → sv_next_generation s <= sv_next_generation s' →
  c = response_slot_zero ∨ live_ok s k c → c = response_slot_zero ∨ live_ok s' k c.
Proof. intros Hb Hn [->|H]; [by left|right]. by apply (live_ok_frame s). Qed.

(** One response slot changes, and no request is waiting for it. *)
Lemma response_inv s k c c' :
  server_inv s → sv_responses s !! k = Some c →
  ¬ in_state WL_RPC_RESPONSE_RESERVED c → ¬ in_state WL_RPC_RESPONSE_RESERVED c' →
  c' = response_slot_zero ∨ live_ok s k c' ∧ rc_active c ≠ 0 ∧ rc_identity c' = rc_identity c ∧
    rc_generation c' = rc_generation c →
  (in_state WL_RPC_RESPONSE_IN_FLIGHT c' →
   ∀ j x, j ≠ k → sv_responses s !! j = Some x → in_state WL_RPC_RESPONSE_IN_FLIGHT x →
          rc_tx_handle x ≠ rc_tx_handle c') →
  server_inv (set_response s k c').
Proof.
  intros Hs Hk Hc Hc' Hor Hh.
  assert (rc_active c' ≠ 0 → rc_active c ≠ 0 ∧ rc_active c' = rc_active c ∧
            rc_identity c' = rc_identity c ∧ rc_generation c' = rc_generation c) as Hsame.
  { destruct Hor as [->|(Hl' & Hl & Ei & Eg)]; [done|]. intros _. split; [done|]. split; [|done].
    rewrite (lk_active _ _ _ Hl'). symmetry. apply (lk_active _ _ _ (slot_live s k c Hs Hk Hl)). }
  destruct Hs. constructor; cbn; try done.
  - unfold len. by rewrite length_insert.
  - intros j x Hj. apply (slot_ok_frame s); [done|done|].
    apply list_lookup_insert_Some in Hj as [(-> & <- & _)|[_ Hj]]; [tauto|by apply vi_slots0].
  - intros j p Hj. destruct (vi_pending0 j p Hj) as [->|(r & x & Ha & Hr & Hx & Hst & E)]; [by left|right].
    exists r, x. split; [done|]. split; [done|]. split; [|done]. cbn.
    rewrite list_lookup_insert_ne; [done|]. intros ->. congruence.
  - intros r x [(-> & <- & _)|[Hne Hr]]%list_lookup_insert_Some Hst; [done|].
    destruct (vi_reserved0 r x Hr Hst) as (j & p & Hj & Ha & Hp & Hx & Hrest).
    exists j, p. split; [done|]. split; [done|]. split; [done|]. split; [|done]. cbn.
    by rewrite list_lookup_insert_ne.
  - apply (distinct_update _ _ _ k c); [done|done|]. intros H. by destruct (Hsame H) as (? & _ & _ & ?).
  - apply (distinct_update _ _ _ k c); [done|done|]. intros H.
    destruct (Hsame ltac:(congruence)) as (? & E & Ei & ?). rewrite <- E, Ei. done.
  - apply distinct_insert; [done|]. intros Hf j x Hj Hx Hxf. by apply (Hh Hf j).
Qed.

(** A pending entry is settled together with its response slot. *)
Lemma settle_inv s k p r c c' :
  server_inv s → sv_pending s !! k = Some p → reserves s p r c →
  c' = response_slot_zero ∨ live_ok s r c' ∧ rc_identity c' = rc_identity c ∧
    rc_generation c' = rc_generation c ∧ rc_delivery_state c' = WL_RPC_RESPONSE_READY →
  server_inv (set_pending (set_response s r c') k pending_zero).
Proof.
  intros Hs Hk (Ha & Hp & Hr & [Hl Hst] & Ei & Eg) Hor.
  assert (∀ d, in_state d c' → d = WL_RPC_RESPONSE_READY ∧ rc_active c' = rc_active c ∧
            rc_identity c' = rc_identity c ∧ rc_generation c' = rc_generation c) as Hsame.
  { intros d [Hd1 Hd2]. destruct Hor as [->|(Hl' & Ei' & Eg' & Es)]; [done|].
    split; [congruence|]. split; [|done]. rewrite (lk_active _ _ _ Hl'). symmetry.
    apply (lk_active _ _ _ (slot_live s r c Hs Hr Hl)). }
  destruct Hs. constructor; cbn; try done.
  - unfold len. by rewrite length_insert.
  - unfold len. by rewrite length_insert.
  - intros j x Hj. apply (slot_ok_frame s); [done|done|].
    apply list_lookup_insert_Some in Hj as [(-> & <- & _)|[_ Hj]]; [tauto|by apply vi_slots0].
  - intros j q [(-> & <- & _)|[Hne Hj]]%list_lookup_insert_Some; [by left|].
    destruct (vi_pending0 j q Hj) as [->|(r' & x & Hqa & Hqr & Hx & Hxs & Hxi & Hxg)]; [by left|right].
    exists r', x. do 2 (split; [done|]). split; [|done]. cbn. rewrite list_lookup_insert_ne; [done|].
    intros ->. apply Hne. apply (vi_tokens0 k j p q); try done. congruence.
  - intros r' x [(-> & <- & _)|[Hne Hx]]%list_lookup_insert_Some Hxs; [by destruct (Hsame _ Hxs)|].
    destruct (vi_reserved0 r' x Hx Hxs) as (j & q & Hj & Hqa & Hqr & Hrest).
    assert (k ≠ j) by congruence. exists j, q. rewrite list_lookup_insert_ne by done.
    split; [done|]. split; [done|]. split; [done|]. cbn. by rewrite list_lookup_insert_ne.
  - apply (distinct_update _ _ _ r c); [done|done|]. intros H. split; [done|].
    by destruct (Hsame _ (conj H eq_refl)) as (_ & _ & _ & ?).
  - apply (distinct_update _ _ _ r c); [done|done|]. intros H.
    destruct (Hsame _ (conj (ltac:(congruence) : rc_active c' ≠ 0) eq_refl)) as (_ & E & Ei' & _).
    rewrite Ei'. split; [congruence|done].
  - by apply (distinct_update _ _ _ k p).
  - apply distinct_insert; [done|]. intros Hf. by destruct (Hsame _ Hf).
Qed.

Definition admitted_response (s : server) (r : nat) (i : identity) : response_slot :=
  mk_response_slot i 0 (sv_next_generation s) (server_response_data s (Z.of_nat r)) 0 0 0
    (bank_capacity s r) (bank_active s r) WL_RPC_RESPONSE_RESERVED.

Definition admitted_pending (s : server) (r : nat) (i : identity) (now : Z) : pending_slot :=
  mk_pending_slot i (sv_next_generation s) (Some r) now true false.

Lemma server_admit_eq s k r capacity active i now :
  0 < sv_next_generation s < 2 ^ 64 - 1 →
  server_admit s k r capacity active i now =
  (set_pending
     (set_response s r
        (mk_response_slot i 0 (sv_next_generation s) (server_response_data s (Z.of_nat r)) 0 0 0
           capacity active WL_RPC_RESPONSE_RESERVED))
     k (admitted_pending s r i now) <| sv_next_generation := sv_next_generation s + 1 |>,
   mk_request i (sv_next_generation s)).
Proof.
  intros Hn. unfold server_admit, server_next_generation.
  destruct (_ =? 0) eqn:E; [lia|]. by rewrite u64_id by (unfold is_u64; lia).
Qed.

Lemma admit_inv s k p r i now :
  server_inv s → sv_pending s !! k = Some p → pd_active p = false →
  sv_responses s !! r = Some response_slot_zero → identity_valid i = true →
  sv_next_generation s < 2 ^ 64 - 1 →
  (is_history s r = true →
   ∀ j c, sv_responses s !! j = Some c → rc_active c = 2 → key (rc_identity c) ≠ key i) →
  server_inv
    (set_pending (set_response s r (admitted_response s r i)) k (admitted_pending s r i now)
       <| sv_next_generation := sv_next_generation s + 1 |>).
Proof.
  intros Hs Hk Hp Hr Hi Hn Hkey. destruct Hs.
  assert (∀ j c, sv_responses s !! j = Some c → rc_active c ≠ 0 → rc_generation c < sv_next_generation s) as Hold.
  { intros j c Hj Hl. destruct (vi_slots0 j c Hj) as [->|[]]; [done|lia]. }
  constructor; cbn; try done.
  - unfold len. by rewrite length_insert.
  - unfold len. by rewrite length_insert.
  - lia.
  - intros j x [(-> & <- & _)|[_ Hj]]%list_lookup_insert_Some.
    + right. constructor; cbn; try done; [lia|]. split; [done|].
      unfold bank_capacity. case_match; lia.
    + apply (slot_ok_frame s); [done|cbn; lia|]. by apply vi_slots0.
  - intros j q [(-> & <- & _)|[Hne Hj]]%list_lookup_insert_Some.
    + right. exists r, (admitted_response s r i). unfold reserves. cbn.
      rewrite list_lookup_insert_eq by (by apply lookup_lt_Some in Hr). repeat split; try done.
      cbn. unfold bank_active. by case_match.
    + destruct (vi_pending0 j q Hj) as [->|(r' & x & Hqa & Hqr & Hx & Hxs & E)]; [by left|right].
      exists r', x. do 2 (split; [done|]). split; [|done]. cbn. rewrite list_lookup_insert_ne; [done|].
      intros ->. rewrite Hr in Hx. injection Hx as <-. by destruct Hxs.
  - intros r' x [(-> & <- & _)|[Hne Hx]]%list_lookup_insert_Some Hxs.
    + exists k, (admitted_pending s r' i now). rewrite list_lookup_insert_eq by (by apply lookup_lt_Some in Hk).
      split; [done|]. unfold reserves. cbn. rewrite list_lookup_insert_eq by (by apply lookup_lt_Some in Hr).
      done.
    + destruct (vi_reserved0 r' x Hx Hxs) as (j & q & Hj & Hqa & Hqr & Hrest).
      assert (k ≠ j) by congruence. exists j, q. rewrite list_lookup_insert_ne by done.
      split; [done|]. split; [done|]. split; [done|]. cbn. by rewrite list_lookup_insert_ne.
  - apply distinct_insert; [done|]. intros _ j x _ Hj Hl E. cbn in E. specialize (Hold j x Hj Hl). lia.
  - apply distinct_insert; [done|]. cbn. unfold bank_active. intros Hb j x _ Hj Hl.
    apply (Hkey ltac:(by destruct (is_history s r)) j x Hj Hl).
  - apply distinct_insert; [done|]. intros _ j q _ Hj Hqa E. cbn in E.
    destruct (vi_pending0 j q Hj) as [->|(r' & x & _ & _ & Hx & [Hl _] & _ & Eg)]; [done|].
    specialize (Hold r' x Hx Hl). lia.
  - apply distinct_insert; [done|]. by intros [_ ?].
Qed.

Lemma change_inv x mv y : change x mv y → server_inv x.2 → server_inv y.2.
Proof.
  destruct 1 as [m s k p Hk Ha|m s f d|m m' s Hw|m s k c h d Hk Hl Hc Hd Hf|m s k c why Hk Hl Hc Hw
    |m s k p r c why Hk Hr Hw|m s k p r i now Hk Hp Hr Hi Hn Hkey|m m' s k p r c status length now Hk Hr Hlen Hm];
    cbn [snd]; intros Hs.
  - destruct Hs. constructor; cbn; try done.
    + unfold len. by rewrite length_insert.
    + intros j x Hj. apply (slot_ok_frame s); [done|done|by apply vi_slots0].
    + intros j q [(-> & <- & _)|[_ Hj]]%list_lookup_insert_Some; [|by apply (vi_pending0 j)].
      destruct (vi_pending0 j p Hk) as [->|H]; [done|by right].
    + intros r c Hr Hst. destruct (vi_reserved0 r c Hr Hst) as (j & q & Hj & Hq).
      destruct (decide (k = j)) as [->|Hne].
      * assert (q = p) as -> by congruence. exists j, (p <| pd_expiry_reported := true |>).
        by rewrite list_lookup_insert_eq by (by apply lookup_lt_Some in Hk).
      * exists j, q. by rewrite list_lookup_insert_ne.
    + by apply (distinct_update _ _ _ k p).
  - destruct Hs. constructor; cbn; try done.
    intros j x Hj. apply (slot_ok_frame s); [done|done|by apply vi_slots0].
  - done.
  - apply (response_inv s k c); try done; [by intros [_ ?]|by intros [_ ?]| |].
    + right. destruct (slot_live s k c Hs Hk Hl). split; [|done]. constructor; cbn; try done. tauto.
    + intros [_ Hfl]. apply Hf, Hfl.
  - apply (response_inv s k c); try done; [by intros [_ ?]|apply zero_not_live|by left|].
    intros H. by apply zero_not_live in H.
  - apply (settle_inv s k p r c); try done. by left.
  - rewrite server_admit_eq by (split; [apply Hs|done]). by apply (admit_inv s k p r i now).
  - apply (settle_inv s k p r c); try done. right. destruct Hr as (_ & _ & Hr & [Hl _] & _).
    destruct (slot_live s r c Hs Hr Hl). split; [|done]. by constructor; cbn.
Qed.
