(* ===== verification/RpcLedger.v ===== *)
(** What the replay history of the RPC server promises.

    The specification is a ledger: for each peer session and operation id the
    request that was admitted under it, and the answer it got.  The entries of
    the history bank are one representation of it.  Each elementary change of the
    server is a step of the ledger, so the ledger says when a request is executed,
    what a retransmitted request is answered with, and when that protection ends. *)
From stdpp Require Import gmap.
From S2P Require Import Prelude Slots Clock Link Rpc RpcServer RpcHistory.

(** ** The ledger *)

Record answer := mk_answer {
  an_status : Z;
  an_bytes : list Z;
  an_completed_at : Z;
  an_delivered : bool;
}.

(** A request, the generation of its execution, and its answer once there is one. *)
Record entry := mk_entry {
  en_identity : identity;
  en_generation : Z;
  en_answer : option answer;
}.

Notation ledger := (gmap (Z * Z) entry).

Definition set_delivered (b : bool) (a : answer) : answer :=
  mk_answer (an_status a) (an_bytes a) (an_completed_at a) b.

(** The steps of the ledger.  An entry is forgotten when its request is abandoned
    before it has an answer, when its peer session is over, or, once its answer
    was delivered, by age or to make room. *)
Inductive ledger_step (policy ttl : Z) : ledger → history_move → ledger → Prop :=
  | ledger_admit (L : ledger) i g :
      L !! key i = None →
      ledger_step policy ttl L (HmAdmit i g) (<[key i := mk_entry i g None]> L)
  | ledger_answer (L : ledger) i g status bytes now :
      L !! key i = Some (mk_entry i g None) →
      ledger_step policy ttl L (HmAnswer i g status bytes now)
        (<[key i := mk_entry i g (Some (mk_answer status bytes now false))]> L)
  | ledger_delivered (L : ledger) k i g a :
      L !! k = Some (mk_entry i g (Some a)) → an_delivered a = false →
      ledger_step policy ttl L (HmDelivered k) (<[k := mk_entry i g (Some (set_delivered true a))]> L)
  | ledger_replay (L : ledger) k i g a :
      L !! k = Some (mk_entry i g (Some a)) → an_delivered a = true →
      ledger_step policy ttl L (HmReplay k) (<[k := mk_entry i g (Some (set_delivered false a))]> L)
  | ledger_abandon (L : ledger) k i g :
      L !! k = Some (mk_entry i g None) →
      ledger_step policy ttl L (HmForget k Abandoned) (delete k L)
  | ledger_session_over (L : ledger) k e :
      L !! k = Some e →
      ledger_step policy ttl L (HmForget k SessionOver) (delete k L)
  | ledger_expire (L : ledger) k i g a now :
      L !! k = Some (mk_entry i g (Some a)) → an_delivered a = true →
      elapsed now (an_completed_at a) ttl = true →
      ledger_step policy ttl L (HmForget k (Expired now)) (delete k L)
  | ledger_evict (L : ledger) k i g a :
      L !! k = Some (mk_entry i g (Some a)) → an_delivered a = true →
      policy = WL_RPC_CACHE_EVICT_OLDEST →
      ledger_step policy ttl L (HmForget k Evicted) (delete k L).

Inductive ledger_steps (policy ttl : Z) : ledger → list history_move → ledger → Prop :=
  | ledger_done L : ledger_steps policy ttl L [] L
  | ledger_more L mv L1 mvs L2 :
      ledger_step policy ttl L mv L1 → ledger_steps policy ttl L1 mvs L2 →
      ledger_steps policy ttl L (mv :: mvs) L2.

(** ** The ledger a server holds *)

Definition slot_entry (m : mem) (c : response_slot) : entry :=
  mk_entry (rc_identity c) (rc_generation c)
    (if bool_decide (rc_delivery_state c = WL_RPC_RESPONSE_RESERVED) then None
     else Some (mk_answer (rc_application_status c)
                  (mread m (rc_data c) (Z.to_nat (rc_response_length c))) (rc_completed_at c)
                  (bool_decide (rc_delivery_state c = WL_RPC_RESPONSE_DELIVERED)))).

Definition server_ledger (m : mem) (s : server) : ledger :=
  list_to_map ((λ c, (key (rc_identity c), slot_entry m c)) <$>
               filter (λ c, rc_active c = 2) (sv_responses s)).

Lemma server_ledger_Some m s k e :
  server_inv s →
  server_ledger m s !! k = Some e ↔
  ∃ j c, sv_responses s !! j = Some c ∧ rc_active c = 2 ∧ key (rc_identity c) = k ∧ slot_entry m c = e.
Proof.
  intros Hs. unfold server_ledger.
  assert (∀ k e, (k, e) ∈ ((λ c, (key (rc_identity c), slot_entry m c)) <$>
            filter (λ c, rc_active c = 2) (sv_responses s)) ↔
          ∃ j c, sv_responses s !! j = Some c ∧ rc_active c = 2 ∧ key (rc_identity c) = k ∧
                 slot_entry m c = e) as Hin.
  { intros k' e'. rewrite list_elem_of_fmap. split.
    - intros (c & [= -> ->] & [Ha [j Hj]%list_elem_of_lookup]%list_elem_of_filter). by exists j, c.
    - intros (j & c & Hj & Ha & <- & <-). exists c. split; [done|].
      apply list_elem_of_filter. split; [done|]. by apply list_elem_of_lookup_2 in Hj. }
  split.
  - intros H%elem_of_list_to_map_2. by apply Hin.
  - intros H. apply elem_of_list_to_map_1'; [|by apply Hin].
    intros e' (j' & c' & Hj' & Ha' & Hk' & <-)%Hin. destruct H as (j & c & Hj & Ha & Hk & <-).
    assert (j = j') as <- by (apply (vi_keys s Hs j j' c c'); try done; congruence). congruence.
Qed.

Lemma server_ledger_None m s k :
  server_inv s →
  server_ledger m s !! k = None ↔
  ∀ j c, sv_responses s !! j = Some c → rc_active c = 2 → key (rc_identity c) ≠ k.
Proof.
  intros Hs. rewrite eq_None_not_Some. split.
  - intros H j c Hj Ha Hk. apply H. exists (slot_entry m c). apply server_ledger_Some; [done|]. by exists j, c.
  - intros H [e (j & c & Hj & Ha & Hk & _)%server_ledger_Some]; [|done]. by apply (H j c).
Qed.

(** *** One response slot changes *)

Section one_slot.
Context (m : mem) (s s' : server) (k : nat) (c c' : response_slot).
Hypothesis (Hs : server_inv s) (Hs' : server_inv s') (Hk : sv_responses s !! k = Some c).
Hypothesis (Hr : sv_responses s' = <[k := c']> (sv_responses s)).

Lemma slot_now : sv_responses s' !! k = Some c'.
Proof. rewrite Hr. apply list_lookup_insert_eq. by apply lookup_lt_Some in Hk. Qed.

Lemma slot_other j : j ≠ k → sv_responses s' !! j = sv_responses s !! j.
Proof. intros Hj. rewrite Hr. by apply list_lookup_insert_ne. Qed.

Lemma ledger_set :
  rc_active c' = 2 → (rc_active c = 2 → key (rc_identity c) = key (rc_identity c')) →
  server_ledger m s' = <[key (rc_identity c') := slot_entry m c']> (server_ledger m s).
Proof.
  intros Ha Hkey. apply map_eq. intros q. destruct (decide (q = key (rc_identity c'))) as [->|Hq].
  - rewrite lookup_insert_eq. apply server_ledger_Some; [done|]. exists k, c'. by split; [apply slot_now|].
  - rewrite lookup_insert_ne by done. apply option_eq. intros e. rewrite !server_ledger_Some by done.
    split; intros (j & x & Hj & Hx & Hxq & He); exists j, x.
    + rewrite slot_other in Hj; [done|]. intros ->. rewrite slot_now in Hj. congruence.
    + rewrite slot_other; [done|]. intros ->. assert (x = c) as -> by congruence.
      rewrite <- Hkey in Hq by done. congruence.
Qed.

Lemma ledger_unset :
  rc_active c' ≠ 2 → rc_active c = 2 →
  server_ledger m s' = delete (key (rc_identity c)) (server_ledger m s).
Proof.
  intros Ha Hc. apply map_eq. intros q. destruct (decide (q = key (rc_identity c))) as [->|Hq].
  - rewrite lookup_delete_eq. apply server_ledger_None; [done|]. intros j x Hj Hx Ex.
    assert (j ≠ k) as Hne by (intros ->; rewrite slot_now in Hj; congruence).
    rewrite slot_other in Hj by done. apply Hne. by apply (vi_keys s Hs j k x c).
  - rewrite lookup_delete_ne by done. apply option_eq. intros e. rewrite !server_ledger_Some by done.
    split; intros (j & x & Hj & Hx & Hxq & He); exists j, x.
    + rewrite slot_other in Hj; [done|]. intros ->. rewrite slot_now in Hj. congruence.
    + rewrite slot_other; [done|]. intros ->. assert (x = c) as -> by congruence. congruence.
Qed.

Lemma ledger_keep :
  rc_active c' ≠ 2 → rc_active c ≠ 2 → server_ledger m s' = server_ledger m s.
Proof.
  intros Ha Hc. apply map_eq. intros q. apply option_eq. intros e. rewrite !server_ledger_Some by done.
  split; intros (j & x & Hj & Hx & Hxq & He); exists j, x.
  - rewrite slot_other in Hj; [done|]. intros ->. rewrite slot_now in Hj. congruence.
  - rewrite slot_other; [done|]. intros ->. assert (x = c) as -> by congruence. congruence.
Qed.
End one_slot.

(** *** The bytes of the responses *)

Lemma slot_entry_mem m m' s k c :
  sv_responses s !! k = Some c → rc_active c ≠ 0 → 0 <= rc_response_length c →
  (∀ a, published s k c a → m' a = m a) → slot_entry m' c = slot_entry m c.
Proof.
  intros Hk Hl Hn Hm. unfold slot_entry. case_bool_decide as Hd; [done|]. do 3 f_equal.
  apply mread_ext. intros i Hi. apply Hm. split; [done|]. split; [done|]. split; [done|]. lia.
Qed.

Lemma ledger_mem m m' s :
  server_inv s → (∀ k c a, published s k c a → m' a = m a) → server_ledger m' s = server_ledger m s.
Proof.
  intros Hs Hm. apply map_eq. intros q. apply option_eq. intros e. rewrite !server_ledger_Some by done.
  assert (∀ j c, sv_responses s !! j = Some c → rc_active c = 2 → slot_entry m' c = slot_entry m c) as He.
  { intros j c Hj Ha. apply (slot_entry_mem m m' s j c Hj); [lia| |by apply Hm].
    apply (slot_live s j c Hs Hj). lia. }
  split; intros (j & c & Hj & Ha & Hk & E); exists j, c; (do 3 (split; [done|])).
  - by rewrite <- (He j c).
  - by rewrite (He j c).
Qed.

(** The storage of the two banks does not overlap. *)
Definition storage_apart (s : server) : Prop :=
  sv_response_storage s + sv_cache_slot_count s * sv_response_capacity s <= sv_correlate_storage s ∨
  sv_correlate_storage s + sv_correlate_slot_count s * sv_correlate_capacity s <= sv_response_storage s.

Lemma segments_apart s j k c d a :
  server_inv s → storage_apart s → j ≠ k → sv_responses s !! j = Some c → rc_active c ≠ 0 →
  sv_responses s !! k = Some d → rc_active d ≠ 0 →
  rc_data c <= a < rc_data c + rc_capacity c → ¬ (rc_data d <= a < rc_data d + rc_capacity d).
Proof.
  intros Hs Hap Hjk Hj Hlc Hk Hld. pose proof (lookup_lt_Some _ _ _ Hj). pose proof (lookup_lt_Some _ _ _ Hk).
  pose proof (vi_response_count s Hs) as Hn. unfold len in Hn. pose proof (vi_capacities s Hs).
  pose proof (vi_cache_range s Hs).
  destruct (slot_live s j c Hs Hj Hlc) as [_ _ _ -> -> _ _], (slot_live s k d Hs Hk Hld) as [_ _ _ -> -> _ _].
  unfold server_response_data, bank_capacity, is_history, storage_apart in *.
  destruct (Z.of_nat j <? _) eqn:Ej, (Z.of_nat k <? _) eqn:Ek; nia.
Qed.

(** ** Changes of the server are steps of the ledger *)

Lemma ledger_one policy ttl L mv L' : ledger_step policy ttl L mv L' → ledger_steps policy ttl L [mv] L'.
Proof. intros H. eapply ledger_more; [done|apply ledger_done]. Qed.

Lemma slot_recorded m s k c :
  server_inv s → sv_responses s !! k = Some c → rc_active c = 2 →
  server_ledger m s !! key (rc_identity c) = Some (slot_entry m c).
Proof. intros Hs Hk Ha. apply server_ledger_Some; [done|]. by exists k, c. Qed.

Lemma history_active s k c : live_ok s k c → rc_active c = 2 ↔ is_history s k = true.
Proof. intros []. rewrite lk_active. unfold bank_active. by case_match. Qed.

(** A move on the record of slot [k], or none for a slot without a record. *)
Lemma on_record_steps policy ttl L s k mv L' :
  (is_history s k = true → ledger_step policy ttl L mv L') → (is_history s k = false → L' = L) →
  ledger_steps policy ttl L (on_record s k mv) L'.
Proof.
  intros H1 H2. unfold on_record. destruct (is_history s k); [by apply ledger_one, H1|].
  rewrite H2 by done. apply ledger_done.
Qed.

Lemma deliver_ledger m s k c h d :
  server_inv s → sv_responses s !! k = Some c → rc_active c ≠ 0 →
  rc_delivery_state c ≠ WL_RPC_RESPONSE_RESERVED → d ≠ WL_RPC_RESPONSE_RESERVED →
  let s' := set_response s k (c <| rc_tx_handle := h |> <| rc_delivery_state := d |>) in
  server_inv s' →
  ledger_steps (sv_cache_policy s) (sv_cache_ttl_ms s) (server_ledger m s) (deliver_moves s k c d)
    (server_ledger m s').
Proof.
  intros Hs Hk Hl Hc Hd s' Hs'. pose proof (history_active s k c (slot_live s k c Hs Hk Hl)) as Hh.
  set (c' := c <| rc_tx_handle := h |> <| rc_delivery_state := d |>) in *.
  assert (is_history s k = false → server_ledger m s' = server_ledger m s) as Hno.
  { intros Hf. apply (ledger_keep m s s' k c c' Hs Hs' Hk eq_refl); cbn; intros ?%Hh; congruence. }
  assert (is_history s k = true →
    server_ledger m s' = <[key (rc_identity c) := slot_entry m c']> (server_ledger m s)) as Hyes.
  { intros Ht%Hh. apply (ledger_set m s s' k c c' Hs Hs' Hk eq_refl); done. }
  assert (is_history s k = true → server_ledger m s !! key (rc_identity c) = Some (slot_entry m c)) as Hrec.
  { intros Ht%Hh. by apply (slot_recorded m s k). }
  assert (slot_entry m c' = mk_entry (rc_identity c) (rc_generation c)
            (set_delivered (bool_decide (d = WL_RPC_RESPONSE_DELIVERED)) <$> en_answer (slot_entry m c))) as Ee.
  { unfold slot_entry. cbn. by rewrite (bool_decide_eq_false_2 _ Hd), (bool_decide_eq_false_2 _ Hc). }
  rewrite Ee in Hyes. unfold slot_entry in Hyes, Hrec. rewrite (bool_decide_eq_false_2 _ Hc) in Hyes, Hrec.
  unfold deliver_moves. cbn [en_answer fmap option_fmap option_map] in Hyes.
  case_bool_decide as E1; case_bool_decide as E2.
  - replace (server_ledger m s') with (server_ledger m s); [apply ledger_done|]. symmetry.
    destruct (is_history s k) eqn:E; [|by apply Hno]. rewrite Hyes by done. by apply insert_id, Hrec.
  - apply on_record_steps; [|done]. intros Ht. rewrite (Hyes Ht). by apply (ledger_delivered _ _ _ _ _ _ _ (Hrec Ht)).
  - apply on_record_steps; [|done]. intros Ht. rewrite (Hyes Ht).
    by apply (ledger_replay _ _ _ _ _ _ _ (Hrec Ht)).
  - replace (server_ledger m s') with (server_ledger m s); [apply ledger_done|]. symmetry.
    destruct (is_history s k) eqn:E; [|by apply Hno]. rewrite Hyes by done. by apply insert_id, Hrec.
Qed.

Lemma free_ledger m s k c why :
  server_inv s → sv_responses s !! k = Some c → rc_active c ≠ 0 →
  rc_delivery_state c ≠ WL_RPC_RESPONSE_RESERVED → free_ok s c why →
  let s' := set_response s k response_slot_zero in
  server_inv s' →
  ledger_steps (sv_cache_policy s) (sv_cache_ttl_ms s) (server_ledger m s)
    (on_record s k (HmForget (key (rc_identity c)) why)) (server_ledger m s').
Proof.
  intros Hs Hk Hl Hc Hw s' Hs'. pose proof (history_active s k c (slot_live s k c Hs Hk Hl)) as Hh.
  apply on_record_steps.
  - intros Ht%Hh. rewrite (ledger_unset m s s' k c _ Hs Hs' Hk eq_refl) by done.
    pose proof (slot_recorded m s k c Hs Hk Ht) as Hrec. unfold slot_entry in Hrec.
    rewrite (bool_decide_eq_false_2 _ Hc) in Hrec. destruct why as [| |now|]; cbn in Hw.
    + done.
    + by apply (ledger_session_over _ _ _ _ _ Hrec).
    + destruct Hw as [Hd He]. apply (ledger_expire _ _ _ _ _ _ _ _ Hrec); [|done].
      by apply bool_decide_eq_true.
    + destruct Hw as [Hd He]. apply (ledger_evict _ _ _ _ _ _ _ Hrec); [|done].
      by apply bool_decide_eq_true.
  - intros Hf. apply (ledger_keep m s s' k c _ Hs Hs' Hk eq_refl); [done|]. intros ?%Hh. congruence.
Qed.

Lemma drop_ledger m s k p r c why :
  server_inv s → reserves s p r c → drop_ok why →
  let s' := set_pending (set_response s r response_slot_zero) k pending_zero in
  server_inv s' →
  ledger_steps (sv_cache_policy s) (sv_cache_ttl_ms s) (server_ledger m s)
    (on_record s r (HmForget (key (rc_identity c)) why)) (server_ledger m s').
Proof.
  intros Hs (_ & _ & Hr & [Hl Hst] & _) Hw s' Hs'.
  pose proof (history_active s r c (slot_live s r c Hs Hr Hl)) as Hh. apply on_record_steps.
  - intros Ht%Hh. rewrite (ledger_unset m s s' r c _ Hs Hs' Hr eq_refl) by done.
    pose proof (slot_recorded m s r c Hs Hr Ht) as Hrec. unfold slot_entry in Hrec.
    rewrite (bool_decide_eq_true_2 _ Hst) in Hrec. destruct Hw as [->| ->].
    + by apply (ledger_abandon _ _ _ _ _ _ Hrec).
    + by apply (ledger_session_over _ _ _ _ _ Hrec).
  - intros Hf. apply (ledger_keep m s s' r c _ Hs Hs' Hr eq_refl); [done|]. intros ?%Hh. congruence.
Qed.

Lemma admit_ledger m s k r i now :
  server_inv s → sv_responses s !! r = Some response_slot_zero →
  (is_history s r = true →
   ∀ j c, sv_responses s !! j = Some c → rc_active c = 2 → key (rc_identity c) ≠ key i) →
  let s' := set_pending (set_response s r (admitted_response s r i)) k (admitted_pending s r i now)
              <| sv_next_generation := sv_next_generation s + 1 |> in
  server_inv s' →
  ledger_steps (sv_cache_policy s) (sv_cache_ttl_ms s) (server_ledger m s)
    (on_record s r (HmAdmit i (sv_next_generation s))) (server_ledger m s').
Proof.
  intros Hs Hr Hkey s' Hs'. apply on_record_steps.
  - intros Ht. rewrite (ledger_set m s s' r response_slot_zero (admitted_response s r i) Hs Hs' Hr eq_refl); [|cbn|done].
    + apply ledger_admit. apply server_ledger_None; [done|]. by apply Hkey.
    + unfold bank_active. by rewrite Ht.
  - intros Hf. apply (ledger_keep m s s' r response_slot_zero (admitted_response s r i) Hs Hs' Hr eq_refl); [|done].
    cbn. unfold bank_active. by rewrite Hf.
Qed.

Lemma answer_ledger m m' s k p r c status length now :
  server_inv s → storage_apart s → reserves s p r c → 0 <= length <= rc_capacity c →
  (∀ a, ¬ (rc_data c <= a < rc_data c + rc_capacity c) → m' a = m a) →
  let s' := set_pending (set_response s r (answered c status length now)) k pending_zero in
  server_inv s' →
  ledger_steps (sv_cache_policy s) (sv_cache_ttl_ms s) (server_ledger m s)
    (on_record s r (HmAnswer (rc_identity c) (rc_generation c) status
                      (mread m' (rc_data c) (Z.to_nat length)) now)) (server_ledger m' s').
Proof.
  intros Hs Hap (_ & _ & Hr & [Hl Hst] & _) Hlen Hm s' Hs'.
  pose proof (history_active s r c (slot_live s r c Hs Hr Hl)) as Hh.
  assert (server_ledger m' s = server_ledger m s) as Em.
  { apply ledger_mem; [done|]. intros j x a (Hj & Hlx & Hdx & Ha). apply Hm.
    assert (j ≠ r) as Hne by congruence. apply (segments_apart s j r x c a); try done.
    destruct (slot_live s j x Hs Hj Hlx). lia. }
  apply on_record_steps.
  - intros Ht%Hh.
    rewrite (ledger_set m' s s' r c (answered c status length now) Hs Hs' Hr eq_refl), Em by done.
    apply (ledger_answer _ _ (server_ledger m s) (rc_identity c)). rewrite (slot_recorded m s r c Hs Hr Ht).
    unfold slot_entry. by rewrite bool_decide_eq_true_2.
  - intros Hf. rewrite <- Em.
    apply (ledger_keep m' s s' r c (answered c status length now) Hs Hs' Hr eq_refl); cbn; intros ?%Hh; congruence.
Qed.

Lemma change_ledger x mvs y :
  change x mvs y → server_inv x.2 → storage_apart x.2 →
  ledger_steps (sv_cache_policy x.2) (sv_cache_ttl_ms x.2) (server_ledger x.1 x.2) mvs
    (server_ledger y.1 y.2).
Proof.
  intros Hc Hs Hap. pose proof (change_inv x mvs y Hc Hs) as Hs'. revert Hs'.
  destruct Hc as [m s k p Hk Ha|m s f d|m m' s Hw|m s k c h d Hk Hl Hc Hd Hf|m s k c why Hk Hl Hc Hw
    |m s k p r c why Hk Hr Hw|m s k p r i now Hk Hp Hr Hi Hn Hkey|m m' s k p r c status length now Hk Hr Hlen Hm];
    cbn [fst snd] in *; intros Hs'.
  - apply ledger_done.
  - apply ledger_done.
  - rewrite (ledger_mem m m' s Hs Hw). apply ledger_done.
  - by apply deliver_ledger.
  - by apply free_ledger.
  - by apply (drop_ledger m s k p r).
  - rewrite server_admit_eq in Hs' |- * by (split; [apply Hs|done]). by apply admit_ledger.
  - by apply (answer_ledger m m' s k p r).
Qed.
