(* ===== verification/RpcServing.v ===== *)
(** The operations of the RPC server as changes of its tables.

    Each public operation is shown to be a sequence of the elementary changes of
    [RpcHistory], with the moves it makes on the ledger and what its result says
    about the ledger.  Together: in every state the server can reach, admission,
    duplicate detection and replay do exactly what the ledger prescribes. *)
From stdpp Require Import gmap.
From S2P Require Import Prelude Slots Clock Link Rpc RpcServer RpcHistory RpcLedger.

(** ** Sequences of changes *)

Inductive changes : mem * server → list history_move → mem * server → Prop :=
  | changes_nil x : changes x [] x
  | changes_cons x mv y mvs z : change x mv y → changes y mvs z → changes x (mv ++ mvs) z.

Lemma changes_one x mv y : change x mv y → changes x mv y.
Proof. intros H. rewrite <- (app_nil_r mv). eapply changes_cons; [done|apply changes_nil]. Qed.

Lemma changes_app x mvs y mvs' z : changes x mvs y → changes y mvs' z → changes x (mvs ++ mvs') z.
Proof.
  induction 1 as [|x mv y' mvs y Hc _ IH]; [done|]. intros H. rewrite <- app_assoc.
  eapply changes_cons; [done|by apply IH].
Qed.

Lemma changes_inv x mvs y : changes x mvs y → server_inv x.2 → server_inv y.2.
Proof. induction 1; [done|]. intros. by eapply IHchanges, change_inv. Qed.

(** What no operation changes after initialization. *)
Definition setup (s : server) : Z * Z * Z * Z * Z * Z * Z * Z * Z :=
  (sv_cache_policy s, sv_cache_ttl_ms s, sv_pending_timeout_ms s, sv_cache_slot_count s,
   sv_correlate_slot_count s, sv_response_capacity s, sv_correlate_capacity s, sv_response_storage s,
   sv_correlate_storage s).

Lemma change_setup x mv y : change x mv y → setup y.2 = setup x.2.
Proof.
  destruct 1; try done. unfold server_admit. by destruct (server_next_generation s).
Qed.

Lemma changes_setup x mvs y : changes x mvs y → setup y.2 = setup x.2.
Proof. induction 1 as [|x mv y mvs z Hc _ IH]; [done|]. rewrite IH. by eapply change_setup. Qed.

Lemma setup_apart s s' : setup s' = setup s → storage_apart s → storage_apart s'.
Proof. unfold setup, storage_apart. intros [= _ _ _ -> -> -> -> -> ->]. done. Qed.

Lemma ledger_steps_app policy ttl L mvs L1 mvs' L2 :
  ledger_steps policy ttl L mvs L1 → ledger_steps policy ttl L1 mvs' L2 →
  ledger_steps policy ttl L (mvs ++ mvs') L2.
Proof. induction 1; [done|]. intros. cbn. eapply ledger_more; [done|]. by apply IHledger_steps. Qed.

Lemma changes_ledger x mvs y :
  changes x mvs y → server_inv x.2 → storage_apart x.2 →
  ledger_steps (sv_cache_policy x.2) (sv_cache_ttl_ms x.2) (server_ledger x.1 x.2) mvs
    (server_ledger y.1 y.2).
Proof.
  induction 1 as [|x mv y mvs z Hc Hcs IH]; intros Hs Hap; [apply ledger_done|].
  pose proof (change_setup _ _ _ Hc) as E. eapply ledger_steps_app; [by apply change_ledger|].
  injection E as Ep Et _ _ _ _ _ _ _. rewrite <- Ep, <- Et. apply IH; [by eapply change_inv|].
  apply (setup_apart x.2); [by eapply change_setup|done].
Qed.

(** ** Identities and lookups *)

Lemma identity_equal_spec a b : identity_equal a b = true ↔ a = b.
Proof.
  unfold identity_equal. destruct a, b; cbn. split.
  - intros H. f_equal; lia.
  - intros [= -> -> -> -> ->]. lia.
Qed.

Lemma key_equal_spec a b : identity_key_equal a b = true ↔ key a = key b.
Proof.
  unfold identity_key_equal, key. rewrite andb_true_iff, !Z.eqb_eq. split; [intros [-> ->]; done|].
  by intros [= -> ->].
Qed.

Lemma responses_same (s : server) : s <| sv_responses := sv_responses s |> = s.
Proof. by destruct s. Qed.

Lemma history_lookup_Some s k c :
  history s !! k = Some c ↔ sv_responses s !! k = Some c ∧ is_history s k = true.
Proof.
  unfold history, is_history. rewrite lookup_take_Some, Z.ltb_lt. split; intros []; split; try done; lia.
Qed.

(** *** The oldest of some slots *)

Lemma oldest_Some P l k c : oldest P l = Some (k, c) → l !! k = Some c ∧ P c = true.
Proof.
  unfold oldest. assert (∀ best, foldl (oldest_step P) best (imap pair l) = Some (k, c) →
    best = Some (k, c) ∨ (k, c) ∈ imap pair l ∧ P c = true) as H.
  { induction (imap pair l) as [|[j x] xs IH]; intros best; cbn [foldl]; [by left|].
    intros [Hb|[Hin HP]]%IH; [|right; split; [by right|done]].
    unfold oldest_step in Hb. destruct (_ && _) eqn:E; [|by left].
    apply andb_prop in E as [E _]. injection Hb as -> ->. right. split; [by left|done]. }
  intros [?|[[i Hi]%list_elem_of_lookup HP]]%H; [done|]. split; [|done].
  rewrite list_lookup_imap in Hi. destruct (l !! i) eqn:E; [|done]. cbn in Hi.
  injection Hi as -> ->. done.
Qed.

(** ** Expiry *)

Definition expired_at (now : Z) (mv : history_move) : Prop := ∃ k, mv = HmForget k (Expired now).

Lemma insert_middle {A} (pre rest : list A) x y : <[length pre := y]> (pre ++ x :: rest) = pre ++ y :: rest.
Proof. rewrite <- (Nat.add_0_r (length pre)), insert_app_r. done. Qed.

Lemma expire_one m s now pre c rest :
  server_inv s → sv_responses s = pre ++ c :: rest →
  let c1 := (server_cache_expire now (sv_cache_ttl_ms s) c).1 in
  ∃ mvs, changes (m, s) mvs (m, s <| sv_responses := pre ++ c1 :: rest |>) ∧ Forall (expired_at now) mvs.
Proof.
  intros Hs Hr c1. unfold c1, server_cache_expire. destruct (_ || _ || _) eqn:E; cbn [fst].
  { rewrite <- Hr, responses_same. exists []. split; [apply changes_nil|done]. }
  autorewrite with branch in E. destruct E as [[Hl Hd] He]. apply dec_stable in Hd.
  assert (sv_responses s !! length pre = Some c) as Hk by (by rewrite Hr, list_lookup_middle).
  exists (on_record s (length pre) (HmForget (key (rc_identity c)) (Expired now))). split.
  - rewrite <- (insert_middle pre rest c), <- Hr. apply changes_one.
    apply change_free; [done|done|congruence|done].
  - unfold on_record. case_match; [|done]. repeat constructor. by eexists.
Qed.

Lemma app_middle {A} (pre : list A) x l : (pre ++ [x]) ++ l = pre ++ x :: l.
Proof. by rewrite <- app_assoc. Qed.

Lemma history_lookup_changes m s now i pre l post :
  server_inv s → sv_responses s = pre ++ l ++ post →
  let '(bank, found) := history_lookup now (sv_cache_ttl_ms s) i l in
  (∃ mvs, changes (m, s) mvs (m, s <| sv_responses := pre ++ bank ++ post |>) ∧
          Forall (expired_at now) mvs) ∧
  match found with
  | Some (k, c) => bank !! k = Some c ∧ rc_active c ≠ 0 ∧ key (rc_identity c) = key i
  | None => ∀ k c, bank !! k = Some c → rc_active c ≠ 0 → key (rc_identity c) ≠ key i
  end.
Proof.
  revert s pre. induction l as [|c rest IH]; intros s pre Hs Hr; cbn [history_lookup].
  { rewrite <- Hr, responses_same. split; [exists []; split; [apply changes_nil|done]|by intros [] ?]. }
  destruct (expire_one m s now pre c (rest ++ post) Hs Hr) as (mvs & Hc & Hx).
  set (c1 := (server_cache_expire now (sv_cache_ttl_ms s) c).1) in *.
  destruct (_ && _) eqn:E.
  { rewrite andb_true_iff, negb_true_iff, key_equal_spec in E. split; [by exists mvs|]. cbn. split; [done|]. split; [lia|tauto]. }
  pose proof (changes_inv _ _ _ Hc Hs) as Hs1. cbn [snd] in Hs1.
  specialize (IH (s <| sv_responses := pre ++ c1 :: rest ++ post |>) (pre ++ [c1]) Hs1).
  cbn [sv_responses sv_cache_ttl_ms with_field fs_sv_responses] in IH.
  rewrite app_middle in IH. specialize (IH eq_refl).
  change (sv_cache_ttl_ms (s <| sv_responses := _ |>)) with (sv_cache_ttl_ms s) in IH.
  destruct (history_lookup now (sv_cache_ttl_ms s) i rest) as [rest1 found].
  destruct IH as ((mvs' & Hc' & Hx') & Hf). split.
  - exists (mvs ++ mvs'). split; [|by apply Forall_app]. eapply changes_app; [exact Hc|].
    rewrite app_middle in Hc'. exact Hc'.
  - destruct found as [[k x]|]; cbn; [done|]. intros [|k] x Hk Hl; [|by apply (Hf k)].
    cbn in Hk. injection Hk as <-. intros Ek. rewrite andb_false_iff, negb_false_iff, Z.eqb_eq in E.
    destruct E as [?|E]; [done|]. apply key_equal_spec in Ek. congruence.
Qed.

Lemma history_lookup_length now ttl i l : length (history_lookup now ttl i l).1 = length l.
Proof.
  induction l as [|c rest IH]; [done|]. cbn [history_lookup]. destruct (_ && _); [done|].
  destruct (history_lookup now ttl i rest) as [rest1 found]. cbn in *. by rewrite IH.
Qed.

Lemma history_length s : server_inv s → length (history s) = Z.to_nat (sv_cache_slot_count s).
Proof.
  intros Hs. unfold history. rewrite length_take. pose proof (vi_response_count s Hs) as E. unfold len in E.
  pose proof (vi_cache_range s Hs). lia.
Qed.

Lemma expire_changes m s now pre l post n :
  server_inv s → sv_responses s = pre ++ l ++ post →
  ∃ mvs, changes (m, s) mvs
           (m, s <| sv_responses := pre ++ (expire_slots now (sv_cache_ttl_ms s) l n).1 ++ post |>) ∧
         Forall (expired_at now) mvs.
Proof.
  revert s pre n. induction l as [|c rest IH]; intros s pre n Hs Hr; cbn [expire_slots].
  { cbn [fst]. rewrite <- Hr, responses_same. exists []. split; [apply changes_nil|done]. }
  destruct (expire_one m s now pre c (rest ++ post) Hs Hr) as (mvs & Hc & Hx).
  destruct (server_cache_expire now (sv_cache_ttl_ms s) c) as [c1 gone]. cbn [fst] in Hc.
  pose proof (changes_inv _ _ _ Hc Hs) as Hs1. cbn [snd] in Hs1.
  set (n1 := if gone then u16 (n + 1) else n).
  set (s1 := s <| sv_responses := pre ++ c1 :: rest ++ post |>) in *.
  destruct (IH s1 (pre ++ [c1]) n1 Hs1 ltac:(by rewrite app_middle)) as (mvs' & Hc' & Hx').
  change (sv_cache_ttl_ms s1) with (sv_cache_ttl_ms s) in Hc'.
  destruct (expire_slots now (sv_cache_ttl_ms s) rest n1) as [rest1 m1]. cbn [fst] in *.
  exists (mvs ++ mvs'). split; [|by apply Forall_app]. eapply changes_app; [exact Hc|].
  rewrite app_middle in Hc'. exact Hc'.
Qed.

Lemma banks s : sv_responses s = [] ++ history s ++ correlated s.
Proof. unfold history, correlated. cbn. by rewrite take_drop. Qed.

(** ** Admission *)

(** The pending entries that stand for an execution on record. *)
Lemma pending_duplicate_Some m s i k p :
  server_inv s → pending_duplicate s i = Some (k, p) →
  ∃ g, server_ledger m s !! key i = Some (mk_entry (pd_identity p) g None).
Proof.
  intros Hs (Hk & (Ha & H2 & Hkey%key_equal_spec) & _)%list_find_Some.
  destruct (pending_live s k p Hs Hk Ha) as (r & c & _ & Hp & Hr & [_ Hst] & Ei & _).
  rewrite Hp in H2. cbn in H2. rewrite Hr in H2. cbn in H2. exists (rc_generation c).
  rewrite <- Hkey, Ei, (slot_recorded m s r c Hs Hr H2). unfold slot_entry.
  by rewrite bool_decide_eq_true_2.
Qed.

Lemma pending_duplicate_None s i r c :
  server_inv s → pending_duplicate s i = None → sv_responses s !! r = Some c → rc_active c = 2 →
  key (rc_identity c) = key i → rc_delivery_state c ≠ WL_RPC_RESPONSE_RESERVED.
Proof.
  intros Hs Hn Hr H2 Hkey Hst. apply list_find_None in Hn. rewrite Forall_lookup in Hn.
  destruct (vi_reserved s Hs r c Hr) as (k & p & Hk & Ha & Hp & _ & _ & Ei & _); [by split; [lia|]|].
  apply (Hn k p Hk). split; [done|]. rewrite Hp. cbn. rewrite Hr. split; [done|].
  apply key_equal_spec. congruence.
Qed.

(** Whether a pending entry stands for an execution on record does not depend on
    the state of the other responses. *)
Lemma pending_duplicate_frame s s1 i :
  server_inv s → server_inv s1 → sv_pending s1 = sv_pending s →
  sv_cache_slot_count s1 = sv_cache_slot_count s → pending_duplicate s i = None →
  pending_duplicate s1 i = None.
Proof.
  intros Hs Hs1 Hp Hn Hnone. apply list_find_None. rewrite Forall_lookup, Hp.
  apply list_find_None in Hnone. rewrite Forall_lookup in Hnone.
  intros k p Hk (Ha & H2 & Hkey). apply (Hnone k p Hk). split; [done|]. split; [|done].
  destruct (pending_live s k p Hs Hk Ha) as (r & c & _ & Hr & Hc & [Hl _] & _).
  rewrite <- Hp in Hk.
  destruct (pending_live s1 k p Hs1 Hk Ha) as (r1 & c1 & _ & Hr1 & Hc1 & [Hl1 _] & _).
  assert (r1 = r) as -> by congruence. rewrite Hr in H2 |- *. cbn in *. rewrite Hc1 in H2. rewrite Hc. cbn in *.
  rewrite (lk_active _ _ _ (slot_live s r c Hs Hc Hl)), <- H2.
  rewrite (lk_active _ _ _ (slot_live s1 r c1 Hs1 Hc1 Hl1)). unfold bank_active, is_history. by rewrite Hn.
Qed.

(** The bytes a response view shows. *)
Definition response_bytes (m : mem) (rs : response) : list Z :=
  mread m (rs_response_data rs) (Z.to_nat (rs_response_length rs)).

(** What the result of an admission says about the ledger it finds after expiry,
    and the moves it makes from there. *)
Definition begin_tail (m : mem) (L : ledger) (i : identity)
    (r : rpc_err + disposition * request * response) (tail : list history_move) : Prop :=
  match r with
  | inr (WL_RPC_SERVER_PENDING_DUPLICATE, _, _) =>
      tail = [] ∧ ∃ g, L !! key i = Some (mk_entry i g None)
  | inr (WL_RPC_SERVER_CONFLICT, _, _) =>
      tail = [] ∧ ∃ e, L !! key i = Some e ∧ en_identity e ≠ i
  | inr (WL_RPC_SERVER_REPLAY, _, rs) =>
      ∃ a, L !! key i = Some (mk_entry i (rs_generation rs) (Some a)) ∧ rs_identity rs = i ∧
           rs_application_status rs = an_status a ∧ response_bytes m rs = an_bytes a ∧
           tail = if an_delivered a then [HmReplay (key i)] else []
  | inr (WL_RPC_SERVER_NEW, rq, _) =>
      L !! key i = None ∧ rq_identity rq = i ∧
      (tail = [HmAdmit i (rq_generation rq)] ∨
       ∃ k, tail = [HmForget k Evicted; HmAdmit i (rq_generation rq)])
  | inl WL_RPC_ERR_NO_SLOT | inl WL_RPC_ERR_CACHE_FULL => tail = [] ∧ L !! key i = None
  | inl _ => False
  end.

Lemma deliver_same (c : response_slot) d :
  c <| rc_tx_handle := rc_tx_handle c |> <| rc_delivery_state := d |> = c <| rc_delivery_state := d |>.
Proof. by destruct c. Qed.

(** A change of the delivery state that keeps the handle. *)
Lemma deliver_keep m s k c d :
  sv_responses s !! k = Some c → rc_active c ≠ 0 →
  rc_delivery_state c ≠ WL_RPC_RESPONSE_RESERVED → d ≠ WL_RPC_RESPONSE_RESERVED →
  d ≠ WL_RPC_RESPONSE_IN_FLIGHT →
  changes (m, s) (deliver_moves s k c d)
    (m, set_response s k (c <| rc_delivery_state := d |>)).
Proof.
  intros Hk Hl Hc Hd Hf. rewrite <- deliver_same. apply changes_one. by apply change_deliver.
Qed.

Lemma replay_changes m s i k c :
  server_inv s → sv_responses s !! k = Some c → rc_active c = 2 → rc_identity c = i →
  rc_delivery_state c ≠ WL_RPC_RESPONSE_RESERVED →
  ∃ tail,
    changes (m, s) tail
      (m, if bool_decide (rc_delivery_state c = WL_RPC_RESPONSE_DELIVERED)
          then set_response s k (c <| rc_delivery_state := WL_RPC_RESPONSE_READY |>) else s) ∧
    begin_tail m (server_ledger m s) i
      (inr (WL_RPC_SERVER_REPLAY, request_zero, response_from_cache c)) tail.
Proof.
  intros Hs Hk H2 <- Hc. pose proof (slot_recorded m s k c Hs Hk H2) as Hrec.
  unfold slot_entry in Hrec. rewrite (bool_decide_eq_false_2 _ Hc) in Hrec.
  assert (rc_active c ≠ 0) as Hl by lia.
  case_bool_decide as Hd.
  - eexists. split; [by apply (deliver_keep m s k c WL_RPC_RESPONSE_READY)|].
    eexists. do 4 (split; [done|]). cbn. unfold deliver_moves, on_record.
    rewrite (bool_decide_eq_true_2 _ Hd), bool_decide_eq_false_2 by done.
    by rewrite (proj1 (history_active s k c (slot_live s k c Hs Hk Hl)) H2).
  - exists []. split; [apply changes_nil|]. eexists. by do 4 (split; [done|]).
Qed.

(** The slot a new execution takes in the history: free, or freed by eviction. *)
Lemma history_target_changes m s r c :
  server_inv s → history_target s = Some (r, c) →
  is_history s r = true ∧
  ∃ evicted, (evicted = [] ∨ ∃ k, evicted = [HmForget k Evicted]) ∧
    changes (m, s) evicted (m, set_response s r response_slot_zero) ∧ (r < length (sv_responses s))%nat.
Proof.
  intros Hs. unfold history_target. destruct (list_find _ (history s)) as [[k x]|] eqn:Ef.
  - intros [= <- <-]. apply list_find_Some in Ef as ([Hk Hh]%history_lookup_Some & Hx & _). split; [done|].
    apply (slot_free s k x Hs Hk) in Hx as ->. exists []. split; [by left|].
    split; [|by apply lookup_lt_Some in Hk]. unfold set_response. rewrite list_insert_id by done.
    rewrite responses_same. apply changes_nil.
  - destruct (_ =? _) eqn:Ep; [|done]. intros [Hk Hd]%oldest_Some.
    apply history_lookup_Some in Hk as [Hk Hh]. apply bool_decide_eq_true in Hd. split; [done|].
    assert (rc_active c ≠ 0) as Hl.
    { intros H0. apply list_find_None in Ef. rewrite Forall_lookup in Ef. apply (Ef r c); [|done].
      by apply history_lookup_Some. }
    exists [HmForget (key (rc_identity c)) Evicted]. split; [right; by eexists|].
    split; [|by apply lookup_lt_Some in Hk].
    replace [HmForget (key (rc_identity c)) Evicted] with
      (on_record s r (HmForget (key (rc_identity c)) Evicted)) by (unfold on_record; by rewrite Hh).
    apply changes_one, change_free; [done|done|congruence|]. split; [done|]. by apply Z.eqb_eq.
Qed.

Lemma admit_over s k r c capacity active i now :
  server_admit (set_response s r c) k r capacity active i now =
  server_admit s k r capacity active i now.
Proof.
  unfold server_admit. change (server_next_generation (set_response s r c)) with (server_next_generation s).
  destruct (server_next_generation s) as [g n]. unfold set_pending, set_response. cbn.
  by rewrite list_insert_insert_eq.
Qed.

(** A new execution takes a pending entry and a history slot. *)
Lemma new_changes m s i now k p r c :
  server_inv s → sv_next_generation s < 2 ^ 64 - 1 → identity_valid i = true →
  pending_free s = Some (k, p) → history_target s = Some (r, c) → server_ledger m s !! key i = None →
  let '(s', rq) := server_admit s k r (sv_response_capacity s) 2 i now in
  ∃ tail, changes (m, s) tail (m, s') ∧
    begin_tail m (server_ledger m s) i (inr (WL_RPC_SERVER_NEW, rq, response_zero)) tail.
Proof.
  intros Hs Hn Hi (Hk & Hp & _)%list_find_Some Ht Hnone.
  destruct (history_target_changes m s r c Hs Ht) as (Hh & evicted & Hev & Hc & Hlt).
  pose proof (changes_inv _ _ _ Hc Hs) as Hs1. cbn [snd] in Hs1.
  set (s1 := set_response s r response_slot_zero) in *.
  assert (sv_responses s1 !! r = Some response_slot_zero) as Hr by by apply list_lookup_insert_eq.
  assert (change (m, s1) (on_record s1 r (HmAdmit i (sv_next_generation s1)))
            (m, (server_admit s1 k r (bank_capacity s1 r) (bank_active s1 r) i now).1)) as Had.
  { apply (change_admit m s1 k p); try done. intros _ j x Hj Hx.
    rewrite server_ledger_None in Hnone by done.
    apply list_lookup_insert_Some in Hj as [(_ & <- & _)|[_ Hj]]; [done|by apply (Hnone j)]. }
  rewrite <- (admit_over s k r response_slot_zero). fold s1.
  replace (sv_response_capacity s) with (bank_capacity s1 r)
    by (unfold bank_capacity; change (is_history s1 r) with (is_history s r); by rewrite Hh).
  replace 2 with (bank_active s1 r)
    by (unfold bank_active; change (is_history s1 r) with (is_history s r); by rewrite Hh).
  pose proof (server_admit_eq s1 k r (bank_capacity s1 r) (bank_active s1 r) i now) as Eq.
  destruct (server_admit s1 k r _ _ i now) as [s' rq] eqn:Es. cbn [fst] in Had.
  exists (evicted ++ on_record s1 r (HmAdmit i (sv_next_generation s1))). split.
  - eapply changes_app; [exact Hc|by apply changes_one].
  - split; [done|]. assert (rq = mk_request i (sv_next_generation s1)) as ->.
    { specialize (Eq (conj (proj1 (vi_next s Hs)) Hn)). by apply pair_equal_spec in Eq as [_ ?]. }
    split; [done|]. unfold on_record. change (is_history s1 r) with (is_history s r). rewrite Hh.
    destruct Hev as [->|[q ->]]; [by left|right; by exists q].
Qed.

Lemma begin_changes m s i now :
  server_inv s → sv_next_generation s < 2 ^ 64 - 1 → identity_valid i = true →
  let '(s', r) := wl_rpc_server_begin s i now in
  ∃ forgotten s1 tail,
    changes (m, s) forgotten (m, s1) ∧ Forall (expired_at now) forgotten ∧
    changes (m, s1) tail (m, s') ∧ begin_tail m (server_ledger m s1) i r tail.
Proof.
  intros Hs Hn Hi. unfold wl_rpc_server_begin, server_initialized. rewrite (vi_magic s Hs), Z.eqb_refl, Hi.
  cbn [negb]. destruct (pending_duplicate s i) as [[k p]|] eqn:Ed.
  { destruct (pending_duplicate_Some m s i k p Hs Ed) as [g Hg].
    exists [], s, []. split; [apply changes_nil|]. split; [done|]. split; [apply changes_nil|].
    destruct (identity_equal (pd_identity p) i) eqn:Ei; (split; [done|]).
    - apply identity_equal_spec in Ei. rewrite Ei in Hg. by exists g.
    - eexists. split; [done|]. cbn. intros E. by apply identity_equal_spec in E; rewrite E in Ei. }
  pose proof (history_lookup_changes m s now i [] (history s) (correlated s) Hs (banks s)) as Hl.
  pose proof (history_lookup_length now (sv_cache_ttl_ms s) i (history s)) as Elen.
  destruct (history_lookup _ _ _ _) as [bank found]. cbn [fst] in Elen. destruct Hl as ((mvs & Hc & Hx) & Hf). cbn [app] in Hc.
  pose proof (changes_inv _ _ _ Hc Hs) as Hs1. cbn [snd] in Hs1.
  assert (pending_duplicate (s <| sv_responses := bank ++ correlated s |>) i = None) as Hd1
    by (by apply (pending_duplicate_frame s)).
  assert (sv_responses (s <| sv_responses := bank ++ correlated s |>) = bank ++ correlated s) as Hres by done.
  assert (sv_next_generation (s <| sv_responses := bank ++ correlated s |>) < 2 ^ 64 - 1) as Hn1 by done.
  assert (∀ k, is_history (s <| sv_responses := bank ++ correlated s |>) k = true ↔ (k < length bank)%nat) as Hb.
  { intros k. change (is_history (s <| sv_responses := _ |>) k) with (is_history s k).
    rewrite Elen, history_length by done. unfold is_history. rewrite Z.ltb_lt.
    pose proof (vi_cache_range s Hs). lia. }
  revert Hc Hs1 Hd1 Hres Hn1 Hb. generalize (s <| sv_responses := bank ++ correlated s |>).
  intros s1 Hc Hs1 Hd1 Hres Hn1 Hb.
  destruct found as [[k c]|].
  - destruct Hf as (Hk & Hl & Hkey).
    assert (sv_responses s1 !! k = Some c) as Hk1 by (rewrite Hres; by apply lookup_app_l_Some).
    assert (rc_active c = 2) as H2.
    { apply (history_active s1 k c (slot_live s1 k c Hs1 Hk1 Hl)). apply Hb. by apply lookup_lt_Some in Hk. }
    pose proof (pending_duplicate_None s1 i k c Hs1 Hd1 Hk1 H2 Hkey) as Hst.
    destruct (identity_equal (rc_identity c) i) eqn:Ei.
    + apply identity_equal_spec in Ei.
      destruct (replay_changes m s1 i k c Hs1 Hk1 H2 Ei Hst) as (tail & Ht & Htail).
      by exists mvs, s1, tail.
    + exists mvs, s1, []. split; [done|]. split; [done|]. split; [apply changes_nil|]. split; [done|].
      rewrite <- Hkey, (slot_recorded m s1 k c Hs1 Hk1 H2). eexists. split; [done|]. cbn.
      intros E. by apply identity_equal_spec in E; rewrite E in Ei.
  - assert (server_ledger m s1 !! key i = None) as Hnone.
    { apply server_ledger_None; [done|]. intros j x Hj Ha. rewrite Hres in Hj.
      apply lookup_app_Some in Hj as [Hj|[Hge Hj]]; [apply (Hf j x Hj); lia|].
      apply (history_active s1 j x) in Ha; [apply Hb in Ha; lia|].
      apply slot_live; [done| |lia]. rewrite Hres. by apply lookup_app_Some; right. }
    destruct (pending_free s1) as [[k p]|] eqn:Ep;
      [|exists mvs, s1, []; repeat split; try done; apply changes_nil].
    destruct (history_target s1) as [[r c]|] eqn:Et;
      [|exists mvs, s1, []; repeat split; try done; apply changes_nil].
    pose proof (new_changes m s1 i now k p r c Hs1 Hn1 Hi Ep Et Hnone) as Hnew.
    destruct (server_admit _ _ _ _ _ _ _) as [s' rq]. destruct Hnew as (tail & Ht & Htail).
    by exists mvs, s1, tail.
Qed.

(** ** The other operations *)

Lemma correlate_changes m s i now :
  server_inv s → sv_next_generation s < 2 ^ 64 - 1 →
  changes (m, s) [] (m, (wl_rpc_server_begin_correlate s i now).1).
Proof.
  intros Hs Hn. unfold wl_rpc_server_begin_correlate. destruct (negb _); [apply changes_nil|].
  destruct (negb (identity_valid i) || _) eqn:Ei; [apply changes_nil|].
  destruct (pending_free s) as [[k p]|] eqn:Ep; [|apply changes_nil].
  destruct (list_find _ _) as [[j c]|] eqn:Ef; [|apply changes_nil].
  apply list_find_Some in Ep as (Hk & Hp & _). apply list_find_Some in Ef as (Hj & Hc & _).
  set (r := (Z.to_nat (sv_cache_slot_count s) + j)%nat).
  assert (sv_responses s !! r = Some c) as Hr by (unfold correlated in Hj; by rewrite lookup_drop in Hj).
  apply (slot_free s r c Hs Hr) in Hc as ->.
  assert (is_history s r = false) as Hh
    by (unfold is_history, r; apply Z.ltb_ge; pose proof (vi_cache_range s Hs); lia).
  autorewrite with branch in Ei.
  assert (change (m, s) (on_record s r (HmAdmit i (sv_next_generation s)))
            (m, (server_admit s k r (bank_capacity s r) (bank_active s r) i now).1)) as Had.
  { apply (change_admit m s k p); try done; [tauto|]. by rewrite Hh. }
  unfold on_record, bank_capacity, bank_active in Had. rewrite Hh in Had. apply changes_one in Had.
  by destruct (server_admit s k r _ _ i now).
Qed.

(** A request that resolves is a pending entry with its reserved slot. *)
Lemma resolve_reserves s rq k r :
  server_inv s → server_resolve_pending s rq = inr (k, r) →
  ∃ p c, sv_pending s !! k = Some p ∧ reserves s p r c ∧ response_at s r = c ∧
         rc_identity c = rq_identity rq ∧ rc_generation c = rq_generation rq.
Proof.
  intros Hs. unfold server_resolve_pending. destruct (list_find _ _) as [[j p]|] eqn:Ef; [|done].
  apply list_find_Some in Ef as (Hj & [Ha Heq] & _).
  destruct (pending_live s j p Hs Hj Ha) as (r' & c & Hres). pose proof Hres as (_ & Hp & Hr & _ & Ei & Eg).
  rewrite Hp. destruct (_ || _); [done|]. intros [= <- <-].
  exists p, c. split; [done|]. split; [done|]. unfold response_at. rewrite Hr. split; [done|].
  unfold request_equal in Heq. rewrite andb_true_iff, Z.eqb_eq, identity_equal_spec in Heq.
  split; [rewrite <- Ei; symmetry; tauto|lia].
Qed.

(** An execution on record that has no answer yet. *)
Definition executing (L : ledger) (rq : request) : Prop :=
  L !! key (rq_identity rq) = Some (mk_entry (rq_identity rq) (rq_generation rq) None).

(** The result of a completion is the view of the answer; for an execution on
    record it is the answer that goes on record. *)
Definition answer_moves (m : mem) (L : ledger) (rq : request) (status : Z) (rs : rpc_err + response)
    (now : Z) (mvs : list history_move) : Prop :=
  match rs with
  | inl _ => mvs = []
  | inr rs =>
      rs_identity rs = rq_identity rq ∧ rs_generation rs = rq_generation rq ∧
      rs_application_status rs = status ∧
      (¬ executing L rq ∧ mvs = [] ∨
       executing L rq ∧
       mvs = [HmAnswer (rq_identity rq) (rq_generation rq) status (response_bytes m rs) now])
  end.

(** The reserved slot of a request is in the history bank exactly when the
    execution is on record. *)
Lemma reserved_executing m s p r c rq :
  server_inv s → reserves s p r c → rc_identity c = rq_identity rq →
  rc_generation c = rq_generation rq → executing (server_ledger m s) rq ↔ is_history s r = true.
Proof.
  intros Hs (_ & _ & Hr & [Hl Hst] & _) Ei Eg. unfold executing.
  pose proof (history_active s r c (slot_live s r c Hs Hr Hl)) as Hh. split.
  - intros (j & x & Hj & Hx & _ & Ex)%server_ledger_Some; [|done]. apply Hh.
    assert (rc_generation x = rc_generation c) as E.
    { unfold slot_entry in Ex. injection Ex as _ Ex _. congruence. }
    assert (j = r) as -> by (apply (vi_generations s Hs j r x c); try done; lia). congruence.
  - intros Ht%Hh. rewrite <- Ei, <- Eg, (slot_recorded m s r c Hs Hr Ht). unfold slot_entry.
    by rewrite bool_decide_eq_true_2.
Qed.

Lemma settle_changes m m' s k p r c rq status length now :
  server_inv s → sv_pending s !! k = Some p → reserves s p r c → response_at s r = c →
  rc_identity c = rq_identity rq → rc_generation c = rq_generation rq → 0 <= length <= rc_capacity c →
  (∀ a, ¬ (rc_data c <= a < rc_data c + rc_capacity c) → m' a = m a) →
  let '(s', rs) := server_commit_reserved s k r status length now in
  ∃ mvs, changes (m, s) mvs (m', s') ∧ answer_moves m' (server_ledger m s) rq status (inr rs) now mvs.
Proof.
  intros Hs Hk Hr Hat Ei Eg Hlen Hm. unfold server_commit_reserved. rewrite Hat. fold (answered c status length now).
  eexists. split; [apply changes_one, (change_answer m m' s k p r c status length now); done|].
  split; [done|]. split; [done|]. split; [done|]. unfold on_record. rewrite Ei, Eg.
  pose proof (reserved_executing m s p r c rq Hs Hr Ei Eg) as He.
  destruct (is_history s r); [right|left]; (split; [tauto || (intros H%He; done)|done]).
Qed.

Lemma commit_changes m s b status length now :
  server_inv s → 0 <= length →
  let '(s', rs) := wl_rpc_server_response_commit s b status length now in
  ∃ mvs, changes (m, s) mvs (m, s') ∧ answer_moves m (server_ledger m s) (rb_request b) status rs now mvs.
Proof.
  intros Hs Hlen. unfold wl_rpc_server_response_commit.
  destruct (negb _); [exists []; split; [apply changes_nil|done]|].
  destruct (negb _); [exists []; split; [apply changes_nil|done]|].
  destruct (server_resolve_pending s (rb_request b)) as [e|[k r]] eqn:Er;
    [exists []; split; [apply changes_nil|done]|].
  destruct (resolve_reserves s _ k r Hs Er) as (p & c & Hk & Hr & Hat & Ei & Eg). rewrite Hat.
  destruct (rc_capacity c <? length) eqn:El; [exists []; split; [apply changes_nil|done]|].
  destruct (_ || _); [exists []; split; [apply changes_nil|done]|].
  pose proof (settle_changes m m s k p r c (rb_request b) status length now Hs Hk Hr Hat Ei Eg ltac:(lia)) as H.
  destruct (server_commit_reserved _ _ _ _ _ _) as [s' rs]. by apply H.
Qed.

Lemma complete_changes m s rq status payload length now :
  server_inv s → 0 <= length →
  let '(m', s', rs) := wl_rpc_server_complete m s rq status payload length now in
  ∃ mvs, changes (m, s) mvs (m', s') ∧ answer_moves m' (server_ledger m s) rq status rs now mvs.
Proof.
  intros Hs Hlen. unfold wl_rpc_server_complete.
  destruct (negb (server_initialized s)); [exists []; split; [apply changes_nil|done]|].
  destruct (_ || _); [exists []; split; [apply changes_nil|done]|].
  destruct (server_resolve_pending s rq) as [e|[k r]] eqn:Er; [exists []; split; [apply changes_nil|done]|].
  destruct (resolve_reserves s _ k r Hs Er) as (p & c & Hk & Hr & Hat & Ei & Eg). rewrite Hat.
  destruct (rc_capacity c <? length) eqn:El; [exists []; split; [apply changes_nil|done]|].
  match goal with |- context [if ?b then memmove m ?d ?a ?n else m] =>
    set (m' := if b then memmove m d a n else m) end.
  assert (∀ a, ¬ (rc_data c <= a < rc_data c + rc_capacity c) → m' a = m a) as Hm.
  { intros a Ha. unfold m'. case_match; [|done]. unfold memmove. apply mwrite_out.
    rewrite mread_length. lia. }
  pose proof (settle_changes m m' s k p r c rq status length now Hs Hk Hr Hat Ei Eg ltac:(lia) Hm) as H.
  destruct (server_commit_reserved _ _ _ _ _ _) as [s' rs]. by apply H.
Qed.

(** *** The response queue *)

Lemma response_find_live s rs k c :
  server_response_find s rs = Some (k, c) →
  sv_responses s !! k = Some c ∧ rc_active c ≠ 0 ∧ rc_identity c = rs_identity rs ∧
  rc_generation c = rs_generation rs.
Proof.
  unfold server_response_find. destruct (negb _); [done|]. intros (Hk & Hm & _)%list_find_Some.
  unfold response_matches in Hm. rewrite !andb_true_iff, negb_true_iff, identity_equal_spec in Hm.
  split; [done|]. split; [lia|]. split; [tauto|lia].
Qed.

(** A slot that is on its way out leaves the history alone. *)
Lemma deliver_quiet s k c d :
  rc_delivery_state c ≠ WL_RPC_RESPONSE_DELIVERED → d ≠ WL_RPC_RESPONSE_DELIVERED →
  deliver_moves s k c d = [].
Proof. intros H1 H2. unfold deliver_moves. by rewrite !bool_decide_eq_false_2. Qed.

Lemma acquire_changes m s : changes (m, s) [] (m, (wl_rpc_server_response_acquire s).1).
Proof.
  unfold wl_rpc_server_response_acquire. destruct (negb _); [apply changes_nil|].
  destruct (oldest _ _) as [[k c]|] eqn:Eo; [|apply changes_nil].
  apply oldest_Some in Eo as [Hk Hc]. unfold response_ready in Hc. autorewrite with branch in Hc.
  destruct Hc as [Hl Hst]. rewrite <- (deliver_quiet s k c WL_RPC_RESPONSE_ACQUIRED) by congruence.
  apply deliver_keep; try done; congruence.
Qed.

Lemma defer_changes m s rs : changes (m, s) [] (m, (wl_rpc_server_response_defer s rs).1).
Proof.
  unfold wl_rpc_server_response_defer. destruct (negb _); [apply changes_nil|].
  destruct (server_response_find s rs) as [[k c]|] eqn:Ef; [|apply changes_nil].
  apply response_find_live in Ef as (Hk & Hl & _). case_bool_decide as Hst; [apply changes_nil|].
  rewrite <- (deliver_quiet s k c WL_RPC_RESPONSE_READY) by congruence.
  apply deliver_keep; try done; congruence.
Qed.

Lemma submitted_changes m s rs h : changes (m, s) [] (m, (wl_rpc_server_response_submitted s rs h).1).
Proof.
  unfold wl_rpc_server_response_submitted. destruct (negb _); [apply changes_nil|].
  destruct (h =? 0) eqn:Eh; [apply changes_nil|].
  destruct (server_response_find s rs) as [[k c]|] eqn:Ef; [|apply changes_nil].
  apply response_find_live in Ef as (Hk & Hl & _). case_bool_decide as Hst; [apply changes_nil|].
  destruct (list_find _ _) eqn:El; [apply changes_nil|].
  rewrite <- (deliver_quiet s k c WL_RPC_RESPONSE_IN_FLIGHT) by congruence.
  apply changes_one, change_deliver; try done; [congruence|]. intros _. split; [lia|].
  intros j x Hj Hx [Hxl Hxf] E. apply list_find_None in El. rewrite Forall_lookup in El.
  apply (El j (j, x)); [|done]. by rewrite list_lookup_imap, Hx.
Qed.

(** Delivery of a response: on record it stays as delivered, otherwise it is freed. *)
Definition delivery_moves (mvs : list history_move) : Prop := mvs = [] ∨ ∃ k, mvs = [HmDelivered k].

Lemma delivered_moves s k c : delivery_moves (deliver_moves s k c WL_RPC_RESPONSE_DELIVERED).
Proof.
  unfold delivery_moves, deliver_moves, on_record.
  rewrite (bool_decide_eq_true_2 (WL_RPC_RESPONSE_DELIVERED = WL_RPC_RESPONSE_DELIVERED)) by done.
  destruct (bool_decide _); [by left|]. destruct (is_history s k); [right; by eexists|by left].
Qed.

(** Freeing a slot of the correlate bank is no move. *)
Lemma free_correlate m s k c :
  server_inv s → sv_responses s !! k = Some c → rc_active c = 1 →
  rc_delivery_state c ≠ WL_RPC_RESPONSE_RESERVED → changes (m, s) [] (m, set_response s k response_slot_zero).
Proof.
  intros Hs Hk H1 Hst. assert (is_history s k = false) as Hh.
  { apply not_true_is_false. rewrite <- (history_active s k c (slot_live s k c Hs Hk ltac:(lia))). lia. }
  assert (on_record s k (HmForget (key (rc_identity c)) SessionOver) = []) as <- by (unfold on_record; by rewrite Hh).
  apply changes_one, change_free; try done. lia.
Qed.

Lemma active_cases s k c : live_ok s k c → rc_active c = 1 ∨ rc_active c = 2.
Proof. intros []. unfold bank_active in *. case_match; auto. Qed.

Lemma sent_changes m s rs :
  server_inv s → ∃ mvs, changes (m, s) mvs (m, (wl_rpc_server_response_sent s rs).1) ∧ delivery_moves mvs.
Proof.
  intros Hs. unfold wl_rpc_server_response_sent.
  destruct (negb _); [exists []; split; [apply changes_nil|by left]|].
  destruct (server_response_find s rs) as [[k c]|] eqn:Ef; [|exists []; split; [apply changes_nil|by left]].
  apply response_find_live in Ef as (Hk & Hl & _).
  case_bool_decide as Hst; [exists []; split; [apply changes_nil|by left]|].
  destruct (active_cases s k c (slot_live s k c Hs Hk Hl)) as [E| E]; rewrite E; cbn [Z.eqb Pos.eqb].
  - exists []. split; [|by left]. apply (free_correlate m s k c); try done. congruence.
  - eexists. split; [|apply delivered_moves]. apply deliver_keep; try done; congruence.
Qed.

Lemma tx_event_changes m s ev :
  server_inv s → ∃ mvs, changes (m, s) mvs (m, (wl_rpc_server_on_tx_event s ev).1.1) ∧ delivery_moves mvs.
Proof.
  intros Hs. unfold wl_rpc_server_on_tx_event.
  destruct (negb _); [exists []; split; [apply changes_nil|by left]|].
  destruct (negb _); [exists []; split; [apply changes_nil|by left]|].
  destruct (_ =? 0); [exists []; split; [apply changes_nil|by left]|].
  destruct (list_find _ _) as [[k c]|] eqn:Ef; [|exists []; split; [apply changes_nil|by left]].
  apply list_find_Some in Ef as (Hk & (Hl & Hst & _) & _).
  destruct (active_cases s k c (slot_live s k c Hs Hk Hl)) as [E| E]; rewrite E; cbn [Z.eqb Pos.eqb fst].
  - exists []. split; [|by left]. apply (free_correlate m s k c); try done. congruence.
  - eexists. split; [|apply delivered_moves]. apply changes_one, change_deliver; try done; congruence.
Qed.

(** *** Requests and sessions given up *)

Lemma release_reserved_eq s p r c :
  reserves s p r c → release_reserved s p = set_response s r response_slot_zero.
Proof.
  intros (_ & Hp & Hr & [Hl Hst] & _ & Eg). unfold release_reserved, response_at. rewrite Hp, Hr. cbn.
  rewrite (bool_decide_eq_true_2 _ Hst), Eg, Z.eqb_refl. by destruct (_ =? 0) eqn:E; [lia|].
Qed.

Lemma drop_changes m s k p why :
  server_inv s → sv_pending s !! k = Some p → pd_active p = true → drop_ok why →
  ∃ mvs, changes (m, s) mvs (m, set_pending (release_reserved s p) k pending_zero) ∧
         (mvs = [] ∨ mvs = [HmForget (key (pd_identity p)) why]).
Proof.
  intros Hs Hk Ha Hw. destruct (pending_live s k p Hs Hk Ha) as (r & c & Hr).
  rewrite (release_reserved_eq s p r c Hr). eexists. split; [by apply changes_one, (change_drop m s k p r c)|].
  destruct Hr as (_ & _ & _ & _ & -> & _). unfold on_record. destruct (is_history s r); [by right|by left].
Qed.

Lemma abandon_changes m s rq :
  server_inv s →
  ∃ mvs, changes (m, s) mvs (m, (wl_rpc_server_abandon s rq).1) ∧
         (mvs = [] ∨ mvs = [HmForget (key (rq_identity rq)) Abandoned]).
Proof.
  intros Hs. unfold wl_rpc_server_abandon.
  destruct (negb _); [exists []; split; [apply changes_nil|by left]|].
  destruct (negb _); [exists []; split; [apply changes_nil|by left]|].
  destruct (list_find _ _) as [[k p]|] eqn:Ef; [|exists []; split; [apply changes_nil|by left]].
  apply list_find_Some in Ef as (Hk & [Ha He] & _).
  unfold request_equal in He. rewrite andb_true_iff, identity_equal_spec in He. destruct He as [_ ->].
  by apply (drop_changes m s k p); [..|left].
Qed.

Definition session_over (session : Z) (mv : history_move) : Prop :=
  ∃ k, mv = HmForget k SessionOver ∧ k.1 = session.

(** No request of the session is pending in entry [k]. *)
Definition cleared (session : Z) (s : server) (k : nat) : Prop :=
  ∀ p, sv_pending s !! k = Some p → pd_active p = true → id_peer_session_id (pd_identity p) ≠ session.

Lemma discard_pending_one m session s n k :
  server_inv s →
  ∃ mvs s1 n1, discard_pending session (s, n) k = (s1, n1) ∧ changes (m, s) mvs (m, s1) ∧
    Forall (session_over session) mvs ∧ cleared session s1 k ∧
    ∀ j, cleared session s j → cleared session s1 j.
Proof.
  intros Hs. unfold discard_pending.
  destruct (sv_pending s !! k) as [p|] eqn:Ep; cbn [default from_option id].
  2: { exists [], s, n. split; [done|]. split; [apply changes_nil|]. split; [done|].
       split; [intros p; congruence|done]. }
  destruct (_ || _) eqn:E; autorewrite with branch in E.
  - exists [], s, n. split; [done|]. split; [apply changes_nil|]. split; [done|]. split; [|done].
    intros q Hq Ha. assert (q = p) as -> by congruence. destruct E as [E|E]; [congruence|done].
  - destruct E as [Ha Es]. destruct (drop_changes m s k p SessionOver Hs Ep Ha) as (mvs & Hc & Hm); [by right|].
    do 3 eexists. split; [done|]. split; [exact Hc|]. split.
    { destruct Hm as [->| ->]; [done|]. repeat constructor. eexists. by split. }
    assert (∀ j q, sv_pending (set_pending (release_reserved s p) k pending_zero) !! j = Some q →
              pd_active q = true → j ≠ k ∧ sv_pending s !! j = Some q) as Hsub.
    { intros j q [(_ & <- & _)|[Hne Hq]]%list_lookup_insert_Some Hqa; [done|]. split; [done|].
      unfold release_reserved in Hq. by destruct (pd_response p); repeat case_match. }
    split; [intros q Hq Hqa; by destruct (Hsub k q Hq Hqa)|]. intros j Hj q Hq Hqa.
    destruct (Hsub j q Hq Hqa) as [_ Hq']. by apply Hj.
Qed.

Lemma discard_pending_changes m session ks s n :
  server_inv s →
  let '(s', _) := foldl (discard_pending session) (s, n) ks in
  (∃ mvs, changes (m, s) mvs (m, s') ∧ Forall (session_over session) mvs) ∧
  ∀ k, k ∈ ks ∨ cleared session s k → cleared session s' k.
Proof.
  revert s n. induction ks as [|k ks IH]; intros s n Hs; cbn [foldl].
  { split; [exists []; split; [apply changes_nil|done]|]. intros k [?%not_elem_of_nil|]; done. }
  destruct (discard_pending_one m session s n k Hs) as (mvs & s1 & n1 & -> & Hc & Hm & Hk & Hj).
  specialize (IH s1 n1 (changes_inv _ _ _ Hc Hs)). destruct (foldl _ _ ks) as [s' n'].
  destruct IH as ((mvs' & Hc' & Hm') & Hcl). split.
  - exists (mvs ++ mvs'). split; [by eapply changes_app|by apply Forall_app].
  - intros j [[->|Hjs]%elem_of_cons|Hjc]; apply Hcl; auto.
Qed.

(** Once no request of the session is pending, its responses can be freed. *)
Lemma discard_response_changes m session ks s n hs :
  server_inv s → (∀ k, cleared session s k) →
  let '(s', _, _) := foldl (discard_response session) (s, n, hs) ks in
  ∃ mvs, changes (m, s) mvs (m, s') ∧ Forall (session_over session) mvs.
Proof.
  revert s n hs. induction ks as [|k ks IH]; intros s n hs Hs Hcl; cbn [foldl].
  { exists []. split; [apply changes_nil|done]. }
  unfold discard_response at 2. unfold response_at.
  destruct (sv_responses s !! k) as [c|] eqn:Ek; cbn [default from_option id]; [|by apply IH].
  destruct (_ || _) eqn:E; autorewrite with branch in E; [by apply IH|]. destruct E as [Hl Es].
  assert (rc_delivery_state c ≠ WL_RPC_RESPONSE_RESERVED) as Hst.
  { intros Hst. destruct (vi_reserved s Hs k c Ek (conj Hl Hst)) as (j & p & Hj & Ha & _ & _ & _ & Ei & _).
    apply (Hcl j p Hj Ha). congruence. }
  assert (changes (m, s) (on_record s k (HmForget (key (rc_identity c)) SessionOver))
            (m, set_response s k response_slot_zero)) as Hc by (by apply changes_one, change_free).
  match goal with |- context [foldl _ (_, ?n1, ?hs1) ks] =>
    specialize (IH (set_response s k response_slot_zero) n1 hs1 (changes_inv _ _ _ Hc Hs) Hcl) end.
  destruct (foldl _ _ ks) as [[s' n'] hs']. destruct IH as (mvs & Hc' & Hm).
  eexists. split; [by eapply changes_app|]. apply Forall_app. split; [|done].
  unfold on_record. destruct (is_history s k); [|done]. repeat constructor. eexists. by split.
Qed.

Lemma discard_changes m s session cancel :
  server_inv s →
  ∃ mvs, changes (m, s) mvs (m, (wl_rpc_server_discard_session s session cancel).1) ∧
         Forall (session_over session) mvs.
Proof.
  intros Hs. unfold wl_rpc_server_discard_session.
  destruct (negb _); [exists []; split; [apply changes_nil|done]|].
  destruct (_ =? 0); [exists []; split; [apply changes_nil|done]|].
  pose proof (discard_pending_changes m session (seq 0 (Z.to_nat (sv_pending_slot_count s))) s 0 Hs) as H1.
  destruct (foldl (discard_pending session) _ _) as [s1 n1]. destruct H1 as ((mvs & Hc & Hm) & Hcl).
  assert (∀ k, cleared session s1 k) as Hall.
  { intros k. apply Hcl. destruct (decide (k < Z.to_nat (sv_pending_slot_count s))%nat) as [Hk|Hk].
    - left. apply elem_of_seq. lia.
    - right. intros p Hp%lookup_lt_Some. pose proof (vi_pending_count s Hs) as E. unfold len in E. lia. }
  pose proof (discard_response_changes m session (seq 0 (Z.to_nat (server_response_count s))) s1 0 []
                (changes_inv _ _ _ Hc Hs) Hall) as H2.
  destruct (foldl (discard_response session) _ _) as [[s2 n2] hs]. destruct H2 as (mvs' & Hc' & Hm').
  exists (mvs ++ mvs'). split; [by eapply changes_app|by apply Forall_app].
Qed.

Lemma peer_changes m s peer session cancel :
  server_inv s →
  ∃ mvs, changes (m, s) mvs (m, (wl_rpc_peer_observe s peer session cancel).1.1) ∧
         Forall (session_over peer) mvs.
Proof.
  intros Hs. unfold wl_rpc_peer_observe.
  destruct (negb (server_initialized s)); [exists []; split; [apply changes_nil|done]|].
  destruct (session =? 0); [exists []; split; [apply changes_nil|done]|].
  destruct (peer =? session); [exists []; split; [apply changes_nil|done]|].
  destruct (negb (peer =? 0)); [|exists []; split; [apply changes_nil|done]].
  pose proof (discard_changes m s peer cancel Hs) as H.
  by destruct (wl_rpc_server_discard_session s peer cancel) as [s1 [e|[d hs]]].
Qed.

Lemma expired_acquire_changes m s now : changes (m, s) [] (m, (wl_rpc_server_expired_acquire s now).1).
Proof.
  unfold wl_rpc_server_expired_acquire. destruct (negb _); [apply changes_nil|].
  destruct (_ =? 0); [apply changes_nil|].
  destruct (list_find _ _) as [[k p]|] eqn:Ef; [|apply changes_nil].
  apply list_find_Some in Ef as (Hk & (Ha & _) & _). by apply changes_one, change_report.
Qed.

Lemma poll_changes m s now :
  server_inv s →
  ∃ mvs, changes (m, s) mvs (m, (wl_rpc_server_poll s now).1) ∧ Forall (expired_at now) mvs.
Proof.
  intros Hs. unfold wl_rpc_server_poll, server_expire.
  destruct (negb _); [exists []; split; [apply changes_nil|done]|].
  pose proof (expire_changes m s now [] (history s) (correlated s) 0 Hs (banks s)) as H.
  by destruct (expire_slots _ _ _ _).
Qed.

Lemma observer_changes m s f d : changes (m, s) [] (m, (wl_rpc_server_set_response_observer s f d).1).
Proof.
  unfold wl_rpc_server_set_response_observer. destruct (negb _); [apply changes_nil|].
  apply changes_one, change_observer.
Qed.
