(* ===== verification/RpcOnce.v ===== *)
(** At-most-once execution and replay.

    Runs of the RPC server: any sequence of its operations and of writes of the
    application to its own memory.  The theorems say what a peer that retransmits
    a request can count on: one execution, the recorded answer byte for byte, and
    a conflict for a different request under the same operation id, until the
    entry is given up in one of the ways the interface documents. *)
From stdpp Require Import gmap.
From S2P Require Import Prelude Slots Clock Link Rpc RpcServer RpcHistory RpcLedger RpcServing.

(** ** Runs *)

Inductive server_op :=
  | SvBegin (i : identity) (now : Z)
  | SvBeginCorrelate (i : identity) (now : Z)
  | SvCommit (b : response_buffer) (status length now : Z)
  | SvComplete (rq : request) (status payload length now : Z)
  | SvReject (rq : request) (status payload length now : Z)
  | SvAcquire
  | SvDefer (rs : response)
  | SvSubmitted (rs : response) (handle : Z)
  | SvSent (rs : response)
  | SvTxEvent (ev : wl_event)
  | SvObserver (observer user_data : Z)
  | SvDiscard (session : Z) (cancel : bool)
  | SvPeer (peer session : Z) (cancel : bool)
  | SvAbandon (rq : request)
  | SvExpiredAcquire (now : Z)
  | SvPoll (now : Z)
  | SvWrite (a : Z) (bytes : list Z).

(** What the caller sees of an admission or of a completion. *)
Inductive server_event :=
  | EvBegin (r : rpc_err + disposition * request * response)
  | EvAnswer (rq : request) (status : Z) (r : rpc_err + response)
  | EvOther.

Definition server_exec (x : mem * server) (op : server_op) : mem * server * server_event :=
  let '(m, s) := x in
  match op with
  | SvBegin i now => let '(s1, r) := wl_rpc_server_begin s i now in (m, s1, EvBegin r)
  | SvBeginCorrelate i now => (m, (wl_rpc_server_begin_correlate s i now).1, EvOther)
  | SvCommit b status length now =>
      let '(s1, r) := wl_rpc_server_response_commit s b status length now in
      (m, s1, EvAnswer (rb_request b) status r)
  | SvComplete rq status payload length now =>
      let '(m1, s1, r) := wl_rpc_server_complete m s rq status payload length now in
      (m1, s1, EvAnswer rq status r)
  | SvReject rq status payload length now =>
      let '(m1, s1, r) := wl_rpc_server_reject m s rq status payload length now in
      (m1, s1, EvAnswer rq status r)
  | SvAcquire => (m, (wl_rpc_server_response_acquire s).1, EvOther)
  | SvDefer rs => (m, (wl_rpc_server_response_defer s rs).1, EvOther)
  | SvSubmitted rs handle => (m, (wl_rpc_server_response_submitted s rs handle).1, EvOther)
  | SvSent rs => (m, (wl_rpc_server_response_sent s rs).1, EvOther)
  | SvTxEvent ev => (m, (wl_rpc_server_on_tx_event s ev).1.1, EvOther)
  | SvObserver f d => (m, (wl_rpc_server_set_response_observer s f d).1, EvOther)
  | SvDiscard session cancel => (m, (wl_rpc_server_discard_session s session cancel).1, EvOther)
  | SvPeer peer session cancel => (m, (wl_rpc_peer_observe s peer session cancel).1.1, EvOther)
  | SvAbandon rq => (m, (wl_rpc_server_abandon s rq).1, EvOther)
  | SvExpiredAcquire now => (m, (wl_rpc_server_expired_acquire s now).1, EvOther)
  | SvPoll now => (m, (wl_rpc_server_poll s now).1, EvOther)
  | SvWrite a bytes => (mwrite m a bytes, s, EvOther)
  end.

Definition server_step (x : mem * server) (op : server_op) : mem * server := (server_exec x op).1.

Definition server_run : list server_op → mem * server → mem * server := flip (foldl server_step).

(** The contract of the caller: lengths are those of a [size_t], and the
    application does not write to a response it has published (the lifetime rule
    of [wl_rpc_server_response_buffer_t]). *)
Definition server_may (x : mem * server) (op : server_op) : Prop :=
  match op with
  | SvCommit _ _ length _ | SvComplete _ _ _ length _ | SvReject _ _ _ length _ => 0 <= length
  | SvWrite a bytes =>
      ∀ k c b, published x.2 k c b → ¬ (a <= b < a + len bytes)
  | _ => True
  end.

Fixpoint server_ok (ops : list server_op) (x : mem * server) : Prop :=
  match ops with
  | [] => True
  | op :: ops => server_may x op ∧ server_ok ops (server_step x op)
  end.

Lemma server_run_snoc ops op x : server_run (ops ++ [op]) x = server_step (server_run ops x) op.
Proof. unfold server_run, flip. by rewrite foldl_app. Qed.

Lemma server_run_app a b x : server_run (a ++ b) x = server_run b (server_run a x).
Proof. unfold server_run, flip. apply foldl_app. Qed.

Lemma server_ok_app a b x : server_ok (a ++ b) x ↔ server_ok a x ∧ server_ok b (server_run a x).
Proof.
  revert x. induction a as [|op a IH]; intros x; cbn [app server_ok]; [tauto|].
  rewrite IH. change (server_run (op :: a) x) with (server_run a (server_step x op)). tauto.
Qed.

(** ** Generations never run out in a run of realistic length *)

Lemma next_fold {A} (f : server * A → nat → server * A) ks x :
  (∀ y k, sv_next_generation (f y k).1 = sv_next_generation y.1) →
  sv_next_generation (foldl f x ks).1 = sv_next_generation x.1.
Proof. intros Hf. revert x. induction ks as [|k ks IH]; intros x; [done|]. cbn. by rewrite IH, Hf. Qed.

Lemma release_next s p : sv_next_generation (release_reserved s p) = sv_next_generation s.
Proof. unfold release_reserved. by repeat case_match. Qed.

Lemma discard_next s session cancel :
  sv_next_generation (wl_rpc_server_discard_session s session cancel).1 = sv_next_generation s.
Proof.
  unfold wl_rpc_server_discard_session. destruct (negb _); [done|]. destruct (_ =? 0); [done|].
  pose proof (next_fold (discard_pending session) (seq 0 (Z.to_nat (sv_pending_slot_count s))) (s, 0)) as H1.
  destruct (foldl (discard_pending session) _ _) as [s1 n1]. cbn [fst] in H1.
  assert (∀ ks s n hs, sv_next_generation (foldl (discard_response session) (s, n, hs) ks).1.1 =
            sv_next_generation s) as H2.
  { intros ks. induction ks as [|k ks IH]; intros s' n hs; [done|]. cbn [foldl]. unfold discard_response at 2.
    destruct (_ || _); by rewrite IH. }
  specialize (H2 (seq 0 (Z.to_nat (server_response_count s))) s1 0 []).
  destruct (foldl (discard_response session) _ _) as [[s2 n2] hs]. cbn [fst] in *. rewrite H2, H1; [done|].
  intros [s' n] k. unfold discard_pending. destruct (_ || _); [done|]. apply release_next.
Qed.

Lemma admit_next s k r capacity active i now :
  0 < sv_next_generation s < 2 ^ 64 - 1 →
  sv_next_generation (server_admit s k r capacity active i now).1 = sv_next_generation s + 1.
Proof. intros H. by rewrite server_admit_eq. Qed.

Lemma server_begin_next s i now :
  0 < sv_next_generation s < 2 ^ 64 - 1 →
  sv_next_generation (wl_rpc_server_begin s i now).1 <= sv_next_generation s + 1.
Proof.
  intros Hn. unfold wl_rpc_server_begin. destruct (negb _); [cbn; lia|]. destruct (negb _); [cbn; lia|].
  destruct (pending_duplicate s i) as [[??]|]; [cbn; lia|].
  destruct (history_lookup _ _ _ _) as [bank [[k c]|]].
  - destruct (identity_equal _ _); [|cbn; lia]. destruct (bool_decide _); cbn; lia.
  - destruct (pending_free _) as [[p ?]|]; [|cbn; lia]. destruct (history_target _) as [[r ?]|]; [|cbn; lia].
    match goal with |- context [server_admit ?s1 p r ?cap 2 i now] =>
      pose proof (admit_next s1 p r cap 2 i now Hn) as E; destruct (server_admit s1 p r cap 2 i now) end.
    cbn in *. lia.
Qed.

Lemma correlate_next s i now :
  0 < sv_next_generation s < 2 ^ 64 - 1 →
  sv_next_generation (wl_rpc_server_begin_correlate s i now).1 <= sv_next_generation s + 1.
Proof.
  intros Hn. unfold wl_rpc_server_begin_correlate. destruct (negb _); [cbn; lia|].
  destruct (_ || _); [cbn; lia|].
  destruct (pending_free _) as [[p ?]|]; [|cbn; lia]. destruct (list_find _ _) as [[j ?]|]; [|cbn; lia].
  match goal with |- context [server_admit s p ?r ?cap 1 i now] =>
    pose proof (admit_next s p r cap 1 i now Hn) as E; destruct (server_admit s p r cap 1 i now) end.
  cbn in *. lia.
Qed.

Ltac split_results :=
  repeat case_match;
  repeat match goal with H : (_, _) = (_, _) |- _ => apply pair_equal_spec in H as [? ?] end; by subst.

(** An operation takes at most one generation. *)
Lemma step_next x op :
  0 < sv_next_generation x.2 < 2 ^ 64 - 1 →
  sv_next_generation (server_step x op).2 <= sv_next_generation x.2 + 1.
Proof.
  destruct x as [m s]. cbn [snd]. intros Hn. unfold server_step.
  assert (∀ s' : server, sv_next_generation s' = sv_next_generation s →
            sv_next_generation s' <= sv_next_generation s + 1) as Hle by (intros; lia).
  destruct op; cbn [server_exec].
  - pose proof (server_begin_next s i now Hn). by destruct (wl_rpc_server_begin s i now).
  - by apply correlate_next.
  - apply Hle. unfold wl_rpc_server_response_commit, server_commit_reserved. split_results.
  - apply Hle. unfold wl_rpc_server_complete, server_commit_reserved. split_results.
  - apply Hle. unfold wl_rpc_server_reject, wl_rpc_server_complete, server_commit_reserved. split_results.
  - apply Hle. unfold wl_rpc_server_response_acquire. split_results.
  - apply Hle. unfold wl_rpc_server_response_defer. split_results.
  - apply Hle. unfold wl_rpc_server_response_submitted. split_results.
  - apply Hle. unfold wl_rpc_server_response_sent. split_results.
  - apply Hle. unfold wl_rpc_server_on_tx_event. split_results.
  - apply Hle. unfold wl_rpc_server_set_response_observer. split_results.
  - apply Hle, discard_next.
  - apply Hle. unfold wl_rpc_peer_observe. repeat (destruct (_ : bool); [done|]).
    destruct (negb _); [|done]. pose proof (discard_next s peer cancel) as E.
    by destruct (wl_rpc_server_discard_session s peer cancel) as [s1 [e|[d hs]]].
  - apply Hle. unfold wl_rpc_server_abandon. repeat (destruct (_ : bool); [done|]).
    destruct (list_find _ _) as [[k p]|]; [|done]. apply release_next.
  - apply Hle. unfold wl_rpc_server_expired_acquire. split_results.
  - apply Hle. unfold wl_rpc_server_poll, server_expire. split_results.
  - cbn. lia.
Qed.

(** ** The moves of each operation *)

(** The moves an operation may make on the ledger [L] it starts from, given what the
    caller sees; [m] is the memory afterwards.  The exact effect of the operations
    that deliver, forget or make room is in [RpcRefine]. *)
Definition op_moves (policy ttl : Z) (L : ledger) (m : mem) (op : server_op) (ev : server_event)
    (mvs : list history_move) : Prop :=
  match op, ev with
  | SvBegin i now, EvBegin r =>
      if identity_valid i then
        ∃ forgotten L1 tail, mvs = forgotten ++ tail ∧ ledger_steps policy ttl L forgotten L1 ∧
          Forall (expired_at now) forgotten ∧ begin_tail m L1 i r tail
      else mvs = [] ∧ r = inl WL_RPC_ERR_INVALID_ARG
  | (SvCommit _ _ _ now | SvComplete _ _ _ _ now | SvReject _ _ _ _ now), EvAnswer rq status r =>
      answer_moves m L rq status r now mvs
  | (SvSent _ | SvTxEvent _), EvOther => delivery_moves mvs
  | SvDiscard session _, EvOther => Forall (session_over session) mvs
  | SvPeer peer _ _, EvOther => Forall (session_over peer) mvs
  | SvAbandon rq, EvOther => mvs = [] ∨ mvs = [HmForget (key (rq_identity rq)) Abandoned]
  | SvPoll now, EvOther => Forall (expired_at now) mvs
  | _, EvOther => mvs = []
  | _, _ => False
  end.

Lemma write_changes m s a bytes :
  (∀ k c b, published s k c b → ¬ (a <= b < a + len bytes)) → changes (m, s) [] (mwrite m a bytes, s).
Proof.
  intros H. apply changes_one, change_write. intros k c b Hb. apply mwrite_out.
  specialize (H k c b Hb). unfold len in H. lia.
Qed.

(** Every operation is a sequence of changes, and its moves are the ones named. *)
Lemma step_changes x op :
  server_inv x.2 → storage_apart x.2 → sv_next_generation x.2 < 2 ^ 64 - 1 → server_may x op →
  let '(y, ev) := server_exec x op in
  ∃ mvs, changes x mvs y ∧
    op_moves (sv_cache_policy x.2) (sv_cache_ttl_ms x.2) (server_ledger x.1 x.2) y.1 op ev mvs.
Proof.
  destruct x as [m s]. cbn [fst snd]. intros Hs Hap Hn Hmay.
  destruct op; cbn [server_exec op_moves server_may fst snd] in *.
  - destruct (identity_valid i) eqn:Ei.
    + pose proof (begin_changes m s i now Hs Hn Ei) as H. destruct (wl_rpc_server_begin s i now) as [s' r].
      destruct H as (forgotten & s1 & tail & Hc & Hx & Ht & Hb). exists (forgotten ++ tail).
      split; [by eapply changes_app|]. exists forgotten, (server_ledger m s1), tail.
      split; [done|]. split; [|done]. apply (changes_ledger (m, s) forgotten (m, s1) Hc Hs Hap).
    + unfold wl_rpc_server_begin, server_initialized. rewrite (vi_magic s Hs), Z.eqb_refl, Ei.
      exists []. split; [apply changes_nil|done].
  - exists []. split; [by apply correlate_changes|done].
  - pose proof (commit_changes m s b status length now Hs Hmay) as H.
    by destruct (wl_rpc_server_response_commit s b status length now).
  - pose proof (complete_changes m s rq status payload length now Hs Hmay) as H.
    by destruct (wl_rpc_server_complete m s rq status payload length now) as [[m' s'] r].
  - unfold wl_rpc_server_reject. destruct (status =? 0); [exists []; split; [apply changes_nil|done]|].
    pose proof (complete_changes m s rq status payload length now Hs Hmay) as H.
    by destruct (wl_rpc_server_complete m s rq status payload length now) as [[m' s'] r].
  - exists []. split; [apply acquire_changes|done].
  - exists []. split; [apply defer_changes|done].
  - exists []. split; [apply submitted_changes|done].
  - by apply sent_changes.
  - by apply tx_event_changes.
  - exists []. split; [apply observer_changes|done].
  - by apply discard_changes.
  - by apply peer_changes.
  - by apply abandon_changes.
  - exists []. split; [apply expired_acquire_changes|done].
  - by apply poll_changes.
  - exists []. split; [by apply write_changes|done].
Qed.

(** ** Initialization *)

Definition server_config_ok (config : server_config) (correlate : option response_pool) : Prop :=
  is_u16 (vc_pending_slot_count config) ∧ is_u16 (vc_cache_slot_count config) ∧
  is_u16 (vc_response_capacity_per_slot config) ∧
  (∀ pool, correlate = Some pool → is_u16 (pl_slot_count pool) ∧ is_u16 (pl_capacity_per_slot pool)).

Lemma server_init_inv s0 config correlate s :
  server_config_ok config correlate →
  wl_rpc_server_init_with_correlate s0 config correlate = (s, WL_RPC_OK) →
  server_inv s ∧ sv_next_generation s = 1 ∧ (∀ c, c ∈ sv_responses s → c = response_slot_zero).
Proof.
  unfold wl_rpc_server_init_with_correlate, server_config_ok, is_u16. intros (Hp & Hc & Hcap & Hpool) H.
  repeat branch_case H; try done. apply pair_equal_spec in H as [<- _]. cbn [sv_responses sv_next_generation].
  set (pool := default _ correlate).
  assert (0 <= pl_slot_count pool ∧ vc_cache_slot_count config + pl_slot_count pool < 2 ^ 16 ∧
          0 <= pl_capacity_per_slot pool) as (Hp0 & Hp1 & Hp2).
  { unfold pool. destruct correlate as [p|]; cbn [default from_option id]; [|cbn; lia].
    destruct (Hpool p eq_refl). unfold pool_invalid, UINT16_MAX in *. autorewrite with branch in *. lia. }
  set (l := replicate _ _ ++ replicate _ _).
  assert (∀ c, c ∈ l → c = response_slot_zero) as Hz
    by (intros c [[? _]%elem_of_replicate|[? _]%elem_of_replicate]%elem_of_app; done).
  split; [|done].
  assert (∀ k c, l !! k = Some c → c = response_slot_zero) as Hl
    by (intros k c Hk; by apply Hz; apply list_elem_of_lookup_2 in Hk).
  assert (∀ k p, replicate (Z.to_nat (vc_pending_slot_count config)) pending_zero !! k = Some p → p = pending_zero)
    as Hpz by (by intros k p [? _]%lookup_replicate).
  constructor; cbn; try done; try lia.
  - unfold len. rewrite length_replicate. lia.
  - unfold len, l. rewrite length_app, !length_replicate. lia.
  - intros k c ->%Hl. by left.
  - intros k p ->%Hpz. by left.
  - intros r c ->%Hl. by intros [? _].
  - by intros i j x y ->%Hl ->%Hl.
  - by intros i j x y ->%Hl ->%Hl.
  - by intros i j x y ->%Hpz ->%Hpz.
  - by intros i j x y ->%Hl ->%Hl [? _].
Qed.

Lemma init_ledger m s :
  server_inv s → (∀ c, c ∈ sv_responses s → c = response_slot_zero) → server_ledger m s = ∅.
Proof.
  intros Hs Hz. apply map_eq. intros k. rewrite lookup_empty. apply server_ledger_None; [done|].
  intros j c Hj%list_elem_of_lookup_2%Hz Ha. by rewrite Hj in Ha.
Qed.

(** *** States a server can reach *)

Section runs.
Context (m0 : mem) (s0 s : server) (config : server_config) (correlate : option response_pool).
Hypothesis Hcfg : server_config_ok config correlate.
Hypothesis Hinit : wl_rpc_server_init_with_correlate s0 config correlate = (s, WL_RPC_OK).
Hypothesis Hapart : storage_apart s.

Lemma run_state ops :
  server_ok ops (m0, s) → Z.of_nat (length ops) < 2 ^ 64 - 2 →
  let x := server_run ops (m0, s) in
  server_inv x.2 ∧ storage_apart x.2 ∧ setup x.2 = setup s ∧
  sv_next_generation x.2 <= 1 + Z.of_nat (length ops).
Proof.
  destruct (server_init_inv s0 config correlate s Hcfg Hinit) as (Hs & Hn & _).
  induction ops as [|op ops IH] using rev_ind; [cbn; intros; rewrite Hn; done|].
  intros [Hok [Hmay _]]%server_ok_app Hlen. rewrite length_app in Hlen |- *. cbn [length] in Hlen |- *.
  rewrite server_run_snoc. destruct (IH Hok ltac:(lia)) as (Hs1 & Ha1 & Hset & Hn1).
  set (x := server_run ops (m0, s)) in *.
  pose proof (step_changes x op Hs1 Ha1 ltac:(lia) Hmay) as Hst.
  pose proof (vi_next x.2 Hs1). pose proof (step_next x op ltac:(lia)) as Hnx.
  unfold server_step in *. destruct (server_exec x op) as [y ev]. destruct Hst as (mvs & Hc & _). cbn [fst] in *.
  pose proof (changes_setup _ _ _ Hc) as E. cbn zeta.
  split; [by eapply changes_inv|]. split; [by apply (setup_apart x.2)|]. split; [congruence|]. lia.
Qed.

Lemma run_split a op b :
  server_ok (a ++ op :: b) (m0, s) → Z.of_nat (length (a ++ op :: b)) < 2 ^ 64 - 2 →
  let x := server_run a (m0, s) in
  let '(y, ev) := server_exec x op in
  ∃ mvs, changes x mvs y ∧ ledger_steps (sv_cache_policy s) (sv_cache_ttl_ms s)
           (server_ledger x.1 x.2) mvs (server_ledger y.1 y.2) ∧
         op_moves (sv_cache_policy s) (sv_cache_ttl_ms s) (server_ledger x.1 x.2) y.1 op ev mvs.
Proof.
  intros [Ha [Hmay _]]%server_ok_app Hlen. rewrite length_app in Hlen. cbn [length] in Hlen.
  destruct (run_state a Ha ltac:(lia)) as (Hs1 & Ha1 & Hset & Hn1). intros x.
  pose proof (step_changes x op Hs1 Ha1 ltac:(unfold x in *; lia) Hmay) as Hst.
  destruct (server_exec x op) as [y ev]. destruct Hst as (mvs & Hc & Hmv).
  pose proof (changes_ledger _ _ _ Hc Hs1 Ha1) as HL. fold x in Hset.
  assert (sv_cache_policy x.2 = sv_cache_policy s ∧ sv_cache_ttl_ms x.2 = sv_cache_ttl_ms s) as [<- <-]
    by (injection Hset; auto).
  by exists mvs.
Qed.
End runs.

(** ** The fate of one entry *)

(** The ways an operation may end the entry [e] of key [k].  Where the policy is to
    evict, any admission may end a delivered entry; that it ends the oldest one, and
    only in a full history, is [begin_effect] of [RpcRefine]. *)
Definition may_forget (policy ttl : Z) (e : entry) (op : server_op) (k : Z * Z) : Prop :=
  match op with
  | SvAbandon rq => key (rq_identity rq) = k ∧ en_answer e = None
  | SvDiscard session _ => k.1 = session
  | SvPeer peer _ _ => k.1 = peer
  | SvPoll now =>
      ∃ a, en_answer e = Some a ∧ an_delivered a = true ∧ elapsed now (an_completed_at a) ttl = true
  | SvBegin _ now =>
      ∃ a, en_answer e = Some a ∧ an_delivered a = true ∧
           (elapsed now (an_completed_at a) ttl = true ∨ policy = WL_RPC_CACHE_EVICT_OLDEST)
  | _ => False
  end.

(** The ways a move may end it. *)
Definition forget_ok (policy ttl : Z) (e : entry) (why : reason) : Prop :=
  match why with
  | Abandoned => en_answer e = None
  | SessionOver => True
  | Expired now =>
      ∃ a, en_answer e = Some a ∧ an_delivered a = true ∧ elapsed now (an_completed_at a) ttl = true
  | Evicted => ∃ a, en_answer e = Some a ∧ an_delivered a = true ∧ policy = WL_RPC_CACHE_EVICT_OLDEST
  end.

Definition is_forget (mv : history_move) : Prop := ∃ k why, mv = HmForget k why.

Lemma forget_step policy ttl L k why L' :
  ledger_step policy ttl L (HmForget k why) L' →
  L' = delete k L ∧ ∃ e, L !! k = Some e ∧ forget_ok policy ttl e why.
Proof.
  inversion_clear 1; (split; [done|]); eexists; (split; [done|]); cbn; eauto.
Qed.

(** Moves that only forget keep the other entries as they are. *)
Lemma forget_steps policy ttl L mvs L' k e :
  ledger_steps policy ttl L mvs L' → Forall is_forget mvs → L !! k = Some e →
  L' !! k = Some e ∨ ∃ why, HmForget k why ∈ mvs ∧ forget_ok policy ttl e why.
Proof.
  induction 1 as [L|L mv L1 mvs L2 Hst _ IH]; intros Hf Hk; [by left|].
  apply Forall_cons in Hf as [(k' & why & ->) Hf]. apply forget_step in Hst as (-> & e' & Hk' & Hok).
  destruct (decide (k = k')) as [<-|Hne].
  - right. exists why. split; [by left|]. congruence.
  - destruct (IH Hf) as [?|(w & Hw & Hok')]; [by rewrite lookup_delete_ne|by left|].
    right. exists w. split; [by right|done].
Qed.

Lemma expired_forgets now mvs : Forall (expired_at now) mvs → Forall is_forget mvs.
Proof. intros H. eapply Forall_impl; [done|]. intros mv [k ->]. by eexists _, _. Qed.

Lemma session_forgets session mvs : Forall (session_over session) mvs → Forall is_forget mvs.
Proof. intros H. eapply Forall_impl; [done|]. intros mv (k & -> & _). by eexists _, _. Qed.

(** Expiry at [now] keeps an entry that is not old enough. *)
Lemma expired_steps policy ttl L now mvs L' k e :
  ledger_steps policy ttl L mvs L' → Forall (expired_at now) mvs → L !! k = Some e →
  L' !! k = Some e ∨ ∃ a, en_answer e = Some a ∧ an_delivered a = true ∧
    elapsed now (an_completed_at a) ttl = true.
Proof.
  intros Hst Hx Hk. destruct (forget_steps _ _ _ _ _ _ _ Hst (expired_forgets _ _ Hx) Hk)
    as [?|(why & Hin & Hok)]; [by left|right].
  rewrite Forall_forall in Hx. destruct (Hx _ Hin) as [k' [= _ ->]]. done.
Qed.

Lemma session_steps policy ttl L session mvs L' k e :
  ledger_steps policy ttl L mvs L' → Forall (session_over session) mvs → L !! k = Some e →
  L' !! k = Some e ∨ k.1 = session.
Proof.
  intros Hst Hx Hk. destruct (forget_steps _ _ _ _ _ _ _ Hst (session_forgets _ _ Hx) Hk)
    as [?|(why & Hin & Hok)]; [by left|right].
  rewrite Forall_forall in Hx. by destruct (Hx _ Hin) as (k' & [= -> _] & ?).
Qed.

(** What becomes of an entry that is kept: the same execution, whose answer is
    frozen once it is there and comes from the completion of this very request. *)
Definition entry_next (m : mem) (ev : server_event) (e e' : entry) : Prop :=
  en_identity e' = en_identity e ∧ en_generation e' = en_generation e ∧
  match en_answer e with
  | Some a => ∃ d, en_answer e' = Some (set_delivered d a)
  | None =>
      en_answer e' = None ∨
      ∃ status rs now, ev = EvAnswer (mk_request (en_identity e) (en_generation e)) status (inr rs) ∧
        en_answer e' = Some (mk_answer status (response_bytes m rs) now false)
  end.

Lemma entry_next_refl m ev e : entry_next m ev e e.
Proof.
  split; [done|]. split; [done|]. destruct (en_answer e) as [a|]; [|by left]. exists (an_delivered a).
  by destruct a.
Qed.

Lemma delivered_step policy ttl L k' L' k e m ev :
  ledger_step policy ttl L (HmDelivered k') L' ∨ ledger_step policy ttl L (HmReplay k') L' →
  L !! k = Some e → ∃ e', L' !! k = Some e' ∧ entry_next m ev e e'.
Proof.
  intros [H|H] Hk; inversion_clear H; (destruct (decide (k = k')) as [<-|Hne];
    [|exists e; split; [by rewrite lookup_insert_ne|apply entry_next_refl]]);
    assert (e = mk_entry i g (Some a)) as -> by congruence;
    eexists; (split; [by rewrite lookup_insert_eq|]); (do 2 (split; [done|])); by eexists.
Qed.

Lemma steps_nil policy ttl L L' : ledger_steps policy ttl L [] L' → L' = L.
Proof. by inversion 1. Qed.

Lemma steps_one policy ttl L mv L' : ledger_steps policy ttl L [mv] L' → ledger_step policy ttl L mv L'.
Proof. inversion 1 as [|? ? L1 ? ? Hst Hrest]; subst. by apply steps_nil in Hrest as ->. Qed.

Lemma steps_app_inv policy ttl L a b L' :
  ledger_steps policy ttl L (a ++ b) L' →
  ∃ L1, ledger_steps policy ttl L a L1 ∧ ledger_steps policy ttl L1 b L'.
Proof.
  revert L. induction a as [|mv a IH]; intros L; cbn [app]; [intros; exists L; split; [apply ledger_done|done]|].
  inversion 1 as [|? ? L1 ? ? Hst Hrest]; subst. destruct (IH _ Hrest) as (L2 & Ha & Hb).
  exists L2. split; [by eapply ledger_more|done].
Qed.

(** The moves determine the ledger. *)
Lemma step_det policy ttl L mv L1 L2 :
  ledger_step policy ttl L mv L1 → ledger_step policy ttl L mv L2 → L1 = L2.
Proof. destruct 1; inversion 1; congruence. Qed.

Lemma steps_det policy ttl L mvs L1 L2 :
  ledger_steps policy ttl L mvs L1 → ledger_steps policy ttl L mvs L2 → L1 = L2.
Proof.
  induction 1 as [|L mv L' mvs L1 Hst _ IH]; [by inversion 1|].
  inversion 1 as [|? ? L'' ? ? Hst' Hrest]; subst. apply IH. by rewrite (step_det _ _ _ _ _ _ Hst Hst').
Qed.

(** The tail of an admission keeps an entry it does not evict. *)
Lemma begin_tail_entry policy ttl m L i r tail L' k e ev :
  ledger_steps policy ttl L tail L' → begin_tail m L i r tail → L !! k = Some e →
  (∃ e', L' !! k = Some e' ∧ entry_next m ev e e') ∨
  ∃ a, en_answer e = Some a ∧ an_delivered a = true ∧ policy = WL_RPC_CACHE_EVICT_OLDEST.
Proof.
  intros Hst Hb Hk.
  assert (tail = [] → ∃ e', L' !! k = Some e' ∧ entry_next m ev e e') as Hnil.
  { intros ->. apply steps_nil in Hst as ->. exists e. split; [done|apply entry_next_refl]. }
  assert (∀ L1 g, ledger_step policy ttl L1 (HmAdmit i g) L' → L1 !! k = Some e →
    ∃ e', L' !! k = Some e' ∧ entry_next m ev e e') as Hadmit.
  { intros L1 g Ha Hk1. inversion_clear Ha. exists e. split; [|apply entry_next_refl].
    rewrite lookup_insert_ne; [done|]. intros <-. congruence. }
  destruct r as [[]|[[[] rq] rs]]; cbn in Hb; try done; try (left; apply Hnil; tauto).
  - destruct Hb as (_ & _ & [->|[k' ->]]).
    + left. apply steps_one in Hst. by apply (Hadmit L _ Hst).
    + inversion Hst as [|? ? L1 ? ? H1 H2]; subst. apply steps_one in H2.
      apply forget_step in H1 as (-> & e' & He' & Hok).
      destruct (decide (k = k')) as [<-|Hne]; [right; by replace e with e' by congruence|].
      left. apply (Hadmit _ _ H2). by rewrite lookup_delete_ne.
  - destruct Hb as (a & _ & _ & _ & _ & ->). left. destruct (an_delivered a); [|by apply Hnil].
    apply steps_one in Hst. eapply delivered_step; [by right|done].
Qed.

Lemma op_entry policy ttl L m op ev mvs L' k e :
  ledger_steps policy ttl L mvs L' → op_moves policy ttl L m op ev mvs → L !! k = Some e →
  may_forget policy ttl e op k ∨ ∃ e', L' !! k = Some e' ∧ entry_next m ev e e'.
Proof.
  intros Hst Hmv Hk.
  assert (L' !! k = Some e → ∃ e', L' !! k = Some e' ∧ entry_next m ev e e') as Hsame
    by (intros; exists e; split; [done|apply entry_next_refl]).
  assert (mvs = [] → may_forget policy ttl e op k ∨ ∃ e', L' !! k = Some e' ∧ entry_next m ev e e') as Hnil.
  { intros ->. right. apply Hsame. by apply steps_nil in Hst as ->. }
  assert (∀ rq status r now, ev = EvAnswer rq status r → answer_moves m L rq status r now mvs →
    may_forget policy ttl e op k ∨ ∃ e', L' !! k = Some e' ∧ entry_next m ev e e') as Hans.
  { intros rq status [err|rs] now -> Ha; [by apply Hnil|]. destruct Ha as (_ & _ & _ & [[_ ->]|[He ->]]); [by apply Hnil|].
    right. apply steps_one in Hst. inversion Hst; subst. unfold executing in He.
    destruct (decide (k = key (rq_identity rq))) as [->|Hne].
    - assert (e = mk_entry (rq_identity rq) (rq_generation rq) None) as -> by congruence.
      eexists. split; [by rewrite lookup_insert_eq|]. do 2 (split; [done|]). right.
      exists status, rs, now. split; [|done]. cbn. by destruct rq.
    - exists e. split; [by rewrite lookup_insert_ne|apply entry_next_refl]. }
  assert (delivery_moves mvs → may_forget policy ttl e op k ∨ ∃ e', L' !! k = Some e' ∧ entry_next m ev e e') as Hdel.
  { intros [->|[k' ->]]; [by apply Hnil|right]. apply steps_one in Hst. eapply delivered_step; [by left|done]. }
  destruct op, ev; cbn [op_moves] in Hmv; try done; try (by apply Hnil); try (by apply Hdel);
    try (by eapply Hans).
  - destruct (identity_valid i); [|apply Hnil; tauto].
    destruct Hmv as (forgotten & L1 & tail & -> & H1 & Hx & Hb).
    apply steps_app_inv in Hst as (L2 & H1' & H2). rewrite (steps_det _ _ _ _ _ _ H1' H1) in H2.
    destruct (expired_steps _ _ _ _ _ _ _ _ H1 Hx Hk) as [Hk1|(a & ? & ? & ?)]; [|left; exists a; auto].
    destruct (begin_tail_entry _ _ _ _ _ _ _ _ _ _ (EvBegin r) H2 Hb Hk1) as [?|(a & ? & ? & ?)]; [by right|].
    left. exists a. auto.
  - destruct (session_steps _ _ _ _ _ _ _ _ Hst Hmv Hk); auto.
  - destruct (session_steps _ _ _ _ _ _ _ _ Hst Hmv Hk); auto.
  - destruct Hmv as [->| ->]; [by apply Hnil|]. apply steps_one, forget_step in Hst as (-> & e' & He' & Hok).
    cbn. destruct (decide (k = key (rq_identity rq))) as [->|Hne]; [left; split; [done|]; by replace e with e' by congruence|].
    right. apply Hsame. by rewrite lookup_delete_ne.
  - destruct (expired_steps _ _ _ _ _ _ _ _ Hst Hmv Hk); auto.
Qed.

(** ** One entry along a run *)

(** No operation of the run has a reason to end the entry of key [k]. *)
Fixpoint keeps (k : Z * Z) (ops : list server_op) (x : mem * server) : Prop :=
  match ops with
  | [] => True
  | op :: ops =>
      (∀ e, server_ledger x.1 x.2 !! k = Some e →
            ¬ may_forget (sv_cache_policy x.2) (sv_cache_ttl_ms x.2) e op k) ∧
      keeps k ops (server_step x op)
  end.

Lemma keeps_app k a b x : keeps k (a ++ b) x ↔ keeps k a x ∧ keeps k b (server_run a x).
Proof.
  revert x. induction a as [|op a IH]; intros x; cbn [app keeps]; [tauto|].
  rewrite IH. change (server_run (op :: a) x) with (server_run a (server_step x op)). tauto.
Qed.

(** The completions of a request. *)
Definition settles_request (rq : request) (op : server_op) : Prop :=
  match op with
  | SvCommit b _ _ _ => rb_request b = rq
  | SvComplete r _ _ _ _ | SvReject r _ _ _ _ => r = rq
  | _ => False
  end.

Lemma answer_settles x op rq status r : (server_exec x op).2 = EvAnswer rq status r → settles_request rq op.
Proof.
  destruct x as [m s], op; cbn [server_exec settles_request]; try done;
    repeat match goal with |- context [let '(_, _) := ?p in _] => destruct p end; cbn; congruence.
Qed.

(** How an entry at the end of a stretch relates to the one at its start. *)
Definition entry_path (e e' : entry) (b : list server_op) : Prop :=
  en_identity e' = en_identity e ∧ en_generation e' = en_generation e ∧
  match en_answer e with
  | Some a => ∃ d, en_answer e' = Some (set_delivered d a)
  | None =>
      Forall (λ op, ¬ settles_request (mk_request (en_identity e) (en_generation e)) op) b →
      en_answer e' = None
  end.

Section entries.
Context (m0 : mem) (s0 s : server) (config : server_config) (correlate : option response_pool).
Hypothesis Hcfg : server_config_ok config correlate.
Hypothesis Hinit : wl_rpc_server_init_with_correlate s0 config correlate = (s, WL_RPC_OK).
Hypothesis Hapart : storage_apart s.

Lemma run_setup ops :
  server_ok ops (m0, s) → Z.of_nat (length ops) < 2 ^ 64 - 2 →
  let x := server_run ops (m0, s) in
  sv_cache_policy x.2 = sv_cache_policy s ∧ sv_cache_ttl_ms x.2 = sv_cache_ttl_ms s.
Proof.
  intros Hok Hlen. destruct (run_state m0 s0 s config correlate Hcfg Hinit Hapart ops Hok Hlen) as (_ & _ & E & _).
  injection E; auto.
Qed.

Lemma entry_step a op k e :
  server_ok (a ++ [op]) (m0, s) → Z.of_nat (length (a ++ [op])) < 2 ^ 64 - 2 →
  let x := server_run a (m0, s) in
  server_ledger x.1 x.2 !! k = Some e → keeps k [op] x →
  let '(y, ev) := server_exec x op in
  ∃ e', server_ledger y.1 y.2 !! k = Some e' ∧ entry_next y.1 ev e e'.
Proof.
  intros Hok Hlen x Hk [Hkeep _].
  pose proof (run_split m0 s0 s config correlate Hcfg Hinit Hapart a op [] Hok Hlen) as H.
  apply server_ok_app in Hok as [Ha _]. rewrite length_app in Hlen.
  destruct (run_setup a Ha ltac:(lia)) as [Ep Et]. fold x in Ep, Et.
  cbn zeta in H. fold x in H. destruct (server_exec x op) as [y ev]. destruct H as (mvs & _ & HL & Hmv).
  destruct (op_entry _ _ _ _ _ _ _ _ _ _ HL Hmv Hk) as [Hf|?]; [|done].
  rewrite <- Ep, <- Et in Hf. by destruct (Hkeep e Hk).
Qed.

Lemma entry_run a b k e :
  server_ok (a ++ b) (m0, s) → Z.of_nat (length (a ++ b)) < 2 ^ 64 - 2 →
  let x := server_run a (m0, s) in
  server_ledger x.1 x.2 !! k = Some e → keeps k b x →
  let y := server_run (a ++ b) (m0, s) in
  ∃ e', server_ledger y.1 y.2 !! k = Some e' ∧ entry_path e e' b.
Proof.
  intros Hok Hlen x Hk Hkeep. induction b as [|op b IH] using rev_ind.
  { rewrite app_nil_r. exists e. split; [done|]. do 2 (split; [done|]).
    destruct (en_answer e) as [an|]; [|done]. exists (an_delivered an). by destruct an. }
  rewrite app_assoc in Hok, Hlen. pose proof Hok as [Hok1 _]%server_ok_app.
  apply keeps_app in Hkeep as [Hk1 Hk2]. rewrite length_app in Hlen.
  destruct (IH Hok1 ltac:(lia) Hk1) as (e1 & He1 & Hi1 & Hg1 & Ha1).
  pose proof (entry_step (a ++ b) op k e1 Hok) as H. rewrite length_app in H. specialize (H ltac:(cbn in *; lia)).
  cbn zeta in H. specialize (H He1). rewrite server_run_app in H. fold x in H. specialize (H Hk2).
  rewrite app_assoc, server_run_snoc, server_run_app. fold x. unfold server_step.
  pose proof (answer_settles (server_run b x) op) as Hset.
  destruct (server_exec (server_run b x) op) as [y ev]. cbn [fst snd] in *.
  destruct H as (e' & He' & Hi & Hg & Ha). exists e'. split; [done|]. split; [congruence|]. split; [congruence|].
  destruct (en_answer e) as [an|].
  - destruct Ha1 as [d Ed]. rewrite Ed in Ha. destruct Ha as [d' ->]. by exists d'.
  - intros [Hb [Hop _]%Forall_cons]%Forall_app. rewrite (Ha1 Hb) in Ha.
    destruct Ha as [?|(status & rs & now & -> & _)]; [done|]. exfalso. apply Hop.
    rewrite <- Hi1, <- Hg1. by eapply Hset.
Qed.

(** How a request is classified whose key has an entry that is kept. *)
Lemma begin_classified a i now e :
  server_ok (a ++ [SvBegin i now]) (m0, s) → Z.of_nat (length (a ++ [SvBegin i now])) < 2 ^ 64 - 2 →
  identity_valid i = true →
  let x := server_run a (m0, s) in
  server_ledger x.1 x.2 !! key i = Some e → keeps (key i) [SvBegin i now] x →
  ∃ d rq rs, (server_exec x (SvBegin i now)).2 = EvBegin (inr (d, rq, rs)) ∧
    if decide (en_identity e = i) then
      match en_answer e with
      | None => d = WL_RPC_SERVER_PENDING_DUPLICATE
      | Some an =>
          d = WL_RPC_SERVER_REPLAY ∧ rs_identity rs = i ∧ rs_generation rs = en_generation e ∧
          rs_application_status rs = an_status an ∧
          response_bytes (server_step x (SvBegin i now)).1 rs = an_bytes an
      end
    else d = WL_RPC_SERVER_CONFLICT.
Proof.
  intros Hok Hlen Hi x Hk [Hkeep _].
  pose proof (run_split m0 s0 s config correlate Hcfg Hinit Hapart a _ [] Hok Hlen) as H.
  apply server_ok_app in Hok as [Ha _]. rewrite length_app in Hlen.
  destruct (run_setup a Ha ltac:(lia)) as [Ep Et]. fold x in Ep, Et. cbn zeta in H. fold x in H.
  unfold server_step. assert (∃ y r, server_exec x (SvBegin i now) = (y, EvBegin r)) as (y & r & E).
  { destruct x as [mx sx]. cbn. destruct (wl_rpc_server_begin sx i now) as [s1 r]. by eexists (mx, s1), r. }
  rewrite E in H |- *. cbn [fst snd]. destruct H as (mvs & _ & _ & Hmv). cbn in Hmv. rewrite Hi in Hmv.
  destruct Hmv as (forgotten & L1 & tail & _ & HL & Hx & Hb).
  destruct (expired_steps _ _ _ _ _ _ _ _ HL Hx Hk) as [Hk1|(an & ? & ? & ?)].
  2: { destruct (Hkeep e Hk). exists an. rewrite Ep, Et. auto. }
  destruct r as [[]|[[d rq] rs]]; cbn in Hb; try (destruct Hb; congruence); try done.
  exists d, rq, rs. split; [done|]. destruct d; [destruct Hb; congruence|..].
  - destruct Hb as (_ & g & Hg). assert (e = mk_entry i g None) as -> by congruence. by rewrite decide_True.
  - destruct Hb as (an & Hg & ? & ? & ? & _).
    assert (e = mk_entry i (rs_generation rs) (Some an)) as -> by congruence. by rewrite decide_True.
  - destruct Hb as (_ & e' & He' & Hne). by rewrite decide_False by congruence.
Qed.

(** A new execution puts its entry on record. *)
Lemma begin_new a i now rq rp :
  server_ok (a ++ [SvBegin i now]) (m0, s) → Z.of_nat (length (a ++ [SvBegin i now])) < 2 ^ 64 - 2 →
  let x := server_run a (m0, s) in
  (server_exec x (SvBegin i now)).2 = EvBegin (inr (WL_RPC_SERVER_NEW, rq, rp)) →
  let y := server_run (a ++ [SvBegin i now]) (m0, s) in
  identity_valid i = true ∧ rq_identity rq = i ∧
  server_ledger y.1 y.2 !! key i = Some (mk_entry i (rq_generation rq) None).
Proof.
  intros Hok Hlen x Hev y.
  pose proof (run_split m0 s0 s config correlate Hcfg Hinit Hapart a _ [] Hok Hlen) as H.
  cbn zeta in H. fold x in H. unfold y. rewrite server_run_snoc. fold x. unfold server_step.
  destruct (server_exec x (SvBegin i now)) as [y' ev]. cbn [fst snd] in *. subst ev.
  destruct H as (mvs & _ & HL & Hmv). cbn in Hmv. destruct (identity_valid i); [|by destruct Hmv].
  destruct Hmv as (forgotten & L1 & tail & -> & _ & _ & _ & Hid & Htail). do 2 (split; [done|]).
  apply steps_app_inv in HL as (L2 & _ & HL).
  assert (∃ L3, ledger_step (sv_cache_policy s) (sv_cache_ttl_ms s) L3 (HmAdmit i (rq_generation rq))
    (server_ledger y'.1 y'.2)) as [L3 Hst].
  { destruct Htail as [->|[k ->]]; [by apply steps_one in HL; eexists|].
    inversion HL as [|? ? L4 ? ? _ H4]; subst. by apply steps_one in H4; eexists. }
  inversion Hst as [L0 i' g Hn HL0 Hi' HL'| | | | | | |]. by rewrite lookup_insert_eq.
Qed.

(** A completion puts its answer on record. *)
Lemma answer_recorded a op rq status rs :
  server_ok (a ++ [op]) (m0, s) → Z.of_nat (length (a ++ [op])) < 2 ^ 64 - 2 →
  let x := server_run a (m0, s) in
  executing (server_ledger x.1 x.2) rq → (server_exec x op).2 = EvAnswer rq status (inr rs) →
  let y := server_run (a ++ [op]) (m0, s) in
  ∃ now, server_ledger y.1 y.2 !! key (rq_identity rq) =
    Some (mk_entry (rq_identity rq) (rq_generation rq)
            (Some (mk_answer status (response_bytes y.1 rs) now false))).
Proof.
  intros Hok Hlen x He Hev y.
  pose proof (run_split m0 s0 s config correlate Hcfg Hinit Hapart a op [] Hok Hlen) as H.
  cbn zeta in H. fold x in H. unfold y. rewrite server_run_snoc. fold x. unfold server_step.
  destruct (server_exec x op) as [y' ev]. cbn [fst snd] in *. subst ev.
  destruct H as (mvs & _ & HL & Hmv).
  assert (∃ now, answer_moves y'.1 (server_ledger x.1 x.2) rq status (inr rs) now mvs) as [now Ha]
    by (destruct op; cbn in Hmv; try done; by eexists).
  destruct Ha as (_ & _ & _ & [[? _]|[_ ->]]); [done|]. exists now.
  apply steps_one in HL. inversion HL as [|L0 i' g st by' n Hk HL0 Hi' HL'| | | | | |]. by rewrite lookup_insert_eq.
Qed.
End entries.

(** C3: a request is executed at most once.  After a request was admitted as new,
    and as long as its entry has not been given up (abandoned unanswered, its peer
    session over, or its delivered answer aged out or evicted), no request with its
    operation id and session is admitted as new, whatever happens in between: the
    same request is a duplicate while it is executing, and a different one under
    the same id is a conflict. *)
Theorem server_at_most_once m0 s0 s config correlate a i t rq rp b j t' :
  server_config_ok config correlate →
  wl_rpc_server_init_with_correlate s0 config correlate = (s, WL_RPC_OK) → storage_apart s →
  let ops := (a ++ [SvBegin i t]) ++ b ++ [SvBegin j t'] in
  server_ok ops (m0, s) → Z.of_nat (length ops) < 2 ^ 64 - 2 →
  (server_exec (server_run a (m0, s)) (SvBegin i t)).2 = EvBegin (inr (WL_RPC_SERVER_NEW, rq, rp)) →
  identity_valid j = true → key j = key i →
  keeps (key i) (b ++ [SvBegin j t']) (server_run (a ++ [SvBegin i t]) (m0, s)) →
  ∃ d rq' rs,
    (server_exec (server_run ((a ++ [SvBegin i t]) ++ b) (m0, s)) (SvBegin j t')).2 =
      EvBegin (inr (d, rq', rs)) ∧
    d ≠ WL_RPC_SERVER_NEW ∧ (d = WL_RPC_SERVER_CONFLICT ↔ j ≠ i) ∧
    (j = i → Forall (λ op, ¬ settles_request rq op) b → d = WL_RPC_SERVER_PENDING_DUPLICATE).
Proof.
  intros Hcfg Hinit Hap ops Hok Hlen Hnew Hj Hkey Hkeep. unfold ops in *.
  rewrite app_assoc in Hok. pose proof Hok as [Hok1 _]%server_ok_app. pose proof Hok1 as [Hok0 _]%server_ok_app.
  rewrite !length_app in Hlen. cbn [length] in Hlen. apply keeps_app in Hkeep as [Hk1 Hk2].
  destruct (begin_new m0 s0 s config correlate Hcfg Hinit Hap a i t rq rp Hok0
              ltac:(rewrite length_app; cbn; lia) Hnew) as (_ & Hid & Hrec).
  destruct (entry_run m0 s0 s config correlate Hcfg Hinit Hap _ b (key i) _ Hok1
              ltac:(rewrite !length_app; cbn; lia) Hrec Hk1) as (e & He & Ei & Eg & Ea).
  rewrite <- server_run_app, <- Hkey in Hk2. rewrite <- Hkey in He.
  destruct (begin_classified m0 s0 s config correlate Hcfg Hinit Hap _ j t' e Hok
              ltac:(rewrite !length_app; cbn; lia) Hj He Hk2) as (d & rq' & rs & Hev & Hd).
  exists d, rq', rs. split; [done|]. cbn in Ei, Eg, Ea. rewrite Ei in Hd.
  assert (mk_request i (rq_generation rq) = rq) as Erq by (destruct rq; cbn in *; congruence).
  rewrite Erq in Ea. destruct (decide (i = j)) as [<-|Hne].
  - destruct (en_answer e) as [an|]; [destruct Hd as [-> _]|subst d]; (split; [done|]); (split; [done|]).
    + intros _ Hb. by specialize (Ea Hb).
    + done.
  - subst d. split; [done|]. split; [split; [by intros _ ->|done]|]. congruence.
Qed.

(** C4: a retransmitted request gets the recorded answer.  Once the execution of a
    request was completed with a status and response bytes, every later arrival of
    the same request, as long as the entry is kept, is classified as a replay and
    shows exactly that status and those bytes, whatever the server and the
    application did in between. *)
Theorem server_replay_exact m0 s0 s config correlate a i t rq rp b op status rs c t' :
  server_config_ok config correlate →
  wl_rpc_server_init_with_correlate s0 config correlate = (s, WL_RPC_OK) → storage_apart s →
  let pre := (a ++ [SvBegin i t]) ++ b in
  let mid := (pre ++ [op]) ++ c in
  server_ok (mid ++ [SvBegin i t']) (m0, s) → Z.of_nat (length (mid ++ [SvBegin i t'])) < 2 ^ 64 - 2 →
  (server_exec (server_run a (m0, s)) (SvBegin i t)).2 = EvBegin (inr (WL_RPC_SERVER_NEW, rq, rp)) →
  Forall (λ o, ¬ settles_request rq o) b →
  (server_exec (server_run pre (m0, s)) op).2 = EvAnswer rq status (inr rs) →
  keeps (key i) (b ++ [op] ++ c ++ [SvBegin i t']) (server_run (a ++ [SvBegin i t]) (m0, s)) →
  ∃ rq' rs', (server_exec (server_run mid (m0, s)) (SvBegin i t')).2 =
      EvBegin (inr (WL_RPC_SERVER_REPLAY, rq', rs')) ∧
    rs_identity rs' = i ∧ rs_generation rs' = rq_generation rq ∧ rs_application_status rs' = status ∧
    response_bytes (server_run (mid ++ [SvBegin i t']) (m0, s)).1 rs' =
    response_bytes (server_run (pre ++ [op]) (m0, s)).1 rs.
Proof.
  intros Hcfg Hinit Hap pre mid Hok Hlen Hnew Hb Hans Hkeep.
  pose proof Hok as [Hok3 _]%server_ok_app. pose proof Hok3 as [Hok2 _]%server_ok_app.
  pose proof Hok2 as [Hok1 _]%server_ok_app. pose proof Hok1 as [Hok0 _]%server_ok_app.
  unfold mid, pre in Hlen. rewrite !length_app in Hlen. cbn [length] in Hlen.
  apply keeps_app in Hkeep as [Hk1 Hkeep]. rewrite <- server_run_app in Hkeep. fold pre in Hkeep.
  apply keeps_app in Hkeep as [_ Hkeep]. rewrite <- server_run_app in Hkeep.
  apply keeps_app in Hkeep as [Hk3 Hk4]. rewrite <- server_run_app in Hk4. fold mid in Hk4.
  destruct (begin_new m0 s0 s config correlate Hcfg Hinit Hap a i t rq rp Hok0
              ltac:(rewrite length_app; cbn; lia) Hnew) as (Hi & Hid & Hrec).
  destruct (entry_run m0 s0 s config correlate Hcfg Hinit Hap _ b (key i) _ Hok1
              ltac:(rewrite !length_app; cbn; lia) Hrec Hk1) as ([ei eg ea] & He & Ei & Eg & Ea).
  cbn in Ei, Eg, Ea. subst ei eg.
  assert (mk_request i (rq_generation rq) = rq) as Erq by (destruct rq; cbn in *; congruence).
  rewrite Erq in Ea. rewrite (Ea Hb) in He. fold pre in He. rewrite <- Hid in He.
  destruct (answer_recorded m0 s0 s config correlate Hcfg Hinit Hap pre op rq status rs Hok2
              ltac:(unfold pre; rewrite !length_app; cbn; lia) He Hans) as [now Hr].
  rewrite Hid in Hr.
  destruct (entry_run m0 s0 s config correlate Hcfg Hinit Hap _ c (key i) _ Hok3
              ltac:(unfold pre; rewrite !length_app; cbn; lia) Hr Hk3) as ([fi fg fa] & Hf & Fi & Fg & [d Fa]).
  cbn in Fi, Fg, Fa. subst fi fg fa. fold mid in Hf.
  destruct (begin_classified m0 s0 s config correlate Hcfg Hinit Hap mid i t' _ Hok
              ltac:(unfold mid, pre; rewrite !length_app; cbn; lia) Hi Hf Hk4) as (d' & rq' & rs' & Hev & Hd).
  cbn in Hd. rewrite decide_True in Hd by done. destruct Hd as (-> & E1 & E2 & E3 & E4).
  exists rq', rs'. rewrite server_run_snoc. done.
Qed.

(** ** A concrete server *)

Definition demo_server_config : server_config := mk_server_config 1024 2 2048 2 4096 16 8 1000 0 WL_RPC_CACHE_REJECT_NEW.

Definition blank_server : server := mk_server [] [] 0 0 0 0 0 0 0 0 0 0 0 0 0 0.

Definition demo_server : server := (wl_rpc_server_init blank_server demo_server_config).1.

Definition demo_identity : identity := mk_identity 7 1 2 99 5.

Definition demo_request : request := mk_request demo_identity 1.

(** The response bytes of the demonstration lie at address 100. *)
Definition demo_bytes : mem := mwrite (λ _, 0) 100 [10; 20; 30].

Definition demo_complete : server_op := SvComplete demo_request 4 100 3 10.

Lemma demo_config_ok : server_config_ok demo_server_config None.
Proof. unfold server_config_ok, is_u16. cbn. split_and!; try lia. done. Qed.

Lemma demo_server_apart : storage_apart demo_server.
Proof. right. vm_compute. done. Qed.

(** In the demonstration nothing ages out or is evicted. *)
Lemma demo_keeps_begin e i now k : ¬ may_forget WL_RPC_CACHE_REJECT_NEW 0 e (SvBegin i now) k.
Proof. intros (a & _ & _ & [H|H]); done. Qed.

Lemma server_at_most_once_witness :
  ∃ d rq rs,
    (server_exec (server_run [SvBegin demo_identity 0] (demo_bytes, demo_server)) (SvBegin demo_identity 5)).2 =
      EvBegin (inr (d, rq, rs)) ∧
    d ≠ WL_RPC_SERVER_NEW ∧ (d = WL_RPC_SERVER_CONFLICT ↔ demo_identity ≠ demo_identity) ∧
    (demo_identity = demo_identity → Forall (λ op, ¬ settles_request demo_request op) [] →
     d = WL_RPC_SERVER_PENDING_DUPLICATE).
Proof.
  apply (server_at_most_once demo_bytes blank_server demo_server demo_server_config None [] demo_identity 0
           demo_request response_zero [] demo_identity 5).
  - apply demo_config_ok.
  - done.
  - apply demo_server_apart.
  - done.
  - cbn. lia.
  - done.
  - done.
  - done.
  - split; [|done]. intros e _. apply demo_keeps_begin.
Defined.

Lemma server_replay_exact_witness :
  let ops := [SvBegin demo_identity 0; demo_complete; SvAcquire] in
  ∃ rq' rs', (server_exec (server_run ops (demo_bytes, demo_server)) (SvBegin demo_identity 20)).2 =
      EvBegin (inr (WL_RPC_SERVER_REPLAY, rq', rs')) ∧
    rs_identity rs' = demo_identity ∧ rs_generation rs' = 1 ∧ rs_application_status rs' = 4 ∧
    response_bytes (server_run (ops ++ [SvBegin demo_identity 20]) (demo_bytes, demo_server)).1 rs' =
    [10; 20; 30].
Proof.
  apply (server_replay_exact demo_bytes blank_server demo_server demo_server_config None [] demo_identity 0
           demo_request response_zero [] demo_complete 4
           (mk_response demo_identity 4 4096 3 1) [SvAcquire] 20).
  - apply demo_config_ok.
  - done.
  - apply demo_server_apart.
  - cbn [server_ok server_may]. split_and!; done.
  - cbn. lia.
  - done.
  - done.
  - done.
  - split; [intros e _ []|]. split; [intros e _ []|]. split; [|done]. intros e _. apply demo_keeps_begin.
Defined.
