(* ===== verification/RpcPromises.v ===== *)
(** What the RPC server promises the application that serves requests.

    An admitted request can always be completed, because its response storage is
    reserved before the handler runs; responses leave in the order of admission;
    and a discarded peer session leaves nothing behind. *)
From stdpp Require Import gmap.
From S2P Require Import Prelude Slots Clock Link Rpc RpcServer RpcHistory RpcLedger RpcServing RpcOnce.

(** ** Completion *)

(** An execution on record is found through its token, with its reserved slot. *)
Lemma resolve_executing m s rq :
  server_inv s → executing (server_ledger m s) rq →
  ∃ k r c, server_resolve_pending s rq = inr (k, r) ∧ response_at s r = c ∧
    rc_capacity c = sv_response_capacity s ∧ identity_valid (rq_identity rq) = true ∧ rq_generation rq ≠ 0.
Proof.
  intros Hs (r & c & Hr & H2 & _ & Ee)%server_ledger_Some; [|done].
  unfold slot_entry in Ee. injection Ee as Ei Eg Ea. case_bool_decide as Hst; [|done].
  destruct (vi_reserved s Hs r c Hr) as (k & p & Hk & Ha & Hp & _ & _ & Epi & Epg); [by split; [lia|]|].
  pose proof (slot_live s r c Hs Hr ltac:(lia)) as Hlive.
  unfold server_resolve_pending. destruct (list_find _ _) as [[k' p']|] eqn:Ef.
  - apply list_find_Some in Ef as (Hk' & [Ha' Heq] & _). unfold request_equal in Heq.
    rewrite andb_true_iff, Z.eqb_eq in Heq. destruct Heq as [Hg' _].
    assert (k' = k) as -> by (apply (vi_tokens s Hs k' k p' p); try done; congruence).
    assert (p' = p) as -> by congruence. rewrite Hp. unfold response_at. rewrite Hr. cbn [default from_option id].
    destruct (_ || _) eqn:E.
    { autorewrite with branch in E. destruct E as [[[E|E]|E]|E]; [lia|done|congruence|].
      by rewrite (proj2 (identity_equal_spec _ _) Ei) in E. }
    exists k, r, c. split; [done|]. rewrite Hr. split; [done|].
    split; [|rewrite <- Ei, <- Eg; split; [apply Hlive|destruct (lk_generation _ _ _ Hlive); lia]].
    rewrite (lk_capacity _ _ _ Hlive). unfold bank_capacity.
    by rewrite (proj1 (history_active s r c Hlive) H2).
  - exfalso. apply list_find_None in Ef. rewrite Forall_lookup in Ef. apply (Ef k p Hk). split; [done|].
    unfold request_equal. rewrite andb_true_iff, Z.eqb_eq, identity_equal_spec. split; congruence.
Qed.

Lemma complete_executing m s rq status payload length now :
  server_inv s → executing (server_ledger m s) rq → 0 <= length <= sv_response_capacity s →
  length = 0 ∨ payload ≠ NULL →
  let '(m', s', r) := wl_rpc_server_complete m s rq status payload length now in
  ∃ rs, r = inr rs ∧ rs_application_status rs = status ∧
        response_bytes m' rs = mread m payload (Z.to_nat length).
Proof.
  intros Hs He Hlen Hp. destruct (resolve_executing m s rq Hs He) as (k & r & c & Hres & Hat & Hcap & Hv & Hg).
  unfold wl_rpc_server_complete, server_initialized. rewrite (vi_magic s Hs), Z.eqb_refl. cbn [negb].
  destruct (_ || _) eqn:E.
  { exfalso. unfold request_valid in E. rewrite Hv in E. autorewrite with branch in E.
    destruct E as [[E|E]|[E1 E2]]; [done|done|]. destruct Hp; congruence. }
  rewrite Hres, Hat. destruct (_ <? _) eqn:El; [lia|]. unfold server_commit_reserved. rewrite Hat.
  eexists. split; [done|]. split; [done|]. unfold response_bytes. cbn.
  destruct (length =? 0) eqn:E0; cbn; [by replace length with 0 by lia|].
  destruct (payload =? rc_data c) eqn:Ed; cbn; [by replace payload with (rc_data c) by lia|].
  unfold memmove. apply mread_mwrite. by rewrite mread_length.
Qed.

(** C10: completion cannot fail for lack of room.  From the moment a request is
    admitted as new, while its entry is kept and it has not been completed, its
    token gives the reserved buffer with the full configured capacity, and a
    completion with any status and any response that fits succeeds and publishes
    exactly the bytes of the payload. *)
Theorem server_completion_reserved m0 s0 s config correlate a i t rq rp b :
  server_config_ok config correlate →
  wl_rpc_server_init_with_correlate s0 config correlate = (s, WL_RPC_OK) → storage_apart s →
  let ops := (a ++ [SvBegin i t]) ++ b in
  server_ok ops (m0, s) → Z.of_nat (length ops) < 2 ^ 64 - 2 →
  (server_exec (server_run a (m0, s)) (SvBegin i t)).2 = EvBegin (inr (WL_RPC_SERVER_NEW, rq, rp)) →
  Forall (λ op, ¬ settles_request rq op) b →
  keeps (key i) b (server_run (a ++ [SvBegin i t]) (m0, s)) →
  let x := server_run ops (m0, s) in
  (∃ buf, wl_rpc_server_response_prepare x.2 rq = inr buf ∧ rb_capacity buf = sv_response_capacity s) ∧
  ∀ status payload length now,
    0 <= length <= sv_response_capacity s → length = 0 ∨ payload ≠ NULL →
    let '(m', s', r) := wl_rpc_server_complete x.1 x.2 rq status payload length now in
    ∃ rs, r = inr rs ∧ rs_application_status rs = status ∧
          response_bytes m' rs = mread x.1 payload (Z.to_nat length).
Proof.
  intros Hcfg Hinit Hap ops Hok Hlen Hnew Hb Hkeep x. unfold ops in *. pose proof Hok as [Hok0 _]%server_ok_app.
  rewrite !length_app in Hlen. cbn [length] in Hlen.
  destruct (begin_new m0 s0 s config correlate Hcfg Hinit Hap a i t rq rp Hok0
              ltac:(rewrite length_app; cbn; lia) Hnew) as (_ & Hid & Hrec).
  destruct (entry_run m0 s0 s config correlate Hcfg Hinit Hap _ b (key i) _ Hok
              ltac:(rewrite !length_app; cbn; lia) Hrec Hkeep) as ([ei eg ea] & He & Ei & Eg & Ea).
  cbn in Ei, Eg, Ea. subst ei eg.
  assert (mk_request i (rq_generation rq) = rq) as Erq by (destruct rq; cbn in *; congruence).
  rewrite Erq in Ea. rewrite (Ea Hb) in He. fold x in He. rewrite <- Hid in He.
  destruct (run_state m0 s0 s config correlate Hcfg Hinit Hap _ Hok ltac:(rewrite !length_app; cbn; lia))
    as (Hs & _ & Hset & _). fold x in Hs, Hset.
  assert (sv_response_capacity x.2 = sv_response_capacity s) as <- by (injection Hset; auto).
  split.
  - destruct (resolve_executing _ _ _ Hs He) as (k & r & c & Hres & Hat & Hcap & Hv & Hg).
    unfold wl_rpc_server_response_prepare, server_initialized, request_valid.
    rewrite (vi_magic _ Hs), Z.eqb_refl, Hv, Hres, Hat. cbn [negb].
    destruct (rq_generation rq =? 0) eqn:E; [lia|]. by eexists.
  - intros. by apply complete_executing.
Qed.

Lemma server_completion_reserved_witness :
  let x := server_run [SvBegin demo_identity 0] (demo_bytes, demo_server) in
  (∃ buf, wl_rpc_server_response_prepare x.2 demo_request = inr buf ∧ rb_capacity buf = 8) ∧
  ∀ status payload length now,
    0 <= length <= 8 → length = 0 ∨ payload ≠ NULL →
    let '(m', s', r) := wl_rpc_server_complete x.1 x.2 demo_request status payload length now in
    ∃ rs, r = inr rs ∧ rs_application_status rs = status ∧
          response_bytes m' rs = mread x.1 payload (Z.to_nat length).
Proof.
  apply (server_completion_reserved demo_bytes blank_server demo_server demo_server_config None []
           demo_identity 0 demo_request response_zero []).
  - apply demo_config_ok.
  - done.
  - apply demo_server_apart.
  - done.
  - cbn. lia.
  - done.
  - done.
  - done.
Defined.

(** ** The order of the responses *)

Lemma generation_older_lt a b : 0 < a < 2 ^ 63 → 0 < b < 2 ^ 63 → generation_older a b = true ↔ a < b.
Proof.
  intros Ha Hb. unfold generation_older, u64. rewrite andb_true_iff, negb_true_iff, Z.eqb_neq, Z.ltb_lt.
  change (Z.shiftl 1 63) with (2 ^ 63). destruct (decide (a <= b)).
  - rewrite Z.mod_small by lia. lia.
  - rewrite <- (Z.mod_add _ 1), Z.mod_small by lia. lia.
Qed.

(** The search for the oldest entry finds the smallest generation. *)
Lemma oldest_min P l :
  (∀ k c, l !! k = Some c → P c = true → 0 < rc_generation c < 2 ^ 63) →
  match oldest P l with
  | Some (k, c) => l !! k = Some c ∧ P c = true ∧
      ∀ j x, l !! j = Some x → P x = true → rc_generation c <= rc_generation x
  | None => ∀ j x, l !! j = Some x → P x = false
  end.
Proof.
  intros Hr. unfold oldest. induction l as [|c l IH] using rev_ind; [by cbn|].
  rewrite imap_app, foldl_app. cbn [imap foldl]. rewrite Nat.add_0_r.
  assert (∀ k x, l !! k = Some x → (l ++ [c]) !! k = Some x) as Hl by (intros; by apply lookup_app_l_Some).
  assert ((l ++ [c]) !! length l = Some c) as Hc by apply list_lookup_middle, eq_refl.
  assert (∀ j x, (l ++ [c]) !! j = Some x → l !! j = Some x ∨ x = c) as Hcase.
  { intros j x [?|[_ Hx]]%lookup_app_Some; [by left|]. right.
    apply list_lookup_singleton_Some in Hx as [_ ?]. done. }
  specialize (IH (λ k x Hk, Hr k x (Hl k x Hk))). unfold oldest_step at 1. cbn [snd].
  destruct (P c) eqn:Pc; cbn [andb].
  - destruct (foldl _ _ _) as [[k b]|]; cbn.
    + destruct IH as (Hk & Pb & Hmin). pose proof (Hr _ _ Hc Pc). pose proof (Hr _ _ (Hl _ _ Hk) Pb).
      pose proof (generation_older_lt (rc_generation c) (rc_generation b) ltac:(done) ltac:(done)) as Ho.
      destruct (generation_older _ _).
      * split; [done|]. split; [done|]. intros j x [Hj| ->]%Hcase Px; [|lia]. specialize (Hmin j x Hj Px). lia.
      * split; [by apply Hl|]. split; [done|]. intros j x [Hj| ->]%Hcase Px; [by apply (Hmin j)|].
        destruct (decide (rc_generation c < rc_generation b)) as [?%Ho|]; [done|lia].
    + split; [done|]. split; [done|]. intros j x [Hj| ->]%Hcase Px; [|lia]. by rewrite (IH j x Hj) in Px.
  - destruct (foldl _ _ _) as [[k b]|]; cbn.
    + destruct IH as (Hk & Pb & Hmin). split; [by apply Hl|]. split; [done|].
      intros j x [Hj| ->]%Hcase Px; [by apply (Hmin j)|congruence].
    + intros j x [Hj| ->]%Hcase; [by apply (IH j)|done].
Qed.

(** responses leave in the order their requests were admitted.  Acquire hands out
    the ready response with the smallest generation, which is the one peek
    announces; it reports that there is none exactly when no response is ready. *)
Theorem server_oldest_first m0 s0 s config correlate ops :
  server_config_ok config correlate →
  wl_rpc_server_init_with_correlate s0 config correlate = (s, WL_RPC_OK) → storage_apart s →
  server_ok ops (m0, s) → Z.of_nat (length ops) < 2 ^ 63 - 2 →
  let s1 := (server_run ops (m0, s)).2 in
  let '(s2, r) := wl_rpc_server_response_acquire s1 in
  match r with
  | inr rs =>
      ∃ k c, sv_responses s1 !! k = Some c ∧ response_ready c = true ∧ rs = response_from_cache c ∧
        (∀ j c', sv_responses s1 !! j = Some c' → response_ready c' = true →
                 rc_generation c <= rc_generation c') ∧
        wl_rpc_server_response_peek s1 = inr (id_response_message_id (rs_identity rs)) ∧
        s2 = set_response s1 k (c <| rc_delivery_state := WL_RPC_RESPONSE_ACQUIRED |>)
  | inl e =>
      e = WL_RPC_ERR_NOT_FOUND ∧ s2 = s1 ∧ wl_rpc_server_response_peek s1 = inl WL_RPC_ERR_NOT_FOUND ∧
      ∀ j c, sv_responses s1 !! j = Some c → response_ready c = false
  end.
Proof.
  intros Hcfg Hinit Hap Hok Hlen s1.
  destruct (run_state m0 s0 s config correlate Hcfg Hinit Hap ops Hok ltac:(lia)) as (Hs & _ & _ & Hn).
  fold s1 in Hs, Hn.
  pose proof (oldest_min response_ready (sv_responses s1)) as Hmin.
  unfold wl_rpc_server_response_acquire, wl_rpc_server_response_peek, server_initialized.
  rewrite (vi_magic s1 Hs), Z.eqb_refl. cbn [negb].
  destruct (oldest response_ready (sv_responses s1)) as [[k c]|].
  - destruct Hmin as (Hk & Pc & Hmin).
    { intros k' c' Hk' Hc'. unfold response_ready in Hc'. autorewrite with branch in Hc'.
      pose proof (lk_generation _ _ _ (slot_live s1 k' c' Hs Hk' (proj1 Hc'))). lia. }
    by exists k, c.
  - do 3 (split; [done|]). apply Hmin. intros k' c' Hk' Hc'. unfold response_ready in Hc'.
    autorewrite with branch in Hc'. pose proof (lk_generation _ _ _ (slot_live s1 k' c' Hs Hk' (proj1 Hc'))). lia.
Qed.

Lemma server_oldest_first_witness :
  let s1 := (server_run [SvBegin demo_identity 0; demo_complete] (demo_bytes, demo_server)).2 in
  wl_rpc_server_response_peek s1 = inr 2 ∧
  let '(s2, r) := wl_rpc_server_response_acquire s1 in
  match r with
  | inr rs =>
      ∃ k c, sv_responses s1 !! k = Some c ∧ response_ready c = true ∧ rs = response_from_cache c ∧
        (∀ j c', sv_responses s1 !! j = Some c' → response_ready c' = true →
                 rc_generation c <= rc_generation c') ∧
        wl_rpc_server_response_peek s1 = inr (id_response_message_id (rs_identity rs)) ∧
        s2 = set_response s1 k (c <| rc_delivery_state := WL_RPC_RESPONSE_ACQUIRED |>)
  | inl e =>
      e = WL_RPC_ERR_NOT_FOUND ∧ s2 = s1 ∧ wl_rpc_server_response_peek s1 = inl WL_RPC_ERR_NOT_FOUND ∧
      ∀ j c, sv_responses s1 !! j = Some c → response_ready c = false
  end.
Proof.
  split; [vm_compute; reflexivity|].
  apply (server_oldest_first demo_bytes blank_server demo_server demo_server_config None
           [SvBegin demo_identity 0; demo_complete]).
  - apply demo_config_ok.
  - vm_compute. reflexivity.
  - apply demo_server_apart.
  - cbn [server_ok server_may demo_complete]. split_and!; done.
  - cbn. lia.
Defined.

(** ** Discarding a peer session *)

Definition pending_of (session : Z) (p : pending_slot) : Prop :=
  pd_active p = true ∧ id_peer_session_id (pd_identity p) = session.

Definition response_of (session : Z) (c : response_slot) : Prop :=
  rc_active c ≠ 0 ∧ id_peer_session_id (rc_identity c) = session.

#[export] Instance response_of_dec session c : Decision (response_of session c).
Proof. unfold response_of. apply _. Defined.

(** What is not of the session stays, and nothing else appears. *)
Definition others_kept (session : Z) (s s' : server) : Prop :=
  (∀ k p, sv_pending s !! k = Some p → ¬ pending_of session p → sv_pending s' !! k = Some p) ∧
  (∀ k c, sv_responses s !! k = Some c → ¬ response_of session c → sv_responses s' !! k = Some c) ∧
  (∀ k c, sv_responses s' !! k = Some c → c = response_slot_zero ∨ sv_responses s !! k = Some c) ∧
  (∀ k c, sv_responses s !! k = Some c → in_state WL_RPC_RESPONSE_IN_FLIGHT c → sv_responses s' !! k = Some c) ∧
  length (sv_responses s') = length (sv_responses s).

Lemma others_refl session s : others_kept session s s.
Proof. repeat split; auto. Qed.

Lemma others_trans session s1 s2 s3 :
  others_kept session s1 s2 → others_kept session s2 s3 → others_kept session s1 s3.
Proof.
  intros (A1 & A2 & A3 & A4 & A5) (B1 & B2 & B3 & B4 & B5). split_and!.
  - intros k p Hk Hn. apply B1; [|done]. by apply A1.
  - intros k c Hk Hn. apply B2; [|done]. by apply A2.
  - intros k c [?|?%A3]%B3; auto.
  - intros k c Hk Hn. apply B4; [|done]. by apply A4.
  - congruence.
Qed.

Lemma discard_pending_others session s n k :
  server_inv s → others_kept session s (discard_pending session (s, n) k).1.
Proof.
  intros Hs. unfold discard_pending.
  destruct (sv_pending s !! k) as [p|] eqn:Ep; cbn [default from_option id]; [|apply others_refl].
  destruct (_ || _) eqn:E; [apply others_refl|]. autorewrite with branch in E. destruct E as [Ha Es].
  destruct (pending_live s k p Hs Ep Ha) as (r & c & Hres). cbn [fst].
  rewrite (release_reserved_eq s p r c Hres). destruct Hres as (_ & _ & Hr & [Hl Hst] & Ei & _).
  repeat split; cbn.
  - intros j q Hj Hn. rewrite list_lookup_insert_ne; [done|]. intros ->.
    assert (q = p) as -> by congruence. by destruct Hn.
  - intros j x Hj Hn. rewrite list_lookup_insert_ne; [done|]. intros ->.
    assert (x = c) as -> by congruence. destruct Hn. split; [done|]. congruence.
  - intros j x [(_ & <- & _)|[_ ?]]%list_lookup_insert_Some; auto.
  - intros j x Hj [_ Hf]. rewrite list_lookup_insert_ne; [done|]. intros ->. congruence.
  - apply length_insert.
Qed.

Lemma discard_pendings_others session ks s n :
  server_inv s → others_kept session s (foldl (discard_pending session) (s, n) ks).1.
Proof.
  revert s n. induction ks as [|k ks IH]; intros s n Hs; cbn [foldl]; [apply others_refl|].
  pose proof (discard_pending_others session s n k Hs) as Ho.
  destruct (discard_pending_one (λ _, 0) session s n k Hs) as (mvs & s1 & n1 & E & Hc & _).
  rewrite E in *. eapply others_trans; [exact Ho|]. apply IH. by apply (changes_inv _ _ _ Hc).
Qed.

(** The loop over the response slots. *)
Lemma discard_responses session ks s n hs :
  NoDup ks →
  let '(s', _, hs') := foldl (discard_response session) (s, n, hs) ks in
  sv_pending s' = sv_pending s ∧ length (sv_responses s') = length (sv_responses s) ∧
  (∀ k c, sv_responses s !! k = Some c →
     sv_responses s' !! k = Some (if decide (k ∈ ks ∧ response_of session c) then response_slot_zero else c)) ∧
  ∀ h, h ∈ hs' ↔ h ∈ hs ∨ h ≠ 0 ∧ ∃ k c, k ∈ ks ∧ sv_responses s !! k = Some c ∧ response_of session c ∧
    rc_delivery_state c = WL_RPC_RESPONSE_IN_FLIGHT ∧ rc_tx_handle c = h.
Proof.
  intros Hnd. revert s n hs. induction Hnd as [|k ks Hk Hnd IH]; intros s n hs; cbn [foldl].
  { split; [done|]. split; [done|]. split; [|set_solver].
    intros k c Hk. rewrite decide_False; [done|]. by intros [?%not_elem_of_nil _]. }
  unfold discard_response at 2.
  assert ((rc_active (response_at s k) =? 0) ||
          negb (id_peer_session_id (rc_identity (response_at s k)) =? session) =
          negb (bool_decide (response_of session (response_at s k)))) as ->.
  { destruct (Z.eqb_spec (rc_active (response_at s k)) 0),
      (Z.eqb_spec (id_peer_session_id (rc_identity (response_at s k))) session);
      case_bool_decide as Hb; unfold response_of in Hb; cbn; done || tauto. }
  destruct (bool_decide _) eqn:E; autorewrite with branch in E; cbn [negb].
  - assert (sv_responses s !! k = Some (response_at s k)) as Hat.
    { unfold response_at in *. destruct (sv_responses s !! k); [done|]. by destruct E. }
    set (c := response_at s k) in *. set (hs1 := if _ =? 0 then hs else _).
    specialize (IH (set_response s k response_slot_zero) (u16 (n + 1)) hs1).
    destruct (foldl _ _ ks) as [[s' n'] hs']. destruct IH as (Hp & Hlen & Hr & Hh).
    split; [done|]. split; [by rewrite Hlen; apply length_insert|]. split.
    + intros j x Hj. destruct (decide (j = k)) as [->|Hne].
      * assert (x = c) as -> by congruence. rewrite decide_True by (split; [by left|done]).
        rewrite (Hr k response_slot_zero); [by rewrite decide_False by tauto|].
        cbn. apply list_lookup_insert_eq. by apply lookup_lt_Some in Hat.
      * rewrite (Hr j x) by (cbn; by rewrite list_lookup_insert_ne).
        f_equal. apply decide_ext. rewrite elem_of_cons. naive_solver.
    + intros h. rewrite Hh. cbn.
      assert (h ∈ hs1 ↔ h ∈ hs ∨ h ≠ 0 ∧ rc_delivery_state c = WL_RPC_RESPONSE_IN_FLIGHT ∧ rc_tx_handle c = h)
        as ->.
      { unfold hs1. case_bool_decide; destruct (Z.eqb_spec (rc_tx_handle c) 0); cbn;
          rewrite ?elem_of_cons; naive_solver. }
      split.
      * intros [[?|(? & ? & ?)]|(? & j & x & Hj & Hx & ?)]; [by left|right; split; [done|]; exists k, c; set_solver|].
        right. split; [done|]. exists j, x. rewrite list_lookup_insert_ne in Hx by congruence. set_solver.
      * intros [?|(? & j & x & [->|Hj]%elem_of_cons & Hx & ?)]; [tauto| |].
        -- assert (x = c) as -> by congruence. tauto.
        -- right. split; [done|]. exists j, x. rewrite list_lookup_insert_ne by congruence. tauto.
  - specialize (IH s n hs). destruct (foldl _ _ ks) as [[s' n'] hs']. destruct IH as (Hp & Hlen & Hr & Hh).
    assert (∀ x, sv_responses s !! k = Some x → ¬ response_of session x) as Hno
      by (intros x Hx; unfold response_at in E; by rewrite Hx in E).
    split; [done|]. split; [done|]. split.
    + intros j x Hj. rewrite (Hr j x Hj). f_equal. apply decide_ext. rewrite elem_of_cons. naive_solver.
    + intros h. rewrite Hh. setoid_rewrite elem_of_cons. naive_solver.
Qed.

(** a peer session that is over leaves nothing behind.  After a discard no
    pending request and no response of the session is left, every other entry of
    both tables is untouched, and the handles reported for cancellation are exactly
    those of the responses of the session that are in flight. *)
Theorem server_discard_complete m0 s0 s config correlate ops session :
  server_config_ok config correlate →
  wl_rpc_server_init_with_correlate s0 config correlate = (s, WL_RPC_OK) → storage_apart s →
  server_ok ops (m0, s) → Z.of_nat (length ops) < 2 ^ 64 - 2 → session ≠ 0 →
  let s1 := (server_run ops (m0, s)).2 in
  let '(s2, r) := wl_rpc_server_discard_session s1 session true in
  (∃ counts handles, r = inr (counts, handles) ∧
     ∀ h, h ∈ handles ↔ ∃ k c, sv_responses s1 !! k = Some c ∧ response_of session c ∧
       rc_delivery_state c = WL_RPC_RESPONSE_IN_FLIGHT ∧ rc_tx_handle c = h) ∧
  (∀ k p, sv_pending s2 !! k = Some p → ¬ pending_of session p) ∧
  (∀ k c, sv_responses s2 !! k = Some c → ¬ response_of session c) ∧
  (∀ k p, sv_pending s1 !! k = Some p → ¬ pending_of session p → sv_pending s2 !! k = Some p) ∧
  (∀ k c, sv_responses s1 !! k = Some c → ¬ response_of session c → sv_responses s2 !! k = Some c).
Proof.
  intros Hcfg Hinit Hap Hok Hlen Hne s1.
  destruct (run_state m0 s0 s config correlate Hcfg Hinit Hap ops Hok Hlen) as (Hs & _ & _ & _).
  fold s1 in Hs. unfold wl_rpc_server_discard_session, server_initialized.
  rewrite (vi_magic s1 Hs), Z.eqb_refl. cbn [negb]. destruct (session =? 0) eqn:E0; [lia|].
  set (ps := seq 0 (Z.to_nat (sv_pending_slot_count s1))).
  pose proof (discard_pending_changes (λ _, 0) session ps s1 0 Hs) as Hcl.
  pose proof (discard_pendings_others session ps s1 0 Hs) as (O1 & O2 & O3 & O4 & O5).
  destruct (foldl (discard_pending session) (s1, 0) ps) as [sp np]. cbn [fst] in *.
  destruct Hcl as [_ Hcl].
  pose proof (discard_responses session (seq 0 (Z.to_nat (server_response_count s1))) sp 0 [] (NoDup_seq 0 _)) as Hd.
  destruct (foldl (discard_response session) _ _) as [[s2 n2] hs]. destruct Hd as (Hp & Hl & Hr & Hh).
  assert (∀ k c, sv_responses sp !! k = Some c → k ∈ seq 0 (Z.to_nat (server_response_count s1))) as Hall.
  { intros k c Hk%lookup_lt_Some. apply elem_of_seq. pose proof (vi_response_count s1 Hs) as E. unfold len in E.
    unfold server_response_count. pose proof (vi_bank_range s1 Hs). pose proof (vi_cache_range s1 Hs).
    rewrite u16_id by (unfold is_u16; lia). lia. }
  split_and!.
  - eexists _, _. split; [done|]. intros h. rewrite list_elem_of_In, <- in_rev, <- list_elem_of_In, Hh. split.
    + intros [?%not_elem_of_nil|(_ & k & c & _ & Hk & Hof & Hf & Eh)]; [done|].
      exists k, c. destruct (O3 k c Hk) as [->|?]; [by destruct Hof|done].
    + intros (k & c & Hk & Hof & Hf & Eh). right.
      pose proof (O4 k c Hk (conj (proj1 Hof) Hf)) as Hk'.
      split; [|exists k, c; split; [by eapply Hall|done]]. rewrite <- Eh.
      by apply (lk_flight _ _ _ (slot_live s1 k c Hs Hk (proj1 Hof))).
  - intros k p Hk [Ha Es]. rewrite Hp in Hk. refine (Hcl k _ p Hk Ha Es).
    destruct (decide (k ∈ ps)) as [?|Hn]; [by left|right]. intros q Hq%lookup_lt_Some. exfalso. apply Hn.
    apply elem_of_seq. pose proof (vi_pending_count s1 Hs) as E. unfold len in E. clear -E Hq. clearbody s1. lia.
  - intros k c Hk Hof. assert (k < length (sv_responses sp))%nat as Hlt by (rewrite <- Hl; by apply lookup_lt_Some in Hk).
    apply lookup_lt_is_Some in Hlt as [x Hx]. rewrite (Hr k x Hx) in Hk. injection Hk as <-.
    destruct (decide _) as [|Hd]; [by destruct Hof|]. apply Hd. split; [by eapply Hall|done].
  - intros k p Hk Hn. rewrite Hp. by apply O1.
  - intros k c Hk Hn. rewrite (Hr k c (O2 k c Hk Hn)). by rewrite decide_False by tauto.
Qed.

Lemma server_discard_complete_witness :
  let s1 := (server_run [SvBegin demo_identity 0; demo_complete] (demo_bytes, demo_server)).2 in
  (sv_responses s1 !! 0%nat =
     Some (mk_response_slot demo_identity 3 1 4096 0 10 4 8 2 WL_RPC_RESPONSE_READY)) ∧
  let '(s2, r) := wl_rpc_server_discard_session s1 5 true in
  (∃ counts handles, r = inr (counts, handles) ∧
     ∀ h, h ∈ handles ↔ ∃ k c, sv_responses s1 !! k = Some c ∧ response_of 5 c ∧
       rc_delivery_state c = WL_RPC_RESPONSE_IN_FLIGHT ∧ rc_tx_handle c = h) ∧
  (∀ k p, sv_pending s2 !! k = Some p → ¬ pending_of 5 p) ∧
  (∀ k c, sv_responses s2 !! k = Some c → ¬ response_of 5 c) ∧
  (∀ k p, sv_pending s1 !! k = Some p → ¬ pending_of 5 p → sv_pending s2 !! k = Some p) ∧
  (∀ k c, sv_responses s1 !! k = Some c → ¬ response_of 5 c → sv_responses s2 !! k = Some c).
Proof.
  split; [vm_compute; reflexivity|].
  apply (server_discard_complete demo_bytes blank_server demo_server demo_server_config None
           [SvBegin demo_identity 0; demo_complete] 5).
  - apply demo_config_ok.
  - vm_compute. reflexivity.
  - apply demo_server_apart.
  - cbn [server_ok server_may demo_complete]. split_and!; done.
  - cbn. lia.
  - done.
Defined.
