(* ===== verification/RpcRefine.v ===== *)
(** The RPC server implements its ledger.

    [RpcLedger] turns each change of the tables into a step of the ledger.  Here
    every operation gets its exact effect on the ledger, as a function of the
    ledger before it: which entry a delivery marks, what a discarded session, an
    abandoned request or a poll removes, and how an admission makes room. *)
From stdpp Require Import gmap.
From S2P Require Import Prelude Slots Clock Link Rpc RpcServer RpcHistory RpcLedger RpcServing RpcOnce RpcPromises.

(** ** Effects *)

(** The execution of [i] with generation [g] has had its answer delivered.  An
    execution without a record, one of the correlate bank, leaves no trace. *)
Definition mark_delivered (L : ledger) (i : identity) (g : Z) : ledger :=
  match L !! key i with
  | Some (mk_entry i' g' (Some a)) =>
      if decide (g' = g) then <[key i := mk_entry i' g' (Some (set_delivered true a))]> L else L
  | _ => L
  end.

Definition is_delivered (e : entry) : Prop :=
  match en_answer e with Some a => an_delivered a = true | None => False end.

(** A delivered answer that is older than the history keeps answers. *)
Definition aged (ttl now : Z) (e : entry) : Prop :=
  match en_answer e with
  | Some a => an_delivered a = true ∧ elapsed now (an_completed_at a) ttl = true
  | None => False
  end.

#[export] Instance aged_dec ttl now e : Decision (aged ttl now e).
Proof. unfold aged. destruct (en_answer e); apply _. Defined.

Definition unexpired (ttl now : Z) (L : ledger) : ledger := filter (λ ke, ¬ aged ttl now ke.2) L.

Definition without_session (session : Z) (L : ledger) : ledger := filter (λ ke, ke.1.1 ≠ session) L.

(** [k] is the delivered entry that was admitted first; generations compare as
    they were taken as long as the counter is in its lower half. *)
Definition oldest_delivered (L : ledger) (k : Z * Z) : Prop :=
  ∃ e, L !! k = Some e ∧ is_delivered e ∧
    ((∀ k' e', L !! k' = Some e' → en_generation e' < 2 ^ 63) →
     ∀ k' e', L !! k' = Some e' → is_delivered e' → en_generation e <= en_generation e').

(** What an admission at [now] does to the ledger, by its result.  A request that is
    not on record is admitted after everything aged was forgotten; when the history
    is full then, either the oldest delivered entry makes room or the request is
    refused. *)
Definition begin_effect (slots policy ttl : Z) (L : ledger) (i : identity) (now : Z)
    (r : rpc_err + disposition * request * response) (L' : ledger) : Prop :=
  let L1 := unexpired ttl now L in
  match r with
  | inr (WL_RPC_SERVER_NEW, rq, _) =>
      ∃ L2, L' = <[key i := mk_entry i (rq_generation rq) None]> L2 ∧
        ((Z.of_nat (size L1) < slots ∧ L2 = L1) ∨
         (Z.of_nat (size L1) = slots ∧ policy = WL_RPC_CACHE_EVICT_OLDEST ∧
          ∃ k, oldest_delivered L1 k ∧ L2 = delete k L1))
  | inl WL_RPC_ERR_CACHE_FULL =>
      L' = L1 ∧ Z.of_nat (size L1) = slots ∧
      (policy = WL_RPC_CACHE_EVICT_OLDEST → ∀ k e, L1 !! k = Some e → ¬ is_delivered e)
  | inl WL_RPC_ERR_NO_SLOT => L' = L1
  | inr (WL_RPC_SERVER_PENDING_DUPLICATE, _, _) => L' = L
  | inr (WL_RPC_SERVER_CONFLICT, _, _) | inr (WL_RPC_SERVER_REPLAY, _, _) =>
      ∀ k, k ≠ key i → L' !! k = L !! k ∨ L' !! k = L1 !! k
  | inl _ => L' = L
  end.

(** The response [rs] is with the sender. *)
Definition acquired (s : server) (rs : response) : Prop :=
  ∃ k c, sv_responses s !! k = Some c ∧ in_state WL_RPC_RESPONSE_ACQUIRED c ∧ response_matches rs c = true.

(** The response to the execution of [i] with generation [g] is in flight under the
    handle [h] of the link. *)
Definition flight (s : server) (h : Z) (i : identity) (g : Z) : Prop :=
  ∃ k c, sv_responses s !! k = Some c ∧ in_state WL_RPC_RESPONSE_IN_FLIGHT c ∧
    rc_tx_handle c = h ∧ rc_identity c = i ∧ rc_generation c = g.

(** The effect of an operation that takes [x] to [y]. *)
Definition op_effect (x : mem * server) (op : server_op) (y : mem * server) : Prop :=
  let s := x.2 in
  let L := server_ledger x.1 s in
  let L' := server_ledger y.1 y.2 in
  match op with
  | SvBegin i now =>
      begin_effect (sv_cache_slot_count s) (sv_cache_policy s) (sv_cache_ttl_ms s) L i now
        (wl_rpc_server_begin s i now).2 L'
  | SvSubmitted rs handle =>
      L' = L ∧ ((wl_rpc_server_response_submitted s rs handle).2 = WL_RPC_OK →
                flight y.2 handle (rs_identity rs) (rs_generation rs))
  | SvSent rs =>
      (acquired s rs → L' = mark_delivered L (rs_identity rs) (rs_generation rs)) ∧
      (¬ acquired s rs → L' = L)
  | SvTxEvent ev =>
      if tx_terminal_event ev then
        (∀ i g, flight s (ev_handle ev) i g → L' = mark_delivered L i g) ∧
        ((∀ i g, ¬ flight s (ev_handle ev) i g) → L' = L)
      else L' = L
  | SvDiscard session _ => L' = if session =? 0 then L else without_session session L
  | SvPeer peer session _ =>
      L' = if (session =? 0) || (peer =? session) || (peer =? 0) then L else without_session peer L
  | SvAbandon rq =>
      (executing L rq → L' = delete (key (rq_identity rq)) L) ∧ (¬ executing L rq → L' = L)
  | SvPoll now => L' = unexpired (sv_cache_ttl_ms s) now L
  | SvCommit _ _ _ _ | SvComplete _ _ _ _ _ | SvReject _ _ _ _ _ => True
  | SvBeginCorrelate _ _ | SvAcquire | SvDefer _ | SvObserver _ _ | SvExpiredAcquire _ | SvWrite _ _ => L' = L
  end.

(** ** Delivery *)

(** Marking needs the slot of the execution in the history. *)
Lemma mark_slot m s s' k c h :
  server_inv s → server_inv s' → sv_responses s !! k = Some c → rc_active c ≠ 0 →
  rc_delivery_state c ≠ WL_RPC_RESPONSE_RESERVED →
  sv_responses s' =
    <[k := if rc_active c =? 2 then c <| rc_tx_handle := h |> <| rc_delivery_state := WL_RPC_RESPONSE_DELIVERED |>
           else response_slot_zero]> (sv_responses s) →
  server_ledger m s' = mark_delivered (server_ledger m s) (rc_identity c) (rc_generation c).
Proof.
  intros Hs Hs' Hk Hl Hst Hr. unfold mark_delivered.
  destruct (active_cases s k c (slot_live s k c Hs Hk Hl)) as [E|E]; rewrite E in Hr; cbn [Z.eqb Pos.eqb] in Hr.
  - rewrite (ledger_keep m s s' k c _ Hs Hs' Hk Hr) by (done || lia).
    destruct (server_ledger m s !! key (rc_identity c)) as [[i' g' [a|]]|] eqn:El; [|done..].
    rewrite decide_False; [done|]. intros ->.
    apply server_ledger_Some in El as (j & x & Hj & Hx & _ & Ex); [|done]. injection Ex as _ Eg _.
    assert (j = k) as -> by (apply (vi_generations s Hs j k x c); try done; lia).
    assert (x = c) as -> by congruence. lia.
  - rewrite (ledger_set m s s' k c _ Hs Hs' Hk Hr) by done.
    rewrite (slot_recorded m s k c Hs Hk E). unfold slot_entry. rewrite (bool_decide_eq_false_2 _ Hst).
    rewrite decide_True by done. done.
Qed.

Lemma response_find_iff s rs k c :
  server_inv s → sv_responses s !! k = Some c → rc_active c ≠ 0 → response_matches rs c = true →
  server_response_find s rs = Some (k, c).
Proof.
  intros Hs Hk Hl Hm. unfold server_response_find.
  assert (rc_generation c = rs_generation rs ∧ rc_identity c = rs_identity rs) as [Eg Ei].
  { unfold response_matches in Hm. rewrite !andb_true_iff, identity_equal_spec in Hm. split; [lia|tauto]. }
  rewrite <- Ei, (lk_identity _ _ _ (slot_live s k c Hs Hk Hl)). cbn [negb].
  apply list_find_Some. split; [done|]. split; [done|]. intros j x Hj Hlt Hx.
  unfold response_matches in Hx. rewrite !andb_true_iff, negb_true_iff in Hx.
  assert (j = k) as -> by (apply (vi_generations s Hs j k x c); try done; lia). lia.
Qed.

Lemma sent_effect m s rs :
  server_inv s →
  let L := server_ledger m s in
  let L' := server_ledger m (wl_rpc_server_response_sent s rs).1 in
  (acquired s rs → L' = mark_delivered L (rs_identity rs) (rs_generation rs)) ∧ (¬ acquired s rs → L' = L).
Proof.
  intros Hs L L'. destruct (sent_changes m s rs Hs) as (mvs & Hc & _).
  pose proof (changes_inv _ _ _ Hc Hs) as Hs'. cbn [snd] in Hs'. clear Hc. subst L'. revert Hs'.
  unfold wl_rpc_server_response_sent, server_initialized. rewrite (vi_magic s Hs), Z.eqb_refl. cbn [negb].
  destruct (server_response_find s rs) as [[k c]|] eqn:Ef; cbn [fst]; intros Hs'.
  2: { split; [|done]. intros (k & c & Hk & [Hl _] & Hm). by rewrite (response_find_iff s rs k c) in Ef. }
  pose proof Ef as (Hk & Hl & Ei & Eg)%response_find_live.
  case_bool_decide as Hst; cbn [fst] in *.
  - split; [|done]. intros (j & x & Hj & [Hlx Hx] & Hm). rewrite (response_find_iff s rs j x) in Ef by done.
    by injection Ef as -> ->.
  - assert (response_matches rs c = true) as Hm.
    { unfold server_response_find in Ef. destruct (negb _); [done|].
      by apply list_find_Some in Ef as (_ & ? & _). }
    split; [|intros Hno; exfalso; apply Hno; by exists k, c].
    intros _. rewrite <- Ei, <- Eg. eapply (mark_slot m s _ k c (rc_tx_handle c)); try done; try congruence.
Qed.

Lemma tx_event_effect m s ev :
  server_inv s →
  let L := server_ledger m s in
  let L' := server_ledger m (wl_rpc_server_on_tx_event s ev).1.1 in
  if tx_terminal_event ev then
    (∀ i g, flight s (ev_handle ev) i g → L' = mark_delivered L i g) ∧
    ((∀ i g, ¬ flight s (ev_handle ev) i g) → L' = L)
  else L' = L.
Proof.
  intros Hs L L'. destruct (tx_event_changes m s ev Hs) as (mvs & Hc & _).
  pose proof (changes_inv _ _ _ Hc Hs) as Hs'. cbn [snd] in Hs'. clear Hc. subst L'. revert Hs'.
  unfold wl_rpc_server_on_tx_event, server_initialized. rewrite (vi_magic s Hs), Z.eqb_refl. cbn [negb].
  destruct (tx_terminal_event ev); cbn [negb fst]; [|done].
  destruct (Z.eqb_spec (ev_handle ev) 0) as [E0|E0]; cbn [fst]; intros Hs'.
  { split; [|done]. intros i g (k & c & Hk & [Hl Hst] & Eh & _). exfalso.
    apply (lk_flight _ _ _ (slot_live s k c Hs Hk Hl) Hst). congruence. }
  destruct (list_find _ _) as [[k c]|] eqn:Ef; cbn [fst] in *.
  - apply list_find_Some in Ef as (Hk & (Hl & Hst & Hh) & _).
    assert (flight s (ev_handle ev) (rc_identity c) (rc_generation c)) as Hfl by (by exists k, c).
    split; [|intros Hno; by destruct (Hno _ _ Hfl)]. intros i g (j & x & Hj & Hx & Eh & <- & <-).
    assert (j = k) as -> by (apply (vi_handles s Hs j k x c); try done; congruence).
    assert (x = c) as -> by congruence. eapply (mark_slot m s _ k c 0); try done; try congruence. cbn.
    by destruct (active_cases s k c (slot_live s k c Hs Hk Hl)) as [-> | ->].
  - split; [|done]. intros i g (k & c & Hk & [Hl Hst] & Eh & _). exfalso.
    apply list_find_None in Ef. rewrite Forall_lookup in Ef. by apply (Ef k c Hk).
Qed.

Lemma submitted_effect s rs handle :
  server_inv s → (wl_rpc_server_response_submitted s rs handle).2 = WL_RPC_OK →
  flight (wl_rpc_server_response_submitted s rs handle).1 handle (rs_identity rs) (rs_generation rs).
Proof.
  intros Hs. unfold wl_rpc_server_response_submitted. destruct (negb _); [done|]. destruct (_ =? 0); [done|].
  destruct (server_response_find s rs) as [[k c]|] eqn:Ef; [|done]. case_bool_decide; [done|].
  apply response_find_live in Ef as (Hk & Hl & Ei & Eg). destruct (list_find _ _); [done|]. cbn. intros _.
  eexists k, _. split; [apply list_lookup_insert_eq; by apply lookup_lt_Some in Hk|]. by split_and!.
Qed.

(** ** What is given up *)

Lemma abandon_effect m s rq :
  server_inv s →
  let L := server_ledger m s in
  let L' := server_ledger m (wl_rpc_server_abandon s rq).1 in
  (executing L rq → L' = delete (key (rq_identity rq)) L) ∧ (¬ executing L rq → L' = L).
Proof.
  intros Hs L L'. destruct (abandon_changes m s rq Hs) as (mvs & Hc & _).
  pose proof (changes_inv _ _ _ Hc Hs) as Hs'. cbn [snd] in Hs'. clear Hc. subst L'. revert Hs'.
  unfold wl_rpc_server_abandon, server_initialized. rewrite (vi_magic s Hs), Z.eqb_refl. cbn [negb].
  assert (executing L rq → request_valid rq = true ∧
    ∃ k p, sv_pending s !! k = Some p ∧ pd_active p = true ∧ request_equal rq p = true) as Hex.
  { intros (r & c & Hr & H2 & _ & Ee)%server_ledger_Some; [|done]. injection Ee as Ei Eg Ea.
    case_bool_decide as Hst; [|done].
    destruct (vi_reserved s Hs r c Hr) as (k & p & Hk & Ha & _ & _ & _ & Epi & Epg); [by split; [lia|]|].
    pose proof (slot_live s r c Hs Hr ltac:(lia)) as [_ Hid Hg _ _ _ _]. split.
    - unfold request_valid. rewrite <- Ei, <- Eg, Hid. lia.
    - exists k, p. split_and!; [done..|]. unfold request_equal. rewrite andb_true_iff, identity_equal_spec.
      split; [lia|congruence]. }
  destruct (request_valid rq) eqn:Ev; cbn [negb fst]; [|intros _; split; [intros [? _]%Hex; congruence|done]].
  destruct (list_find _ _) as [[k p]|] eqn:Ef; cbn [fst]; intros Hs'.
  2: { split; [|done]. intros (_ & k & p & Hk & Hp & Hq)%Hex. apply list_find_None in Ef.
       rewrite Forall_lookup in Ef. by destruct (Ef k p Hk). }
  apply list_find_Some in Ef as (Hk & [Ha He] & _).
  destruct (pending_live s k p Hs Hk Ha) as (r & c & Hres). rewrite (release_reserved_eq s p r c Hres) in *.
  destruct Hres as (_ & _ & Hr & [Hl Hst] & Ei & Eg).
  unfold request_equal in He. rewrite andb_true_iff, identity_equal_spec in He. destruct He as [He1 He2].
  assert (rc_identity c = rq_identity rq ∧ rc_generation c = rq_generation rq) as [Ei' Eg'] by (split; [congruence|lia]).
  destruct (active_cases s r c (slot_live s r c Hs Hr Hl)) as [E|E].
  - rewrite (ledger_keep m s _ r c _ Hs Hs' Hr eq_refl) by (done || lia). split; [|done].
    intros (j & x & Hj & Hx & _ & Ex)%server_ledger_Some; [|done]. injection Ex as _ Egx _.
    assert (j = r) as -> by (apply (vi_generations s Hs j r x c); try done; lia).
    assert (x = c) as -> by congruence. lia.
  - rewrite (ledger_unset m s _ r c _ Hs Hs' Hr eq_refl) by done. rewrite Ei'. split; [done|].
    intros Hno. exfalso. apply Hno. unfold executing, L.
    rewrite <- Ei', (slot_recorded m s r c Hs Hr E). unfold slot_entry. by rewrite (bool_decide_eq_true_2 _ Hst), Eg'.
Qed.

(** The response slots after a discard. *)
Lemma discard_slots s session cancel :
  server_inv s → session ≠ 0 →
  let s2 := (wl_rpc_server_discard_session s session cancel).1 in
  (∀ k c, sv_responses s2 !! k = Some c → ¬ response_of session c) ∧
  (∀ k c, sv_responses s !! k = Some c → ¬ response_of session c → sv_responses s2 !! k = Some c) ∧
  (∀ k c, sv_responses s2 !! k = Some c → c = response_slot_zero ∨ sv_responses s !! k = Some c).
Proof.
  intros Hs Hne. unfold wl_rpc_server_discard_session, server_initialized.
  rewrite (vi_magic s Hs), Z.eqb_refl. cbn [negb]. destruct (session =? 0) eqn:E0; [lia|].
  set (ps := seq 0 (Z.to_nat (sv_pending_slot_count s))).
  pose proof (discard_pendings_others session ps s 0 Hs) as (_ & O2 & O3 & _ & O5).
  destruct (foldl (discard_pending session) (s, 0) ps) as [sp np]. cbn [fst] in *.
  pose proof (discard_responses session (seq 0 (Z.to_nat (server_response_count s))) sp 0 [] (NoDup_seq 0 _)) as Hd.
  destruct (foldl (discard_response session) _ _) as [[s2 n2] hs]. destruct Hd as (_ & Hl & Hr & _). cbn [fst].
  assert (∀ k c, sv_responses s2 !! k = Some c → ∃ x, sv_responses sp !! k = Some x ∧
    c = if decide (response_of session x) then response_slot_zero else x) as Hback.
  { intros k c Hk. assert (k < length (sv_responses sp))%nat as Hlt by (rewrite <- Hl; by apply lookup_lt_Some in Hk).
    apply lookup_lt_is_Some in Hlt as [x Hx]. exists x. split; [done|]. rewrite (Hr k x Hx) in Hk.
    injection Hk as <-. apply decide_ext. split; [by intros [_ ?]|]. intros Hof. split; [|done].
    apply lookup_lt_Some in Hx. apply elem_of_seq. pose proof (vi_response_count s Hs) as E. unfold len in E.
    unfold server_response_count. pose proof (vi_bank_range s Hs). pose proof (vi_cache_range s Hs).
    rewrite u16_id by (unfold is_u16; lia). lia. }
  split_and!.
  - intros k c (x & _ & ->)%Hback. destruct (decide _) as [|Hd]; [by intros [? _]|done].
  - intros k c Hk Hn. rewrite (Hr k c (O2 k c Hk Hn)). by rewrite decide_False by tauto.
  - intros k c (x & Hx & ->)%Hback. destruct (decide _); [by left|by apply O3].
Qed.

Lemma discard_effect m s session cancel :
  server_inv s →
  server_ledger m (wl_rpc_server_discard_session s session cancel).1 =
  if session =? 0 then server_ledger m s else without_session session (server_ledger m s).
Proof.
  intros Hs. destruct (Z.eqb_spec session 0) as [->|Hne].
  { unfold wl_rpc_server_discard_session. by destruct (negb _). }
  destruct (discard_changes m s session cancel Hs) as (mvs & Hc & _).
  pose proof (changes_inv _ _ _ Hc Hs) as Hs'. cbn [snd] in Hs'. clear Hc.
  pose proof (discard_slots s session cancel Hs Hne) as (D1 & D2 & D3).
  apply map_eq. intros q. apply option_eq. intros e.
  unfold without_session. rewrite map_lookup_filter_Some, !server_ledger_Some by done. cbn. split.
  - intros (j & c & Hj & Ha & Eq & Ee). pose proof (D1 j c Hj) as Hn. destruct (D3 j c Hj) as [->|Hj']; [done|].
    split; [by exists j, c|]. intros Es. apply Hn. subst q. split; [lia|done].
  - intros [(j & c & Hj & Ha & <- & Ee) Hn]. exists j, c. split_and!; try done.
    apply D2; [done|]. intros [_ ?]. done.
Qed.

Lemma peer_effect m s peer session cancel :
  server_inv s →
  server_ledger m (wl_rpc_peer_observe s peer session cancel).1.1 =
  if (session =? 0) || (peer =? session) || (peer =? 0) then server_ledger m s
  else without_session peer (server_ledger m s).
Proof.
  intros Hs. unfold wl_rpc_peer_observe, server_initialized. rewrite (vi_magic s Hs), Z.eqb_refl. cbn [negb].
  destruct (session =? 0); [done|]. destruct (peer =? session); [done|]. cbn [orb].
  pose proof (discard_effect m s peer cancel Hs) as H. destruct (peer =? 0); [done|]. cbn [negb].
  by destruct (wl_rpc_server_discard_session s peer cancel) as [s1 [e|[d hs]]].
Qed.

(** ** Expiry *)

Lemma expire_slots_map now ttl l n :
  (expire_slots now ttl l n).1 = (λ c, (server_cache_expire now ttl c).1) <$> l.
Proof.
  revert n. induction l as [|c l IH]; intros n; [done|]. cbn.
  destruct (server_cache_expire now ttl c) as [c1 gone].
  specialize (IH (if gone then u16 (n + 1) else n)). destruct (expire_slots _ _ l _) as [l1 n1].
  cbn in *. by rewrite IH.
Qed.

(** A lookup that finds nothing has passed the whole history. *)
Lemma history_lookup_all now ttl i l bank :
  history_lookup now ttl i l = (bank, None) → bank = (λ c, (server_cache_expire now ttl c).1) <$> l.
Proof.
  revert bank. induction l as [|c l IH]; intros bank; cbn; [congruence|].
  destruct (_ && _); [done|]. destruct (history_lookup now ttl i l) as [l1 [x|]]; [done|].
  intros [= <-]. by rewrite (IH l1).
Qed.

Lemma entry_aged m ttl now c :
  aged ttl now (slot_entry m c) ↔
  rc_delivery_state c = WL_RPC_RESPONSE_DELIVERED ∧ elapsed now (rc_completed_at c) ttl = true.
Proof.
  unfold aged, slot_entry. cbn. case_bool_decide as Hr; cbn; [|by rewrite bool_decide_eq_true].
  split; [done|]. intros [? _]. congruence.
Qed.

Lemma slot_aged m ttl now c :
  rc_active c ≠ 0 →
  (server_cache_expire now ttl c).1 =
  if decide (aged ttl now (slot_entry m c)) then response_slot_zero else c.
Proof.
  intros Hl. unfold server_cache_expire. destruct (decide _) as [Ha|Ha]; rewrite entry_aged in Ha.
  - destruct Ha as [Hd He]. replace (rc_active c =? 0) with false by lia.
    rewrite bool_decide_eq_false_2 by (by intros ?). by rewrite He.
  - destruct (_ || _ || _) eqn:E; [done|]. autorewrite with branch in E. destruct E as [[_ Hd] He].
    exfalso. apply Ha. split; [by apply dec_stable|done].
Qed.

(** The slots of a server after the history was gone through at [now]. *)
Definition swept (s : server) (now : Z) : server :=
  s <| sv_responses :=
    ((λ c, (server_cache_expire now (sv_cache_ttl_ms s) c).1) <$> history s) ++ correlated s |>.

Lemma swept_lookup s now k :
  server_inv s →
  sv_responses (swept s now) !! k =
  (if is_history s k then λ c, (server_cache_expire now (sv_cache_ttl_ms s) c).1 else id) <$> sv_responses s !! k.
Proof.
  intros Hs. cbn. pose proof (history_length s Hs) as Hn. pose proof (vi_cache_range s Hs).
  unfold is_history. destruct (Z.ltb_spec (Z.of_nat k) (sv_cache_slot_count s)).
  - rewrite lookup_app_l by (rewrite length_fmap; lia). rewrite list_lookup_fmap. unfold history.
    by rewrite lookup_take_lt by lia.
  - rewrite lookup_app_r by (rewrite length_fmap; lia). rewrite length_fmap, Hn. unfold correlated.
    rewrite lookup_drop. replace (_ + (k - _))%nat with k by lia. by destruct (sv_responses s !! k).
Qed.

Lemma swept_ledger m s now :
  server_inv s → server_inv (swept s now) →
  server_ledger m (swept s now) = unexpired (sv_cache_ttl_ms s) now (server_ledger m s).
Proof.
  intros Hs Hs'. apply map_eq. intros q. apply option_eq. intros e.
  unfold unexpired. rewrite map_lookup_filter_Some, !server_ledger_Some by done. cbn [fst snd].
  assert (∀ k c, sv_responses s !! k = Some c → rc_active c = 2 → is_history s k = true) as Hh.
  { intros k c Hk H2. apply (history_active s k c); [|done]. apply slot_live; [done..|lia]. }
  split.
  - intros (k & c' & Hk & H2 & Eq & Ee). rewrite swept_lookup in Hk by done.
    apply fmap_Some in Hk as (c & Hk & ->).
    assert (rc_active c ≠ 0) as Hl.
    { intros H0. apply (slot_free s k c Hs Hk) in H0 as ->. by destruct (is_history s k). }
    destruct (is_history s k) eqn:Eh; [|cbn in H2; by rewrite (Hh k c Hk H2) in Eh].
    rewrite (slot_aged m) in H2, Eq, Ee by done. destruct (decide _); [done|].
    split; [by exists k, c|]. by rewrite <- Ee.
  - intros [(k & c & Hk & H2 & Eq & Ee) Hn]. exists k, c. rewrite swept_lookup, Hk, (Hh k c Hk H2) by done. cbn.
    rewrite (slot_aged m) by lia. rewrite Ee. by rewrite decide_False.
Qed.

Lemma poll_effect m s now :
  server_inv s →
  server_ledger m (wl_rpc_server_poll s now).1 = unexpired (sv_cache_ttl_ms s) now (server_ledger m s).
Proof.
  intros Hs. destruct (poll_changes m s now Hs) as (mvs & Hc & _).
  pose proof (changes_inv _ _ _ Hc Hs) as Hs'. cbn [snd] in Hs'. clear Hc. revert Hs'.
  unfold wl_rpc_server_poll, server_expire, server_initialized. rewrite (vi_magic s Hs), Z.eqb_refl. cbn [negb].
  pose proof (expire_slots_map now (sv_cache_ttl_ms s) (history s) 0) as E.
  destruct (expire_slots _ _ _ _) as [bank n]. cbn [fst] in *. subst bank. by apply (swept_ledger m s now).
Qed.

(** ** Room in the history *)

Lemma distinct_NoDup {A B} (P : A → Prop) `{!∀ x, Decision (P x)} (f : A → B) l :
  distinct P f l → NoDup (f <$> filter P l).
Proof.
  induction l as [|x l IH]; intros Hd; [constructor|]. rewrite filter_cons.
  assert (distinct P f l) as Hd' by (intros i j y z Hi Hj; specialize (Hd (S i) (S j) y z Hi Hj); naive_solver).
  case_decide as Hx; [|by apply IH]. cbn. constructor; [|by apply IH].
  intros (y & Ey & [Hy [j Hj]%list_elem_of_lookup]%list_elem_of_filter)%list_elem_of_fmap.
  by specialize (Hd 0%nat (S j) x y eq_refl Hj Hx Hy Ey).
Qed.

Lemma filter_all {A} (P : A → Prop) `{!∀ x, Decision (P x)} l : Forall P l → filter P l = l.
Proof. induction 1 as [|x l Hx _ IH]; [done|]. rewrite filter_cons, decide_True by done. by rewrite IH. Qed.

Lemma filter_none {A} (P : A → Prop) `{!∀ x, Decision (P x)} l : Forall (λ x, ¬ P x) l → filter P l = [].
Proof. induction 1 as [|x l Hx _ IH]; [done|]. by rewrite filter_cons, decide_False by done. Qed.

Lemma history_slot s k c :
  server_inv s → history s !! k = Some c → rc_active c ≠ 0 → rc_active c = 2.
Proof.
  intros Hs [Hk Hh]%history_lookup_Some Hl. by apply (history_active s k c (slot_live s k c Hs Hk Hl)).
Qed.

Lemma ledger_size m s :
  server_inv s → size (server_ledger m s) = length (filter (λ c, rc_active c = 2) (history s)).
Proof.
  intros Hs. unfold server_ledger. rewrite map_size_list_to_map.
  - rewrite length_fmap, (banks s). cbn [app]. rewrite filter_app, (filter_none _ (correlated s)).
    + by rewrite app_nil_r.
    + apply Forall_lookup. intros k c Hk H2. unfold correlated in Hk. rewrite lookup_drop in Hk.
      apply (history_active s (Z.to_nat (sv_cache_slot_count s) + k) c) in H2; [|apply slot_live; [done..|lia]].
      unfold is_history in H2. pose proof (vi_cache_range s Hs). lia.
  - rewrite <- list_fmap_compose. apply (distinct_NoDup _ (λ c, key (rc_identity c))), (vi_keys s Hs).
Qed.

(** The history is full when no slot of it is free. *)
Lemma ledger_full m s :
  server_inv s → list_find (λ c, rc_active c = 0) (history s) = None →
  Z.of_nat (size (server_ledger m s)) = sv_cache_slot_count s ∧
  ∀ k c, history s !! k = Some c → rc_active c = 2.
Proof.
  intros Hs Hn%list_find_None. rewrite Forall_lookup in Hn.
  assert (∀ k c, history s !! k = Some c → rc_active c = 2) as Hall
    by (intros k c Hk; apply (history_slot s k c Hs Hk); by apply (Hn k)).
  split; [|done]. rewrite ledger_size, filter_all, history_length by (done || by apply Forall_lookup).
  pose proof (vi_cache_range s Hs). lia.
Qed.

Lemma ledger_room m s k c :
  server_inv s → list_find (λ c, rc_active c = 0) (history s) = Some (k, c) →
  Z.of_nat (size (server_ledger m s)) < sv_cache_slot_count s.
Proof.
  intros Hs (Hk & H0 & _)%list_find_Some. rewrite ledger_size by done.
  pose proof (length_filter_lt (λ c, rc_active c = 2) (history s) c) as Hlt.
  rewrite history_length in Hlt by done. pose proof (vi_cache_range s Hs).
  specialize (Hlt (list_elem_of_lookup_2 _ _ _ Hk) ltac:(lia)). lia.
Qed.

(** *** The oldest slot *)

Lemma older_lower a b : 0 < a < 2 ^ 63 → 0 < b < 2 ^ 63 → generation_older a b = (a <? b).
Proof.
  intros Ha Hb. unfold generation_older, u64. change (Z.shiftl 1 63) with (2 ^ 63).
  destruct (Z.ltb_spec a b).
  - rewrite Z.mod_small by lia. lia.
  - destruct (Z.eqb_spec a b) as [->|Hne]; [done|]. cbn [negb andb].
    rewrite <- (Z.mod_add _ 1) by lia. rewrite Z.mod_small by lia. lia.
Qed.

Lemma oldest_none P xs best :
  foldl (oldest_step P) best xs = None → best = None ∧ ∀ x, x ∈ xs → P x.2 = false.
Proof.
  revert best. induction xs as [|x xs IH]; intros best; cbn [foldl].
  { intros ->. split; [done|]. by intros ? ?%not_elem_of_nil. }
  intros [Hb Hxs]%IH. unfold oldest_step in Hb. destruct (P x.2) eqn:EP.
  - destruct best as [[j b]|]; [|done]. by destruct (true && _).
  - cbn in Hb. split; [done|]. intros y [->|Hy]%elem_of_cons; [done|by apply Hxs].
Qed.

Definition lower (x : nat * response_slot) : Prop := 0 < rc_generation x.2 < 2 ^ 63.

Lemma oldest_step_min P best x c :
  (P x.2 = true → lower x) → (∀ b, best = Some b → lower b) → oldest_step P best x = Some c →
  lower c ∧ (∀ b, best = Some b → rc_generation c.2 <= rc_generation b.2) ∧
  (P x.2 = true → rc_generation c.2 <= rc_generation x.2).
Proof.
  intros Hx Hb. unfold oldest_step. destruct (P x.2).
  - specialize (Hx eq_refl). destruct best as [[j b]|]; cbn [andb].
    + specialize (Hb _ eq_refl). unfold lower in Hb. cbn in Hb. rewrite older_lower by done.
      destruct (Z.ltb_spec (rc_generation x.2) (rc_generation b)); intros [= <-]; split_and!; try done;
        try (intros ? [= <-]); cbn; lia.
    + intros [= <-]. split_and!; try done.
  - cbn. intros ->. split_and!; [by apply Hb| |done]. intros b [= <-]. lia.
Qed.

Lemma oldest_fold_min P xs best c :
  (∀ x, x ∈ xs → P x.2 = true → lower x) → (∀ b, best = Some b → lower b) →
  foldl (oldest_step P) best xs = Some c →
  (∀ x, x ∈ xs → P x.2 = true → rc_generation c.2 <= rc_generation x.2) ∧
  (∀ b, best = Some b → rc_generation c.2 <= rc_generation b.2).
Proof.
  revert best. induction xs as [|x xs IH]; intros best Hx Hb; cbn [foldl].
  { intros ->. split; [by intros ? ?%not_elem_of_nil|]. intros b [= <-]. lia. }
  destruct (oldest_step P best x) as [c1|] eqn:E1; intros E.
  - destruct (oldest_step_min P best x c1 (Hx x ltac:(by left)) Hb E1) as (H1 & H2 & H3).
    destruct (IH (Some c1)) as [H4 H5]; [intros y Hy; apply Hx; by right|by intros ? [= <-]|done|].
    specialize (H5 c1 eq_refl). split; [|intros b Eb; specialize (H2 b Eb); lia].
    intros y [->|Hy]%elem_of_cons Hp; [specialize (H3 Hp); lia|by apply H4].
  - destruct (oldest_none P [x] best) as [-> Hno]; [done|].
    destruct (IH None) as [H4 _]; [intros y Hy; apply Hx; by right|done|done|]. split; [|done].
    intros y [->|Hy]%elem_of_cons Hp; [|by apply H4]. by rewrite Hno in Hp by left.
Qed.

Lemma entry_delivered m c :
  is_delivered (slot_entry m c) ↔ rc_delivery_state c = WL_RPC_RESPONSE_DELIVERED.
Proof.
  unfold is_delivered, slot_entry. cbn. case_bool_decide as Hr; cbn; [|by rewrite bool_decide_eq_true].
  split; [done|congruence].
Qed.

(** The history slot behind an entry. *)
Lemma entry_slot m s q e :
  server_inv s → server_ledger m s !! q = Some e →
  ∃ j c, history s !! j = Some c ∧ rc_active c = 2 ∧ key (rc_identity c) = q ∧ slot_entry m c = e.
Proof.
  intros Hs (j & c & Hj & H2 & Hq & He)%server_ledger_Some; [|done]. exists j, c. split; [|done].
  apply history_lookup_Some. split; [done|]. apply (history_active s j c); [apply slot_live; [done..|lia]|done].
Qed.

(** The slot taken in a full history is the oldest delivered one. *)
Lemma oldest_entry m s r c :
  server_inv s → (∀ k c, history s !! k = Some c → rc_active c = 2) →
  oldest (λ c, bool_decide (rc_delivery_state c = WL_RPC_RESPONSE_DELIVERED)) (history s) = Some (r, c) →
  history s !! r = Some c ∧ rc_delivery_state c = WL_RPC_RESPONSE_DELIVERED ∧
  oldest_delivered (server_ledger m s) (key (rc_identity c)).
Proof.
  intros Hs Hall Ho. pose proof Ho as [Hr Hd%bool_decide_eq_true]%oldest_Some. split; [done|]. split; [done|].
  pose proof Hr as [Hr' _]%history_lookup_Some.
  exists (slot_entry m c). split; [by apply (slot_recorded m s r c Hs Hr'), (Hall r)|].
  split; [by apply entry_delivered|]. intros Hlow q e Hq He.
  destruct (entry_slot m s q e Hs Hq) as (j & x & Hj & H2 & Ex & <-). apply entry_delivered in He.
  assert (∀ j x, history s !! j = Some x → lower (j, x)) as Hl.
  { intros j' x' Hj'. pose proof (Hall j' x' Hj') as Ha. apply history_lookup_Some in Hj' as [Hj' _].
    pose proof (lk_generation _ _ _ (slot_live s j' x' Hs Hj' ltac:(lia))).
    pose proof (Hlow _ _ (slot_recorded m s j' x' Hs Hj' Ha)). unfold lower. cbn in *. lia. }
  unfold oldest in Ho. apply oldest_fold_min in Ho as [Hmin _].
  - apply (Hmin (j, x)); [|by apply bool_decide_eq_true].
    apply (list_elem_of_lookup_2 _ j). by rewrite list_lookup_imap, Hj.
  - intros [j' x'] [i Hi]%list_elem_of_lookup _. rewrite list_lookup_imap in Hi.
    destruct (history s !! i) eqn:Ei; [|done]. injection Hi as -> ->. by apply Hl.
  - done.
Qed.

Lemma target_effect m s :
  server_inv s →
  let L := server_ledger m s in
  match history_target s with
  | Some (r, _) =>
      let L2 := server_ledger m (set_response s r response_slot_zero) in
      (Z.of_nat (size L) < sv_cache_slot_count s ∧ L2 = L) ∨
      (Z.of_nat (size L) = sv_cache_slot_count s ∧ sv_cache_policy s = WL_RPC_CACHE_EVICT_OLDEST ∧
       ∃ k, oldest_delivered L k ∧ L2 = delete k L)
  | None =>
      Z.of_nat (size L) = sv_cache_slot_count s ∧
      (sv_cache_policy s = WL_RPC_CACHE_EVICT_OLDEST → ∀ k e, L !! k = Some e → ¬ is_delivered e)
  end.
Proof.
  intros Hs L. pose proof (history_target_changes m s) as Hch. revert Hch.
  unfold history_target. destruct (list_find _ (history s)) as [[k x]|] eqn:Ef; intros Hch.
  - left. split; [by eapply ledger_room|]. destruct (Hch k x Hs eq_refl) as (_ & ev & _ & Hc & _).
    pose proof (changes_inv _ _ _ Hc Hs) as Hs'. cbn [snd] in Hs'.
    apply list_find_Some in Ef as ([Hk _]%history_lookup_Some & Hx & _).
    apply (ledger_keep m s _ k x _ Hs Hs' Hk eq_refl); cbn; lia.
  - destruct (ledger_full m s Hs Ef) as [Hsize Hall]. destruct (Z.eqb_spec (sv_cache_policy s) WL_RPC_CACHE_EVICT_OLDEST) as [Ep|Ep].
    2: { split; [done|]. by intros ?. }
    destruct (oldest _ (history s)) as [[r c]|] eqn:Eo.
    + right. split; [done|]. split; [done|].
      destruct (oldest_entry m s r c Hs Hall Eo) as (Hr & Hd & Hold). exists (key (rc_identity c)). split; [done|].
      destruct (Hch r c Hs eq_refl) as (_ & ev & _ & Hc & _).
      pose proof (changes_inv _ _ _ Hc Hs) as Hs'. cbn [snd] in Hs'.
      pose proof (Hall r c Hr) as H2. apply history_lookup_Some in Hr as [Hr _].
      by apply (ledger_unset m s _ r c _ Hs Hs' Hr eq_refl).
    + split; [done|]. intros _ q e Hq He.
      destruct (entry_slot m s q e Hs Hq) as (j & x & Hj & _ & _ & <-). apply entry_delivered in He.
      unfold oldest in Eo. apply oldest_none in Eo as [_ Hno]. specialize (Hno (j, x)). cbn in Hno.
      rewrite bool_decide_eq_true_2 in Hno by done.
      by discriminate Hno; apply (list_elem_of_lookup_2 _ j); rewrite list_lookup_imap, Hj.
Qed.

(** A new execution goes on record in the slot that was made free. *)
Lemma admit_effect m s k r i now :
  server_inv s → 0 < sv_next_generation s < 2 ^ 64 - 1 → is_history s r = true → (r < length (sv_responses s))%nat →
  let s0 := set_response s r response_slot_zero in
  let '(s', rq) := server_admit s k r (sv_response_capacity s) 2 i now in
  server_inv s0 → server_inv s' →
  server_ledger m s' = <[key i := mk_entry i (rq_generation rq) None]> (server_ledger m s0).
Proof.
  intros Hs Hn Hh Hlt s0. rewrite server_admit_eq by done. intros Hs0 Hs'.
  rewrite (ledger_set m s0 _ r response_slot_zero
    (mk_response_slot i 0 (sv_next_generation s) (server_response_data s (Z.of_nat r)) 0 0 0
       (sv_response_capacity s) 2 WL_RPC_RESPONSE_RESERVED) Hs0 Hs'); try done.
  - by apply list_lookup_insert_eq.
  - cbn. by rewrite list_insert_insert_eq.
Qed.

(** ** Admission *)

Lemma expired_kept policy ttl now L mvs L' k :
  ledger_steps policy ttl L mvs L' → Forall (expired_at now) mvs →
  L' !! k = L !! k ∨ L' !! k = unexpired ttl now L !! k.
Proof.
  intros Hst. induction Hst as [L|L mv L0 mvs L' Hs Hst IH]; intros Hx; [by left|].
  apply Forall_cons in Hx as [[q ->] Hx]. specialize (IH Hx).
  inversion Hs as [| | | | | |? ? i g a ? Hq Hd He|]; subst.
  assert (unexpired ttl now L !! q = None) as Hnone.
  { apply map_lookup_filter_None. right. intros e Ee Hn. apply Hn. cbn.
    assert (e = mk_entry i g (Some a)) as -> by congruence. by split. }
  destruct (decide (k = q)) as [->|Hne].
  - right. rewrite Hnone. unfold unexpired in IH. rewrite map_filter_delete, !lookup_delete_eq in IH. by destruct IH.
  - unfold unexpired in IH |- *. rewrite map_filter_delete, !lookup_delete_ne in IH by done. done.
Qed.

(** A request that is on record leaves all other entries, but for aged ones. *)
Lemma begin_kept m s i now d rq rs :
  server_inv s → storage_apart s → sv_next_generation s < 2 ^ 64 - 1 → identity_valid i = true →
  (wl_rpc_server_begin s i now).2 = inr (d, rq, rs) → d = WL_RPC_SERVER_REPLAY ∨ d = WL_RPC_SERVER_CONFLICT →
  ∀ k, k ≠ key i →
    let L := server_ledger m s in let L' := server_ledger m (wl_rpc_server_begin s i now).1 in
    L' !! k = L !! k ∨ L' !! k = unexpired (sv_cache_ttl_ms s) now L !! k.
Proof.
  intros Hs Hap Hn Hi Hr Hd k Hk. pose proof (begin_changes m s i now Hs Hn Hi) as Hb.
  destruct (wl_rpc_server_begin s i now) as [s' r]. cbn [fst snd] in *. subst r.
  destruct Hb as (mvs & s1 & tail & Hc & Hx & Ht & Htail).
  pose proof (changes_ledger (m, s) mvs (m, s1) Hc Hs Hap) as H1.
  pose proof (changes_inv _ _ _ Hc Hs) as Hs1. pose proof (changes_setup _ _ _ Hc) as Hset.
  pose proof (changes_ledger (m, s1) tail (m, s') Ht Hs1 (setup_apart _ _ Hset Hap)) as H2. cbn [fst snd] in *.
  destruct (expired_kept _ _ now _ _ _ k H1 Hx) as [E|E]; [left|right]; rewrite <- E.
  all: assert (tail = [] ∨ tail = [HmReplay (key i)]) as [->| ->]
    by (destruct Hd as [->| ->]; cbn in Htail; [destruct Htail as (a & _ & _ & _ & _ & ->); destruct (an_delivered a); auto|tauto]).
  1, 3: by rewrite (steps_nil _ _ _ _ H2).
  all: apply steps_one in H2; clear -H2 Hk; revert H2; generalize (server_ledger m s1), (server_ledger m s');
    intros L L' H2; inversion H2; subst; by rewrite lookup_insert_ne.
Qed.

Lemma begin_ledger m s i now :
  server_inv s → storage_apart s → sv_next_generation s < 2 ^ 64 - 1 →
  begin_effect (sv_cache_slot_count s) (sv_cache_policy s) (sv_cache_ttl_ms s) (server_ledger m s) i now
    (wl_rpc_server_begin s i now).2 (server_ledger m (wl_rpc_server_begin s i now).1).
Proof.
  intros Hs Hap Hn. destruct (identity_valid i) eqn:Ei.
  2: { unfold wl_rpc_server_begin, server_initialized. by rewrite (vi_magic s Hs), Z.eqb_refl, Ei. }
  pose proof (begin_kept m s i now) as Hkept. pose proof (begin_changes m s i now Hs Hn Ei) as Hb.
  assert (server_inv (wl_rpc_server_begin s i now).1) as Hs'.
  { destruct (wl_rpc_server_begin s i now). destruct Hb as (? & ? & ? & Hc & _ & Hc' & _).
    apply (changes_inv _ _ _ Hc'), (changes_inv _ _ _ Hc Hs). }
  clear Hb. revert Hkept Hs'. unfold wl_rpc_server_begin, server_initialized.
  rewrite (vi_magic s Hs), Z.eqb_refl, Ei. cbn [negb].
  destruct (pending_duplicate s i) as [[k p]|].
  { intros _ _. cbn [fst snd]. destruct (identity_equal _ _); [done|]. intros q _. by left. }
  pose proof (history_lookup_changes m s now i [] (history s) (correlated s) Hs (banks s)) as Hl.
  destruct (history_lookup _ _ _ _) as [bank [[k c]|]] eqn:El.
  { intros Hkept _. destruct (identity_equal (rc_identity c) i); cbn [fst snd] in *;
      intros q Hq; eapply Hkept; eauto. }
  intros _. apply history_lookup_all in El. destruct Hl as ((mvs & Hc & _) & _). cbn [app] in Hc.
  pose proof (changes_inv _ _ _ Hc Hs) as Hs1. cbn [snd] in Hs1. subst bank.
  change (s <| sv_responses := _ |>) with (swept s now) in Hs1 |- *. set (s1 := swept s now) in *.
  pose proof (swept_ledger m s now Hs Hs1) as EL. fold s1 in EL. unfold begin_effect. rewrite <- EL.
  pose proof (target_effect m s1 Hs1) as Ht. pose proof (history_target_changes m s1) as Hch.
  destruct (pending_free s1) as [[p ?]|]; cbn [fst snd]; [|done].
  destruct (history_target s1) as [[r c]|] eqn:Et; cbn [fst snd]; [|intros _; split; [done|exact Ht]].
  destruct (Hch r c Hs1 eq_refl) as (Hh & ev & _ & Hc1 & Hlt).
  pose proof (changes_inv _ _ _ Hc1 Hs1) as Hs0. cbn [snd] in Hs0.
  pose proof (admit_effect m s1 p r i now Hs1 (conj (proj1 (vi_next s Hs)) Hn) Hh Hlt) as Had. cbv zeta in Had.
  destruct (server_admit s1 p r (sv_response_capacity s1) 2 i now) as [s' rq]. cbn [fst snd]. intros Hs'.
  exists (server_ledger m (set_response s1 r response_slot_zero)). split; [by apply Had|exact Ht].
Qed.

(** ** The refinement *)

Lemma step_effect x op :
  server_inv x.2 → storage_apart x.2 → sv_next_generation x.2 < 2 ^ 64 - 1 → server_may x op →
  op_effect x op (server_exec x op).1.
Proof.
  intros Hs Hap Hn Hmay. pose proof (step_changes x op Hs Hap Hn Hmay) as Hst.
  assert ((∀ ev mvs, op_moves (sv_cache_policy x.2) (sv_cache_ttl_ms x.2) (server_ledger x.1 x.2)
             (server_exec x op).1.1 op ev mvs → mvs = []) →
    server_ledger (server_exec x op).1.1 (server_exec x op).1.2 = server_ledger x.1 x.2) as Hsame.
  { intros Hnil. destruct (server_exec x op) as [y ev]. destruct Hst as (mvs & Hc & Hmv). cbn [fst] in Hnil.
    pose proof (changes_ledger x mvs y Hc Hs Hap) as HL. rewrite (Hnil ev mvs Hmv) in HL.
    by apply steps_nil in HL. }
  clear Hst. destruct x as [m s]. cbn [fst snd] in *.
  destruct op; cbn [op_effect op_moves fst snd] in *;
    try (apply Hsame; intros [] mvs; by intros ?); try done.
  - pose proof (begin_ledger m s i now Hs Hap Hn) as H. cbn [server_exec].
    by destruct (wl_rpc_server_begin s i now).
  - split; [apply Hsame; intros [] mvs; by intros ?|]. by apply submitted_effect.
  - by apply sent_effect.
  - by apply tx_event_effect.
  - by apply discard_effect.
  - by apply peer_effect.
  - by apply abandon_effect.
  - by apply poll_effect.
Qed.

(** C6: the tables of the server implement the ledger.  Started empty, in every state
    a run can reach each operation does to the ledger exactly what its specification
    says.  Admission answers from the ledger after expiry, and makes room by the
    oldest delivered entry or not at all; a completion records its answer; a response
    that was sent, or the one in flight under the handle of a transmission event, is
    marked as delivered and no other; a discarded or replaced session loses all its
    entries, an abandoned request its own, and a poll all that have aged; every other
    operation leaves the ledger alone. *)
Theorem server_refines_ledger m0 s0 s config correlate ops :
  server_config_ok config correlate →
  wl_rpc_server_init_with_correlate s0 config correlate = (s, WL_RPC_OK) → storage_apart s →
  server_ok ops (m0, s) → Z.of_nat (length ops) < 2 ^ 64 - 2 →
  server_ledger m0 s = ∅ ∧
  ∀ a op b, ops = a ++ op :: b →
    let x := server_run a (m0, s) in
    let '(y, ev) := server_exec x op in
    op_effect x op y ∧
    ∃ mvs, ledger_steps (sv_cache_policy s) (sv_cache_ttl_ms s) (server_ledger x.1 x.2) mvs
             (server_ledger y.1 y.2) ∧
      op_moves (sv_cache_policy s) (sv_cache_ttl_ms s) (server_ledger x.1 x.2) y.1 op ev mvs.
Proof.
  intros Hcfg Hinit Hap Hok Hlen.
  destruct (server_init_inv s0 config correlate s Hcfg Hinit) as (Hs & _ & Hz).
  split; [by apply init_ledger|]. intros a op b ->.
  pose proof (run_split m0 s0 s config correlate Hcfg Hinit Hap a op b Hok Hlen) as H.
  pose proof Hok as [Ha [Hmay _]]%server_ok_app. rewrite length_app in Hlen. cbn [length] in Hlen.
  destruct (run_state m0 s0 s config correlate Hcfg Hinit Hap a Ha ltac:(lia)) as (Hs1 & Ha1 & _ & Hn1).
  pose proof (step_effect _ op Hs1 Ha1 ltac:(lia) Hmay) as He.
  cbn zeta in *. destruct (server_exec _ op) as [y ev]. destruct H as (mvs & _ & HL & Hmv).
  split; [exact He|]. by exists mvs.
Qed.

(** A response is completed, acquired, submitted under handle 5 and reported as
    delivered; the session is then given up. *)
Lemma server_refines_ledger_witness :
  let rs := mk_response demo_identity 4 4096 3 1 in
  let ev := mk_event WL_EVT_TX_SUCCESS 0 NULL 0 5 0 0 0 in
  let ops := [SvBegin demo_identity 0; demo_complete; SvAcquire; SvSubmitted rs 5; SvTxEvent ev;
              SvBegin demo_identity 20; SvDiscard 5 true] in
  (server_ledger demo_bytes demo_server = ∅ ∧
   ∀ a op b, ops = a ++ op :: b →
     let x := server_run a (demo_bytes, demo_server) in
     let '(y, ev) := server_exec x op in
     op_effect x op y ∧
     ∃ mvs, ledger_steps 0 0 (server_ledger x.1 x.2) mvs (server_ledger y.1 y.2) ∧
       op_moves 0 0 (server_ledger x.1 x.2) y.1 op ev mvs) ∧
  flight (server_run (take 4 ops) (demo_bytes, demo_server)).2 5 demo_identity 1.
Proof.
  intros rs ev ops. split.
  - apply (server_refines_ledger demo_bytes blank_server demo_server demo_server_config None ops).
    + apply demo_config_ok.
    + done.
    + apply demo_server_apart.
    + cbn [server_ok server_may]. split_and!; done.
    + cbn. lia.
  - eexists 0%nat, _. split; [vm_compute; reflexivity|]. by split_and!.
Defined.
