(* ===== verification/RpcAsync.v ===== *)
(** The asynchronous call layer of [rpc_async.c]: a bounded table of accepted calls on
    top of an RPC client and a link.  Each accepted call keeps a snapshot of its
    encoded request, is sent when the link takes it, and is notified when its client
    call has an outcome.

    The link, the client and the table are one [system], with the world [W] of the
    user's callbacks; [AsyncCode] interprets the function pointers [F].  Two logs are
    kept for the statements only: the accepted calls and the notifications. *)
From Stdlib Require Import String.
From S2P Require Import Prelude Cobs Frame RxRing UnitQueue Link Slots Clock Rpc RpcClient Pump.
#[local] Open Scope wl_scope.

(** ** Outcomes ([rpc_result.h]) *)

Inductive rpc_status :=
  | WL_RPC_SUCCESS
  | WL_RPC_REJECTED
  | WL_RPC_TIMED_OUT
  | WL_RPC_CANCELLED
  | WL_RPC_FAILED.

Definition rpc_status_code (s : rpc_status) : Z :=
  match s with
  | WL_RPC_SUCCESS => 0
  | WL_RPC_REJECTED => 1
  | WL_RPC_TIMED_OUT => 2
  | WL_RPC_CANCELLED => 3
  | WL_RPC_FAILED => 4
  end.

(** [wl_rpc_completion_t]; the code's domain of each error is kept as its integer. *)
Record completion := mk_completion {
  cm_status : rpc_status;
  cm_rejection : Z;
  cm_local_error : Z;
  cm_transport_error : Z;
  cm_runtime_error : Z;
  cm_codec_error : Z;
}.

Definition wl_rpc_status_str (status : Z) : string :=
  if status =? rpc_status_code WL_RPC_SUCCESS then "success"%string
  else if status =? rpc_status_code WL_RPC_REJECTED then "application rejected"
  else if status =? rpc_status_code WL_RPC_TIMED_OUT then "RPC timed out"
  else if status =? rpc_status_code WL_RPC_CANCELLED then "cancelled locally"
  else if status =? rpc_status_code WL_RPC_FAILED then "communication failed"
  else "unknown RPC outcome".

Definition wl_rpc_async_completion (client : option client_outcome) : completion :=
  match client with
  | None => mk_completion WL_RPC_FAILED 0 0 0 (rpc_err_code WL_RPC_ERR_INVALID_ARG) 0
  | Some o =>
      let with_status status rejection :=
        mk_completion status rejection 0 (co_link_result o) (rpc_err_code (co_runtime_error o)) 0 in
      match co_state o with
      | WL_RPC_CLIENT_COMPLETED => with_status WL_RPC_SUCCESS 0
      | WL_RPC_CLIENT_APPLICATION_ERROR =>
          if bool_decide (co_runtime_error o = WL_RPC_OK)
          then with_status WL_RPC_REJECTED (co_application_status o)
          else with_status WL_RPC_FAILED 0
      | WL_RPC_CLIENT_TIMED_OUT => with_status WL_RPC_TIMED_OUT 0
      | WL_RPC_CLIENT_CANCELLED => with_status WL_RPC_CANCELLED 0
      | WL_RPC_CLIENT_LINK_FAILED => with_status WL_RPC_FAILED 0
      | _ => mk_completion WL_RPC_FAILED 0 0 (co_link_result o)
               (rpc_err_code WL_RPC_ERR_INVALID_STATE) 0
      end
  end.

Definition map_error (result : rpc_err) : wl_err :=
  match result with
  | WL_RPC_OK => WL_OK
  | WL_RPC_ERR_NO_SLOT => WL_ERR_BUSY
  | WL_RPC_ERR_INVALID_ARG => WL_ERR_INVALID_ARG
  | WL_RPC_ERR_NOT_INITIALIZED => WL_ERR_NOT_INITIALIZED
  | WL_RPC_ERR_NOT_FOUND => WL_ERR_NOT_FOUND
  | WL_RPC_ERR_ID_EXHAUSTED => WL_ERR_ID_EXHAUSTED
  | _ => WL_ERR_INVALID_STATE
  end.

(** ** State *)

Section Types.
Context (F : Type).

(** [wl_rpc_async_observer_t], its functions given *)
Record observer := mk_observer {
  ob_prepare : option F;
  ob_notify : option F;
  ob_context : Z;
  ob_callback : option F;
  ob_user_data : Z;
}.

(** [wl_rpc_async_slot_t] *)
Record async_slot := mk_async_slot {
  al_handle : client_handle;
  al_observer : observer;
  al_order : Z;
  al_operation_id : Z;
  al_delivery : Z;
  al_length : Z;
}.

(** [wl_rpc_async]: [ay_client] is the address of the client, and the count of slots
    is the length of the array. *)
Record async := mk_async {
  ay_client : Z;
  ay_slots : list async_slot;
  ay_requests : Z;
  ay_request_capacity : Z;
  ay_incarnation : Z;
  ay_next_order : Z;
  ay_retiring_tx : Z;
  ay_servicing : bool;
  ay_submitting : bool;
  ay_closing : bool;
  ay_allocated_count : Z;
}.
End Types.
Arguments mk_observer {F}.
Arguments ob_prepare {F}.
Arguments ob_notify {F}.
Arguments ob_context {F}.
Arguments ob_callback {F}.
Arguments ob_user_data {F}.
Arguments mk_async_slot {F}.
Arguments al_handle {F}.
Arguments al_observer {F}.
Arguments al_order {F}.
Arguments al_operation_id {F}.
Arguments al_delivery {F}.
Arguments al_length {F}.
Arguments mk_async {F}.
Arguments ay_client {F}.
Arguments ay_slots {F}.
Arguments ay_requests {F}.
Arguments ay_request_capacity {F}.
Arguments ay_incarnation {F}.
Arguments ay_next_order {F}.
Arguments ay_retiring_tx {F}.
Arguments ay_servicing {F}.
Arguments ay_submitting {F}.
Arguments ay_closing {F}.
Arguments ay_allocated_count {F}.

#[export] Instance async_rebuild {F} : Rebuild (async F) := λ a,
  mk_async (ay_client a) (ay_slots a) (ay_requests a) (ay_request_capacity a) (ay_incarnation a)
    (ay_next_order a) (ay_retiring_tx a) (ay_servicing a) (ay_submitting a) (ay_closing a)
    (ay_allocated_count a).

(** [wl_rpc_call_t] *)
Record call := mk_call {
  ca_owner : Z;
  ca_incarnation : Z;
  ca_handle : client_handle;
}.

(** Everything the layer works on.  [sy_accepted] logs the generation of every call
    that was accepted, [sy_notified] that of every call that was notified, with the
    outcome it was notified of. *)
Record system (F W : Type) := mk_system {
  sy_link : wl_ctx;
  sy_client : client;
  sy_async : async F;
  sy_world : W;
  sy_accepted : list Z;
  sy_notified : list (Z * client_outcome);
}.
Arguments mk_system {F W}.
Arguments sy_link {F W}.
Arguments sy_client {F W}.
Arguments sy_async {F W}.
Arguments sy_world {F W}.
Arguments sy_accepted {F W}.
Arguments sy_notified {F W}.

#[export] Instance system_rebuild {F W} : Rebuild (system F W) := λ s,
  mk_system (sy_link s) (sy_client s) (sy_async s) (sy_world s) (sy_accepted s) (sy_notified s).

(** The user's functions.  An encoder may reach the whole system, and its result is a
    code and a length; a notification may call back into the layer. *)
Class AsyncCode (F W : Type) := {
  call_encode : F → Z → Z → Z → Z → Z → system F W → system F W * wl_err * Z;
  call_prepare : F → Z → client_outcome → W → W;
  call_notify : F → Z → option F → Z → system F W → system F W;
}.

Section Async.
Context {plat : Platform} {F W : Type} {code : AsyncCode F W}.
Notation sys := (system F W).

Definition observer_zero : observer F := mk_observer None None 0 None 0.
Definition async_slot_zero : async_slot F :=
  mk_async_slot (mk_client_handle 0 0 0) observer_zero 0 0 0 0.

Definition async_slot_at (a : async F) (i : nat) : async_slot F :=
  default async_slot_zero (ay_slots a !! i).

Definition set_async_slot (a : async F) (i : nat) (sl : async_slot F) : async F :=
  a <| ay_slots := <[i := sl]> (ay_slots a) |>.

(** [slots] is the address of the array of [count] slots, [client] that of the client. *)
Definition wl_rpc_async_init (a : async F) (client slots count requests storage_size
    request_capacity incarnation : Z) : async F * wl_err :=
  if (client =? NULL) || (slots =? NULL) || (count =? 0) || (requests =? NULL) ||
     (request_capacity =? 0) || (incarnation =? 0) then (a, WL_ERR_INVALID_ARG)
  else if negb (ay_client a =? NULL) then (a, WL_ERR_INVALID_STATE)
  else if request_capacity >? storage_size `div` count then (a, WL_ERR_BUF_TOO_SMALL)
  else (mk_async client (replicate (Z.to_nat count) async_slot_zero) requests request_capacity
          incarnation 1 0 false false false 0, WL_OK).

(** ** Sending the oldest queued call *)

(** The search: [i] is the index of the first slot of [slots]; the accumulator is the
    oldest queued call so far, with its index and what the client reports of it. *)
Fixpoint oldest_queued (self : Z) (c : client) (i : nat) (slots : list (async_slot F))
    (oldest : option (nat * async_slot F * client_outcome))
    : rpc_err + option (nat * async_slot F * client_outcome) :=
  match slots with
  | [] => inr oldest
  | sl :: rest =>
      if al_operation_id sl =? 0 then oldest_queued self c (S i) rest oldest
      else
        match wl_rpc_client_get_by_handle self c (al_handle sl) with
        | inl e => inl e
        | inr candidate =>
            if bool_decide (co_state candidate ≠ WL_RPC_CLIENT_QUEUED)
            then oldest_queued self c (S i) rest oldest
            else
              oldest_queued self c (S i) rest
                (match oldest with
                 | None => Some (i, sl, candidate)
                 | Some (_, best, _) =>
                     if u64 (al_order sl - al_order best) >? UINT64_MAX `div` 2
                     then Some (i, sl, candidate) else oldest
                 end)
        end
  end.

(** The link refused for now, and the call stays queued. *)
Definition link_backpressure (e : wl_err) : bool :=
  bool_decide (e = WL_ERR_BUSY) || bool_decide (e = WL_ERR_WOULD_BLOCK) ||
  bool_decide (e = WL_ERR_QUEUE_FULL) || bool_decide (e = WL_ERR_NO_SPACE).

(** The address of the local variable [tx]. *)
Definition tx_local : Z := 1.

(** The request of slot [index] is given to the link, and the client is told. *)
Definition send_call (sy : sys) (index : nat) (sl : async_slot F) (result : client_outcome) (now_ms : Z)
    : sys * wl_err :=
  let a := sy_async sy in
  let payload := ay_requests a + Z.of_nat index * ay_request_capacity a in
  let reliable := al_delivery sl =? WL_DELIVERY_RELIABLE in
  let '(link, error, tx) :=
    if reliable
    then wl_send_reliable (sy_link sy) (co_request_message_id result) payload (al_length sl) now_ms tx_local
    else let '(link, error) :=
           wl_send_unreliable (sy_link sy) (co_request_message_id result) payload (al_length sl) in
         (link, error, 0) in
  let sy := sy <| sy_link := link |> in
  if link_backpressure error then (sy, WL_OK)
  else
    let '(client, rpc) :=
      if negb (is_ok error)
      then wl_rpc_client_link_failed (sy_client sy) (co_operation_id result) (wl_err_code error)
      else if reliable then wl_rpc_client_bind_tx (sy_client sy) (co_operation_id result) tx
      else wl_rpc_client_tx_completed (sy_client sy) (co_operation_id result) in
    (sy <| sy_client := client |>, map_error rpc).

(** The last component is what is stored through [did_work]. *)
Definition submit_oldest (sy : sys) (now_ms : Z) : sys * wl_err * bool :=
  let a := sy_async sy in
  if ay_closing a then (sy, WL_OK, false)
  else
    match oldest_queued (ay_client a) (sy_client sy) 0 (ay_slots a) None with
    | inl e => (sy, map_error e, false)
    | inr None => (sy, WL_OK, false)
    | inr (Some (index, sl, result)) =>
        if wl_tx_can_submit (sy_link sy) (al_delivery sl)
        then let '(sy, e) := send_call sy index sl result now_ms in (sy, e, true)
        else (sy, WL_OK, false)
    end.

(** ** Accepting a call *)

Definition set_submitting (b : bool) (sy : sys) : sys :=
  sy <| sy_async := sy_async sy <| ay_submitting := b |> |>.

(** A call that could not be encoded leaves the client again. *)
Definition withdraw (sy : sys) (operation_id : Z) : sys :=
  let c := (wl_rpc_client_cancel (sy_client sy) operation_id).1 in
  set_submitting false (sy <| sy_client := (wl_rpc_client_release c operation_id).1 |>).

(** The slot of an accepted call. *)
Definition accept_call (sy : sys) (index : nat) (handle : client_handle) (ob : observer F)
    (operation_id delivery length : Z) : sys :=
  let a := sy_async sy in
  let sl := mk_async_slot handle ob (ay_next_order a) operation_id delivery length in
  sy <| sy_async := set_async_slot a index sl <| ay_next_order := u64 (ay_next_order a + 1) |>
                      <| ay_allocated_count := u16 (ay_allocated_count a + 1) |> |>
     <| sy_accepted := sy_accepted sy ++ [hd_generation handle] |>.

(** An older call whose deadline has passed is not sent after an idle time. *)
Definition expire_queued (sy : sys) (now_ms : Z) : sys :=
  if ay_servicing (sy_async sy) then sy
  else
    match wl_rpc_client_get_deadline_hint (sy_client sy) now_ms with
    | inr hint =>
        if hint =? 0 then sy <| sy_client := (wl_rpc_client_poll (sy_client sy) now_ms).1 |> else sy
    | inl _ => sy
    end.

Definition observer_complete (ob : observer F) : bool :=
  bool_decide (is_Some (ob_prepare ob)) && bool_decide (is_Some (ob_notify ob)) &&
  bool_decide (is_Some (ob_callback ob)).

(** [self] is the address of the table, [request] that of the request value; the last
    component is what is stored through [out_call]. *)
Definition wl_rpc_async_submit (self : Z) (sy : sys) (request_id response_id delivery timeout_ms
    now_ms : Z) (encode : option F) (request : Z) (ob : observer F) : sys * wl_err * option call :=
  let a := sy_async sy in
  match encode with
  | None => (sy, WL_ERR_INVALID_ARG, None)
  | Some encode =>
      if (request =? NULL) || (timeout_ms =? 0) || negb (observer_complete ob) ||
         (negb (delivery =? WL_DELIVERY_RELIABLE) && negb (delivery =? WL_DELIVERY_UNRELIABLE))
      then (sy, WL_ERR_INVALID_ARG, None)
      else if (ay_client a =? NULL) || ay_closing a then (sy, WL_ERR_NOT_INITIALIZED, None)
      else if ay_submitting a then (sy, WL_ERR_REENTRANT, None)
      else
        match list_find (λ sl, al_operation_id sl = 0) (ay_slots a) with
        | None => (sy, WL_ERR_BUSY, None)
        | Some (index, _) =>
            let sy := set_submitting true sy in
            let '(c, rpc, operation_id) :=
              wl_rpc_client_begin (sy_client sy) request_id response_id timeout_ms now_ms in
            let sy := sy <| sy_client := c |> in
            if bool_decide (rpc ≠ WL_RPC_OK) then (set_submitting false sy, map_error rpc, None)
            else
              let capacity := ay_request_capacity (sy_async sy) in
              let '(sy, error, length) :=
                call_encode encode request operation_id (wl_link_session_id (sy_link sy))
                  (ay_requests (sy_async sy) + Z.of_nat index * capacity) capacity sy in
              let error := if is_ok error && (length >? ay_request_capacity (sy_async sy))
                           then WL_ERR_PAYLOAD_TOO_LONG else error in
              match (if is_ok error
                     then wl_rpc_client_get_handle (ay_client (sy_async sy)) (sy_client sy) operation_id
                     else inl WL_RPC_OK) with
              | inl rpc =>
                  (withdraw sy operation_id, if is_ok error then map_error rpc else error, None)
              | inr handle =>
                  let sy := accept_call sy index handle ob operation_id delivery length in
                  let out := mk_call self (ay_incarnation (sy_async sy)) handle in
                  let sy := expire_queued sy now_ms in
                  let '(sy, _, _) := submit_oldest sy now_ms in
                  (set_submitting false sy, WL_OK, Some out)
              end
        end
  end.

(** ** Cancelling and notifying *)

(** The checks shared by [wl_rpc_async_cancel] and [wl_rpc_async_cancel_complete]. *)
Definition call_refused (self : Z) (a : async F) (ca : call) : option wl_err :=
  if (ay_client a =? NULL) || ay_closing a then Some WL_ERR_NOT_INITIALIZED
  else if negb (ca_owner ca =? self) || negb (ca_incarnation ca =? ay_incarnation a)
  then Some WL_ERR_NOT_FOUND
  else None.

Definition wl_rpc_async_cancel (self : Z) (sy : sys) (ca : call) : sys * wl_err :=
  match call_refused self (sy_async sy) ca with
  | Some e => (sy, e)
  | None =>
      let '(c, rpc) :=
        wl_rpc_client_cancel_handle (ay_client (sy_async sy)) (sy_client sy) (ca_handle ca) in
      (sy <| sy_client := c |>, map_error rpc)
  end.

Definition set_retiring (handle : Z) (sy : sys) : sys :=
  sy <| sy_async := sy_async sy <| ay_retiring_tx := handle |> |>.

Definition collect_cancelled_tx (sy : sys) : sys :=
  let handle := ay_retiring_tx (sy_async sy) in
  if (handle =? 0) || ay_closing (sy_async sy) then sy
  else
    match wl_tx_status (sy_link sy) handle with
    | inr WL_TX_STATE_CANCELLED =>
        let '(link, taken) := wl_tx_take (sy_link sy) handle in
        let sy := sy <| sy_link := link |> in
        match taken with inr _ => set_retiring 0 sy | inl _ => sy end
    | _ => sy
    end.

(** The transaction of a call that has its outcome is left to the owner. *)
Definition detach_tx (sy : sys) (result : client_outcome) : sys :=
  let sy :=
    if negb (ay_closing (sy_async sy)) && negb (co_tx_handle result =? 0)
       && (bool_decide (co_state result = WL_RPC_CLIENT_CANCELLED)
           || bool_decide (co_state result = WL_RPC_CLIENT_TIMED_OUT))
    then sy <| sy_link := (wl_tx_cancel (sy_link sy) (co_tx_handle result)).1 |> else sy in
  let sy :=
    if negb (co_tx_handle result =? 0) then
      match wl_tx_status (sy_link sy) (co_tx_handle result) with
      | inr _ => set_retiring (co_tx_handle result) sy
      | inl _ => sy
      end
    else sy in
  collect_cancelled_tx sy.

Definition run_prepare (ob : observer F) (result : client_outcome) (sy : sys) : sys :=
  match ob_prepare ob with
  | Some f => sy <| sy_world := call_prepare f (ob_context ob) result (sy_world sy) |>
  | None => sy
  end.

Definition run_notify (ob : observer F) (sy : sys) : sys :=
  match ob_notify ob with
  | Some f => call_notify f (ob_context ob) (ob_callback ob) (ob_user_data ob) sy
  | None => sy
  end.

(** The slot of a notified call is free before the callback runs. *)
Definition retire_call (sy : sys) (index : nat) (result : client_outcome) : sys :=
  let a := sy_async sy in
  let generation := hd_generation (al_handle (async_slot_at a index)) in
  sy <| sy_async := set_async_slot a index async_slot_zero
                      <| ay_allocated_count := u16 (ay_allocated_count a - 1) |> |>
     <| sy_notified := sy_notified sy ++ [(generation, result)] |>.

Definition notify_terminal (sy : sys) (index : nat) (result : client_outcome) : sys * wl_err :=
  let sy := detach_tx sy result in
  let sl := async_slot_at (sy_async sy) index in
  let ob := al_observer sl in
  let sy := run_prepare ob result sy in
  let '(c, rpc) :=
    wl_rpc_client_release_handle (ay_client (sy_async sy)) (sy_client sy)
      (al_handle (async_slot_at (sy_async sy) index)) in
  let sy := sy <| sy_client := c |> in
  if bool_decide (rpc ≠ WL_RPC_OK) then (sy, map_error rpc)
  else (run_notify ob (retire_call sy index result), WL_OK).

Definition set_servicing (b : bool) (sy : sys) : sys :=
  sy <| sy_async := sy_async sy <| ay_servicing := b |> |>.

Definition wl_rpc_async_cancel_complete (self : Z) (sy : sys) (ca : call) : sys * wl_err :=
  let a := sy_async sy in
  if ay_servicing a || ay_submitting a then (sy, WL_ERR_REENTRANT)
  else
    match call_refused self a ca with
    | Some e => (sy, e)
    | None =>
        match wl_rpc_client_get_by_handle (ay_client a) (sy_client sy) (ca_handle ca) with
        | inl rpc => (sy, map_error rpc)
        | inr result =>
            match list_find (λ sl, al_operation_id sl = co_operation_id result) (ay_slots a) with
            | None => (sy, WL_ERR_NOT_FOUND)
            | Some (index, _) =>
                let '(sy, error) :=
                  if client_terminal (co_state result) then (sy, WL_OK)
                  else wl_rpc_async_cancel self sy ca in
                if negb (is_ok error) then (sy, error)
                else
                  match (if client_terminal (co_state result) then inr result
                         else wl_rpc_client_get_by_handle (ay_client (sy_async sy)) (sy_client sy)
                                (ca_handle ca)) with
                  | inl rpc => (sy, map_error rpc)
                  | inr result =>
                      let '(sy, error) := notify_terminal (set_servicing true sy) index result in
                      (set_servicing false sy, error)
                  end
            end
        end
    end.

(** ** Servicing *)

(** The loop over the slots, [n] of them left from [i] on: every call with an outcome
    is notified.  The last component counts the notifications. *)
Fixpoint notify_all (n i : nat) (sy : sys) (notified : Z) : sys * wl_err * Z :=
  match n with
  | O => (sy, WL_OK, notified)
  | S n =>
      let sl := async_slot_at (sy_async sy) i in
      if al_operation_id sl =? 0 then notify_all n (S i) sy notified
      else
        match wl_rpc_client_get_by_handle (ay_client (sy_async sy)) (sy_client sy) (al_handle sl) with
        | inl rpc => (sy, map_error rpc, notified)
        | inr result =>
            if negb (client_terminal (co_state result)) then notify_all n (S i) sy notified
            else
              let '(sy, error) := notify_terminal sy i result in
              if negb (is_ok error) then (sy, error, notified)
              else notify_all n (S i) sy (u16 (notified + 1))
        end
  end.

(** The components behind the code are [notified] and [did_work] of the result. *)
Definition wl_rpc_async_service (sy : sys) (now_ms : Z) : sys * wl_err * (Z * bool) :=
  let a := sy_async sy in
  if ay_client a =? NULL then (sy, WL_ERR_NOT_INITIALIZED, (0, false))
  else if ay_servicing a || ay_submitting a then (sy, WL_ERR_REENTRANT, (0, false))
  else
    let sy := set_servicing true sy in
    let retiring := ay_retiring_tx (sy_async sy) in
    let sy := collect_cancelled_tx sy in
    let did_work := negb (retiring =? 0) && (ay_retiring_tx (sy_async sy) =? 0) in
    if ay_allocated_count (sy_async sy) =? 0 then (set_servicing false sy, WL_OK, (0, did_work))
    else
      let '(sy, error, notified) := notify_all (length (ay_slots (sy_async sy))) 0 sy 0 in
      let did_work := did_work || negb (notified =? 0) in
      if is_ok error then
        let '(sy, error, sent) := submit_oldest sy now_ms in
        (set_servicing false sy, error, (notified, did_work || sent))
      else (set_servicing false sy, error, (notified, did_work)).

(** One slot of [wl_rpc_async_get_readiness]. *)
Definition slot_readiness (sy : sys) (value : wl_readiness) (sl : async_slot F) : wl_readiness :=
  if al_operation_id sl =? 0 then value
  else
    match wl_rpc_client_state_by_handle (ay_client (sy_async sy)) (sy_client sy) (al_handle sl) with
    | inl _ => value
    | inr state =>
        if client_terminal state
           || (bool_decide (state = WL_RPC_CLIENT_QUEUED)
               && wl_tx_can_submit (sy_link sy) (al_delivery sl))
        then mk_readiness true (next_deadline_ms value) (blocked value)
        else mk_readiness (runnable value) (next_deadline_ms value) true
    end.

Definition wl_rpc_async_get_readiness (sy : sys) : wl_readiness :=
  let a := sy_async sy in
  if ay_client a =? NULL then wl_readiness_idle
  else
    let value :=
      if ay_retiring_tx a =? 0 then wl_readiness_idle
      else if wl_tx_can_take (sy_link sy) (ay_retiring_tx a)
      then mk_readiness true WL_NO_DEADLINE false else mk_readiness false WL_NO_DEADLINE true in
    if ay_allocated_count a =? 0 then value
    else foldl (slot_readiness sy) value (ay_slots a).

Definition wl_rpc_async_retire_tx (sy : sys) (handle : Z) : sys * bool :=
  if (handle =? 0) || negb (ay_retiring_tx (sy_async sy) =? handle) then (sy, false)
  else (set_retiring 0 sy, true).

(** ** Closing *)

Fixpoint cancel_all (self : Z) (slots : list (async_slot F)) (c : client) : client :=
  match slots with
  | [] => c
  | sl :: rest =>
      cancel_all self rest
        (if al_operation_id sl =? 0 then c
         else (wl_rpc_client_cancel_handle self c (al_handle sl)).1)
  end.

Definition wl_rpc_async_close (sy : sys) : sys * wl_err :=
  let a := sy_async sy in
  if ay_servicing a || ay_submitting a then (sy, WL_ERR_REENTRANT)
  else if ay_client a =? NULL then (sy, WL_OK)
  else
    let sy := sy <| sy_async := a <| ay_closing := true |> |> in
    let sy := sy <| sy_client := cancel_all (ay_client a) (ay_slots a) (sy_client sy) |> in
    let '(sy, error, _) := wl_rpc_async_service sy 0 in
    (if is_ok error then sy <| sy_async := sy_async sy <| ay_client := NULL |> |> else sy, error).
End Async.
