(* ===== verification/RpcAsyncOnce.v ===== *)
(** Every accepted asynchronous call is notified exactly once.

    The table and the client stay in step: a slot in use names a live call of the
    client, and the calls that were accepted are those that were notified together
    with those in the table.  The user's callbacks may submit and cancel from within
    a notification. *)
From stdpp Require Import relations.
From S2P Require Import Prelude Cobs Frame RxRing UnitQueue Link LinkInv LinkProps Slots Clock Rpc RpcClient RpcCalls Pump RpcAsync.
#[local] Open Scope wl_scope.

(** ** What the client does to a call *)

(** The same call, with the same outcome once it has one. *)
Definition call_same (s s' : client_slot) : Prop :=
  cs_operation_id s' = cs_operation_id s ∧ (client_terminal (cs_state s) = true → s' = s).

#[local] Instance call_same_refl : Reflexive call_same.
Proof. by split. Qed.

#[local] Instance call_same_trans : Transitive call_same.
Proof.
  intros s t u [E1 H1] [E2 H2]. split; [congruence|]. intros Ht. pose proof (H1 Ht) as ->. by apply H2.
Qed.

(** A step that frees no slot keeps every call. *)
Lemma call_kept c c' i g s :
  client_step c c' → cl_allocated_count c' ≠ u16 (cl_allocated_count c - 1) →
  call_at c i g = Some s →
  ∃ s', call_at c' i g = Some s' ∧ call_same s s'.
Proof.
  intros Hs Ha Hc. destruct (call_at_step c c' i g s Hs Hc) as [(s' & Hs' & Hor)|[Hn Ht]].
  - exists s'. split; [done|]. destruct Hor as [->|Hor]; [done|]. split.
    + by destruct (call_step_same _ _ Hor) as (_ & -> & _).
    + intros Ht. by destruct (terminal_stays s s').
  - exfalso. apply call_at_Some in Hc as (Hi & Hl & Hg). rewrite call_at_None in Hn.
    destruct Hs as [|k t t' Hk Ht' _|now|k t * _ Hk Hf|k t Hk Ht'].
    + by apply (Hn s).
    + destruct (decide (k = i)) as [->|Hne].
      * assert (t = s) as -> by congruence. by apply (terminal_stays s t').
      * apply (Hn s); [|done..]. cbn. by rewrite list_lookup_insert_ne.
    + destruct (polled_same now s) as [E (E1 & _)].
      apply (Hn (polled now s)); [cbn; by rewrite list_lookup_fmap, Hi|tauto|congruence].
    + apply (Hn s); [|done..]. cbn. rewrite list_lookup_insert_ne; [done|]. intros ->. congruence.
    + by apply Ha.
Qed.

Lemma u16_pred n : is_u16 n → u16 (n - 1) ≠ n.
Proof.
  unfold is_u16, u16. intros Hn E. destruct (decide (n = 0)) as [->|]; [done|].
  rewrite Z.mod_small in E; lia.
Qed.

Lemma allocated_u16 c : client_inv c → is_u16 (cl_allocated_count c).
Proof.
  intros Hc. rewrite (ci_allocated c Hc). pose proof (tally_bounds client_live (cl_slots c)).
  pose proof (ci_count c Hc). pose proof (ci_count_range c Hc). unfold is_u16. lia.
Qed.

Lemma slot_count_step c c' : client_step c c' → cl_slot_count c' = cl_slot_count c.
Proof. by destruct 1. Qed.

(** The operations that free no slot. *)
Ltac count_kept :=
  repeat case_match; simplify_eq/=; try done.

Lemma link_failed_count c id r :
  cl_allocated_count (wl_rpc_client_link_failed c id r).1 = cl_allocated_count c.
Proof. unfold wl_rpc_client_link_failed. count_kept. Qed.

Lemma bind_tx_count c id h : cl_allocated_count (wl_rpc_client_bind_tx c id h).1 = cl_allocated_count c.
Proof. unfold wl_rpc_client_bind_tx. count_kept. Qed.

Lemma tx_completed_count c id :
  cl_allocated_count (wl_rpc_client_tx_completed c id).1 = cl_allocated_count c.
Proof. unfold wl_rpc_client_tx_completed. count_kept. Qed.

Lemma tx_event_count c ev :
  cl_allocated_count (wl_rpc_client_on_tx_event c ev).1 = cl_allocated_count c.
Proof. unfold wl_rpc_client_on_tx_event. count_kept. Qed.

Lemma poll_count c now : cl_allocated_count (wl_rpc_client_poll c now).1 = cl_allocated_count c.
Proof. unfold wl_rpc_client_poll. count_kept. Qed.

Lemma cancel_count c id : cl_allocated_count (wl_rpc_client_cancel c id).1 = cl_allocated_count c.
Proof. unfold wl_rpc_client_cancel. count_kept. Qed.

Lemma prepare_count self c req resp id now :
  cl_allocated_count (wl_rpc_client_response_prepare self c req resp id now).1 = cl_allocated_count c.
Proof. unfold wl_rpc_client_response_prepare. count_kept. Qed.

Lemma commit_count self c a status now :
  cl_allocated_count (wl_rpc_client_response_commit self c a status now).1 = cl_allocated_count c.
Proof. unfold wl_rpc_client_response_commit. count_kept. Qed.

Lemma cancel_handle_count self c h :
  cl_allocated_count (wl_rpc_client_cancel_handle self c h).1 = cl_allocated_count c.
Proof. unfold wl_rpc_client_cancel_handle. count_kept. Qed.

(** The steps that keep every call of the client. *)
Definition client_keeps (c c' : client) : Prop :=
  client_step c c' ∧ cl_allocated_count c' = cl_allocated_count c.

Create HintDb keeps.
#[export] Hint Resolve link_failed_step link_failed_count bind_tx_step bind_tx_count tx_completed_step
  tx_completed_count tx_event_step tx_event_count poll_step poll_count cancel_step cancel_count
  prepare_step prepare_count commit_step commit_count cancel_handle_step cancel_handle_count
  step_skip : keeps.
#[export] Hint Extern 1 (client_keeps _ _) => split : keeps.

(** A call the client admitted: its slot was free, its id unused, its generation new. *)
Lemma begin_admitted c req resp timeout now c1 id :
  wl_rpc_client_begin c req resp timeout now = (c1, WL_RPC_OK, id) →
  id ≠ 0 ∧ cl_next_generation c ≠ 0 ∧
  (∀ j t, cl_slots c !! j = Some t → cs_state t ≠ WL_RPC_CLIENT_FREE → cs_operation_id t ≠ id) ∧
  ∃ i s, cl_slots c !! i = Some s ∧ cs_state s = WL_RPC_CLIENT_FREE ∧
    cl_slots c1 = <[i := slot_queued (cl_next_generation c) id req resp timeout now]> (cl_slots c) ∧
    cl_next_generation c1 = u64 (cl_next_generation c + 1) ∧
    cl_allocated_count c1 = u16 (cl_allocated_count c + 1).
Proof.
  unfold wl_rpc_client_begin. destruct (negb _); [done|]. destruct (_ =? 0); [done|].
  destruct (begin_candidate _ _ _) as [e|k] eqn:Ek.
  { intros [= _ -> _]. exfalso. revert Ek.
    generalize (cl_next_operation_id c) (S (Z.to_nat (cl_slot_count c))).
    intros z n. revert z. induction n as [|n IH]; intros z; cbn; [done|].
    destruct (z =? 0); [done|]. destruct (client_find c z); [apply IH|done]. }
  clear Ek. destruct (wl_rpc_client_begin_with_id _ _ _ _ _ _) as [c' e] eqn:Eb.
  case_bool_decide as He; [by intros [= _ -> _]|]. intros [= <- <-]. subst e.
  unfold wl_rpc_client_begin_with_id in Eb. repeat branch_case Eb; try done.
  destruct (client_find_free c) as [[i s]|] eqn:Ei; [|done].
  apply list_find_Some in Ei as (Hi & Hf & _). apply pair_equal_spec in Eb as [<- _].
  split; [tauto|]. split; [tauto|]. split; [by apply client_find_None|]. exists i, s. done.
Qed.

Lemma begin_call c req resp timeout now c1 id :
  client_inv c → is_u32 timeout → is_u32 now →
  wl_rpc_client_begin c req resp timeout now = (c1, WL_RPC_OK, id) →
  client_inv c1 ∧ client_step c c1 ∧ id ≠ 0 ∧ generation_limit c1 = generation_limit c + 1 ∧
  cl_allocated_count c1 ≠ u16 (cl_allocated_count c - 1) ∧
  (∀ j t, cl_slots c !! j = Some t → cs_state t ≠ WL_RPC_CLIENT_FREE → cs_operation_id t ≠ id) ∧
  ∃ i, call_at c1 i (generation_limit c) =
         Some (slot_queued (generation_limit c) id req resp timeout now).
Proof.
  intros Hc Ht Hn Hb. pose proof (begin_step c req resp timeout now (conj Ht Hn)) as Hstep.
  rewrite Hb in Hstep. cbn [fst] in Hstep.
  apply begin_admitted in Hb as (Hid & Hg & Hfresh & i & s & Hi & Hf & Es & Eg & Ea).
  pose proof (limit_next c Hc Hg) as El. split_and!; try done.
  - by eapply client_step_inv.
  - rewrite El. unfold generation_limit. rewrite Eg. apply next_limit; [apply Hc|done].
  - rewrite Ea. pose proof (allocated_u16 c Hc). unfold u16, is_u16 in *.
    intros E. apply (f_equal (λ z, z mod 2 ^ 16)) in E. revert E.
    generalize (cl_allocated_count c). intros z E. clear -E.
    rewrite !Z.mod_mod in E by done.
    assert ((z + 1 - (z - 1)) mod 2 ^ 16 = 0) as E2 by (rewrite Zminus_mod, E, Z.sub_diag; done).
    by replace (z + 1 - (z - 1)) with 2 in E2 by lia.
  - exists i. apply call_at_Some. rewrite Es, El. split_and!; try done.
    apply list_lookup_insert_eq. by eapply lookup_lt_Some.
Qed.

Lemma begin_refused c req resp timeout now c1 e id :
  is_u32 timeout → is_u32 now →
  wl_rpc_client_begin c req resp timeout now = (c1, e, id) → e ≠ WL_RPC_OK → c1 = c.
Proof.
  intros Ht Hn. unfold wl_rpc_client_begin. destruct (negb _); [by intros [= -> _ _]|].
  destruct (_ =? 0); [by intros [= -> _ _]|].
  destruct (begin_candidate _ _ _) as [e0|k]; [by intros [= -> _ _]|].
  destruct (wl_rpc_client_begin_with_id _ _ _ _ _ _) as [c' e0] eqn:Eb.
  apply (begin_with_id_step _ _ _ _ _ _ _ _ (conj Ht Hn)) in Eb as [[-> He]|[-> _]].
  - rewrite bool_decide_eq_true_2 by done. by intros [= -> _ _].
  - rewrite bool_decide_eq_false_2 by tauto. by intros [= _ <- _].
Qed.

(** Only the released call leaves the client. *)
Lemma release_other c id i g s :
  call_at c i g = Some s → cs_operation_id s ≠ id →
  call_at (wl_rpc_client_release c id).1 i g = Some s.
Proof.
  intros Hc Hid. unfold wl_rpc_client_release. destruct (negb _); [done|]. destruct (_ =? 0); [done|].
  destruct (client_find c id) as [[k t]|] eqn:Ef; [|done]. destruct (negb _); [done|].
  apply client_find_Some in Ef as (Hk & _ & Ht). apply call_at_Some in Hc as (Hi & Hl & Hg).
  apply call_at_Some. cbn. rewrite list_lookup_insert_ne; [done|]. intros ->. congruence.
Qed.

Lemma release_handle_other self c h i g s :
  call_at c i g = Some s → g ≠ hd_generation h →
  call_at (wl_rpc_client_release_handle self c h).1 i g = Some s.
Proof.
  intros Hc Hg. unfold wl_rpc_client_release_handle.
  destruct (client_handle_index self c h) as [e|k] eqn:Ek; [done|]. destruct (negb _); [done|].
  apply client_handle_index_inr in Ek as (_&_&_&_&_&Hk&_&Hgk).
  apply call_at_Some in Hc as (Hi & Hl & Hgi). apply call_at_Some. cbn.
  rewrite list_lookup_insert_ne; [done|]. intros ->. congruence.
Qed.

(** ** The invariant *)

Section Once.
Context {plat : Platform} {F W : Type} {code : AsyncCode F W}.
Notation sys := (system F W).
Implicit Types (sl : async_slot F) (sy : sys).

Definition slot_used sl : bool := negb (al_operation_id sl =? 0).
Definition slot_generation sl : Z := hd_generation (al_handle sl).

(** The calls in the table, by their generations. *)
Definition used_generations (slots : list (async_slot F)) : list Z :=
  slot_generation <$> filter (λ sl, slot_used sl = true) slots.

Lemma used_app l k : used_generations (l ++ k) = used_generations l ++ used_generations k.
Proof. unfold used_generations. by rewrite filter_app, fmap_app. Qed.

Lemma used_cons sl l :
  used_generations (sl :: l) =
    if slot_used sl then slot_generation sl :: used_generations l else used_generations l.
Proof. unfold used_generations. rewrite filter_cons. by case_decide; destruct (slot_used sl). Qed.

Lemma used_insert slots i x y :
  slots !! i = Some x →
  (if slot_used x then [slot_generation x] else []) ++ used_generations (<[i := y]> slots) ≡ₚ
  (if slot_used y then [slot_generation y] else []) ++ used_generations slots.
Proof.
  intros Hi. pose proof (lookup_lt_Some _ _ _ Hi). rewrite insert_take_drop by done.
  rewrite <- (take_drop_middle slots i x Hi) at 3. rewrite !used_app, !used_cons.
  destruct (slot_used x), (slot_used y); cbn; try rewrite !Permutation_middle; try done.
  apply Permutation_app_head. constructor.
Qed.

(** A slot in use names a live call of the client. *)
Record owned (self : Z) (c : client) sl : Prop := {
  ow_owner : hd_owner (al_handle sl) = self;
  ow_index : 0 <= hd_index (al_handle sl) < cl_slot_count c;
  ow_call : ∃ s, call_at c (Z.to_nat (hd_index (al_handle sl))) (slot_generation sl) = Some s ∧
                 cs_operation_id s = al_operation_id sl;
}.

(** Slot [t.1.1] of the table is [t.1.2], whose call has the outcome of [t.2]. *)
Definition settled sy (t : nat * async_slot F * client_slot) : Prop :=
  ay_slots (sy_async sy) !! t.1.1 = Some t.1.2 ∧ slot_used t.1.2 = true ∧
  call_at (sy_client sy) (Z.to_nat (hd_index (al_handle t.1.2))) (slot_generation t.1.2) = Some t.2 ∧
  client_terminal (cs_state t.2) = true.

(** The invariant, for a list [T] of calls that have an outcome and wait to be
    notified. *)
Record table_inv (T : list (nat * async_slot F * client_slot)) sy : Prop := {
  ai_client : client_inv (sy_client sy);
  ai_owned i sl : ay_slots (sy_async sy) !! i = Some sl → slot_used sl = true →
                  owned (ay_client (sy_async sy)) (sy_client sy) sl;
  ai_distinct : distinct (λ sl, slot_used sl = true) slot_generation (ay_slots (sy_async sy));
  ai_length : len (ay_slots (sy_async sy)) < 2 ^ 16;
  ai_count : ay_allocated_count (sy_async sy) = tally slot_used (ay_slots (sy_async sy));
  ai_accepted : sy_accepted sy ≡ₚ (sy_notified sy).*1 ++ used_generations (ay_slots (sy_async sy));
  ai_nodup : NoDup (sy_accepted sy);
  ai_issued : Forall (λ g, g < generation_limit (sy_client sy)) (sy_accepted sy);
  ai_outcomes : Forall (λ n, client_terminal (co_state n.2) = true) (sy_notified sy);
  ai_settled : Forall (settled sy) T;
}.

(** What the invariant does not look at. *)
Lemma table_inv_ext {T} sy sy' :
  table_inv T sy → sy_client sy' = sy_client sy → ay_client (sy_async sy') = ay_client (sy_async sy) →
  ay_slots (sy_async sy') = ay_slots (sy_async sy) →
  ay_allocated_count (sy_async sy') = ay_allocated_count (sy_async sy) →
  sy_accepted sy' = sy_accepted sy → sy_notified sy' = sy_notified sy → table_inv T sy'.
Proof.
  intros [] E1 E2 E3 E4 E5 E6. split; rewrite ?E1, ?E2, ?E3, ?E4, ?E5, ?E6; try done.
  unfold settled. by rewrite E1, E3.
Qed.

(** A client that keeps the calls of the table. *)
Lemma table_inv_client {T} sy c' :
  table_inv T sy → client_inv c' → cl_slot_count c' = cl_slot_count (sy_client sy) →
  generation_limit (sy_client sy) <= generation_limit c' →
  (∀ i sl s, ay_slots (sy_async sy) !! i = Some sl → slot_used sl = true →
     call_at (sy_client sy) (Z.to_nat (hd_index (al_handle sl))) (slot_generation sl) = Some s →
     cs_operation_id s = al_operation_id sl →
     ∃ s', call_at c' (Z.to_nat (hd_index (al_handle sl))) (slot_generation sl) = Some s' ∧
           call_same s s') →
  table_inv T (sy <| sy_client := c' |>).
Proof.
  intros [] Hc Hn Hl Hk. split; cbn; try done.
  - intros i sl Hi Hu. destruct (ai_owned0 i sl Hi Hu) as [Ho Hx (s & Hs & Es)].
    split; [done|by rewrite Hn|]. destruct (Hk i sl s Hi Hu Hs Es) as (s' & Hs' & Es').
    exists s'. by rewrite (proj1 Es').
  - eapply Forall_impl; [exact ai_issued0|]. cbn. lia.
  - eapply Forall_impl; [exact ai_settled0|]. intros [[i sl] s] (Hi & Hu & Hs & Ht). cbn in *.
    destruct (ai_owned0 i sl Hi Hu) as [_ _ (s0 & Hs0 & Es)]. assert (s0 = s) as -> by congruence.
    destruct (Hk i sl s Hi Hu Hs Es) as (s' & Hs' & [_ E]). rewrite (E Ht) in Hs'. done.
Qed.

Lemma table_inv_step {T} sy c' :
  table_inv T sy → client_step (sy_client sy) c' →
  cl_allocated_count c' ≠ u16 (cl_allocated_count (sy_client sy) - 1) →
  table_inv T (sy <| sy_client := c' |>).
Proof.
  intros Hi Hs Ha. pose proof (ai_client _ sy Hi) as Hc. apply table_inv_client; try done.
  - by eapply client_step_inv.
  - by apply slot_count_step.
  - by apply limit_mono.
  - intros i sl s _ _ Hs' _. by apply (call_kept (sy_client sy)).
Qed.

Lemma table_inv_keeps {T} sy c' :
  table_inv T sy → client_keeps (sy_client sy) c' → table_inv T (sy <| sy_client := c' |>).
Proof.
  intros Hi [Hs Ha]. apply table_inv_step; [done..|]. rewrite Ha.
  pose proof (allocated_u16 _ (ai_client _ sy Hi)) as Hu. by intros E%eq_sym%u16_pred.
Qed.

(** ** The operations *)

Lemma send_call_inv {T} sy i sl result now : table_inv T sy → table_inv T (send_call sy i sl result now).1.
Proof.
  intros Hi. unfold send_call.
  match goal with |- context [let '(_, _) := ?e in _] => destruct e as [[link error] tx] end.
  set (sy1 := sy <| sy_link := link |>).
  assert (table_inv T sy1) as H1 by by apply (table_inv_ext sy).
  destruct (link_backpressure error); [done|].
  match goal with |- context [let '(_, _) := ?e in _] =>
    assert (client_keeps (sy_client sy1) e.1) as Hk; [|destruct e as [c rpc]] end.
  { destruct (negb _); [eauto with keeps|]. destruct (_ =? _); eauto with keeps. }
  by apply (table_inv_keeps sy1).
Qed.

Lemma submit_oldest_inv {T} sy now : table_inv T sy → table_inv T (submit_oldest sy now).1.1.
Proof.
  intros Hi. unfold submit_oldest. destruct (ay_closing _); [done|].
  destruct (oldest_queued _ _ _ _ _) as [e|[[[i sl] result]|]]; [done| |done].
  destruct (wl_tx_can_submit _ _); [|done]. pose proof (send_call_inv sy i sl result now Hi).
  by destruct (send_call sy i sl result now).
Qed.

Lemma expire_queued_inv {T} sy now : table_inv T sy → table_inv T (expire_queued sy now).
Proof.
  intros Hi. unfold expire_queued. destruct (ay_servicing _); [done|].
  destruct (wl_rpc_client_get_deadline_hint _ _) as [e|hint]; [done|]. destruct (_ =? 0); [|done].
  apply table_inv_keeps; eauto with keeps.
Qed.

Lemma accept_inv {T} sy i x h ob id d n s :
  table_inv T sy → ay_slots (sy_async sy) !! i = Some x → slot_used x = false → id ≠ 0 →
  hd_owner h = ay_client (sy_async sy) → 0 <= hd_index h < cl_slot_count (sy_client sy) →
  call_at (sy_client sy) (Z.to_nat (hd_index h)) (hd_generation h) = Some s → cs_operation_id s = id →
  hd_generation h ∉ sy_accepted sy → hd_generation h < generation_limit (sy_client sy) →
  table_inv T (accept_call sy i h ob id d n).
Proof.
  intros [] Hx Hu Hid Ho Hr Hc Hs Hf Hg. unfold accept_call.
  set (sl := mk_async_slot h ob (ay_next_order (sy_async sy)) id d n).
  assert (slot_used sl = true) as Hsl by (unfold slot_used; cbn; destruct (Z.eqb_spec id 0); done).
  pose proof (used_insert _ i x sl Hx) as Hp. rewrite Hu, Hsl in Hp. cbn [app] in Hp.
  pose proof (tally_insert slot_used _ i x sl Hx) as Ht. rewrite Hu, Hsl in Ht. cbn [Z.b2z] in Ht.
  pose proof (tally_bounds slot_used (<[i := sl]> (ay_slots (sy_async sy)))) as Hb.
  unfold len in Hb. rewrite length_insert in Hb. fold (len (ay_slots (sy_async sy))) in Hb.
  split; cbn; try done.
  - intros j y [(-> & <- & _)|[_ Hj]]%list_lookup_insert_Some; [|by apply (ai_owned0 j)].
    intros _. split; [done..|]. by exists s.
  - apply distinct_insert; [done|]. intros _ j y Hj Hy Hyu E. apply Hf. rewrite ai_accepted0.
    apply elem_of_app. right. change (hd_generation h) with (slot_generation sl). rewrite <- E.
    apply list_elem_of_fmap. exists y. split; [done|]. apply list_elem_of_filter. split; [done|].
    by apply list_elem_of_lookup_2 in Hy.
  - unfold len. by rewrite length_insert.
  - rewrite u16_id; unfold is_u16; lia.
  - rewrite Hp, ai_accepted0, <- app_assoc. apply Permutation_app_head. symmetry.
    apply Permutation_cons_append.
  - apply NoDup_app. split_and!; [done| |apply NoDup_singleton].
    intros g Hin ->%list_elem_of_singleton. done.
  - apply Forall_app. split; [done|]. by constructor.
  - eapply Forall_impl; [exact ai_settled0|]. intros [[j y] t] (Hj & Hy & Hrest). cbn in *.
    split; [|done]. cbn. rewrite list_lookup_insert_ne; [done|]. intros ->. congruence.
Qed.

(** What the user may do from a callback: submit and cancel calls, use the link, and
    work on their own data. *)
Inductive user_step (sy : sys) : sys → Prop :=
  | user_submit self req resp d timeout now encode request ob :
      is_u32 timeout → is_u32 now →
      user_step sy (wl_rpc_async_submit self sy req resp d timeout now encode request ob).1.1
  | user_cancel self ca : user_step sy (wl_rpc_async_cancel self sy ca).1
  | user_link op : user_step sy (sy <| sy_link := link_step op (sy_link sy) |>)
  | user_world w : user_step sy (sy <| sy_world := w |>).

(** The contract of the callbacks: an encoder writes memory, and a notification only
    submits, cancels and uses the link. *)
Record async_laws : Prop := {
  law_encode f r id sid out cap sy :
    ∃ m w, (call_encode f r id sid out cap sy).1.1 =
             sy <| sy_link := sy_link sy <| lmem := m |> |> <| sy_world := w |>;
  law_notify f ctx cb u sy : rtc user_step sy (call_notify f ctx cb u sy);
}.
Context (Hlaws : async_laws).

(** A call that was begun and withdrawn again. *)
Lemma withdraw_inv {T} sy req resp timeout now c1 id sy1 :
  table_inv T sy → is_u32 timeout → is_u32 now →
  wl_rpc_client_begin (sy_client sy) req resp timeout now = (c1, WL_RPC_OK, id) →
  sy_client sy1 = c1 → ay_client (sy_async sy1) = ay_client (sy_async sy) →
  ay_slots (sy_async sy1) = ay_slots (sy_async sy) →
  ay_allocated_count (sy_async sy1) = ay_allocated_count (sy_async sy) →
  sy_accepted sy1 = sy_accepted sy → sy_notified sy1 = sy_notified sy → table_inv T (withdraw sy1 id).
Proof.
  intros Hi Ht Hn Hb E1 E2 E3 E4 E5 E6. pose proof (ai_client _ sy Hi) as Hc.
  destruct (begin_call _ _ _ _ _ _ _ Hc Ht Hn Hb) as (Hc1 & Hs1 & Hid & Hl & Ha & Hf & _).
  set (c2 := (wl_rpc_client_cancel c1 id).1). set (c3 := (wl_rpc_client_release c2 id).1).
  assert (client_step c1 c2) as Hs2 by apply cancel_step.
  assert (client_step c2 c3) as Hs3 by apply release_step.
  assert (client_inv c2) as Hc2 by by eapply client_step_inv.
  assert (table_inv T (sy <| sy_client := c3 |>)) as H3.
  { apply table_inv_client; try done.
    - by eapply client_step_inv.
    - by rewrite (slot_count_step _ _ Hs3), (slot_count_step _ _ Hs2), (slot_count_step _ _ Hs1).
    - pose proof (limit_mono _ _ Hc1 Hs2). pose proof (limit_mono _ _ Hc2 Hs3). lia.
    - intros i sl s _ _ Hs _. destruct (call_kept _ c1 _ _ _ Hs1 Ha Hs) as (s1 & Hs1' & O1).
      assert (cl_allocated_count c2 ≠ u16 (cl_allocated_count c1 - 1)) as Ha2.
      { unfold c2. rewrite cancel_count. intros E%eq_sym. by apply (u16_pred _ (allocated_u16 c1 Hc1)). }
      destruct (call_kept c1 c2 _ _ _ Hs2 Ha2 Hs1') as (s2 & Hs2' & O2).
      exists s2. split; [|by etrans]. apply release_other; [done|].
      apply call_at_Some in Hs as (Hi1 & Hl1 & _). rewrite (proj1 O2), (proj1 O1). by eapply Hf. }
  apply (table_inv_ext _ _ H3); unfold withdraw; cbn; try done. by rewrite E1.
Qed.

(** A begun call is accepted under a generation that was never accepted before. *)
Lemma begun_handle {T} sy c1 req resp timeout now id h :
  table_inv T sy → is_u32 timeout → is_u32 now →
  wl_rpc_client_begin (sy_client sy) req resp timeout now = (c1, WL_RPC_OK, id) →
  wl_rpc_client_get_handle (ay_client (sy_async sy)) c1 id = inr h →
  hd_owner h = ay_client (sy_async sy) ∧ 0 <= hd_index h < cl_slot_count c1 ∧
  hd_generation h ∉ sy_accepted sy ∧ hd_generation h < generation_limit c1 ∧
  ∃ s, call_at c1 (Z.to_nat (hd_index h)) (hd_generation h) = Some s ∧ cs_operation_id s = id.
Proof.
  intros Hi Ht Hn Hb Hh. pose proof (ai_client _ sy Hi) as Hc.
  destruct (begin_call _ _ _ _ _ _ _ Hc Ht Hn Hb) as (Hc1 & _ & _ & Hl & _ & _ & i & Hq).
  destruct (get_handle_call _ _ _ _ Hc1 Hh) as (Ho & Hr & s & Hs & Hid).
  assert (hd_generation h = generation_limit (sy_client sy)) as Eg.
  { pose proof Hs as (Hs1 & Hs2 & Hs3)%call_at_Some. apply call_at_Some in Hq as (Hq1 & Hq2 & Hq3).
    assert (Z.to_nat (hd_index h) = i) as E by (eapply (ci_operations c1 Hc1); eauto).
    rewrite E, Hq1 in Hs1. injection Hs1 as <-. congruence. }
  split_and!; try done; try lia; [|by exists s].
  rewrite Eg. intros Hin. pose proof (ai_issued _ sy Hi) as Hall. rewrite Forall_forall in Hall.
  specialize (Hall _ Hin). cbn in Hall. lia.
Qed.

Lemma submit_inv {T} self sy req resp d timeout now encode request ob :
  table_inv T sy → is_u32 timeout → is_u32 now →
  table_inv T (wl_rpc_async_submit self sy req resp d timeout now encode request ob).1.1.
Proof.
  intros Hi Ht Hn. unfold wl_rpc_async_submit. destruct encode as [encode|]; [|done].
  destruct (_ || _); [done|]. destruct (_ || _); [done|]. destruct (ay_submitting _); [done|].
  destruct (list_find _ _) as [[index x]|] eqn:Ef; [|done].
  apply list_find_Some in Ef as (Hx & Hx0 & _).
  change (sy_client (set_submitting true sy)) with (sy_client sy).
  destruct (wl_rpc_client_begin (sy_client sy) req resp timeout now) as [[c rpc] id] eqn:Eb.
  set (sy1 := set_submitting true sy <| sy_client := c |>).
  case_bool_decide as Er.
  { cbn [fst]. assert (c = sy_client sy) as ->; [|by apply (table_inv_ext sy)].
    by apply (begin_refused _ req resp timeout now c rpc id). }
  pose proof (law_encode Hlaws encode request id (wl_link_session_id (sy_link sy1))
    (ay_requests (sy_async sy1) + Z.of_nat index * ay_request_capacity (sy_async sy1))
    (ay_request_capacity (sy_async sy1)) sy1) as (m & w & Ee).
  destruct (call_encode _ _ _ _ _ _ _) as [[sy2 error] n]. cbn [fst] in Ee. subst sy2.
  set (sy2 := sy1 <| sy_link := _ |> <| sy_world := w |>).
  match goal with |- context [if ?b then WL_ERR_PAYLOAD_TOO_LONG else error] =>
    set (error' := if b then WL_ERR_PAYLOAD_TOO_LONG else error) end.
  subst rpc.
  assert (table_inv T sy2) as H2.
  { destruct (begin_call _ _ _ _ _ _ _ (ai_client _ sy Hi) Ht Hn Eb) as (_ & Hs & _ & _ & Ha & _).
    by apply (table_inv_ext (sy <| sy_client := c |>)); [apply table_inv_step|..]. }
  match goal with |- context [match ?e with inl _ => _ | inr _ => _ end] =>
    destruct e as [rpc|h] eqn:Eh end.
  { cbn [fst]. by apply (withdraw_inv sy req resp timeout now c id). }
  destruct (is_ok error'); [|done]. cbn [fst].
  destruct (begun_handle sy c req resp timeout now id h Hi Ht Hn Eb Eh) as (Ho & Hr & Hf & Hg & s & Hs & Hid).
  assert (id ≠ 0) as Hnz by by apply (begin_call _ _ _ _ _ _ _ (ai_client _ sy Hi) Ht Hn Eb).
  assert (table_inv T (accept_call sy2 index h ob id d n)) as H3.
  { apply (accept_inv sy2 index x h ob id d n s); try done. unfold slot_used. by rewrite Hx0. }
  pose proof (submit_oldest_inv _ now (expire_queued_inv _ now H3)) as H4.
  destruct (submit_oldest _ now) as [[sy4 e4] b4]. by apply (table_inv_ext sy4).
Qed.

Lemma async_cancel_inv {T} self sy ca : table_inv T sy → table_inv T (wl_rpc_async_cancel self sy ca).1.
Proof.
  intros Hi. unfold wl_rpc_async_cancel. destruct (call_refused _ _ _); [done|].
  pose proof (cancel_handle_step (ay_client (sy_async sy)) (sy_client sy) (ca_handle ca)) as Hs.
  pose proof (cancel_handle_count (ay_client (sy_async sy)) (sy_client sy) (ca_handle ca)) as Ha.
  destruct (wl_rpc_client_cancel_handle _ _ _) as [c rpc]. by apply table_inv_keeps.
Qed.

Lemma user_step_inv {T} sy sy' : user_step sy sy' → table_inv T sy → table_inv T sy'.
Proof.
  intros [] Hi; [by apply submit_inv|by apply async_cancel_inv|by apply (table_inv_ext sy)..].
Qed.

Lemma user_run_inv {T} sy sy' : rtc user_step sy sy' → table_inv T sy → table_inv T sy'.
Proof. induction 1 as [|sy1 sy2 sy3 Hs _ IH]; [done|]. intros Hi. by eapply IH, user_step_inv. Qed.

(** ** What a callback leaves alone *)

Record user_frame sy sy' : Prop := {
  uf_notified : sy_notified sy' = sy_notified sy;
  uf_client : ay_client (sy_async sy') = ay_client (sy_async sy);
  uf_closing : ay_closing (sy_async sy') = ay_closing (sy_async sy);
  uf_accepted : ay_closing (sy_async sy) = true → sy_accepted sy' = sy_accepted sy;
}.

#[local] Instance user_frame_refl : Reflexive user_frame.
Proof. by split. Qed.

#[local] Instance user_frame_trans : Transitive user_frame.
Proof.
  intros x y z [A1 B1 C1 D1] [A2 B2 C2 D2]. split; [congruence..|].
  intros Hc. rewrite D2 by congruence. by apply D1.
Qed.

Lemma send_call_frame sy i sl result now : user_frame sy (send_call sy i sl result now).1.
Proof. unfold send_call. by repeat case_match. Qed.

Lemma submit_oldest_frame sy now : user_frame sy (submit_oldest sy now).1.1.
Proof.
  unfold submit_oldest. destruct (ay_closing _); [done|].
  destruct (oldest_queued _ _ _ _ _) as [e|[[[i sl] result]|]]; [done| |done].
  destruct (wl_tx_can_submit _ _); [|done]. pose proof (send_call_frame sy i sl result now).
  by destruct (send_call sy i sl result now).
Qed.

Lemma expire_queued_frame sy now : user_frame sy (expire_queued sy now).
Proof. unfold expire_queued. by repeat case_match. Qed.

Lemma submit_frame self sy req resp d timeout now encode request ob :
  user_frame sy (wl_rpc_async_submit self sy req resp d timeout now encode request ob).1.1.
Proof.
  unfold wl_rpc_async_submit. destruct encode as [encode|]; [|done].
  destruct (_ || _); [done|]. destruct ((_ =? NULL) || _) eqn:Ec; [done|].
  apply orb_false_elim in Ec as [_ Ec]. destruct (ay_submitting _); [done|].
  destruct (list_find _ _) as [[index x]|]; [|done].
  destruct (wl_rpc_client_begin _ _ _ _ _) as [[c rpc] id].
  case_bool_decide; [by split|]. cbv zeta.
  set (sy1 := set_submitting true sy <| sy_client := c |>).
  pose proof (law_encode Hlaws encode request id (wl_link_session_id (sy_link sy1))
    (ay_requests (sy_async sy1) + Z.of_nat index * ay_request_capacity (sy_async sy1))
    (ay_request_capacity (sy_async sy1)) sy1) as (m & w & Ee).
  destruct (call_encode _ _ _ _ _ _ _) as [[sy2 error] n]. cbn [fst] in Ee. subst sy2.
  set (sy2 := sy1 <| sy_link := _ |> <| sy_world := w |>).
  match goal with |- context [match ?e with inl _ => _ | inr _ => _ end] => destruct e as [rpc2|h] end;
    [by split|].
  set (sy3 := accept_call _ _ _ _ _ _ _).
  assert (user_frame sy sy3) as H3 by (split; [done..|]; congruence).
  pose proof (expire_queued_frame sy3 now) as H4.
  pose proof (submit_oldest_frame (expire_queued sy3 now) now) as H5.
  destruct (submit_oldest _ now) as [[sy5 e5] b5]. cbn [fst] in *.
  pose proof (transitivity H3 (transitivity H4 H5)) as []. by split.
Qed.

Lemma user_step_frame sy sy' : user_step sy sy' → user_frame sy sy'.
Proof.
  intros []; [apply submit_frame| |by split..]. unfold wl_rpc_async_cancel.
  destruct (call_refused _ _ _); [done|]. by destruct (wl_rpc_client_cancel_handle _ _ _).
Qed.

Lemma user_run_frame sy sy' : rtc user_step sy sy' → user_frame sy sy'.
Proof. induction 1 as [|sy1 sy2 sy3 Hs%user_step_frame _ IH]; [done|]. by etrans. Qed.

Lemma run_notify_inv {T} ob sy : table_inv T sy → table_inv T (run_notify ob sy).
Proof.
  intros Hi. unfold run_notify. destruct (ob_notify ob); [|done]. by eapply user_run_inv; [apply Hlaws|].
Qed.

Lemma run_notify_frame ob sy : user_frame sy (run_notify ob sy).
Proof. unfold run_notify. destruct (ob_notify ob); [|done]. apply user_run_frame, Hlaws. Qed.

(** ** Notifying *)

(** What the client says of a call in the table. *)
Lemma used_outcome {T} sy i sl :
  table_inv T sy → ay_slots (sy_async sy) !! i = Some sl → slot_used sl = true →
  ∃ s, call_at (sy_client sy) (Z.to_nat (hd_index (al_handle sl))) (slot_generation sl) = Some s ∧
    wl_rpc_client_get_by_handle (ay_client (sy_async sy)) (sy_client sy) (al_handle sl) =
      inr (client_result s (hd_index (al_handle sl))).
Proof.
  intros Hi Hs Hu. destruct (ai_owned _ sy Hi i sl Hs Hu) as [Ho Hr (s & Hc & _)]. exists s.
  split; [done|]. pose proof (ai_client _ sy Hi) as Hcl. destruct (call_generation _ _ _ _ Hcl Hc) as [_ Hg].
  unfold slot_generation in *. rewrite get_by_handle_call; [by rewrite Hc|done|done|lia|done].
Qed.

Lemma release_terminal self c h o :
  wl_rpc_client_get_by_handle self c h = inr o → client_terminal (co_state o) = true →
  (wl_rpc_client_release_handle self c h).2 = WL_RPC_OK.
Proof.
  unfold wl_rpc_client_get_by_handle, wl_rpc_client_release_handle.
  destruct (client_handle_index self c h) as [e|k]; [done|]. intros [= <-] Ht. cbn in Ht. by rewrite Ht.
Qed.

(** The slot of a notified call leaves the table and the client. *)
Lemma retire_inv {T} sy i sl result :
  table_inv T sy → ay_slots (sy_async sy) !! i = Some sl → slot_used sl = true →
  client_terminal (co_state result) = true → Forall (λ t, t.1.1 ≠ i) T →
  let c' := (wl_rpc_client_release_handle (ay_client (sy_async sy)) (sy_client sy) (al_handle sl)).1 in
  table_inv T (retire_call (sy <| sy_client := c' |>) i result).
Proof.
  intros Hi Hx Hu Hr HT. cbv zeta. set (c' := (wl_rpc_client_release_handle _ _ _).1).
  pose proof (release_handle_step (ay_client (sy_async sy)) (sy_client sy) (al_handle sl)) as Hs. fold c' in Hs.
  pose proof (ai_client _ sy Hi) as Hc. pose proof (limit_mono _ _ Hc Hs) as Hm.
  destruct Hi. unfold retire_call. cbn. unfold async_slot_at. rewrite Hx. cbn [default id].
  assert (∀ j y, j ≠ i → ay_slots (sy_async sy) !! j = Some y → slot_used y = true →
    slot_generation y ≠ hd_generation (al_handle sl)) as Hne.
  { intros j y Hj Hy Hyu E. apply Hj. by apply (ai_distinct0 j i y sl). }
  pose proof (used_insert _ i sl async_slot_zero Hx) as Hp. rewrite Hu in Hp. cbn [app slot_used async_slot_zero] in Hp.
  pose proof (tally_insert slot_used _ i sl async_slot_zero Hx) as Ht. rewrite Hu in Ht. cbn [Z.b2z] in Ht.
  pose proof (tally_bounds slot_used (<[i := async_slot_zero]> (ay_slots (sy_async sy)))) as Hb.
  unfold len in Hb. rewrite length_insert in Hb. fold (len (ay_slots (sy_async sy))) in Hb.
  change (slot_used async_slot_zero) with false in Ht, Hp. cbn [Z.b2z app] in Ht, Hp.
  split; cbn; try done.
  - by eapply client_step_inv.
  - intros j y [(-> & <- & _)|[Hj Hy]]%list_lookup_insert_Some; [done|]. intros Hyu.
    destruct (ai_owned0 j y Hy Hyu) as [Ho Hn (s & Hcs & Es)]. split; [done|by rewrite (slot_count_step _ _ Hs)|].
    exists s. split; [|done]. apply release_handle_other; [done|]. by apply (Hne j).
  - by apply distinct_insert.
  - unfold len. by rewrite length_insert.
  - rewrite u16_id; unfold is_u16; lia.
  - rewrite ai_accepted0, fmap_app, <- app_assoc. apply Permutation_app_head. symmetry. exact Hp.
  - eapply Forall_impl; [exact ai_issued0|]. cbn. lia.
  - apply Forall_app. split; [done|]. by constructor.
  - apply Forall_forall. intros [[j y] s] Hin. rewrite Forall_forall in HT, ai_settled0.
    specialize (HT _ Hin). destruct (ai_settled0 _ Hin) as (Hj & Hyu & Hcs & Htm). cbn in *.
    split_and!; [cbn; by rewrite list_lookup_insert_ne|done| |done].
    apply release_handle_other; [done|]. by apply (Hne j).
Qed.

(** The steps around the notification leave the table and the client alone. *)
Record quiet sy sy' : Prop := {
  qu_client : sy_client sy' = sy_client sy;
  qu_self : ay_client (sy_async sy') = ay_client (sy_async sy);
  qu_slots : ay_slots (sy_async sy') = ay_slots (sy_async sy);
  qu_count : ay_allocated_count (sy_async sy') = ay_allocated_count (sy_async sy);
  qu_closing : ay_closing (sy_async sy') = ay_closing (sy_async sy);
  qu_accepted : sy_accepted sy' = sy_accepted sy;
  qu_notified : sy_notified sy' = sy_notified sy;
}.

#[local] Instance quiet_refl : Reflexive quiet.
Proof. by split. Qed.

#[local] Instance quiet_trans : Transitive quiet.
Proof. intros x y z [] []. split; congruence. Qed.

Lemma quiet_inv {T} sy sy' : quiet sy sy' → table_inv T sy → table_inv T sy'.
Proof. intros [] Hi. by apply (table_inv_ext sy). Qed.

Lemma collect_quiet sy : quiet sy (collect_cancelled_tx sy).
Proof. unfold collect_cancelled_tx. by repeat case_match. Qed.

Lemma detach_quiet sy result : quiet sy (detach_tx sy result).
Proof.
  unfold detach_tx. etrans; [|apply collect_quiet]. by repeat case_match.
Qed.

Lemma prepare_quiet ob result sy : quiet sy (run_prepare ob result sy).
Proof. unfold run_prepare. by case_match. Qed.

(** What a pass over the table adds. *)
Record pass_frame sy sy' : Prop := {
  pf_notified : sy_notified sy `prefix_of` sy_notified sy';
  pf_client : ay_client (sy_async sy') = ay_client (sy_async sy);
  pf_closing : ay_closing (sy_async sy') = ay_closing (sy_async sy);
  pf_accepted : ay_closing (sy_async sy) = true → sy_accepted sy' = sy_accepted sy;
}.

#[local] Instance pass_frame_refl : Reflexive pass_frame.
Proof. by split. Qed.

#[local] Instance pass_frame_trans : Transitive pass_frame.
Proof.
  intros x y z [A1 B1 C1 D1] [A2 B2 C2 D2]. split; [by etrans|congruence..|].
  intros Hc. rewrite D2 by congruence. by apply D1.
Qed.

Lemma user_pass sy sy' : user_frame sy sy' → pass_frame sy sy'.
Proof. intros []. split; try done. by rewrite uf_notified0. Qed.

Lemma quiet_pass sy sy' : quiet sy sy' → pass_frame sy sy'.
Proof. intros []. split; try done. by rewrite qu_notified0. Qed.

(** A call with an outcome is notified of it, and the table stays in step. *)
Lemma notify_terminal_inv {T} sy i sl result :
  table_inv T sy → ay_slots (sy_async sy) !! i = Some sl → slot_used sl = true →
  wl_rpc_client_get_by_handle (ay_client (sy_async sy)) (sy_client sy) (al_handle sl) = inr result →
  client_terminal (co_state result) = true → Forall (λ t, t.1.1 ≠ i) T →
  let r := notify_terminal sy i result in
  r.2 = WL_OK ∧ table_inv T r.1 ∧ pass_frame sy r.1 ∧ (slot_generation sl, result) ∈ sy_notified r.1.
Proof.
  intros Hi Hx Hu Hg Hr HT. cbv zeta. unfold notify_terminal.
  set (sy1 := detach_tx sy result). set (ob := al_observer _). set (sy2 := run_prepare ob result sy1).
  assert (quiet sy sy2) as Hq by (etrans; [apply detach_quiet|apply prepare_quiet]).
  pose proof (quiet_inv _ _ Hq Hi) as H2. destruct Hq.
  assert (async_slot_at (sy_async sy2) i = sl) as Esl by (unfold async_slot_at; by rewrite qu_slots0, Hx).
  rewrite Esl. rewrite <- qu_slots0 in Hx. rewrite <- qu_self0, <- qu_client0 in Hg.
  pose proof (release_terminal _ _ _ _ Hg Hr) as Ho.
  pose proof (retire_inv sy2 i sl result H2 Hx Hu Hr HT) as H3. cbv zeta in H3.
  destruct (wl_rpc_client_release_handle _ _ _) as [c' rpc]. cbn [fst snd] in *. subst rpc.
  cbn [bool_decide]. rewrite bool_decide_eq_false_2 by tauto. cbn [fst snd].
  set (sy3 := retire_call _ _ _) in *.
  assert (sy_notified sy3 = sy_notified sy ++ [(slot_generation sl, result)]) as En.
  { change (sy_notified sy3) with
      (sy_notified sy2 ++ [(hd_generation (al_handle (async_slot_at (sy_async sy2) i)), result)]).
    by rewrite qu_notified0, Esl. }
  assert (pass_frame sy sy3) as Hp.
  { split; [rewrite En; by apply prefix_app_r|exact qu_self0|exact qu_closing0|]. intros _. exact qu_accepted0. }
  pose proof (run_notify_frame ob sy3) as Hf.
  split_and!; [done|by apply run_notify_inv|etrans; [exact Hp|by apply user_pass]|].
  rewrite (uf_notified _ _ Hf), En. set_solver.
Qed.

(** ** The pass over the table *)

Lemma table_inv_weaken T T' sy : T' ⊆ T → table_inv T sy → table_inv T' sy.
Proof.
  intros Hsub []. split; try done. rewrite Forall_forall in ai_settled0 |- *. intros t Ht. by apply ai_settled0, Hsub.
Qed.

(** The outcome of a settled call, as it is notified. *)
Definition settled_notice (t : nat * async_slot F * client_slot) : Z * client_outcome :=
  (slot_generation t.1.2, client_result t.2 (hd_index (al_handle t.1.2))).

(** What a pass over [n] slots from [i] on has done for the calls of [T]. *)
Definition pass_done (T : list (nat * async_slot F * client_slot)) sy (r : sys * wl_err * Z) : Prop :=
  r.1.2 = WL_OK ∧ table_inv [] r.1.1 ∧ pass_frame sy r.1.1 ∧
  Forall (λ t, settled_notice t ∈ sy_notified r.1.1) T.

(** The calls of [T] that are not in slot [i]. *)
Definition beyond (i : nat) (T : list (nat * async_slot F * client_slot)) :=
  filter (λ t, t.1.1 ≠ i) T.

Lemma beyond_spec i T t : t ∈ beyond i T ↔ t ∈ T ∧ t.1.1 ≠ i.
Proof. unfold beyond. rewrite list_elem_of_filter. tauto. Qed.

Lemma pass_done_beyond i T sy r :
  pass_done (beyond i T) sy r → (∀ t, t ∈ T → t.1.1 = i → settled_notice t ∈ sy_notified r.1.1) →
  pass_done T sy r.
Proof.
  intros (H1 & H2 & H3 & H4) H. split_and!; try done. rewrite Forall_forall in H4 |- *. intros t Ht.
  destruct (decide (t.1.1 = i)) as [E|E]; [by apply H|]. apply H4. by apply beyond_spec.
Qed.

(** Every call that had an outcome when the pass began has been notified of it. *)
Lemma notify_all_inv n : ∀ T i sy k,
  table_inv T sy → Forall (λ t, (i ≤ t.1.1 < i + n)%nat) T → pass_done T sy (notify_all n i sy k).
Proof.
  induction n as [|n IH]; intros T i sy k Hi HT.
  { destruct T as [|t T]; [by split_and!|]. apply Forall_cons in HT as [? _]. lia. }
  assert (Forall (λ t, (S i ≤ t.1.1 < S i + n)%nat) (beyond i T)) as HT'.
  { rewrite Forall_forall in HT |- *. intros t [Hin Hne]%beyond_spec. specialize (HT t Hin). lia. }
  assert (table_inv (beyond i T) sy) as Hi' by (apply (table_inv_weaken T); [by intros t []%beyond_spec|done]).
  pose proof (ai_settled _ sy Hi) as Hset. rewrite Forall_forall in Hset.
  assert ((∀ t, t ∈ T → t.1.1 ≠ i) → pass_done T sy (notify_all n (S i) sy k)) as Hskip.
  { intros Hno. apply (pass_done_beyond i); [by apply IH|]. intros t Ht E. by destruct (Hno t Ht). }
  cbn [notify_all]. unfold async_slot_at.
  destruct (ay_slots (sy_async sy) !! i) as [sl|] eqn:Ex; cbn [default id]; cycle 1.
  { apply Hskip. intros t Ht <-. destruct (Hset t Ht) as [E _]. congruence. }
  destruct (al_operation_id sl =? 0) eqn:Eu.
  { apply Hskip. intros t Ht <-. destruct (Hset t Ht) as (E & Hu & _). rewrite Ex in E. injection E as ->.
    unfold slot_used in Hu. by rewrite Eu in Hu. }
  assert (slot_used sl = true) as Hu by (unfold slot_used; by rewrite Eu).
  destruct (used_outcome sy i sl Hi Ex Hu) as (s & Hs & Hg). rewrite Hg. cbn [co_state client_result].
  assert (∀ t, t ∈ T → t.1.1 = i → t.1.2 = sl ∧ t.2 = s ∧ client_terminal (cs_state s) = true) as Hat.
  { intros [[j y] u] Ht E. destruct (Hset _ Ht) as (E1 & _ & E2 & E3). cbn in *. subst j.
    rewrite Ex in E1. injection E1 as <-. rewrite Hs in E2. injection E2 as <-. done. }
  destruct (client_terminal (cs_state s)) eqn:Et; cbn [negb]; cycle 1.
  { apply Hskip. intros t Ht E. by destruct (Hat t Ht E) as (_ & _ & ?). }
  assert (Forall (λ t, t.1.1 ≠ i) (beyond i T)) as Hne by (apply Forall_forall; by intros t []%beyond_spec).
  destruct (notify_terminal_inv sy i sl _ Hi' Ex Hu Hg Et Hne) as (H1 & H2 & H3 & H4).
  destruct (notify_terminal sy i _) as [sy' e]. cbn [fst snd] in *. subst e.
  change (is_ok WL_OK) with true. cbn [negb].
  destruct (IH _ (S i) sy' (u16 (k + 1)) H2 HT') as (H5 & H6 & H7 & H8).
  apply (pass_done_beyond i); [split_and!; try done; by etrans|].
  intros t Ht E. unfold settled_notice. destruct (Hat t Ht E) as (-> & -> & _).
  destruct (pf_notified _ _ H7) as [k' ->]. apply elem_of_app. by left.
Qed.

Lemma settled_range {T} sy : table_inv T sy → Forall (λ t, (0 ≤ t.1.1 < 0 + length (ay_slots (sy_async sy)))%nat) T.
Proof.
  intros Hi. eapply Forall_impl; [exact (ai_settled _ sy Hi)|]. intros t (Ht%lookup_lt_Some & _). lia.
Qed.

Lemma settled_none {T} sy : table_inv T sy → ay_allocated_count (sy_async sy) = 0 → T = [].
Proof.
  intros Hi E. rewrite (ai_count _ sy Hi) in E. destruct T as [|t T]; [done|].
  pose proof (ai_settled _ sy Hi) as [(Ht & Hu & _) _]%Forall_cons.
  rewrite tally_zero in E. by rewrite (E _ _ Ht) in Hu.
Qed.

Lemma service_inv {T} sy now :
  table_inv T sy → ay_client (sy_async sy) ≠ NULL →
  ay_servicing (sy_async sy) = false → ay_submitting (sy_async sy) = false →
  let r := wl_rpc_async_service sy now in
  table_inv [] r.1.1 ∧ pass_frame sy r.1.1 ∧ Forall (λ t, settled_notice t ∈ sy_notified r.1.1) T ∧
  (ay_closing (sy_async sy) = true → r.1.2 = WL_OK).
Proof.
  intros Hi Hn Hsv Hsb. cbv zeta. unfold wl_rpc_async_service.
  rewrite (proj2 (Z.eqb_neq _ _) Hn), Hsv, Hsb. cbn [orb].
  set (sy1 := collect_cancelled_tx (set_servicing true sy)).
  assert (quiet sy sy1) as Hq by (etrans; [|apply collect_quiet]; done).
  pose proof (quiet_inv _ _ Hq Hi) as H1. apply quiet_pass in Hq.
  destruct (_ =? 0) eqn:E0.
  { apply Z.eqb_eq in E0. pose proof (settled_none _ H1 E0) as ->. cbn [fst snd].
    split_and!; [by apply (table_inv_ext sy1)|by destruct Hq; split|done|done]. }
  destruct (notify_all_inv _ T 0 sy1 0 H1 (settled_range _ H1)) as (H2 & H3 & H4 & H5).
  destruct (notify_all _ _ _ _) as [[sy2 e2] k]. cbn [fst snd] in *. subst e2.
  change (is_ok WL_OK) with true. pose proof (transitivity Hq H4) as H6.
  pose proof (submit_oldest_inv sy2 now H3) as H7. pose proof (submit_oldest_frame sy2 now) as H8.
  assert (ay_closing (sy_async sy2) = true → (submit_oldest sy2 now).1.2 = WL_OK) as H9
    by (intros E; unfold submit_oldest; by rewrite E).
  destruct (submit_oldest sy2 now) as [[sy3 e3] b3]. cbn [fst snd] in *.
  pose proof (transitivity H6 (user_pass _ _ H8)) as H10.
  split_and!; [by apply (table_inv_ext sy3)|by destruct H10; split| |].
  - cbn. by rewrite (uf_notified _ _ H8).
  - intros Hc. apply H9. by rewrite (pf_closing _ _ H6).
Qed.

Lemma service_any_inv sy now : table_inv [] sy → table_inv [] (wl_rpc_async_service sy now).1.1.
Proof.
  intros Hi. destruct (decide (ay_client (sy_async sy) = NULL)) as [E|E].
  { unfold wl_rpc_async_service. by rewrite E. }
  destruct (ay_servicing (sy_async sy) || ay_submitting (sy_async sy)) eqn:Er.
  { unfold wl_rpc_async_service. by rewrite (proj2 (Z.eqb_neq _ _) E), Er. }
  apply orb_false_elim in Er as [E1 E2]. by apply (service_inv (T := [])).
Qed.

(** A cancelled call has an outcome, and is the same call. *)
Lemma cancel_handle_result self c h o :
  wl_rpc_client_get_by_handle self c h = inr o →
  ∃ o', wl_rpc_client_get_by_handle self (wl_rpc_client_cancel_handle self c h).1 h = inr o' ∧
    client_terminal (co_state o') = true ∧ co_operation_id o' = co_operation_id o.
Proof.
  unfold wl_rpc_client_get_by_handle, wl_rpc_client_cancel_handle.
  destruct (client_handle_index self c h) as [e|k] eqn:Ek; [done|]. intros [= <-].
  destruct (client_terminal (cs_state (client_slot_at c k))) eqn:Et.
  { cbn [fst]. rewrite Ek. by eexists. }
  cbn [fst]. pose proof Ek as (_ & _ & _ & _ & Eq & Hk & Hf & Hg)%client_handle_index_inr.
  set (s' := client_slot_at c k <| cs_state := WL_RPC_CLIENT_CANCELLED |>).
  assert (client_slot_at (set_client_slot c k s') k = s') as Es.
  { unfold client_slot_at. cbn. rewrite list_lookup_insert_eq by by eapply lookup_lt_Some. done. }
  assert (client_handle_index self (set_client_slot c k s') h = inr k) as ->.
  { unfold client_handle_index in Ek |- *. rewrite <- Eq in Ek |- *. rewrite Es. cbn [cs_state cs_generation s'].
    change (client_initialized (set_client_slot c k s')) with (client_initialized c).
    change (cl_slot_count (set_client_slot c k s')) with (cl_slot_count c).
    destruct (negb _); [done|]. destruct (_ || _); [done|].
    change (cs_state s') with WL_RPC_CLIENT_CANCELLED. rewrite bool_decide_eq_false_2 by done.
    change (cs_generation s') with (cs_generation (client_slot_at c k)). by rewrite Hg, Z.eqb_refl. }
  rewrite Es. by eexists.
Qed.

(** The slot of a call is found by its operation. *)
Lemma complete_slot {T} sy h o i sl :
  table_inv T sy → wl_rpc_client_get_by_handle (ay_client (sy_async sy)) (sy_client sy) h = inr o →
  ay_slots (sy_async sy) !! i = Some sl → al_operation_id sl = co_operation_id o →
  slot_used sl = true ∧
  wl_rpc_client_get_by_handle (ay_client (sy_async sy)) (sy_client sy) (al_handle sl) = inr o.
Proof.
  intros Hi Hg Hx Eo. pose proof (ai_client _ sy Hi) as Hc. unfold wl_rpc_client_get_by_handle in Hg.
  destruct (client_handle_index _ _ h) as [e|k] eqn:Ek; [done|]. injection Hg as <-. cbn in Eo.
  apply client_handle_index_inr in Ek as (_ & _ & _ & _ & _ & Hk & Hf & Hgk).
  assert (slot_used sl = true) as Hu.
  { pose proof (slot_ok_live _ _ (ci_slots _ Hc _ _ Hk) Hf) as Hok. unfold slot_used. rewrite Eo.
    destruct (Z.eqb_spec (cs_operation_id (client_slot_at (sy_client sy) k)) 0); [|done]. by destruct Hok. }
  split; [done|]. destruct (used_outcome sy i sl Hi Hx Hu) as (s & Hs & ->).
  destruct (ai_owned _ sy Hi i sl Hx Hu) as [_ Hr (s0 & Hs0 & Es)]. assert (s0 = s) as -> by congruence.
  apply call_at_Some in Hs as (Hs1 & Hs2 & _).
  assert (Z.to_nat (hd_index (al_handle sl)) = k) as E by (eapply (ci_operations _ Hc); eauto; congruence).
  rewrite E, Hk in Hs1. injection Hs1 as <-. do 2 f_equal. lia.
Qed.

Lemma cancel_complete_inv self sy ca :
  table_inv [] sy → table_inv [] (wl_rpc_async_cancel_complete self sy ca).1.
Proof.
  intros Hi. unfold wl_rpc_async_cancel_complete. destruct (_ || _); [done|].
  destruct (call_refused _ _ _) eqn:Er; [done|].
  destruct (wl_rpc_client_get_by_handle _ _ _) as [e|o] eqn:Eg; [done|].
  destruct (list_find _ _) as [[i sl]|] eqn:Ef; [|done]. apply list_find_Some in Ef as (Hx & Eo & _).
  assert (∀ sy' o', table_inv [] sy' → sy_async sy' = sy_async sy → co_operation_id o' = co_operation_id o →
    client_terminal (co_state o') = true →
    wl_rpc_client_get_by_handle (ay_client (sy_async sy')) (sy_client sy') (ca_handle ca) = inr o' →
    table_inv [] (let '(sy2, error) := notify_terminal (set_servicing true sy') i o' in
                  (set_servicing false sy2, error)).1) as Hend.
  { intros sy' o' Hi' Ea Eo' Ht Eg'. rewrite <- Ea in Hx.
    destruct (complete_slot sy' _ _ i sl Hi' Eg' Hx) as [Hu Hg]; [congruence|].
    assert (table_inv [] (set_servicing true sy')) as H1 by by apply (table_inv_ext sy').
    destruct (notify_terminal_inv (T := []) _ i sl o' H1 Hx Hu Hg Ht) as (_ & H2 & _); [done|].
    destruct (notify_terminal _ i o') as [sy2 e2]. by apply (table_inv_ext sy2). }
  destruct (client_terminal (co_state o)) eqn:Et; [by apply Hend|].
  unfold wl_rpc_async_cancel. rewrite Er.
  destruct (cancel_handle_result _ _ _ _ Eg) as (o' & Eg' & Ht' & Eo').
  pose proof (cancel_handle_step (ay_client (sy_async sy)) (sy_client sy) (ca_handle ca)) as Hs.
  pose proof (cancel_handle_count (ay_client (sy_async sy)) (sy_client sy) (ca_handle ca)) as Ha.
  destruct (wl_rpc_client_cancel_handle _ _ _) as [c rpc]. cbn [fst snd] in *.
  assert (table_inv [] (sy <| sy_client := c |>)) as H1 by by apply table_inv_keeps.
  destruct (is_ok (map_error rpc)); [|done]. cbn [negb sy_async sy_client]. cbn. rewrite Eg'. by apply Hend.
Qed.

(** ** Closing *)

Lemma cancel_all_inv {T} sy (slots : list (async_slot F)) : ∀ c,
  table_inv T (sy <| sy_client := c |>) →
  table_inv T (sy <| sy_client := cancel_all (ay_client (sy_async sy)) slots c |>).
Proof.
  induction slots as [|sl slots IH]; intros c Hi; [done|]. cbn. apply IH. destruct (_ =? 0); [done|].
  apply (table_inv_keeps (sy <| sy_client := c |>) (wl_rpc_client_cancel_handle _ c _).1 Hi). eauto with keeps.
Qed.

(** Once every call was cancelled, every call in the table has an outcome. *)
Lemma cancel_all_settles sy i sl (slots : list (async_slot F)) : ∀ c,
  table_inv [] (sy <| sy_client := c |>) → ay_slots (sy_async sy) !! i = Some sl → slot_used sl = true →
  sl ∈ slots → ∃ s, settled (sy <| sy_client := cancel_all (ay_client (sy_async sy)) slots c |>) (i, sl, s).
Proof.
  induction slots as [|y slots IH]; intros c Hi Hx Hu Hin; [by apply elem_of_nil in Hin|].
  set (c' := if al_operation_id y =? 0 then c
             else (wl_rpc_client_cancel_handle (ay_client (sy_async sy)) c (al_handle y)).1).
  assert (table_inv [] (sy <| sy_client := c' |>)) as Hi'.
  { unfold c'. destruct (_ =? 0); [done|]. 
    apply (table_inv_keeps (sy <| sy_client := c |>) (wl_rpc_client_cancel_handle _ c _).1 Hi). eauto with keeps. }
  change (cancel_all _ _ c) with (cancel_all (ay_client (sy_async sy)) slots c').
  apply elem_of_cons in Hin as [->|Hin]; [|by apply IH].
  destruct (used_outcome _ i y Hi Hx Hu) as (s0 & _ & Eg).
  destruct (cancel_handle_result _ _ _ _ Eg) as (o' & Eg' & Ht & _).
  assert (al_operation_id y =? 0 = false) as E0 by by apply negb_true_iff.
  destruct (used_outcome _ i y Hi' Hx Hu) as (s & Hs & Eg2). unfold c' in Eg2. rewrite E0 in Eg2. cbn in Eg', Eg2.
  rewrite Eg2 in Eg'. injection Eg' as <-. cbn in Ht. exists s.
  assert (table_inv [(i, y, s)] (sy <| sy_client := c' |>)) as H1.
  { destruct Hi'. split; try done. by repeat constructor. }
  apply (cancel_all_inv sy slots) in H1. by apply ai_settled, Forall_inv in H1.
Qed.

(** The calls in the table. *)
Definition in_table sy : list (nat * async_slot F * client_slot) :=
  omap (λ p, if slot_used p.2
             then s ← call_at (sy_client sy) (Z.to_nat (hd_index (al_handle p.2))) (slot_generation p.2); Some (p, s)
             else None)
    (imap pair (ay_slots (sy_async sy))).

Lemma in_table_spec sy i sl s :
  (i, sl, s) ∈ in_table sy ↔
  ay_slots (sy_async sy) !! i = Some sl ∧ slot_used sl = true ∧
  call_at (sy_client sy) (Z.to_nat (hd_index (al_handle sl))) (slot_generation sl) = Some s.
Proof.
  unfold in_table. rewrite list_elem_of_omap. split.
  - intros ([j y] & (k & z & E & Hz)%elem_of_lookup_imap & H). injection E as -> ->. cbn in H.
    destruct (slot_used z) eqn:Eu; [|done]. destruct (call_at _ _ _) eqn:Ec; [|done]. cbn in H. by simplify_eq.
  - intros (Hx & Hu & Hc). exists (i, sl). split; [|cbn; by rewrite Hu, Hc].
    apply elem_of_lookup_imap. by exists i, sl.
Qed.

(** A table whose calls were all notified is empty. *)
Lemma all_notified_empty sy :
  table_inv [] sy → (∀ g, g ∈ sy_accepted sy → g ∈ (sy_notified sy).*1) →
  used_generations (ay_slots (sy_async sy)) = [].
Proof.
  intros [] Hall. destruct (used_generations _) as [|g l] eqn:E; [done|]. exfalso.
  rewrite ai_accepted0 in ai_nodup0. apply NoDup_app in ai_nodup0 as (_ & Hd & _).
  apply (Hd g); [|set_solver]. apply Hall. rewrite ai_accepted0. set_solver.
Qed.

Lemma used_empty (slots : list (async_slot F)) i sl :
  used_generations slots = [] → slots !! i = Some sl → slot_used sl = false.
Proof.
  intros E Hx. destruct (slot_used sl) eqn:Eu; [|done].
  assert (slot_generation sl ∈ used_generations slots) as Hin; [|rewrite E in Hin; by apply elem_of_nil in Hin].
  apply list_elem_of_fmap_2. apply list_elem_of_filter. split; [done|]. by eapply list_elem_of_lookup_2.
Qed.

Lemma table_inv_closed sy :
  table_inv [] sy → used_generations (ay_slots (sy_async sy)) = [] →
  table_inv [] (sy <| sy_async := sy_async sy <| ay_client := NULL |> |>).
Proof.
  intros [] E. split; try done. intros i sl Hx Hu. by rewrite (used_empty _ i sl E Hx) in Hu.
Qed.

Lemma close_inv sy :
  table_inv [] sy → ay_client (sy_async sy) ≠ NULL →
  ay_servicing (sy_async sy) = false → ay_submitting (sy_async sy) = false →
  let r := wl_rpc_async_close sy in
  r.2 = WL_OK ∧ table_inv [] r.1 ∧ used_generations (ay_slots (sy_async r.1)) = [] ∧
  sy_accepted r.1 = sy_accepted sy.
Proof.
  intros Hi Hn Hsv Hsb. cbv zeta. unfold wl_rpc_async_close.
  rewrite Hsv, Hsb, (proj2 (Z.eqb_neq _ _) Hn). cbn [orb].
  set (sy1 := sy <| sy_async := sy_async sy <| ay_closing := true |> |>).
  change (sy_client sy1) with (sy_client sy).
  set (sy2 := sy1 <| sy_client := cancel_all (ay_client (sy_async sy)) (ay_slots (sy_async sy)) (sy_client sy) |>).
  assert (table_inv [] (sy1 <| sy_client := sy_client sy |>)) as H1 by by apply (table_inv_ext sy).
  pose proof (cancel_all_inv sy1 (ay_slots (sy_async sy)) _ H1) as H2. fold sy2 in H2.
  assert (table_inv (in_table sy2) sy2) as H3.
  { destruct H2. split; try done. apply Forall_forall. intros [[i sl] s] (Hx & Hu & Hs)%in_table_spec.
    destruct (cancel_all_settles sy1 i sl (ay_slots (sy_async sy)) (sy_client sy) H1 Hx Hu) as (s' & Hs');
      [by eapply list_elem_of_lookup_2|].
    destruct Hs' as (_ & _ & E & Ht). cbn in E, Ht. cbn in Hs. rewrite E in Hs. injection Hs as ->. done. }
  destruct (service_inv sy2 0 H3 Hn Hsv Hsb) as (H4 & H5 & H6 & H7).
  destruct (wl_rpc_async_service sy2 0) as [[sy3 e] w]. cbn [fst snd] in *. rewrite (H7 eq_refl).
  change (is_ok WL_OK) with true. cbn iota.
  pose proof (pf_accepted _ _ H5 eq_refl) as Ea. change (sy_accepted sy2) with (sy_accepted sy) in Ea.
  assert (used_generations (ay_slots (sy_async sy3)) = []) as E.
  { apply all_notified_empty; [done|]. intros g Hg. rewrite Ea, (ai_accepted _ sy Hi), elem_of_app in Hg.
    destruct Hg as [Hg|Hg].
    - destruct (pf_notified _ _ H5) as [k ->]. change (sy_notified sy2) with (sy_notified sy). set_solver.
    - apply list_elem_of_fmap in Hg as (sl & -> & Hin). apply list_elem_of_filter in Hin as [Hu Hin].
      apply list_elem_of_lookup_1 in Hin as [i Hx]. destruct (used_outcome sy2 i sl H2 Hx Hu) as (s & Hs & _).
      rewrite Forall_forall in H6. apply list_elem_of_fmap. exists (settled_notice (i, sl, s)). split; [done|].
      apply H6. by apply in_table_spec. }
  split_and!; [done|by apply table_inv_closed|done|done].
Qed.

Lemma close_any_inv sy : table_inv [] sy → table_inv [] (wl_rpc_async_close sy).1.
Proof.
  intros Hi. destruct (ay_servicing (sy_async sy) || ay_submitting (sy_async sy)) eqn:Er.
  { unfold wl_rpc_async_close. by rewrite Er. }
  destruct (decide (ay_client (sy_async sy) = NULL)) as [E|E].
  { unfold wl_rpc_async_close. by rewrite Er, E. }
  apply orb_false_elim in Er as [E1 E2]. by apply close_inv.
Qed.

(** ** Runs *)

(** The client operations of the owner: events, time and responses, never a release. *)
Definition owner_op (op : client_op) : bool :=
  match op with
  | ClBeginWithId _ _ _ _ _ | ClBegin _ _ _ _ | ClRelease _ | ClReleaseHandle _ => false
  | _ => true
  end.

Lemma owner_op_keeps self c op : owner_op op = true → client_keeps c (client_exec self c op).
Proof. destruct op; intros; try done; cbn; eauto with keeps. Qed.

(** The owner's turns, between which the user submits, cancels and uses the link. *)
Inductive async_step sy : sys → Prop :=
  | as_user sy' : user_step sy sy' → async_step sy sy'
  | as_client op :
      owner_op op = true →
      async_step sy (sy <| sy_client := client_exec (ay_client (sy_async sy)) (sy_client sy) op |>)
  | as_service now : async_step sy (wl_rpc_async_service sy now).1.1
  | as_cancel_complete self ca : async_step sy (wl_rpc_async_cancel_complete self sy ca).1
  | as_retire handle : async_step sy (wl_rpc_async_retire_tx sy handle).1
  | as_close : async_step sy (wl_rpc_async_close sy).1.

(** A table opened over a fresh client. *)
Inductive async_start : sys → Prop :=
  | started link c0 config c a0 a addr slots count requests size capacity incarnation w :
      client_config_ok config → wl_rpc_client_init c0 config = (c, WL_RPC_OK) → 0 < count < 2 ^ 16 →
      wl_rpc_async_init a0 addr slots count requests size capacity incarnation = (a, WL_OK) →
      async_start (mk_system link c a w [] []).

Lemma used_zero n : used_generations (replicate n async_slot_zero) = [].
Proof. induction n as [|n IH]; [done|]. cbn [replicate]. by rewrite used_cons. Qed.

Lemma async_start_inv sy : async_start sy → table_inv [] sy.
Proof.
  intros [link c0 config c a0 a addr slots count requests size capacity incarnation w Hcfg Hc Hn Ha].
  unfold wl_rpc_async_init in Ha. repeat branch_case Ha; try done. injection Ha as <-.
  assert (∀ i sl, replicate (Z.to_nat count) async_slot_zero !! i = Some sl → slot_used sl = false) as Hz
    by (by intros i sl [-> _]%lookup_replicate).
  split; cbn; try done.
  - by apply (client_init_inv c0 config).
  - intros i sl Hi Hu. by rewrite (Hz i sl Hi) in Hu.
  - intros i j x y Hi _ Hu. by rewrite (Hz i x Hi) in Hu.
  - unfold len. rewrite length_replicate. lia.
  - symmetry. by apply tally_zero.
  - by apply reflexive_eq, eq_sym, used_zero.
  - constructor.
Qed.

Lemma async_step_inv sy sy' : async_step sy sy' → table_inv [] sy → table_inv [] sy'.
Proof.
  intros [sy1 Hs|op Ho|now|self ca|handle|] Hi.
  - by eapply user_step_inv.
  - apply table_inv_keeps; [done|]. by apply owner_op_keeps.
  - by apply service_any_inv.
  - by apply cancel_complete_inv.
  - unfold wl_rpc_async_retire_tx. destruct (_ || _); [done|]. by apply (table_inv_ext sy).
  - by apply close_any_inv.
Qed.

Lemma async_run_inv sy0 sy : async_start sy0 → rtc async_step sy0 sy → table_inv [] sy.
Proof.
  intros H0%async_start_inv Hr. induction Hr as [|x y z Hs _ IH]; [done|]. by apply IH, (async_step_inv x).
Qed.

(** ** Theorems *)

(** C11: after any run of a table opened over a fresh client, with the user
    submitting and cancelling also from within notifications, every accepted call was
    either notified or still waits in the table, and neither twice: the accepted calls
    are, without repetition, those notified followed by those in the table.  A call is
    only ever notified of an outcome. *)
Theorem async_exactly_once sy0 sy :
  async_start sy0 → rtc async_step sy0 sy →
  NoDup (sy_accepted sy) ∧
  sy_accepted sy ≡ₚ (sy_notified sy).*1 ++ used_generations (ay_slots (sy_async sy)) ∧
  Forall (λ n, client_terminal (co_state n.2) = true) (sy_notified sy).
Proof. intros H0 Hr. destruct (async_run_inv sy0 sy H0 Hr). done. Qed.

(** a service turn notifies every call that has an outcome when it
    begins, and of that outcome, whatever the notifications of the other calls do. *)
Theorem async_service_notifies sy0 sy now i sl result :
  async_start sy0 → rtc async_step sy0 sy → ay_client (sy_async sy) ≠ NULL →
  ay_servicing (sy_async sy) = false → ay_submitting (sy_async sy) = false →
  ay_slots (sy_async sy) !! i = Some sl → al_operation_id sl ≠ 0 →
  wl_rpc_client_get_by_handle (ay_client (sy_async sy)) (sy_client sy) (al_handle sl) = inr result →
  client_terminal (co_state result) = true →
  (hd_generation (al_handle sl), result) ∈ sy_notified (wl_rpc_async_service sy now).1.1.
Proof.
  intros H0 Hr Hn Hsv Hsb Hx Hu Hg Ht. pose proof (async_run_inv sy0 sy H0 Hr) as Hi.
  assert (slot_used sl = true) as Hu' by by apply negb_true_iff, Z.eqb_neq.
  destruct (used_outcome sy i sl Hi Hx Hu') as (s & Hs & Eg). rewrite Hg in Eg. injection Eg as ->.
  assert (table_inv [(i, sl, s)] sy) as Hi' by (destruct Hi; split; try done; by repeat constructor).
  destruct (service_inv sy now Hi' Hn Hsv Hsb) as (_ & _ & H & _). by apply Forall_inv in H.
Qed.

(** C12: closing an open table from outside its callbacks always succeeds,
    accepts no further call, and leaves every accepted call notified exactly once. *)
Theorem async_close_complete sy0 sy :
  async_start sy0 → rtc async_step sy0 sy → ay_client (sy_async sy) ≠ NULL →
  ay_servicing (sy_async sy) = false → ay_submitting (sy_async sy) = false →
  let '(sy', error) := wl_rpc_async_close sy in
  error = WL_OK ∧ ay_client (sy_async sy') = NULL ∧ sy_accepted sy' = sy_accepted sy ∧
  NoDup (sy_accepted sy') ∧ sy_accepted sy' ≡ₚ (sy_notified sy').*1.
Proof.
  intros H0 Hr Hn Hsv Hsb. pose proof (async_run_inv sy0 sy H0 Hr) as Hi.
  destruct (close_inv sy Hi Hn Hsv Hsb) as (E & H1 & Hu & Ha).
  assert (ay_client (sy_async (wl_rpc_async_close sy).1) = NULL) as En.
  { revert E. unfold wl_rpc_async_close. rewrite Hsv, Hsb, (proj2 (Z.eqb_neq _ _) Hn). cbn [orb].
    destruct (wl_rpc_async_service _ 0) as [[sy3 e] w]. cbn [fst snd]. by intros ->. }
  destruct (wl_rpc_async_close sy) as [sy' e]. cbn [fst snd] in *. destruct H1.
  rewrite Hu, app_nil_r in ai_accepted0. by split_and!.
Qed.
End Once.

(** ** A run *)

#[local] Instance demo_sent : Platform := demo_platform (λ _, WL_SINK_SENT).

Definition demo_observer : observer unit := mk_observer (Some tt) (Some tt) 7 (Some tt) 9.

(** The encoder leaves four bytes in place; a silent notification does nothing. *)
Definition demo_silent : AsyncCode unit Z := {|
  call_encode _ _ _ _ _ _ sy := (sy, WL_OK, 4);
  call_prepare _ _ _ w := w + 1;
  call_notify _ _ _ _ sy := sy |}.

Definition demo_submit (now : Z) (sy : system unit Z) : system unit Z :=
  (wl_rpc_async_submit (code := demo_silent) 32 sy 1 2 WL_DELIVERY_RELIABLE 500 now (Some tt) 5
     demo_observer).1.1.

(** A notification that submits the next call from within. *)
#[local] Instance demo_chained : AsyncCode unit Z := {
  call_encode := call_encode (AsyncCode := demo_silent);
  call_prepare := call_prepare (AsyncCode := demo_silent);
  call_notify _ _ _ _ := demo_submit 2000;
}.

Lemma demo_submit_step now sy : is_u32 now → user_step sy (demo_submit now sy).
Proof.
  intros Hn. pose proof (user_submit sy 32 1 2 WL_DELIVERY_RELIABLE 500 now (Some tt) 5 demo_observer) as H.
  unfold demo_submit. unfold wl_rpc_async_submit in *.
  change (call_encode (AsyncCode := demo_chained)) with (call_encode (AsyncCode := demo_silent)) in H.
  apply H; [unfold is_u32; lia|done].
Qed.

Lemma demo_laws : async_laws (F := unit) (W := Z).
Proof.
  split.
  - intros f r id sid out cap [link c a w acc nts]. exists (lmem link), w. by destruct link.
  - intros f ctx cb u sy. change (call_notify f ctx cb u sy) with (demo_submit 2000 sy).
    apply rtc_once. apply demo_submit_step. unfold is_u32. lia.
Qed.

Definition demo_async : async unit :=
  (wl_rpc_async_init (mk_async 0 [] 0 0 0 0 0 false false false 0) 64 9000 2 6000 64 16 5).1.

Definition demo_open : system unit Z :=
  mk_system (demo_start demo_sent demo_cfg) rpc_demo_client demo_async 0 [] [].

Lemma demo_open_start : async_start demo_open.
Proof.
  apply (started _ (mk_client [] 0 0 0 0 0) rpc_demo_config _ (mk_async 0 [] 0 0 0 0 0 false false false 0) _
    64 9000 2 6000 64 16 5); [|reflexivity|lia|reflexivity].
  unfold client_config_ok, is_u16, is_u32. cbn. lia.
Qed.

(** A call is submitted and times out. *)
Definition demo_timed_out : system unit Z :=
  let sy := demo_submit 0 demo_open in
  sy <| sy_client := client_exec 64 (sy_client sy) (ClPoll 2000) |>.

Lemma demo_timed_out_run : rtc async_step demo_open demo_timed_out.
Proof.
  eapply rtc_l; [apply as_user, (demo_submit_step 0); unfold is_u32; lia|].
  apply rtc_once. refine (as_client (demo_submit 0 demo_open) (ClPoll 2000) _). done.
Qed.

Lemma async_exactly_once_witness :
  let sy := (wl_rpc_async_service demo_timed_out 2000).1.1 in
  (NoDup (sy_accepted sy) ∧
   sy_accepted sy ≡ₚ (sy_notified sy).*1 ++ used_generations (ay_slots (sy_async sy)) ∧
   Forall (λ n, client_terminal (co_state n.2) = true) (sy_notified sy)) ∧
  sy_accepted sy = [1; 2] ∧ (sy_notified sy).*1 = [1].
Proof.
  intros sy. split; [|split; vm_compute; reflexivity].
  apply (async_exactly_once demo_laws demo_open sy); [exact demo_open_start|].
  eapply rtc_r; [exact demo_timed_out_run|]. exact (as_service demo_timed_out 2000).
Defined.

Lemma async_service_notifies_witness :
  (1, mk_client_outcome 1 1 2 WL_RPC_CLIENT_TIMED_OUT 65537 0 0 WL_RPC_OK false 0 false)
    ∈ sy_notified (wl_rpc_async_service demo_timed_out 2000).1.1.
Proof.
  refine (async_service_notifies demo_laws demo_open demo_timed_out 2000 0
    (async_slot_at (sy_async demo_timed_out) 0) _ demo_open_start demo_timed_out_run _ _ _ _ _ _ _);
    vm_compute; congruence.
Defined.

Lemma async_close_complete_witness :
  let '(sy', error) := wl_rpc_async_close (demo_submit 0 demo_open) in
  error = WL_OK ∧ ay_client (sy_async sy') = NULL ∧ sy_accepted sy' = sy_accepted (demo_submit 0 demo_open) ∧
  NoDup (sy_accepted sy') ∧ sy_accepted sy' ≡ₚ (sy_notified sy').*1.
Proof.
  apply (async_close_complete demo_laws demo_open (demo_submit 0 demo_open) demo_open_start);
    [|vm_compute; congruence..].
  apply rtc_once, as_user, demo_submit_step. unfold is_u32. lia.
Defined.
