(* ===== verification/KernelWire.v ===== *)
(** The wire primitives of the static kernel: [rpc_wire.c], the metadata in front of
    every managed call, and [native_none.c], the four-byte prefix of a packet.

    The metadata is an eight-byte session, a tagged operation of one to five bytes and,
    for a rejection, a signed status.  Writing and reading are inverse, and a reader
    accepts only what the writer writes.  The prefix is that of an ordinary frame. *)
From S2P Require Import Prelude Crc Cobs Frame.
#[local] Open Scope Z_scope.

Definition WL_KERNEL_NATIVE_HEADER : Z := 4.
Definition WL_KERNEL_RPC_HEADER_MAX : Z := 17.
Definition INT32_MAX : Z := 2 ^ 31 - 1.
Definition is_i32 (x : Z) : Prop := - 2 ^ 31 <= x < 2 ^ 31.

(** [wl_kernel_frame_t] *)
Record wl_kernel_frame := mk_kernel_frame {
  kf_message_id : Z;
  kf_payload : Z;
  kf_length : Z;
}.

(** [wl_kernel_rpc_metadata_t] *)
Record wl_kernel_rpc_metadata := mk_rpc_metadata {
  md_session : Z;
  md_operation : Z;
  md_status : Z;
  md_body : Z;
  md_length : Z;
}.

(** ** Metadata ([rpc_wire.c]) *)

Definition read_u32 (m : mem) (data : Z) : Z :=
  Z.lor (Z.lor (Z.lor (u32 (Z.shiftl (m data) 24)) (u32 (Z.shiftl (m (data + 1)) 16)))
               (u32 (Z.shiftl (m (data + 2)) 8)))
        (m (data + 3)).

Definition write_u32 (m : mem) (data value : Z) : mem :=
  let m := mset m data (u8 (Z.shiftr value 24)) in
  let m := mset m (data + 1) (u8 (Z.shiftr value 16)) in
  let m := mset m (data + 2) (u8 (Z.shiftr value 8)) in
  mset m (data + 3) (u8 value).

(** The operation has 26 bits after the first shift, so that four turns empty it. *)
Fixpoint header_size_loop (n : nat) (operation size : Z) : Z :=
  match n with
  | O => size
  | S n =>
      if operation =? 0 then size
      else header_size_loop n (Z.shiftr operation 7) (usize (size + 1))
  end.

Definition wl_kernel_rpc_header_size (operation status : Z) : Z :=
  if operation =? 0 then 0
  else header_size_loop 4 (Z.shiftr operation 6) (if status =? 0 then 9 else 13).

Fixpoint rpc_write_loop (n : nat) (m : mem) (data operation at_ : Z) : mem * Z :=
  match n with
  | O => (m, at_)
  | S n =>
      if operation =? 0 then (m, at_)
      else
        let byte := u8 (Z.land operation 127) in
        let operation := Z.shiftr operation 7 in
        rpc_write_loop n
          (mset m (data + at_) (if negb (operation =? 0) then u8 (Z.lor byte 128) else byte))
          data operation (at_ + 1)
  end.

(** The last component is what is stored through [length]; [status] is an [int32_t]. *)
Definition wl_kernel_rpc_write (m : mem) (data capacity session operation status : Z)
    : mem * wl_err * Z :=
  if (data =? NULL) || (session =? 0) || (operation =? 0) then (m, WL_ERR_INVALID_ARG, 0)
  else
    let size := wl_kernel_rpc_header_size operation status in
    if capacity <? size then (m, WL_ERR_BUF_TOO_SMALL, 0)
    else
      let m := write_u32 m data (u32 (Z.shiftr session 32)) in
      let m := write_u32 m (data + 4) (u32 session) in
      let m := mset m (data + 8)
                 (u8 (Z.lor (Z.shiftl (Z.land operation 63) 1) (if negb (status =? 0) then 1 else 0))) in
      let operation := Z.shiftr operation 6 in
      let m := if negb (operation =? 0) then mset m (data + 8) (u8 (Z.lor (m (data + 8)) 128)) else m in
      let '(m, at_) := rpc_write_loop 4 m data operation 9 in
      if negb (status =? 0) then (write_u32 m (data + at_) (u32 status), WL_OK, at_ + 4)
      else (m, WL_OK, at_).

(** [n] bounds the turns: the shift passes 27 after four of them, which ends the loop
    one way or the other. *)
Fixpoint rpc_read_loop (n : nat) (m : mem) (data length byte shift operation at_ : Z)
    : wl_err + Z * Z :=
  match n with
  | O => inl WL_ERR_CORRUPT_PAYLOAD
  | S n =>
      if Z.land byte 128 =? 0 then inr (operation, at_)
      else if (at_ =? length) || (shift >? 27) then inl WL_ERR_CORRUPT_PAYLOAD
      else
        let byte := m (data + at_) in
        let at_ := at_ + 1 in
        if ((shift =? 27) && (byte >? 31)) || (byte =? 0) then inl WL_ERR_CORRUPT_PAYLOAD
        else
          rpc_read_loop n m data length byte (shift + 7)
            (Z.lor operation (u32 (Z.shiftl (Z.land byte 127) shift))) at_
  end.

Definition status_of_bits (bits : Z) : Z :=
  if bits <=? INT32_MAX then bits else -1 - (UINT32_MAX - bits).

Definition wl_kernel_rpc_read (m : mem) (data length : Z) (request : bool)
    : wl_err + wl_kernel_rpc_metadata :=
  if data =? NULL then inl WL_ERR_INVALID_ARG
  else if length <? 9 then inl WL_ERR_CORRUPT_PAYLOAD
  else
    let session := Z.lor (u64 (Z.shiftl (read_u32 m data) 32)) (read_u32 m (data + 4)) in
    let byte := m (data + 8) in
    let rejection := negb (Z.land byte 1 =? 0) in
    match rpc_read_loop 5 m data length byte 6 (Z.land (Z.shiftr byte 1) 63) 9 with
    | inl e => inl e
    | inr (operation, at_) =>
        if (session =? 0) || (operation =? 0) || (rejection && request)
        then inl WL_ERR_CORRUPT_PAYLOAD
        else if rejection then
          if negb (length - at_ =? 4) then inl WL_ERR_CORRUPT_PAYLOAD
          else
            let status := status_of_bits (read_u32 m (data + at_)) in
            if status =? 0 then inl WL_ERR_CORRUPT_PAYLOAD
            else inr (mk_rpc_metadata session operation status (data + (at_ + 4)) (length - (at_ + 4)))
        else inr (mk_rpc_metadata session operation 0 (data + at_) (length - at_))
    end.

(** ** Packets ([native_none.c]) *)

Definition wl_kernel_native_none_seal (m : mem) (frame capacity message_id payload_length : Z)
    : mem * wl_err :=
  if (frame =? NULL) || (message_id =? 0) then (m, WL_ERR_INVALID_ARG)
  else if payload_length >? WL_PACKET_MAX_PAYLOAD then (m, WL_ERR_PAYLOAD_TOO_LONG)
  else if capacity <? WL_KERNEL_NATIVE_HEADER + payload_length then (m, WL_ERR_BUF_TOO_SMALL)
  else
    let m := mset m frame WL_FRAME_PREFIX in
    let m := mset m (frame + 1) 0 in
    let m := mset m (frame + 2) (u8 (Z.shiftr message_id 8)) in
    (mset m (frame + 3) (u8 message_id), WL_OK).

Definition wl_kernel_native_none_read (m : mem) (frame length : Z) : wl_err + wl_kernel_frame :=
  if frame =? NULL then inl WL_ERR_INVALID_ARG
  else if length <? WL_KERNEL_NATIVE_HEADER then inl WL_ERR_BAD_FRAME
  else if negb (Z.land (m frame) WL_FRAME_MARKER_MASK =? WL_FRAME_MARKER) then inl WL_ERR_BAD_FRAME
  else if negb (Z.land (m frame) WL_FRAME_VERSION_MASK
                =? Z.shiftl WL_FRAME_VERSION WL_FRAME_VERSION_SHIFT) then inl WL_ERR_PROTOCOL_VERSION
  else if negb (Z.land (m frame) WL_FRAME_KIND_MASK =? 0) then inl WL_ERR_NOT_SUPPORTED
  else if length - WL_KERNEL_NATIVE_HEADER >? WL_PACKET_MAX_PAYLOAD then inl WL_ERR_FRAME_TOO_LONG
  else
    let id := Z.lor (u16 (Z.shiftl (m (frame + 2)) 8)) (m (frame + 3)) in
    if negb (m (frame + 1) =? 0) || (id =? 0) then inl WL_ERR_BAD_FRAME
    else inr (mk_kernel_frame id (frame + WL_KERNEL_NATIVE_HEADER) (length - WL_KERNEL_NATIVE_HEADER)).

(** ** The reference encoding *)

(** The bytes after the tag, for a value of at most [n] groups of seven bits. *)
Fixpoint varint (n : nat) (v : Z) : list Z :=
  match n with
  | O => []
  | S n =>
      if v =? 0 then []
      else (if v / 128 =? 0 then v mod 128 else v mod 128 + 128) :: varint n (v / 128)
  end.

Definition rpc_tag (operation status : Z) : Z :=
  2 * (operation mod 64) + (if status =? 0 then 0 else 1) + (if operation / 64 =? 0 then 0 else 128).

Definition rpc_header (session operation status : Z) : list Z :=
  be_bytes 8 session ++ [rpc_tag operation status] ++ varint 4 (operation / 64)
  ++ (if status =? 0 then [] else be_bytes 4 (u32 status)).

Lemma varint_length n v : (length (varint n v) ≤ n)%nat.
Proof. revert v. induction n as [|n IH]; intros v; cbn; [lia|]. destruct (_ =? 0); cbn; [lia|]. specialize (IH (v / 128)). lia. Qed.

Lemma land_127 v : Z.land v 127 = v mod 128.
Proof. exact (Z.land_ones v 7 ltac:(lia)). Qed.

Lemma land_63 v : Z.land v 63 = v mod 64.
Proof. exact (Z.land_ones v 6 ltac:(lia)). Qed.

(** The continuation bit of a byte, and its payload. *)
Lemma byte_bits b :
  is_byte b →
  Z.land b 128 = 128 * (b / 128) ∧ Z.land b 1 = b mod 2 ∧ Z.land (Z.shiftr b 1) 63 = b / 2 mod 64.
Proof.
  intros Hb. rewrite land_63, Z.shiftr_div_pow2 by lia. change (2 ^ 1) with 2.
  split_and!; [|exact (Z.land_ones b 1 ltac:(lia))|done].
  apply Z.eqb_eq. revert b Hb. apply (forall_bytes (λ b, Z.land b 128 =? 128 * (b / 128))). by_compute.
Qed.

Lemma lor_128 b : 0 <= b < 128 → Z.lor b 128 = b + 128.
Proof. intros Hb. rewrite Z.lor_comm. change 128 with (1 * 2 ^ 7) at 1. rewrite lor_add by lia. lia. Qed.

(** ** Writing *)

Lemma header_size_loop_eq n v size :
  0 <= size → size + Z.of_nat n < 2 ^ 64 →
  header_size_loop n v size = size + Z.of_nat (length (varint n v)).
Proof.
  revert v size. induction n as [|n IH]; intros v size Hs Hn; cbn [header_size_loop varint length]; [lia|].
  destruct (v =? 0); cbn [length]; [lia|].
  rewrite usize_id by (unfold is_size; lia). rewrite Z.shiftr_div_pow2 by lia. change (2 ^ 7) with 128.
  rewrite IH by lia. lia.
Qed.

Lemma rpc_write_loop_eq n m data v at_ :
  0 <= v →
  ∃ m', rpc_write_loop n m data v at_ = (m', at_ + Z.of_nat (length (varint n v))) ∧
    stored m m' (data + at_) (varint n v).
Proof.
  revert m v at_. induction n as [|n IH]; intros m v at_ Hv; cbn [rpc_write_loop varint].
  { exists m. split; [f_equal; cbn; lia|apply stored_nil]. }
  destruct (v =? 0) eqn:E0.
  { exists m. split; [f_equal; cbn; lia|apply stored_nil]. }
  rewrite land_127, Z.shiftr_div_pow2 by lia. change (2 ^ 7) with 128.
  pose proof (Z.mod_pos_bound v 128 ltac:(lia)) as Hm.
  rewrite (u8_id (v mod 128)) by (unfold is_byte; lia). rewrite lor_128 by done.
  rewrite (u8_id (v mod 128 + 128)) by (unfold is_byte; lia).
  assert ((if negb (v / 128 =? 0) then v mod 128 + 128 else v mod 128) =
          (if v / 128 =? 0 then v mod 128 else v mod 128 + 128)) as -> by by destruct (v / 128 =? 0).
  set (b := if v / 128 =? 0 then v mod 128 else v mod 128 + 128).
  destruct (IH (mset m (data + at_) b) (v / 128) (at_ + 1)) as (m' & -> & Hs); [by apply Z.div_pos|].
  exists m'. split; [f_equal; cbn [length]; lia|].
  replace (data + (at_ + 1)) with (data + at_ + Z.of_nat (length [b])) in Hs by (cbn; lia).
  exact (stored_app _ _ _ _ [b] _ (stored_set _ _ _) Hs).
Qed.

Lemma write_u32_eq m data v : stored m (write_u32 m data v) data (be_bytes 4 v).
Proof.
  rewrite <- write_u32_be_eq. unfold write_u32, write_u32_be. rewrite u8_land.
  replace (data + 2) with (data + 1 + 1) by lia. replace (data + 3) with (data + 1 + 1 + 1) by lia.
  do 3 (refine (stored_app _ _ _ _ [_] _ (stored_set _ _ _) _); cbn [length]; change (Z.of_nat 1) with 1).
  apply stored_set.
Qed.

Lemma be_bytes_app n k v : be_bytes (n + k) v = be_bytes n (v / 256 ^ Z.of_nat k) ++ be_bytes k v.
Proof.
  revert v. induction k as [|k IH]; intros v.
  { rewrite Nat.add_0_r, app_nil_r. f_equal. symmetry. apply Z.div_1_r. }
  rewrite Nat.add_succ_r. cbn [be_bytes]. rewrite IH, <- app_assoc. do 2 f_equal.
  rewrite Zdiv_Zdiv by (try apply Z.pow_nonneg; lia). f_equal. rewrite Nat2Z.inj_succ, Z.pow_succ_r by lia. lia.
Qed.

Lemma be_bytes_mod n v : be_bytes n (v mod 256 ^ Z.of_nat n) = be_bytes n v.
Proof.
  rewrite <- be_value_bytes. rewrite <- (be_bytes_length n v) at 1.
  apply be_bytes_value, be_bytes_bytes.
Qed.

Lemma session_bytes session :
  be_bytes 8 session = be_bytes 4 (u32 (Z.shiftr session 32)) ++ be_bytes 4 (u32 session).
Proof.
  unfold u32. change (2 ^ 32) with (256 ^ Z.of_nat 4). rewrite !be_bytes_mod.
  rewrite Z.shiftr_div_pow2 by lia. change (2 ^ 32) with (256 ^ Z.of_nat 4). apply (be_bytes_app 4 4).
Qed.

Lemma stored_reset m a x y : stored m (mset (mset m a x) a y) a [y].
Proof.
  split; [cbn; by rewrite mset_eq|]. intros z Hz. cbn in Hz. by rewrite !mset_ne by lia.
Qed.

(** The tag is written in two steps. *)
Lemma rpc_tag_stored m a operation status :
  let m1 := mset m a (u8 (Z.lor (Z.shiftl (Z.land operation 63) 1) (if negb (status =? 0) then 1 else 0))) in
  stored m (if negb (Z.shiftr operation 6 =? 0) then mset m1 a (u8 (Z.lor (m1 a) 128)) else m1) a
    [rpc_tag operation status].
Proof.
  cbv zeta. unfold rpc_tag. rewrite land_63, Z.shiftr_div_pow2, Z.shiftl_mul_pow2 by lia. change (2 ^ 6) with 64.
  pose proof (Z.mod_pos_bound operation 64 ltac:(lia)) as Hm.
  rewrite lor_add by (destruct (status =? 0); cbn; lia). change (2 ^ 1) with 2.
  set (s := if negb (status =? 0) then 1 else 0).
  assert ((if status =? 0 then 0 else 1) = s) as -> by by (unfold s; destruct (status =? 0)).
  assert (0 <= s <= 1) as Hs by (unfold s; destruct (status =? 0); cbn; lia).
  rewrite (u8_id (_ + s)) by (unfold is_byte; lia).
  destruct (operation / 64 =? 0); cbn [negb].
  - replace (2 * (operation mod 64) + s + 0) with (operation mod 64 * 2 + s) by lia. apply stored_set.
  - rewrite mset_eq, lor_128, u8_id by (unfold is_byte; lia).
    replace (2 * (operation mod 64) + s + 128) with (operation mod 64 * 2 + s + 128) by lia. apply stored_reset.
Qed.

Lemma rpc_header_length session operation status :
  Z.of_nat (length (rpc_header session operation status)) =
    9 + Z.of_nat (length (varint 4 (operation / 64))) + (if status =? 0 then 0 else 4).
Proof. unfold rpc_header. rewrite !length_app. cbn [length be_bytes]. destruct (status =? 0); cbn; lia. Qed.

Lemma header_size_eq session operation status :
  operation ≠ 0 →
  wl_kernel_rpc_header_size operation status = Z.of_nat (length (rpc_header session operation status)).
Proof.
  intros Ho. unfold wl_kernel_rpc_header_size. rewrite (proj2 (Z.eqb_neq _ _) Ho), rpc_header_length.
  rewrite Z.shiftr_div_pow2 by lia. change (2 ^ 6) with 64.
  rewrite header_size_loop_eq by (destruct (status =? 0); lia). destruct (status =? 0); lia.
Qed.

(** The writer stores the reference header and nothing else, or refuses for want of
    room. *)
Lemma rpc_write_eq m data capacity session operation status :
  data ≠ NULL → session ≠ 0 → 0 < operation →
  let header := rpc_header session operation status in
  if capacity <? Z.of_nat (length header)
  then wl_kernel_rpc_write m data capacity session operation status = (m, WL_ERR_BUF_TOO_SMALL, 0)
  else ∃ m', wl_kernel_rpc_write m data capacity session operation status =
               (m', WL_OK, Z.of_nat (length header)) ∧ stored m m' data header.
Proof.
  intros Hd Hs Ho. cbv zeta. unfold wl_kernel_rpc_write.
  rewrite (proj2 (Z.eqb_neq _ _) Hd), (proj2 (Z.eqb_neq _ _) Hs), (proj2 (Z.eqb_neq operation 0)) by lia. cbn [orb].
  rewrite (header_size_eq session) by lia. destruct (capacity <? _); [done|].
  set (m1 := write_u32 m data _). set (m2 := write_u32 m1 _ _).
  pose proof (rpc_tag_stored m2 (data + 8) operation status) as H3. cbv zeta in H3.
  set (m3 := if negb (Z.shiftr operation 6 =? 0) then _ else _) in H3 |- *.
  destruct (rpc_write_loop_eq 4 m3 data (Z.shiftr operation 6) 9) as (m4 & E4 & H4);
    [apply Z.shiftr_nonneg; lia|]. rewrite E4. clear E4.
  rewrite Z.shiftr_div_pow2 in H4 |- * by lia. change (2 ^ 6) with 64 in H4 |- *.
  set (v := varint 4 (operation / 64)) in *.
  assert (stored m m4 data (be_bytes 8 session ++ [rpc_tag operation status] ++ v)) as H.
  { rewrite session_bytes, <- app_assoc. eapply stored_app; [apply write_u32_eq|]. fold m1.
    eapply stored_app; [apply write_u32_eq|]. rewrite !be_bytes_length. change (Z.of_nat 4) with 4. fold m2.
    rewrite <- Z.add_assoc. eapply stored_app; [exact H3|]. cbn [length]. by rewrite <- Z.add_assoc. }
  rewrite rpc_header_length. fold v. unfold rpc_header. fold v. destruct (status =? 0) eqn:Es; cbn [negb].
  - exists m4. rewrite app_nil_r. split; [|done]. f_equal. lia.
  - exists (write_u32 m4 (data + (9 + Z.of_nat (length v))) (u32 status)). split; [f_equal; lia|].
    rewrite !app_assoc. eapply stored_app; [by rewrite <- !app_assoc|].
    rewrite !length_app, be_bytes_length. cbn [length].
    replace (data + Z.of_nat (8 + 1 + length v)) with (data + (9 + Z.of_nat (length v))) by lia.
    apply write_u32_eq.
Qed.

(** ** Reading *)

Lemma read_u32_eq m a : Forall is_byte (mread m a 4) → read_u32 m a = be_value (mread m a 4).
Proof.
  intros H. rewrite <- read_u32_be_eq by done. unfold read_u32, read_u32_be. cbn in H.
  do 4 apply Forall_cons in H as [? H]. unfold is_byte in *. revert H1 H2. fold_offsets. intros H1 H2.
  rewrite !u32_id; [done|unfold is_u32; rewrite Z.shiftl_mul_pow2 by lia; lia..].
Qed.

Lemma be_value_app l k : be_value (l ++ k) = be_value l * 256 ^ Z.of_nat (length k) + be_value k.
Proof.
  unfold be_value. rewrite foldl_app. generalize (foldl (λ acc b, 256 * acc + b) 0 l). intros x.
  induction k as [|b k IH] using rev_ind; [cbn; lia|].
  rewrite !foldl_app, IH, length_app, Nat2Z.inj_add, Z.pow_add_r by lia. cbn. lia.
Qed.

Lemma be_value_bound l : Forall is_byte l → 0 <= be_value l < 256 ^ Z.of_nat (length l).
Proof.
  intros H. rewrite <- (be_bytes_value l H) at 1 2. rewrite be_value_bytes. apply Z.mod_pos_bound.
  apply Z.pow_pos_nonneg; lia.
Qed.

Lemma read_session_eq m a :
  Forall is_byte (mread m a 8) →
  Z.lor (u64 (Z.shiftl (read_u32 m a) 32)) (read_u32 m (a + 4)) = be_value (mread m a 8).
Proof.
  change 8%nat with (4 + 4)%nat. rewrite mread_app. intros [H1 H2]%Forall_app. change (a + Z.of_nat 4) with (a + 4) in *.
  rewrite !read_u32_eq by done. rewrite be_value_app, mread_length.
  pose proof (be_value_bound _ H1) as B1. pose proof (be_value_bound _ H2) as B2. rewrite mread_length in B1, B2.
  change (256 ^ Z.of_nat 4) with (2 ^ 32) in *. rewrite Z.shiftl_mul_pow2 by lia.
  rewrite u64_id by (unfold is_u64; lia). by rewrite lor_add by lia.
Qed.

(** One group of seven bits goes above the ones read before it. *)
Lemma varint_group operation b shift :
  0 <= shift <= 27 → 0 <= operation < 2 ^ shift → 0 <= b < 128 → b * 2 ^ shift < 2 ^ 32 →
  Z.lor operation (u32 (Z.shiftl b shift)) = operation + b * 2 ^ shift.
Proof.
  intros Hs Ho Hb Hlt. rewrite Z.shiftl_mul_pow2 by lia. rewrite u32_id by (unfold is_u32; lia).
  rewrite Z.lor_comm, lor_add by lia. lia.
Qed.

Lemma group_place n : (n ≤ 4)%nat → 128 ^ Z.of_nat n * 2 ^ (34 - 7 * Z.of_nat n) = 2 ^ 34.
Proof. intros Hn. do 5 (destruct n as [|n]; [reflexivity|]). lia. Qed.

Lemma group_bound n v :
  0 <= v → 4 * v < 128 ^ Z.of_nat (S n) → 0 <= v / 128 ∧ 4 * (v / 128) < 128 ^ Z.of_nat n.
Proof.
  intros H0 H. split; [apply Z.div_pos; lia|]. rewrite Nat2Z.inj_succ, Z.pow_succ_r in H by lia.
  pose proof (Z.mul_div_le v 128 ltac:(lia)). lia.
Qed.

(** What the reader does with one more byte. *)
Lemma read_loop_byte n m data length byte shift operation at_ b :
  Z.land byte 128 ≠ 0 → at_ < length → shift <= 27 → m (data + at_) = b → b ≠ 0 → (shift = 27 → b <= 31) →
  rpc_read_loop (S n) m data length byte shift operation at_ =
    rpc_read_loop n m data length b (shift + 7)
      (Z.lor operation (u32 (Z.shiftl (Z.land b 127) shift))) (at_ + 1).
Proof.
  intros Hb Ha Hs E H0 H27. cbn [rpc_read_loop]. rewrite (proj2 (Z.eqb_neq _ _) Hb).
  destruct ((at_ =? length) || (shift >? 27)) eqn:E1; [lia|]. rewrite E.
  destruct (((shift =? 27) && (b >? 31)) || (b =? 0)) eqn:E2; [lia|]. done.
Qed.

Lemma rpc_read_loop_reads n : ∀ m data length byte operation at_ v,
  (n ≤ 4)%nat → let shift := 34 - 7 * Z.of_nat n in
  0 <= operation < 2 ^ shift → 0 <= v → 4 * v < 128 ^ Z.of_nat n →
  (Z.land byte 128 = 0 ↔ v = 0) →
  mread m (data + at_) (List.length (varint n v)) = varint n v →
  at_ + Z.of_nat (List.length (varint n v)) <= length →
  rpc_read_loop (S n) m data length byte shift operation at_ =
    inr (operation + v * 2 ^ shift, at_ + Z.of_nat (List.length (varint n v))).
Proof.
  induction n as [|n IH]; intros m data length byte operation at_ v Hn; cbv zeta;
    intros Ho Hv Hlt Hbit Hm Hl.
  { change (128 ^ Z.of_nat 0) with 1 in Hlt. cbn [rpc_read_loop].
    rewrite (proj2 (Z.eqb_eq _ _) (proj2 Hbit ltac:(lia))). cbn. repeat f_equal; lia. }
  set (shift := 34 - 7 * Z.of_nat (S n)) in *.
  destruct (decide (v = 0)) as [->|Hnz].
  { cbn [rpc_read_loop]. rewrite (proj2 (Z.eqb_eq _ _) (proj2 Hbit eq_refl)). cbn. repeat f_equal; lia. }
  destruct (group_bound n v Hv Hlt) as [Hq0 Hq].
  cbn [varint] in Hm, Hl |- *. rewrite (proj2 (Z.eqb_neq _ _) Hnz) in Hm, Hl |- *.
  set (b := if v / 128 =? 0 then v mod 128 else v mod 128 + 128) in *.
  cbn [List.length mread] in Hm, Hl |- *. injection Hm as Eb Hm.
  pose proof (Z.mod_pos_bound v 128 ltac:(lia)) as Hmod. pose proof (Z.div_mod v 128 ltac:(lia)) as Hdm.
  assert (is_byte b) as Hb by (unfold is_byte, b; destruct (v / 128 =? 0); lia).
  destruct (byte_bits b Hb) as (Hhi & _ & _).
  assert (Z.land b 127 = v mod 128) as Hlow.
  { rewrite land_127. unfold b. destruct (v / 128 =? 0); [by apply Z.mod_small|].
    by rewrite (Z.add_mod _ 128), Z.mod_same, Z.add_0_r, !Z.mod_mod by lia. }
  rewrite (read_loop_byte (S n) m data length byte shift operation at_ b); [|tauto|lia|lia|done| |].
  2: { unfold b. destruct (v / 128 =? 0) eqn:E; lia. }
  2: { intros E27. assert (n = 0)%nat as -> by lia. change (128 ^ Z.of_nat 0) with 1 in Hq.
       change (128 ^ Z.of_nat 1) with 128 in Hlt. unfold b. destruct (v / 128 =? 0) eqn:E; lia. }
  pose proof (group_place (S n) Hn) as Hp. fold shift in Hp. pose proof (Z.pow_pos_nonneg 2 shift ltac:(lia) ltac:(lia)).
  rewrite Hlow, varint_group; [|lia|done|lia|nia].
  replace (shift + 7) with (34 - 7 * Z.of_nat n) by lia.
  assert (2 ^ (34 - 7 * Z.of_nat n) = 128 * 2 ^ shift) as Epow.
  { replace (34 - 7 * Z.of_nat n) with (7 + shift) by lia. by rewrite Z.pow_add_r by lia. }
  rewrite (IH m data length b _ (at_ + 1) (v / 128)); [| lia | rewrite Epow; nia | done | done | | | ].
  - rewrite Epow. f_equal. f_equal; [|lia].
    enough (v * 2 ^ shift = (128 * (v / 128) + v mod 128) * 2 ^ shift) by lia. by rewrite <- Hdm.
  - rewrite Hhi. unfold b. destruct (Z.eqb_spec (v / 128) 0) as [E|E].
    + rewrite E, Z.div_small by lia. lia.
    + replace (v mod 128 + 128) with (v mod 128 + 1 * 128) by lia. rewrite Z.div_add, Z.div_small by lia. lia.
  - by replace (data + (at_ + 1)) with (data + at_ + 1) by lia.
  - lia.
Qed.

Lemma group_join n v b :
  0 <= v → 4 * v < 128 ^ Z.of_nat n → is_byte b → b ≠ 0 → (Z.land b 128 = 0 ↔ v = 0) → (n = O → b <= 31) →
  let w := 128 * v + b mod 128 in
  w ≠ 0 ∧ 0 <= w ∧ 4 * w < 128 ^ Z.of_nat (S n) ∧ varint (S n) w = b :: varint n v.
Proof.
  intros Hv Hlt Hb Hnz Hbit H0. cbv zeta. destruct (byte_bits b Hb) as (Hhi & _ & _). rewrite Hhi in Hbit.
  unfold is_byte in Hb. pose proof (Z.mod_pos_bound b 128 ltac:(lia)) as Hm.
  pose proof (Z.div_mod b 128 ltac:(lia)) as Hdm. set (w := 128 * v + b mod 128).
  assert (w / 128 = v) as Eq by (unfold w; symmetry; apply (Z.div_unique _ _ _ (b mod 128)); lia).
  assert (w mod 128 = b mod 128) as Er by (unfold w; symmetry; apply (Z.mod_unique _ _ v); lia).
  assert (w ≠ 0) as Hw by (unfold w; lia).
  split_and!; [done|lia| |].
  - rewrite Nat2Z.inj_succ, Z.pow_succ_r by lia. destruct n as [|n].
    { change (128 ^ Z.of_nat 0) with 1 in *. specialize (H0 eq_refl). unfold w. rewrite Z.mod_small by lia. lia. }
    rewrite Nat2Z.inj_succ, Z.pow_succ_r in Hlt |- * by lia. unfold w. lia.
  - cbn [varint]. rewrite (proj2 (Z.eqb_neq _ _) Hw), Eq, Er. f_equal.
    destruct (Z.eqb_spec v 0) as [E|E]; lia.
Qed.

Lemma rpc_read_loop_canonical n : ∀ m data length byte operation at_ operation' at',
  (n ≤ 4)%nat → let shift := 34 - 7 * Z.of_nat n in
  0 <= operation < 2 ^ shift → at_ <= length →
  (∀ x, data + at_ <= x < data + length → is_byte (m x)) →
  rpc_read_loop (S n) m data length byte shift operation at_ = inr (operation', at') →
  ∃ v, 0 <= v ∧ 4 * v < 128 ^ Z.of_nat n ∧ operation' = operation + v * 2 ^ shift ∧
    at' = at_ + Z.of_nat (List.length (varint n v)) ∧ at' <= length ∧
    mread m (data + at_) (List.length (varint n v)) = varint n v ∧ (Z.land byte 128 = 0 ↔ v = 0).
Proof.
  induction n as [|n IH]; intros m data length byte operation at_ operation' at' Hn; cbv zeta;
    intros Ho Ha Hm; cbn [rpc_read_loop]; destruct (Z.land byte 128 =? 0) eqn:E0.
  1, 3: intros [= <- <-]; exists 0; replace (varint _ 0) with (@nil Z) by (by destruct n || done);
    cbn [List.length]; split_and!; try lia; try done; apply Z.pow_pos_nonneg; lia.
  { destruct ((at_ =? length) || _) eqn:E1; [done|lia]. }
  set (shift := 34 - 7 * Z.of_nat (S n)) in *.
  destruct ((at_ =? length) || (shift >? 27)) eqn:E1; [done|]. set (b := m (data + at_)).
  destruct (((shift =? 27) && (b >? 31)) || (b =? 0)) eqn:E2; [done|].
  assert (is_byte b) as Hb by (apply Hm; lia).
  pose proof (group_place (S n) Hn) as Hp. fold shift in Hp.
  pose proof (Z.pow_pos_nonneg 2 shift ltac:(lia) ltac:(lia)) as Hpos.
  pose proof (Z.mod_pos_bound b 128 ltac:(lia)) as Hmod.
  assert (n = O → b <= 31) as H31 by lia.
  assert (b mod 128 * 2 ^ shift < 2 ^ 32) as Hfit.
  { destruct n as [|n]; [change (2 ^ shift) with (2 ^ 27); rewrite Z.mod_small by (unfold is_byte in *; lia); lia|].
    pose proof (Z.pow_le_mono_r 2 shift 20 ltac:(lia) ltac:(lia)). nia. }
  rewrite land_127, varint_group by (done || lia). replace (shift + 7) with (34 - 7 * Z.of_nat n) by lia.
  assert (2 ^ (34 - 7 * Z.of_nat n) = 128 * 2 ^ shift) as Epow.
  { replace (34 - 7 * Z.of_nat n) with (7 + shift) by lia. by rewrite Z.pow_add_r by lia. }
  intros Hr. destruct (IH m data length b (operation + b mod 128 * 2 ^ shift) (at_ + 1) operation' at')
    as (v & Hv & Hlt & -> & -> & Hl & Hread & Hbit);
    [lia|rewrite Epow; nia|lia|intros x Hx; apply Hm; lia|exact Hr|]. clear Hr.
  destruct (group_join n v b Hv Hlt Hb ltac:(lia) Hbit H31) as (Hw & Hw0 & Hwlt & Ew).
  exists (128 * v + b mod 128). rewrite Ew, Epow. cbn [List.length mread]. fold b.
  replace (data + at_ + 1) with (data + (at_ + 1)) by lia. rewrite Hread. split_and!; try done; lia.
Qed.

(** ** The tag and the status *)

Lemma rpc_tag_bits operation status :
  0 <= operation →
  let t := rpc_tag operation status in
  is_byte t ∧ (Z.land t 128 = 0 ↔ operation / 64 = 0) ∧ Z.land t 1 = (if status =? 0 then 0 else 1) ∧
  Z.land (Z.shiftr t 1) 63 = operation mod 64.
Proof.
  intros Ho. cbv zeta. pose proof (Z.mod_pos_bound operation 64 ltac:(lia)) as Hm.
  set (s := if status =? 0 then 0 else 1). assert (0 <= s <= 1) as Hs
    by (unfold s; destruct (status =? 0); lia).
  set (h := if operation / 64 =? 0 then 0 else 1). assert (0 <= h <= 1) as Hh
    by (unfold h; destruct (operation / 64 =? 0); lia).
  assert (rpc_tag operation status = 2 * (operation mod 64) + s + 128 * h) as ->.
  { unfold rpc_tag, s, h. destruct (operation / 64 =? 0); lia. }
  assert (is_byte (2 * (operation mod 64) + s + 128 * h)) as Hb by (unfold is_byte; lia).
  destruct (byte_bits _ Hb) as (-> & -> & ->).
  assert ((2 * (operation mod 64) + s + 128 * h) / 128 = h) as ->
    by (symmetry; apply (Z.div_unique _ _ _ (2 * (operation mod 64) + s)); lia).
  assert ((2 * (operation mod 64) + s + 128 * h) mod 2 = s) as ->
    by (symmetry; apply (Z.mod_unique _ _ (operation mod 64 + 64 * h)); lia).
  assert ((2 * (operation mod 64) + s + 128 * h) / 2 = operation mod 64 + 64 * h) as ->
    by (symmetry; apply (Z.div_unique _ _ _ s); lia).
  split_and!; [done| |done|symmetry; apply (Z.mod_unique _ _ h); lia].
  unfold h. destruct (Z.eqb_spec (operation / 64) 0); lia.
Qed.

Lemma status_of_bits_u32 status : is_i32 status → status_of_bits (u32 status) = status.
Proof.
  unfold is_i32, status_of_bits, u32, INT32_MAX, UINT32_MAX. intros Hs.
  destruct (decide (0 <= status)) as [H|H].
  - rewrite Z.mod_small by lia. destruct (status <=? _) eqn:E; lia.
  - assert (status mod 2 ^ 32 = status + 2 ^ 32) as -> by (symmetry; apply (Z.mod_unique _ _ (-1)); lia).
    destruct (_ <=? _) eqn:E; lia.
Qed.

Lemma status_of_bits_inv bits : is_u32 bits → u32 (status_of_bits bits) = bits ∧ is_i32 (status_of_bits bits).
Proof.
  unfold is_u32, is_i32, status_of_bits, u32, INT32_MAX, UINT32_MAX. intros Hb.
  destruct (bits <=? 2 ^ 31 - 1) eqn:E; split; try lia; symmetry.
  - apply (Z.mod_unique _ _ 0); lia.
  - apply (Z.mod_unique _ _ (-1)); lia.
Qed.

(** ** Theorems *)

(** The header in memory is read back. *)
Lemma rpc_read_header m data length request session operation status :
  data ≠ NULL → session ≠ 0 → is_u64 session → operation ≠ 0 → is_u32 operation → is_i32 status →
  let header := rpc_header session operation status in
  let n := Z.of_nat (List.length header) in
  mread m data (List.length header) = header →
  n <= length → (status ≠ 0 → length = n ∧ request = false) →
  wl_kernel_rpc_read m data length request =
    inr (mk_rpc_metadata session operation status (data + n) (length - n)).
Proof.
  intros Hd Hs Hs64 Ho Ho32 Hst. cbv zeta. intros Hm Hl Hreq. rewrite rpc_header_length in *.
  unfold rpc_header in Hm. set (v := operation / 64) in *. set (body := if status =? 0 then [] else _) in Hm.
  apply mread_app_inv in Hm as [M1 Hm]. rewrite be_bytes_length in M1, Hm.
  apply (mread_app_inv m _ [_]) in Hm as [M2 Hm]. cbn [List.length mread] in M2. injection M2 as M2.
  change (Z.of_nat 8) with 8 in *. change (Z.of_nat (List.length [_])) with 1 in Hm.
  apply mread_app_inv in Hm as [M3 M4].
  destruct (rpc_tag_bits operation status) as (Ht & T1 & T2 & T3); [unfold is_u32 in Ho32; lia|].
  assert (9 + Z.of_nat (List.length (varint 4 v)) <= length) as Hl9 by (destruct (status =? 0); lia).
  unfold wl_kernel_rpc_read. rewrite (proj2 (Z.eqb_neq _ _) Hd). destruct (length <? 9) eqn:E9; [lia|]. clear E9.
  rewrite read_session_eq by (rewrite M1; apply be_bytes_bytes). rewrite M1, be_value_bytes.
  rewrite (Z.mod_small session) by (unfold is_u64 in Hs64; lia). rewrite M2, T2, T3.
  unfold is_u32 in Ho32. assert (0 <= v < 2 ^ 26) as Hv
    by (unfold v; split; [apply Z.div_pos; lia|apply Z.div_lt_upper_bound; lia]).
  pose proof (Z.mod_pos_bound operation 64 ltac:(lia)) as Hmod.
  pose proof (Z.div_mod operation 64 ltac:(lia)) as Hdm. fold v in Hdm.
  change (rpc_read_loop 5 m data length ?b 6) with (rpc_read_loop 5 m data length b (34 - 7 * Z.of_nat 4)).
  rewrite (rpc_read_loop_reads 4 m data length (rpc_tag operation status) (operation mod 64) 9 v);
    [|lia|done|lia|change (128 ^ Z.of_nat 4) with (2 ^ 28); lia|exact T1| |lia].
  2: { by replace (data + 9) with (data + 8 + 1) by lia. }
  change (2 ^ (34 - 7 * Z.of_nat 4)) with 64. replace (operation mod 64 + v * 64) with operation by lia.
  rewrite (proj2 (Z.eqb_neq _ _) Hs), (proj2 (Z.eqb_neq _ _) Ho). cbn [orb].
  set (k := Z.of_nat (List.length (varint 4 v))) in *. unfold body in M4.
  destruct (Z.eqb_spec status 0) as [->|Hnz]; [cbn; do 2 f_equal; lia|].
  destruct (Hreq Hnz) as [-> ->]. cbn [negb Z.eqb andb].
  destruct (negb (9 + k + 4 - (9 + k) =? 4)) eqn:E4; [lia|]. clear E4.
  rewrite be_bytes_length in M4. replace (data + 8 + 1 + k) with (data + (9 + k)) in M4 by lia.
  rewrite read_u32_eq, M4, be_value_bytes by (rewrite M4; apply be_bytes_bytes).
  change (256 ^ Z.of_nat 4) with (2 ^ 32). rewrite (Z.mod_small (u32 status)) by (apply Z.mod_pos_bound; lia).
  rewrite status_of_bits_u32 by done. rewrite (proj2 (Z.eqb_neq _ _) Hnz). do 2 f_equal; lia.
Qed.

(** C21: metadata that was written is read back exactly, whatever body follows
    it; the writer announces its size, which is at most seventeen bytes, refuses a buffer
    that is too small without touching memory, and writes nothing but the header. *)
Theorem kernel_rpc_roundtrip m data capacity session operation status :
  data ≠ NULL → session ≠ 0 → is_u64 session → operation ≠ 0 → is_u32 operation → is_i32 status →
  let n := wl_kernel_rpc_header_size operation status in
  let '(m', error, length) := wl_kernel_rpc_write m data capacity session operation status in
  9 <= n <= WL_KERNEL_RPC_HEADER_MAX ∧
  (capacity < n → m' = m ∧ error = WL_ERR_BUF_TOO_SMALL ∧ length = 0) ∧
  (n <= capacity →
     error = WL_OK ∧ length = n ∧ (∀ x, x < data ∨ data + n <= x → m' x = m x) ∧
     ∀ total request, n <= total → (status ≠ 0 → total = n ∧ request = false) →
       wl_kernel_rpc_read m' data total request =
         inr (mk_rpc_metadata session operation status (data + n) (total - n))).
Proof.
  intros Hd Hs Hs64 Ho Ho32 Hst. cbv zeta. rewrite (header_size_eq session) by done.
  assert (0 < operation) as Hpos by (unfold is_u32 in Ho32; lia).
  pose proof (rpc_write_eq m data capacity session operation status Hd Hs Hpos) as Hw. cbv zeta in Hw.
  pose proof (rpc_header_length session operation status) as Hlen.
  pose proof (varint_length 4 (operation / 64)) as Hvl.
  assert (9 <= Z.of_nat (List.length (rpc_header session operation status)) <= WL_KERNEL_RPC_HEADER_MAX) as Hb
    by (rewrite Hlen; unfold WL_KERNEL_RPC_HEADER_MAX; destruct (status =? 0); lia).
  destruct (Z.ltb_spec capacity (Z.of_nat (List.length (rpc_header session operation status)))) as [Hc|Hc].
  { rewrite Hw. split; [done|]. split; [done|lia]. }
  destruct Hw as (m' & -> & Hst1 & Hst2). split; [done|]. split; [lia|]. intros _.
  split; [done|]. split; [done|]. split; [done|].
  intros total request Ht Hr. by apply rpc_read_header.
Qed.

Lemma kernel_rpc_roundtrip_witness :
  let '(m', error, length) := wl_kernel_rpc_write (λ _, 0) 100 64 (2 ^ 40 + 5) 70000 (-3) in
  let n := wl_kernel_rpc_header_size 70000 (-3) in
  9 <= n <= WL_KERNEL_RPC_HEADER_MAX ∧
  (64 < n → m' = (λ _, 0) ∧ error = WL_ERR_BUF_TOO_SMALL ∧ length = 0) ∧
  (n <= 64 →
     error = WL_OK ∧ length = n ∧ (∀ x, x < 100 ∨ 100 + n <= x → m' x = 0) ∧
     ∀ total request, n <= total → (-3 ≠ 0 → total = n ∧ request = false) →
       wl_kernel_rpc_read m' 100 total request =
         inr (mk_rpc_metadata (2 ^ 40 + 5) 70000 (-3) (100 + n) (total - n))).
Proof.
  apply (kernel_rpc_roundtrip (λ _, 0) 100 64 (2 ^ 40 + 5) 70000 (-3)); unfold NULL, is_u64, is_u32, is_i32; lia.
Defined.

Lemma mread_bytes m a n : (∀ x, a <= x < a + Z.of_nat n → is_byte (m x)) → Forall is_byte (mread m a n).
Proof.
  revert a. induction n as [|n IH]; intros a H; [constructor|]. cbn. constructor; [apply H; lia|].
  apply IH. intros x Hx. apply H. lia.
Qed.

Lemma tag_of_byte b operation v status :
  is_byte b → 0 <= v → operation = b / 2 mod 64 + v * 64 → (Z.land b 128 = 0 ↔ v = 0) →
  (status = 0 ↔ Z.land b 1 = 0) → rpc_tag operation status = b ∧ operation / 64 = v.
Proof.
  intros Hb Hv -> Hhi Hlo. destruct (byte_bits b Hb) as (E1 & E2 & _). rewrite E1 in Hhi. rewrite E2 in Hlo.
  pose proof (Z.mod_pos_bound (b / 2) 64 ltac:(lia)) as Hm. unfold rpc_tag.
  assert ((b / 2 mod 64 + v * 64) / 64 = v) as -> by (symmetry; apply (Z.div_unique _ _ _ (b / 2 mod 64)); lia).
  assert ((b / 2 mod 64 + v * 64) mod 64 = b / 2 mod 64) as -> by (symmetry; apply (Z.mod_unique _ _ v); lia).
  split; [|done]. unfold is_byte in Hb. pose proof (Z.div_mod b 2 ltac:(lia)) as D1.
  pose proof (Z.div_mod (b / 2) 64 ltac:(lia)) as D2. pose proof (Z.mod_pos_bound b 2 ltac:(lia)).
  assert (b / 2 / 64 = b / 128) as D3 by by rewrite Zdiv_Zdiv by lia.
  assert (0 <= b / 128 <= 1) by (split; [apply Z.div_pos; lia|]; apply Z.lt_succ_r, Z.div_lt_upper_bound; lia).
  destruct (Z.eqb_spec status 0), (Z.eqb_spec v 0); lia.
Qed.

(** What the reader accepts is a reference header, of the right kind. *)
Lemma rpc_read_accepts m data length request md :
  (∀ x, data <= x < data + length → is_byte (m x)) →
  wl_kernel_rpc_read m data length request = inr md →
  let header := rpc_header (md_session md) (md_operation md) (md_status md) in
  let n := Z.of_nat (List.length header) in
  data ≠ NULL ∧ md_session md ≠ 0 ∧ is_u64 (md_session md) ∧ md_operation md ≠ 0 ∧ is_u32 (md_operation md) ∧
  is_i32 (md_status md) ∧ mread m data (List.length header) = header ∧
  n <= length ∧ (md_status md ≠ 0 → length = n ∧ request = false) ∧
  md_body md = data + n ∧ md_length md = length - n.
Proof.
  intros Hm. unfold wl_kernel_rpc_read. destruct (data =? NULL) eqn:Ed; [done|]. destruct (length <? 9) eqn:E9; [done|].
  assert (∀ a k, data <= a → a + Z.of_nat k <= data + length → Forall is_byte (mread m a k)) as Hbytes
    by (intros a k H1 H2; apply mread_bytes; intros x Hx; apply Hm; lia).
  rewrite read_session_eq by (apply Hbytes; lia). set (session := be_value (mread m data 8)). set (b := m (data + 8)).
  assert (is_byte b) as Hb by (apply Hm; lia). destruct (byte_bits b Hb) as (_ & _ & ->).
  destruct (rpc_read_loop _ _ _ _ _ _ _ _) as [e|[operation at_]] eqn:El; [done|].
  pose proof (Z.mod_pos_bound (b / 2) 64 ltac:(lia)) as Hmod.
  destruct (rpc_read_loop_canonical 4 m data length b (b / 2 mod 64) 9 operation at_)
    as (v & Hv & Hlt & Eo & Ea & Hal & Hread & Hhi); [lia|done|lia|intros x Hx; apply Hm; lia|exact El|].
  clear El. change (2 ^ (34 - 7 * Z.of_nat 4)) with 64 in Eo. change (128 ^ Z.of_nat 4) with (2 ^ 28) in Hlt.
  destruct ((session =? 0) || (operation =? 0) || _) eqn:Ez; [done|].
  assert (is_u64 session) as Hs64
    by exact (be_value_bound (mread m data 8) (Hbytes data 8%nat ltac:(lia) ltac:(lia))).
  assert (be_bytes 8 session = mread m data 8) as Es by exact (be_bytes_value (mread m data 8) ltac:(apply Hbytes; lia)).
  set (k := List.length (varint 4 v)) in *.
  assert (∀ status tail, (status = 0 ↔ Z.land b 1 = 0) →
    tail = (if status =? 0 then [] else be_bytes 4 (u32 status)) →
    mread m (data + at_) (List.length tail) = tail →
    let header := rpc_header session operation status in
    mread m data (List.length header) = header ∧ Z.of_nat (List.length header) = at_ + Z.of_nat (List.length tail)) as Hhdr.
  { intros status tail Hst -> Ht. cbv zeta. destruct (tag_of_byte b operation v status Hb Hv Eo Hhi Hst) as [E1 E2].
    unfold rpc_header. rewrite E1, E2, Es. set (tail := if status =? 0 then _ else _) in *.
    rewrite !length_app, mread_length. cbn [List.length]. fold k. split; [|lia].
    rewrite !mread_app. cbn [mread]. change (Z.of_nat 8) with 8. fold b. f_equal. f_equal. f_equal.
    - rewrite <- Hread. f_equal. lia.
    - rewrite <- Ht at 2. f_equal. lia. }
  assert (0 <= operation < 2 ^ 32) as Ho32 by lia.
  destruct (Z.land b 1 =? 0) eqn:E1; cbn [negb andb] in *.
  - intros [= <-]. cbn [md_session md_operation md_status md_body md_length].
    destruct (Hhdr 0 []) as [H1 H2]; [lia|done|done|]. cbv zeta. rewrite H2. cbn [List.length].
    split_and!; try done; try lia.
  - destruct request; [lia|]. destruct (negb _) eqn:E4; [done|].
    pose proof (Hbytes (data + at_) 4%nat ltac:(lia) ltac:(lia)) as Hb4. rewrite read_u32_eq by done.
    pose proof (be_value_bound _ Hb4) as Hbits. rewrite mread_length in Hbits. change (256 ^ Z.of_nat 4) with (2 ^ 32) in Hbits.
    set (bits := be_value (mread m (data + at_) 4)) in *. destruct (status_of_bits_inv bits Hbits) as [Eb Hi32].
    destruct (status_of_bits bits =? 0) eqn:Est; [done|]. intros [= <-].
    cbn [md_session md_operation md_status md_body md_length].
    destruct (Hhdr (status_of_bits bits) (mread m (data + at_) 4)) as [H1 H2]; [lia| | |].
    { rewrite Est, Eb. symmetry. exact (be_bytes_value _ Hb4). }
    { by rewrite mread_length. }
    cbv zeta. rewrite H2, mread_length. split_and!; try done; try lia.
Qed.

(** the reader accepts only what the writer writes.  Metadata that was
    read is in range, and writing it again in its place, in exactly the room it took,
    succeeds and changes no byte: a value has one encoding.  A request is never a
    rejection, and a rejection has no body. *)
Theorem kernel_rpc_canonical m data length request md :
  (∀ x, data <= x < data + length → is_byte (m x)) →
  wl_kernel_rpc_read m data length request = inr md →
  let n := length - md_length md in
  let '(m', error, size) := wl_kernel_rpc_write m data n (md_session md) (md_operation md) (md_status md) in
  error = WL_OK ∧ size = n ∧ (∀ x, m' x = m x) ∧ 0 <= md_length md ∧ md_body md = data + n ∧
  (md_status md ≠ 0 → md_length md = 0 ∧ request = false).
Proof.
  intros Hm Hr. destruct (rpc_read_accepts m data length request md Hm Hr)
    as (Hd & Hs & _ & Ho & Ho32 & _ & Hread & Hn & Hrej & Eb & El). cbv zeta.
  set (header := rpc_header _ _ _) in *. replace (length - md_length md) with (Z.of_nat (List.length header)) by lia.
  pose proof (rpc_write_eq m data (Z.of_nat (List.length header)) (md_session md) (md_operation md) (md_status md)
    Hd Hs ltac:(unfold is_u32 in Ho32; lia)) as Hw. cbv zeta in Hw. fold header in Hw. rewrite Z.ltb_irrefl in Hw.
  destruct Hw as (m' & -> & Hst). split_and!; try done; try lia.
  intros x. apply (stored_unique m m' m data header Hst). by split.
Qed.

Lemma kernel_rpc_canonical_witness :
  let m := mwrite (λ _, 0) 100 [0; 0; 0; 0; 0; 0; 0; 9; 0x8a; 1; 42; 43] in
  let md := mk_rpc_metadata 9 69 0 110 2 in
  let '(m', error, size) := wl_kernel_rpc_write m 100 10 9 69 0 in
  error = WL_OK ∧ size = 10 ∧ (∀ x, m' x = m x) ∧ 0 <= md_length md ∧ md_body md = 110 ∧
  (md_status md ≠ 0 → md_length md = 0 ∧ true = false).
Proof.
  refine (kernel_rpc_canonical (mwrite (λ _, 0) 100 [0; 0; 0; 0; 0; 0; 0; 9; 0x8a; 1; 42; 43]) 100 12 true
    (mk_rpc_metadata 9 69 0 110 2) _ _); [|vm_compute; reflexivity].
  intros x Hx. assert (Forall is_byte (mread (mwrite (λ _, 0) 100 [0; 0; 0; 0; 0; 0; 0; 9; 0x8a; 1; 42; 43]) 100 12)) as H.
  { vm_compute. repeat constructor; congruence. }
  rewrite Forall_lookup in H. specialize (H (Z.to_nat (x - 100))). rewrite mread_lookup in H by lia.
  replace (100 + Z.of_nat (Z.to_nat (x - 100))) with x in H by lia. by apply H.
Defined.

Lemma version_bits b :
  is_byte b →
  (Z.shiftr (Z.land b WL_FRAME_VERSION_MASK) WL_FRAME_VERSION_SHIFT =? WL_FRAME_VERSION) =
  (Z.land b WL_FRAME_VERSION_MASK =? Z.shiftl WL_FRAME_VERSION WL_FRAME_VERSION_SHIFT) ∧
  (0 <= Z.land b WL_FRAME_KIND_MASK <= 3).
Proof.
  intros Hb. split.
  - apply eqb_prop. revert b Hb. apply (forall_bytes (λ b, Bool.eqb _ _)). by_compute.
  - change WL_FRAME_KIND_MASK with (Z.ones 2). rewrite Z.land_ones by lia.
    pose proof (Z.mod_pos_bound b (2 ^ 2) ltac:(lia)). lia.
Qed.

(** The ordinary frame decoder, on a packet without a trailer. *)
Lemma native_decode m frame length :
  is_byte (m frame) →
  match wl_frame_decode m frame length WL_INTEGRITY_NONE 1 with
  | inr view =>
      if (fv_type view =? WL_PACKET_DATA) && (fv_flags view =? 0)
      then wl_kernel_native_none_read m frame length =
             inr (mk_kernel_frame (fv_message_id view) (span_data (fv_payload view))
                    (span_length (fv_payload view)))
      else wl_kernel_native_none_read m frame length = inl WL_ERR_NOT_SUPPORTED
  | inl _ => ∃ e, wl_kernel_native_none_read m frame length = inl e
  end.
Proof.
  intros Hb. destruct (version_bits _ Hb) as [Ev Hk]. unfold wl_frame_decode, frame_parse, wl_kernel_native_none_read.
  change (negb (wl_profile_integrity_valid WL_INTEGRITY_NONE)) with false.
  change (wl_profile_crc_size WL_INTEGRITY_NONE) with 0. change (1 =? NULL) with false. cbn [orb].
  destruct (frame =? NULL); [by eexists|]. rewrite Ev. change (WL_FRAME_BASE_HEADER_SIZE + 0) with WL_KERNEL_NATIVE_HEADER.
  destruct (length <? WL_KERNEL_NATIVE_HEADER) eqn:El; [by eexists|]. destruct (negb _); [by eexists|].
  destruct (negb _); [by eexists|]. set (kind := Z.land (m frame) WL_FRAME_KIND_MASK) in *.
  destruct (Z.eqb_spec kind 0) as [->|Hnz]; cbn [negb].
  - change (0 >? 2) with false. change (0 =? 2) with false. change (0 =? 1) with false. cbv iota.
    change (WL_FRAME_BASE_HEADER_SIZE + 0) with WL_KERNEL_NATIVE_HEADER.
    change (WL_FRAME_BASE_HEADER_SIZE =? WL_FRAME_RELIABLE_HEADER_SIZE) with false.
    change (WL_PACKET_DATA =? WL_PACKET_DATA) with true. change (0 =? 0) with true. cbn [negb andb orb].
    change (frame_integrity_bad _ _ _ _ _) with false. rewrite orb_false_r.
    rewrite El. replace (length - WL_FRAME_BASE_HEADER_SIZE - 0) with (length - WL_KERNEL_NATIVE_HEADER)
      by (unfold WL_FRAME_BASE_HEADER_SIZE, WL_KERNEL_NATIVE_HEADER; lia).
    destruct (length - WL_KERNEL_NATIVE_HEADER >? WL_PACKET_MAX_PAYLOAD); [by eexists|].
    unfold read_u16_be. replace (frame + 2 + 1) with (frame + 3) by lia.
    destruct (negb (m (frame + 1) =? 0)); [by eexists|]. cbn [orb]. by destruct (_ =? 0); [eexists|].
  - destruct (kind >? 2) eqn:E2; [by eexists|]. assert (kind = 1 ∨ kind = 2) as [->| ->] by lia; cbv iota zeta.
    all: change (1 =? 2) with false; change (1 =? 1) with true; change (2 =? 2) with true; change (2 =? 1) with false;
      change (1 =? 0) with false; change (2 =? 0) with false; cbv iota.
    all: repeat match goal with |- context [if ?b then inl _ else _] => destruct b; [by eexists|] end.
    all: done.
Qed.

(** A sealed packet is one of the frames the kernel reads. *)
Lemma native_sealed m frame capacity id n m' :
  is_u16 id → 0 <= n → wl_kernel_native_none_seal m frame capacity id n = (m', WL_OK) →
  is_byte (m' frame) ∧ (∀ x, x < frame ∨ frame + WL_KERNEL_NATIVE_HEADER <= x → m' x = m x) ∧
  wl_kernel_native_none_read m' frame (WL_KERNEL_NATIVE_HEADER + n) =
    inr (mk_kernel_frame id (frame + WL_KERNEL_NATIVE_HEADER) n).
Proof.
  intros Hid Hn. unfold wl_kernel_native_none_seal. destruct (_ || _) eqn:E1; [done|].
  destruct (n >? _) eqn:E2; [done|]. destruct (_ <? _) eqn:E3; [done|]. intros [= <-].
  set (m' := mset _ (frame + 3) _). unfold WL_KERNEL_NATIVE_HEADER in *.
  assert (m' frame = WL_FRAME_PREFIX) as R0 by (unfold m'; by rewrite !mset_ne, mset_eq by lia).
  assert (m' (frame + 1) = 0) as R1 by (unfold m'; by rewrite (mset_ne _ (frame + 3)), (mset_ne _ (frame + 2)), mset_eq by lia).
  assert (m' (frame + 2) = id / 256) as R2.
  { unfold m'. rewrite (mset_ne _ (frame + 3)), mset_eq by lia. rewrite u8_shiftr by lia. change (2 ^ 8) with 256.
    apply Z.mod_small. unfold is_u16 in Hid. split; [apply Z.div_pos; lia|apply Z.div_lt_upper_bound; lia]. }
  assert (m' (frame + 3) = id mod 256) as R3 by (unfold m'; by rewrite mset_eq).
  split_and!; [rewrite R0; vm_compute; split; congruence| |].
  { intros x Hx. unfold m'. by rewrite !mset_ne by lia. }
  unfold wl_kernel_native_none_read, WL_KERNEL_NATIVE_HEADER. rewrite R0, R1, R2, R3.
  destruct (frame =? NULL) eqn:E4; [lia|]. destruct (4 + n <? 4) eqn:E5; [lia|].
  change (negb (Z.land WL_FRAME_PREFIX WL_FRAME_MARKER_MASK =? WL_FRAME_MARKER)) with false.
  change (negb (Z.land WL_FRAME_PREFIX WL_FRAME_VERSION_MASK =? _)) with false.
  change (negb (Z.land WL_FRAME_PREFIX WL_FRAME_KIND_MASK =? 0)) with false. cbv iota.
  replace (4 + n - 4) with n by lia. rewrite E2. change (negb (0 =? 0)) with false. cbn [orb].
  pose proof (Z.mod_pos_bound id 256 ltac:(lia)) as Hm. pose proof (Z.div_mod id 256 ltac:(lia)) as Hdm.
  unfold is_u16 in Hid. assert (0 <= id / 256) by (apply Z.div_pos; lia).
  rewrite Z.shiftl_mul_pow2, u16_id, lor_add by (unfold is_u16; lia).
  replace (id / 256 * 2 ^ 8 + id mod 256) with id by lia. destruct (id =? 0) eqn:E6; [lia|]. done.
Qed.

(** C22: a packet the kernel seals is, for the ordinary frame decoder, an
    unreliable message with the same identifier and payload, and the other way round
    the kernel reads exactly those packets the decoder takes for unreliable messages,
    with the same identifier and payload.  Sealing writes the four bytes of the prefix
    only. *)
Theorem kernel_native_interop m frame length capacity id n :
  is_u16 id → 0 <= n → is_byte (m frame) →
  (∀ fr, wl_kernel_native_none_read m frame length = inr fr ↔
     ∃ view, wl_frame_decode m frame length WL_INTEGRITY_NONE 1 = inr view ∧
       fv_type view = WL_PACKET_DATA ∧ fv_flags view = 0 ∧ fv_message_id view = kf_message_id fr ∧
       fv_payload view = mk_span (kf_payload fr) (kf_length fr)) ∧
  let '(m', error) := wl_kernel_native_none_seal m frame capacity id n in
  (∀ x, x < frame ∨ frame + WL_KERNEL_NATIVE_HEADER <= x → m' x = m x) ∧
  (error = WL_OK →
     ∃ view, wl_frame_decode m' frame (WL_KERNEL_NATIVE_HEADER + n) WL_INTEGRITY_NONE 1 = inr view ∧
       fv_type view = WL_PACKET_DATA ∧ fv_flags view = 0 ∧ fv_message_id view = id ∧
       fv_payload view = mk_span (frame + WL_KERNEL_NATIVE_HEADER) n).
Proof.
  intros Hid Hn Hb.
  assert (∀ m len, is_byte (m frame) → ∀ fr, wl_kernel_native_none_read m frame len = inr fr ↔
    ∃ view, wl_frame_decode m frame len WL_INTEGRITY_NONE 1 = inr view ∧
      fv_type view = WL_PACKET_DATA ∧ fv_flags view = 0 ∧ fv_message_id view = kf_message_id fr ∧
      fv_payload view = mk_span (kf_payload fr) (kf_length fr)) as Hiff.
  { clear m Hb. intros m len Hb fr. pose proof (native_decode m frame len Hb) as H.
    destruct (wl_frame_decode _ _ _ _ _) as [e|view].
    { destruct H as [e' ->]. split; [done|]. by intros (view & ? & _). }
    destruct (_ && _) eqn:E.
    - rewrite H. split.
      + intros [= <-]. exists view. cbn. destruct (fv_payload view). split_and!; (done || lia).
      + intros (view' & [= <-] & _ & _ & E1 & E2). rewrite E1, E2. by destruct fr.
    - rewrite H. split; [done|]. intros (view' & [= <-] & E1 & E2 & _). by rewrite E1, E2 in E. }
  split; [by apply Hiff|].
  destruct (wl_kernel_native_none_seal m frame capacity id n) as [m' error] eqn:Es. split.
  - destruct (decide (error = WL_OK)) as [->|He]; [by apply (native_sealed m frame capacity id n)|].
    revert Es. unfold wl_kernel_native_none_seal. repeat case_match; intros [= <- <-]; done.
  - intros ->. destruct (native_sealed m frame capacity id n m' Hid Hn Es) as (Hb' & _ & Hr).
    by apply (Hiff m' _ Hb') in Hr.
Qed.

Lemma kernel_native_interop_witness :
  let m : mem := λ _, 0 in
  (∀ fr, wl_kernel_native_none_read m 50 9 = inr fr ↔
     ∃ view, wl_frame_decode m 50 9 WL_INTEGRITY_NONE 1 = inr view ∧
       fv_type view = WL_PACKET_DATA ∧ fv_flags view = 0 ∧ fv_message_id view = kf_message_id fr ∧
       fv_payload view = mk_span (kf_payload fr) (kf_length fr)) ∧
  let '(m', error) := wl_kernel_native_none_seal m 50 9 300 5 in
  (∀ x, x < 50 ∨ 50 + WL_KERNEL_NATIVE_HEADER <= x → m' x = m x) ∧
  (error = WL_OK →
     ∃ view, wl_frame_decode m' 50 (WL_KERNEL_NATIVE_HEADER + 5) WL_INTEGRITY_NONE 1 = inr view ∧
       fv_type view = WL_PACKET_DATA ∧ fv_flags view = 0 ∧ fv_message_id view = 300 ∧
       fv_payload view = mk_span (50 + WL_KERNEL_NATIVE_HEADER) 5).
Proof.
  intros m. apply (kernel_native_interop m 50 9 9 300 5); unfold is_u16, is_byte, m; lia.
Defined.
