(* ===== verification/PacketPort.v ===== *)
(** The packet port of the static kernel ([packet_port.c]): two receive units between
    one I/O producer and one owner, and one physical transmission at a time.

    The port, the memory and the world of the adapter's functions form a [machine].
    Every function is one atomic operation; a run interleaves the operations of the
    two sides.  The publication loop takes effect at its successful exchange, which
    finds the word it last loaded. *)
From stdpp Require Import relations.
From S2P Require Import Prelude Frame Slots.
#[local] Open Scope Z_scope.

Definition WL_PACKET_RX_SLOTS : Z := 2.
Definition WL_PACKET_SEQUENCE_MAX : Z := 0x0fffffff.
Definition TX_ACTIVE : Z := 1.
Definition TX_FLAGS : Z := 14.
Definition TX_SHIFT : Z := 4.

(** [wl_packet_submit_t] *)
Inductive packet_submit :=
  | WL_PACKET_SENT
  | WL_PACKET_STARTED
  | WL_PACKET_BUSY
  | WL_PACKET_FAILED.

#[export] Instance packet_submit_eq_dec : EqDecision packet_submit.
Proof. solve_decision. Defined.

Definition WL_PACKET_CONSUMED : Z := 2.
Definition WL_PACKET_DRAINED : Z := 4.
Definition WL_PACKET_TX_ERROR : Z := 8.

(** [wl_packet_token_t], [wl_packet_claim_t] and [wl_packet_borrow_t] *)
Record packet_token := mk_token { tk_instance : Z; tk_sequence : Z }.
Record packet_claim := mk_packet_claim { pcl_span : wl_span; pcl_token : packet_token }.
Record packet_borrow := mk_borrow { pb_data : Z; pb_length : Z; pb_token : packet_token }.

Definition token_zero : packet_token := mk_token 0 0.
Definition packet_claim_zero : packet_claim := mk_packet_claim (mk_span NULL 0) token_zero.

Section Types.
Context (F : Type).

(** [wl_packet_config_t] *)
Record packet_config := mk_packet_config {
  pc_instance : Z;
  pc_rx_storage : Z;
  pc_rx_unit_size : Z;
  pc_rx_storage_size : Z;
  pc_submit : option F;
  pc_notify : option F;
  pc_user : Z;
}.

(** [wl_packet_port_t] *)
Record packet_port := mk_port {
  pp_config : packet_config;
  pp_write_cursor : Z;
  pp_read_cursor : Z;
  pp_tx_state : Z;
  pp_running : bool;
  pp_claim_active : bool;
  pp_activity : bool;
  pp_lengths : list Z;
  pp_rx_sequences : list Z;
  pp_claim_sequence : Z;
  pp_claim_cursor : Z;
  pp_claim_capacity : Z;
  pp_tx_sequence : Z;
  pp_tx_delivered : Z;
  pp_borrowed : bool;
}.
End Types.
Arguments mk_packet_config {F}.
Arguments pc_instance {F}.
Arguments pc_rx_storage {F}.
Arguments pc_rx_unit_size {F}.
Arguments pc_rx_storage_size {F}.
Arguments pc_submit {F}.
Arguments pc_notify {F}.
Arguments pc_user {F}.
Arguments mk_port {F}.
Arguments pp_config {F}.
Arguments pp_write_cursor {F}.
Arguments pp_read_cursor {F}.
Arguments pp_tx_state {F}.
Arguments pp_running {F}.
Arguments pp_claim_active {F}.
Arguments pp_activity {F}.
Arguments pp_lengths {F}.
Arguments pp_rx_sequences {F}.
Arguments pp_claim_sequence {F}.
Arguments pp_claim_cursor {F}.
Arguments pp_claim_capacity {F}.
Arguments pp_tx_sequence {F}.
Arguments pp_tx_delivered {F}.
Arguments pp_borrowed {F}.

#[export] Instance port_rebuild {F} : Rebuild (packet_port F) := λ p,
  mk_port (pp_config p) (pp_write_cursor p) (pp_read_cursor p) (pp_tx_state p) (pp_running p)
    (pp_claim_active p) (pp_activity p) (pp_lengths p) (pp_rx_sequences p) (pp_claim_sequence p)
    (pp_claim_cursor p) (pp_claim_capacity p) (pp_tx_sequence p) (pp_tx_delivered p) (pp_borrowed p).

(** The memory, the port and the adapter's world. *)
Record machine (F W : Type) := mk_machine {
  mc_mem : mem;
  mc_port : packet_port F;
  mc_world : W;
}.
Arguments mk_machine {F W}.
Arguments mc_mem {F W}.
Arguments mc_port {F W}.
Arguments mc_world {F W}.

#[export] Instance machine_rebuild {F W} : Rebuild (machine F W) := λ x,
  mk_machine (mc_mem x) (mc_port x) (mc_world x).

(** The adapter's functions.  A sink may publish completions before it returns; a
    notification is a latched outer event. *)
Class PacketCode (F W : Type) := {
  call_submit : F → Z → Z → Z → packet_token → machine F W → machine F W * packet_submit;
  call_packet_notify : F → Z → W → W;
}.

Section Port.
Context {F W : Type} {code : PacketCode F W}.
Notation machine := (machine F W).
Notation port := (packet_port F).

Definition set_port (p : port) (x : machine) : machine := x <| mc_port := p |>.

(** ** Setup and activity *)

(** [lock_free] is what the platform answers about its atomics; the port the call
    fails on last is left initialized but not running. *)
Definition wl_packet_init (lock_free : bool) (p : port) (config : packet_config F) : port * wl_err :=
  if (pc_instance config =? 0) || (pc_rx_storage config =? NULL) || (pc_rx_unit_size config =? 0) ||
     (pc_rx_unit_size config >? SIZE_MAX `div` WL_PACKET_RX_SLOTS) ||
     (pc_rx_storage_size config <? pc_rx_unit_size config * WL_PACKET_RX_SLOTS) ||
     bool_decide (pc_submit config = None)
  then (p, WL_ERR_INVALID_ARG)
  else
    let p := mk_port config 0 0 0 false false false [0; 0] [0; 0] 0 0 0 0 0 false in
    if negb lock_free then (p, WL_ERR_NOT_SUPPORTED) else (p <| pp_running := true |>, WL_OK).

Definition wl_packet_activity (x : machine) : machine :=
  let x := set_port (mc_port x <| pp_activity := true |>) x in
  match pc_notify (pp_config (mc_port x)) with
  | Some f => x <| mc_world := call_packet_notify f (pc_user (pp_config (mc_port x))) (mc_world x) |>
  | None => x
  end.

Definition wl_packet_take_activity (p : port) : port * bool := (p <| pp_activity := false |>, pp_activity p).
Definition wl_packet_activity_pending (p : port) : bool := pp_activity p.

(** ** Receiving *)

Definition rx_slot (cursor : Z) : nat := Z.to_nat (cursor mod WL_PACKET_RX_SLOTS).
Definition rx_address (p : port) (cursor : Z) : Z :=
  pc_rx_storage (pp_config p) + (cursor mod WL_PACKET_RX_SLOTS) * pc_rx_unit_size (pp_config p).
Definition rx_length (p : port) (cursor : Z) : Z := default 0 (pp_lengths p !! rx_slot cursor).
Definition rx_sequence (p : port) (cursor : Z) : Z := default 0 (pp_rx_sequences p !! rx_slot cursor).

Definition wl_packet_rx_claim (p : port) (maximum : Z) : port * wl_err * packet_claim :=
  if maximum =? 0 then (p, WL_ERR_INVALID_ARG, packet_claim_zero)
  else if negb (pp_running p) then (p, WL_ERR_INVALID_STATE, packet_claim_zero)
  else if pp_claim_active p then (p, WL_ERR_BUSY, packet_claim_zero)
  else if maximum >? pc_rx_unit_size (pp_config p) then (p, WL_ERR_BUF_TOO_SMALL, packet_claim_zero)
  else
    let write := pp_write_cursor p in
    let read := pp_read_cursor p in
    if u32 (write - read) >=? WL_PACKET_RX_SLOTS then (p, WL_ERR_WOULD_BLOCK, packet_claim_zero)
    else if pp_claim_sequence p =? UINT32_MAX then (p, WL_ERR_ID_EXHAUSTED, packet_claim_zero)
    else
      let p := p <| pp_claim_sequence := u32 (pp_claim_sequence p + 1) |>
                 <| pp_claim_cursor := write |> <| pp_claim_capacity := maximum |> in
      (p <| pp_claim_active := true |>, WL_OK,
       mk_packet_claim (mk_span (rx_address p write) maximum)
         (mk_token (pc_instance (pp_config p)) (pp_claim_sequence p))).

Definition packet_claim_matches (p : port) (claim : packet_claim) : bool :=
  pp_claim_active p && (tk_instance (pcl_token claim) =? pc_instance (pp_config p)) &&
  (tk_sequence (pcl_token claim) =? pp_claim_sequence p) &&
  (span_data (pcl_span claim) =? rx_address p (pp_claim_cursor p)).

Definition wl_packet_rx_commit (x : machine) (claim : packet_claim) (length : Z) : machine * wl_err :=
  let p := mc_port x in
  if negb (packet_claim_matches p claim) then (x, WL_ERR_NOT_FOUND)
  else if (length =? 0) || (length >? pp_claim_capacity p) then (x, WL_ERR_INVALID_ARG)
  else if negb (pp_running p)
  then (wl_packet_activity (set_port (p <| pp_claim_active := false |>) x), WL_ERR_INVALID_STATE)
  else
    let write := pp_claim_cursor p in
    let p := p <| pp_lengths := <[rx_slot write := length]> (pp_lengths p) |>
               <| pp_rx_sequences := <[rx_slot write := pp_claim_sequence p]> (pp_rx_sequences p) |>
               <| pp_write_cursor := u32 (write + 1) |> <| pp_claim_active := false |> in
    (wl_packet_activity (set_port p x), WL_OK).

Definition wl_packet_rx_abort (x : machine) (claim : packet_claim) : machine * wl_err :=
  if negb (packet_claim_matches (mc_port x) claim) then (x, WL_ERR_NOT_FOUND)
  else (wl_packet_activity (set_port (mc_port x <| pp_claim_active := false |>) x), WL_OK).

Definition wl_packet_rx_ready (p : port) : bool := negb (pp_read_cursor p =? pp_write_cursor p).

Definition wl_packet_rx_borrow (p : port) : port * (wl_err + packet_borrow) :=
  if pp_borrowed p then (p, inl WL_ERR_BUSY)
  else if negb (wl_packet_rx_ready p) then (p, inl WL_ERR_NO_DATA)
  else
    let read := pp_read_cursor p in
    (p <| pp_borrowed := true |>,
     inr (mk_borrow (rx_address p read) (rx_length p read)
            (mk_token (pc_instance (pp_config p)) (rx_sequence p read)))).

Definition wl_packet_rx_release (x : machine) (b : packet_borrow) : machine * wl_err :=
  let p := mc_port x in
  let read := pp_read_cursor p in
  if negb (pp_borrowed p) || negb (tk_instance (pb_token b) =? pc_instance (pp_config p)) ||
     negb (tk_sequence (pb_token b) =? rx_sequence p read) || negb (pb_data b =? rx_address p read)
  then (x, WL_ERR_NOT_FOUND)
  else
    (wl_packet_activity
       (set_port (p <| pp_borrowed := false |> <| pp_read_cursor := u32 (read + 1) |>) x), WL_OK).

(** ** Sending *)

Definition wl_packet_tx_active (p : port) : bool := negb (Z.land (pp_tx_state p) TX_ACTIVE =? 0).

(** [flags & ~port->tx_delivered] *)
Definition undelivered (p : port) : Z := Z.ldiff (Z.land (pp_tx_state p) TX_FLAGS) (pp_tx_delivered p).

Definition wl_packet_tx_ready (p : port) : bool := wl_packet_tx_active p && negb (undelivered p =? 0).

(** The flags a publication stands for. *)
Definition implied_flags (flags : Z) : Z :=
  let flags := if negb (Z.land flags WL_PACKET_TX_ERROR =? 0) then Z.lor flags WL_PACKET_DRAINED else flags in
  if negb (Z.land flags WL_PACKET_DRAINED =? 0) then Z.lor flags WL_PACKET_CONSUMED else flags.

Definition wl_packet_tx_publish (x : machine) (token : packet_token) (flags : Z) : machine * wl_err :=
  let p := mc_port x in
  if (flags =? 0) || negb (Z.ldiff flags TX_FLAGS =? 0) then (x, WL_ERR_INVALID_ARG)
  else if negb (tk_instance token =? pc_instance (pp_config p)) then (x, WL_ERR_NOT_FOUND)
  else
    let flags := implied_flags flags in
    let state := pp_tx_state p in
    if negb (Z.shiftr state TX_SHIFT =? tk_sequence token) || (Z.land state TX_ACTIVE =? 0) ||
       negb (Z.land state WL_PACKET_DRAINED =? 0) || (Z.land state flags =? flags)
    then (x, WL_ERR_NOT_FOUND)
    else (wl_packet_activity (set_port (p <| pp_tx_state := Z.lor state flags |>) x), WL_OK).

(** The last component is what is stored through [out].  A port that was initialized
    has a sink. *)
Definition wl_packet_tx_submit (x : machine) (data length : Z) : machine * wl_err * option packet_token :=
  let p := mc_port x in
  if (data =? NULL) || (length =? 0) then (x, WL_ERR_INVALID_ARG, None)
  else if negb (pp_running p) then (x, WL_ERR_INVALID_STATE, None)
  else if wl_packet_tx_active p then (x, WL_ERR_WOULD_BLOCK, None)
  else if pp_tx_sequence p =? WL_PACKET_SEQUENCE_MAX then (x, WL_ERR_ID_EXHAUSTED, None)
  else
    let p := p <| pp_tx_sequence := u32 (pp_tx_sequence p + 1) |> in
    let token := mk_token (pc_instance (pp_config p)) (pp_tx_sequence p) in
    let p := p <| pp_tx_delivered := 0 |>
               <| pp_tx_state := Z.lor (u32 (Z.shiftl (tk_sequence token) TX_SHIFT)) TX_ACTIVE |> in
    match pc_submit (pp_config p) with
    | None => (x, WL_ERR_INVALID_ARG, None)
    | Some f =>
        let '(x, result) := call_submit f (pc_user (pp_config p)) data length token (set_port p x) in
        match result with
        | WL_PACKET_BUSY | WL_PACKET_FAILED =>
            (set_port (mc_port x <| pp_tx_state := u32 (Z.shiftl (tk_sequence token) TX_SHIFT) |>) x,
             if bool_decide (result = WL_PACKET_BUSY) then WL_ERR_WOULD_BLOCK else WL_ERR_IO, None)
        | WL_PACKET_SENT => ((wl_packet_tx_publish x token WL_PACKET_DRAINED).1, WL_OK, Some token)
        | WL_PACKET_STARTED => (x, WL_OK, Some token)
        end
    end.

(** The flags, 0 when there is nothing to take, with the token. *)
Definition wl_packet_tx_take (p : port) : port * Z * packet_token :=
  let state := pp_tx_state p in
  if Z.land state TX_ACTIVE =? 0 then (p, 0, token_zero)
  else
    let flags := undelivered p in
    if flags =? 0 then (p, 0, token_zero)
    else
      let p := p <| pp_tx_delivered := Z.lor (pp_tx_delivered p) flags |> in
      (if negb (Z.land flags WL_PACKET_DRAINED =? 0)
       then p <| pp_tx_state := Z.ldiff (pp_tx_state p) TX_ACTIVE |> else p,
       flags, mk_token (pc_instance (pp_config p)) (Z.shiftr state TX_SHIFT)).

(** ** Stopping *)

Definition wl_packet_stop (x : machine) : machine :=
  wl_packet_activity (set_port (mc_port x <| pp_running := false |>) x).

Definition wl_packet_quiescent (p : port) : bool :=
  negb (pp_running p) && negb (pp_claim_active p) && negb (pp_borrowed p) &&
  negb (wl_packet_rx_ready p) && negb (wl_packet_tx_active p).

(** ** Runs *)

(** What a sink may do before it returns: publish, notify, and work on its own data. *)
Inductive sink_step (x : machine) : machine → Prop :=
  | sink_publish token flags : sink_step x (wl_packet_tx_publish x token flags).1
  | sink_activity : sink_step x (wl_packet_activity x)
  | sink_world w : sink_step x (x <| mc_world := w |>).

Definition sink_laws : Prop :=
  ∀ f u data length token x, rtc sink_step x (call_submit f u data length token x).1.

(** Bytes the producer may store to: the span it holds, or memory outside the units. *)
Definition packet_may_store (p : port) (a : Z) : Prop :=
  (pp_claim_active p = true ∧
   rx_address p (pp_claim_cursor p) <= a < rx_address p (pp_claim_cursor p) + pp_claim_capacity p) ∨
  ¬ (pc_rx_storage (pp_config p) <= a <
       pc_rx_storage (pp_config p) + WL_PACKET_RX_SLOTS * pc_rx_unit_size (pp_config p)).

(** What is observed of a run: the packets committed and borrowed, byte for byte, the
    transmissions started and the completions taken. *)
Inductive packet_event :=
  | Committed (packet : list Z)
  | Borrowed (packet : list Z)
  | Started (sequence : Z)
  | Taken (sequence flags : Z).

Definition borrowed_bytes (x : machine) (b : packet_borrow) : list Z :=
  mread (mc_mem x) (pb_data b) (Z.to_nat (pb_length b)).

(** One operation of either side. *)
Inductive packet_step (x : machine) : list packet_event → machine → Prop :=
  | ps_claim maximum : packet_step x [] (set_port (wl_packet_rx_claim (mc_port x) maximum).1.1 x)
  | ps_store a b :
      packet_may_store (mc_port x) a → packet_step x [] (x <| mc_mem := mset (mc_mem x) a b |>)
  | ps_commit claim length x' e :
      0 <= length → wl_packet_rx_commit x claim length = (x', e) →
      packet_step x
        (if is_ok e
         then [Committed (mread (mc_mem x) (span_data (pcl_span claim)) (Z.to_nat length))] else []) x'
  | ps_abort claim : packet_step x [] (wl_packet_rx_abort x claim).1
  | ps_publish token flags : packet_step x [] (wl_packet_tx_publish x token flags).1
  | ps_activity : packet_step x [] (wl_packet_activity x)
  | ps_borrow p r :
      wl_packet_rx_borrow (mc_port x) = (p, r) →
      packet_step x (match r with inr b => [Borrowed (borrowed_bytes x b)] | inl _ => [] end)
        (set_port p x)
  | ps_release b : packet_step x [] (wl_packet_rx_release x b).1
  | ps_submit data length x' e token :
      wl_packet_tx_submit x data length = (x', e, token) →
      packet_step x (match token with Some t => [Started (tk_sequence t)] | None => [] end) x'
  | ps_take p flags token :
      wl_packet_tx_take (mc_port x) = (p, flags, token) →
      packet_step x (if flags =? 0 then [] else [Taken (tk_sequence token) flags]) (set_port p x)
  | ps_take_activity : packet_step x [] (set_port (wl_packet_take_activity (mc_port x)).1 x)
  | ps_stop : packet_step x [] (wl_packet_stop x).

(** Runs of a freshly initialized port, with their observations. *)
Inductive packet_run (config : packet_config F) : machine → list packet_event → Prop :=
  | prun_init m p0 p w :
      wl_packet_init true p0 config = (p, WL_OK) → packet_run config (mk_machine m p w) []
  | prun_step x evs ev x' :
      packet_run config x evs → packet_step x ev x' → packet_run config x' (evs ++ ev).

Definition committed (evs : list packet_event) : list (list Z) :=
  omap (λ e, match e with Committed b => Some b | _ => None end) evs.
Definition handed_over (evs : list packet_event) : list (list Z) :=
  omap (λ e, match e with Borrowed b => Some b | _ => None end) evs.
Definition started_in (evs : list packet_event) : list Z :=
  omap (λ e, match e with Started s => Some s | _ => None end) evs.
Definition taken_in (evs : list packet_event) : list (Z * Z) :=
  omap (λ e, match e with Taken s f => Some (s, f) | _ => None end) evs.

(** ** Receiving, in order *)

Definition unit_bytes (x : machine) (cursor : Z) : list Z :=
  mread (mc_mem x) (rx_address (mc_port x) cursor) (Z.to_nat (rx_length (mc_port x) cursor)).

Definition lent (p : port) : Z := if pp_borrowed p then 1 else 0.

(** The packets that were committed and not borrowed yet. *)
Definition rx_waiting (x : machine) : list (list Z) :=
  let p := mc_port x in
  (λ i, unit_bytes x (u32 (pp_read_cursor p + lent p + Z.of_nat i))) <$>
    seq 0 (Z.to_nat (u32 (pp_write_cursor p - pp_read_cursor p) - lent p)).

Record rx_inv (x : machine) (pub handed : list (list Z)) : Prop := {
  ri_unit : 0 < pc_rx_unit_size (pp_config (mc_port x));
  ri_lengths : length (pp_lengths (mc_port x)) = 2%nat;
  ri_write : pp_write_cursor (mc_port x) = u32 (len pub);
  ri_read : pp_read_cursor (mc_port x) = u32 (len handed - lent (mc_port x));
  ri_order : handed = take (length handed) pub ∧ 0 <= len handed - lent (mc_port x) ∧
             len handed <= len pub <= len handed - lent (mc_port x) + 2;
  ri_claim : pp_claim_active (mc_port x) = true →
             pp_claim_cursor (mc_port x) = pp_write_cursor (mc_port x) ∧
             len pub < len handed - lent (mc_port x) + 2 ∧
             pp_claim_capacity (mc_port x) <= pc_rx_unit_size (pp_config (mc_port x));
  ri_units : ∀ i, len handed - lent (mc_port x) <= i < len pub →
             0 < rx_length (mc_port x) i <= pc_rx_unit_size (pp_config (mc_port x)) ∧
             pub !! Z.to_nat i = Some (unit_bytes x i);
}.

(** The part of the port the receiving side looks at. *)
Definition same_rx (x x' : machine) : Prop :=
  mc_mem x' = mc_mem x ∧ pp_config (mc_port x') = pp_config (mc_port x) ∧
  pp_write_cursor (mc_port x') = pp_write_cursor (mc_port x) ∧
  pp_read_cursor (mc_port x') = pp_read_cursor (mc_port x) ∧
  pp_claim_active (mc_port x') = pp_claim_active (mc_port x) ∧
  pp_lengths (mc_port x') = pp_lengths (mc_port x) ∧
  pp_claim_cursor (mc_port x') = pp_claim_cursor (mc_port x) ∧
  pp_claim_capacity (mc_port x') = pp_claim_capacity (mc_port x) ∧
  pp_borrowed (mc_port x') = pp_borrowed (mc_port x).

#[local] Instance same_rx_refl : Reflexive same_rx.
Proof. by repeat split. Qed.

#[local] Instance same_rx_trans : Transitive same_rx.
Proof. unfold same_rx. intros x y z. intuition congruence. Qed.

Lemma same_rx_inv x x' pub handed : same_rx x x' → rx_inv x pub handed → rx_inv x' pub handed.
Proof.
  intros (E1 & E2 & E3 & E4 & E5 & E6 & E7 & E8 & E9) [].
  assert (lent (mc_port x') = lent (mc_port x)) as El by (unfold lent; by rewrite E9).
  assert (∀ i, rx_length (mc_port x') i = rx_length (mc_port x) i) as En by (intros i; unfold rx_length; by rewrite E6).
  assert (∀ i, unit_bytes x' i = unit_bytes x i) as Eu
    by (intros i; unfold unit_bytes, rx_address; by rewrite E1, E2, En).
  split; rewrite ?El, ?E2, ?E3, ?E4, ?E5, ?E6, ?E7, ?E8; try done.
  intros i Hi. rewrite En, Eu. by apply ri_units0.
Qed.

Lemma activity_rx x : same_rx x (wl_packet_activity x).
Proof. unfold wl_packet_activity. case_match; done. Qed.

Lemma publish_rx x token flags : same_rx x (wl_packet_tx_publish x token flags).1.
Proof.
  unfold wl_packet_tx_publish. repeat case_match; try done. etrans; [|apply activity_rx]. done.
Qed.

Lemma sink_rx x x' : rtc sink_step x x' → same_rx x x'.
Proof.
  induction 1 as [|x y z Hs _ IH]; [done|]. etrans; [|exact IH].
  destruct Hs; [apply publish_rx|apply activity_rx|done].
Qed.

Lemma cursor_u32 i : u32 i mod WL_PACKET_RX_SLOTS = i mod WL_PACKET_RX_SLOTS.
Proof. unfold u32, WL_PACKET_RX_SLOTS. rewrite <- Znumtheory.Zmod_div_mod; [done|lia|lia|]. by exists (2 ^ 31). Qed.

Lemma slot_of_u32 p i :
  rx_address p (u32 i) = rx_address p i ∧ rx_length p (u32 i) = rx_length p i ∧ rx_slot (u32 i) = rx_slot i.
Proof. unfold rx_address, rx_length, rx_slot. by rewrite cursor_u32. Qed.

Lemma lent_bound (p : port) : 0 <= lent p <= 1.
Proof. unfold lent. destruct (pp_borrowed p); lia. Qed.

Ltac lent_is v := repeat match goal with |- context [lent ?p] => change (lent p) with v end.

Section Receive.
Context (x : machine) (pub handed : list (list Z)) (Hinv : rx_inv x pub handed).

Lemma rx_distance :
  u32 (pp_write_cursor (mc_port x) - pp_read_cursor (mc_port x)) = len pub - (len handed - lent (mc_port x)).
Proof.
  pose proof (lent_bound (mc_port x)). destruct Hinv. destruct ri_order0 as (_ & ? & ?).
  rewrite ri_write0, ri_read0. apply u32_distance. lia.
Qed.

Lemma claim_rx maximum : rx_inv (set_port (wl_packet_rx_claim (mc_port x) maximum).1.1 x) pub handed.
Proof.
  pose proof rx_distance as Hd. unfold wl_packet_rx_claim. cbv zeta.
  repeat match goal with |- context [if ?b then _ else _] => destruct b eqn:?; [by apply (same_rx_inv x)|] end.
  destruct Hinv. split; try done. intros _. rewrite Hd in *. unfold WL_PACKET_RX_SLOTS in *.
  split; [done|]. change (lent _) with (lent (mc_port x)). cbn. lia.
Qed.

Lemma store_rx a b : packet_may_store (mc_port x) a → rx_inv (x <| mc_mem := mset (mc_mem x) a b |>) pub handed.
Proof.
  intros Ha. destruct Hinv. split; try done. intros i Hi. change (len handed - lent (mc_port x) <= i < len pub) in Hi.
  destruct (ri_units0 i Hi) as [Hl Hu]. split; [done|]. rewrite Hu. f_equal. unfold unit_bytes. cbn [mc_mem mc_port]. symmetry. apply mread_mset_out.
  set (p := mc_port x) in *. set (size := pc_rx_unit_size (pp_config p)) in *.
  assert (rx_address p i = pc_rx_storage (pp_config p) + i mod WL_PACKET_RX_SLOTS * size) as Ea by done.
  pose proof (Z.mod_pos_bound i WL_PACKET_RX_SLOTS ltac:(done)) as Hr. unfold WL_PACKET_RX_SLOTS in *.
  destruct Ha as [(Hact & Ha)|Ha].
  - destruct (ri_claim0 Hact) as (Hc & Hlt & Hcap). rewrite Hc, ri_write0 in Ha.
    destruct (slot_of_u32 p (len pub)) as (E & _ & _). rewrite E in Ha. unfold rx_address in Ha. fold size in Ha.
    pose proof (slots_apart 2 size i (len pub) (a - pc_rx_storage (pp_config p)) ltac:(lia) ltac:(lia) ltac:(lia)
      ltac:(unfold WL_PACKET_RX_SLOTS in Ha; lia)). lia.
  - assert (0 <= i mod 2 * size <= size) by nia. rewrite Ea. unfold WL_PACKET_RX_SLOTS in Ha.
    fold p size in Ha. lia.
Qed.

Lemma rx_length_set (p : port) i j v k :
  length (pp_lengths p) = 2%nat →
  rx_length (p <| pp_lengths := <[rx_slot i := v]> (pp_lengths p) |> <| pp_rx_sequences := k |>) j =
    if i mod 2 =? j mod 2 then v else rx_length p j.
Proof.
  intros Hl. unfold rx_length, rx_slot, WL_PACKET_RX_SLOTS. cbn.
  pose proof (Z.mod_pos_bound i 2 ltac:(lia)). pose proof (Z.mod_pos_bound j 2 ltac:(lia)).
  destruct (Z.eqb_spec (i mod 2) (j mod 2)) as [->|Hne].
  - by rewrite list_lookup_insert_eq by lia.
  - by rewrite list_lookup_insert_ne by lia.
Qed.

Lemma commit_rx claim length x' e :
  0 <= length → wl_packet_rx_commit x claim length = (x', e) →
  rx_inv x' (pub ++ (if is_ok e
                     then [mread (mc_mem x) (span_data (pcl_span claim)) (Z.to_nat length)] else [])) handed.
Proof.
  intros Hn. unfold wl_packet_rx_commit. destruct (negb (packet_claim_matches _ _)) eqn:Em.
  { intros [= <- <-]. by rewrite app_nil_r. }
  destruct ((length =? 0) || _) eqn:El; [intros [= <- <-]; by rewrite app_nil_r|].
  destruct (negb (pp_running _)).
  { intros [= <- <-]. rewrite app_nil_r. eapply same_rx_inv; [apply activity_rx|]. by destruct Hinv; split. }
  intros [= <- <-]. change (is_ok WL_OK) with true. cbv iota.
  eapply same_rx_inv; [apply activity_rx|]. unfold packet_claim_matches in Em.
  destruct (pp_claim_active (mc_port x)) eqn:Ea; [|done]. cbn [andb] in Em.
  destruct Hinv. destruct (ri_claim0 Ea) as (Hc & Hlt & Hcap).
  set (p := mc_port x) in *. destruct (slot_of_u32 p (len pub)) as (A1 & _ & A3).
  assert (span_data (pcl_span claim) = rx_address p (len pub)) as Ead by (rewrite <- A1, <- ri_write0, <- Hc; lia).
  rewrite Ead. clear Ead. rewrite Hc, ri_write0, A3, u32_succ.
  assert (∀ j, rx_length (p <| pp_lengths := <[rx_slot (len pub) := length]> (pp_lengths p) |>
     <| pp_rx_sequences := <[rx_slot (len pub) := pp_claim_sequence p]> (pp_rx_sequences p) |>) j =
     if len pub mod 2 =? j mod 2 then length else rx_length p j) as Hlen by (intros j; by apply rx_length_set).
  set (u := mread (mc_mem x) (rx_address p (len pub)) (Z.to_nat length)).
  assert (len (pub ++ [u]) = len pub + 1) as Elen by (rewrite len_app, len_cons, len_nil; lia).
  split; cbn; rewrite ?Elen; try done.
  - by rewrite length_insert.
  - destruct ri_order0 as (Ho1 & Ho2 & Ho3). change (lent _) with (lent p).
    split; [|lia]. rewrite take_app_le by (unfold len in *; lia). done.
  - intros i Hi. change (rx_length _ i) with
      (rx_length (p <| pp_lengths := <[rx_slot (len pub) := length]> (pp_lengths p) |>
         <| pp_rx_sequences := <[rx_slot (len pub) := pp_claim_sequence p]> (pp_rx_sequences p) |>) i).
    change (unit_bytes _ i) with (mread (mc_mem x) (rx_address p i)
      (Z.to_nat (rx_length (p <| pp_lengths := <[rx_slot (len pub) := length]> (pp_lengths p) |>
         <| pp_rx_sequences := <[rx_slot (len pub) := pp_claim_sequence p]> (pp_rx_sequences p) |>) i))).
    rewrite Hlen. change (lent _) with (lent p) in Hi.
    destruct (decide (i = len pub)) as [->|Hne].
    + rewrite Z.eqb_refl. split; [lia|]. rewrite lookup_app_r by (unfold len; lia).
      unfold len. by replace (Z.to_nat (Z.of_nat (List.length pub)) - List.length pub)%nat with 0%nat by lia.
    + pose proof (slot_disjoint 2 i (len pub) ltac:(lia) ltac:(lia)) as Hd.
      destruct (Z.eqb_spec (len pub mod 2) (i mod 2)); [congruence|].
      destruct (ri_units0 i) as [H1 H2]; [lia|]. split; [done|].
      rewrite lookup_app_l by (unfold len in *; lia). exact H2.
Qed.

Lemma borrow_rx p r :
  wl_packet_rx_borrow (mc_port x) = (p, r) →
  rx_inv (set_port p x) pub (handed ++ match r with inr b => [borrowed_bytes x b] | inl _ => [] end).
Proof.
  unfold wl_packet_rx_borrow. destruct (pp_borrowed (mc_port x)) eqn:Eb.
  { intros [= <- <-]. rewrite app_nil_r. by apply (same_rx_inv x). }
  destruct (wl_packet_rx_ready (mc_port x)) eqn:Er; cbn [negb].
  2: { intros [= <- <-]. rewrite app_nil_r. by apply (same_rx_inv x). }
  intros [= <- <-]. destruct Hinv. assert (lent (mc_port x) = 0) as El by (unfold lent; by rewrite Eb).
  rewrite El, ?Z.sub_0_r in *. destruct ri_order0 as (Ho1 & Ho2 & Ho3).
  assert (len handed < len pub) as Hlt.
  { unfold wl_packet_rx_ready in Er. rewrite ri_read0, ri_write0 in Er.
    destruct (decide (len handed = len pub)) as [E|E]; [rewrite E, Z.eqb_refl in Er; done|lia]. }
  destruct (slot_of_u32 (mc_port x) (len handed)) as (A1 & A2 & _).
  assert (borrowed_bytes x (mk_borrow (rx_address (mc_port x) (pp_read_cursor (mc_port x)))
     (rx_length (mc_port x) (pp_read_cursor (mc_port x)))
     (mk_token (pc_instance (pp_config (mc_port x))) (rx_sequence (mc_port x) (pp_read_cursor (mc_port x))))) =
     unit_bytes x (len handed)) as ->.
  { unfold borrowed_bytes, unit_bytes. cbn. by rewrite ri_read0, A1, A2. }
  destruct (ri_units0 (len handed)) as [_ Hu]; [lia|].
  assert (len (handed ++ [unit_bytes x (len handed)]) = len handed + 1) as Elen by (rewrite len_app, len_cons, len_nil; lia).
  split; cbn -[lent]; try done; lent_is 1; rewrite ?Elen.
  - by replace (len handed + 1 - 1) with (len handed) by lia.
  - split; [|lia]. rewrite length_app. cbn [length]. rewrite Nat.add_1_r.
    erewrite take_S_r; [by rewrite <- Ho1|]. by unfold len in Hu; rewrite Nat2Z.id in Hu.
  - intros Ha. destruct (ri_claim0 Ha) as (? & ? & ?). split; [done|lia].
  - intros i Hi. apply ri_units0. lia.
Qed.

Lemma release_rx b : rx_inv (wl_packet_rx_release x b).1 pub handed.
Proof.
  unfold wl_packet_rx_release. destruct (_ || _) eqn:E; [done|]. cbn [fst].
  eapply same_rx_inv; [apply activity_rx|]. destruct (pp_borrowed (mc_port x)) eqn:Eb; [|done].
  destruct Hinv. assert (lent (mc_port x) = 1) as El by (unfold lent; by rewrite Eb). rewrite El in *.
  destruct ri_order0 as (Ho1 & Ho2 & Ho3).
  split; cbn -[lent]; try done; lent_is 0.
  - rewrite ri_read0, u32_succ. f_equal. lia.
  - split; [done|lia].
  - intros Ha. destruct (ri_claim0 Ha) as (? & ? & ?). split; [done|lia].
  - intros i Hi. apply ri_units0. lia.
Qed.
End Receive.

Section Runs.
Context (Hsink : sink_laws).

Lemma submit_same_rx x data length : same_rx x (wl_packet_tx_submit x data length).1.1.
Proof.
  unfold wl_packet_tx_submit. repeat match goal with |- context [if ?b then (_, _, None) else _] => destruct b; [done|] end.
  destruct (pc_submit _) as [f|]; [|done].
  match goal with |- context [call_submit ?f ?u ?d ?n ?t ?y] =>
    pose proof (sink_rx _ _ (Hsink f u d n t y)) as H; destruct (call_submit f u d n t y) as [x1 r] end.
  cbn [fst] in H. destruct r; (etrans; [exact H|]); [apply publish_rx|done..].
Qed.

Lemma take_same_rx x : same_rx x (set_port (wl_packet_tx_take (mc_port x)).1.1 x).
Proof. unfold wl_packet_tx_take. by repeat case_match. Qed.

Lemma packet_step_rx x ev x' pub handed :
  packet_step x ev x' → rx_inv x pub handed → rx_inv x' (pub ++ committed ev) (handed ++ handed_over ev).
Proof.
  assert (∀ y, same_rx x y → rx_inv x pub handed → rx_inv y (pub ++ []) (handed ++ [])) as Hsame
    by (intros y Hy Hi; rewrite !app_nil_r; by apply (same_rx_inv x)).
  intros [maximum|a b Ha|claim length x1 e Hl Hc|claim|token flags| |p r Hb|b|data length x1 e token Hs
    |p flags token Ht| |] Hi.
  - rewrite !app_nil_r. by apply claim_rx.
  - rewrite !app_nil_r. by apply store_rx.
  - pose proof (commit_rx x pub handed Hi claim length x1 e Hl Hc) as H. 
    destruct (is_ok e); cbn; rewrite ?app_nil_r; by rewrite ?app_nil_r in H.
  - rewrite !app_nil_r. unfold wl_packet_rx_abort. destruct (negb _); [done|]. cbn [fst].
    eapply same_rx_inv; [apply activity_rx|]. by destruct Hi; split.
  - apply Hsame; [apply publish_rx|done].
  - apply Hsame; [apply activity_rx|done].
  - pose proof (borrow_rx x pub handed Hi p r Hb) as H. destruct r; cbn; rewrite ?app_nil_r; by rewrite ?app_nil_r in H.
  - rewrite !app_nil_r. by apply release_rx.
  - pose proof (submit_same_rx x data length) as H. rewrite Hs in H. destruct token; by apply Hsame.
  - pose proof (take_same_rx x) as H. rewrite Ht in H. destruct (flags =? 0); by apply Hsame.
  - by apply Hsame.
  - apply Hsame; [|done]. unfold wl_packet_stop. etrans; [|apply activity_rx]. done.
Qed.

Lemma packet_run_rx config x evs :
  is_size (pc_rx_unit_size config) → packet_run config x evs → rx_inv x (committed evs) (handed_over evs).
Proof.
  intros Hs. induction 1 as [m p0 p w Hp|x evs ev x' _ IH Hstep].
  - unfold wl_packet_init in Hp. destruct (_ || _) eqn:E; [done|]. injection Hp as <-. split; cbn; try done.
    + unfold is_size in Hs. lia.
    + intros i Hi. change (len []) with 0 in Hi. lia.
  - unfold committed, handed_over. rewrite !omap_app. by apply (packet_step_rx x).
Qed.

(** C29: whatever the interleaving of the producer and the owner, the packets
    borrowed followed by the packets that wait are the packets committed, byte for byte
    and in order; and the bytes of the packet on loan stay what they were when it was
    borrowed, until it is released. *)
Theorem packet_rx_fifo config x evs :
  is_size (pc_rx_unit_size config) → packet_run config x evs →
  committed evs = handed_over evs ++ rx_waiting x ∧
  (pp_borrowed (mc_port x) = true →
     last (handed_over evs) = Some (unit_bytes x (pp_read_cursor (mc_port x)))).
Proof.
  intros Hs Hrun. pose proof (packet_run_rx config x evs Hs Hrun) as Hi.
  pose proof (rx_distance x _ _ Hi) as Hd. set (pub := committed evs) in *. set (handed := handed_over evs) in *.
  destruct Hi. destruct ri_order0 as (Ho1 & Ho2 & Ho3). pose proof (lent_bound (mc_port x)) as Hlb.
  assert (∀ i, unit_bytes x (u32 i) = unit_bytes x i) as Hu.
  { intros i. unfold unit_bytes. destruct (slot_of_u32 (mc_port x) i) as (-> & -> & _). done. }
  split.
  - rewrite <- (take_drop (length handed) pub) at 1. rewrite <- Ho1. f_equal.
    apply list_eq. intros i. rewrite lookup_drop. unfold rx_waiting. rewrite list_lookup_fmap, Hd.
    destruct (decide (i < Z.to_nat (len pub - len handed))%nat) as [Hlt|Hge].
    + rewrite lookup_seq_lt by lia. cbn [fmap option_fmap option_map].
      destruct (ri_units0 (len handed + Z.of_nat i)) as [_ H]; [lia|].
      replace (Z.to_nat (len handed + Z.of_nat i)) with (length handed + i)%nat in H by (unfold len; lia).
      rewrite H, Nat.add_0_l, ri_read0, Hu. f_equal.
      rewrite <- (Hu (_ + _ + _)), <- (Hu (len handed + _)). f_equal.
      unfold u32. rewrite <- Z.add_assoc, Zplus_mod_idemp_l. f_equal. lia.
    + rewrite lookup_seq_ge by lia. apply lookup_ge_None_2. unfold len in *. lia.
  - intros Hb. assert (lent (mc_port x) = 1) as El by (unfold lent; by rewrite Hb). rewrite El in *.
    rewrite last_lookup, ri_read0, Hu. destruct (ri_units0 (len handed - 1)) as [_ H]; [lia|].
    rewrite <- H. replace (Z.to_nat (len handed - 1)) with (pred (length handed)) by (unfold len; lia).
    transitivity (take (length handed) pub !! pred (length handed)); [by rewrite <- Ho1|].
    apply lookup_take_lt. unfold len in *. lia.
Qed.

(** ** Sending, once *)

(** The completions of transmission [s] that were taken so far. *)
Definition bits_taken (s : Z) (taken : list (Z * Z)) : Z :=
  foldr (λ t bits, if t.1 =? s then Z.lor t.2 bits else bits) 0 taken.

(** The low bits of the word: what was published goes together as the flags imply. *)
Record tx_low (low : Z) : Prop := {
  tl_range : 0 <= low < 16;
  tl_closed : Z.land low WL_PACKET_DRAINED ≠ 0 → Z.land low WL_PACKET_CONSUMED ≠ 0;
}.

Record tx_inv (x : machine) (started : list Z) (taken : list (Z * Z)) (low : Z) : Prop := {
  ti_sequence : 0 <= pp_tx_sequence (mc_port x) <= WL_PACKET_SEQUENCE_MAX;
  ti_state : pp_tx_state (mc_port x) = pp_tx_sequence (mc_port x) * 2 ^ TX_SHIFT + low;
  ti_low : tx_low low;
  ti_delivered : 0 <= pp_tx_delivered (mc_port x) < 16 ∧ Z.ldiff (pp_tx_delivered (mc_port x)) (Z.land low TX_FLAGS) = 0;
  ti_open : Z.land low TX_ACTIVE ≠ 0 →
            bits_taken (pp_tx_sequence (mc_port x)) taken = pp_tx_delivered (mc_port x) ∧
            Z.land (pp_tx_delivered (mc_port x)) WL_PACKET_DRAINED = 0;
  ti_started : NoDup started ∧ Forall (λ s, 0 < s <= pp_tx_sequence (mc_port x)) started;
  ti_done : ∀ s, s ∈ started → s < pp_tx_sequence (mc_port x) ∨ Z.land low TX_ACTIVE = 0 →
            ∃ f, (s, f) ∈ taken ∧ Z.land f WL_PACKET_DRAINED ≠ 0;
  ti_taken : Forall (λ t, t.1 <= pp_tx_sequence (mc_port x) ∧ 0 <= t.2 < 16) taken;
  ti_once : ∀ i j s f g, (i < j)%nat → taken !! i = Some (s, f) → taken !! j = Some (s, g) →
            Z.land f g = 0 ∧ Z.land f WL_PACKET_DRAINED = 0;
  ti_closed : ∀ s f, (s, f) ∈ taken → Z.land f WL_PACKET_DRAINED ≠ 0 →
              Z.land (bits_taken s taken) WL_PACKET_CONSUMED ≠ 0 ∧
              (s < pp_tx_sequence (mc_port x) ∨ Z.land low TX_ACTIVE = 0);
}.

(** Small words are compared by cases. *)
Definition nibbles : list Z := seqZ 0 16.

Lemma forall_nibbles (P : Z → Z → bool) :
  forallb (λ a, forallb (P a) nibbles) nibbles = true → ∀ a b, 0 <= a < 16 → 0 <= b < 16 → P a b = true.
Proof.
  intros H a b Ha Hb. rewrite forallb_forall in H.
  assert (∀ c, 0 <= c < 16 → In c nibbles) as Hin by (intros c Hc; apply list_elem_of_In, elem_of_seqZ; lia).
  specialize (H a (Hin a Ha)). rewrite forallb_forall in H. exact (H b (Hin b Hb)).
Qed.

Lemma land_low y mask : 0 <= mask < 16 → Z.land y mask = Z.land (y mod 2 ^ 4) mask.
Proof.
  intros Hm. rewrite <- Z.land_ones, <- Z.land_assoc by lia. f_equal.
  by rewrite Z.land_comm, Z.land_ones, Z.mod_small by lia.
Qed.

Lemma word_bits s low mask :
  0 <= low < 16 → 0 <= mask < 16 → Z.land (s * 2 ^ TX_SHIFT + low) mask = Z.land low mask.
Proof.
  intros Hl Hm. unfold TX_SHIFT. rewrite land_low by done. f_equal. rewrite Z.add_comm, Z.mod_add by lia. by apply Z.mod_small.
Qed.

Lemma word_lor s low flags :
  0 <= low < 16 → 0 <= flags < 16 →
  Z.lor (s * 2 ^ TX_SHIFT + low) flags = s * 2 ^ TX_SHIFT + Z.lor low flags ∧ 0 <= Z.lor low flags < 16.
Proof.
  intros Hl Hf. assert (0 <= Z.lor low flags < 2 ^ 4) as Hb.
  { split; [apply Z.lor_nonneg; lia|].
    pose proof (forall_nibbles (λ a b, Z.lor a b <? 16) ltac:(by_compute) low flags Hl Hf). lia. }
  split; [|exact Hb]. unfold TX_SHIFT. rewrite <- !lor_add by lia. by rewrite Z.lor_assoc.
Qed.

Lemma bits_taken_app s l k : bits_taken s (l ++ k) = Z.lor (bits_taken s l) (bits_taken s k).
Proof.
  unfold bits_taken. induction l as [|t l IH]; cbn; [done|]. destruct (t.1 =? s); rewrite IH; [|done].
  by rewrite Z.lor_assoc.
Qed.

(** A completion that was taken is among the bits taken. *)
Lemma bits_taken_elem s f l : (s, f) ∈ l → Z.land f (bits_taken s l) = f.
Proof.
  induction l as [|[s' g] l IH]; [by intros ?%elem_of_nil|]. unfold bits_taken in *. cbn.
  intros [E|Hin]%elem_of_cons.
  - injection E as <- <-. rewrite Z.eqb_refl. bit_ext i. by destruct (Z.testbit f i).
  - destruct (s' =? s); [|by apply IH]. rewrite Z.land_lor_distr_r, (IH Hin). bit_ext i.
    destruct (Z.testbit f i); by rewrite ?orb_true_r.
Qed.

Lemma bits_taken_none s l : Forall (λ t, t.1 ≠ s) l → bits_taken s l = 0.
Proof.
  induction 1 as [|[s' f] l Hne _ IH]; [done|]. unfold bits_taken in *. cbn in *.
  by rewrite (proj2 (Z.eqb_neq _ _) Hne).
Qed.

(** The part of the port the sending side looks at. *)
Definition same_tx (x x' : machine) : Prop :=
  pp_tx_state (mc_port x') = pp_tx_state (mc_port x) ∧
  pp_tx_sequence (mc_port x') = pp_tx_sequence (mc_port x) ∧
  pp_tx_delivered (mc_port x') = pp_tx_delivered (mc_port x).

#[local] Instance same_tx_trans : Transitive same_tx.
Proof. unfold same_tx. intros x y z. intuition congruence. Qed.

Lemma same_tx_inv x x' started taken low :
  same_tx x x' → tx_inv x started taken low → tx_inv x' started taken low.
Proof. intros (E1 & E2 & E3) []. split; rewrite ?E1, ?E2, ?E3; done. Qed.

Lemma activity_tx x : same_tx x (wl_packet_activity x).
Proof. unfold wl_packet_activity. by case_match. Qed.

Lemma flags_range flags : Z.ldiff flags TX_FLAGS = 0 → 0 <= flags < 16.
Proof.
  intros E. rewrite <- (Z.lor_ldiff_and flags TX_FLAGS), E, Z.lor_0_l, land_low by by compute.
  pose proof (Z.mod_pos_bound flags (2 ^ 4) ltac:(lia)) as Hm.
  pose proof (forall_nibbles (λ a b, (0 <=? Z.land a b) && (Z.land a b <? 16)) ltac:(by_compute)
    (flags mod 2 ^ 4) TX_FLAGS Hm ltac:(by compute)). lia.
Qed.

(** What a publication makes of the low bits. *)
Lemma publish_low low flags d :
  tx_low low → 0 <= flags < 16 → 0 <= d < 16 → Z.ldiff flags TX_FLAGS = 0 → Z.ldiff d (Z.land low TX_FLAGS) = 0 →
  let low' := Z.lor low (implied_flags flags) in
  tx_low low' ∧ 0 <= implied_flags flags < 16 ∧ Z.land low' TX_ACTIVE = Z.land low TX_ACTIVE ∧
  Z.ldiff d (Z.land low' TX_FLAGS) = 0.
Proof.
  intros [Hl Hc] Hf Hd Hm Hsub. cbv zeta.
  pose proof (forall_nibbles (λ l f, implb (Z.ldiff f TX_FLAGS =? 0)
    (let l' := Z.lor l (implied_flags f) in
     (0 <=? l') && (l' <? 16) && (0 <=? implied_flags f) && (implied_flags f <? 16) &&
     (Z.land l' TX_ACTIVE =? Z.land l TX_ACTIVE) && (Z.ldiff (Z.land l TX_FLAGS) (Z.land l' TX_FLAGS) =? 0) &&
     implb (implb (negb (Z.land l WL_PACKET_DRAINED =? 0)) (negb (Z.land l WL_PACKET_CONSUMED =? 0)))
       (implb (negb (Z.land l' WL_PACKET_DRAINED =? 0)) (negb (Z.land l' WL_PACKET_CONSUMED =? 0)))))
    ltac:(by_compute) low flags Hl Hf) as H.
  cbv beta zeta in H. rewrite (proj2 (Z.eqb_eq _ _) Hm) in H. cbn [implb] in H.
  set (low' := Z.lor low (implied_flags flags)) in *.
  assert (Z.ldiff (Z.land low TX_FLAGS) (Z.land low' TX_FLAGS) = 0) as Hmono by lia.
  split_and!; try lia.
  - split; [lia|]. intros Hdr.
    destruct (Z.eqb_spec (Z.land low' WL_PACKET_DRAINED) 0); [done|].
    destruct (Z.eqb_spec (Z.land low' WL_PACKET_CONSUMED) 0); [|done]. exfalso. revert H. cbn [negb implb].
    destruct (Z.eqb_spec (Z.land low WL_PACKET_DRAINED) 0) as [|Hn]; [cbn; lia|].
    specialize (Hc Hn). destruct (Z.eqb_spec (Z.land low WL_PACKET_CONSUMED) 0); [done|]. cbn. lia.
  - bit_ext i. apply (f_equal (λ z, Z.testbit z i)) in Hsub, Hmono. rewrite !Z.ldiff_spec in *.
    rewrite Z.bits_0 in *. destruct (Z.testbit d i); [|done]. cbn in *.
    destruct (Z.testbit (Z.land low TX_FLAGS) i); [|done]. done.
Qed.

Lemma publish_tx x token flags started taken low :
  tx_inv x started taken low →
  ∃ low', tx_inv (wl_packet_tx_publish x token flags).1 started taken low' ∧
    Z.land low' TX_ACTIVE = Z.land low TX_ACTIVE.
Proof.
  intros Hi. unfold wl_packet_tx_publish. destruct ((flags =? 0) || _) eqn:E1; [exact (ex_intro _ low (conj Hi eq_refl))|].
  destruct (negb (tk_instance token =? _)); [exact (ex_intro _ low (conj Hi eq_refl))|].
  destruct (_ || (Z.land _ (implied_flags flags) =? _)); [exact (ex_intro _ low (conj Hi eq_refl))|]. cbn [fst].
  assert (Z.ldiff flags TX_FLAGS = 0) as Hm by lia. pose proof (flags_range flags Hm) as Hf. destruct Hi.
  destruct ti_delivered0 as [Hd Hsub].
  destruct (publish_low low flags _ ti_low0 Hf Hd Hm Hsub) as (Hl' & Hf' & Ha & Hs').
  exists (Z.lor low (implied_flags flags)). split; [|done].
  eapply same_tx_inv; [apply activity_tx|].
  destruct (word_lor (pp_tx_sequence (mc_port x)) low (implied_flags flags) (tl_range _ ti_low0) Hf') as [Ew _].
  split; cbn [mc_port set_port pp_tx_sequence pp_tx_state pp_tx_delivered]; cbn; rewrite ?Ha; try done.
  rewrite ti_state0. exact Ew.
Qed.

Lemma sink_tx x x' started taken low :
  rtc sink_step x x' → tx_inv x started taken low →
  ∃ low', tx_inv x' started taken low' ∧ Z.land low' TX_ACTIVE = Z.land low TX_ACTIVE ∧
    pp_tx_sequence (mc_port x') = pp_tx_sequence (mc_port x) ∧ pp_tx_delivered (mc_port x') = pp_tx_delivered (mc_port x).
Proof.
  intros Hr. revert low. induction Hr as [|x y z Hs _ IH]; intros low Hi; [by exists low|].
  assert (∃ low1, tx_inv y started taken low1 ∧ Z.land low1 TX_ACTIVE = Z.land low TX_ACTIVE ∧
    pp_tx_sequence (mc_port y) = pp_tx_sequence (mc_port x) ∧
    pp_tx_delivered (mc_port y) = pp_tx_delivered (mc_port x)) as (low1 & H1 & E1 & E2 & E3).
  { destruct Hs as [token flags| |w].
    - destruct (publish_tx x token flags started taken low Hi) as (low1 & H1 & E1). exists low1.
      split; [done|]. split; [done|]. unfold wl_packet_tx_publish, wl_packet_activity. by repeat case_match.
    - exists low. pose proof (activity_tx x) as Ht. split; [by apply (same_tx_inv x)|]. split; [done|].
      by destruct Ht as (_ & ? & ?).
    - exists low. split; [by apply (same_tx_inv x)|done]. }
  destruct (IH low1 H1) as (low2 & H2 & E4 & E5 & E6). exists low2. split_and!; [done|congruence..].
Qed.

(** A transmission begins: the word of a fresh sequence number is active and bare. *)
Lemma fresh_tx x started taken low :
  tx_inv x started taken low → Z.land low TX_ACTIVE = 0 → pp_tx_sequence (mc_port x) ≠ WL_PACKET_SEQUENCE_MAX →
  let p := mc_port x in
  let s := u32 (pp_tx_sequence p + 1) in
  s = pp_tx_sequence p + 1 ∧ u32 (Z.shiftl s TX_SHIFT) = s * 2 ^ TX_SHIFT ∧
  tx_inv (set_port (p <| pp_tx_sequence := s |> <| pp_tx_delivered := 0 |>
                      <| pp_tx_state := Z.lor (u32 (Z.shiftl s TX_SHIFT)) TX_ACTIVE |>) x) started taken 1.
Proof.
  intros Hi Hidle Hmax. cbv zeta. destruct Hi. unfold WL_PACKET_SEQUENCE_MAX in *. set (q := pp_tx_sequence (mc_port x)) in *.
  assert (u32 (q + 1) = q + 1) as Es by (apply u32_id; unfold is_u32; lia). rewrite Es.
  assert (u32 (Z.shiftl (q + 1) TX_SHIFT) = (q + 1) * 2 ^ TX_SHIFT) as Ew.
  { unfold TX_SHIFT. rewrite Z.shiftl_mul_pow2 by lia. apply u32_id. unfold is_u32. lia. }
  split; [done|]. split; [done|]. rewrite Ew. destruct ti_started0 as [Hnd Hst].
  rewrite Forall_forall in Hst. rewrite Forall_forall in ti_taken0.
  split; cbn; fold q; unfold WL_PACKET_SEQUENCE_MAX; try done.
  - lia.
  - unfold TX_SHIFT, TX_ACTIVE. by rewrite lor_add by lia.
  - intros _. split; [|done]. apply bits_taken_none, Forall_forall. intros t Ht. specialize (ti_taken0 t Ht). lia.
  - split; [done|]. apply Forall_forall. intros s Hs. specialize (Hst s Hs). cbn in Hst. lia.
  - intros s Hs _. apply ti_done0; [done|by right].
  - apply Forall_forall. intros t Ht. specialize (ti_taken0 t Ht). lia.
  - intros s f Hin Hdr. destruct (ti_closed0 s f Hin Hdr) as [H1 _]. split; [done|]. left.
    specialize (ti_taken0 _ Hin). cbn in ti_taken0. lia.
Qed.

(** The transmission was accepted. *)
Lemma accepted_tx x started taken low :
  tx_inv x started taken low → Z.land low TX_ACTIVE ≠ 0 → 0 < pp_tx_sequence (mc_port x) →
  Forall (λ s, s < pp_tx_sequence (mc_port x)) started →
  tx_inv x (started ++ [pp_tx_sequence (mc_port x)]) taken low.
Proof.
  intros [] Ha Hpos Hlt. destruct ti_started0 as [Hnd Hst]. rewrite Forall_forall in Hlt. split; try done.
  - split.
    + apply NoDup_app. split_and!; [done| |apply NoDup_singleton].
      intros s Hs ->%list_elem_of_singleton. specialize (Hlt _ Hs). cbn in Hlt. lia.
    + apply Forall_app. split; [done|]. by constructor; [lia|].
  - intros s [Hs| ->%list_elem_of_singleton]%elem_of_app Hor; [by apply ti_done0|]. lia.
Qed.

(** It was not: the word is bare again. *)
Lemma refused_tx x started taken low :
  tx_inv x started taken low → pp_tx_delivered (mc_port x) = 0 →
  Forall (λ s, s < pp_tx_sequence (mc_port x)) started → Forall (λ t, t.1 < pp_tx_sequence (mc_port x)) taken →
  tx_inv (set_port (mc_port x <| pp_tx_state := pp_tx_sequence (mc_port x) * 2 ^ TX_SHIFT |>) x) started taken 0.
Proof.
  intros [] Hd Hlt Htk. rewrite Forall_forall in Hlt. rewrite Forall_forall in Htk. split; cbn; try done.
  - lia.
  - by rewrite Hd.
  - intros s Hs _. apply ti_done0; [done|]. left. by apply Hlt.
  - intros s f Hin Hdr. destruct (ti_closed0 s f Hin Hdr) as [H1 _]. split; [done|]. left. exact (Htk _ Hin).
Qed.

Lemma submit_tx x data length x' e token started taken low :
  tx_inv x started taken low → wl_packet_tx_submit x data length = (x', e, token) →
  ∃ low', tx_inv x' (started ++ match token with Some t => [tk_sequence t] | None => [] end) taken low'.
Proof.
  intros Hi. unfold wl_packet_tx_submit.
  destruct (_ || _); [intros [= <- _ <-]; exists low; by rewrite app_nil_r|].
  destruct (negb _); [intros [= <- _ <-]; exists low; by rewrite app_nil_r|].
  destruct (wl_packet_tx_active (mc_port x)) eqn:Ea; [intros [= <- _ <-]; exists low; by rewrite app_nil_r|].
  destruct (_ =? WL_PACKET_SEQUENCE_MAX) eqn:Em; [intros [= <- _ <-]; exists low; by rewrite app_nil_r|].
  destruct (pc_submit _) as [f|]; [|intros [= <- _ <-]; exists low; by rewrite app_nil_r].
  assert (Z.land low TX_ACTIVE = 0) as Hidle.
  { unfold wl_packet_tx_active in Ea. rewrite (ti_state _ _ _ _ Hi), word_bits in Ea;
      [lia|apply (ti_low _ _ _ _ Hi)|by compute]. }
  destruct (fresh_tx x started taken low Hi Hidle ltac:(lia)) as (Es & Ew & H1).
  pose proof (ti_started _ _ _ _ Hi) as [_ Hst]. pose proof (ti_taken _ _ _ _ Hi) as Htk.
  pose proof (ti_sequence _ _ _ _ Hi) as Hq.
  set (s := u32 (pp_tx_sequence (mc_port x) + 1)) in *. cbn [tk_sequence pp_tx_sequence] in *.
  set (x1 := set_port _ x) in H1.
  match goal with |- context [call_submit ?f ?u ?d ?n ?t ?y] =>
    change y with x1; pose proof (Hsink f u d n t x1) as Hr; destruct (call_submit f u d n t x1) as [x2 r] end.
  cbn [fst] in Hr. destruct (sink_tx x1 x2 started taken 1 Hr H1) as (low2 & H2 & E2 & Eq & Ed).
  change (pp_tx_sequence (mc_port x1)) with s in Eq. change (pp_tx_delivered (mc_port x1)) with 0 in Ed.
  assert (Forall (λ s', s' < pp_tx_sequence (mc_port x2)) started) as Hlt
    by (eapply Forall_impl; [exact Hst|]; cbn; intros; lia).
  assert (Forall (λ t, t.1 < pp_tx_sequence (mc_port x2)) taken) as Hlt2
    by (eapply Forall_impl; [exact Htk|]; cbn; intros; lia).
  cbn -[wl_packet_tx_publish]. fold s. rewrite Ew, <- Eq.
  destruct r.
  - intros [= <- _ <-]. destruct (publish_tx x2 (mk_token (pc_instance (pp_config (mc_port x))) (pp_tx_sequence (mc_port x2)))
      WL_PACKET_DRAINED started taken low2 H2) as (low3 & H3 & E3). exists low3. cbn [tk_sequence].
    set (x3 := (wl_packet_tx_publish _ _ _).1) in *.
    assert (pp_tx_sequence (mc_port x3) = pp_tx_sequence (mc_port x2)) as E4
      by (unfold x3, wl_packet_tx_publish, wl_packet_activity; by repeat case_match).
    pose proof (accepted_tx x3 started taken low3 H3 ltac:(by rewrite E3, E2) ltac:(lia) ltac:(by rewrite E4)) as H5.
    rewrite E4 in H5. exact H5.
  - intros [= <- _ <-]. exists low2. apply accepted_tx; [done|by rewrite E2|lia|done].
  - intros [= <- _ <-]. exists 0. rewrite app_nil_r. by apply (refused_tx _ _ _ low2).
  - intros [= <- _ <-]. exists 0. rewrite app_nil_r. by apply (refused_tx _ _ _ low2).
Qed.

(** What a taking makes of the bits: the new ones are disjoint from those delivered, and
    together they are all that was published. *)
Lemma take_bits low d :
  0 <= low < 16 → 0 <= d < 16 → Z.ldiff d (Z.land low TX_FLAGS) = 0 →
  let f := Z.ldiff (Z.land low TX_FLAGS) d in
  0 <= f < 16 ∧ Z.land d f = 0 ∧ Z.lor d f = Z.land low TX_FLAGS ∧ 0 <= Z.lor d f < 16 ∧
  Z.land (Z.lor d f) WL_PACKET_DRAINED = Z.land low WL_PACKET_DRAINED ∧
  Z.land (Z.lor d f) WL_PACKET_CONSUMED = Z.land low WL_PACKET_CONSUMED ∧
  0 <= Z.ldiff low TX_ACTIVE < 16 ∧ Z.land (Z.ldiff low TX_ACTIVE) TX_FLAGS = Z.land low TX_FLAGS ∧
  Z.land (Z.ldiff low TX_ACTIVE) TX_ACTIVE = 0.
Proof.
  intros Hl Hd Hsub. cbv zeta.
  pose proof (forall_nibbles (λ l d, implb (Z.ldiff d (Z.land l TX_FLAGS) =? 0)
    (let f := Z.ldiff (Z.land l TX_FLAGS) d in
     (0 <=? f) && (f <? 16) && (Z.land d f =? 0) && (Z.lor d f =? Z.land l TX_FLAGS) && (0 <=? Z.lor d f) &&
     (Z.lor d f <? 16) && (Z.land (Z.lor d f) WL_PACKET_DRAINED =? Z.land l WL_PACKET_DRAINED) &&
     (Z.land (Z.lor d f) WL_PACKET_CONSUMED =? Z.land l WL_PACKET_CONSUMED) &&
     (0 <=? Z.ldiff l TX_ACTIVE) && (Z.ldiff l TX_ACTIVE <? 16) &&
     (Z.land (Z.ldiff l TX_ACTIVE) TX_FLAGS =? Z.land l TX_FLAGS) &&
     (Z.land (Z.ldiff l TX_ACTIVE) TX_ACTIVE =? 0))) ltac:(by_compute) low d Hl Hd) as H.
  cbv beta zeta in H. rewrite (proj2 (Z.eqb_eq _ _) Hsub) in H. cbn [implb] in H. lia.
Qed.

Lemma idle_bits low :
  0 <= low < 16 →
  Z.land (Z.ldiff low TX_ACTIVE) WL_PACKET_DRAINED = Z.land low WL_PACKET_DRAINED ∧
  Z.land (Z.ldiff low TX_ACTIVE) WL_PACKET_CONSUMED = Z.land low WL_PACKET_CONSUMED.
Proof.
  intros Hl. pose proof (forall_nibbles (λ l _,
    (Z.land (Z.ldiff l TX_ACTIVE) WL_PACKET_DRAINED =? Z.land l WL_PACKET_DRAINED) &&
    (Z.land (Z.ldiff l TX_ACTIVE) WL_PACKET_CONSUMED =? Z.land l WL_PACKET_CONSUMED)) ltac:(by_compute) low low Hl Hl). lia.
Qed.

Lemma word_ldiff s low : 0 <= low < 16 → Z.ldiff (s * 2 ^ TX_SHIFT + low) TX_ACTIVE = s * 2 ^ TX_SHIFT + Z.ldiff low TX_ACTIVE.
Proof.
  intros Hl. unfold TX_SHIFT. assert (0 <= Z.ldiff low TX_ACTIVE < 16) as Hd.
  { pose proof (forall_nibbles (λ a b, (0 <=? Z.ldiff a TX_ACTIVE) && (Z.ldiff a TX_ACTIVE <? 16)) ltac:(by_compute)
      low low Hl Hl). lia. }
  rewrite <- !lor_add by lia. bit_ext i. rewrite !Z.ldiff_spec, Z.lor_spec.
  destruct (decide (i = 0)) as [->|Hi].
  - assert (Z.testbit (s * 2 ^ 4) 0 = false) as -> by (rewrite Z.mul_pow2_bits_low by lia; done).
    by rewrite !andb_false_r.
  - assert (Z.testbit TX_ACTIVE i = false) as -> by (apply (testbit_above _ _ 1); unfold TX_ACTIVE; lia).
    by rewrite !andb_true_r.
Qed.

(** The log after one more taking from the open transmission. *)
Lemma once_snoc (taken : list (Z * Z)) q d f :
  (∀ i j s f g, (i < j)%nat → taken !! i = Some (s, f) → taken !! j = Some (s, g) →
     Z.land f g = 0 ∧ Z.land f WL_PACKET_DRAINED = 0) →
  bits_taken q taken = d → Z.land d f = 0 → Z.land d WL_PACKET_DRAINED = 0 →
  ∀ i j s g h, (i < j)%nat → (taken ++ [(q, f)]) !! i = Some (s, g) → (taken ++ [(q, f)]) !! j = Some (s, h) →
    Z.land g h = 0 ∧ Z.land g WL_PACKET_DRAINED = 0.
Proof.
  intros Honce Hb Hdis Hnd i j s g h Hij Hg Hh.
  assert (j < S (length taken))%nat as Hj by (apply lookup_lt_Some in Hh; rewrite length_app in Hh; cbn in Hh; lia).
  rewrite lookup_app_l in Hg by lia. destruct (decide (j < length taken)%nat) as [Hlt|Hge].
  { rewrite lookup_app_l in Hh by done. by apply (Honce i j s). }
  rewrite lookup_app_r in Hh by lia. replace (j - length taken)%nat with 0%nat in Hh by lia. injection Hh as <- <-.
  pose proof (bits_taken_elem q g taken (list_elem_of_lookup_2 _ _ _ Hg)) as Eg. rewrite Hb in Eg.
  rewrite <- Eg, <- !Z.land_assoc, Hdis, Hnd. by rewrite Z.land_0_r.
Qed.

Lemma taken_mono s (taken k : list (Z * Z)) mask :
  Z.land (bits_taken s taken) mask ≠ 0 → Z.land (bits_taken s (taken ++ k)) mask ≠ 0.
Proof.
  intros H. rewrite bits_taken_app, Z.land_lor_distr_l. intros E. by apply Z.lor_eq_0_iff in E as [].
Qed.

Lemma take_tx x p flags token started taken low :
  tx_inv x started taken low → wl_packet_tx_take (mc_port x) = (p, flags, token) →
  ∃ low', tx_inv (set_port p x) started
    (taken ++ if flags =? 0 then [] else [(tk_sequence token, flags)]) low'.
Proof.
  intros Hi. destruct Hi. set (q := pp_tx_sequence (mc_port x)) in *. set (d := pp_tx_delivered (mc_port x)) in *.
  destruct ti_delivered0 as [Hd Hsub]. destruct ti_low0 as [Hlow Hcl].
  destruct (take_bits low d Hlow Hd Hsub) as (Hf & Hdis & Hall & Hr & Hdr & Hco & Hl' & Hsame & Hoff).
  assert (undelivered (mc_port x) = Z.ldiff (Z.land low TX_FLAGS) d) as Eu.
  { unfold undelivered. rewrite ti_state0, word_bits by (done || by compute). done. }
  unfold wl_packet_tx_take. rewrite Eu, ti_state0, word_bits by (done || by compute).
  set (f := Z.ldiff (Z.land low TX_FLAGS) d) in *.
  assert (tx_inv (set_port (mc_port x) x) started taken low) as Hkeep by by split.
  destruct (Z.eqb_spec (Z.land low TX_ACTIVE) 0) as [Ea|Ea].
  { intros [= <- <- <-]. exists low. by rewrite app_nil_r. }
  destruct (f =? 0) eqn:Ef.
  { intros [= <- <- <-]. exists low. by rewrite app_nil_r. }
  assert (Z.shiftr (q * 2 ^ TX_SHIFT + low) TX_SHIFT = q) as ->.
  { unfold TX_SHIFT. rewrite Z.shiftr_div_pow2 by lia. symmetry. apply (Z.div_unique _ _ _ low); lia. }
  intros [= <- <- <-]. rewrite Ef. cbn [tk_sequence].
  destruct (ti_open0 Ea) as [Hbits Hnd].
  exists (if negb (Z.land f WL_PACKET_DRAINED =? 0) then Z.ldiff low TX_ACTIVE else low).
  assert (Z.land f WL_PACKET_DRAINED ≠ 0 → Z.land low WL_PACKET_DRAINED ≠ 0) as Hfl.
  { rewrite <- Hdr, Z.land_lor_distr_l. intros Hne E. by apply Z.lor_eq_0_iff in E as []. }
  destruct (Z.eqb_spec (Z.land f WL_PACKET_DRAINED) 0) as [E4|E4]; cbn [negb].
  - assert (bits_taken q (taken ++ [(q, f)]) = Z.lor d f) as Eb.
    { rewrite bits_taken_app, Hbits. unfold bits_taken. cbn. by rewrite Z.eqb_refl, Z.lor_0_r. }
    split; cbn; fold q d; try done.
    + split; [done|]. rewrite Hall. apply Z.ldiff_diag.
    + intros _. split; [done|]. by rewrite Z.land_lor_distr_l, Hnd, E4.
    + intros s Hs Hor. destruct (ti_done0 s Hs Hor) as (g & Hg & Hgd). exists g. split; [|done]. set_solver.
    + apply Forall_app. split; [done|]. constructor; [|done]. cbn. lia.
    + by apply (once_snoc taken q d f).
    + intros s g [Hin|E%list_elem_of_singleton]%elem_of_app Hgd.
      * destruct (ti_closed0 s g Hin Hgd) as [H1 H2]. split; [by apply taken_mono|done].
      * injection E as -> ->. done.
  - assert (bits_taken q (taken ++ [(q, f)]) = Z.lor d f) as Eb.
    { rewrite bits_taken_app, Hbits. unfold bits_taken. cbn. by rewrite Z.eqb_refl, Z.lor_0_r. }
    assert (Z.land (Z.lor d f) WL_PACKET_CONSUMED ≠ 0) as Hcons by (rewrite Hco; by apply Hcl, Hfl).
    split; cbn; fold q d; rewrite ?Hoff; try done.
    + rewrite ti_state0. by apply word_ldiff.
    + split; [done|]. destruct (idle_bits low Hlow) as [-> ->]. done.
    + split; [done|]. rewrite Hsame, Hall. apply Z.ldiff_diag.
    + intros s Hs _. destruct ti_started0 as [_ Hst]. rewrite Forall_forall in Hst. specialize (Hst s Hs). cbn in Hst.
      destruct (decide (s = q)) as [->|Hne]; [exists f; split; [set_solver|done]|].
      destruct (ti_done0 s Hs) as (g & Hg & Hgd); [lia|]. exists g. split; [|done]. set_solver.
    + apply Forall_app. split; [done|]. constructor; [|done]. cbn. lia.
    + by apply (once_snoc taken q d f).
    + intros s g [Hin|E%list_elem_of_singleton]%elem_of_app Hgd.
      * destruct (ti_closed0 s g Hin Hgd) as [H1 H2]. split; [by apply taken_mono|by right].
      * injection E as -> ->. rewrite Eb. split; [done|by right].
Qed.

Lemma packet_step_tx x ev x' started taken low :
  packet_step x ev x' → tx_inv x started taken low →
  ∃ low', tx_inv x' (started ++ started_in ev) (taken ++ taken_in ev) low'.
Proof.
  assert (∀ y, same_tx x y → tx_inv x started taken low → ∃ low', tx_inv y (started ++ []) (taken ++ []) low') as Hsame
    by (intros y Hy Hi; exists low; rewrite !app_nil_r; by apply (same_tx_inv x)).
  intros [maximum|a b Ha|claim length x1 e Hl Hc|claim|token flags| |p r Hb|b|data length x1 e token Hs
    |p flags token Ht| |] Hi.
  - apply Hsame; [|done]. unfold wl_packet_rx_claim. by repeat case_match.
  - by apply Hsame.
  - assert (same_tx x x1) as H.
    { revert Hc. unfold wl_packet_rx_commit. repeat case_match; intros [= <- _]; try done;
        (etrans; [|apply activity_tx]); done. }
    destruct (is_ok e); by apply Hsame.
  - apply Hsame; [|done]. unfold wl_packet_rx_abort. case_match; [done|]. etrans; [|apply activity_tx]. done.
  - rewrite !app_nil_r. destruct (publish_tx x token flags started taken low Hi) as (low' & H & _). by exists low'.
  - apply Hsame; [apply activity_tx|done].
  - assert (same_tx x (set_port p x)) as H.
    { revert Hb. unfold wl_packet_rx_borrow. repeat case_match; intros [= <- _]; done. }
    destruct r; by apply Hsame.
  - apply Hsame; [|done]. unfold wl_packet_rx_release. case_match; [done|]. etrans; [|apply activity_tx]. done.
  - destruct (submit_tx x data length x1 e token started taken low Hi Hs) as (low' & H). exists low'.
    destruct token; cbn; rewrite ?app_nil_r; by rewrite ?app_nil_r in H.
  - destruct (take_tx x p flags token started taken low Hi Ht) as (low' & H). exists low'.
    destruct (flags =? 0); cbn; rewrite ?app_nil_r; by rewrite ?app_nil_r in H.
  - by apply Hsame.
  - apply Hsame; [|done]. unfold wl_packet_stop. etrans; [|apply activity_tx]. done.
Qed.

Lemma packet_run_tx config x evs :
  packet_run config x evs → ∃ low, tx_inv x (started_in evs) (taken_in evs) low.
Proof.
  induction 1 as [m p0 p w Hp|x evs ev x' _ [low IH] Hstep].
  - exists 0. unfold wl_packet_init in Hp. destruct (_ || _); [done|]. injection Hp as <-.
    split; cbn; try done; try by (intros; set_solver).
    split; [constructor|done].
  - unfold started_in, taken_in. rewrite !omap_app. by apply (packet_step_tx x _ _ _ _ low).
Qed.

(** C30: each transmission the port accepted has its own sequence number; each of its
    completions is taken at most once; the drained one comes last, no later than that
    the source was consumed; and every transmission but an active one was drained, so
    that there is one at a time.  A publication counts only for the active
    transmission. *)
Theorem packet_tx_once config x evs :
  packet_run config x evs →
  let started := started_in evs in
  let taken := taken_in evs in
  NoDup started ∧
  (∀ i j s f g, (i < j)%nat → taken !! i = Some (s, f) → taken !! j = Some (s, g) →
     Z.land f g = 0 ∧ Z.land f WL_PACKET_DRAINED = 0) ∧
  (∀ s f, (s, f) ∈ taken → Z.land f WL_PACKET_DRAINED ≠ 0 →
     Z.land (bits_taken s taken) WL_PACKET_CONSUMED ≠ 0) ∧
  (∀ s, s ∈ started → s = pp_tx_sequence (mc_port x) ∧ wl_packet_tx_active (mc_port x) = true ∨
     ∃ f, (s, f) ∈ taken ∧ Z.land f WL_PACKET_DRAINED ≠ 0) ∧
  ∀ token flags, (wl_packet_tx_publish x token flags).2 = WL_OK →
    tk_instance token = pc_instance (pp_config (mc_port x)) ∧
    tk_sequence token = pp_tx_sequence (mc_port x) ∧ wl_packet_tx_active (mc_port x) = true.
Proof.
  intros Hrun. destruct (packet_run_tx config x evs Hrun) as [low []]. cbv zeta.
  assert (wl_packet_tx_active (mc_port x) = negb (Z.land low TX_ACTIVE =? 0)) as Eact.
  { unfold wl_packet_tx_active. rewrite ti_state0, word_bits by (apply ti_low0 || by compute). done. }
  destruct ti_started0 as [Hnd Hst]. split; [done|]. split; [done|]. split; [|split].
  - intros s f Hin Hdr. by apply (ti_closed0 s f).
  - intros s Hs. rewrite Forall_forall in Hst. specialize (Hst s Hs). cbn in Hst.
    destruct (Z.eqb_spec (Z.land low TX_ACTIVE) 0) as [E|E]; [right; apply ti_done0; [done|by right]|].
    destruct (decide (s = pp_tx_sequence (mc_port x))) as [->|Hne]; [left; by rewrite Eact|].
    right. apply ti_done0; [done|]. left. lia.
  - intros token flags. unfold wl_packet_tx_publish.
    destruct ((flags =? 0) || _); [done|]. destruct (negb (tk_instance token =? _)) eqn:E1; [done|].
    destruct (_ || (Z.land _ (implied_flags flags) =? _)) eqn:E2; [done|]. intros _.
    assert (Z.shiftr (pp_tx_state (mc_port x)) TX_SHIFT = pp_tx_sequence (mc_port x)) as Esh.
    { rewrite ti_state0. unfold TX_SHIFT. rewrite Z.shiftr_div_pow2 by lia. symmetry.
      apply (Z.div_unique _ _ _ low); [left; apply ti_low0|lia]. }
    rewrite Esh in E2. unfold wl_packet_tx_active. split_and!; lia.
Qed.
End Runs.
End Port.

(** ** A run *)

(** A sink that has read the source before it returns. *)
#[local] Instance demo_packet_code : PacketCode unit unit := {
  call_submit _ _ _ _ token x := ((wl_packet_tx_publish (code := {|
      call_submit _ _ _ _ _ y := (y, WL_PACKET_BUSY); call_packet_notify _ _ w := w |})
    x token WL_PACKET_CONSUMED).1, WL_PACKET_STARTED);
  call_packet_notify _ _ w := w;
}.

Lemma demo_sink_laws : sink_laws (F := unit) (W := unit).
Proof. intros [] u data length token x. apply rtc_once. exact (sink_publish x token WL_PACKET_CONSUMED). Qed.

Definition demo_packet_config : packet_config unit := mk_packet_config 7 1000 16 32 (Some tt) None 0.

Definition demo_port0 : machine unit unit :=
  mk_machine (λ a, a mod 256)
    (wl_packet_init true (mk_port demo_packet_config 0 0 0 false false false [] [] 0 0 0 0 0 false)
       demo_packet_config).1 tt.

Definition demo_claim : packet_claim := mk_packet_claim (mk_span 1000 8) (mk_token 7 1).

(** A packet is committed and borrowed. *)
Definition demo_port1 : machine unit unit :=
  let x := set_port (wl_packet_rx_claim (mc_port demo_port0) 8).1.1 demo_port0 in
  let x := (wl_packet_rx_commit x demo_claim 3).1 in
  set_port (wl_packet_rx_borrow (mc_port x)).1 x.

(** A transmission is started, drained and taken. *)
Definition demo_port2 : machine unit unit :=
  let x := (wl_packet_tx_submit demo_port1 2000 5).1.1 in
  let x := (wl_packet_tx_publish x (mk_token 7 1) WL_PACKET_DRAINED).1 in
  set_port (wl_packet_tx_take (mc_port x)).1.1 x.

Lemma demo_port1_run :
  packet_run demo_packet_config demo_port1 [Committed [232; 233; 234]; Borrowed [232; 233; 234]].
Proof.
  change [Committed [232; 233; 234]; Borrowed [232; 233; 234]] with
    ((([] ++ []) ++ [Committed [232; 233; 234]]) ++ [Borrowed [232; 233; 234]]).
  unfold demo_port1. cbv zeta.
  set (x1 := set_port (wl_packet_rx_claim (mc_port demo_port0) 8).1.1 demo_port0).
  set (x2 := (wl_packet_rx_commit x1 demo_claim 3).1).
  eapply prun_step; [eapply prun_step; [eapply prun_step|]|].
  - exact (prun_init demo_packet_config (λ a, a mod 256) (mc_port demo_port0) (mc_port demo_port0) tt eq_refl).
  - exact (ps_claim demo_port0 8).
  - refine (ps_commit x1 demo_claim 3 x2 WL_OK _ _); [lia|]. vm_compute. reflexivity.
  - refine (ps_borrow x2 _ (inr (mk_borrow 1000 3 (mk_token 7 1))) _). vm_compute. reflexivity.
Qed.

Lemma demo_port2_run :
  packet_run demo_packet_config demo_port2
    [Committed [232; 233; 234]; Borrowed [232; 233; 234]; Started 1; Taken 1 6].
Proof.
  change [Committed [232; 233; 234]; Borrowed [232; 233; 234]; Started 1; Taken 1 6] with
    ((([Committed [232; 233; 234]; Borrowed [232; 233; 234]] ++ [Started 1]) ++ []) ++ [Taken 1 6]).
  unfold demo_port2. cbv zeta. set (x1 := (wl_packet_tx_submit demo_port1 2000 5).1.1).
  set (x2 := (wl_packet_tx_publish x1 (mk_token 7 1) WL_PACKET_DRAINED).1).
  eapply prun_step; [eapply prun_step; [eapply prun_step; [exact demo_port1_run|]|]|].
  - refine (ps_submit demo_port1 2000 5 x1 WL_OK (Some (mk_token 7 1)) _). vm_compute. reflexivity.
  - exact (ps_publish x1 (mk_token 7 1) WL_PACKET_DRAINED).
  - refine (ps_take x2 _ 6 (mk_token 7 1) _). vm_compute. reflexivity.
Qed.

Lemma packet_rx_fifo_witness :
  let evs := [Committed [232; 233; 234]; Borrowed [232; 233; 234]] in
  committed evs = handed_over evs ++ rx_waiting demo_port1 ∧
  (pp_borrowed (mc_port demo_port1) = true →
     last (handed_over evs) = Some (unit_bytes demo_port1 (pp_read_cursor (mc_port demo_port1)))).
Proof.
  apply (packet_rx_fifo demo_sink_laws demo_packet_config demo_port1); [|exact demo_port1_run].
  unfold is_size. cbn. lia.
Defined.

Lemma packet_tx_once_witness :
  let started := [1] in
  let taken := [(1, 6)] in
  NoDup started ∧
  (∀ i j s f g, (i < j)%nat → taken !! i = Some (s, f) → taken !! j = Some (s, g) →
     Z.land f g = 0 ∧ Z.land f WL_PACKET_DRAINED = 0) ∧
  (∀ s f, (s, f) ∈ taken → Z.land f WL_PACKET_DRAINED ≠ 0 →
     Z.land (bits_taken s taken) WL_PACKET_CONSUMED ≠ 0) ∧
  (∀ s, s ∈ started → s = pp_tx_sequence (mc_port demo_port2) ∧ wl_packet_tx_active (mc_port demo_port2) = true ∨
     ∃ f, (s, f) ∈ taken ∧ Z.land f WL_PACKET_DRAINED ≠ 0) ∧
  ∀ token flags, (wl_packet_tx_publish demo_port2 token flags).2 = WL_OK →
    tk_instance token = pc_instance (pp_config (mc_port demo_port2)) ∧
    tk_sequence token = pp_tx_sequence (mc_port demo_port2) ∧ wl_packet_tx_active (mc_port demo_port2) = true.
Proof.
  exact (packet_tx_once demo_sink_laws demo_packet_config demo_port2 _ demo_port2_run).
Defined.
