(* ===== verification/Kernel.v ===== *)
(** The static endpoint kernel ([kernel.c]): four calls, nine transmit buffers and one
    owner over a packet port.

    The I/O side of the port runs at any time: [kernel_io] is what it did since the port
    was last looked at, and comes before every access.  Callbacks are interpreted over
    the whole system, so that they may start, cancel and send from within.  Two logs
    are kept for the statements only: the operations of the accepted calls, and the
    completions. *)
From S2P Require Import Prelude Crc Cobs Frame Slots KernelWire PacketPort.
#[local] Open Scope Z_scope.

Definition WL_KERNEL_CALLS : Z := 4.
Definition WL_KERNEL_TX_COUNT : Z := 9.
Definition WL_KERNEL_BUDGET : Z := 16.
Definition UINT8_MAX : Z := 2 ^ 8 - 1.
Definition NONE : Z := UINT8_MAX.
Definition REPLY_FIRST : Z := WL_KERNEL_CALLS.
Definition MESSAGE_TX : Z := WL_KERNEL_TX_COUNT - 1.

(** The two state enumerations of the source. *)
Inductive tx_slot_state := FREE | BUILDING | READY | LEASED.
Inductive call_slot_state := CALL_FREE | CALL_WAITING | CALL_TERMINAL.

#[export] Instance tx_slot_state_eq_dec : EqDecision tx_slot_state.
Proof. solve_decision. Defined.
#[export] Instance call_slot_state_eq_dec : EqDecision call_slot_state.
Proof. solve_decision. Defined.

(** [wl_kernel_outcome_t] *)
Inductive kernel_outcome :=
  | WL_KERNEL_SUCCESS
  | WL_KERNEL_REJECTED
  | WL_KERNEL_LOCAL_ERROR
  | WL_KERNEL_TIMED_OUT
  | WL_KERNEL_CANCELLED
  | WL_KERNEL_CLOSED.

(** [wl_kernel_result_t] and [wl_kernel_call_handle_t] *)
Record kernel_result := mk_kernel_result { kr_outcome : kernel_outcome; kr_status : Z }.
Record kernel_call_handle := mk_kernel_call_handle {
  kh_instance : Z;
  kh_generation : Z;
  kh_operation : Z;
  kh_slot : Z;
}.

(** [wl_kernel_tx_t] *)
Record kernel_tx := mk_kernel_tx {
  kt_storage : wl_span;
  kt_length : Z;
  kt_generation : Z;
  kt_message_id : Z;
  kt_state : tx_slot_state;
  kt_call_slot : Z;
}.

#[export] Instance kernel_tx_rebuild : Rebuild kernel_tx := λ t,
  mk_kernel_tx (kt_storage t) (kt_length t) (kt_generation t) (kt_message_id t) (kt_state t) (kt_call_slot t).

Section Types.
Context (F : Type).

(** [wl_kernel_call] *)
Record kernel_call := mk_kernel_call {
  kc_complete : option F;
  kc_callback : option F;
  kc_user : Z;
  kc_operation : Z;
  kc_generation : Z;
  kc_deadline : Z;
  kc_response_id : Z;
  kc_result : kernel_result;
  kc_state : call_slot_state;
  kc_sent : bool;
}.

(** [wl_kernel_config_t], beside its port *)
Record kernel_config := mk_kernel_config {
  kcf_tx_storage : list wl_span;
  kcf_route : option F;
  kcf_on_error : option F;
  kcf_user : Z;
}.

(** [wl_kernel], beside its port *)
Record kernel := mk_kernel {
  kn_route : option F;
  kn_on_error : option F;
  kn_user : Z;
  kn_calls : list kernel_call;
  kn_tx : list kernel_tx;
  kn_rx : packet_borrow;
  kn_flight_token : packet_token;
  kn_operation : Z;
  kn_flight : Z;
  kn_tx_cursor : Z;
  kn_call_cursor : Z;
  kn_rx_held : bool;
  kn_rx_blocked : bool;
  kn_tx_blocked : bool;
  kn_in_step : bool;
  kn_closed : bool;
}.
End Types.
Arguments mk_kernel_call {F}.
Arguments kc_complete {F}.
Arguments kc_callback {F}.
Arguments kc_user {F}.
Arguments kc_operation {F}.
Arguments kc_generation {F}.
Arguments kc_deadline {F}.
Arguments kc_response_id {F}.
Arguments kc_result {F}.
Arguments kc_state {F}.
Arguments kc_sent {F}.
Arguments mk_kernel_config {F}.
Arguments kcf_tx_storage {F}.
Arguments kcf_route {F}.
Arguments kcf_on_error {F}.
Arguments kcf_user {F}.
Arguments mk_kernel {F}.
Arguments kn_route {F}.
Arguments kn_on_error {F}.
Arguments kn_user {F}.
Arguments kn_calls {F}.
Arguments kn_tx {F}.
Arguments kn_rx {F}.
Arguments kn_flight_token {F}.
Arguments kn_operation {F}.
Arguments kn_flight {F}.
Arguments kn_tx_cursor {F}.
Arguments kn_call_cursor {F}.
Arguments kn_rx_held {F}.
Arguments kn_rx_blocked {F}.
Arguments kn_tx_blocked {F}.
Arguments kn_in_step {F}.
Arguments kn_closed {F}.

#[export] Instance kernel_call_rebuild {F} : Rebuild (kernel_call F) := λ c,
  mk_kernel_call (kc_complete c) (kc_callback c) (kc_user c) (kc_operation c) (kc_generation c)
    (kc_deadline c) (kc_response_id c) (kc_result c) (kc_state c) (kc_sent c).
#[export] Instance kernel_rebuild {F} : Rebuild (kernel F) := λ k,
  mk_kernel (kn_route k) (kn_on_error k) (kn_user k) (kn_calls k) (kn_tx k) (kn_rx k) (kn_flight_token k)
    (kn_operation k) (kn_flight k) (kn_tx_cursor k) (kn_call_cursor k) (kn_rx_held k) (kn_rx_blocked k)
    (kn_tx_blocked k) (kn_in_step k) (kn_closed k).

(** The kernel and the machine under it, with the two logs. *)
Record ksystem (F W : Type) := mk_ksystem {
  ks_kernel : kernel F;
  ks_machine : machine F W;
  ks_accepted : list Z;
  ks_completed : list (Z * kernel_result);
}.
Arguments mk_ksystem {F W}.
Arguments ks_kernel {F W}.
Arguments ks_machine {F W}.
Arguments ks_accepted {F W}.
Arguments ks_completed {F W}.

#[export] Instance ksystem_rebuild {F W} : Rebuild (ksystem F W) := λ s,
  mk_ksystem (ks_kernel s) (ks_machine s) (ks_accepted s) (ks_completed s).

(** The functions of the generated code and the user, and the I/O side. *)
Class KernelCode (F W : Type) := {
  call_kernel_encode : F → Z → Z → Z → machine F W → machine F W * wl_err * Z;
  call_kernel_complete : F → kernel_call F → kernel_result → Z → Z → ksystem F W → ksystem F W;
  call_kernel_route : F → wl_kernel_frame → ksystem F W → ksystem F W * wl_err;
  call_kernel_error : F → Z → Z → wl_err → ksystem F W → ksystem F W;
  kernel_io : machine F W → machine F W;
}.

Section Kernel.
Context {F W : Type} {pcode : PacketCode F W} {code : KernelCode F W}.
Notation sys := (ksystem F W).

Definition kernel_call_zero : kernel_call F :=
  mk_kernel_call None None 0 0 0 0 0 (mk_kernel_result WL_KERNEL_SUCCESS 0) CALL_FREE false.
Definition kernel_tx_zero (storage : wl_span) : kernel_tx := mk_kernel_tx storage 0 0 0 FREE 0.

Definition call_of (k : kernel F) (i : nat) : kernel_call F := default kernel_call_zero (kn_calls k !! i).
Definition tx_of (k : kernel F) (i : nat) : kernel_tx := default (kernel_tx_zero (mk_span NULL 0)) (kn_tx k !! i).
Definition set_call (k : kernel F) (i : nat) (c : kernel_call F) : kernel F :=
  k <| kn_calls := <[i := c]> (kn_calls k) |>.
Definition set_tx (k : kernel F) (i : nat) (t : kernel_tx) : kernel F := k <| kn_tx := <[i := t]> (kn_tx k) |>.

Definition on_kernel (f : kernel F → kernel F) (sy : sys) : sys := sy <| ks_kernel := f (ks_kernel sy) |>.
Definition set_memory (m : mem) (sy : sys) : sys := sy <| ks_machine := ks_machine sy <| mc_mem := m |> |>.

(** The I/O side has run. *)
Definition io (sy : sys) : sys := sy <| ks_machine := kernel_io (ks_machine sy) |>.
Definition kport (sy : sys) : packet_port F := mc_port (ks_machine sy).

Definition instance (sy : sys) : Z := pc_instance (pp_config (kport sy)).

Definition expired (now deadline : Z) : bool := u32 (now - deadline) <=? INT32_MAX.

(** [first] to [end]: [n] buffers from [i] on. *)
Fixpoint free_tx (k : kernel F) (n i : nat) : option nat :=
  match n with
  | O => None
  | S n => if bool_decide (kt_state (tx_of k i) = FREE) then Some i else free_tx k n (S i)
  end.

Definition free_request (k : kernel F) : option nat := free_tx k 4 0.
Definition free_reply (k : kernel F) : option nat := free_tx k 4 4.

(** The room buffer [i] must have. *)
Definition tx_minimum (i : nat) : Z :=
  if Z.of_nat i <? WL_KERNEL_CALLS then 17 else if Z.of_nat i <? MESSAGE_TX then 21 else WL_KERNEL_NATIVE_HEADER.

Fixpoint storage_short (i : nat) (storage : list wl_span) : bool :=
  match storage with
  | [] => false
  | s :: rest => (span_data s =? NULL) || (span_length s <? tx_minimum i) || storage_short (S i) rest
  end.

Definition wl_kernel_init (k : kernel F) (p : packet_port F) (config : kernel_config F) : kernel F * wl_err :=
  if bool_decide (kcf_route config = None) || (pc_instance (pp_config p) =? 0) then (k, WL_ERR_INVALID_ARG)
  else if storage_short 0 (kcf_tx_storage config) then (k, WL_ERR_INVALID_ARG)
  else
    (mk_kernel (kcf_route config) (kcf_on_error config) (kcf_user config) (replicate 4 kernel_call_zero)
       (kernel_tx_zero <$> kcf_tx_storage config) (mk_borrow NULL 0 token_zero) token_zero 0 NONE 0 0
       false false false false false, WL_OK).

(** ** Encoding and admission *)

Definition encode_frame (sy : sys) (i : nat) (id prefix value : Z) (encode : F) : sys * wl_err :=
  let tx := tx_of (ks_kernel sy) i in
  let data := span_data (kt_storage tx) in
  let room := span_length (kt_storage tx) in
  if prefix >? room then (sy, WL_ERR_BUF_TOO_SMALL)
  else
    let '(x, error, length) := call_kernel_encode encode value (data + prefix) (room - prefix) (ks_machine sy) in
    let sy := sy <| ks_machine := x |> in
    if negb (is_ok error) then (sy, error)
    else if length >? room - prefix then (sy, WL_ERR_BUF_TOO_SMALL)
    else
      let '(m, error) :=
        wl_kernel_native_none_seal (mc_mem (ks_machine sy)) data room id
          (prefix - WL_KERNEL_NATIVE_HEADER + length) in
      let sy := set_memory m sy in
      if is_ok error then
        (on_kernel (λ k, set_tx k i (tx_of k i <| kt_message_id := id |> <| kt_length := prefix + length |>
                                               <| kt_state := READY |>)) sy, WL_OK)
      else (sy, error).

(** A free call slot whose generations are not exhausted. *)
Definition free_call (k : kernel F) : option nat :=
  fst <$> list_find (λ c, kc_state c = CALL_FREE ∧ kc_generation c ≠ UINT32_MAX) (kn_calls k).

(** The metadata in front of the payload of buffer [i]. *)
Definition write_metadata (sy : sys) (i : nat) (session operation status : Z) : sys * wl_err * Z :=
  let tx := tx_of (ks_kernel sy) i in
  let '(m, error, header) :=
    wl_kernel_rpc_write (mc_mem (ks_machine sy)) (span_data (kt_storage tx) + WL_KERNEL_NATIVE_HEADER)
      (usize (span_length (kt_storage tx) - WL_KERNEL_NATIVE_HEADER)) session operation status in
  (set_memory m sy, error, header).

(** The call takes its slot, and its request the buffer. *)
Definition admit_call (sy : sys) (slot tx_index : nat) (operation response_id deadline : Z) (complete callback : F)
    (user : Z) : sys :=
  let sy := on_kernel (λ k,
    let call := call_of k slot in
    let generation := u32 (kc_generation call + 1) in
    let k := set_call k slot
      (mk_kernel_call (Some complete) (Some callback) user operation generation deadline response_id
         (kc_result call) CALL_WAITING false) in
    let k := set_tx k tx_index (tx_of k tx_index <| kt_call_slot := Z.of_nat slot |> <| kt_generation := generation |>) in
    k <| kn_operation := operation |>) sy in
  sy <| ks_accepted := ks_accepted sy ++ [operation] |>.

(** The last component is what is stored through [out]; without a handle that is zero. *)
Definition wl_kernel_call_start (sy : sys) (request_id response_id value : Z) (encode : option F)
    (now timeout : Z) (complete callback : option F) (user : Z) : sys * wl_err * option kernel_call_handle :=
  match encode, complete, callback with
  | Some encode, Some complete, Some callback =>
      if (request_id =? 0) || (response_id =? 0) || (request_id =? response_id) || (timeout =? 0) ||
         (timeout >? INT32_MAX) then (sy, WL_ERR_INVALID_ARG, None)
      else if kn_closed (ks_kernel sy) then (sy, WL_ERR_INVALID_STATE, None)
      else if kn_operation (ks_kernel sy) =? UINT32_MAX then (sy, WL_ERR_ID_EXHAUSTED, None)
      else
        match free_call (ks_kernel sy) with
        | None =>
            (sy, if bool_decide (Exists (λ c, kc_state c = CALL_FREE) (kn_calls (ks_kernel sy)))
                 then WL_ERR_ID_EXHAUSTED else WL_ERR_WOULD_BLOCK, None)
        | Some slot =>
            match free_request (ks_kernel sy) with
            | None => (sy, WL_ERR_WOULD_BLOCK, None)
            | Some tx_index =>
                let operation := u32 (kn_operation (ks_kernel sy) + 1) in
                let '(sy, error, header) := write_metadata sy tx_index (instance sy) operation 0 in
                let '(sy, error) :=
                  if is_ok error
                  then encode_frame sy tx_index request_id (WL_KERNEL_NATIVE_HEADER + header) value encode
                  else (sy, error) in
                if negb (is_ok error) then (sy, error, None)
                else
                  let sy := admit_call sy slot tx_index operation response_id (u32 (now + timeout)) complete
                              callback user in
                  (sy, WL_OK, Some (mk_kernel_call_handle (instance sy) (kc_generation (call_of (ks_kernel sy) slot))
                                      operation (Z.of_nat slot)))
            end
        end
  | _, _, _ => (sy, WL_ERR_INVALID_ARG, None)
  end.

(** A call that has an outcome and waits for its callback. *)
Definition terminate_call (slot : nat) (result : kernel_result) (k : kernel F) : kernel F :=
  set_call k slot (call_of k slot <| kc_state := CALL_TERMINAL |> <| kc_result := result |>).

Definition wl_kernel_cancel (sy : sys) (handle : kernel_call_handle) : sys * wl_err :=
  if negb (kh_instance handle =? instance sy) || (kh_slot handle >=? WL_KERNEL_CALLS)
  then (sy, WL_ERR_NOT_FOUND)
  else
    let slot := Z.to_nat (kh_slot handle) in
    let call := call_of (ks_kernel sy) slot in
    if bool_decide (kc_state call ≠ CALL_WAITING) || negb (kc_generation call =? kh_generation handle) ||
       negb (kc_operation call =? kh_operation handle) then (sy, WL_ERR_NOT_FOUND)
    else
      (on_kernel (terminate_call slot (mk_kernel_result WL_KERNEL_CANCELLED (wl_err_code WL_ERR_CANCELLED))) sy,
       WL_OK).

Definition wl_kernel_send (sy : sys) (id value : Z) (encode : option F) : sys * wl_err :=
  match encode with
  | None => (sy, WL_ERR_INVALID_ARG)
  | Some encode =>
      if id =? 0 then (sy, WL_ERR_INVALID_ARG)
      else if kn_closed (ks_kernel sy) then (sy, WL_ERR_INVALID_STATE)
      else if bool_decide (kt_state (tx_of (ks_kernel sy) (Z.to_nat MESSAGE_TX)) ≠ FREE)
      then (sy, WL_ERR_WOULD_BLOCK)
      else encode_frame sy (Z.to_nat MESSAGE_TX) id WL_KERNEL_NATIVE_HEADER value encode
  end.

(** ** Replies *)

Definition set_tx_state (i : nat) (state : tx_slot_state) (k : kernel F) : kernel F :=
  set_tx k i (tx_of k i <| kt_state := state |>).

Definition wl_kernel_reply_reserve (sy : sys) : sys * (wl_err + Z) :=
  let k := ks_kernel sy in
  if negb (kn_in_step k) || kn_closed k then (sy, inl WL_ERR_INVALID_STATE)
  else
    match free_reply k with
    | None => (sy, inl WL_ERR_WOULD_BLOCK)
    | Some i => (on_kernel (set_tx_state i BUILDING) sy, inr (Z.of_nat i))
    end.

Definition wl_kernel_reply_abort (sy : sys) (index : Z) : sys :=
  if (index >=? REPLY_FIRST) && (index <? MESSAGE_TX) &&
     bool_decide (kt_state (tx_of (ks_kernel sy) (Z.to_nat index)) = BUILDING)
  then on_kernel (set_tx_state (Z.to_nat index) FREE) sy else sy.

(** [session] and [operation] are those of the request; [status] is an [int32_t]. *)
Definition wl_kernel_reply_finish (sy : sys) (index id session operation status value : Z) (encode : option F)
    : sys * wl_err :=
  let i := Z.to_nat index in
  if (id =? 0) || negb (kn_in_step (ks_kernel sy)) || (index <? REPLY_FIRST) || (index >=? MESSAGE_TX) ||
     bool_decide (kt_state (tx_of (ks_kernel sy) i) ≠ BUILDING) || ((status =? 0) && bool_decide (encode = None))
  then (sy, WL_ERR_INVALID_ARG)
  else
    let '(sy, error, header) := write_metadata sy i session operation status in
    let '(sy, error) :=
      if negb (is_ok error) then (sy, error)
      else if status =? 0 then
        match encode with
        | Some encode => encode_frame sy i id (WL_KERNEL_NATIVE_HEADER + header) value encode
        | None => (sy, error)
        end
      else
        let tx := tx_of (ks_kernel sy) i in
        let '(m, error) :=
          wl_kernel_native_none_seal (mc_mem (ks_machine sy)) (span_data (kt_storage tx))
            (span_length (kt_storage tx)) id header in
        let sy := set_memory m sy in
        if is_ok error then
          (on_kernel (λ k, set_tx k i (tx <| kt_message_id := id |>
                                          <| kt_length := WL_KERNEL_NATIVE_HEADER + header |>
                                          <| kt_state := READY |>)) sy, WL_OK)
        else (sy, error) in
    (if is_ok error then sy else on_kernel (set_tx_state i FREE) sy, error).

(** ** Completion *)

(** The requests of generation [generation] of slot [slot] that were not submitted. *)
Definition drop_requests (slot generation : Z) (k : kernel F) : kernel F :=
  k <| kn_tx := imap (λ i t,
    if (Z.of_nat i <? WL_KERNEL_CALLS) && bool_decide (kt_state t = READY) && (kt_call_slot t =? slot) &&
       (kt_generation t =? generation) then t <| kt_state := FREE |> else t) (kn_tx k) |>.

Definition finish_call (sy : sys) (slot : nat) (result : kernel_result) (body length : Z) : sys :=
  let saved := call_of (ks_kernel sy) slot in
  let sy := on_kernel (λ k,
    drop_requests (Z.of_nat slot) (kc_generation saved)
      (set_call k slot (call_of k slot <| kc_state := CALL_FREE |>))) sy in
  let sy := sy <| ks_completed := ks_completed sy ++ [(kc_operation saved, result)] |> in
  match kc_complete saved with
  | Some complete => call_kernel_complete complete saved result body length sy
  | None => sy
  end.

Definition wl_kernel_response (sy : sys) (id data length : Z) : sys * wl_err :=
  if negb (kn_in_step (ks_kernel sy)) then (sy, WL_ERR_INVALID_STATE)
  else
    match wl_kernel_rpc_read (mc_mem (ks_machine sy)) data length false with
    | inl error => (sy, error)
    | inr metadata =>
        if negb (md_session metadata =? instance sy) then (sy, WL_OK)
        else
          match list_find (λ c, kc_state c = CALL_WAITING ∧ kc_sent c = true ∧
                                kc_operation c = md_operation metadata ∧ kc_response_id c = id)
                  (kn_calls (ks_kernel sy)) with
          | None => (sy, WL_OK)
          | Some (slot, _) =>
              let outcome := if md_status metadata =? 0 then WL_KERNEL_SUCCESS else WL_KERNEL_REJECTED in
              (finish_call sy slot (mk_kernel_result outcome (md_status metadata)) (md_body metadata)
                 (md_length metadata), WL_OK)
          end
    end.

Definition report (sy : sys) (id : Z) (error : wl_err) : sys * wl_err :=
  match kn_on_error (ks_kernel sy) with
  | Some f => (if is_ok error then sy else call_kernel_error f (kn_user (ks_kernel sy)) id error sy, error)
  | None => (sy, error)
  end.

(** The call request buffer [i] belongs to still waits. *)
Definition owns_call (k : kernel F) (i : nat) : bool :=
  let t := tx_of k i in
  let call := call_of k (Z.to_nat (kt_call_slot t)) in
  bool_decide (kc_state call = CALL_WAITING) && (kc_generation call =? kt_generation t).

(** The call of request buffer [i], if it still waits, ends with a local error. *)
Definition fail_request (i : nat) (error : wl_err) (k : kernel F) : kernel F :=
  if (Z.of_nat i <? WL_KERNEL_CALLS) && owns_call k i
  then terminate_call (Z.to_nat (kt_call_slot (tx_of k i)))
         (mk_kernel_result WL_KERNEL_LOCAL_ERROR (wl_err_code error)) k
  else k.

Definition complete_tx (sy : sys) : sys * wl_err :=
  let sy := io sy in
  let '(p, flags, token) := wl_packet_tx_take (kport sy) in
  let sy := sy <| ks_machine := set_port p (ks_machine sy) |> in
  let k := ks_kernel sy in
  if (flags =? 0) || (kn_flight k =? NONE) then (sy, WL_OK)
  else if negb (tk_instance token =? tk_instance (kn_flight_token k)) ||
          negb (tk_sequence token =? tk_sequence (kn_flight_token k)) then (sy, WL_ERR_INVALID_STATE)
  else
    let i := Z.to_nat (kn_flight k) in
    let '(sy, error) :=
      if negb (Z.land flags WL_PACKET_TX_ERROR =? 0)
      then report (on_kernel (fail_request i WL_ERR_IO) sy) (kt_message_id (tx_of k i)) WL_ERR_IO
      else (sy, WL_OK) in
    (if negb (Z.land flags WL_PACKET_DRAINED =? 0)
     then on_kernel (λ k, set_tx_state i FREE k <| kn_flight := NONE |> <| kn_tx_blocked := false |>) sy
     else sy, error).

(** [n] slots are left to look at. *)
Fixpoint terminal (n : nat) (sy : sys) (now : Z) (generations : list Z) : sys * bool :=
  match n with
  | O => (sy, false)
  | S n =>
      let slot := Z.to_nat (kn_call_cursor (ks_kernel sy) mod WL_KERNEL_CALLS) in
      let sy := on_kernel (λ k, k <| kn_call_cursor := u8 (kn_call_cursor k + 1) |>) sy in
      let call := call_of (ks_kernel sy) slot in
      if negb (kc_generation call =? default 0 (generations !! slot)) || bool_decide (kc_state call = CALL_FREE)
      then terminal n sy now generations
      else if bool_decide (kc_state call = CALL_WAITING) && negb (expired now (kc_deadline call))
      then terminal n sy now generations
      else
        let result :=
          if bool_decide (kc_state call = CALL_TERMINAL) then kc_result call
          else mk_kernel_result WL_KERNEL_TIMED_OUT (wl_err_code WL_ERR_TIMEOUT) in
        (finish_call sy slot result NULL 0, true)
  end.

(** ** Transmission and reception *)

(** Buffer [i], which is ready, goes to the port. *)
Definition submit_ready (sy : sys) (i : nat) : sys * option wl_err :=
  let tx := tx_of (ks_kernel sy) i in
  let sy := io sy in
  let '(x, error, token) := wl_packet_tx_submit (ks_machine sy) (span_data (kt_storage tx)) (kt_length tx) in
  let sy := sy <| ks_machine := x |> in
  let sy := on_kernel (λ k, k <| kn_flight_token := default (kn_flight_token k) token |>) sy in
  match error with
  | WL_ERR_WOULD_BLOCK => (on_kernel (λ k, k <| kn_tx_blocked := true |>) sy, None)
  | WL_OK =>
      (on_kernel (λ k,
         let k := set_tx_state i LEASED (k <| kn_flight := u8 (Z.of_nat i) |>) in
         let slot := Z.to_nat (kt_call_slot (tx_of k i)) in
         if (Z.of_nat i <? WL_KERNEL_CALLS) && owns_call k i
         then set_call k slot (call_of k slot <| kc_sent := true |>) else k) sy, None)
  | error =>
      let sy := on_kernel (λ k, set_tx_state i FREE (fail_request i error k)) sy in
      let '(sy, error) := report sy (kt_message_id tx) error in (sy, Some error)
  end.

(** Some error is what is stored through [out_error]. *)
Fixpoint submit_loop (n : nat) (sy : sys) : sys * bool * option wl_err :=
  match n with
  | O => (sy, false, None)
  | S n =>
      let index := kn_tx_cursor (ks_kernel sy) in
      let i := Z.to_nat index in
      let sy := on_kernel (λ k, k <| kn_tx_cursor := u8 ((index + 1) mod WL_KERNEL_TX_COUNT) |>) sy in
      if bool_decide (kt_state (tx_of (ks_kernel sy) i) ≠ READY) then submit_loop n sy
      else if (index <? WL_KERNEL_CALLS) && negb (owns_call (ks_kernel sy) i)
      then submit_loop n (on_kernel (set_tx_state i FREE) sy)
      else let '(sy, error) := submit_ready sy i in (sy, true, error)
  end.

Definition submit_tx (sy : sys) : sys * bool * option wl_err :=
  let sy := io sy in
  if kn_closed (ks_kernel sy) || kn_tx_blocked (ks_kernel sy) || wl_packet_tx_active (kport sy)
  then (sy, false, None)
  else submit_loop (Z.to_nat WL_KERNEL_TX_COUNT) sy.

(** The reply buffer a blocked reception waits for is free. *)
Definition reply_free (k : kernel F) : bool := bool_decide (free_reply k ≠ None).

(** The packet held is routed, and released unless the route was blocked. *)
Definition process_packet (sy : sys) : sys * option wl_err :=
  let rx := kn_rx (ks_kernel sy) in
  let '(sy, error, id) :=
    if kn_closed (ks_kernel sy) then (sy, WL_OK, 0)
    else
      match wl_kernel_native_none_read (mc_mem (ks_machine sy)) (pb_data rx) (pb_length rx) with
      | inl error => (sy, error, 0)
      | inr frame =>
          match kn_route (ks_kernel sy) with
          | Some route => let '(sy, error) := call_kernel_route route frame sy in (sy, error, kf_message_id frame)
          | None => (sy, WL_OK, 0)
          end
      end in
  if bool_decide (error = WL_ERR_WOULD_BLOCK)
  then (on_kernel (λ k, k <| kn_rx_blocked := true |>) sy, None)
  else
    let sy := io (on_kernel (λ k, k <| kn_rx_blocked := false |> <| kn_rx_held := false |>) sy) in
    let sy := sy <| ks_machine := (wl_packet_rx_release (ks_machine sy) (kn_rx (ks_kernel sy))).1 |> in
    if is_ok error then (sy, None) else let '(sy, error) := report sy id error in (sy, Some error).

Definition receive (sy : sys) : sys * bool * option wl_err :=
  let k := ks_kernel sy in
  if kn_rx_blocked k && negb (kn_closed k) && negb (reply_free k) then (sy, false, None)
  else
    let '(sy, held) :=
      if kn_rx_held k then (sy, true)
      else
        let sy := io sy in
        let '(p, taken) := wl_packet_rx_borrow (kport sy) in
        let sy := sy <| ks_machine := set_port p (ks_machine sy) |> in
        match taken with
        | inl _ => (sy, false)
        | inr rx => (on_kernel (λ k, k <| kn_rx := rx |> <| kn_rx_held := true |>) sy, true)
        end in
    if held then let '(sy, error) := process_packet sy in (sy, true, error) else (sy, false, None).

(** ** The owner's step *)

(** [if (count < budget && f(...)) ++count], with the error [f] stores. *)
Definition attempt (budget : Z) (f : sys → sys * bool * option wl_err) (st : sys * Z * wl_err) : sys * Z * wl_err :=
  let '(sy, count, error) := st in
  if count <? budget then
    let '(sy, did, stored) := f sy in (sy, if did : bool then count + 1 else count, default error stored)
  else (sy, count, error).

(** One round of the loop. *)
Definition step_round (sy : sys) (now : Z) (generations : list Z) (budget count : Z) : sys * Z * wl_err :=
  let sy := io sy in
  let st :=
    if wl_packet_tx_ready (kport sy) then let '(sy, error) := complete_tx sy in (sy, count + 1, error)
    else (sy, count, WL_OK) in
  let st := attempt budget (λ sy, (terminal (Z.to_nat WL_KERNEL_CALLS) sy now generations, None)) st in
  let st := attempt budget submit_tx st in
  attempt budget receive st.

(** A round that goes on has used some of the budget, so [budget] rounds are enough. *)
Fixpoint step_loop (fuel : nat) (sy : sys) (now : Z) (generations : list Z) (budget count : Z) (result : wl_err)
    : sys * wl_err :=
  match fuel with
  | O => (sy, result)
  | S fuel =>
      if count <? budget then
        let before := count in
        let '(sy, count, error) := step_round sy now generations budget count in
        let result := if is_ok result then error else result in
        if before =? count then (sy, result) else step_loop fuel sy now generations budget count result
      else (sy, result)
  end.

Definition wl_kernel_step (sy : sys) (now budget : Z) : sys * wl_err :=
  if (budget =? 0) || (budget >? WL_KERNEL_BUDGET) then (sy, WL_ERR_INVALID_ARG)
  else if kn_in_step (ks_kernel sy) then (sy, WL_ERR_REENTRANT)
  else
    let sy := io (on_kernel (λ k, k <| kn_in_step := true |>) sy) in
    let generations := kc_generation <$> kn_calls (ks_kernel sy) in
    let '(p, active) := wl_packet_take_activity (kport sy) in
    let sy := sy <| ks_machine := set_port p (ks_machine sy) |> in
    let sy := if active : bool then on_kernel (λ k, k <| kn_tx_blocked := false |>) sy else sy in
    let '(sy, result) := step_loop (Z.to_nat budget) sy now generations budget 0 WL_OK in
    (on_kernel (λ k, k <| kn_in_step := false |>) sy, result).

(** ** Queries and closing *)

(** The deadline so far and the call's. *)
Definition earliest (now : Z) (so_far : option Z) (deadline : Z) : option Z :=
  match so_far with
  | None => Some deadline
  | Some d => if u32 (deadline - now) <? u32 (d - now) then Some deadline else Some d
  end.

Fixpoint call_readiness (now : Z) (calls : list (kernel_call F)) (ready : bool) (deadline : option Z)
    : bool * option Z :=
  match calls with
  | [] => (ready, deadline)
  | c :: calls =>
      if bool_decide (kc_state c = CALL_FREE) then call_readiness now calls ready deadline
      else if bool_decide (kc_state c = CALL_TERMINAL) || expired now (kc_deadline c)
      then call_readiness now calls true deadline
      else call_readiness now calls ready (earliest now deadline (kc_deadline c))
  end.

(** The second component is the deadline stored, if any; the port is looked at once. *)
Definition wl_kernel_ready (sy : sys) (now : Z) : bool * option Z :=
  let k := ks_kernel sy in
  let p := kport sy in
  let '(ready, deadline) := call_readiness now (kn_calls k) (wl_packet_tx_ready p) None in
  (ready || (wl_packet_rx_ready p && (negb (kn_rx_blocked k) || kn_closed k || reply_free k)) ||
   (negb (kn_closed k) && negb (wl_packet_tx_active p) &&
    (negb (kn_tx_blocked k) || wl_packet_activity_pending p) &&
    bool_decide (Exists (λ t, kt_state t = READY) (kn_tx k))), deadline).

Definition close_call (c : kernel_call F) : kernel_call F :=
  if bool_decide (kc_state c = CALL_WAITING)
  then c <| kc_state := CALL_TERMINAL |>
         <| kc_result := mk_kernel_result WL_KERNEL_CLOSED (wl_err_code WL_ERR_INVALID_STATE) |>
  else c.
Definition close_tx (t : kernel_tx) : kernel_tx :=
  if bool_decide (kt_state t = LEASED) then t else t <| kt_state := FREE |>.

Definition wl_kernel_close (sy : sys) : sys * wl_err :=
  if kn_in_step (ks_kernel sy) then (sy, WL_ERR_REENTRANT)
  else
    let sy := io (on_kernel (λ k, k <| kn_closed := true |>) sy) in
    let sy := sy <| ks_machine := wl_packet_stop (ks_machine sy) |> in
    (on_kernel (λ k, k <| kn_calls := close_call <$> kn_calls k |> <| kn_tx := close_tx <$> kn_tx k |>) sy, WL_OK).

Definition wl_kernel_quiescent (sy : sys) : bool :=
  kn_closed (ks_kernel sy) && negb (kn_in_step (ks_kernel sy)) && wl_packet_quiescent (kport sy) &&
  bool_decide (Forall (λ c, kc_state c = CALL_FREE) (kn_calls (ks_kernel sy))).
End Kernel.
