(* ===== verification/KernelOnce.v ===== *)
(** The life of a call of the static kernel: every accepted call is completed exactly
    once, whatever the callbacks start or cancel, and closing completes all of them
    in one step. *)
From stdpp Require Import relations.
From S2P Require Import Prelude Crc Cobs Frame Slots KernelWire PacketPort Kernel.
#[local] Open Scope Z_scope.

Section Once.
Context {F W : Type} {pcode : PacketCode F W} {code : KernelCode F W}.
Notation sys := (ksystem F W).

(** ** What callbacks may do *)

(** What a user callback may do: call the public operations and work on memory, the
    port's I/O side and its own world.  A nested step or close is refused and changes
    nothing. *)
Inductive user_step (sy : sys) : sys → Prop :=
  | us_start request response value encode now timeout complete callback user :
      user_step sy (wl_kernel_call_start sy request response value encode now timeout complete callback user).1.1
  | us_cancel handle : user_step sy (wl_kernel_cancel sy handle).1
  | us_send id value encode : user_step sy (wl_kernel_send sy id value encode).1
  | us_machine x : user_step sy (sy <| ks_machine := x |>).

(** What the generated route may do beside: reply, and hand a response to its call. *)
Inductive route_step (sy : sys) : sys → Prop :=
  | rs_user sy' : user_step sy sy' → route_step sy sy'
  | rs_reserve : route_step sy (wl_kernel_reply_reserve sy).1
  | rs_abort index : route_step sy (wl_kernel_reply_abort sy index)
  | rs_finish index id session operation status value encode :
      route_step sy (wl_kernel_reply_finish sy index id session operation status value encode).1
  | rs_response id data length : route_step sy (wl_kernel_response sy id data length).1.

Record kernel_laws : Prop := {
  law_complete f call result body length sy : rtc user_step sy (call_kernel_complete f call result body length sy);
  law_error f user id error sy : rtc user_step sy (call_kernel_error f user id error sy);
  law_route f frame sy : rtc route_step sy (call_kernel_route f frame sy).1;
}.

(** One operation of the owner. *)
Inductive kernel_op (sy : sys) : sys → Prop :=
  | ko_user sy' : user_step sy sy' → kernel_op sy sy'
  | ko_step now budget : kernel_op sy (wl_kernel_step sy now budget).1
  | ko_close : kernel_op sy (wl_kernel_close sy).1.

(** A kernel that was initialized, with nothing accepted yet. *)
Definition kernel_start (sy : sys) : Prop :=
  ∃ k config, wl_kernel_init k (kport sy) config = (ks_kernel sy, WL_OK) ∧
              ks_accepted sy = [] ∧ ks_completed sy = [].

(** ** The invariant *)

Definition is_live (c : kernel_call F) : bool := bool_decide (kc_state c ≠ CALL_FREE).
Definition live_op (c : kernel_call F) : list Z := if is_live c then [kc_operation c] else [].
Definition live_ops (sy : sys) : list Z := kn_calls (ks_kernel sy) ≫= live_op.
Definition idle (c : kernel_call F) : Prop := kc_state c ≠ CALL_WAITING.

Record kernel_inv (sy : sys) : Prop := {
  ki_length : length (kn_calls (ks_kernel sy)) = 4%nat;
  ki_operation : 0 <= kn_operation (ks_kernel sy) <= UINT32_MAX;
  ki_issued : Forall (λ o, 0 < o <= kn_operation (ks_kernel sy)) (ks_accepted sy);
  ki_once : NoDup (ks_accepted sy);
  ki_account : ks_accepted sy ≡ₚ (ks_completed sy).*1 ++ live_ops sy;
  ki_closed : kn_closed (ks_kernel sy) = true → Forall idle (kn_calls (ks_kernel sy));
}.

(** The parts of the kernel the invariant reads are those of [k]. *)
Definition same_calls (k k' : kernel F) : Prop :=
  kn_calls k' = kn_calls k ∧ kn_operation k' = kn_operation k ∧ kn_closed k' = kn_closed k.

Lemma bind_insert {A B} (g : A → list B) l i (c c' : A) :
  l !! i = Some c → (<[i := c']> l) ≫= g = (take i l ≫= g) ++ g c' ++ (drop (S i) l ≫= g).
Proof.
  intros E. pose proof (lookup_lt_Some _ _ _ E). rewrite insert_take_drop by done.
  rewrite bind_app. by cbn.
Qed.

Lemma bind_lookup {A B} (g : A → list B) l i (c : A) :
  l !! i = Some c → l ≫= g = (take i l ≫= g) ++ g c ++ (drop (S i) l ≫= g).
Proof. intros E. rewrite <- (list_insert_id l i c) at 1 by done. by apply (bind_insert g l i c). Qed.

Lemma bind_fmap {A B C} (f : A → B) (g : B → list C) h l :
  (∀ c, g (f c) = h c) → (f <$> l) ≫= g = l ≫= h.
Proof. intros E. induction l as [|c l IH]; [done|]. cbn. by rewrite E, IH. Qed.

Lemma bind_length {A B} (g : A → list B) l : (∀ c, length (g c) <= 1)%nat → (length (l ≫= g) <= length l)%nat.
Proof. intros H. induction l as [|c l IH]; [done|]. cbn. rewrite length_app. specialize (H c). lia. Qed.

Lemma set_call_out (k : kernel F) i c : kn_calls k !! i = None → set_call k i c = k.
Proof.
  intros E. apply lookup_ge_None in E. unfold set_call. destruct k; cbn in *. unfold rebuild; cbn.
  by rewrite list_insert_ge.
Qed.

Lemma call_of_eq (k : kernel F) i c : kn_calls k !! i = Some c → call_of k i = c.
Proof. unfold call_of. by intros ->. Qed.

(** ** Preservation *)

Lemma inv_same sy k' x :
  kernel_inv sy → same_calls (ks_kernel sy) k' → kernel_inv (mk_ksystem k' x (ks_accepted sy) (ks_completed sy)).
Proof. intros [] (Ec & Eo & Ex). split; unfold live_ops; cbn; rewrite ?Ec, ?Eo, ?Ex; done. Qed.

(** Slot [i] is changed but holds the same call, if any. *)
Lemma inv_update sy i c x :
  kernel_inv sy → live_op c = live_op (call_of (ks_kernel sy) i) →
  (kn_closed (ks_kernel sy) = true → idle c) →
  kernel_inv (mk_ksystem (set_call (ks_kernel sy) i c) x (ks_accepted sy) (ks_completed sy)).
Proof.
  intros Hi Hl Hc. destruct (kn_calls (ks_kernel sy) !! i) as [c0|] eqn:E.
  2: { rewrite (set_call_out _ _ _ E). by apply inv_same. }
  rewrite (call_of_eq _ _ _ E) in Hl. destruct Hi as [? ? ? ? Ha ?].
  split; cbn; [by rewrite length_insert|done..| |].
  - rewrite Ha. unfold live_ops. cbn. by rewrite (bind_insert _ _ _ _ _ E), (bind_lookup _ _ _ _ E), Hl.
  - intros Hx. apply Forall_insert; auto.
Qed.

(** A free slot takes the call [c], with the next operation. *)
Lemma inv_admit sy i c0 c k' x :
  kernel_inv sy → kn_calls (ks_kernel sy) !! i = Some c0 → kc_state c0 = CALL_FREE →
  kc_state c ≠ CALL_FREE → kn_operation (ks_kernel sy) < UINT32_MAX →
  kc_operation c = kn_operation (ks_kernel sy) + 1 → kn_closed (ks_kernel sy) = false →
  kn_calls k' = <[i := c]> (kn_calls (ks_kernel sy)) → kn_operation k' = kc_operation c →
  kn_closed k' = kn_closed (ks_kernel sy) →
  kernel_inv (mk_ksystem k' x (ks_accepted sy ++ [kc_operation c]) (ks_completed sy)).
Proof.
  intros [? ? His Hon Ha ?] E Ef Hl Hmax Eop Hx Ec Eo Ecl.
  split; cbn; rewrite ?Ec, ?Eo; [by rewrite length_insert|lia| | | |rewrite Ecl; congruence].
  - apply Forall_app. split; [|apply Forall_singleton; lia]. eapply Forall_impl; [done|]. cbn. lia.
  - apply NoDup_app. split; [done|]. split; [|apply NoDup_singleton].
    intros o Ho. rewrite list_elem_of_singleton. intros ->. rewrite Forall_forall in His. specialize (His _ Ho). lia.
  - unfold live_ops. cbn. rewrite Ec, (bind_insert _ _ _ _ _ E). unfold live_op at 2, is_live at 1.
    rewrite bool_decide_true by done. rewrite Ha. unfold live_ops. rewrite (bind_lookup _ _ _ _ E).
    unfold live_op at 2, is_live at 1. rewrite Ef. cbn [app]. rewrite bool_decide_false by (by intros []).
    cbn [app]. solve_Permutation.
Qed.

(** The call of slot [i] is completed. *)
Lemma inv_finish sy i c0 c result k' x :
  kernel_inv sy → kn_calls (ks_kernel sy) !! i = Some c0 → kc_state c0 ≠ CALL_FREE →
  kc_state c = CALL_FREE → kn_calls k' = <[i := c]> (kn_calls (ks_kernel sy)) →
  kn_operation k' = kn_operation (ks_kernel sy) → kn_closed k' = kn_closed (ks_kernel sy) →
  kernel_inv (mk_ksystem k' x (ks_accepted sy) (ks_completed sy ++ [(kc_operation c0, result)])).
Proof.
  intros [? ? His Hon Ha ?] E Hl Ef Ec Eo Ecl.
  split; cbn; rewrite ?Ec, ?Eo, ?Ecl; [by rewrite length_insert|done..| |].
  - unfold live_ops. cbn. rewrite Ec, (bind_insert _ _ _ _ _ E), fmap_app. cbn. unfold live_op at 2, is_live at 1.
    rewrite Ef. rewrite bool_decide_false by (by intros []). cbn [app]. rewrite Ha. unfold live_ops.
    rewrite (bind_lookup _ _ _ _ E). unfold live_op at 2, is_live at 1. rewrite bool_decide_true by done.
    solve_Permutation.
  - intros Hx. apply Forall_insert; [auto|]. unfold idle. by rewrite Ef.
Qed.

(** The operation touches neither calls nor logs. *)
Definition keeps (sy sy' : sys) : Prop :=
  same_calls (ks_kernel sy) (ks_kernel sy') ∧ ks_accepted sy' = ks_accepted sy ∧ ks_completed sy' = ks_completed sy.

Lemma inv_keeps sy sy' : kernel_inv sy → keeps sy sy' → kernel_inv sy'.
Proof. intros Hi (Hs & Ea & Ec). destruct sy' as [k' x a c]. cbn in *. subst a c. by apply inv_same. Qed.

Lemma keeps_refl sy : keeps sy sy.
Proof. done. Qed.

Lemma keeps_trans sy1 sy2 sy3 : keeps sy1 sy2 → keeps sy2 sy3 → keeps sy1 sy3.
Proof. unfold keeps, same_calls. intuition congruence. Qed.

Lemma keeps_machine sy x : keeps sy (sy <| ks_machine := x |>).
Proof. done. Qed.

Lemma keeps_kernel sy f : same_calls (ks_kernel sy) (f (ks_kernel sy)) → keeps sy (on_kernel f sy).
Proof. done. Qed.

Lemma encode_frame_keeps sy i id prefix value encode : keeps sy (encode_frame sy i id prefix value encode).1.
Proof.
  unfold encode_frame. destruct (prefix >? _); [done|].
  destruct (call_kernel_encode _ _ _ _ _) as [[x error] length]. destruct (negb _); [done|].
  destruct (length >? _); [done|]. destruct (wl_kernel_native_none_seal _ _ _ _ _) as [m e].
  by destruct (is_ok e).
Qed.

Lemma write_metadata_keeps sy i session operation status :
  keeps sy (write_metadata sy i session operation status).1.1.
Proof. unfold write_metadata. by destruct (wl_kernel_rpc_write _ _ _ _ _ _) as [[m e] h]. Qed.

(** The frame of a request: metadata, then the encoded value. *)
Lemma request_keeps sy i id session operation value encode :
  let '(sy1, error, header) := write_metadata sy i session operation 0 in
  keeps sy (if is_ok error then encode_frame sy1 i id (WL_KERNEL_NATIVE_HEADER + header) value encode
            else (sy1, error)).1.
Proof.
  pose proof (write_metadata_keeps sy i session operation 0) as H.
  destruct (write_metadata sy i session operation 0) as [[sy1 error] header]. cbn in H.
  destruct (is_ok error); [|done]. eapply keeps_trans; [exact H|]. apply encode_frame_keeps.
Qed.

Lemma free_call_spec k i : free_call (F := F) k = Some i → ∃ c, kn_calls k !! i = Some c ∧ kc_state c = CALL_FREE.
Proof.
  unfold free_call. intros E. apply fmap_Some in E as ([j c] & E & ->).
  apply list_find_Some in E as (E & [Hf _] & _). by exists c.
Qed.

Lemma call_start_inv sy request response value encode now timeout complete callback user :
  kernel_inv sy →
  kernel_inv (wl_kernel_call_start sy request response value encode now timeout complete callback user).1.1.
Proof.
  intros Hi. unfold wl_kernel_call_start.
  destruct encode as [encode|], complete as [complete|], callback as [callback|]; try done.
  destruct (_ || _); [done|]. destruct (kn_closed _) eqn:Hx; [done|].
  destruct (Z.eqb_spec (kn_operation (ks_kernel sy)) UINT32_MAX) as [|Hop]; [done|].
  destruct (free_call _) as [slot|] eqn:Ef; [|done]. destruct (free_request _) as [i|]; [|done].
  set (operation := u32 _).
  pose proof (request_keeps sy i request (instance sy) operation value encode) as H.
  destruct (write_metadata sy i (instance sy) operation 0) as [[sy1 error] header].
  destruct (if is_ok error then _ else _) as [sy2 error2]. cbn in H.
  destruct (negb (is_ok error2)); [by eapply inv_keeps|]. cbn [fst]. clear sy1 error header.
  pose proof (inv_keeps _ _ Hi H) as Hi2. destruct H as ((Ec & Eo & Ex) & Ea & _).
  apply free_call_spec in Ef as (c0 & E0 & Ef).
  assert (operation = kn_operation (ks_kernel sy2) + 1) as Eop.
  { rewrite Eo. unfold operation. pose proof (ki_operation _ Hi). unfold u32, UINT32_MAX in *.
    by rewrite Z.mod_small by lia. }
  rewrite <- Ec in E0. unfold admit_call. cbn.
  eapply (inv_admit sy2 slot c0 (mk_kernel_call _ _ _ operation _ _ _ _ CALL_WAITING _)); try done.
  - rewrite Eo. pose proof (ki_operation _ Hi). lia.
  - by rewrite Ex.
Qed.

Lemma inv_set_call sy i c :
  kernel_inv sy → live_op c = live_op (call_of (ks_kernel sy) i) →
  (kn_closed (ks_kernel sy) = true → idle c) → kernel_inv (on_kernel (λ k, set_call k i c) sy).
Proof. apply inv_update. Qed.

Lemma terminate_inv sy slot result :
  kernel_inv sy → kc_state (call_of (ks_kernel sy) slot) = CALL_WAITING →
  kernel_inv (on_kernel (terminate_call slot result) sy).
Proof. intros Hi Hw. apply inv_set_call; [done| |done]. unfold live_op, is_live. by rewrite Hw. Qed.

Lemma kernel_cancel_inv sy handle : kernel_inv sy → kernel_inv (wl_kernel_cancel sy handle).1.
Proof.
  intros Hi. unfold wl_kernel_cancel. destruct (_ || _); [done|]. case_bool_decide as Hw; [done|]. cbn [orb].
  destruct (_ || _); [done|]. apply terminate_inv; [done|].
  destruct (kc_state _); [by destruct Hw|done|by destruct Hw].
Qed.

Lemma send_keeps sy id value encode : keeps sy (wl_kernel_send sy id value encode).1.
Proof.
  unfold wl_kernel_send. destruct encode as [f|]; [|done]. destruct (id =? 0); [done|].
  destruct (kn_closed _); [done|]. case_bool_decide; [done|]. apply encode_frame_keeps.
Qed.

Lemma user_inv sy sy' : rtc user_step sy sy' → kernel_inv sy → kernel_inv sy'.
Proof.
  induction 1 as [|sy1 sy2 sy3 Hs _ IH]; [done|]. intros Hi. apply IH. destruct Hs.
  - by apply call_start_inv.
  - by apply kernel_cancel_inv.
  - eapply inv_keeps; [done|apply send_keeps].
  - by eapply inv_keeps.
Qed.

Lemma reserve_keeps sy : keeps sy (wl_kernel_reply_reserve sy).1.
Proof. unfold wl_kernel_reply_reserve. destruct (_ || _); [done|]. by destruct (free_reply _). Qed.

Lemma abort_keeps sy index : keeps sy (wl_kernel_reply_abort sy index).
Proof. unfold wl_kernel_reply_abort. by destruct (_ && _). Qed.

Lemma reply_finish_keeps sy index id session operation status value encode :
  keeps sy (wl_kernel_reply_finish sy index id session operation status value encode).1.
Proof.
  unfold wl_kernel_reply_finish. destruct (_ || _); [done|]. set (i := Z.to_nat index).
  pose proof (write_metadata_keeps sy i session operation status) as H.
  destruct (write_metadata sy i session operation status) as [[sy1 error] header]. cbn in H.
  match goal with |- keeps _ (let '(_, _) := ?e in _).1 => assert (keeps sy e.1) as H2; [|by destruct e as [? []]] end.
  destruct (negb _); [done|]. destruct (status =? 0).
  - destruct encode as [f|]; [|done]. eapply keeps_trans; [exact H|apply encode_frame_keeps].
  - destruct (wl_kernel_native_none_seal _ _ _ _ _) as [m e]. by destruct (is_ok e).
Qed.

Section Laws.
Context (Hlaws : kernel_laws).

Lemma finish_call_inv sy slot result body length :
  kernel_inv sy → kc_state (call_of (ks_kernel sy) slot) ≠ CALL_FREE →
  kernel_inv (finish_call sy slot result body length).
Proof.
  intros Hi Hl. destruct (kn_calls (ks_kernel sy) !! slot) as [c0|] eqn:E.
  2: { unfold call_of in Hl. by rewrite E in Hl. }
  unfold finish_call. rewrite (call_of_eq _ _ _ E) in *.
  match goal with |- kernel_inv (match _ with Some complete => call_kernel_complete complete _ _ _ _ ?s | None => _ end) =>
    assert (kernel_inv s) as Hi2 end.
  { by eapply (inv_finish sy slot c0 (c0 <| kc_state := CALL_FREE |>)); try done; cbn; rewrite (call_of_eq _ _ _ E). }
  destruct (kc_complete c0) as [f|]; [|done]. eapply user_inv; [by apply law_complete|done].
Qed.

Lemma kernel_response_inv sy id data length : kernel_inv sy → kernel_inv (wl_kernel_response sy id data length).1.
Proof.
  intros Hi. unfold wl_kernel_response. destruct (negb _); [done|].
  destruct (wl_kernel_rpc_read _ _ _ _) as [|md]; [done|]. destruct (negb _); [done|].
  destruct (list_find _ _) as [[slot c]|] eqn:E; [|done]. apply list_find_Some in E as (E & [Hw _] & _).
  apply finish_call_inv; [done|]. by rewrite (call_of_eq _ _ _ E), Hw.
Qed.

Lemma route_inv sy sy' : rtc route_step sy sy' → kernel_inv sy → kernel_inv sy'.
Proof.
  induction 1 as [|sy1 sy2 sy3 Hs _ IH]; [done|]. intros Hi. apply IH. destruct Hs.
  - by eapply user_inv; [apply rtc_once|].
  - eapply inv_keeps; [done|apply reserve_keeps].
  - eapply inv_keeps; [done|apply abort_keeps].
  - eapply inv_keeps; [done|apply reply_finish_keeps].
  - by apply kernel_response_inv.
Qed.

Lemma report_inv sy id error : kernel_inv sy → kernel_inv (report sy id error).1.
Proof.
  intros Hi. unfold report. destruct (kn_on_error _) as [f|]; [|done]. destruct (is_ok error); [done|].
  eapply user_inv; [by apply law_error|done].
Qed.

Lemma owns_call_waiting (k : kernel F) i :
  owns_call k i = true → kc_state (call_of k (Z.to_nat (kt_call_slot (tx_of k i)))) = CALL_WAITING.
Proof. unfold owns_call. intros H. apply andb_true_iff in H as [H _]. by apply bool_decide_eq_true in H. Qed.

Lemma fail_request_inv sy i error : kernel_inv sy → kernel_inv (on_kernel (fail_request i error) sy).
Proof.
  intros Hi. unfold fail_request, on_kernel. destruct (_ && _) eqn:E; [|by destruct sy].
  apply andb_true_iff in E as [_ E]. apply terminate_inv; [done|]. by apply owns_call_waiting.
Qed.

Lemma complete_tx_inv sy : kernel_inv sy → kernel_inv (complete_tx sy).1.
Proof.
  intros Hi. unfold complete_tx. destruct (wl_packet_tx_take _) as [[p flags] token].
  set (sy1 := _ <| ks_machine := _ |>). assert (kernel_inv sy1) as Hi1 by by eapply inv_keeps.
  destruct (_ || _); [done|]. destruct (_ || _); [done|]. set (i := Z.to_nat _).
  match goal with |- kernel_inv (let '(_, _) := ?e in _).1 => assert (kernel_inv e.1) as Hi2 end.
  { destruct (negb _); [|done]. by apply report_inv, fail_request_inv. }
  destruct (if negb _ then _ else _) as [sy2 error]. cbn [fst] in *. destruct (negb _); [|done].
  by eapply inv_keeps.
Qed.

Lemma terminal_inv n now generations : ∀ sy, kernel_inv sy → kernel_inv (terminal n sy now generations).1.
Proof.
  induction n as [|n IH]; intros sy Hi; [done|]. cbn [terminal].
  set (sy1 := on_kernel _ sy). assert (kernel_inv sy1) as Hi1 by by eapply inv_keeps.
  destruct (negb _); [by apply IH|]. cbn [orb]. case_bool_decide as Hf; [by apply IH|].
  destruct (_ && _); [by apply IH|]. by apply finish_call_inv.
Qed.

Lemma submit_ready_inv sy i : kernel_inv sy → kernel_inv (submit_ready sy i).1.
Proof.
  intros Hi. unfold submit_ready. destruct (wl_packet_tx_submit _ _ _) as [[x error] token].
  set (sy1 := on_kernel (λ k, k <| kn_flight_token := _ |>) _). assert (kernel_inv sy1) as Hi1 by by eapply inv_keeps.
  assert (∀ e, kernel_inv (on_kernel (λ k, set_tx_state i FREE (fail_request i e k)) sy1)) as He.
  { intros e. eapply inv_keeps; [by apply (fail_request_inv sy1 i e)|done]. }
  destruct error; cbn [fst].
  all: try (match goal with |- kernel_inv (let '(_, _) := report ?s ?id ?e in _).1 =>
              pose proof (report_inv s id e (He e)) end; by destruct (report _ _ _)).
  - set (sy2 := on_kernel (λ k, set_tx_state i LEASED (k <| kn_flight := u8 (Z.of_nat i) |>)) sy1).
    assert (kernel_inv sy2) as Hi2 by by eapply inv_keeps.
    change (kernel_inv (on_kernel (λ k, let slot := Z.to_nat (kt_call_slot (tx_of k i)) in
      if (Z.of_nat i <? WL_KERNEL_CALLS) && owns_call k i
      then set_call k slot (call_of k slot <| kc_sent := true |>) else k) sy2)).
    unfold on_kernel. cbn zeta. destruct (_ && _) eqn:E; [|by destruct sy2].
    apply andb_true_iff in E as [_ E]. apply owns_call_waiting in E.
    apply inv_set_call; [done|done|]. intros Hx _. pose proof (ki_closed _ Hi2 Hx) as H.
    unfold call_of in E. destruct (kn_calls _ !! _) as [c|] eqn:Ec; [|done].
    rewrite Forall_forall in H. exact (H c (list_elem_of_lookup_2 _ _ _ Ec) E).
  - by eapply inv_keeps.
Qed.

Lemma submit_loop_inv n : ∀ sy, kernel_inv sy → kernel_inv (submit_loop n sy).1.1.
Proof.
  induction n as [|n IH]; intros sy Hi; [done|]. cbn [submit_loop]. cbn zeta.
  set (i := Z.to_nat _). set (sy1 := on_kernel _ sy). assert (kernel_inv sy1) as Hi1 by by eapply inv_keeps.
  case_bool_decide; [by apply IH|]. destruct (_ && _); [apply IH; by eapply inv_keeps|].
  pose proof (submit_ready_inv sy1 i Hi1). by destruct (submit_ready sy1 i).
Qed.

Lemma submit_tx_inv sy : kernel_inv sy → kernel_inv (submit_tx sy).1.1.
Proof.
  intros Hi. unfold submit_tx. set (sy1 := io sy). assert (kernel_inv sy1) as Hi1 by by eapply inv_keeps.
  destruct (_ || _); [done|]. by apply submit_loop_inv.
Qed.

Lemma process_packet_inv sy : kernel_inv sy → kernel_inv (process_packet sy).1.
Proof.
  intros Hi. unfold process_packet.
  set (routed := if kn_closed _ then _ else _). assert (kernel_inv routed.1.1) as Hi1.
  { unfold routed. destruct (kn_closed _); [done|]. destruct (wl_kernel_native_none_read _ _ _) as [|frame]; [done|].
    destruct (kn_route _) as [f|]; [|done]. pose proof (law_route Hlaws f frame sy) as Hr.
    destruct (call_kernel_route f frame sy) as [sy1 e]. by eapply route_inv. }
  destruct routed as [[sy1 error] id]. cbn [fst] in Hi1.
  case_bool_decide; [by eapply inv_keeps|].
  set (sy2 := _ <| ks_machine := _ |>). assert (kernel_inv sy2) as Hi2 by by eapply inv_keeps.
  destruct (is_ok error); [done|]. pose proof (report_inv sy2 id error Hi2). by destruct (report _ _ _).
Qed.

Lemma receive_inv sy : kernel_inv sy → kernel_inv (receive sy).1.1.
Proof.
  intros Hi. unfold receive. destruct (_ && _); [done|].
  match goal with |- kernel_inv (let '(_, _) := ?e in _).1.1 => assert (kernel_inv e.1) as Hi1 end.
  { destruct (kn_rx_held _); [done|]. destruct (wl_packet_rx_borrow _) as [p [|rx]]; by eapply inv_keeps. }
  destruct (if kn_rx_held _ then _ else _) as [sy1 held]. cbn [fst] in Hi1. destruct held; [|done].
  pose proof (process_packet_inv sy1 Hi1). by destruct (process_packet sy1).
Qed.

Lemma attempt_inv budget f st :
  (∀ sy, kernel_inv sy → kernel_inv (f sy).1.1) → kernel_inv st.1.1 → kernel_inv (attempt budget f st).1.1.
Proof.
  intros Hf. destruct st as [[sy count] error]. cbn. intros Hi. destruct (count <? budget); [|done].
  specialize (Hf sy Hi). by destruct (f sy) as [[sy1 did] stored].
Qed.

Lemma step_round_inv sy now generations budget count :
  kernel_inv sy → kernel_inv (step_round sy now generations budget count).1.1.
Proof.
  intros Hi. unfold step_round. set (sy1 := io sy). assert (kernel_inv sy1) as Hi1 by by eapply inv_keeps.
  apply attempt_inv; [apply receive_inv|]. apply attempt_inv; [apply submit_tx_inv|].
  apply attempt_inv; [intros sy2 Hi2; by apply terminal_inv|].
  destruct (wl_packet_tx_ready _); [|done]. pose proof (complete_tx_inv sy1 Hi1). by destruct (complete_tx sy1).
Qed.

Lemma step_loop_inv fuel now generations budget : ∀ sy count result,
  kernel_inv sy → kernel_inv (step_loop fuel sy now generations budget count result).1.
Proof.
  induction fuel as [|fuel IH]; intros sy count result Hi; [done|]. cbn [step_loop].
  destruct (count <? budget); [|done]. pose proof (step_round_inv sy now generations budget count Hi) as H.
  destruct (step_round _ _ _ _ _) as [[sy1 count1] error]. destruct (count =? count1); [done|]. by apply IH.
Qed.

Lemma step_inv sy now budget : kernel_inv sy → kernel_inv (wl_kernel_step sy now budget).1.
Proof.
  intros Hi. unfold wl_kernel_step. destruct (_ || _); [done|]. destruct (kn_in_step _); [done|].
  cbn [wl_packet_take_activity]. set (sy1 := _ <| ks_machine := _ |>).
  assert (kernel_inv sy1) as Hi1 by by eapply inv_keeps.
  set (sy2 := if _ : bool then _ else _). assert (kernel_inv sy2) as Hi2
    by (unfold sy2; destruct (pp_activity _); [by eapply inv_keeps|done]).
  pose proof (step_loop_inv (Z.to_nat budget) now (kc_generation <$> kn_calls (ks_kernel sy)) budget sy2 0 WL_OK Hi2) as H.
  change (kn_calls (ks_kernel (io _))) with (kn_calls (ks_kernel sy)).
  destruct (step_loop _ _ _ _ _ _ _) as [sy3 result]. by eapply inv_keeps.
Qed.

Lemma close_call_op c : live_op (close_call c) = live_op c.
Proof. unfold close_call. case_bool_decide as E; [|done]. unfold live_op, is_live. cbn. by rewrite E. Qed.

Lemma close_call_idle c : idle (close_call c).
Proof. unfold close_call, idle. by case_bool_decide. Qed.

Lemma kernel_close_inv sy : kernel_inv sy → kernel_inv (wl_kernel_close sy).1.
Proof.
  intros [? ? ? ? Ha ?]. unfold wl_kernel_close. destruct (kn_in_step _); [done|].
  split; cbn; [by rewrite length_fmap|done..| |].
  - rewrite Ha. unfold live_ops. cbn. by rewrite (bind_fmap _ _ _ _ close_call_op).
  - intros _. apply Forall_fmap, Forall_forall. intros c _. apply close_call_idle.
Qed.

Lemma kernel_start_inv sy : kernel_start sy → kernel_inv sy.
Proof.
  intros (k & config & E & Ea & Ec). unfold wl_kernel_init in E. destruct (_ || _); [done|].
  destruct (storage_short _ _); [done|]. injection E as E.
  split; rewrite ?Ea, ?Ec; unfold live_ops; rewrite <- ?E; cbn; done || by constructor.
Qed.

Lemma run_inv sy sy' : kernel_start sy → rtc kernel_op sy sy' → kernel_inv sy'.
Proof.
  intros Hs%kernel_start_inv. induction 1 as [|sy1 sy2 sy3 Ho _ IH]; [done|]. apply IH. destruct Ho.
  - by eapply user_inv; [apply rtc_once|].
  - by apply step_inv.
  - by apply kernel_close_inv.
Qed.

(** ** Closing *)

(** The completions still owed. *)
Definition owed (c : kernel_call F) : list (Z * kernel_result) :=
  if is_live c then [(kc_operation c, kc_result c)] else [].
Definition pending (sy : sys) : list (Z * kernel_result) := kn_calls (ks_kernel sy) ≫= owed.

Record closed_state (generations : list Z) (sy : sys) : Prop := {
  cs_closed : kn_closed (ks_kernel sy) = true;
  cs_idle : Forall idle (kn_calls (ks_kernel sy));
  cs_generations : kc_generation <$> kn_calls (ks_kernel sy) = generations;
}.

(** Some of what was owed has been delivered. *)
Definition drains (sy sy' : sys) : Prop :=
  ks_accepted sy' = ks_accepted sy ∧
  ∃ delivered, ks_completed sy' = ks_completed sy ++ delivered ∧ pending sy ≡ₚ delivered ++ pending sy'.

Lemma live_ops_pending sy : live_ops sy = (pending sy).*1.
Proof.
  unfold live_ops, pending. induction (kn_calls (ks_kernel sy)) as [|c l IH]; [done|]. cbn.
  rewrite fmap_app, <- IH. f_equal. unfold live_op, owed. by destruct (is_live c).
Qed.

Lemma keeps_drains sy sy' : keeps sy sy' → drains sy sy'.
Proof.
  intros ((Ec & _) & Ea & El). split; [done|]. exists []. rewrite app_nil_r. split; [done|].
  unfold pending. by rewrite Ec.
Qed.

Lemma drains_trans sy1 sy2 sy3 : drains sy1 sy2 → drains sy2 sy3 → drains sy1 sy3.
Proof.
  intros (Ea & d & El & Hp) (Ea' & d' & El' & Hp'). split; [congruence|]. exists (d ++ d').
  rewrite El', El, app_assoc. split; [done|]. by rewrite <- app_assoc, <- Hp'.
Qed.

Lemma keeps_closed generations sy sy' : closed_state generations sy → keeps sy sy' → closed_state generations sy'.
Proof. intros [] ((Ec & _ & Ex) & _). split; rewrite ?Ec, ?Ex; done. Qed.

Lemma call_of_idle generations sy i : closed_state generations sy → kc_state (call_of (ks_kernel sy) i) ≠ CALL_WAITING.
Proof.
  intros [_ H _]. unfold call_of. destruct (kn_calls _ !! i) as [c|] eqn:E; [|done]. cbn.
  rewrite Forall_forall in H. exact (H c (list_elem_of_lookup_2 _ _ _ E)).
Qed.

(** A closed kernel admits, cancels and sends nothing. *)
Lemma user_closed_kernel generations sy sy' :
  rtc user_step sy sy' → closed_state generations sy →
  ks_kernel sy' = ks_kernel sy ∧ ks_accepted sy' = ks_accepted sy ∧ ks_completed sy' = ks_completed sy.
Proof.
  induction 1 as [|sy1 sy2 sy3 Hs _ IH]; intros Hc; [done|].
  assert (ks_kernel sy2 = ks_kernel sy1 ∧ ks_accepted sy2 = ks_accepted sy1 ∧
          ks_completed sy2 = ks_completed sy1) as (E & Ea & Ed).
  { destruct Hs; [| | |done].
    - unfold wl_kernel_call_start. destruct encode, complete, callback; try done.
      destruct (_ || _); [done|]. by rewrite (cs_closed _ _ Hc).
    - unfold wl_kernel_cancel. destruct (_ || _); [done|]. rewrite bool_decide_true; [done|].
      by eapply call_of_idle.
    - unfold wl_kernel_send. destruct encode; [|done]. destruct (id =? 0); [done|]. by rewrite (cs_closed _ _ Hc). }
  destruct Hc. destruct IH as (-> & -> & ->); [|done]. split; by rewrite E.
Qed.

Lemma user_closed generations sy sy' : rtc user_step sy sy' → closed_state generations sy → keeps sy sy'.
Proof. intros Hr Hc. destruct (user_closed_kernel _ _ _ Hr Hc) as (E & ? & ?). unfold keeps. by rewrite E. Qed.

Section Closed.
Context (generations : list Z).
Notation shut := (closed_state generations).

Lemma report_closed sy id error : shut sy → keeps sy (report sy id error).1.
Proof.
  intros Hc. unfold report. destruct (kn_on_error _) as [f|]; [|done]. destruct (is_ok error); [done|].
  eapply user_closed; [by apply law_error|done].
Qed.

Lemma fail_request_closed sy i error : shut sy → keeps sy (on_kernel (fail_request i error) sy).
Proof.
  intros Hc. apply keeps_kernel. unfold fail_request. destruct (_ && _) eqn:E; [|done].
  apply andb_true_iff in E as [_ E%owns_call_waiting]. by apply (call_of_idle _ _ _ Hc) in E.
Qed.

Lemma complete_tx_closed sy : shut sy → keeps sy (complete_tx sy).1.
Proof.
  intros Hc. unfold complete_tx. destruct (wl_packet_tx_take _) as [[p flags] token].
  set (sy1 := _ <| ks_machine := _ |>). assert (keeps sy sy1) as H1 by done.
  destruct (_ || _); [done|]. destruct (_ || _); [done|]. set (i := Z.to_nat _).
  set (failed := if negb _ then _ else _). assert (keeps sy failed.1) as H2.
  { unfold failed. destruct (negb _); [|done].
    assert (shut sy1) as Hc1 by by eapply keeps_closed. pose proof (fail_request_closed sy1 i WL_ERR_IO Hc1) as H2.
    eapply keeps_trans; [exact H2|]. apply report_closed. by eapply keeps_closed. }
  destruct failed as [sy2 error]. cbn [fst] in *. by destruct (negb _).
Qed.

Lemma submit_tx_closed sy : shut sy → ∃ sy', submit_tx sy = (sy', false, None) ∧ keeps sy sy'.
Proof.
  intros Hc. exists (io sy). split; [|done]. unfold submit_tx.
  change (kn_closed (ks_kernel (io sy))) with (kn_closed (ks_kernel sy)). by rewrite (cs_closed _ _ Hc).
Qed.

Lemma receive_closed sy : shut sy → keeps sy (receive sy).1.1.
Proof.
  intros Hc. unfold receive. destruct (_ && _); [done|]. set (held := if kn_rx_held _ then _ else _).
  assert (keeps sy held.1) as H1.
  { unfold held. destruct (kn_rx_held _); [done|]. by destruct (wl_packet_rx_borrow _) as [p []]. }
  destruct held as [sy1 held]. cbn [fst] in H1. destruct held; [|done].
  assert (keeps sy1 (process_packet sy1).1) as H2; [|destruct (process_packet sy1); by eapply keeps_trans].
  unfold process_packet. assert (shut sy1) as Hc1 by by eapply keeps_closed. rewrite (cs_closed _ _ Hc1). done.
Qed.

(** An owed completion is delivered. *)
Definition delivers (sy sy' : sys) : Prop :=
  shut sy' ∧ drains sy sy' ∧ (length (pending sy') < length (pending sy))%nat.

Lemma finish_closed sy slot c :
  shut sy → kn_calls (ks_kernel sy) !! slot = Some c → kc_state c ≠ CALL_FREE →
  delivers sy (finish_call sy slot (kc_result c) NULL 0).
Proof.
  intros Hc E Hl. unfold finish_call. rewrite (call_of_eq _ _ _ E).
  set (c' := c <| kc_state := CALL_FREE |>).
  set (sy1 := _ <| ks_completed := _ |>).
  assert (kn_calls (ks_kernel sy1) = <[slot := c']> (kn_calls (ks_kernel sy))) as Ec
    by (cbn; by rewrite (call_of_eq _ _ _ E)).
  assert (pending sy ≡ₚ (kc_operation c, kc_result c) :: pending sy1) as Hp.
  { unfold pending. rewrite Ec, (bind_insert _ _ _ _ _ E), (bind_lookup _ _ _ _ E). unfold owed at 2 5, is_live.
    rewrite (bool_decide_true (kc_state c ≠ CALL_FREE)) by done. cbn. solve_Permutation. }
  assert (shut sy1) as Hc1.
  { destruct Hc as [Hx Hi Hg]. split; [done|rewrite Ec; by apply Forall_insert|].
    rewrite Ec, list_fmap_insert, list_insert_id; [done|]. by rewrite list_lookup_fmap, E. }
  assert (drains sy sy1) as Hd by (split; [done|]; by exists [(kc_operation c, kc_result c)]).
  assert (∀ sy2, keeps sy1 sy2 → delivers sy sy2) as H.
  { intros sy2 Hk. split; [by eapply keeps_closed|]. split; [eapply drains_trans, keeps_drains; eassumption|].
    rewrite Hp. unfold pending. rewrite (proj1 (proj1 Hk)). cbn. lia. }
  apply H. destruct (kc_complete c) as [f|]; [|done]. eapply user_closed; [by apply law_complete|done].
Qed.

Definition cursor_slot (sy : sys) (j : Z) : nat := Z.to_nat ((kn_call_cursor (ks_kernel sy) + j) mod 4).

Lemma cursor_slot_next sy j :
  cursor_slot sy j =
  cursor_slot (on_kernel (λ k, k <| kn_call_cursor := u8 (kn_call_cursor k + 1) |>) sy) (j - 1).
Proof.
  unfold cursor_slot. cbn. f_equal. unfold u8. set (c := kn_call_cursor _).
  rewrite (Z.mod_eq (c + 1) (2 ^ 8)) by lia. change (2 ^ 8) with (4 * 64). rewrite <- Z.mul_assoc.
  replace (c + 1 - 4 * (64 * ((c + 1) `div` (4 * 64))) + (j - 1)) with
    (c + j + - (64 * ((c + 1) `div` (4 * 64))) * 4) by lia.
  by rewrite Z.mod_add by lia.
Qed.

Lemma call_of_generation sy i : shut sy → default 0 (generations !! i) = kc_generation (call_of (ks_kernel sy) i).
Proof.
  intros [_ _ <-]. unfold call_of. rewrite list_lookup_fmap. by destruct (kn_calls _ !! i).
Qed.

(** The scan skips free slots and delivers the first call it meets. *)
Lemma terminal_closed n now : ∀ sy,
  shut sy →
  let '(sy', found) := terminal n sy now generations in
  if found then delivers sy sy'
  else keeps sy sy' ∧ ∀ j, 0 <= j < Z.of_nat n → kc_state (call_of (ks_kernel sy) (cursor_slot sy j)) = CALL_FREE.
Proof.
  induction n as [|n IH]; intros sy Hc; [split; [done|]; lia|]. cbn [terminal].
  change WL_KERNEL_CALLS with 4. set (slot := Z.to_nat _).
  assert (slot = cursor_slot sy 0) as Es by (unfold cursor_slot; by rewrite Z.add_0_r).
  set (sy1 := on_kernel _ sy). assert (keeps sy sy1) as H1 by done.
  assert (shut sy1) as Hc1 by by eapply keeps_closed.
  assert (∀ i, call_of (ks_kernel sy1) i = call_of (ks_kernel sy) i) as Ecall by done.
  rewrite Ecall, (call_of_generation sy) by done. rewrite Z.eqb_refl. cbn [negb orb]. case_bool_decide as Hf.
  - specialize (IH sy1 Hc1). destruct (terminal n sy1 now generations) as [sy2 []].
    + destruct IH as (? & Hd & ?). split; [done|]. split; [|done]. by eapply drains_trans; [apply keeps_drains|].
    + destruct IH as [Hk Hj]. split; [by eapply keeps_trans|]. intros j Hjn.
      destruct (decide (j = 0)) as [->|]; [by rewrite <- Es|].
      rewrite <- (Hj (j - 1)) by lia. do 2 f_equal. apply cursor_slot_next.
  - assert (kn_calls (ks_kernel sy) !! slot = Some (call_of (ks_kernel sy) slot)) as E.
    { unfold call_of in *. by destruct (kn_calls _ !! slot). }
    pose proof (call_of_idle _ _ slot Hc) as Hw. rewrite (bool_decide_false (_ = CALL_WAITING)) by done.
    cbn [andb]. rewrite bool_decide_true by (by destruct (kc_state _)).
    destruct (finish_closed sy1 slot _ Hc1 E Hf) as (? & Hd & ?). split; [done|]. split; [|done].
    by eapply drains_trans; [apply keeps_drains|].
Qed.

(** Four slots are all of them. *)
Lemma terminal_all now sy :
  shut sy → length generations = 4%nat →
  let '(sy', found) := terminal (Z.to_nat WL_KERNEL_CALLS) sy now generations in
  if found then delivers sy sy' else keeps sy sy' ∧ pending sy = [].
Proof.
  intros Hc H4. pose proof (terminal_closed 4 now sy Hc) as H. change (Z.to_nat WL_KERNEL_CALLS) with 4%nat.
  destruct (terminal 4 sy now generations) as [sy' []]; [done|]. destruct H as [Hk Hj]. split; [done|].
  assert (Forall (λ c, owed c = []) (kn_calls (ks_kernel sy))) as Hall.
  { apply Forall_lookup. intros i c E.
    assert (i < 4)%nat as Hi.
    { apply lookup_lt_Some in E. by rewrite <- (length_fmap kc_generation), (cs_generations _ _ Hc), H4 in E. }
    specialize (Hj ((Z.of_nat i - kn_call_cursor (ks_kernel sy)) mod 4) ltac:(apply Z.mod_pos_bound; lia)).
    unfold cursor_slot in Hj. rewrite Zplus_mod_idemp_r in Hj.
    replace (_ + (_ - _)) with (Z.of_nat i) in Hj by lia. rewrite Z.mod_small, Nat2Z.id in Hj by lia.
    rewrite (call_of_eq _ _ _ E) in Hj. unfold owed, is_live. by rewrite Hj. }
  unfold pending. induction Hall as [|c l Hc' _ IH]; [done|]. cbn. by rewrite Hc', IH.
Qed.

(** What one attempt of a round does: it keeps the calls, or delivers. *)
Lemma attempt_keeps budget f sy count error :
  (∀ sy, shut sy → keeps sy (f sy).1.1) → shut sy →
  let '(sy', count', _) := attempt budget f (sy, count, error) in keeps sy sy' ∧ count <= count' <= count + 1.
Proof.
  intros Hf Hc. unfold attempt. destruct (count <? budget); [|split; [done|lia]].
  specialize (Hf sy Hc). destruct (f sy) as [[sy1 did] stored]. split; [done|]. destruct did; lia.
Qed.

Lemma attempt_submit budget sy count error :
  shut sy → let '(sy', count', _) := attempt budget submit_tx (sy, count, error) in keeps sy sy' ∧ count' = count.
Proof.
  intros Hc. unfold attempt. destruct (submit_tx_closed sy Hc) as (sy' & E & Hk). rewrite E.
  by destruct (count <? budget).
Qed.

Lemma attempt_terminal budget now sy count error :
  shut sy → length generations = 4%nat →
  let '(sy', count', _) :=
    attempt budget (λ sy, (terminal (Z.to_nat WL_KERNEL_CALLS) sy now generations, None)) (sy, count, error) in
  (delivers sy sy' ∧ count' = count + 1) ∨
  (keeps sy sy' ∧ (count < budget → pending sy = []) ∧ count' = count).
Proof.
  intros Hc H4. unfold attempt. destruct (Z.ltb_spec count budget); [|right; split_and!; [done|lia|done]].
  pose proof (terminal_all now sy Hc H4) as H'. destruct (terminal _ sy now generations) as [sy' []].
  - by left.
  - right. by destruct H'.
Qed.

Lemma step_round_closed sy now budget count :
  shut sy → length generations = 4%nat →
  let '(sy', count', _) := step_round sy now generations budget count in
  shut sy' ∧ drains sy sy' ∧ count <= count' <= count + 3 ∧
  (count + 1 < budget → pending sy = [] ∨ ((length (pending sy') < length (pending sy))%nat ∧ count < count')).
Proof.
  intros Hc H4. unfold step_round. set (sy0 := io sy). assert (keeps sy sy0) as H0 by done.
  assert (shut sy0) as Hc0 by by eapply keeps_closed.
  set (st := if wl_packet_tx_ready _ then _ else _).
  assert (keeps sy st.1.1 ∧ count <= st.1.2 <= count + 1) as H1.
  { unfold st. destruct (wl_packet_tx_ready _); [|split; [done|cbn; lia]].
    pose proof (complete_tx_closed _ Hc0). destruct (complete_tx sy0). split; [by eapply keeps_trans|cbn; lia]. }
  destruct st as [[sy1 count1] e1]. cbn [fst snd] in H1. destruct H1 as [H1 Hn1].
  assert (shut sy1) as Hc1 by by eapply keeps_closed.
  pose proof (attempt_terminal budget now sy1 count1 e1 Hc1 H4) as H2.
  destruct (attempt _ _ (sy1, count1, e1)) as [[sy2 count2] e2].
  assert (shut sy2) as Hc2 by (destruct H2 as [[[] _]|[Hk _]]; [done|by eapply keeps_closed]).
  pose proof (attempt_submit budget sy2 count2 e2 Hc2) as H3.
  destruct (attempt budget submit_tx _) as [[sy3 count3] e3]. destruct H3 as [H3 ->].
  pose proof (attempt_keeps budget receive sy3 count2 e3 receive_closed) as H4'.
  assert (shut sy3) as Hc3 by by eapply keeps_closed. specialize (H4' Hc3).
  destruct (attempt budget receive _) as [[sy4 count4] e4]. destruct H4' as [Hk4 Hn4].
  assert (keeps sy2 sy4) as Hk by by eapply keeps_trans.
  assert (∀ s s', keeps s s' → pending s' = pending s) as Hpend by (intros s s' [[E _] _]; unfold pending; by rewrite E).
  split; [by eapply keeps_closed|]. rewrite (Hpend _ _ Hk), <- (Hpend _ _ H1).
  destruct H2 as [[(_ & Hd & Hlt) En]|(Hk2 & Hp & En)].
  - split; [|split; [lia|right; split; [done|lia]]].
    eapply drains_trans; [by apply keeps_drains|]. by eapply drains_trans, keeps_drains.
  - split; [|split; [lia|left; apply Hp; lia]]. apply keeps_drains. by eapply keeps_trans, keeps_trans.
Qed.

Lemma step_loop_closed fuel now budget : ∀ sy count result,
  shut sy → length generations = 4%nat →
  let sy' := (step_loop fuel sy now generations budget count result).1 in shut sy' ∧ drains sy sy'.
Proof.
  induction fuel as [|fuel IH]; intros sy count result Hc H4; cbn [step_loop]; [split; [done|by apply keeps_drains]|].
  destruct (count <? budget); [|split; [done|by apply keeps_drains]].
  pose proof (step_round_closed sy now budget count Hc H4) as H.
  destruct (step_round _ _ _ _ _) as [[sy1 count1] error]. destruct H as (Hc1 & Hd & _).
  destruct (count =? count1); [done|]. specialize (IH sy1 count1 (if is_ok result then error else result) Hc1 H4).
  cbn zeta in IH. destruct IH as [? ?]. split; [done|]. by eapply drains_trans.
Qed.

(** A round costs at most three of the budget and delivers one completion. *)
Lemma step_loop_delivers fuel now budget : ∀ sy count result,
  shut sy → length generations = 4%nat → (length (pending sy) <= fuel)%nat →
  count + 3 * Z.of_nat (length (pending sy)) < budget →
  pending (step_loop fuel sy now generations budget count result).1 = [].
Proof.
  induction fuel as [|fuel IH]; intros sy count result Hc H4 Hf Hb.
  { cbn. apply length_zero_iff_nil. lia. }
  destruct (decide (pending sy = [])) as [E|E].
  { destruct (step_loop_closed (S fuel) now budget sy count result Hc H4) as (_ & _ & d & _ & Hp).
    rewrite E in Hp. apply Permutation_nil_l in Hp. symmetry in Hp. by apply app_eq_nil in Hp as [_ ?]. }
  assert (0 < length (pending sy))%nat by (destruct (pending sy); [done|cbn; lia]). cbn [step_loop].
  rewrite (proj2 (Z.ltb_lt count budget)) by lia. pose proof (step_round_closed sy now budget count Hc H4) as H'.
  destruct (step_round _ _ _ _ _) as [[sy1 count1] error]. destruct H' as (Hc1 & Hd & Hn & Hp).
  destruct Hp as [|[Hlt Hn']]; [lia|done|]. rewrite (proj2 (Z.eqb_neq count count1)) by lia.
  apply IH; [done|done|lia|lia].
Qed.
End Closed.

Lemma step_closes generations sy now :
  closed_state generations sy → length generations = 4%nat → kn_in_step (ks_kernel sy) = false →
  let sy' := (wl_kernel_step sy now WL_KERNEL_BUDGET).1 in drains sy sy' ∧ pending sy' = [].
Proof.
  intros Hc H4 Hs. unfold wl_kernel_step.
  change ((WL_KERNEL_BUDGET =? 0) || (WL_KERNEL_BUDGET >? WL_KERNEL_BUDGET)) with false. cbn iota. rewrite Hs. cbn [wl_packet_take_activity].
  change (kn_calls (ks_kernel (io _))) with (kn_calls (ks_kernel sy)). rewrite (cs_generations _ _ Hc).
  set (sy1 := if _ : bool then _ else _). assert (keeps sy sy1) as Hk by (unfold sy1; by destruct (pp_activity _)).
  assert (closed_state generations sy1) as Hc1 by by eapply keeps_closed.
  assert (length (pending sy1) <= 4)%nat as Hp.
  { rewrite <- H4, <- (cs_generations _ _ Hc1), length_fmap. apply bind_length.
    intros c. unfold owed. destruct (is_live c); cbn; lia. }
  pose proof (step_loop_closed generations 16 now 16 sy1 0 WL_OK Hc1 H4) as [_ Hd].
  pose proof (step_loop_delivers generations 16 now 16 sy1 0 WL_OK Hc1 H4 ltac:(lia) ltac:(lia)) as He.
  change (Z.to_nat WL_KERNEL_BUDGET) with 16%nat. change WL_KERNEL_BUDGET with 16.
  destruct (step_loop _ _ _ _ _ _ _) as [sy2 error]. cbn [fst] in *. split; [|done].
  eapply drains_trans; [by apply keeps_drains|]. by eapply drains_trans, keeps_drains.
Qed.
End Laws.

(** ** The budget bounds the loop *)

Lemma attempt_count budget (f : sys → sys * bool * option wl_err) sy count error : count <= (attempt budget f (sy, count, error)).1.2.
Proof. unfold attempt. destruct (count <? budget); [|done]. destruct (f sy) as [[? []] ?]; cbn; lia. Qed.

Lemma step_round_count (sy : sys) now generations budget count :
  count <= (step_round sy now generations budget count).1.2.
Proof.
  unfold step_round. set (st := if wl_packet_tx_ready _ then _ else _).
  assert (count <= st.1.2) as H1
    by (unfold st; destruct (wl_packet_tx_ready _); [destruct (complete_tx _)|]; cbn; lia).
  destruct st as [[sy1 count1] e1]. cbn in H1.
  set (f := λ sy, _). pose proof (attempt_count budget f sy1 count1 e1) as H2.
  destruct (attempt budget f _) as [[sy2 count2] e2]. cbn in H2.
  pose proof (attempt_count budget submit_tx sy2 count2 e2) as H3.
  destruct (attempt budget submit_tx _) as [[sy3 count3] e3]. cbn in H3.
  pose proof (attempt_count budget receive sy3 count3 e3) as H4. lia.
Qed.

(** [step_loop] never runs out of fuel before it runs out of budget. *)
Lemma step_loop_fuel now generations budget : ∀ fuel fuel' (sy : sys) count result,
  (Z.to_nat (budget - count) <= fuel)%nat → (Z.to_nat (budget - count) <= fuel')%nat →
  step_loop fuel sy now generations budget count result = step_loop fuel' sy now generations budget count result.
Proof.
  induction fuel as [|fuel IH]; intros [|fuel'] sy count result Hf Hf'; [done| | |]; cbn [step_loop].
  - destruct (Z.ltb_spec count budget); [lia|done].
  - destruct (Z.ltb_spec count budget); [lia|done].
  - destruct (Z.ltb_spec count budget); [|done]. pose proof (step_round_count sy now generations budget count) as Hn.
    destruct (step_round _ _ _ _ _) as [[sy1 count1] error]. cbn in Hn.
    destruct (Z.eqb_spec count count1); [done|]. apply IH; lia.
Qed.
End Once.

(** ** The properties *)

Section Theorems.
Context {F W : Type} {pcode : PacketCode F W} {code : KernelCode F W}.
Notation sys := (ksystem F W).

(** C13: whatever the owner and the callbacks it is called back on do, in whatever order
    I/O completes, no operation number is used twice, and the calls accepted are exactly those
    completed, each once, and those still held in a call slot. *)
Theorem kernel_exactly_once (sy sy' : sys) :
  kernel_laws → kernel_start sy → rtc kernel_op sy sy' →
  NoDup (ks_accepted sy') ∧ NoDup (ks_completed sy').*1 ∧
  ks_accepted sy' ≡ₚ (ks_completed sy').*1 ++ live_ops sy' ∧ (length (live_ops sy') <= 4)%nat.
Proof.
  intros Hl Hs Hr. destruct (run_inv Hl sy sy' Hs Hr) as [H4 _ _ Hn Ha _].
  split; [done|]. rewrite Ha in Hn. split; [exact (proj1 (proj1 (NoDup_app _ _) Hn))|]. split; [done|].
  rewrite <- H4. apply bind_length. intros c. unfold live_op. destruct (is_live c); cbn; lia.
Qed.

(** What closing makes of a call that is held. *)
Definition closing (c : kernel_call F) : list (Z * kernel_result) := owed (close_call c).

(** C14: after a close, one step with the full budget calls back every call that was
    held, each once, the ones that still waited with the outcome "closed", whatever the
    callbacks try to start, cancel or send meanwhile; nothing accepted is left. *)
Theorem kernel_close_completes (sy sy1 sy2 : sys) (now : Z) :
  kernel_laws → kernel_start sy → rtc kernel_op sy sy1 → kn_in_step (ks_kernel sy1) = false →
  rtc user_step (wl_kernel_close sy1).1 sy2 →
  let sy3 := (wl_kernel_step sy2 now WL_KERNEL_BUDGET).1 in
  live_ops sy3 = [] ∧ ks_accepted sy3 = ks_accepted sy1 ∧ ks_accepted sy3 ≡ₚ (ks_completed sy3).*1 ∧
  ∃ delivered, ks_completed sy3 = ks_completed sy1 ++ delivered ∧
               delivered ≡ₚ kn_calls (ks_kernel sy1) ≫= closing.
Proof.
  intros Hl Hs Hr Hst Hu. destruct (run_inv Hl sy sy1 Hs Hr) as [H4 _ _ _ _ _].
  set (generations := kc_generation <$> (close_call <$> kn_calls (ks_kernel sy1))).
  assert (closed_state generations (wl_kernel_close sy1).1) as Hc.
  { unfold wl_kernel_close. rewrite Hst. split; cbn; [done| |done].
    apply Forall_fmap, Forall_forall. intros c _. apply close_call_idle. }
  destruct (user_closed_kernel _ _ _ Hu Hc) as (E & Ea & Ed).
  pose proof (keeps_closed _ _ _ Hc (user_closed _ _ _ Hu Hc)) as Hc2.
  destruct (step_closes Hl generations sy2 now Hc2) as [(Ea' & d & Ed' & Hp) Hn].
  { unfold generations. by rewrite !length_fmap. }
  { rewrite E. unfold wl_kernel_close. by rewrite Hst. }
  cbn zeta in *. set (sy3 := (wl_kernel_step sy2 now WL_KERNEL_BUDGET).1) in *.
  rewrite Hn, app_nil_r in Hp. assert (kernel_inv sy3) as [_ _ _ _ Ha _].
  { apply (step_inv Hl). eapply user_inv; [exact Hu|]. apply kernel_close_inv. exact (run_inv Hl sy sy1 Hs Hr). }
  rewrite live_ops_pending, Hn in Ha |- *. rewrite (app_nil_r (ks_completed sy3).*1 : _ ++ [].*1 = _) in Ha.
  split_and!; [done| |done|].
  - rewrite Ea', Ea. unfold wl_kernel_close. by rewrite Hst.
  - exists d. split; [rewrite Ed', Ed; unfold wl_kernel_close; by rewrite Hst|]. rewrite <- Hp.
    unfold pending. rewrite E. unfold wl_kernel_close. rewrite Hst. cbn. by rewrite (bind_fmap _ _ closing).
Qed.
End Theorems.

(** ** Witnesses *)

(** A device whose encoder writes one byte, whose sink holds every packet, and whose
    completions start the next call. *)
Definition demo_encode (f value a room : Z) (x : machine Z unit) : machine Z unit * wl_err * Z :=
  (x <| mc_mem := mset (mc_mem x) a value |>, WL_OK, 1).

Definition demo_sink : PacketCode Z unit :=
  {| call_submit := λ _ _ _ _ _ x, (x, WL_PACKET_STARTED); call_packet_notify := λ _ _ w, w |}.

Definition demo_passive : KernelCode Z unit :=
  {| call_kernel_encode := demo_encode; call_kernel_complete := λ _ _ _ _ _ sy, sy;
     call_kernel_route := λ _ _ sy, (sy, WL_OK); call_kernel_error := λ _ _ _ _ sy, sy;
     kernel_io := λ x, x |}.

Definition demo_call (code : KernelCode Z unit) (sy : ksystem Z unit) : ksystem Z unit :=
  (wl_kernel_call_start sy 1 2 9 (Some 0) 5 100 (Some 0) (Some 0) 0).1.1.

Definition demo_code : KernelCode Z unit :=
  {| call_kernel_encode := demo_encode; call_kernel_complete := λ _ _ _ _ _ sy, demo_call demo_passive sy;
     call_kernel_route := λ _ _ sy, (sy, WL_OK); call_kernel_error := λ _ _ _ _ sy, sy;
     kernel_io := λ x, x |}.

Lemma demo_call_code sy : demo_call demo_passive sy = demo_call demo_code sy.
Proof. reflexivity. Qed.

Lemma kernel_demo_laws : kernel_laws (code := demo_code).
Proof.
  split; intros; cbn; [|done|done]. rewrite demo_call_code. apply rtc_once. apply us_start.
Qed.

Definition demo_port : packet_port Z := (wl_packet_init true (mk_port (mk_packet_config 0 0 0 0 None None 0) 0 0 0 false
  false false [] [] 0 0 0 0 0 false) (mk_packet_config 77 1000 64 128 (Some 0) None 0)).1.
Definition demo_storage : list wl_span := (λ i, mk_span (2000 + 100 * Z.of_nat i) 64) <$> seq 0 9.
Definition demo_blank : kernel Z :=
  mk_kernel None None 0 [] [] (mk_borrow NULL 0 token_zero) token_zero 0 0 0 0 false false false false false.
Definition demo_config : kernel_config Z := mk_kernel_config demo_storage (Some 0) None 0.
Definition demo_start : ksystem Z unit :=
  mk_ksystem (wl_kernel_init demo_blank demo_port demo_config).1 (mk_machine (λ _, 0) demo_port tt) [] [].

(** Two calls; the first is sent and cancelled, and its callback starts a third. *)
Definition demo_two : ksystem Z unit := demo_call demo_code (demo_call demo_code demo_start).
Definition demo_sent : ksystem Z unit :=
  (wl_kernel_step (pcode := demo_sink) (code := demo_code) demo_two 6 1).1.
Definition demo_cancelled : ksystem Z unit := (wl_kernel_cancel demo_sent (mk_kernel_call_handle 77 1 1 0)).1.
Definition demo_end : ksystem Z unit :=
  (wl_kernel_step (pcode := demo_sink) (code := demo_code) demo_cancelled 7 16).1.
Definition demo_closed : ksystem Z unit :=
  (wl_kernel_step (pcode := demo_sink) (code := demo_code)
     (wl_kernel_close (pcode := demo_sink) (code := demo_code) demo_end).1 8 16).1.
Definition demo_op (sy sy' : ksystem Z unit) : Prop := kernel_op (pcode := demo_sink) (code := demo_code) sy sy'.

Lemma demo_start_ok : kernel_start demo_start.
Proof. by exists demo_blank, demo_config. Qed.

Lemma demo_call_op sy : demo_op sy (demo_call demo_code sy).
Proof. apply ko_user. unfold demo_call. apply us_start. Qed.

Lemma demo_run : rtc demo_op demo_start demo_end.
Proof.
  apply (rtc_l _ _ (demo_call demo_code demo_start)); [apply demo_call_op|].
  apply (rtc_l _ _ demo_two); [apply demo_call_op|].
  apply (rtc_l _ _ demo_sent); [exact (ko_step demo_two 6 1)|].
  apply (rtc_l _ _ demo_cancelled); [exact (ko_user _ _ (us_cancel demo_sent _))|].
  apply rtc_once. exact (ko_step demo_cancelled 7 16).
Qed.

Lemma kernel_exactly_once_witness :
  ks_accepted demo_end = [1; 2; 3] ∧
  ks_completed demo_end = [(1, mk_kernel_result WL_KERNEL_CANCELLED (wl_err_code WL_ERR_CANCELLED))] ∧
  NoDup (ks_accepted demo_end) ∧ ks_accepted demo_end ≡ₚ (ks_completed demo_end).*1 ++ live_ops demo_end.
Proof.
  destruct (kernel_exactly_once (pcode := demo_sink) (code := demo_code) demo_start demo_end kernel_demo_laws
              demo_start_ok demo_run) as (Hn & _ & Ha & _).
  split; [vm_compute; reflexivity|]. split; [vm_compute; reflexivity|]. split; [exact Hn|exact Ha].
Defined.

Lemma kernel_close_completes_witness :
  live_ops demo_closed = [] ∧
  (ks_completed demo_closed).*2 =
    [mk_kernel_result WL_KERNEL_CANCELLED (wl_err_code WL_ERR_CANCELLED);
     mk_kernel_result WL_KERNEL_CLOSED (wl_err_code WL_ERR_INVALID_STATE);
     mk_kernel_result WL_KERNEL_CLOSED (wl_err_code WL_ERR_INVALID_STATE)] ∧
  ks_accepted demo_closed ≡ₚ (ks_completed demo_closed).*1.
Proof.
  destruct (kernel_close_completes (pcode := demo_sink) (code := demo_code) demo_start demo_end
              (wl_kernel_close (pcode := demo_sink) (code := demo_code) demo_end).1 8 kernel_demo_laws
              demo_start_ok demo_run ltac:(vm_compute; reflexivity) ltac:(apply rtc_refl)) as (Hl & _ & Ha & _).
  split; [exact Hl|]. split; [vm_compute; reflexivity|exact Ha].
Defined.
