(* ===== verification/FixedPool.v ===== *)
(** The fixed-block allocator ([fixed_pool.c]) and the contract of an allocator
    ([allocator.h]).

    A pool is one word of used bits over blocks of equal stride.  Pointers are
    addresses of the flat memory.  A run keeps, for the statements only, the list of
    live allocations; as the contract asks, only a live allocation is given back. *)
From S2P Require Import Prelude.
#[local] Open Scope Z_scope.

(** [wl_fixed_pool_t] *)
Record fixed_pool := mk_fixed_pool {
  fp_storage : Z;
  fp_stride : Z;
  fp_alignment : Z;
  fp_used : Z;
  fp_count : Z;
}.

#[export] Instance fixed_pool_rebuild : Rebuild fixed_pool := λ p,
  mk_fixed_pool (fp_storage p) (fp_stride p) (fp_alignment p) (fp_used p) (fp_count p).

(** [wl_allocator_t]: the two functions and the context they work on. *)
Record wl_allocator (C : Type) := mk_allocator {
  al_allocate : C → Z → Z → C * Z;
  al_deallocate : C → Z → Z → Z → C;
  al_context : C;
}.
Arguments mk_allocator {C}.
Arguments al_allocate {C}.
Arguments al_deallocate {C}.
Arguments al_context {C}.

(** [alignment == 0U || (alignment & (alignment - 1U)) != 0U] *)
Definition bad_alignment (alignment : Z) : bool :=
  (alignment =? 0) || negb (Z.land alignment (usize (alignment - 1)) =? 0).

Definition wl_fixed_pool_init (pool : fixed_pool) (storage storage_size block_size alignment block_count : Z)
    : fixed_pool * wl_err :=
  if (storage =? NULL) || (block_size =? 0) || (block_count =? 0) || (block_count >? 64) ||
     bad_alignment alignment || negb (storage mod alignment =? 0) then (pool, WL_ERR_INVALID_ARG)
  else if block_size >? SIZE_MAX - (alignment - 1) then (pool, WL_ERR_INVALID_ARG)
  else
    let stride := Z.ldiff (usize (block_size + alignment - 1)) (alignment - 1) in
    if stride >? SIZE_MAX / block_count then (pool, WL_ERR_INVALID_ARG)
    else if storage_size <? usize (stride * block_count) then (pool, WL_ERR_BUF_TOO_SMALL)
    else (mk_fixed_pool storage stride alignment 0 block_count, WL_OK).

(** [n] blocks from [index] on are left to look at. *)
Fixpoint allocate_loop (n : nat) (index : Z) (pool : fixed_pool) : fixed_pool * Z :=
  match n with
  | O => (pool, NULL)
  | S n =>
      let bit := u64 (Z.shiftl 1 index) in
      if Z.land (fp_used pool) bit =? 0
      then (pool <| fp_used := Z.lor (fp_used pool) bit |>, fp_storage pool + usize (index * fp_stride pool))
      else allocate_loop n (index + 1) pool
  end.

Definition allocate (pool : fixed_pool) (size alignment : Z) : fixed_pool * Z :=
  if (fp_count pool =? 0) || (size =? 0) || (size >? fp_stride pool) || bad_alignment alignment ||
     (alignment >? fp_alignment pool) then (pool, NULL)
  else allocate_loop (Z.to_nat (fp_count pool)) 0 pool.

Definition deallocate (pool : fixed_pool) (pointer size alignment : Z) : fixed_pool :=
  let offset := usize (pointer - fp_storage pool) in
  pool <| fp_used := Z.ldiff (fp_used pool) (u64 (Z.shiftl 1 (offset / fp_stride pool))) |>.

Definition wl_fixed_pool_allocator (pool : fixed_pool) : wl_allocator fixed_pool :=
  mk_allocator allocate deallocate pool.

(** Every round clears one of the 64 bits. *)
Fixpoint in_use_loop (fuel : nat) (bits count : Z) : Z :=
  match fuel with
  | O => count
  | S fuel => if bits =? 0 then count else in_use_loop fuel (Z.land bits (u64 (bits - 1))) (count + 1)
  end.

Definition wl_fixed_pool_in_use (pool : fixed_pool) : Z := in_use_loop 64 (fp_used pool) 0.

(** ** The contract of an allocator *)

(** A live allocation, as the caller must hand it back. *)
Record allocation := mk_allocation { an_pointer : Z; an_size : Z; an_alignment : Z }.

(** The allocations an allocator handed out and did not take back, latest first. *)
Inductive alloc_run {C} (al : wl_allocator C) : C → list allocation → Prop :=
  | ar_start : alloc_run al (al_context al) []
  | ar_refuse c live size alignment c' :
      alloc_run al c live → is_size size → is_size alignment →
      al_allocate al c size alignment = (c', NULL) → alloc_run al c' live
  | ar_allocate c live size alignment c' pointer :
      alloc_run al c live → is_size size → is_size alignment →
      al_allocate al c size alignment = (c', pointer) → pointer ≠ NULL →
      alloc_run al c' (mk_allocation pointer size alignment :: live)
  | ar_deallocate c before after a :
      alloc_run al c (before ++ a :: after) →
      alloc_run al (al_deallocate al c (an_pointer a) (an_size a) (an_alignment a)) (before ++ after).

(** What [allocator.h] promises of the memory handed out: it lies in the region the
    allocator manages, it is aligned, and no two allocations share a byte. *)
Record alloc_contract (low high : Z) (live : list allocation) : Prop := {
  ac_region a : a ∈ live → low <= an_pointer a ∧ an_pointer a + an_size a <= high;
  ac_aligned a : a ∈ live → an_pointer a mod an_alignment a = 0;
  ac_disjoint i j a b : i ≠ j → live !! i = Some a → live !! j = Some b →
    an_pointer a + an_size a <= an_pointer b ∨ an_pointer b + an_size b <= an_pointer a;
}.

(** ** Bits *)

Lemma bit_value i : 0 <= i < 64 → u64 (Z.shiftl 1 i) = 2 ^ i.
Proof.
  intros Hi. rewrite Z.shiftl_1_l. unfold u64. apply Z.mod_small. split; [apply Z.pow_nonneg; lia|].
  apply Z.pow_lt_mono_r; lia.
Qed.

Lemma land_bit x i : 0 <= i → (Z.land x (2 ^ i) =? 0) = negb (Z.testbit x i).
Proof.
  intros Hi. destruct (Z.testbit x i) eqn:E; cbn.
  - apply Z.eqb_neq. intros H0. pose proof (Z.land_spec x (2 ^ i) i) as H.
    by rewrite H0, E, Z.bits_0, Z.pow2_bits_true in H by lia.
  - apply Z.eqb_eq. apply Z.bits_inj'. intros j Hj. rewrite Z.land_spec, Z.bits_0.
    destruct (decide (i = j)) as [<-|]; [by rewrite E|]. rewrite Z.pow2_bits_false by done. apply andb_false_r.
Qed.

Lemma testbit_set x i j : 0 <= i → Z.testbit (Z.lor x (2 ^ i)) j = Z.testbit x j || (i =? j).
Proof. intros Hi. by rewrite Z.lor_spec, Z.pow2_bits_eqb by lia. Qed.

Lemma testbit_clear x i j : 0 <= i → Z.testbit (Z.ldiff x (2 ^ i)) j = Z.testbit x j && negb (i =? j).
Proof. intros Hi. by rewrite Z.ldiff_spec, Z.pow2_bits_eqb by lia. Qed.

(** [x & (x - 1)] is [x] without its lowest bit. *)
Lemma lowest_bit x :
  0 < x → ∃ k, 0 <= k ∧ Z.testbit x k = true ∧
    ∀ i, 0 <= i → Z.testbit (Z.land x (x - 1)) i = Z.testbit x i && negb (k =? i).
Proof.
  induction x as [x IH] using (well_founded_induction (Z.lt_wf 0)). intros Hx.
  destruct (Z.Even_or_Odd x) as [[y ->]|[y ->]].
  - destruct (IH y) as (k & Hk & Ek & Hb); [lia|lia|]. exists (k + 1). split; [lia|].
    replace (k + 1) with (Z.succ k) by lia. rewrite Z.testbit_even_succ by lia. split; [done|].
    intros i Hi. rewrite Z.land_spec. destruct (Z.eq_decidable i 0) as [->|Hn].
    { by rewrite Z.testbit_even_0. }
    replace i with (Z.succ (i - 1)) by lia. rewrite Z.testbit_even_succ by lia.
    replace (2 * y - 1) with (2 * (y - 1) + 1) by lia. rewrite Z.testbit_odd_succ by lia.
    rewrite <- Z.land_spec, Hb by lia. f_equal. f_equal. lia.
  - exists 0. split; [lia|]. rewrite Z.testbit_odd_0. split; [done|]. intros i Hi.
    rewrite Z.land_spec. replace (2 * y + 1 - 1) with (2 * y) by lia.
    destruct (Z.eq_decidable i 0) as [->|Hn]; [by rewrite Z.testbit_even_0, Z.eqb_refl, !andb_false_r|].
    replace i with (Z.succ (i - 1)) by lia. rewrite Z.testbit_even_succ, Z.testbit_odd_succ by lia.
    rewrite (proj2 (Z.eqb_neq 0 _)) by lia. by rewrite andb_diag, andb_true_r.
Qed.

Lemma pool_power_of_two x : 0 < x → Z.land x (x - 1) = 0 → ∃ k, 0 <= k ∧ x = 2 ^ k.
Proof.
  intros Hx H. exists (Z.log2 x). split; [apply Z.log2_nonneg|].
  destruct (Z.log2_spec x Hx) as [Hl Hu]. destruct (decide (x = 2 ^ Z.log2 x)) as [|Hn]; [done|].
  exfalso. pose proof (Z.land_spec x (x - 1) (Z.log2 x)) as Hb. rewrite H, Z.bits_0 in Hb.
  assert (Z.log2 (x - 1) = Z.log2 x) as El by (apply Z.log2_unique; [apply Z.log2_nonneg|lia]).
  pose proof (Z.pow_pos_nonneg 2 (Z.log2 x) ltac:(lia) (Z.log2_nonneg x)).
  rewrite Z.bit_log2, <- El, Z.bit_log2 in Hb by lia. done.
Qed.

(** ** The invariant of a pool *)

(** Two blocks have no byte in common. *)
Lemma blocks_disjoint storage stride i j a b size_a size_b :
  0 < stride → i ≠ j → a = storage + i * stride → b = storage + j * stride → size_a <= stride → size_b <= stride →
  a + size_a <= b ∨ b + size_b <= a.
Proof. intros. assert (i < j ∨ j < i) as [?|?] by lia; [left|right]; nia. Qed.

Section Pool.
Context (storage storage_size stride alignment count : Z).
Hypothesis Hstorage : 0 < storage ∧ storage + storage_size <= 2 ^ 64.
Hypothesis Hcount : 0 < count <= 64.
Hypothesis Hstride : 0 < stride ∧ stride * count <= storage_size.
Hypothesis Halign : storage mod alignment = 0 ∧ stride mod alignment = 0.

(** Allocation [a] is block [i]. *)
Definition is_block (a : allocation) (i : Z) : Prop :=
  an_pointer a = storage + i * stride ∧ 0 < an_size a <= stride ∧
  0 < an_alignment a ∧ (an_alignment a | alignment).

Record pool_inv (p : fixed_pool) (live : list allocation) (blocks : list Z) : Prop := {
  pi_config : p = mk_fixed_pool storage stride alignment (fp_used p) count;
  pi_used : 0 <= fp_used p;
  pi_blocks : Forall2 is_block live blocks;
  pi_once : NoDup blocks;
  pi_bits i : 0 <= i → Z.testbit (fp_used p) i = true ↔ i ∈ blocks;
  pi_range : Forall (λ i, 0 <= i < count) blocks;
}.

Lemma block_offset i : 0 <= i < count → 0 <= i * stride ∧ i * stride + stride <= storage_size.
Proof. intros Hi. nia. Qed.

Lemma pool_blocks_bound blocks :
  NoDup blocks → Forall (λ i, 0 <= i < count) blocks → Z.of_nat (length blocks) <= count.
Proof.
  intros Hn Hr. rewrite <- (Z2Nat.id count) by lia. apply inj_le.
  rewrite <- (length_seqZ 0 count). apply NoDup_incl_length; [by apply NoDup_ListNoDup|].
  intros i Hi. apply list_elem_of_In, elem_of_seqZ. rewrite Forall_forall in Hr.
  apply list_elem_of_In in Hi. specialize (Hr i Hi). lia.
Qed.

Lemma in_use_loop_spec fuel : ∀ bits blocks n,
  NoDup blocks → (∀ i, 0 <= i → Z.testbit bits i = true ↔ i ∈ blocks) → Forall (λ i, 0 <= i) blocks →
  0 <= bits < 2 ^ 64 → (length blocks <= fuel)%nat →
  in_use_loop fuel bits n = n + Z.of_nat (length blocks).
Proof.
  assert (∀ blocks, Forall (λ i, 0 <= i) blocks → (∀ i, 0 <= i → i ∉ blocks) → blocks = []) as Hnil.
  { intros [|i blocks] Hp Hb; [done|]. apply Forall_cons in Hp as [Hi _]. destruct (Hb i Hi). constructor. }
  induction fuel as [|fuel IH]; intros bits blocks n Hn Hb Hp Hbits Hl.
  { destruct blocks; cbn in *; lia. }
  cbn [in_use_loop]. destruct (Z.eqb_spec bits 0) as [->|H0].
  { rewrite (Hnil blocks Hp); [cbn; lia|]. intros i Hi H. apply (Hb i Hi) in H. by rewrite Z.bits_0 in H. }
  destruct (lowest_bit bits) as (k & Hk & Ek & Hlow); [lia|].
  apply (Hb k Hk) in Ek. apply list_elem_of_split in Ek as (l1 & l2 & ->).
  assert (l1 ++ k :: l2 ≡ₚ k :: l1 ++ l2) as Hperm by solve_Permutation.
  rewrite Hperm in Hn, Hp, Hl |- *. apply NoDup_cons in Hn as [Hk' Hn]. apply Forall_cons in Hp as [_ Hp].
  unfold u64. rewrite Z.mod_small by lia. cbn [length] in *. rewrite (IH _ (l1 ++ l2)); [lia|done| |done| |lia].
  - intros i Hi. rewrite Hlow by done. rewrite andb_true_iff, (Hb i Hi), Hperm, elem_of_cons, negb_true_iff, Z.eqb_neq.
    split; [by intros [[->|?] ?]|]. intros Hin. split; [by right|]. by intros ->.
  - split; [apply Z.land_nonneg; lia|]. apply bound_testbit; [lia|apply Z.land_nonneg; lia|].
    intros i Hi. rewrite Z.land_spec, (testbit_above bits i 64) by lia. done.
Qed.

Lemma allocate_loop_spec n : ∀ i p,
  0 <= i → i + Z.of_nat n <= 64 →
  let '(p', pointer) := allocate_loop n i p in
  (p' = p ∧ pointer = NULL ∧ ∀ j, i <= j < i + Z.of_nat n → Z.testbit (fp_used p) j = true) ∨
  (∃ k, i <= k < i + Z.of_nat n ∧ Z.testbit (fp_used p) k = false ∧
        p' = p <| fp_used := Z.lor (fp_used p) (2 ^ k) |> ∧ pointer = fp_storage p + usize (k * fp_stride p)).
Proof.
  induction n as [|n IH]; intros i p Hi Hn; cbn [allocate_loop]; [left; split_and!; [done|done|lia]|].
  rewrite bit_value, land_bit by lia. destruct (Z.testbit (fp_used p) i) eqn:E; cbn [negb].
  - specialize (IH (i + 1) p ltac:(lia) ltac:(lia)). destruct (allocate_loop n (i + 1) p) as [p' pointer].
    destruct IH as [(? & ? & Hj)|(k & ? & ?)]; [left|right; exists k; split; [lia|done]].
    split_and!; [done|done|]. intros j Hj'. destruct (decide (j = i)) as [->|]; [done|]. apply Hj. lia.
  - right. exists i. split; [lia|done].
Qed.

Hypothesis Hpower : ∃ k, 0 <= k ∧ alignment = 2 ^ k.

Lemma good_alignment a : is_size a → bad_alignment a = false → a <= alignment → 0 < a ∧ (a | alignment).
Proof.
  intros Ha Hb Hle. unfold is_size in Ha. apply orb_false_iff in Hb as [H0 Hb].
  apply Z.eqb_neq in H0. apply negb_false_iff, Z.eqb_eq in Hb. unfold usize in Hb. rewrite Z.mod_small in Hb by lia.
  destruct (pool_power_of_two a ltac:(lia) Hb) as (j & Hj & ->). destruct Hpower as (k & Hk & Ek). rewrite Ek in Hle |- *.
  split; [apply Z.pow_pos_nonneg; lia|]. apply Z.pow_le_mono_r_iff in Hle; [|lia|lia].
  exists (2 ^ (k - j)). rewrite <- Z.pow_add_r by lia. f_equal. lia.
Qed.

Lemma allocate_inv p live blocks size a :
  pool_inv p live blocks → is_size size → is_size a →
  let '(p', pointer) := allocate p size a in
  (p' = p ∧ pointer = NULL) ∨
  (∃ k, pointer ≠ NULL ∧ pool_inv p' (mk_allocation pointer size a :: live) (k :: blocks)).
Proof.
  intros [Ec Hu Hf Hn Hb Hr] Hs Ha. unfold allocate. destruct (_ || _) eqn:Eg; [by left|].
  rewrite Ec in Eg. cbn in Eg. rewrite !orb_false_iff in Eg. destruct Eg as [[[[_ Es0] Es] Eb] Ea].
  destruct (good_alignment a Ha Eb ltac:(lia)) as [Hap Had]. unfold is_size in Hs.
  assert (fp_count p = count ∧ fp_storage p = storage ∧ fp_stride p = stride) as (Ecn & Est & Esd) by by rewrite Ec.
  pose proof (allocate_loop_spec (Z.to_nat (fp_count p)) 0 p ltac:(lia) ltac:(lia)) as H.
  destruct (allocate_loop _ 0 p) as [p' pointer]. destruct H as [(? & ? & _)|(k & Hk & Ek & -> & ->)]; [by left|].
  right. exists k. rewrite Est, Esd. rewrite Z2Nat.id, Ecn in Hk by lia. destruct (block_offset k) as [Hk0 Hk1]; [lia|].
  unfold usize. rewrite Z.mod_small by lia. split; [unfold NULL; lia|]. split; cbn.
  - by rewrite Ec.
  - apply Z.lor_nonneg. split; [done|]. apply Z.pow_nonneg. lia.
  - constructor; [|done]. split_and!; cbn; [done|lia|lia|done|done].
  - constructor; [|done]. intros Hin. apply Hb in Hin; [|lia]. congruence.
  - intros i Hi. rewrite testbit_set, orb_true_iff, (Hb i Hi), elem_of_cons, Z.eqb_eq by lia.
    split; [intros [?| ->]; auto|]. intros [->|?]; auto.
  - constructor; [lia|done].
Qed.

Lemma deallocate_inv p before after a blocks :
  pool_inv p (before ++ a :: after) blocks →
  ∃ blocks', pool_inv (deallocate p (an_pointer a) (an_size a) (an_alignment a)) (before ++ after) blocks'.
Proof.
  intros [Ec Hu Hf Hn Hb Hr]. apply Forall2_app_inv_l in Hf as (b1 & b2 & Hf1 & Hf2 & ->).
  apply Forall2_cons_inv_l in Hf2 as (k & b3 & (Ep & _) & Hf2 & ->). exists (b1 ++ b3).
  assert (b1 ++ k :: b3 ≡ₚ k :: b1 ++ b3) as Hperm by solve_Permutation.
  rewrite Hperm in Hn, Hr. apply NoDup_cons in Hn as [Hk Hn]. apply Forall_cons in Hr as [Hkr Hr].
  assert (u64 (Z.shiftl 1 (usize (an_pointer a - fp_storage p) / fp_stride p)) = 2 ^ k) as Eb.
  { rewrite Ec, Ep. cbn. destruct (block_offset k) as [Hk0 Hk1]; [lia|]. unfold usize.
    replace (storage + k * stride - storage) with (k * stride) by lia. rewrite Z.mod_small by lia.
    rewrite Z.div_mul by lia. apply bit_value. lia. }
  unfold deallocate. rewrite Eb. split; cbn.
  - by rewrite Ec.
  - apply Z.ldiff_nonneg. by left.
  - by apply Forall2_app.
  - done.
  - intros i Hi. rewrite testbit_clear, andb_true_iff, (Hb i Hi), Hperm, elem_of_cons, negb_true_iff, Z.eqb_neq by lia.
    split; [by intros [[->|?] ?]|]. intros Hin. split; [by right|]. by intros ->.
  - done.
Qed.
Lemma contract_of_inv p live blocks :
  pool_inv p live blocks → alloc_contract storage (storage + storage_size) live.
Proof.
  intros [Ec Hu Hf Hn Hb Hr]. split.
  - intros a Hin. apply list_elem_of_lookup in Hin as [j Ej].
    destruct (Forall2_lookup_l _ _ _ _ _ Hf Ej) as (i & Ei & Ep & Hs & _).
    rewrite Forall_lookup in Hr. destruct (block_offset i (Hr _ _ Ei)). lia.
  - intros a Hin. apply list_elem_of_lookup in Hin as [j Ej].
    destruct (Forall2_lookup_l _ _ _ _ _ Hf Ej) as (i & Ei & Ep & _ & Hp & Hd). destruct Halign as [H1 H2].
    assert (0 < alignment) as Hal by (destruct Hpower as (k & Hk & ->); apply Z.pow_pos_nonneg; lia).
    apply Z.mod_divide in H1, H2; [|lia|lia]. rewrite Ep. apply Z.mod_divide; [lia|].
    apply Z.divide_add_r; [by etrans|]. apply Z.divide_mul_r. by etrans.
  - intros x y a b Hxy Ex Ey. destruct (Forall2_lookup_l _ _ _ _ _ Hf Ex) as (i & Ei & Ep & Hs & _).
    destruct (Forall2_lookup_l _ _ _ _ _ Hf Ey) as (j & Ej & Ep' & Hs' & _).
    apply (blocks_disjoint storage stride i j); [lia| |done|done|lia|lia].
    intros ->. apply Hxy. by eapply NoDup_lookup.
Qed.

Lemma in_use_of_inv p live blocks :
  pool_inv p live blocks → wl_fixed_pool_in_use p = Z.of_nat (length blocks).
Proof.
  intros [Ec Hu Hf Hn Hb Hr]. unfold wl_fixed_pool_in_use. pose proof (pool_blocks_bound blocks Hn Hr).
  rewrite (in_use_loop_spec 64 _ blocks); [lia|done|done| | |lia].
  - eapply Forall_impl; [done|]. cbn. lia.
  - split; [done|]. apply bound_testbit; [lia|done|]. intros i Hi.
    destruct (Z.testbit (fp_used p) i) eqn:E; [|done]. apply Hb in E; [|lia].
    rewrite Forall_forall in Hr. specialize (Hr i E). lia.
Qed.

Lemma full_of_inv p live blocks size a :
  pool_inv p live blocks → stride < 2 ^ 64 → alignment < 2 ^ 64 →
  0 < size <= stride → 0 <= a → bad_alignment a = false → a <= alignment →
  (allocate p size a).2 = NULL ↔ Z.of_nat (length blocks) = count.
Proof.
  intros Hi Hs64 Ha64 Hs Ha0 Hb Ha. pose proof Hi as [Ec _ _ Hn Hbits Hr]. pose proof (pool_blocks_bound blocks Hn Hr).
  split.
  - unfold allocate. rewrite Hb.
    assert (fp_count p = count ∧ fp_stride p = stride ∧ fp_alignment p = alignment) as (-> & -> & ->) by by rewrite Ec.
    replace ((count =? 0) || (size =? 0) || (size >? stride) || false || (a >? alignment)) with false by lia.
    pose proof (allocate_loop_spec (Z.to_nat count) 0 p ltac:(lia) ltac:(lia)) as H'.
    destruct (allocate_loop _ 0 p) as [p' pointer]. cbn. intros ->.
    destruct H' as [(_ & _ & Hall)|(k & Hk & _ & _ & E)].
    + assert (length (seqZ 0 count) <= length blocks)%nat as Hl; [|rewrite length_seqZ in Hl; lia].
      apply NoDup_incl_length; [apply NoDup_ListNoDup, NoDup_seqZ|]. intros j Hj.
      apply list_elem_of_In, elem_of_seqZ in Hj. apply list_elem_of_In, Hbits; [lia|]. apply Hall. lia.
    + exfalso. rewrite Ec in E. cbn in E. destruct (block_offset k) as [Hk0 Hk1]; [lia|].
      unfold usize in E. rewrite Z.mod_small in E by lia. unfold NULL in E. lia.
  - intros El. pose proof (allocate_inv p live blocks size a Hi ltac:(unfold is_size; lia) ltac:(unfold is_size; lia)) as H'.
    destruct (allocate p size a) as [p' pointer]. destruct H' as [[_ ->]|(k & _ & Hi')]; [done|].
    pose proof (pool_blocks_bound _ (pi_once _ _ _ Hi') (pi_range _ _ _ Hi')) as Hle. cbn in Hle. lia.
Qed.
End Pool.

(** What a successful initialization establishes. *)
Lemma init_facts pool0 pool storage storage_size block_size alignment block_count :
  0 <= storage → is_size storage_size → is_size block_size → is_size alignment → is_u32 block_count →
  wl_fixed_pool_init pool0 storage storage_size block_size alignment block_count = (pool, WL_OK) →
  ∃ stride, pool = mk_fixed_pool storage stride alignment 0 block_count ∧ 0 < storage ∧
    0 < block_count <= 64 ∧ 0 < stride ∧ block_size <= stride ∧ stride * block_count <= storage_size ∧
    storage mod alignment = 0 ∧ stride mod alignment = 0 ∧ ∃ k, 0 <= k ∧ alignment = 2 ^ k.
Proof.
  unfold is_size, is_u32. intros H0 Hs Hb Ha Hc. unfold wl_fixed_pool_init. destruct (_ || _) eqn:E; [done|].
  rewrite !orb_false_iff in E. destruct E as [[[[[E1 E2] E3] E4] E5] E6]. apply negb_false_iff, Z.eqb_eq in E6.
  apply orb_false_iff in E5 as [E5 E7]. apply negb_false_iff, Z.eqb_eq in E7. unfold usize in E7.
  rewrite Z.mod_small in E7 by lia. destruct (pool_power_of_two alignment ltac:(lia) E7) as (k & Hk & ->).
  unfold SIZE_MAX. destruct (block_size >? _) eqn:E8; [done|]. unfold usize. rewrite (Z.mod_small (_ + _ - _)) by lia.
  set (stride := Z.ldiff _ _).
  assert (stride = (block_size + 2 ^ k - 1) / 2 ^ k * 2 ^ k) as Est.
  { unfold stride. replace (2 ^ k - 1) with (Z.ones k) by (rewrite Z.ones_equiv; lia).
    by rewrite Z.ldiff_ones_r, Z.shiftl_mul_pow2, Z.shiftr_div_pow2 by lia. }
  assert (block_size <= stride) as Hle.
  { rewrite Est. pose proof (Z.div_mod (block_size + 2 ^ k - 1) (2 ^ k) ltac:(lia)).
    pose proof (Z.mod_pos_bound (block_size + 2 ^ k - 1) (2 ^ k) ltac:(lia)). lia. }
  destruct (stride >? _) eqn:E9; [done|].
  assert (stride * block_count <= 2 ^ 64 - 1) as Hm.
  { pose proof (Z.mul_div_le (2 ^ 64 - 1) block_count ltac:(lia)). nia. }
  rewrite (Z.mod_small (stride * block_count)) by nia. destruct (storage_size <? _) eqn:E10; [done|].
  intros [= <-]. exists stride. unfold NULL in *. split_and!; try done; try lia.
  - rewrite Est. apply Z.mod_mul. lia.
  - by exists k.
Qed.

Lemma run_blocks pool p live storage storage_size stride alignment count :
  pool = mk_fixed_pool storage stride alignment 0 count → 0 < storage → storage + storage_size <= 2 ^ 64 →
  0 < count <= 64 → 0 < stride → stride * count <= storage_size →
  (∃ k, 0 <= k ∧ alignment = 2 ^ k) → alloc_run (wl_fixed_pool_allocator pool) p live →
  ∃ blocks, pool_inv storage stride alignment count p live blocks.
Proof.
  intros -> H1 H2 H3 H4 H5 H6. induction 1 as [|c live size a c' _ [blocks IH] Hs Ha E|
    c live size a c' pointer _ [blocks IH] Hs Ha E Hp|c before after a _ [blocks IH]]; cbn in *.
  - exists []. split; cbn; [done|done|constructor|constructor| |constructor].
    intros i _. rewrite Z.bits_0. split; [done|]. by intros ?%elem_of_nil.
  - pose proof (allocate_inv storage storage_size stride alignment count ltac:(done) ltac:(done) ltac:(done) ltac:(done)
      c live blocks size a IH Hs Ha) as H. rewrite E in H.
    destruct H as [[-> _]|(k & Hp & _)]; [by exists blocks|done].
  - pose proof (allocate_inv storage storage_size stride alignment count ltac:(done) ltac:(done) ltac:(done) ltac:(done)
      c live blocks size a IH Hs Ha) as H. rewrite E in H.
    destruct H as [[_ ->]|(k & _ & Hi)]; [done|by exists (k :: blocks)].
  - by eapply deallocate_inv.
Qed.

(** C34: a pool that was initialized keeps the contract of an allocator through every
    run in which allocations are given back as they were obtained: what is live lies in
    the storage, is aligned as requested, and no two live allocations overlap; the number
    in use is the number of live allocations; and a request within the block size is
    refused exactly when all blocks are live. *)
Theorem fixed_pool_contract pool0 pool storage storage_size block_size alignment block_count p live :
  0 <= storage → storage + storage_size <= 2 ^ 64 → is_size storage_size → is_size block_size →
  is_size alignment → is_u32 block_count →
  wl_fixed_pool_init pool0 storage storage_size block_size alignment block_count = (pool, WL_OK) →
  alloc_run (wl_fixed_pool_allocator pool) p live →
  alloc_contract storage (storage + storage_size) live ∧
  wl_fixed_pool_in_use p = Z.of_nat (length live) ∧
  Z.of_nat (length live) <= block_count ∧
  ∀ size a, 0 < size <= block_size → bad_alignment a = false → 0 <= a <= alignment →
    (allocate p size a).2 = NULL ↔ Z.of_nat (length live) = block_count.
Proof.
  intros H0 Hwrap Hs Hb Ha Hc Hinit Hrun.
  destruct (init_facts _ _ _ _ _ _ _ H0 Hs Hb Ha Hc Hinit)
    as (stride & Epool & Hst & Hcnt & Hsp & Hsb & Hfit & Hm1 & Hm2 & Hpow).
  destruct (run_blocks _ _ _ _ _ _ _ _ Epool Hst Hwrap Hcnt Hsp Hfit Hpow Hrun) as [blocks Hi].
  pose proof (pi_blocks _ _ _ _ _ _ _ Hi) as Hf. pose proof (Forall2_length _ _ _ Hf) as El. rewrite El.
  pose proof (pool_blocks_bound block_count Hcnt blocks (pi_once _ _ _ _ _ _ _ Hi) (pi_range _ _ _ _ _ _ _ Hi)) as Hle.
  assert (0 < storage ∧ storage + storage_size <= 2 ^ 64) as Hr1 by done.
  assert (0 < stride ∧ stride * block_count <= storage_size) as Hr2 by done.
  assert (storage mod alignment = 0 ∧ stride mod alignment = 0) as Hr3 by done.
  split_and!; [by eapply contract_of_inv|by eapply in_use_of_inv|done|].
  intros size a Hsize Hbad Hal. unfold is_size, is_u32 in *.
  by apply (full_of_inv storage storage_size stride alignment block_count) with live; try done; try lia; try nia.
Qed.

(** Three blocks: two are taken, the first is given back, and taken again. *)
Definition demo_blank_pool : fixed_pool := mk_fixed_pool 0 0 0 0 0.
Definition demo_pool : fixed_pool := (wl_fixed_pool_init demo_blank_pool 4096 64 10 8 3).1.
Definition demo_pool_end : fixed_pool :=
  (allocate (deallocate (allocate (allocate demo_pool 10 8).1 16 4).1 4096 10 8) 3 2).1.

Lemma fixed_pool_contract_witness :
  wl_fixed_pool_in_use demo_pool_end = 2 ∧
  alloc_contract 4096 4160 [mk_allocation 4096 3 2; mk_allocation 4112 16 4] ∧
  ((allocate demo_pool_end 10 8).2 = NULL ↔ 2 = 3).
Proof.
  destruct (fixed_pool_contract demo_blank_pool demo_pool 4096 64 10 8 3 demo_pool_end
              [mk_allocation 4096 3 2; mk_allocation 4112 16 4]) as (Hc & Hu & _ & Hfull).
  1: lia.
  1: lia.
  1-3: unfold is_size; lia.
  1: unfold is_u32; lia.
  1: reflexivity.
  { apply (ar_allocate _ (deallocate (allocate (allocate demo_pool 10 8).1 16 4).1 4096 10 8));
      [|unfold is_size; lia|unfold is_size; lia|reflexivity|done].
    apply (ar_deallocate (wl_fixed_pool_allocator demo_pool) (allocate (allocate demo_pool 10 8).1 16 4).1
             [mk_allocation 4112 16 4] [] (mk_allocation 4096 10 8)).
    apply (ar_allocate _ (allocate demo_pool 10 8).1); [|unfold is_size; lia|unfold is_size; lia|reflexivity|done].
    apply (ar_allocate _ demo_pool); [apply ar_start|unfold is_size; lia|unfold is_size; lia|reflexivity|done]. }
  split; [exact Hu|]. split; [exact Hc|]. apply Hfull; [lia|reflexivity|lia].
Defined.
